(* ===== verification/_CoqProject ===== *)
-Q . S2P
Prelude.v
Types.v
Opcodes.v
Memory.v
Machine.v
Floats.v
Numeric.v
Context.v
Executor.v
Invariant.v
Instantiate.v
Demo.v
Loop.v
Control.v
Access.v
Effect.v
Reader.v
Parser.v
Encode.v
Validator.v
Instance.v
Ring.v
Io.v
Buddy.v
BuddyBlocks.v
Frames.v
Slab.v
Mqueue.v
Shm.v
Text.v
Memfs.v
Vfs.v
Permissions.v
Sandbox.v
Ipc.v
Services.v
Apps.v
Windows.v
Bytes.v
Sha.v
Aes.v
Gcm.v
Chacha.v
X25519.v
Net.v
Ip.v
Udp.v
Tcp.v
Dns.v
Random.v
Stack.v
Tls13.v
