(* ===== verification/Prelude.v ===== *)
(** * KPIO: a verification of the WebAssembly runtime and of kernel services

    KPIO is an operating system whose applications are WebAssembly programs.
    This library models two layers of it and proves what they promise: the
    runtime crate ([src/runtime/src]), which parses, validates, instantiates and
    interprets modules, and services of the kernel ([src/kernel/src]): memory
    allocators, asynchronous I/O, interprocess communication, the file system
    with its descriptors and sandbox, the management of applications, and the
    network stack with its cryptography.

    ** Conventions

    A function of the source is a definition of the same name where Rocq allows
    it; a struct is a [Record] and an enum an [Inductive] with the source's
    constructors.  Integers are [Z] with their width written out ([wrap],
    [swrap], [as_u32], ...).  A fallible function returns an [outcome]: [Ok],
    [Err], or [Panic] for a Rust panic.  Arithmetic that overflows panics, as
    in the dev profile.  Code that takes [&mut] is in the monad [M], which keeps
    the state after an error, as a mutable borrow does.  Objects behind
    [Arc<Mutex<_>>] live in a heap and are named by indices, so aliasing is
    visible.  A [BTreeMap] is a [gmap], sorted where it is iterated.  [wp]
    states what an operation leaves behind on success and on failure, [triple]
    that it keeps an invariant; [wp_step] is the symbolic step.

    ** The runtime

    - [Types], [Opcodes]: [module.rs], [opcodes.rs] and the types of [lib.rs].
    - [Memory]: [memory.rs].  [Machine]: the state of [interpreter.rs].
    - [Floats], [Numeric]: the float helpers and the numeric instructions of
      [executor.rs]; the bits of a NaN result are a parameter.
    - [Context], [Executor]: the rest of [executor.rs], from the context to the
      main loop.  Host functions are a parameter; the theorems about runs say what
      they assume of those that are bound ([hosts_keep] of [Invariant]), or that none is.
    - [Reader], [Parser]: the binary reader and the parser of [parser.rs].
    - [Validator]: its validator and the entry points of [module.rs].
    - [Instance]: [instance.rs], [engine.rs] and the entry points of [lib.rs].

    [Invariant], [Instantiate] and [Loop] show that instantiation establishes and
    every iteration of the main loop keeps the invariant of the executor, that a
    run with fuel ends, and for which modules it does not panic.  [Control],
    [Access], [Effect] and [Numeric] give the functional behaviour of the
    instructions, [Reader], [Parser] and [Encode] that parsing ends, returns
    well-formed modules and inverts the binary format, and [Validator] that the
    checks decide the validity they mean to.  [Instance] puts them together for
    [Engine::execute].  [Demo] is a module that all of this is applied to.

    ** The kernel

    - [Ring], [Io]: [io/].  Rings refine bounded queues and the subsystem refines
      what it promises to processes.
    - [Buddy], [BuddyBlocks], [Frames], [Slab]: [memory/buddy.rs], [mod.rs],
      [refcount.rs] and [slab.rs].  Memory that is handed out is exclusive; free
      memory is conserved until the slots of the buddy allocator are used up.
    - [Mqueue], [Shm], [Ipc], [Services]: [ipc/].  The message queues refine a
      table of priority queues, the accounting of shared memory is exact,
      channels deliver in order without loss, and the tables of the service
      registry agree.
    - [Text], [Memfs], [Vfs], [Sandbox]: the operations on strings, then
      [terminal/fs.rs], [vfs/mod.rs] with [vfs/fd.rs], and [vfs/sandbox.rs].  The
      file system stays a tree of names, a write changes its own path only, a
      descriptor reads its file, and applications that use relative paths are
      isolated from each other.  [Sandbox] is proved from [Vfs], and [Vfs] from
      the specifications of the operations of [Memfs].
    - [Permissions], [Apps], [Windows]: [app/permissions.rs], [app/registry.rs]
      with [app/lifecycle.rs], and [app/window_state.rs], which store their data
      through [Vfs].  What is stored is read back (permissions lose their
      lists), and restarts are bounded.
    - [Bytes], [Sha], [Aes], [Gcm], [Chacha], [X25519]: the operations on bytes,
      then [net/crypto/]: [sha.rs] with [hmac.rs] and [hkdf.rs], [aes.rs],
      [aes_gcm.rs], [chacha20.rs] and [x25519.rs].  The incremental hash is the
      hash, decryption undoes encryption, the three authenticated ciphers are
      instances of the interface [Aead], and the arithmetic on limbs is that of
      the polynomial and of the field it stands for.  Test vectors of the
      standards are evaluated where the code agrees with them.
    - [Net], [Ip], [Udp], [Tcp], [Dns], [Random], [Stack], [Tls13]: the network
      stack, [net/].  [Net] is the wire format of [ethernet.rs], [ipv4.rs] and
      [arp.rs], [Ip] their tables with ICMP, [Udp], [Tcp] and [Dns] the files of
      these names, [Random] the generator of [crypto/random.rs] over a hardware
      source that is a parameter, and [Stack] the layers together: [mod.rs], the
      table of connections and the operations that wait.  Network cards are an
      interface, [NetworkDevice].  What is built is parsed back, no frame but one
      kind makes the receiver panic, a connection delivers a prefix of the
      stream of its peer, and a datagram reaches the socket it is sent to.
      [Tls13] is [tls13.rs], proved from [Aead]: what is sent is received in
      order, and nothing a server sends makes the handshake panic after the key
      exchange, as long as reading from the connection does not panic.

    Where the code does something other than it means to, the model follows the
    code and a theorem or lemma under "What goes wrong at the edges" states what
    happens.

    ** Bounds and fuel

    The main loop of the interpreter takes a number of iterations; with [f] units
    of fuel [2 * f + 2] are enough, which is proved.  The loops of the parser get
    the number of bytes that are left, since an iteration reads at least one; a loop
    that used it up would return the error [hung], which no code of the source
    returns, and it is proved that no loop does.  The walks of the buddy
    allocator get one more than the number of slots, since a list has no slot
    twice.  [drain] of the I/O subsystem gets one more than the length of the
    ring.  [tree_size] and [tree_count] take a depth and return [None] beyond it:
    on a cyclic tree the source does not return.  The parsers of network messages
    get the number of bytes, since every iteration skips a header, and are proved
    to return.  A TLS handshake takes the number of records that it follows in the
    first loop over encrypted records, which a server can prolong at will; it
    returns [None] if the loop goes on, and ends if the server sends a bounded
    number of bytes.  Counters that panic or wrap at
    [2^32] or [2^64] appear as bounds on the number of calls.

    ** Not modelled

    Code that works on raw memory or on devices: page tables, interrupts,
    drivers, the boot code and the system-call dispatch, which reads the memory
    of its caller.  The bodies of host functions, WASI, the JIT compiler, the
    component model, packages and service workers of the runtime crate.  In the
    kernel the scheduler, processes, security policies, the loader, the graphical
    interface and updates, and of its network stack DHCP, HTTP, WebSocket, the
    bridge to WASI and the verification of certificates; the storage, network,
    graphics and browser crates and the user library.  Within the files that are
    modelled: log output, [Debug] formatting, and accessors that only return a
    field.  Operations are atomic, as behind one lock; the service registry,
    whose registration takes its locks twice, is also modelled in steps. *)

From stdpp Require Export base tactics option numbers list strings pretty relations.
From Stdlib Require Export ZArith Lia Ascii.

Open Scope Z_scope.

(** ** Outcomes of Rust functions

    A fallible function returns [Ok] or [Err]; [Panic] is a Rust panic:
    an index or slice out of range, an [unwrap] of [None], or an integer
    operation that overflows (the dev profile checks overflow; the release
    profile of the workspace wraps instead). *)

Inductive outcome (E A : Type) : Type :=
| Ok (a : A)
| Err (e : E)
| Panic.
Arguments Ok {E A} a.
Arguments Err {E A} e.
Arguments Panic {E A}.

Definition map_err {E E' A} (f : E → E') (o : outcome E A) : outcome E' A :=
  match o with
  | Ok a => Ok a
  | Err e => Err (f e)
  | Panic => Panic
  end.

#[export] Instance outcome_ret {E} : MRet (outcome E) := λ A a, Ok a.

#[export] Instance outcome_bind {E} : MBind (outcome E) := λ A B k o,
  match o with
  | Ok a => k a
  | Err e => Err e
  | Panic => Panic
  end.

(** [l[i]] of a vector or slice. *)
Definition ok_or_panic {E A} (o : option A) : outcome E A :=
  match o with Some a => Ok a | None => Panic end.

(** ** State and errors

    Code that takes [&mut] arguments and returns a [Result]: the state
    survives an error, as it does behind a mutable borrow. *)

Definition M (S E A : Type) : Type := S → outcome E A * S.

#[export] Instance M_ret {S E} : MRet (M S E) := λ A a s, (Ok a, s).

#[export] Instance M_bind {S E} : MBind (M S E) := λ A B k m s,
  match m s with
  | (Ok a, s') => k a s'
  | (Err e, s') => (Err e, s')
  | (Panic, s') => (Panic, s')
  end.

Definition throw {S E A} (e : E) : M S E A := λ s, (Err e, s).
Definition panic {S E A} : M S E A := λ s, (Panic, s).
Definition get {S E} : M S E S := λ s, (Ok s, s).
Definition gets {S E A} (f : S → A) : M S E A := λ s, (Ok (f s), s).
Definition put {S E} (s' : S) : M S E unit := λ _, (Ok tt, s').
Definition modify {S E} (f : S → S) : M S E unit := λ s, (Ok tt, f s).
Definition lift {S E A} (o : outcome E A) : M S E A := λ s, (o, s).

(** [Option::ok_or] followed by [?], and [Option::unwrap]. *)
Definition ok_or {S E A} (o : option A) (e : E) : M S E A :=
  match o with Some a => mret a | None => throw e end.
Definition unwrap {S E A} (o : option A) : M S E A :=
  match o with Some a => mret a | None => panic end.

(** Run an operation on a part of the state. *)
Definition zoom {S T E A} (proj : S → T) (upd : T → S → S) (m : M T E A) : M S E A :=
  λ s, let '(o, t) := m (proj s) in (o, upd t s).

(** [for _ in 0..n { v.push(f()?) }] *)
Fixpoint repeat_m {S E A} (n : nat) (f : M S E A) : M S E (list A) :=
  match n with
  | O => mret []
  | S n => x ← f; xs ← repeat_m n f; mret (x :: xs)
  end.

(** [for x in l { f(x)? }] *)
Fixpoint iter_m {S E A} (f : A → M S E unit) (l : list A) : M S E unit :=
  match l with
  | [] => mret tt
  | x :: l => f x;; iter_m f l
  end.

(** ** Machine integers

    An integer of width [w] is a [Z]; unsigned ones lie in [0, 2^w), signed
    ones in [-2^(w-1), 2^(w-1)).  [wrap w] is the cast [as uw] and [swrap w]
    the cast [as iw]. *)

Definition wrap (w z : Z) : Z := z mod 2 ^ w.
Definition swrap (w z : Z) : Z :=
  let u := wrap w z in if u <? 2 ^ (w - 1) then u else u - 2 ^ w.

Definition in_u (w z : Z) : Prop := 0 ≤ z < 2 ^ w.
Definition in_s (w z : Z) : Prop := - 2 ^ (w - 1) ≤ z < 2 ^ (w - 1).

Definition as_u8 (z : Z) : Z := wrap 8 z.
Definition as_u16 (z : Z) : Z := wrap 16 z.
Definition as_u32 (z : Z) : Z := wrap 32 z.
Definition as_u64 (z : Z) : Z := wrap 64 z.
Definition as_usize (z : Z) : Z := wrap 64 z.
Definition as_i8 (z : Z) : Z := swrap 8 z.
Definition as_i16 (z : Z) : Z := swrap 16 z.
Definition as_i32 (z : Z) : Z := swrap 32 z.
Definition as_i64 (z : Z) : Z := swrap 64 z.

Definition U32_MAX : Z := 2 ^ 32 - 1.
Definition USIZE_MAX : Z := 2 ^ 64 - 1.

(** [checked_add] of width [w]; [a - b] and [a + b] under overflow checks. *)
Definition checked_add (w a b : Z) : option Z :=
  if a + b <? 2 ^ w then Some (a + b) else None.
Definition add_or_panic {S E} (w a b : Z) : M S E Z := unwrap (checked_add w a b).
Definition sub_or_panic {S E} (a b : Z) : M S E Z :=
  if a <? b then panic else mret (a - b).

(** [Vec::len] and indexing with a [usize]. *)
Definition len {A} (l : list A) : Z := Z.of_nat (length l).
Definition vget {A} (l : list A) (i : Z) : option A :=
  if i <? 0 then None else if i <? len l then l !! Z.to_nat i else None.
Definition vset {A} (l : list A) (i : Z) (x : A) : list A := <[Z.to_nat i := x]> l.

(** [&l[a..b]] for [0 <= a <= b <= len l]. *)
Definition slice {A} (l : list A) (a b : Z) : list A :=
  take (Z.to_nat (b - a)) (drop (Z.to_nat a) l).

(** [l[off .. off + |bs|].copy_from_slice(bs)] for a range inside [l]. *)
Definition splice {A} (l : list A) (off : Z) (bs : list A) : list A :=
  take (Z.to_nat off) l ++ bs ++ drop (Z.to_nat off + length bs) l.

(** [Vec::resize] *)
Definition resize {A} (l : list A) (n : Z) (x : A) : list A :=
  if n <=? len l then take (Z.to_nat n) l
  else l ++ replicate (Z.to_nat n - length l) x.

(** ** Bytes: [to_le_bytes] and [from_le_bytes] *)

Fixpoint to_le_bytes (n : nat) (v : Z) : list Z :=
  match n with
  | O => []
  | S n => v mod 256 :: to_le_bytes n (v / 256)
  end.

Fixpoint from_le_bytes (bs : list Z) : Z :=
  match bs with
  | [] => 0
  | b :: bs => b + 256 * from_le_bytes bs
  end.

Definition bytes_ok (bs : list Z) : Prop := Forall (in_u 8) bs.

(** A Rust [String] built from bytes. *)
Definition byte_char (b : Z) : Ascii.ascii := Ascii.ascii_of_N (Z.to_N b).
Definition string_of_bytes (bs : list Z) : string :=
  fold_right (λ b s, String (byte_char b) s) EmptyString bs.

(** [core::str::from_utf8]: the well-formed byte sequences of the Unicode
    standard. *)
Definition between (a b x : Z) : bool := (a <=? x) && (x <=? b).
Fixpoint utf8_valid (bs : list Z) : bool :=
  match bs with
  | [] => true
  | b0 :: r0 =>
      if b0 <? 0x80 then utf8_valid r0
      else if between 0xC2 0xDF b0 then
        match r0 with
        | b1 :: r1 => between 0x80 0xBF b1 && utf8_valid r1
        | [] => false
        end
      else if between 0xE0 0xEF b0 then
        match r0 with
        | b1 :: b2 :: r2 =>
            between (if b0 =? 0xE0 then 0xA0 else 0x80) (if b0 =? 0xED then 0x9F else 0xBF) b1
            && between 0x80 0xBF b2 && utf8_valid r2
        | _ => false
        end
      else if between 0xF0 0xF4 b0 then
        match r0 with
        | b1 :: b2 :: b3 :: r3 =>
            between (if b0 =? 0xF0 then 0x90 else 0x80) (if b0 =? 0xF4 then 0x8F else 0xBF) b1
            && between 0x80 0xBF b2 && between 0x80 0xBF b3 && utf8_valid r3
        | _ => false
        end
      else false
  end.

(** The double quote that the Debug formatting of a string prints. *)
Definition quote : string := String (Ascii.ascii_of_nat 34) EmptyString.

(** [format!("{:#x}")] of an unsigned integer. *)
Definition hex_digit (d : Z) : Ascii.ascii :=
  Ascii.ascii_of_N (Z.to_N (if d <? 10 then 48 + d else 87 + d)).
Fixpoint hex_go (fuel : nat) (z : Z) (acc : string) : string :=
  match fuel with
  | O => acc
  | S fuel =>
      let acc := String (hex_digit (z mod 16)) acc in
      if z <? 16 then acc else hex_go fuel (z / 16) acc
  end.
Definition hex (z : Z) : string := "0x" +:+ hex_go 16 z EmptyString.

(** ** Weakest preconditions

    [wp m Q X s]: running [m] from [s] ends in [Q] on success and in [X] on
    an error ([Some e]) or a panic ([None]). *)

Definition wp {S E A} (m : M S E A) (Q : A → S → Prop) (X : option E → S → Prop)
    (s : S) : Prop :=
  match m s with
  | (Ok a, s') => Q a s'
  | (Err e, s') => X (Some e) s'
  | (Panic, s') => X None s'
  end.

Section wp.
Context {S E : Type}.
Implicit Types s : S.
Implicit Types X : option E → S → Prop.

Lemma wp_bind {A B} (m : M S E A) (k : A → M S E B) Q X s :
  wp m (λ a s', wp (k a) Q X s') X s → wp (m ≫= k) Q X s.
Proof. unfold wp, mbind, M_bind. by destruct (m s) as [[a|e|] s']. Qed.

Lemma wp_bind_inv {A B} (m : M S E A) (k : A → M S E B) Q X s :
  wp (m ≫= k) Q X s → wp m (λ a s', wp (k a) Q X s') X s.
Proof. unfold wp, mbind, M_bind. by destruct (m s) as [[a|e|] s']. Qed.

Lemma wp_ret {A} (a : A) Q X s : Q a s → wp (mret a) Q X s.
Proof. done. Qed.

Lemma wp_mono {A} (m : M S E A) (Q Q' : A → S → Prop) X X' s :
  wp m Q X s → (∀ a s', Q a s' → Q' a s') → (∀ e s', X e s' → X' e s') →
  wp m Q' X' s.
Proof. unfold wp. destruct (m s) as [[a|e|] s']; eauto. Qed.

Lemma wp_throw {A} (e : E) (Q : A → S → Prop) X s : X (Some e) s → wp (throw e) Q X s.
Proof. done. Qed.

Lemma wp_gets {A} (f : S → A) Q X s : Q (f s) s → wp (gets f) Q X s.
Proof. done. Qed.

Lemma wp_get (Q : S → S → Prop) X s : Q s s → wp get Q X s.
Proof. done. Qed.

Lemma wp_modify (f : S → S) Q X s : Q tt (f s) → wp (modify f) Q X s.
Proof. done. Qed.

Lemma wp_lift {A} (o : outcome E A) (Q : A → S → Prop) X s :
  match o with Ok a => Q a s | Err e => X (Some e) s | Panic => X None s end →
  wp (lift o) Q X s.
Proof. by destruct o. Qed.

Lemma wp_ok_or {A} (o : option A) (e : E) (Q : A → S → Prop) X s :
  (∀ a, o = Some a → Q a s) → (o = None → X (Some e) s) → wp (ok_or o e) Q X s.
Proof. destruct o; simpl; intros HQ HX; [by apply HQ|by apply HX]. Qed.

Lemma wp_unwrap {A} (o : option A) (Q : A → S → Prop) X s :
  (∀ a, o = Some a → Q a s) → (o = None → X None s) → wp (unwrap o) Q X s.
Proof. destruct o; simpl; intros HQ HX; [by apply HQ|by apply HX]. Qed.

Lemma wp_unwrap_Some {A} (o : option A) a (Q : A → S → Prop) X s :
  o = Some a → Q a s → wp (unwrap o) Q X s.
Proof. by intros ->. Qed.

Lemma wp_lift_Ok {A} (o : outcome E A) a (Q : A → S → Prop) X s :
  o = Ok a → Q a s → wp (lift o) Q X s.
Proof. by intros ->. Qed.

Lemma wp_sub a b (Q : Z → S → Prop) X s : b ≤ a → Q (a - b) s → wp (sub_or_panic a b) Q X s.
Proof. intros Hab HQ. unfold sub_or_panic. destruct (Z.ltb_spec a b); [lia|done]. Qed.

Lemma wp_add w a b (Q : Z → S → Prop) X s :
  a + b < 2 ^ w → Q (a + b) s → wp (add_or_panic w a b) Q X s.
Proof.
  intros Hab HQ. unfold add_or_panic, checked_add. destruct (Z.ltb_spec (a + b) (2 ^ w)); [done|lia].
Qed.

Lemma wp_zoom {T A} (proj : S → T) (upd : T → S → S) (m : M T E A) Q X s :
  wp m (λ a t, Q a (upd t s)) (λ e t, X e (upd t s)) (proj s) →
  wp (zoom proj upd m) Q X s.
Proof. unfold wp, zoom. by destruct (m (proj s)) as [[a|e|] t]. Qed.
End wp.

Lemma bind_assoc {S E A B C} (m : M S E A) (f : A → M S E B) (g : B → M S E C) s :
  ((m ≫= f) ≫= g) s = (m ≫= (λ a, f a ≫= g)) s.
Proof. unfold mbind, M_bind. by destruct (m s) as [[?|?|] ?]. Qed.

(** One symbolic step of a weakest precondition. *)
Ltac wp_step :=
  lazymatch goal with
  | |- wp (_ ≫= _) _ _ _ => apply wp_bind
  | |- wp (mret _) _ _ _ => apply wp_ret
  | |- wp (throw _) _ _ _ => apply wp_throw
  | |- wp (gets _) _ _ _ => apply wp_gets
  | |- wp get _ _ _ => apply wp_get
  | |- wp (modify _) _ _ _ => apply wp_modify
  | |- wp (zoom _ _ _) _ _ _ => apply wp_zoom
  | |- wp (ok_or _ _) _ _ _ => apply wp_ok_or; [intros ? ?|intros ?]
  | |- wp (unwrap _) _ _ _ => apply wp_unwrap; [intros ? ?|intros ?]
  | |- wp (lift _) _ _ _ => apply wp_lift
  end.

(** [m] ends normally, in a state and with a result that satisfy [Q]. *)
Abbreviation returns m Q := (wp m Q (λ _ _, False)).

Lemma returns_mono {S E A} (m : M S E A) (Q Q' : A → S → Prop) s :
  returns m Q s → (∀ a s', Q a s' → Q' a s') → returns m Q' s.
Proof. intros Hm HQ. by eapply wp_mono. Qed.

Lemma returns_eq {S E A} (m : M S E A) (Q : A → S → Prop) s :
  returns m Q s → ∃ a s', m s = (Ok a, s') ∧ Q a s'.
Proof. unfold wp. destruct (m s) as [[a|e|] s']; [|done..]. by exists a, s'. Qed.

(** ** Invariants

    [triple I X m Q]: from a state in [I], [m] ends in [I]; a result satisfies
    [Q] and a failure ([Some e] an error, [None] a panic) satisfies [X].  An
    operation that is proved for every [X] with [X (Some e)] never panics. *)

Definition triple {S E A} (I : S → Prop) (X : option E → Prop) (m : M S E A) (Q : A → Prop) : Prop :=
  ∀ s, I s → wp m (λ a s', I s' ∧ Q a) (λ e s', I s' ∧ X e) s.

Section triple.
Context {S E : Type} (I : S → Prop) (X : option E → Prop).

Lemma triple_wp {A} (m : M S E A) (Q : A → Prop) (Q' : A → S → Prop) (X' : option E → S → Prop) s :
  triple I X m Q → I s → (∀ a s', I s' → Q a → Q' a s') → (∀ e s', I s' → X e → X' e s') →
  wp m Q' X' s.
Proof. intros Hm Hs HQ HX. eapply wp_mono; [by apply Hm|intros ? ? []; auto..]. Qed.

Lemma triple_mono {A} (m : M S E A) (Q Q' : A → Prop) :
  triple I X m Q → (∀ a, Q a → Q' a) → triple I X m Q'.
Proof. intros Hm HQ s Hs. eapply wp_mono; [by apply Hm| |done]. intros a s' [? ?]. eauto. Qed.

Lemma triple_ret {A} (a : A) (Q : A → Prop) : Q a → triple I X (mret a) Q.
Proof. intros Ha s Hs. by apply wp_ret. Qed.

Lemma triple_bind {A B} (m : M S E A) (k : A → M S E B) (Q : A → Prop) (Q' : B → Prop) :
  triple I X m Q → (∀ a, Q a → triple I X (k a) Q') → triple I X (m ≫= k) Q'.
Proof.
  intros Hm Hk s Hs. apply wp_bind. eapply wp_mono; [by apply Hm| |done].
  intros a s' [Hs' Ha]. by apply (Hk a Ha).
Qed.

Lemma triple_throw {A} e (Q : A → Prop) : X (Some e) → triple I X (throw e) Q.
Proof. intros Hx s Hs. by apply wp_throw. Qed.

Lemma triple_panic {A} (Q : A → Prop) : X None → triple I X panic Q.
Proof. intros Hx s Hs. by split. Qed.

Lemma triple_gets {A} (f : S → A) (Q : A → Prop) : (∀ s, I s → Q (f s)) → triple I X (gets f) Q.
Proof. intros HQ s Hs. apply wp_gets. auto. Qed.

Lemma triple_get (Q : S → Prop) : (∀ s, I s → Q s) → triple I X get Q.
Proof. intros HQ s Hs. split; auto. Qed.

Lemma triple_modify (f : S → S) : (∀ s, I s → I (f s)) → triple I X (modify f) (λ _, True).
Proof. intros HI s Hs. apply wp_modify. auto. Qed.

Lemma triple_lift {A} (o : outcome E A) (Q : A → Prop) :
  match o with Ok a => Q a | Err e => X (Some e) | Panic => X None end → triple I X (lift o) Q.
Proof. intros Ho s Hs. apply wp_lift. by destruct o. Qed.

Lemma triple_ok_or {A} (o : option A) e (Q : A → Prop) :
  X (Some e) → (∀ a, o = Some a → Q a) → triple I X (ok_or o e) Q.
Proof. intros Hx HQ s Hs. apply wp_ok_or; intros; auto. Qed.

Lemma triple_unwrap {A} (o : option A) (Q : A → Prop) :
  (∀ a, o = Some a → Q a) → (o = None → X None) → triple I X (unwrap o) Q.
Proof. intros HQ Hx s Hs. apply wp_unwrap; intros; auto. Qed.

Lemma triple_zoom {T A} (J : T → Prop) (proj : S → T) (upd : T → S → S) (m : M T E A) (Q : A → Prop) :
  (∀ s, I s → J (proj s)) → (∀ s t, I s → J t → I (upd t s)) →
  triple J X m Q → triple I X (zoom proj upd m) Q.
Proof.
  intros Hp Hu Hm s Hs. apply wp_zoom. eapply wp_mono; [by apply Hm, Hp|..];
    intros a t [Ht ?]; split; auto.
Qed.

Lemma triple_iter {A} (f : A → M S E unit) (P : A → Prop) l :
  (∀ x, P x → triple I X (f x) (λ _, True)) → Forall P l → triple I X (iter_m f l) (λ _, True).
Proof.
  intros Hf. induction 1 as [|x l Hx _ IH]; simpl; [by apply triple_ret|].
  eapply triple_bind; [by apply Hf|]. by intros _ _.
Qed.

Lemma triple_repeat {A} (f : M S E A) (Q : A → Prop) n :
  triple I X f Q → triple I X (repeat_m n f) (λ l, Forall Q l ∧ length l = n).
Proof.
  intros Hf. induction n as [|n IH]; simpl; [by apply triple_ret|].
  eapply triple_bind; [done|]. intros a Ha. eapply triple_bind; [done|].
  intros l [Hl <-]. apply triple_ret. split; [by constructor|done].
Qed.
End triple.

Lemma triple_sub {S E} (I : S → Prop) (X : option E → Prop) a b :
  (a < b → X None) → triple I X (sub_or_panic a b) (λ x, x = a - b ∧ b ≤ a).
Proof.
  intros Hx. unfold sub_or_panic. destruct (Z.ltb_spec a b); [by apply triple_panic, Hx|by apply triple_ret].
Qed.

Lemma triple_add {S E} (I : S → Prop) (X : option E → Prop) w a b :
  (2 ^ w ≤ a + b → X None) → triple I X (add_or_panic w a b) (λ x, x = a + b ∧ x < 2 ^ w).
Proof.
  intros Hx. unfold add_or_panic, checked_add. apply triple_unwrap.
  - intros x. destruct (Z.ltb_spec (a + b) (2 ^ w)); [|done]. by intros [= <-].
  - destruct (Z.ltb_spec (a + b) (2 ^ w)); [done|]. auto.
Qed.

(** Turn boolean tests of hypotheses and of the goal into propositions. *)
Ltac ztest :=
  repeat match goal with
  | H : (_ <? _) = true |- _ => apply Z.ltb_lt in H
  | H : (_ <? _) = false |- _ => apply Z.ltb_ge in H
  | H : (_ <=? _) = true |- _ => apply Z.leb_le in H
  | H : (_ <=? _) = false |- _ => apply Z.leb_gt in H
  | H : (_ =? _) = true |- _ => apply Z.eqb_eq in H
  | H : (_ =? _) = false |- _ => apply Z.eqb_neq in H
  end.

Ltac zcase :=
  match goal with
  | |- context [?a <? ?b] => destruct (Z.ltb_spec a b)
  | |- context [?a <=? ?b] => destruct (Z.leb_spec a b)
  | |- context [?a =? ?b] => destruct (Z.eqb_spec a b)
  end.

(** Enumerate the elements of a literal list. *)
Ltac case_elem H :=
  apply list_elem_of_In in H; simpl in H; destruct_or! H; simplify_eq; try done.

(** ** Lemmas on machine integers *)

Create HintDb kpio.
#[export] Hint Constants Opaque : kpio.

Lemma pow2_pos w : 0 ≤ w → 0 < 2 ^ w.
Proof. intros. by apply Z.pow_pos_nonneg. Qed.

Lemma pow2_half w : 0 < w → 2 ^ w = 2 * 2 ^ (w - 1).
Proof.
  intros. replace w with (Z.succ (w - 1)) at 1 by lia.
  rewrite Z.pow_succ_r by lia. done.
Qed.

Lemma wrap_range w z : 0 ≤ w → in_u w (wrap w z).
Proof. intros. unfold in_u, wrap. apply Z.mod_pos_bound. by apply pow2_pos. Qed.

Lemma wrap_id w z : in_u w z → wrap w z = z.
Proof. intros. unfold wrap. by apply Z.mod_small. Qed.

Lemma swrap_range w z : 0 < w → in_s w (swrap w z).
Proof.
  intros Hw. pose proof (wrap_range w z) as Hr. pose proof (pow2_half w Hw).
  unfold in_u, in_s, swrap in *. zcase; lia.
Qed.

Lemma swrap_id w z : 0 < w → in_s w z → swrap w z = z.
Proof.
  intros Hw Hz. pose proof (pow2_half w Hw) as Hp. unfold in_s, swrap, wrap in *.
  destruct (Z_lt_le_dec z 0).
  - replace (z mod 2 ^ w) with (z + 2 ^ w).
    + zcase; lia.
    + apply (Z.mod_unique_pos _ _ (-1)); lia.
  - rewrite Z.mod_small by lia. zcase; lia.
Qed.

Lemma wrap_swrap w z : 0 < w → wrap w (swrap w z) = wrap w z.
Proof.
  intros. unfold swrap. zcase.
  - apply wrap_id. apply wrap_range. lia.
  - unfold wrap. rewrite Zminus_mod, Z.mod_same, Z.sub_0_r, !Zmod_mod; [done|].
    pose proof (pow2_pos w). lia.
Qed.

Lemma swrap_wrap w z : swrap w (wrap w z) = swrap w z.
Proof. unfold swrap, wrap. by rewrite Zmod_mod. Qed.

Lemma swrap_eq_wrap w a b : 0 < w → wrap w a = wrap w b → swrap w a = swrap w b.
Proof. intros ? Heq. unfold swrap. by rewrite Heq. Qed.

Lemma wrap_in_s w z : 0 < w → in_s w z → wrap w z = if z <? 0 then z + 2 ^ w else z.
Proof.
  intros Hw Hz. pose proof (pow2_half w Hw). unfold in_s, wrap in *. zcase.
  - symmetry. apply (Z.mod_unique_pos _ _ (-1)); lia.
  - apply Z.mod_small. lia.
Qed.

#[export] Hint Resolve wrap_range swrap_range : kpio.

(** ** Lemmas on vectors *)

Lemma len_nonneg {A} (l : list A) : 0 ≤ len l.
Proof. unfold len. lia. Qed.

Lemma len_cons {A} (x : A) l : len (x :: l) = len l + 1.
Proof. unfold len. simpl. lia. Qed.

Lemma len_cons_eqb {A} (x : A) l : (len (x :: l) =? 0) = false.
Proof. rewrite len_cons. pose proof (len_nonneg l). apply Z.eqb_neq. lia. Qed.

Lemma len_app {A} (l k : list A) : len (l ++ k) = len l + len k.
Proof. unfold len. rewrite length_app. lia. Qed.

Lemma len_snoc {A} (l : list A) x : len (l ++ [x]) = len l + 1.
Proof. rewrite len_app. done. Qed.

Lemma vget_Some {A} (l : list A) i x :
  vget l i = Some x ↔ 0 ≤ i < len l ∧ l !! Z.to_nat i = Some x.
Proof. unfold vget. repeat zcase; split; intros; destruct_and?; try done; lia. Qed.

Lemma vget_lt {A} (l : list A) i : 0 ≤ i < len l → ∃ x, vget l i = Some x.
Proof.
  intros. destruct (lookup_lt_is_Some_2 l (Z.to_nat i)) as [x Hx].
  - unfold len in *. lia.
  - exists x. by apply vget_Some.
Qed.

Lemma vget_None {A} (l : list A) i : 0 ≤ i → vget l i = None ↔ len l ≤ i.
Proof.
  intros. split.
  - intros Hn. destruct (Z_lt_le_dec i (len l)) as [Hlt|]; [|done].
    destruct (vget_lt l i) as [x Hx]; [lia|congruence].
  - intros. unfold vget. repeat zcase; done || lia.
Qed.

Lemma vget_Forall {A} (P : A → Prop) (l : list A) i x : Forall P l → vget l i = Some x → P x.
Proof. intros Hl [_ Hx]%vget_Some. by apply (Forall_lookup_1 P l (Z.to_nat i)). Qed.

Lemma len_vset {A} (l : list A) i x : len (vset l i x) = len l.
Proof. unfold len, vset. by rewrite length_insert. Qed.

Lemma vget_vset {A} (l : list A) i j x :
  0 ≤ i < len l → 0 ≤ j →
  vget (vset l i x) j = if j =? i then Some x else vget l j.
Proof.
  intros Hi Hj. unfold vget. rewrite len_vset. unfold vset, len in *.
  repeat zcase; subst; try lia; try done.
  - apply list_lookup_insert_eq. lia.
  - apply list_lookup_insert_ne. lia.
Qed.

Lemma vget_app_l {A} (l k : list A) i : i < len l → vget (l ++ k) i = vget l i.
Proof.
  intros Hi. unfold vget. rewrite len_app. pose proof (len_nonneg k).
  destruct (Z.ltb_spec i 0); [done|]. destruct (Z.ltb_spec i (len l + len k)), (Z.ltb_spec i (len l)); try lia.
  unfold len in *. by rewrite lookup_app_l by lia.
Qed.

Lemma vget_snoc {A} (l : list A) x : vget (l ++ [x]) (len l) = Some x.
Proof.
  apply vget_Some. rewrite len_app, len_cons. pose proof (len_nonneg l). split; [unfold len; simpl; lia|].
  unfold len. by rewrite Nat2Z.id, lookup_app_r, Nat.sub_diag.
Qed.

Lemma vget_cons_S {A} (x : A) l i : 0 ≤ i → vget (x :: l) (i + 1) = vget l i.
Proof.
  intros Hi. unfold vget. rewrite len_cons.
  destruct (Z.ltb_spec i 0), (Z.ltb_spec (i + 1) 0), (Z.ltb_spec i (len l)), (Z.ltb_spec (i + 1) (len l + 1));
    try lia; [|done]. by replace (Z.to_nat (i + 1)) with (S (Z.to_nat i)) by lia.
Qed.

Lemma length_splice {A} (l : list A) off bs :
  0 ≤ off → off + len bs ≤ len l → length (splice l off bs) = length l.
Proof.
  unfold splice, len. intros. rewrite !length_app, length_take, length_drop. lia.
Qed.

Lemma lookup_splice {A} (l : list A) off bs (i : nat) :
  0 ≤ off → off + len bs ≤ len l →
  splice l off bs !! i =
    if decide (Z.to_nat off ≤ i < Z.to_nat off + length bs)%nat
    then bs !! (i - Z.to_nat off)%nat else l !! i.
Proof.
  unfold splice, len. intros. case_decide as Hd.
  - rewrite lookup_app_r, lookup_app_l; rewrite ?length_take; [f_equal; lia|lia|lia].
  - destruct (decide (i < Z.to_nat off)%nat).
    + rewrite lookup_app_l by (rewrite length_take; lia). by rewrite lookup_take_lt.
    + rewrite lookup_app_r, lookup_app_r; rewrite ?length_take; [|lia|lia].
      rewrite lookup_drop. f_equal. lia.
Qed.

Lemma splice_cons {A} (l : list A) off b bs :
  0 ≤ off → off + len (b :: bs) ≤ len l →
  splice (splice l off [b]) (off + 1) bs = splice l off (b :: bs).
Proof.
  intros Ho Hl. unfold len in Hl. rewrite length_cons in Hl.
  assert (Hs : len (splice l off [b]) = len l).
  { unfold len. rewrite length_splice; unfold len; simpl length in *; lia. }
  apply list_eq. intros i. rewrite !lookup_splice; rewrite ?Hs; unfold len in *; simpl length in *; try lia.
  repeat case_decide; try lia; try done.
  - by replace (i - Z.to_nat off)%nat with (S (i - Z.to_nat (off + 1))) by lia.
  - by replace (i - Z.to_nat off)%nat with O by lia.
Qed.

Lemma length_slice {A} (l : list A) a b :
  0 ≤ a ≤ b → b ≤ len l → len (slice l a b) = b - a.
Proof. unfold slice, len. intros. rewrite length_take, length_drop. lia. Qed.

Lemma lookup_slice {A} (l : list A) a b (i : nat) :
  0 ≤ a ≤ b → (Z.of_nat i < b - a) → slice l a b !! i = l !! (Z.to_nat a + i)%nat.
Proof.
  unfold slice. intros. rewrite lookup_take_lt by lia. by rewrite lookup_drop.
Qed.

Lemma slice_splice_same {A} (l : list A) off bs :
  0 ≤ off → off + len bs ≤ len l → slice (splice l off bs) off (off + len bs) = bs.
Proof.
  unfold slice, splice. intros. unfold len in *.
  replace (Z.to_nat (off + Z.of_nat (length bs) - off)) with (length bs) by lia.
  rewrite drop_app_length' by (rewrite length_take; lia). apply take_app_length.
Qed.

Lemma slice_splice_other {A} (l : list A) off bs a b :
  0 ≤ off → off + len bs ≤ len l → 0 ≤ a ≤ b → b ≤ len l →
  b ≤ off ∨ off + len bs ≤ a → slice (splice l off bs) a b = slice l a b.
Proof.
  intros Ho Hl Hab Hb Hd. apply list_eq_same_length with (n := Z.to_nat (b - a)).
  - pose proof (length_slice l a b). unfold len in *. lia.
  - pose proof (length_slice (splice l off bs) a b). pose proof (length_splice l off bs).
    unfold len in *. lia.
  - intros i x y Hi. rewrite !lookup_slice by lia. rewrite lookup_splice by done.
    rewrite decide_False by (unfold len in *; lia). intros; congruence.
Qed.

Lemma len_resize {A} (l : list A) n (x : A) : 0 ≤ n → len (resize l n x) = n.
Proof.
  unfold resize, len. intros. zcase; [rewrite length_take|rewrite length_app, length_replicate]; lia.
Qed.

Lemma lookup_resize {A} (l : list A) n (x : A) (i : nat) :
  len l ≤ n → Z.of_nat i < n →
  resize l n x !! i = if decide (i < length l)%nat then l !! i else Some x.
Proof.
  unfold resize, len. intros. zcase; case_decide.
  - by rewrite lookup_take_lt by lia.
  - lia.
  - by rewrite lookup_app_l by lia.
  - rewrite lookup_app_r by lia. apply lookup_replicate_2. lia.
Qed.

Lemma Forall_splice {A} (P : A → Prop) l off bs :
  Forall P l → Forall P bs → Forall P (splice l off bs).
Proof.
  intros. unfold splice. rewrite !Forall_app. eauto using Forall_take, Forall_drop.
Qed.

Lemma Forall_resize {A} (P : A → Prop) l n x : Forall P l → P x → Forall P (resize l n x).
Proof.
  intros. unfold resize. zcase; [by apply Forall_take|].
  apply Forall_app. split; [done|]. by apply Forall_replicate.
Qed.

Lemma Forall_slice {A} (P : A → Prop) l a b : Forall P l → Forall P (slice l a b).
Proof. intros. unfold slice. eauto using Forall_take, Forall_drop. Qed.

(** ** Lemmas on bytes *)

Lemma length_to_le_bytes n v : length (to_le_bytes n v) = n.
Proof. revert v. induction n; intros; simpl; by rewrite ?IHn. Qed.

Lemma to_le_bytes_ok n v : bytes_ok (to_le_bytes n v).
Proof.
  revert v. induction n; intros; simpl; constructor; [|by apply IHn].
  apply (wrap_range 8). lia.
Qed.

Lemma from_to_le_bytes n v : from_le_bytes (to_le_bytes n v) = v mod 256 ^ Z.of_nat n.
Proof.
  revert v. induction n as [|n IH]; intros; simpl from_le_bytes.
  - by rewrite Z.mod_1_r.
  - rewrite IH, Nat2Z.inj_succ, Z.pow_succ_r by lia.
    rewrite Z.rem_mul_r; [done|lia|apply Z.pow_pos_nonneg; lia].
Qed.

Lemma from_le_bytes_range bs :
  bytes_ok bs → 0 ≤ from_le_bytes bs < 256 ^ len bs.
Proof.
  unfold len. induction 1 as [|b bs Hb _ IH]; simpl from_le_bytes; [simpl; lia|].
  unfold in_u in Hb. change (2 ^ 8) with 256 in Hb.
  rewrite length_cons, Nat2Z.inj_succ, Z.pow_succ_r by lia. lia.
Qed.

Lemma to_from_le_bytes bs :
  bytes_ok bs → to_le_bytes (length bs) (from_le_bytes bs) = bs.
Proof.
  induction 1 as [|b bs Hb _ IH]; [done|].
  unfold in_u in Hb. change (2 ^ 8) with 256 in Hb. simpl. f_equal.
  - rewrite Z.mul_comm, Z.mod_add by lia. by apply Z.mod_small.
  - rewrite Z.mul_comm, Z.div_add, Z.div_small by lia. apply IH.
Qed.

#[export] Hint Resolve to_le_bytes_ok Forall_splice Forall_resize Forall_slice : kpio.

(** ** Lemmas on bit operations *)

(** A property of all bytes, by enumeration. *)
Definition all_bytes : list Z := seqZ 0 256.
Lemma byte_cases (P : Z → bool) :
  forallb P all_bytes = true → ∀ b, in_u 8 b → P b = true.
Proof.
  intros Hf b Hb. rewrite forallb_forall in Hf. apply Hf.
  apply list_elem_of_In, elem_of_seqZ. unfold in_u in Hb. lia.
Qed.

Lemma byte_low7 b : in_u 8 b → Z.land b 0x7F = b mod 128.
Proof. intros. apply (Z.land_ones b 7). lia. Qed.

Lemma byte_high b : in_u 8 b → (Z.land b 0x80 =? 0) = (b <? 128).
Proof.
  intros Hb. apply Bool.eqb_prop.
  revert b Hb. apply (byte_cases (λ b, Bool.eqb (Z.land b 0x80 =? 0) (b <? 128))). by vm_compute.
Qed.

Lemma byte_bit6 b : in_u 8 b → (Z.land b 0x40 =? 0) = (b mod 128 <? 64).
Proof.
  intros Hb. apply Bool.eqb_prop.
  revert b Hb. apply (byte_cases (λ b, Bool.eqb (Z.land b 0x40 =? 0) (b mod 128 <? 64))). by vm_compute.
Qed.

Lemma lor_shifted a x s : 0 ≤ s → 0 ≤ a < 2 ^ s → Z.lor a (x * 2 ^ s) = a + x * 2 ^ s.
Proof.
  intros Hs Ha. rewrite <-Z.shiftl_mul_pow2 by done.
  assert (Hl : Z.land a (Z.shiftl x s) = 0).
  { apply Z.bits_inj'. intros i Hi. rewrite Z.land_spec, Z.bits_0.
    destruct (Z_lt_le_dec i s).
    - rewrite Z.shiftl_spec_low by done. apply andb_false_r.
    - rewrite <-(Z.mod_small a (2 ^ s)) by done. by rewrite Z.mod_pow2_bits_high by lia. }
  pose proof (Z.add_lor_land a (Z.shiftl x s)). lia.
Qed.

Lemma shiftr_0_iff z n : 0 ≤ n → Z.shiftr z n = 0 ↔ 0 ≤ z < 2 ^ n.
Proof.
  intros Hn. rewrite Z.shiftr_div_pow2 by done. pose proof (pow2_pos n Hn). split.
  - intros Hz. apply Z.div_small_iff in Hz; lia.
  - intros. by apply Z.div_small.
Qed.

Lemma shiftr_m1_iff z n : 0 ≤ n → Z.shiftr z n = -1 ↔ - 2 ^ n ≤ z < 0.
Proof.
  intros Hn. rewrite Z.shiftr_div_pow2 by done. pose proof (pow2_pos n Hn) as Hp. split.
  - intros Hz. pose proof (Z.div_mod z (2 ^ n)). pose proof (Z.mod_pos_bound z (2 ^ n) Hp).
    rewrite Hz in *. lia.
  - intros. symmetry. apply (Z.div_unique _ _ _ (z + 2 ^ n)); lia.
Qed.

Lemma in_s_shiftr w z :
  0 < w → in_s w z ↔ Z.shiftr z (w - 1) = 0 ∨ Z.shiftr z (w - 1) = -1.
Proof.
  intros. rewrite shiftr_0_iff, shiftr_m1_iff by lia.
  pose proof (pow2_pos (w - 1)). unfold in_s. lia.
Qed.

Lemma in_u_lor w a b : 0 ≤ w → in_u w a → in_u w b → in_u w (Z.lor a b).
Proof.
  intros Hw Ha Hb. apply shiftr_0_iff in Ha, Hb; [|done..]. apply shiftr_0_iff; [done|].
  by rewrite Z.shiftr_lor, Ha, Hb.
Qed.

Lemma in_s_lor w a b : 0 < w → in_s w a → in_s w b → in_s w (Z.lor a b).
Proof.
  intros Hw Ha Hb. apply in_s_shiftr in Ha, Hb; [|done..]. apply in_s_shiftr; [done|].
  rewrite Z.shiftr_lor. destruct Ha as [-> | ->], Hb as [-> | ->]; simpl; auto.
Qed.

Lemma in_s_land w a b : 0 < w → in_s w a → in_s w b → in_s w (Z.land a b).
Proof.
  intros Hw Ha Hb. apply in_s_shiftr in Ha, Hb; [|done..]. apply in_s_shiftr; [done|].
  rewrite Z.shiftr_land. destruct Ha as [-> | ->], Hb as [-> | ->]; simpl; auto.
Qed.

Lemma in_s_lxor w a b : 0 < w → in_s w a → in_s w b → in_s w (Z.lxor a b).
Proof.
  intros Hw Ha Hb. apply in_s_shiftr in Ha, Hb; [|done..]. apply in_s_shiftr; [done|].
  rewrite Z.shiftr_lxor. destruct Ha as [-> | ->], Hb as [-> | ->]; simpl; auto.
Qed.

Lemma in_u_land w a b : 0 ≤ w → in_u w a → 0 ≤ b → in_u w (Z.land a b).
Proof.
  intros Hw Ha Hb. apply shiftr_0_iff; [done|]. apply shiftr_0_iff in Ha; [|done].
  by rewrite Z.shiftr_land, Ha, Z.land_0_l.
Qed.

Lemma in_u_lxor w a b : 0 ≤ w → in_u w a → in_u w b → in_u w (Z.lxor a b).
Proof.
  intros Hw Ha Hb. apply shiftr_0_iff in Ha, Hb; [|done..]. apply shiftr_0_iff; [done|].
  by rewrite Z.shiftr_lxor, Ha, Hb.
Qed.

(** An arithmetic right shift stays in range. *)
Lemma in_u_ldiff w a b : 0 ≤ w → in_u w a → in_u w (Z.ldiff a b).
Proof.
  intros Hw Ha. unfold in_u in *. apply shiftr_0_iff; [done|]. rewrite Z.shiftr_ldiff.
  by rewrite (proj2 (shiftr_0_iff a w Hw) Ha), Z.ldiff_0_l.
Qed.

Lemma in_s_shr w a k : 0 < w → 0 ≤ k → in_s w a → in_s w (Z.shiftr a k).
Proof.
  intros Hw Hk Ha. apply in_s_shiftr in Ha; [|done]. apply in_s_shiftr; [done|].
  rewrite Z.shiftr_shiftr, Z.add_comm, <-Z.shiftr_shiftr by lia.
  destruct Ha as [-> | ->]; [left; apply Z.shiftr_0_l|right].
  rewrite Z.shiftr_div_pow2 by done. symmetry.
  apply (Z.div_unique _ _ _ (2 ^ k - 1)); pose proof (pow2_pos k Hk); lia.
Qed.

Lemma in_s_weaken w w' z : 0 < w ≤ w' → in_s w z → in_s w' z.
Proof.
  intros Hw Hz. pose proof (Z.pow_le_mono_r 2 (w - 1) (w' - 1)). unfold in_s in *. lia.
Qed.

Lemma in_u_in_s w w' z : 0 ≤ w < w' → in_u w z → in_s w' z.
Proof.
  intros Hw Hz. pose proof (Z.pow_le_mono_r 2 w (w' - 1)). unfold in_s, in_u in *. lia.
Qed.

(** Casts keep the low bits. *)
Lemma testbit_wrap w z i : 0 ≤ i < w → Z.testbit (wrap w z) i = Z.testbit z i.
Proof. intros. unfold wrap. apply Z.mod_pow2_bits_low. lia. Qed.

Lemma testbit_wrap_high w z i : 0 ≤ w ≤ i → Z.testbit (wrap w z) i = false.
Proof. intros. unfold wrap. apply Z.mod_pow2_bits_high. lia. Qed.

Lemma testbit_swrap w z i : 0 ≤ i < w → Z.testbit (swrap w z) i = Z.testbit z i.
Proof.
  intros. rewrite <-(testbit_wrap w (swrap w z)), wrap_swrap by lia. apply testbit_wrap. lia.
Qed.
