(* ===== verification/Types.v ===== *)
(** Data model of the runtime crate: the error type of [lib.rs], the module
    representation of [module.rs], the block types of [parser.rs] and the
    instruction set of [opcodes.rs].

    A [u32], [usize], [i32] or [i64] field is a [Z]; an [f32] or [f64] is the
    [Z] of its IEEE bit pattern.  A [String] is a [string] of its bytes. *)

From S2P Require Import Prelude.

(** [runtime/src/lib.rs], [RuntimeError]. *)
Inductive RuntimeError : Type :=
| CompilationError (msg : string)
| InstantiationError (msg : string)
| ExecutionError (msg : string)
| MemoryError (msg : string)
| WasiError (msg : string)
| InvalidBinary (msg : string)
| ResourceLimit (msg : string)
| PermissionDenied (msg : string).

(** [module.rs], [ValueType]. *)
Inductive ValueType : Type :=
| TI32
| TI64
| TF32
| TF64
| TV128
| TFuncRef
| TExternRef.

#[export] Instance ValueType_eq_dec : EqDecision ValueType.
Proof. solve_decision. Defined.

(** [parser.rs], [BlockType]. *)
Inductive BlockType : Type :=
| BT_Empty
| BT_Value (vt : ValueType)
| BT_TypeIndex (idx : Z).

(** [opcodes.rs], [Instruction]. *)
Inductive Instruction : Type :=
    (* Control Flow Instructions *)
| Unreachable
| Nop
| Block (bt : BlockType)
| Loop (bt : BlockType)
| If (bt : BlockType)
| Else
| End
| Br (idx : Z)
| BrIf (idx : Z)
| BrTable (targets : list Z) (default : Z)
| Return
| Call (idx : Z)
| CallIndirect (type_idx table_idx : Z)
    (* Reference Instructions *)
| RefNull
| RefIsNull
| RefFunc (idx : Z)
    (* Parametric Instructions *)
| Drop
| Select
    (* Variable Instructions *)
| LocalGet (idx : Z)
| LocalSet (idx : Z)
| LocalTee (idx : Z)
| GlobalGet (idx : Z)
| GlobalSet (idx : Z)
    (* Table Instructions *)
| TableGet (idx : Z)
| TableSet (idx : Z)
| TableInit (elem_idx table_idx : Z)
| ElemDrop (idx : Z)
| TableCopy (dst_table src_table : Z)
| TableGrow (idx : Z)
| TableSize (idx : Z)
| TableFill (idx : Z)
    (* Memory Instructions - Load *)
| I32Load (align offset : Z)
| I64Load (align offset : Z)
| F32Load (align offset : Z)
| F64Load (align offset : Z)
| I32Load8S (align offset : Z)
| I32Load8U (align offset : Z)
| I32Load16S (align offset : Z)
| I32Load16U (align offset : Z)
| I64Load8S (align offset : Z)
| I64Load8U (align offset : Z)
| I64Load16S (align offset : Z)
| I64Load16U (align offset : Z)
| I64Load32S (align offset : Z)
| I64Load32U (align offset : Z)
    (* Memory Instructions - Store *)
| I32Store (align offset : Z)
| I64Store (align offset : Z)
| F32Store (align offset : Z)
| F64Store (align offset : Z)
| I32Store8 (align offset : Z)
| I32Store16 (align offset : Z)
| I64Store8 (align offset : Z)
| I64Store16 (align offset : Z)
| I64Store32 (align offset : Z)
    (* Memory Instructions - Size/Grow *)
| MemorySize
| MemoryGrow
| MemoryInit (idx : Z)
| DataDrop (idx : Z)
| MemoryCopy
| MemoryFill
    (* Numeric Instructions - Constants *)
| I32Const (v : Z)
| I64Const (v : Z)
| F32Const (v : Z)
| F64Const (v : Z)
    (* Numeric Instructions - i32 Comparison *)
| I32Eqz
| I32Eq
| I32Ne
| I32LtS
| I32LtU
| I32GtS
| I32GtU
| I32LeS
| I32LeU
| I32GeS
| I32GeU
    (* Numeric Instructions - i64 Comparison *)
| I64Eqz
| I64Eq
| I64Ne
| I64LtS
| I64LtU
| I64GtS
| I64GtU
| I64LeS
| I64LeU
| I64GeS
| I64GeU
    (* Numeric Instructions - f32 Comparison *)
| F32Eq
| F32Ne
| F32Lt
| F32Gt
| F32Le
| F32Ge
    (* Numeric Instructions - f64 Comparison *)
| F64Eq
| F64Ne
| F64Lt
| F64Gt
| F64Le
| F64Ge
    (* Numeric Instructions - i32 Arithmetic *)
| I32Clz
| I32Ctz
| I32Popcnt
| I32Add
| I32Sub
| I32Mul
| I32DivS
| I32DivU
| I32RemS
| I32RemU
| I32And
| I32Or
| I32Xor
| I32Shl
| I32ShrS
| I32ShrU
| I32Rotl
| I32Rotr
    (* Numeric Instructions - i64 Arithmetic *)
| I64Clz
| I64Ctz
| I64Popcnt
| I64Add
| I64Sub
| I64Mul
| I64DivS
| I64DivU
| I64RemS
| I64RemU
| I64And
| I64Or
| I64Xor
| I64Shl
| I64ShrS
| I64ShrU
| I64Rotl
| I64Rotr
    (* Numeric Instructions - f32 Arithmetic *)
| F32Abs
| F32Neg
| F32Ceil
| F32Floor
| F32Trunc
| F32Nearest
| F32Sqrt
| F32Add
| F32Sub
| F32Mul
| F32Div
| F32Min
| F32Max
| F32Copysign
    (* Numeric Instructions - f64 Arithmetic *)
| F64Abs
| F64Neg
| F64Ceil
| F64Floor
| F64Trunc
| F64Nearest
| F64Sqrt
| F64Add
| F64Sub
| F64Mul
| F64Div
| F64Min
| F64Max
| F64Copysign
    (* Numeric Instructions - Conversions *)
| I32WrapI64
| I32TruncF32S
| I32TruncF32U
| I32TruncF64S
| I32TruncF64U
| I64ExtendI32S
| I64ExtendI32U
| I64TruncF32S
| I64TruncF32U
| I64TruncF64S
| I64TruncF64U
| F32ConvertI32S
| F32ConvertI32U
| F32ConvertI64S
| F32ConvertI64U
| F32DemoteF64
| F64ConvertI32S
| F64ConvertI32U
| F64ConvertI64S
| F64ConvertI64U
| F64PromoteF32
    (* Numeric Instructions - Reinterpretations *)
| I32ReinterpretF32
| I64ReinterpretF64
| F32ReinterpretI32
| F64ReinterpretI64
    (* Sign Extension Instructions (post-MVP) *)
| I32Extend8S
| I32Extend16S
| I64Extend8S
| I64Extend16S
| I64Extend32S
    (* Saturating Truncation Instructions (0xFC prefix) *)
| I32TruncSatF32S
| I32TruncSatF32U
| I32TruncSatF64S
| I32TruncSatF64U
| I64TruncSatF32S
| I64TruncSatF32U
| I64TruncSatF64S
| I64TruncSatF64U.

(** [module.rs], [FunctionType]. *)
Record FunctionType : Type := mkFunctionType {
  params : list ValueType;
  results : list ValueType
}.

#[export] Instance FunctionType_eq_dec : EqDecision FunctionType.
Proof. solve_decision. Defined.

(** [module.rs], [TableType]. *)
Record TableType : Type := mkTableType {
  tt_element_type : ValueType;
  tt_min : Z;
  tt_max : option Z
}.

(** [module.rs], [MemoryType]. *)
Record MemoryType : Type := mkMemoryType {
  mt_min : Z;
  mt_max : option Z;
  mt_shared : bool
}.

(** [module.rs], [GlobalType]. *)
Record GlobalType : Type := mkGlobalType {
  gt_value_type : ValueType;
  gt_mutable : bool
}.

(** [module.rs], [Global]. *)
Record Global : Type := mkGlobal {
  global_type : GlobalType;
  init_expr : list Instruction
}.

(** [module.rs], [ExportKind]. *)
Inductive ExportKind : Type :=
| ExportFunction
| ExportTable
| ExportMemory
| ExportGlobal.

#[export] Instance ExportKind_eq_dec : EqDecision ExportKind.
Proof. solve_decision. Defined.

(** [module.rs], [Export]. *)
Record Export : Type := mkExport {
  export_name : string;
  export_kind : ExportKind;
  export_index : Z
}.

(** [module.rs], [ImportKind]. *)
Inductive ImportKind : Type :=
| ImportFunction (type_idx : Z)
| ImportTable (tt : TableType)
| ImportMemory (mt : MemoryType)
| ImportGlobal (gt : GlobalType).

(** [module.rs], [Import]. *)
Record Import : Type := mkImport {
  import_module : string;
  import_name : string;
  import_kind : ImportKind
}.

(** [module.rs], [Element]. *)
Record Element : Type := mkElement {
  elem_table_idx : Z;
  elem_offset_expr : list Instruction;
  func_indices : list Z;
  elem_passive : bool
}.

(** [module.rs], [FunctionBody]. *)
Record FunctionBody : Type := mkFunctionBody {
  body_locals : list (Z * ValueType);
  instructions : list Instruction;
  raw_bytes : list Z
}.

(** [module.rs], [DataSegment]. *)
Record DataSegment : Type := mkDataSegment {
  data_memory_idx : Z;
  data_offset_expr : list Instruction;
  data_bytes : list Z;
  data_passive : bool
}.

(** [module.rs], [Module]. *)
Record Module_ : Type := mkModule {
  types : list FunctionType;
  imports : list Import;
  functions : list Z;
  tables : list TableType;
  memories : list MemoryType;
  globals : list Global;
  exports : list Export;
  start : option Z;
  elements : list Element;
  code : list FunctionBody;
  data : list DataSegment;
  module_name : option string;
  data_count : option Z
}.

(** [Module::empty]. *)
Definition empty_module : Module_ :=
  mkModule [] [] [] [] [] [] [] None [] [] [] None None.

(** The [matches!] tests on import kinds. *)
Definition is_function_import (i : Import) : bool :=
  match import_kind i with ImportFunction _ => true | _ => false end.
Definition is_table_import (i : Import) : bool :=
  match import_kind i with ImportTable _ => true | _ => false end.
Definition is_memory_import (i : Import) : bool :=
  match import_kind i with ImportMemory _ => true | _ => false end.
Definition is_global_import (i : Import) : bool :=
  match import_kind i with ImportGlobal _ => true | _ => false end.

(** [iter().filter(..).count()] *)
Definition count_if {A} (p : A → bool) (l : list A) : Z := len (List.filter p l).

(** [Module::import_function_count]. *)
Definition import_function_count (m : Module_) : Z :=
  count_if is_function_import (imports m).

(** [Module::total_function_count]. *)
Definition total_function_count (m : Module_) : Z :=
  import_function_count m + len (functions m).

(** [Module::memory]: an imported memory first, then the first defined one. *)
Fixpoint first_imported_memory (l : list Import) : option MemoryType :=
  match l with
  | [] => None
  | i :: l =>
      match import_kind i with
      | ImportMemory mt => Some mt
      | _ => first_imported_memory l
      end
  end.
Definition memory (m : Module_) : option MemoryType :=
  match first_imported_memory (imports m) with
  | Some mt => Some mt
  | None => head (memories m)
  end.

(** [Module::find_export]. *)
Definition find_export (m : Module_) (name : string) : option Export :=
  List.find (λ e, String.eqb (export_name e) name) (exports m).

(** The loop of [Module::function_type] over the imports; [idx] counts the
    function imports seen so far. *)
Fixpoint imported_type_idx (l : list Import) (idx func_idx : Z) : option Z :=
  match l with
  | [] => None
  | i :: l =>
      match import_kind i with
      | ImportFunction type_idx =>
          if idx =? func_idx then Some type_idx
          else imported_type_idx l (idx + 1) func_idx
      | _ => imported_type_idx l idx func_idx
      end
  end.

(** [Module::function_type]. *)
Definition function_type (m : Module_) (func_idx : Z) : option FunctionType :=
  let import_func_count := import_function_count m in
  if func_idx <? import_func_count then
    type_idx ← imported_type_idx (imports m) 0 func_idx;
    vget (types m) type_idx
  else
    let local_idx := func_idx - import_func_count in
    type_idx ← vget (functions m) local_idx;
    vget (types m) type_idx.

(** [FunctionBody::local_count]; the sum of [u32]s overflows to a panic. *)
Fixpoint local_count_go (l : list (Z * ValueType)) (acc : Z) : outcome RuntimeError Z :=
  match l with
  | [] => Ok acc
  | (count, _) :: l =>
      match checked_add 32 acc count with
      | Some acc => local_count_go l acc
      | None => Panic
      end
  end.
Definition local_count (b : FunctionBody) : outcome RuntimeError Z :=
  local_count_go (body_locals b) 0.

(** [FunctionBody::local_type]. *)
Fixpoint local_type_go (l : list (Z * ValueType)) (offset idx : Z)
    : outcome RuntimeError (option ValueType) :=
  match l with
  | [] => Ok None
  | (count, vtype) :: l =>
      match checked_add 32 offset count with
      | Some next => if idx <? next then Ok (Some vtype) else local_type_go l next idx
      | None => Panic
      end
  end.
Definition local_type (b : FunctionBody) (idx : Z) : outcome RuntimeError (option ValueType) :=
  local_type_go (body_locals b) 0 idx.

(** ** Well-formed data

    The ranges that the Rust types of the fields imply. *)

Definition blocktype_ok (bt : BlockType) : Prop :=
  match bt with BT_TypeIndex idx => in_u 31 idx | _ => True end.

Definition instr_ok (i : Instruction) : Prop :=
  match i with
  | Block bt | Loop bt | If bt => blocktype_ok bt
  | Br a | BrIf a | Call a | RefFunc a | LocalGet a | LocalSet a | LocalTee a
  | GlobalGet a | GlobalSet a | TableGet a | TableSet a | ElemDrop a | TableGrow a
  | TableSize a | TableFill a | MemoryInit a | DataDrop a => in_u 32 a
  | BrTable ts d => Forall (in_u 32) ts ∧ len ts < 2 ^ 32 ∧ in_u 32 d
  | CallIndirect a b | TableInit a b | TableCopy a b
  | I32Load a b | I64Load a b | F32Load a b | F64Load a b
  | I32Load8S a b | I32Load8U a b | I32Load16S a b | I32Load16U a b
  | I64Load8S a b | I64Load8U a b | I64Load16S a b | I64Load16U a b
  | I64Load32S a b | I64Load32U a b
  | I32Store a b | I64Store a b | F32Store a b | F64Store a b
  | I32Store8 a b | I32Store16 a b | I64Store8 a b | I64Store16 a b
  | I64Store32 a b => in_u 32 a ∧ in_u 32 b
  | I32Const v => in_s 32 v
  | I64Const v => in_s 64 v
  | F32Const v => in_u 32 v
  | F64Const v => in_u 64 v
  | _ => True
  end.

Definition small {A} (l : list A) : Prop := len l < 2 ^ 32.
Definition limit_ok (o : option Z) : Prop := match o with Some n => in_u 32 n | None => True end.

(** The instructions [parse_init_expr] accepts. *)
Definition const_instr (i : Instruction) : Prop :=
  match i with
  | I32Const _ | I64Const _ | F32Const _ | F64Const _ | GlobalGet _ | RefNull | RefFunc _ => True
  | _ => False
  end.
Definition const_expr (l : list Instruction) : Prop := Forall (λ i, const_instr i ∧ instr_ok i) l.

Definition functype_ok (ft : FunctionType) : Prop := small (params ft) ∧ small (results ft).
Definition tabletype_ok (t : TableType) : Prop := in_u 32 (tt_min t) ∧ limit_ok (tt_max t).
Definition memtype_ok (t : MemoryType) : Prop := in_u 32 (mt_min t) ∧ limit_ok (mt_max t).
Definition import_ok (i : Import) : Prop :=
  match import_kind i with
  | ImportFunction idx => in_u 32 idx
  | ImportTable t => tabletype_ok t
  | ImportMemory t => memtype_ok t
  | ImportGlobal _ => True
  end.
Definition element_ok (e : Element) : Prop :=
  in_u 32 (elem_table_idx e) ∧ const_expr (elem_offset_expr e) ∧
  Forall (in_u 32) (func_indices e) ∧ small (func_indices e) ∧
  (elem_passive e = true → elem_table_idx e = 0 ∧ elem_offset_expr e = []).
Definition body_ok (b : FunctionBody) : Prop :=
  Forall (λ l, in_u 32 l.1) (body_locals b) ∧ small (body_locals b) ∧
  Forall instr_ok (instructions b) ∧ bytes_ok (raw_bytes b).
Definition segment_ok (d : DataSegment) : Prop :=
  in_u 32 (data_memory_idx d) ∧ const_expr (data_offset_expr d) ∧
  bytes_ok (data_bytes d) ∧ small (data_bytes d) ∧
  (data_passive d = true → data_memory_idx d = 0 ∧ data_offset_expr d = []).

Record module_ok (m : Module_) : Prop := {
  ok_types : Forall functype_ok (types m) ∧ small (types m);
  ok_imports : Forall import_ok (imports m) ∧ small (imports m);
  ok_functions : Forall (in_u 32) (functions m) ∧ small (functions m);
  ok_tables : Forall tabletype_ok (tables m) ∧ small (tables m);
  ok_memories : Forall memtype_ok (memories m) ∧ small (memories m);
  ok_globals : Forall (λ g, const_expr (init_expr g)) (globals m) ∧ small (globals m);
  ok_exports : Forall (λ e, in_u 32 (export_index e)) (exports m) ∧ small (exports m);
  ok_start : limit_ok (start m);
  ok_elements : Forall element_ok (elements m) ∧ small (elements m);
  ok_code : Forall body_ok (code m) ∧ small (code m);
  ok_data : Forall segment_ok (data m) ∧ small (data m);
  ok_data_count : limit_ok (data_count m)
}.

(** Decide the well-formedness of concrete data. *)
Ltac ok_step :=
  match goal with
  | |- Forall _ [] => apply Forall_nil_2
  | |- Forall _ (_ :: _) => apply Forall_cons; split
  | |- _ ∧ _ => split
  | |- in_u _ _ => unfold in_u; lia
  | |- in_s _ _ => unfold in_s; lia
  | |- small _ => by vm_compute
  | |- True => exact I
  | |- _ = _ => by vm_compute
  | |- _ → _ => intros
  | |- _ => progress unfold functype_ok, tabletype_ok, memtype_ok, element_ok, body_ok, segment_ok,
              import_ok, const_expr, bytes_ok, limit_ok
  | |- _ => progress simpl
  end.
Ltac ok_tac := repeat ok_step; try done.
