(* ===== verification/Memory.v ===== *)
(** Linear memory: [runtime/src/memory.rs].

    [LinearMemory] keeps the bytes, the size in pages and the optional
    maximum.  Reads are functions to [outcome RuntimeError]; operations that
    take [&mut self] are in [M LinearMemory RuntimeError], so that the memory
    after a failing call is also described.  The second half gives the memory
    as a partial map from addresses to bytes and shows every operation to
    implement its effect on that map. *)

From S2P Require Import Prelude Types.

Definition PAGE_SIZE : Z := 65536.
Definition MAX_MEMORY_SIZE : Z := 4 * 1024 * 1024 * 1024.

(** [LinearMemory]. *)
Record LinearMemory : Type := mkMemory {
  mem_data : list Z;
  current_pages : Z;
  mem_max_pages : option Z
}.

(** [LinearMemory::new]. *)
Definition memory_new (initial_pages : Z) (max_pages : option Z)
    : outcome RuntimeError LinearMemory :=
  let initial_size := initial_pages * PAGE_SIZE in
  if MAX_MEMORY_SIZE <? initial_size then
    Err (MemoryError "Initial memory size exceeds maximum")
  else
    match max_pages with
    | Some max =>
        if MAX_MEMORY_SIZE <? max * PAGE_SIZE then
          Err (MemoryError "Maximum memory size exceeds limit")
        else if max <? initial_pages then
          Err (MemoryError "Initial pages exceeds maximum pages")
        else Ok (mkMemory (resize [] initial_size 0) initial_pages max_pages)
    | None => Ok (mkMemory (resize [] initial_size 0) initial_pages max_pages)
    end.

(** [size], [pages], [max_pages]. *)
Definition memory_size (m : LinearMemory) : Z := len (mem_data m).
Definition memory_pages (m : LinearMemory) : Z := current_pages m.
Definition memory_max_pages (m : LinearMemory) : option Z := mem_max_pages m.

(** [LinearMemory::grow]. *)
Definition memory_grow (delta_pages : Z) : M LinearMemory RuntimeError Z := λ m,
  match checked_add 32 (current_pages m) delta_pages with
  | None => (Err (MemoryError "Page count overflow"), m)
  | Some new_pages =>
      if match mem_max_pages m with Some max => max <? new_pages | None => false end then
        (Err (MemoryError "Would exceed maximum memory size"), m)
      else
        let new_size := new_pages * PAGE_SIZE in
        if MAX_MEMORY_SIZE <? new_size then
          (Err (MemoryError "Would exceed absolute maximum memory size"), m)
        else
          let old_pages := current_pages m in
          (Ok old_pages, mkMemory (resize (mem_data m) new_size 0) new_pages (mem_max_pages m))
  end.

(** [LinearMemory::check_bounds]. *)
Definition check_bounds (m : LinearMemory) (offset length : Z) : outcome RuntimeError unit :=
  match checked_add 64 offset length with
  | None => Err (MemoryError "Address overflow")
  | Some e =>
      if memory_size m <? e then
        Err (MemoryError ("Memory access out of bounds: " +:+ pretty offset +:+ " + "
               +:+ pretty length +:+ " > " +:+ pretty (memory_size m)))
      else Ok tt
  end.

(** [self.data[i]] *)
Definition data_at (m : LinearMemory) (i : Z) : outcome RuntimeError Z :=
  ok_or_panic (vget (mem_data m) i).

(** [read_u8], [read_u16], [read_u32], [read_u64]: a bounds check, then the
    bytes one by one. *)
Fixpoint data_from (m : LinearMemory) (offset : Z) (n : nat) : outcome RuntimeError (list Z) :=
  match n with
  | O => Ok []
  | S n => b ← data_at m offset; bs ← data_from m (offset + 1) n; Ok (b :: bs)
  end.
Definition read_u8 (m : LinearMemory) (offset : Z) : outcome RuntimeError Z :=
  check_bounds m offset 1 ≫= λ _, data_at m offset.
Definition read_u16 (m : LinearMemory) (offset : Z) : outcome RuntimeError Z :=
  check_bounds m offset 2 ≫= λ _, bs ← data_from m offset 2; Ok (from_le_bytes bs).
Definition read_u32 (m : LinearMemory) (offset : Z) : outcome RuntimeError Z :=
  check_bounds m offset 4 ≫= λ _, bs ← data_from m offset 4; Ok (from_le_bytes bs).
Definition read_u64 (m : LinearMemory) (offset : Z) : outcome RuntimeError Z :=
  check_bounds m offset 8 ≫= λ _, bs ← data_from m offset 8; Ok (from_le_bytes bs).

(** [&self.data[a..b]]: a panic when the range is not inside the data. *)
Definition data_range (m : LinearMemory) (a b : Z) : outcome RuntimeError (list Z) :=
  if (a <=? b) && (b <=? memory_size m) then Ok (slice (mem_data m) a b) else Panic.

(** [read_bytes]. *)
Definition read_bytes (m : LinearMemory) (offset length : Z) : outcome RuntimeError (list Z) :=
  check_bounds m offset length ≫= λ _, data_range m offset (offset + length).

(** [slice] (and [slice_mut], which returns the same range). *)
Definition memory_slice (m : LinearMemory) (a b : Z) : outcome RuntimeError (list Z) :=
  if memory_size m <? b then Err (MemoryError "Memory access out of bounds")
  else data_range m a b.

Definition set_data (m : LinearMemory) (d : list Z) : LinearMemory :=
  mkMemory d (current_pages m) (mem_max_pages m).

(** [self.data[offset] = b] *)
Definition set_at (offset b : Z) : M LinearMemory RuntimeError unit := λ m,
  match vget (mem_data m) offset with
  | Some _ => (Ok tt, set_data m (vset (mem_data m) offset b))
  | None => (Panic, m)
  end.

(** [self.data[offset..offset + bs.len()].copy_from_slice(bs)] *)
Definition set_range (offset : Z) (bs : list Z) : M LinearMemory RuntimeError unit := λ m,
  if offset + len bs <=? memory_size m
  then (Ok tt, set_data m (splice (mem_data m) offset bs))
  else (Panic, m).

Definition check_bounds_m (offset length : Z) : M LinearMemory RuntimeError unit := λ m,
  (check_bounds m offset length, m).

(** [write_u8], [write_u16], [write_u32], [write_u64], [write_bytes]. *)
Definition write_u8 (offset value : Z) : M LinearMemory RuntimeError unit :=
  check_bounds_m offset 1;; set_at offset value.
Definition write_u16 (offset value : Z) : M LinearMemory RuntimeError unit :=
  check_bounds_m offset 2;;
  match to_le_bytes 2 value with
  | [b0; b1] => set_at offset b0;; set_at (offset + 1) b1
  | _ => panic
  end.
Definition write_u32 (offset value : Z) : M LinearMemory RuntimeError unit :=
  check_bounds_m offset 4;; set_range offset (to_le_bytes 4 value).
Definition write_u64 (offset value : Z) : M LinearMemory RuntimeError unit :=
  check_bounds_m offset 8;; set_range offset (to_le_bytes 8 value).
Definition write_bytes (offset : Z) (bs : list Z) : M LinearMemory RuntimeError unit :=
  check_bounds_m offset (len bs);; set_range offset bs.

(** [fill]. *)
Definition memory_fill (offset length value : Z) : M LinearMemory RuntimeError unit :=
  check_bounds_m offset length;; set_range offset (replicate (Z.to_nat length) value).

(** [copy_within]: [slice::copy_within] has the semantics of [memmove]. *)
Definition copy_within (src dst length : Z) : M LinearMemory RuntimeError unit :=
  check_bounds_m src length;;
  check_bounds_m dst length;;
  m ← get;
  bs ← lift (data_range m src (src + length));
  set_range dst bs.

(** ** The memory as a map from addresses to bytes *)

Definition byte_at (m : LinearMemory) (a : Z) : option Z := vget (mem_data m) a.

(** The invariant: the data is exactly the pages, the pages are within the
    declared maximum and within 4 GiB, and every cell is a byte. *)
Record memory_wf (m : LinearMemory) : Prop := {
  wf_size : memory_size m = current_pages m * PAGE_SIZE;
  wf_bytes : bytes_ok (mem_data m);
  wf_pages : 0 ≤ current_pages m ≤ 65536;
  wf_max : ∀ mx, mem_max_pages m = Some mx → current_pages m ≤ mx ≤ 65536
}.

(** Memory with the bytes [bs] written at [off]. *)
Definition patched (m : LinearMemory) (off : Z) (bs : list Z) : LinearMemory :=
  set_data m (splice (mem_data m) off bs).

Definition in_bounds (m : LinearMemory) (off n : Z) : Prop :=
  0 ≤ off ∧ 0 ≤ n ∧ off + n ≤ memory_size m.

#[export] Instance in_bounds_dec m off n : Decision (in_bounds m off n).
Proof. unfold in_bounds. apply _. Defined.

Definition is_memory_error {A} (o : outcome RuntimeError A) : Prop :=
  ∃ msg, o = Err (MemoryError msg).

Lemma memory_size_bound m : memory_wf m → 0 ≤ memory_size m ≤ MAX_MEMORY_SIZE.
Proof.
  intros [Hs _ Hp _]. rewrite Hs. unfold PAGE_SIZE, MAX_MEMORY_SIZE in *. lia.
Qed.

Lemma check_bounds_in m off n :
  memory_wf m → in_bounds m off n → check_bounds m off n = Ok tt.
Proof.
  intros Hwf (? & ? & ?). pose proof (memory_size_bound m Hwf) as Hb.
  unfold MAX_MEMORY_SIZE in Hb. unfold check_bounds, checked_add.
  rewrite (proj2 (Z.ltb_lt _ _)) by lia. by rewrite (proj2 (Z.ltb_ge _ _)) by lia.
Qed.

Lemma check_bounds_out m off n :
  0 ≤ off → 0 ≤ n → ¬ in_bounds m off n → is_memory_error (check_bounds m off n).
Proof.
  intros ? ? Hn. unfold check_bounds, checked_add. zcase; [|by eexists].
  rewrite (proj2 (Z.ltb_lt _ _)); [by eexists|]. unfold in_bounds in Hn. lia.
Qed.

(** Every byte-wise reader is [read_bytes] followed by [from_le_bytes]. *)
Lemma data_from_slice m off n :
  in_bounds m off (Z.of_nat n) →
  data_from m off n = Ok (slice (mem_data m) off (off + Z.of_nat n)).
Proof.
  revert off. induction n as [|n IH]; intros off (Ho & _ & Hs).
  - unfold slice. by replace (Z.to_nat (off + Z.of_nat 0 - off)) with O by lia.
  - destruct (vget_lt (mem_data m) off) as [b Hb]; [unfold memory_size in *; lia|].
    simpl. unfold data_at. rewrite Hb. simpl. rewrite IH by (unfold in_bounds; lia). simpl.
    f_equal. apply vget_Some in Hb as [_ Hb]. unfold slice.
    replace (Z.to_nat (off + Z.of_nat (S n) - off)) with (S n) by lia.
    rewrite (drop_S _ _ _ Hb). simpl. f_equal.
    replace (Z.to_nat (off + 1 + Z.of_nat n - (off + 1))) with n by lia.
    by replace (Z.to_nat (off + 1)) with (S (Z.to_nat off)) by lia.
Qed.

Lemma data_range_in m off n :
  in_bounds m off n → data_range m off (off + n) = Ok (slice (mem_data m) off (off + n)).
Proof.
  intros (? & ? & ?). unfold data_range.
  rewrite (proj2 (Z.leb_le _ _)), (proj2 (Z.leb_le _ _)) by lia. done.
Qed.

Lemma set_range_in m off bs :
  off + len bs ≤ memory_size m → set_range off bs m = (Ok tt, patched m off bs).
Proof. intros. unfold set_range. by rewrite (proj2 (Z.leb_le _ _)). Qed.

Lemma set_at_in m off b :
  in_bounds m off 1 → set_at off b m = (Ok tt, patched m off [b]).
Proof.
  intros (Ho & _ & Hs). unfold set_at, patched, splice.
  destruct (vget_lt (mem_data m) off) as [x Hx]; [unfold memory_size in *; lia|].
  rewrite Hx. do 3 f_equal. unfold vset. apply vget_Some in Hx as [_ Hx].
  rewrite insert_take_drop by (apply lookup_lt_Some in Hx; lia).
  simpl. by replace (Z.to_nat off + 1)%nat with (S (Z.to_nat off)) by lia.
Qed.

Lemma set_data_data m : set_data m (mem_data m) = m.
Proof. by destruct m. Qed.

Lemma patched_size m off bs :
  in_bounds m off (len bs) → memory_size (patched m off bs) = memory_size m.
Proof.
  intros (? & ? & ?). unfold memory_size, patched, set_data, len. simpl.
  by rewrite length_splice.
Qed.

Lemma patched_wf m off bs :
  memory_wf m → in_bounds m off (len bs) → bytes_ok bs → memory_wf (patched m off bs).
Proof.
  intros [] ? ?. split; simpl; [rewrite patched_size by done|apply Forall_splice| |]; done.
Qed.

Lemma byte_at_patched m off bs a :
  in_bounds m off (len bs) → 0 ≤ a →
  byte_at (patched m off bs) a =
    if decide (off ≤ a < off + len bs) then bs !! Z.to_nat (a - off) else byte_at m a.
Proof.
  intros Hb Ha. pose proof (patched_size m off bs Hb) as Hs. destruct Hb as (? & ? & Hl).
  unfold byte_at, vget. unfold memory_size in *. rewrite Hs.
  rewrite (proj2 (Z.ltb_ge a 0)) by lia. simpl.
  rewrite lookup_splice by (unfold len in *; lia).
  case_decide as Hd; case_decide as Hd'; unfold len in *; try lia; [|done].
  rewrite (proj2 (Z.ltb_lt _ _)) by lia. f_equal. lia.
Qed.

Lemma patched_app m off b bs :
  in_bounds m off (len (b :: bs)) →
  patched (patched m off [b]) (off + 1) bs = patched m off (b :: bs).
Proof.
  intros (? & ? & ?). unfold patched, set_data. simpl. f_equal. by apply splice_cons.
Qed.

(** ** Reads *)

(** The fixed-width readers with their width in bytes. *)
Definition readers : list (nat * (LinearMemory → Z → outcome RuntimeError Z)) :=
  [(1%nat, read_u8); (2%nat, read_u16); (4%nat, read_u32); (8%nat, read_u64)].

(** The little-endian value of the [n] bytes at [off]. *)
Definition le_at (m : LinearMemory) (n : nat) (off : Z) : Z :=
  from_le_bytes (slice (mem_data m) off (off + Z.of_nat n)).

Lemma read_via_bytes m off n rd :
  (n, rd) ∈ readers →
  rd m off = (check_bounds m off (Z.of_nat n) ≫= λ _,
              bs ← data_from m off n; Ok (from_le_bytes bs)).
Proof.
  intros Hin. case_elem Hin.
  unfold read_u8. change (Z.of_nat 1) with 1. destruct (check_bounds m off 1); [|done..].
  simpl. destruct (data_at m off); simpl; [|done..]. f_equal. lia.
Qed.

Lemma readers_in m off n rd :
  (n, rd) ∈ readers → memory_wf m → in_bounds m off (Z.of_nat n) →
  rd m off = Ok (le_at m n off).
Proof.
  intros Hin Hwf Hb. rewrite (read_via_bytes _ _ _ _ Hin), check_bounds_in by done. simpl.
  by rewrite data_from_slice.
Qed.

Lemma readers_out m off n rd :
  (n, rd) ∈ readers → 0 ≤ off → ¬ in_bounds m off (Z.of_nat n) → is_memory_error (rd m off).
Proof.
  intros Hin Ho Hb. rewrite (read_via_bytes _ _ _ _ Hin).
  destruct (check_bounds_out m off (Z.of_nat n)) as [msg ->]; [lia..|done|by eexists].
Qed.

Lemma le_at_byte m n off (i : nat) :
  in_bounds m off (Z.of_nat n) → (i < n)%nat →
  slice (mem_data m) off (off + Z.of_nat n) !! i = byte_at m (off + Z.of_nat i).
Proof.
  intros (? & ? & ?) ?. rewrite lookup_slice by lia. unfold byte_at, vget, memory_size in *.
  rewrite (proj2 (Z.ltb_ge _ _)), (proj2 (Z.ltb_lt _ _)) by lia. f_equal. lia.
Qed.

(** ** Writes *)

(** The fixed-width writers with their width in bytes. *)
Definition writers : list (nat * (Z → Z → M LinearMemory RuntimeError unit)) :=
  [(1%nat, write_u8); (2%nat, write_u16); (4%nat, write_u32); (8%nat, write_u64)].

Lemma write_bytes_in m off bs :
  memory_wf m → in_bounds m off (len bs) →
  write_bytes off bs m = (Ok tt, patched m off bs).
Proof.
  intros Hwf Hb. unfold write_bytes, check_bounds_m, mbind, M_bind.
  rewrite check_bounds_in by done. apply set_range_in. by destruct Hb as (?&?&?).
Qed.

Lemma write_bytes_out m off bs :
  0 ≤ off → ¬ in_bounds m off (len bs) →
  is_memory_error (write_bytes off bs m).1 ∧ (write_bytes off bs m).2 = m.
Proof.
  intros Ho Hb. unfold write_bytes, check_bounds_m, mbind, M_bind.
  destruct (check_bounds_out m off (len bs)) as [msg ->]; [done|apply len_nonneg|done|].
  split; [by eexists|done].
Qed.

Lemma len_to_le_bytes n v : len (to_le_bytes n v) = Z.of_nat n.
Proof. unfold len. by rewrite length_to_le_bytes. Qed.

Lemma writers_in m off v n wr :
  (n, wr) ∈ writers → memory_wf m → in_bounds m off (Z.of_nat n) → in_u (8 * Z.of_nat n) v →
  wr off v m = (Ok tt, patched m off (to_le_bytes n v)).
Proof.
  intros Hin Hwf Hb Hv.
  case_elem Hin.
  - unfold write_u8, check_bounds_m, mbind, M_bind. rewrite check_bounds_in by done.
    rewrite set_at_in by done. simpl. change 256 with (2 ^ 8). by rewrite Z.mod_small.
  - unfold write_u16, check_bounds_m, mbind, M_bind. rewrite check_bounds_in by done.
    destruct Hb as (?&?&?). cbn [to_le_bytes]. rewrite set_at_in by (unfold in_bounds; lia).
    rewrite set_at_in; [|unfold in_bounds; rewrite patched_size; unfold in_bounds, len; simpl; lia].
    rewrite patched_app; [done|]. unfold in_bounds, len. simpl. lia.
  - unfold write_u32, check_bounds_m, mbind, M_bind. rewrite check_bounds_in by done.
    apply set_range_in. rewrite len_to_le_bytes. by destruct Hb as (?&?&?).
  - unfold write_u64, check_bounds_m, mbind, M_bind. rewrite check_bounds_in by done.
    apply set_range_in. rewrite len_to_le_bytes. by destruct Hb as (?&?&?).
Qed.

Lemma writers_out m off v n wr :
  (n, wr) ∈ writers → 0 ≤ off → ¬ in_bounds m off (Z.of_nat n) →
  is_memory_error (wr off v m).1 ∧ (wr off v m).2 = m.
Proof.
  intros Hin Ho Hb. destruct (check_bounds_out m off (Z.of_nat n)) as [msg Hm]; [done|lia|done|].
  case_elem Hin; unfold write_u8, write_u16, write_u32, write_u64, check_bounds_m, mbind, M_bind;
    cbv [Z.of_nat Pos.of_succ_nat Pos.succ] in Hm; rewrite Hm; (split; [by eexists|done]).
Qed.

(** A read of what was just written. *)
Lemma le_at_patched_same m off n v :
  in_bounds m off (Z.of_nat n) → in_u (8 * Z.of_nat n) v →
  le_at (patched m off (to_le_bytes n v)) n off = v.
Proof.
  intros (Ho & _ & Hs) Hv. unfold le_at. simpl.
  rewrite <-(len_to_le_bytes n v). rewrite slice_splice_same;
    [|done|unfold memory_size in Hs; by rewrite len_to_le_bytes].
  rewrite from_to_le_bytes. apply Z.mod_small. unfold in_u in Hv.
  by rewrite Z.pow_mul_r in Hv by lia.
Qed.

(** A read that does not overlap the write. *)
Lemma le_at_patched_other m off bs n a :
  in_bounds m off (len bs) → in_bounds m a (Z.of_nat n) →
  a + Z.of_nat n ≤ off ∨ off + len bs ≤ a →
  le_at (patched m off bs) n a = le_at m n a.
Proof.
  intros (? & ? & ?) (? & ? & ?) ?. unfold le_at. simpl. f_equal.
  unfold memory_size in *. apply slice_splice_other; lia.
Qed.

Lemma le_at_range m n a :
  memory_wf m → in_bounds m a (Z.of_nat n) → in_u (8 * Z.of_nat n) (le_at m n a).
Proof.
  intros [_ Hb _ _] (? & ? & ?). unfold le_at, in_u. rewrite Z.pow_mul_r by lia.
  pose proof (from_le_bytes_range (slice (mem_data m) a (a + Z.of_nat n)) (Forall_slice _ _ _ _ Hb)) as Hr.
  rewrite length_slice in Hr by (unfold memory_size in *; lia).
  by replace (a + Z.of_nat n - a) with (Z.of_nat n) in Hr by lia.
Qed.

(** ** Growth, copy, fill, creation *)

Lemma memory_grow_cases m delta :
  memory_wf m → 0 ≤ delta →
  if decide (current_pages m + delta ≤ default 65536 (mem_max_pages m))
  then memory_grow delta m =
    (Ok (current_pages m),
     mkMemory (resize (mem_data m) ((current_pages m + delta) * PAGE_SIZE) 0)
       (current_pages m + delta) (mem_max_pages m))
  else is_memory_error (memory_grow delta m).1 ∧ (memory_grow delta m).2 = m.
Proof.
  intros [Hs Hby Hp Hm] Hd. unfold memory_grow, checked_add, PAGE_SIZE, MAX_MEMORY_SIZE in *.
  destruct (mem_max_pages m) as [mx|] eqn:Emx; simpl.
  - specialize (Hm mx eq_refl). case_decide.
    + rewrite (proj2 (Z.ltb_lt _ _)), (proj2 (Z.ltb_ge _ _)), (proj2 (Z.ltb_ge _ _)) by lia. done.
    + repeat zcase; try lia; (split; [by eexists|done]).
  - case_decide.
    + rewrite (proj2 (Z.ltb_lt _ _)), (proj2 (Z.ltb_ge _ _)) by lia. done.
    + repeat zcase; try lia; (split; [by eexists|done]).
Qed.

Lemma memory_grow_wf m delta : memory_wf m → 0 ≤ delta → memory_wf (memory_grow delta m).2.
Proof.
  intros Hwf Hd. pose proof (memory_grow_cases m delta Hwf Hd) as Hg.
  case_decide as Hle; [|by destruct Hg as [? ->]]. rewrite Hg. simpl.
  destruct Hwf as [Hs Hby Hp Hm].
  assert (Hmx : current_pages m + delta ≤ 65536).
  { destruct (mem_max_pages m) as [mx|]; simpl in *; [specialize (Hm mx eq_refl)|]; lia. }
  split; simpl.
  - unfold memory_size. simpl. apply len_resize. unfold PAGE_SIZE. lia.
  - apply Forall_resize; [done|]. unfold in_u. lia.
  - lia.
  - intros mx Hmx'. specialize (Hm mx Hmx'). rewrite Hmx' in Hle. simpl in Hle. lia.
Qed.

Lemma byte_at_resize m (n : Z) pages a :
  memory_size m ≤ n → 0 ≤ a →
  byte_at (mkMemory (resize (mem_data m) n 0) pages (mem_max_pages m)) a =
    if decide (a < memory_size m) then byte_at m a else if decide (a < n) then Some 0 else None.
Proof.
  intros Hn Ha. unfold memory_size in *. pose proof (len_nonneg (mem_data m)).
  unfold byte_at, vget. simpl. rewrite len_resize by lia.
  rewrite (proj2 (Z.ltb_ge a 0)) by lia.
  destruct (Z.ltb_spec a n).
  - rewrite lookup_resize by lia. repeat case_decide; unfold len in *; try lia; [|done].
    by rewrite (proj2 (Z.ltb_lt _ _)) by lia.
  - repeat case_decide; try lia. done.
Qed.

Lemma copy_within_in m src dst n :
  memory_wf m → in_bounds m src n → in_bounds m dst n →
  copy_within src dst n m = (Ok tt, patched m dst (slice (mem_data m) src (src + n))).
Proof.
  intros Hwf Hsrc Hdst. unfold copy_within, check_bounds_m, mbind, M_bind, get, lift.
  rewrite !check_bounds_in by done. rewrite data_range_in by done.
  destruct Hsrc as (? & ? & Hs). destruct Hdst as (? & ? & ?).
  apply set_range_in. unfold memory_size in Hs. rewrite length_slice by lia. lia.
Qed.

Lemma copy_within_out m src dst n :
  0 ≤ src → 0 ≤ dst → 0 ≤ n → memory_wf m → ¬ (in_bounds m src n ∧ in_bounds m dst n) →
  is_memory_error (copy_within src dst n m).1 ∧ (copy_within src dst n m).2 = m.
Proof.
  intros ? ? ? Hwf Hn. unfold copy_within, check_bounds_m, mbind, M_bind.
  destruct (decide (in_bounds m src n)).
  - rewrite check_bounds_in by done.
    destruct (check_bounds_out m dst n) as [msg ->]; [lia|lia|tauto|]. split; [by eexists|done].
  - destruct (check_bounds_out m src n) as [msg ->]; [lia|lia|done|]. split; [by eexists|done].
Qed.

Lemma memory_fill_bytes off n v :
  0 ≤ n → memory_fill off n v = write_bytes off (replicate (Z.to_nat n) v).
Proof.
  intros. unfold memory_fill, write_bytes, len. rewrite length_replicate.
  by rewrite Z2Nat.id by lia.
Qed.

(** ** The invariant, operation by operation: no operation panics *)

Section memory_triples.
Context (X : option RuntimeError → Prop) (HX : ∀ e, X (Some e)).

Lemma triple_writers n wr off v :
  (n, wr) ∈ writers → 0 ≤ off → in_u (8 * Z.of_nat n) v →
  triple memory_wf X (wr off v) (λ _, True).
Proof.
  intros Hin Ho Hv m Hwf. unfold wp. destruct (decide (in_bounds m off (Z.of_nat n))) as [Hb|Hb].
  - rewrite (writers_in m off v n wr Hin Hwf Hb Hv). split; [|done].
    apply patched_wf; [done|by rewrite len_to_le_bytes|apply to_le_bytes_ok].
  - destruct (writers_out m off v n wr Hin Ho Hb) as [[msg He] Hm].
    destruct (wr off v m) as [o m']. simpl in *. subst. auto.
Qed.

Lemma triple_write_bytes off bs :
  0 ≤ off → bytes_ok bs → triple memory_wf X (write_bytes off bs) (λ _, True).
Proof.
  intros Ho Hbs m Hwf. unfold wp. destruct (decide (in_bounds m off (len bs))) as [Hb|Hb].
  - rewrite write_bytes_in by done. split; [|done]. by apply patched_wf.
  - destruct (write_bytes_out m off bs Ho Hb) as [[msg He] Hm].
    destruct (write_bytes off bs m) as [o m']. simpl in *. subst. auto.
Qed.

Lemma triple_memory_fill off n v :
  0 ≤ off → 0 ≤ n → in_u 8 v → triple memory_wf X (memory_fill off n v) (λ _, True).
Proof.
  intros Ho Hn Hv. rewrite memory_fill_bytes by done. apply triple_write_bytes; [done|].
  by apply Forall_replicate.
Qed.

Lemma triple_copy_within src dst n :
  0 ≤ src → 0 ≤ dst → 0 ≤ n → triple memory_wf X (copy_within src dst n) (λ _, True).
Proof.
  intros Hs Hd Hn m Hwf. unfold wp.
  destruct (decide (in_bounds m src n ∧ in_bounds m dst n)) as [[Hb1 Hb2]|Hb].
  - rewrite copy_within_in by done. split; [|done]. apply patched_wf; [done| |].
    + destruct Hb1 as (? & ? & ?). rewrite length_slice by (unfold memory_size in *; lia).
      by replace (src + n - src) with n by lia.
    + apply Forall_slice. by destruct Hwf.
  - destruct (copy_within_out m src dst n Hs Hd Hn Hwf Hb) as [[msg He] Hm].
    destruct (copy_within src dst n m) as [o m']. simpl in *. subst. auto.
Qed.

Lemma triple_readers n rd off :
  (n, rd) ∈ readers → 0 ≤ off →
  triple memory_wf X (λ m, (rd m off, m)) (in_u (8 * Z.of_nat n)).
Proof.
  intros Hin Ho m Hwf. unfold wp. destruct (decide (in_bounds m off (Z.of_nat n))) as [Hb|Hb].
  - rewrite (readers_in m off n rd Hin Hwf Hb). split; [done|]. by apply le_at_range.
  - destruct (readers_out m off n rd Hin Ho Hb) as [msg ->]. auto.
Qed.
End memory_triples.

(** ** Properties *)

(** Memory reads are exact and bounded: a [read_u8/16/32/64] inside the
    memory returns the little-endian value of the bytes at that address, and
    one that would leave the memory (even when the address overflows) returns
    a [MemoryError]; no read panics. *)
Theorem memory_read_correct m off n rd :
  memory_wf m → 0 ≤ off → (n, rd) ∈ readers →
  if decide (in_bounds m off (Z.of_nat n))
  then ∃ bs, rd m off = Ok (from_le_bytes bs) ∧ length bs = n ∧
         ∀ i : nat, (i < n)%nat → bs !! i = byte_at m (off + Z.of_nat i)
  else is_memory_error (rd m off).
Proof.
  intros Hwf Ho Hin. case_decide as Hb; [|by eapply readers_out].
  exists (slice (mem_data m) off (off + Z.of_nat n)). split; [by apply readers_in|]. split.
  - destruct Hb as (?&?&?). unfold memory_size in *.
    pose proof (length_slice (mem_data m) off (off + Z.of_nat n)) as Hl. unfold len in *. lia.
  - intros. by apply le_at_byte.
Qed.

(** Memory writes are exact, bounded and atomic: a [write_u8/16/32/64]
    inside the memory changes exactly the addressed bytes to the
    little-endian bytes of the value, keeps every other byte and the memory
    invariant; outside, it fails with a [MemoryError] and changes nothing. *)
Theorem memory_write_correct m off v n wr :
  memory_wf m → 0 ≤ off → in_u (8 * Z.of_nat n) v → (n, wr) ∈ writers →
  if decide (in_bounds m off (Z.of_nat n))
  then ∃ m', wr off v m = (Ok tt, m') ∧ memory_wf m' ∧ memory_size m' = memory_size m ∧
         ∀ a, 0 ≤ a → byte_at m' a =
           if decide (off ≤ a < off + Z.of_nat n)
           then to_le_bytes n v !! Z.to_nat (a - off) else byte_at m a
  else is_memory_error (wr off v m).1 ∧ (wr off v m).2 = m.
Proof.
  intros Hwf Ho Hv Hin. case_decide as Hb; [|by eapply writers_out].
  assert (Hb' : in_bounds m off (len (to_le_bytes n v))) by (by rewrite len_to_le_bytes).
  exists (patched m off (to_le_bytes n v)). split; [by apply writers_in|]. split.
  - apply patched_wf; [done..|]. apply to_le_bytes_ok.
  - split; [by apply patched_size|]. intros a Ha. rewrite byte_at_patched by done.
    by rewrite len_to_le_bytes.
Qed.

(** The width, reader and writer of each access size. *)
Definition accesses : list (nat * (LinearMemory → Z → outcome RuntimeError Z) *
                            (Z → Z → M LinearMemory RuntimeError unit)) :=
  [(1%nat, read_u8, write_u8); (2%nat, read_u16, write_u16);
   (4%nat, read_u32, write_u32); (8%nat, read_u64, write_u64)].

(** Round trip: for every access width, reading back a value just written
    in bounds returns it. *)
Theorem memory_write_read m off v n rd wr :
  memory_wf m → in_bounds m off (Z.of_nat n) → in_u (8 * Z.of_nat n) v →
  (n, rd, wr) ∈ accesses → rd (wr off v m).2 off = Ok v.
Proof.
  intros Hwf Hb Hv Hin.
  assert (Hr : (n, rd) ∈ readers ∧ (n, wr) ∈ writers).
  { unfold readers, writers. case_elem Hin; set_solver. }
  destruct Hr as [Hr Hw]. rewrite (writers_in _ _ _ _ _ Hw) by done. simpl.
  assert (Hb' : in_bounds m off (len (to_le_bytes n v))) by (by rewrite len_to_le_bytes).
  rewrite (readers_in _ _ _ _ Hr).
  - f_equal. by apply le_at_patched_same.
  - apply patched_wf; [done..|]. apply to_le_bytes_ok.
  - destruct Hb as (?&?&?). unfold in_bounds. by rewrite patched_size.
Qed.

(** [memory.grow]: growing within the declared maximum (and 65536 pages)
    returns the old page count, keeps every existing byte and adds zero
    pages; beyond it, it fails and leaves the memory as it was.  The
    invariant is kept either way. *)
Theorem memory_grow_correct m delta :
  memory_wf m → 0 ≤ delta →
  let r := memory_grow delta m in
  memory_wf r.2 ∧
  if decide (current_pages m + delta ≤ default 65536 (mem_max_pages m))
  then r.1 = Ok (current_pages m) ∧ current_pages r.2 = current_pages m + delta ∧
    ∀ a, 0 ≤ a → byte_at r.2 a =
      if decide (a < memory_size m) then byte_at m a
      else if decide (a < (current_pages m + delta) * PAGE_SIZE) then Some 0 else None
  else is_memory_error r.1 ∧ r.2 = m.
Proof.
  intros Hwf Hd. split; [by apply memory_grow_wf|]. simpl.
  pose proof (memory_grow_cases m delta Hwf Hd) as Hg. case_decide as Hle; [|done]. rewrite Hg. simpl.
  do 2 (split; [done|]). intros a Ha. apply byte_at_resize; [|done].
  rewrite (wf_size m Hwf). unfold PAGE_SIZE. lia.
Qed.

Lemma memory_new_wf pages mx m :
  0 ≤ pages → memory_new pages mx = Ok m →
  memory_wf m ∧ m = mkMemory (resize [] (pages * PAGE_SIZE) 0) pages mx.
Proof.
  unfold memory_new, PAGE_SIZE, MAX_MEMORY_SIZE. intros Hp Hn. revert Hn.
  zcase; [done|].
  assert (Hk : ∀ o, (∀ x, o = Some x → pages ≤ x ≤ 65536) →
     memory_wf (mkMemory (resize [] (pages * 65536) 0) pages o)).
  { intros o Ho. split; simpl; [|apply Forall_resize; [constructor|by unfold in_u; lia]|lia|done].
    unfold memory_size. simpl. rewrite len_resize; unfold PAGE_SIZE; lia. }
  destruct mx as [mx|]; [do 2 (zcase; [done|])|]; intros [= <-]; (split; [|done]); apply Hk; [|done].
  intros x [= <-]. lia.
Qed.

(** [LinearMemory::new] succeeds exactly when the initial size and the
    maximum fit in 4 GiB and the maximum is not below the initial size, and
    the memory it returns satisfies the invariant and holds only zeros. *)
Theorem memory_new_correct pages mx :
  0 ≤ pages → (∀ x, mx = Some x → 0 ≤ x) →
  if decide (pages ≤ default 65536 mx ∧ default 65536 mx ≤ 65536)
  then ∃ m, memory_new pages mx = Ok m ∧ memory_wf m ∧ current_pages m = pages ∧
         mem_max_pages m = mx ∧ ∀ a, 0 ≤ a < pages * PAGE_SIZE → byte_at m a = Some 0
  else is_memory_error (memory_new pages mx).
Proof.
  intros Hp Hmx. case_decide as Hd.
  - assert (∃ m, memory_new pages mx = Ok m) as [m Hm].
    { unfold memory_new, PAGE_SIZE, MAX_MEMORY_SIZE in *.
      destruct mx as [mx|]; simpl in *; repeat zcase; try lia; by eexists. }
    destruct (memory_new_wf _ _ _ Hp Hm) as [Hwf ->]. eexists. do 4 (split; [done|]).
    intros a Ha. unfold byte_at, vget. simpl. rewrite len_resize by lia.
    rewrite (proj2 (Z.ltb_ge _ _)), (proj2 (Z.ltb_lt _ _)) by lia.
    rewrite lookup_resize by (unfold len; simpl; lia). rewrite decide_False; simpl; [done|lia].
  - unfold memory_new, PAGE_SIZE, MAX_MEMORY_SIZE in *.
    destruct mx as [mx|]; simpl in *; repeat zcase; try lia; by eexists.
Qed.

(** [copy_within] is an overlap-safe move: when both ranges are inside the
    memory, every destination byte receives the byte the source range held
    before the copy and all other bytes stay; otherwise it fails and changes
    nothing. *)
Theorem copy_within_correct m src dst n :
  memory_wf m → 0 ≤ src → 0 ≤ dst → 0 ≤ n →
  let r := copy_within src dst n m in
  memory_wf r.2 ∧
  if decide (in_bounds m src n ∧ in_bounds m dst n)
  then r.1 = Ok tt ∧ ∀ a, 0 ≤ a → byte_at r.2 a =
         if decide (dst ≤ a < dst + n) then byte_at m (src + (a - dst)) else byte_at m a
  else is_memory_error r.1 ∧ r.2 = m.
Proof.
  intros Hwf ? ? ?. simpl. case_decide as Hb.
  - destruct Hb as [Hs Hd]. rewrite copy_within_in by done. simpl.
    assert (Hl : len (slice (mem_data m) src (src + n)) = n).
    { destruct Hs as (?&?&?). unfold memory_size in *. rewrite length_slice by lia. lia. }
    split.
    + apply patched_wf; [done|by rewrite Hl|]. apply Forall_slice. by destruct Hwf.
    + split; [done|]. intros a Ha. rewrite byte_at_patched by (rewrite ?Hl; done). rewrite Hl.
      case_decide; [|done]. replace n with (Z.of_nat (Z.to_nat n)) by lia.
      rewrite le_at_byte by (rewrite ?Z2Nat.id by lia; done || lia). f_equal. lia.
  - destruct (copy_within_out m src dst n) as [? ->]; done.
Qed.

(** [fill] sets exactly the addressed range to the byte, keeps the rest and
    the invariant; out of range it fails and changes nothing. *)
Theorem memory_fill_correct m off n v :
  memory_wf m → 0 ≤ off → 0 ≤ n → in_u 8 v →
  let r := memory_fill off n v m in
  memory_wf r.2 ∧
  if decide (in_bounds m off n)
  then r.1 = Ok tt ∧ ∀ a, 0 ≤ a → byte_at r.2 a =
         if decide (off ≤ a < off + n) then Some v else byte_at m a
  else is_memory_error r.1 ∧ r.2 = m.
Proof.
  intros Hwf ? ? Hv. simpl. rewrite memory_fill_bytes by done.
  assert (Hl : len (replicate (Z.to_nat n) v) = n).
  { unfold len. rewrite length_replicate. lia. }
  case_decide as Hb.
  - rewrite write_bytes_in by (rewrite ?Hl; done). simpl. split.
    + apply patched_wf; [done|by rewrite Hl|by apply Forall_replicate].
    + split; [done|]. intros a Ha. rewrite byte_at_patched by (rewrite ?Hl; done). rewrite Hl.
      case_decide; [|done]. apply lookup_replicate_2. lia.
  - destruct (write_bytes_out m off (replicate (Z.to_nat n) v)) as [? ->]; [done|by rewrite Hl|done].
Qed.

(** ** Witnesses *)

Definition one_page : LinearMemory := mkMemory (resize [] 65536 0) 1 (Some 2).

Lemma one_page_wf : memory_wf one_page.
Proof. by eapply (memory_new_wf 1 (Some 2)). Qed.

Lemma one_page_size : memory_size one_page = 65536.
Proof. by rewrite (wf_size _ one_page_wf). Qed.

Lemma one_page_bounds off n : 0 ≤ off → 0 ≤ n → off + n ≤ 65536 → in_bounds one_page off n.
Proof. intros. unfold in_bounds. by rewrite one_page_size. Qed.

Lemma memory_read_correct_witness :
  if decide (in_bounds one_page 65533 (Z.of_nat 4))
  then ∃ bs, read_u32 one_page 65533 = Ok (from_le_bytes bs) ∧ length bs = 4%nat ∧
         ∀ i : nat, (i < 4)%nat → bs !! i = byte_at one_page (65533 + Z.of_nat i)
  else is_memory_error (read_u32 one_page 65533).
Proof.
  apply (memory_read_correct one_page 65533 4 read_u32);
    [apply one_page_wf|lia|unfold readers; set_solver].
Defined.

Lemma memory_write_correct_witness :
  is_memory_error (write_u64 65530 7 one_page).1 ∧ (write_u64 65530 7 one_page).2 = one_page.
Proof.
  pose proof (memory_write_correct one_page 65530 7 8 write_u64 one_page_wf ltac:(lia)
    ltac:(unfold in_u; lia) ltac:(unfold writers; set_solver)) as H.
  rewrite decide_False in H; [exact H|]. unfold in_bounds. rewrite one_page_size. lia.
Defined.

Lemma memory_write_read_witness : read_u32 (write_u32 100 3735928559 one_page).2 100 = Ok 3735928559.
Proof.
  apply (memory_write_read one_page 100 3735928559 4 read_u32 write_u32);
    [apply one_page_wf|apply one_page_bounds; lia|unfold in_u; lia|unfold accesses; set_solver].
Defined.

Lemma memory_grow_correct_witness :
  (memory_grow 1 one_page).1 = Ok 1 ∧ current_pages (memory_grow 1 one_page).2 = 2.
Proof.
  pose proof (memory_grow_correct one_page 1 one_page_wf ltac:(lia)) as [_ H].
  rewrite decide_True in H by (simpl; lia). destruct H as (H1 & H2 & _). exact (conj H1 H2).
Defined.

Lemma memory_new_correct_witness :
  is_memory_error (memory_new 3 (Some 2)).
Proof. apply (memory_new_correct 3 (Some 2)); [lia|intros x [= <-]; lia]. Defined.

Lemma copy_within_correct_witness :
  (copy_within 0 2 8 one_page).1 = Ok tt.
Proof.
  pose proof (copy_within_correct one_page 0 2 8 one_page_wf ltac:(lia) ltac:(lia) ltac:(lia)) as [_ H].
  rewrite decide_True in H by (split; apply one_page_bounds; lia). exact (proj1 H).
Defined.

Lemma memory_fill_correct_witness :
  (memory_fill 10 4 255 one_page).1 = Ok tt.
Proof.
  pose proof (memory_fill_correct one_page 10 4 255 one_page_wf ltac:(lia) ltac:(lia)
    ltac:(unfold in_u; lia)) as [_ H].
  rewrite decide_True in H by (apply one_page_bounds; lia). exact (proj1 H).
Defined.
