(* ===== verification/Machine.v ===== *)
(** The stack machine's data: [runtime/src/interpreter.rs].

    Values, the operand stack, call and block frames, traps, tables and
    globals.  A Rust [Vec] used as a stack ([ValueStack::values], the call
    stack, the block stack) is a list whose head is the last element of the
    vector, so [push], [pop] and [last] act on the head; [stack_index] and
    [stack_truncate] translate positions counted from the bottom. *)

From S2P Require Import Prelude Types.

Definition MAX_VALUE_STACK_DEPTH : Z := 16384.
Definition MAX_CALL_STACK_DEPTH : Z := 1024.

(** [WasmValue]; floats are bit patterns, as [PartialEq] compares them. *)
Inductive WasmValue : Type :=
| I32 (v : Z)
| I64 (v : Z)
| F32 (bits : Z)
| F64 (bits : Z)
| FuncRef (r : option Z)
| ExternRef (r : option Z).

#[export] Instance WasmValue_eq_dec : EqDecision WasmValue.
Proof. solve_decision. Defined.

(** [WasmValue::value_type]. *)
Definition value_type (v : WasmValue) : ValueType :=
  match v with
  | I32 _ => TI32
  | I64 _ => TI64
  | F32 _ => TF32
  | F64 _ => TF64
  | FuncRef _ => TFuncRef
  | ExternRef _ => TExternRef
  end.

(** [as_i32] .. [as_f64]. *)
Definition val_as_i32 (v : WasmValue) : option Z := match v with I32 v => Some v | _ => None end.
Definition val_as_i64 (v : WasmValue) : option Z := match v with I64 v => Some v | _ => None end.
Definition val_as_f32 (v : WasmValue) : option Z := match v with F32 v => Some v | _ => None end.
Definition val_as_f64 (v : WasmValue) : option Z := match v with F64 v => Some v | _ => None end.

(** [WasmValue::default_for]. *)
Definition default_for (vt : ValueType) : WasmValue :=
  match vt with
  | TI32 => I32 0
  | TI64 => I64 0
  | TF32 => F32 0
  | TF64 => F64 0
  | TFuncRef => FuncRef None
  | TExternRef => ExternRef None
  | TV128 => I64 0
  end.

(** [TrapError]. *)
Inductive TrapError : Type :=
| TrapDivisionByZero
| TrapIntegerOverflow
| TrapInvalidConversionToInteger
| TrapMemoryOutOfBounds (offset size memory_size : Z)
| TrapStackOverflow
| TrapStackUnderflow
| TrapCallStackOverflow
| TrapUnreachable
| TrapTypeMismatch (expected : string) (got : ValueType)
| TrapUndefinedElement (index : Z)
| TrapIndirectCallTypeMismatch (expected_type actual_type : Z)
| TrapUninitializedElement (index : Z)
| TrapExportNotFound (name : string)
| TrapFunctionNotFound (idx : Z)
| TrapFuelExhausted
| TrapProcessExit (code : Z)
| TrapHostError (msg : string)
| TrapExecutionError (msg : string).

(** The derived [Debug] of [ValueType]. *)
Definition value_type_debug (vt : ValueType) : string :=
  match vt with
  | TI32 => "I32"
  | TI64 => "I64"
  | TF32 => "F32"
  | TF64 => "F64"
  | TV128 => "V128"
  | TFuncRef => "FuncRef"
  | TExternRef => "ExternRef"
  end.

(** [Display] of [TrapError]. *)
Definition trap_display (t : TrapError) : string :=
  match t with
  | TrapDivisionByZero => "integer divide by zero"
  | TrapIntegerOverflow => "integer overflow"
  | TrapInvalidConversionToInteger => "invalid conversion to integer"
  | TrapMemoryOutOfBounds offset size memory_size =>
      "out of bounds memory access: " +:+ pretty offset +:+ " + " +:+ pretty size
      +:+ " > " +:+ pretty memory_size
  | TrapStackOverflow => "call stack exhausted"
  | TrapStackUnderflow => "stack underflow"
  | TrapCallStackOverflow => "call stack overflow"
  | TrapUnreachable => "unreachable"
  | TrapTypeMismatch expected got =>
      "type mismatch: expected " +:+ expected +:+ ", got " +:+ value_type_debug got
  | TrapUndefinedElement index => "undefined element: table[" +:+ pretty index +:+ "]"
  | TrapIndirectCallTypeMismatch expected_type actual_type =>
      "indirect call type mismatch: expected type " +:+ pretty expected_type
      +:+ ", got " +:+ pretty actual_type
  | TrapUninitializedElement index => "uninitialized element: " +:+ pretty index
  | TrapExportNotFound name => "export not found: " +:+ name
  | TrapFunctionNotFound idx => "function not found: " +:+ pretty idx
  | TrapFuelExhausted => "fuel exhausted"
  | TrapProcessExit code => "process exit with code " +:+ pretty code
  | TrapHostError msg => "host error: " +:+ msg
  | TrapExecutionError msg => "execution error: " +:+ msg
  end.

(** ** The operand stack *)

(** [ValueStack]; the head of [values] is the top. *)
Record ValueStack : Type := mkStack {
  values : list WasmValue;
  max_depth : Z
}.

(** [ValueStack::new]. *)
Definition stack_new : ValueStack := mkStack [] MAX_VALUE_STACK_DEPTH.

(** [push]. *)
Definition stack_push (v : WasmValue) : M ValueStack TrapError unit := λ s,
  if max_depth s <=? len (values s) then (Err TrapStackOverflow, s)
  else (Ok tt, mkStack (v :: values s) (max_depth s)).

(** [pop]. *)
Definition stack_pop : M ValueStack TrapError WasmValue := λ s,
  match values s with
  | v :: vs => (Ok v, mkStack vs (max_depth s))
  | [] => (Err TrapStackUnderflow, s)
  end.

(** [pop_i32] .. [pop_f64]: the value is popped even when its type is wrong. *)
Definition stack_pop_i32 : M ValueStack TrapError Z :=
  v ← stack_pop;
  match v with I32 v => mret v | other => throw (TrapTypeMismatch "i32" (value_type other)) end.
Definition stack_pop_i64 : M ValueStack TrapError Z :=
  v ← stack_pop;
  match v with I64 v => mret v | other => throw (TrapTypeMismatch "i64" (value_type other)) end.
Definition stack_pop_f32 : M ValueStack TrapError Z :=
  v ← stack_pop;
  match v with F32 v => mret v | other => throw (TrapTypeMismatch "f32" (value_type other)) end.
Definition stack_pop_f64 : M ValueStack TrapError Z :=
  v ← stack_pop;
  match v with F64 v => mret v | other => throw (TrapTypeMismatch "f64" (value_type other)) end.

(** [peek], [len], [is_empty]. *)
Definition stack_peek : M ValueStack TrapError WasmValue := λ s,
  match values s with
  | v :: _ => (Ok v, s)
  | [] => (Err TrapStackUnderflow, s)
  end.
Definition stack_len (s : ValueStack) : Z := len (values s).
Definition stack_is_empty (s : ValueStack) : bool :=
  match values s with [] => true | _ => false end.

(** [Vec::truncate(n)]: keep the [n] elements nearest the bottom. *)
Definition stack_truncate {A} (l : list A) (n : Z) : list A :=
  if len l <=? n then l else drop (Z.to_nat (len l - n)) l.

(** [v[i]], counting from the bottom. *)
Definition stack_index {A} (l : list A) (i : Z) : option A := vget l (len l - 1 - i).

(** [truncate]. *)
Definition truncate (n : Z) (s : ValueStack) : ValueStack :=
  mkStack (stack_truncate (values s) n) (max_depth s).

(** [split_off]: the elements from position [at] on, bottom first; a position
    past the end panics. *)
Definition split_off (at_ : Z) : M ValueStack TrapError (list WasmValue) := λ s,
  if stack_len s <? at_ then (Panic, s)
  else (Ok (rev (take (Z.to_nat (stack_len s - at_)) (values s))), truncate at_ s).

(** [extend]. *)
Definition extend (vs : list WasmValue) (s : ValueStack) : ValueStack :=
  mkStack (rev vs ++ values s) (max_depth s).

(** ** Frames *)

(** [BlockKind]. *)
Inductive BlockKind : Type :=
| BK_Block
| BK_Loop
| BK_If
| BK_Else
| BK_Function.

#[export] Instance BlockKind_eq_dec : EqDecision BlockKind.
Proof. solve_decision. Defined.

(** [BlockFrame]. *)
Record BlockFrame : Type := mkBlockFrame {
  bf_kind : BlockKind;
  bf_block_type : BlockType;
  bf_stack_depth : Z;
  bf_start_pc : Z;
  bf_end_pc : Z;
  bf_else_pc : option Z;
  bf_arity : Z;
  bf_param_arity : Z
}.

(** [CallFrame]; the head of [block_stack] is the innermost block. *)
Record CallFrame : Type := mkCallFrame {
  cf_func_idx : Z;
  cf_locals : list WasmValue;
  cf_pc : Z;
  cf_stack_base : Z;
  cf_return_arity : Z;
  cf_block_stack : list BlockFrame;
  cf_is_host : bool
}.

(** ** Tables and globals *)

(** [Table]. *)
Record Table : Type := mkTable {
  tbl_elements : list (option Z);
  tbl_max : option Z
}.

(** [Table::new]. *)
Definition table_new (min : Z) (max : option Z) : Table :=
  mkTable (resize [] min None) max.

(** [Table::get]. *)
Definition table_get (t : Table) (index : Z) : outcome TrapError (option Z) :=
  match vget (tbl_elements t) index with
  | Some e => Ok e
  | None => Err (TrapUndefinedElement index)
  end.

(** [Table::set]. *)
Definition table_set (index : Z) (value : option Z) : M Table TrapError unit := λ t,
  if len (tbl_elements t) <=? index then (Err (TrapUndefinedElement index), t)
  else (Ok tt, mkTable (vset (tbl_elements t) index value) (tbl_max t)).

(** [Table::grow]. *)
Definition table_grow (delta : Z) (init : option Z) : M Table TrapError Z := λ t,
  let old_size := as_u32 (len (tbl_elements t)) in
  match checked_add 32 old_size delta with
  | None => (Err (TrapExecutionError "table grow overflow"), t)
  | Some new_size =>
      if match tbl_max t with Some max => max <? new_size | None => false end then
        (Err (TrapExecutionError "table grow exceeds max"), t)
      else (Ok old_size, mkTable (resize (tbl_elements t) new_size init) (tbl_max t))
  end.

(** [Table::size]. *)
Definition table_size (t : Table) : Z := as_u32 (len (tbl_elements t)).

(** [GlobalValue]. *)
Record GlobalValue : Type := mkGlobalValue {
  gv_value : WasmValue;
  gv_mutable : bool
}.

(** ** Well-formed values, stacks and tables *)

Definition value_ok (v : WasmValue) : Prop :=
  match v with
  | I32 v => in_s 32 v
  | I64 v => in_s 64 v
  | F32 b => in_u 32 b
  | F64 b => in_u 64 b
  | FuncRef r | ExternRef r => limit_ok r
  end.

(** Every value in range, and never deeper than the limit. *)
Record stack_ok (s : ValueStack) : Prop := {
  stack_values_ok : Forall value_ok (values s);
  stack_depth_ok : len (values s) ≤ max_depth s;
  stack_max_ok : max_depth s = MAX_VALUE_STACK_DEPTH
}.

Record table_ok (t : Table) : Prop := {
  table_entries_ok : Forall limit_ok (tbl_elements t);
  table_len_ok : len (tbl_elements t) < 2 ^ 32
}.

Lemma default_for_ok vt : value_ok (default_for vt).
Proof. destruct vt; simpl; unfold in_s, in_u; try done; lia. Qed.

Lemma stack_new_ok : stack_ok stack_new.
Proof. by split; [constructor|..]. Qed.

Lemma len_stack_truncate {A} (l : list A) n : 0 ≤ n → len (stack_truncate l n) = Z.min n (len l).
Proof.
  intros. unfold stack_truncate. zcase; [lia|]. unfold len in *. rewrite length_drop. lia.
Qed.

Lemma Forall_stack_truncate {A} (P : A → Prop) l n : Forall P l → Forall P (stack_truncate l n).
Proof. intros. unfold stack_truncate. zcase; [done|]. by apply Forall_drop. Qed.

(** Truncating to a position keeps what lies below it. *)
Lemma stack_truncate_app {A} (top bottom : list A) : stack_truncate (top ++ bottom) (len bottom) = bottom.
Proof.
  unfold stack_truncate. rewrite len_app. pose proof (len_nonneg top). zcase.
  - assert (top = []) as ->; [|done]. destruct top; [done|]. unfold len in *. simpl in *. lia.
  - replace (Z.to_nat _) with (length top) by (unfold len; lia). apply drop_app_length.
Qed.

Lemma truncate_ok n s : 0 ≤ n → stack_ok s → stack_ok (truncate n s).
Proof.
  intros Hn [Hv Hd Hm]. split; simpl; [by apply Forall_stack_truncate| |done].
  rewrite len_stack_truncate by done. lia.
Qed.

Section stack_triples.
Context (X : option TrapError → Prop) (HX : ∀ e, X (Some e)).

Lemma triple_push v : value_ok v → triple stack_ok X (stack_push v) (λ _, True).
Proof.
  intros Hv s [Hs Hd Hm]. unfold wp, stack_push. zcase; simpl; split; auto; [by split|].
  split; simpl; [by constructor| |done]. unfold len in *. simpl. lia.
Qed.

Lemma triple_pop : triple stack_ok X stack_pop value_ok.
Proof.
  intros [vs d] [Hs Hd Hm]. unfold wp, stack_pop. destruct vs as [|v vs]; simpl in *; [split; auto; by split|].
  inversion_clear Hs. split; [|done]. split; simpl; [done| |done]. unfold len in *. simpl in *. lia.
Qed.

Lemma triple_peek : triple stack_ok X stack_peek value_ok.
Proof.
  intros s [Hs Hd Hm]. unfold wp, stack_peek. destruct (values s) as [|v vs] eqn:Ev; rewrite <-?Ev;
    (split; [by split; rewrite ?Ev|]); [auto|]. by inversion Hs.
Qed.

Lemma triple_pop_i32 : triple stack_ok X stack_pop_i32 (in_s 32).
Proof.
  eapply triple_bind; [apply triple_pop|]. intros [] Hv; try (apply triple_throw, HX). by apply triple_ret.
Qed.
Lemma triple_pop_i64 : triple stack_ok X stack_pop_i64 (in_s 64).
Proof.
  eapply triple_bind; [apply triple_pop|]. intros [] Hv; try (apply triple_throw, HX). by apply triple_ret.
Qed.
Lemma triple_pop_f32 : triple stack_ok X stack_pop_f32 (in_u 32).
Proof.
  eapply triple_bind; [apply triple_pop|]. intros [] Hv; try (apply triple_throw, HX). by apply triple_ret.
Qed.
Lemma triple_pop_f64 : triple stack_ok X stack_pop_f64 (in_u 64).
Proof.
  eapply triple_bind; [apply triple_pop|]. intros [] Hv; try (apply triple_throw, HX). by apply triple_ret.
Qed.
End stack_triples.

(** ** Tables *)

Lemma table_new_ok min max : in_u 32 min → table_ok (table_new min max).
Proof.
  intros Hm. unfold in_u in Hm. split; simpl.
  - apply Forall_resize; [by constructor|done].
  - rewrite len_resize; lia.
Qed.

Section table_triples.
Context (X : option TrapError → Prop) (HX : ∀ e, X (Some e)).

(** An index that is in range leaves room for its successor. *)
Lemma table_get_ok t i :
  table_ok t →
  match table_get t i with
  | Ok r => limit_ok r ∧ i + 1 < 2 ^ 32
  | Err e => X (Some e)
  | Panic => X None
  end.
Proof.
  intros [Ht Hl]. unfold table_get. destruct (vget (tbl_elements t) i) eqn:Eg; [|auto].
  split; [by eapply vget_Forall|]. apply vget_Some in Eg as [? _]. lia.
Qed.

Lemma triple_table_set i v : limit_ok v → triple table_ok X (table_set i v) (λ _, i + 1 < 2 ^ 32).
Proof.
  intros Hv t [Ht Hl]. unfold wp, table_set. zcase; simpl; [split; auto; by split|].
  split; [|lia]. split; simpl; [|by rewrite len_vset]. unfold vset. by apply Forall_insert.
Qed.

Lemma triple_table_grow delta init :
  0 ≤ delta → limit_ok init → triple table_ok X (table_grow delta init) (in_u 32).
Proof.
  intros Hd Hi t Ht. pose proof (table_len_ok t Ht). pose proof (len_nonneg (tbl_elements t)).
  unfold wp, table_grow, as_u32, checked_add.
  rewrite wrap_id by (unfold in_u; lia). zcase; [|by auto].
  destruct (match tbl_max t with Some _ => _ | None => _ end); [by auto|].
  split; [|unfold in_u; lia]. destruct Ht. split; simpl.
  - by apply Forall_resize.
  - rewrite len_resize; lia.
Qed.
End table_triples.
