(* ===== verification/Floats.v ===== *)
(** IEEE 754 numbers as the executor uses them: the float primitives of Rust
    and the helper functions of [runtime/src/executor.rs] (lines 2343-2654).

    An [f32] or [f64] is its bit pattern.  Arithmetic decodes the pattern to
    the Standard Library's [spec_float], applies the correctly rounded
    operation and encodes the result.  Rust leaves the bit pattern of a NaN
    result open; [FloatEnv] stands for that choice, as a function of the
    format and the operands, and [FloatEnvOk] says that it is a NaN. *)

From Stdlib Require Import SpecFloat.
From S2P Require Import Prelude.

(** A binary interchange format. *)
Record ffmt : Type := mkFmt { f_prec : Z; f_emax : Z; f_width : Z }.
Definition fmt32 : ffmt := mkFmt 24 128 32.
Definition fmt64 : ffmt := mkFmt 53 1024 64.

(** Width of the stored mantissa, of the exponent field, least exponent. *)
Definition f_mw (f : ffmt) : Z := f_prec f - 1.
Definition f_ew (f : ffmt) : Z := f_width f - f_prec f.
Definition f_emin (f : ffmt) : Z := emin (f_prec f) (f_emax f).

Definition sign_bit (f : ffmt) (bits : Z) : bool := Z.testbit bits (f_width f - 1).
Definition exp_field (f : ffmt) (bits : Z) : Z := (bits / 2 ^ f_mw f) mod 2 ^ f_ew f.
Definition man_field (f : ffmt) (bits : Z) : Z := bits mod 2 ^ f_mw f.

(** [from_bits] *)
Definition decode (f : ffmt) (bits : Z) : spec_float :=
  let s := sign_bit f bits in
  let e := exp_field f bits in
  let m := man_field f bits in
  if e =? 0 then
    match m with
    | Zpos p => S754_finite s p (f_emin f)
    | _ => S754_zero s
    end
  else if e =? 2 ^ f_ew f - 1 then
    if m =? 0 then S754_infinity s else S754_nan
  else
    match m + 2 ^ f_mw f with
    | Zpos p => S754_finite s p (e - 1 + f_emin f)
    | _ => S754_nan
    end.

Definition sign_value (f : ffmt) (s : bool) : Z := if s then 2 ^ (f_width f - 1) else 0.

(** [to_bits], an unsigned integer of the format's width; [nan] is the pattern
    of a NaN. *)
Definition encode (f : ffmt) (nan : Z) (x : spec_float) : Z :=
  wrap (f_width f)
    match x with
    | S754_zero s => sign_value f s
    | S754_infinity s => sign_value f s + (2 ^ f_ew f - 1) * 2 ^ f_mw f
    | S754_nan => nan
    | S754_finite s m e =>
        if Zpos m <? 2 ^ f_mw f then sign_value f s + Zpos m
        else sign_value f s + (e - f_emin f + 1) * 2 ^ f_mw f + (Zpos m - 2 ^ f_mw f)
    end.

Definition is_nan (f : ffmt) (bits : Z) : bool :=
  match decode f bits with S754_nan => true | _ => false end.
Definition is_infinite (f : ffmt) (bits : Z) : bool :=
  match decode f bits with S754_infinity _ => true | _ => false end.

(** The choice of NaN patterns. *)
Class FloatEnv : Type := nan_bits : ffmt → list Z → Z.
Class FloatEnvOk `{FloatEnv} : Prop :=
  nan_bits_ok : ∀ f ops, f = fmt32 ∨ f = fmt64 →
    in_u (f_width f) (nan_bits f ops) ∧ is_nan f (nan_bits f ops) = true.

(** The quiet NaN with an empty payload, for every operation. *)
Definition canonical_nan : FloatEnv := λ f _, (2 ^ f_ew f - 1) * 2 ^ f_mw f + 2 ^ (f_mw f - 1).

Section ops.
Context `{FloatEnv}.

(** [f32::NAN], [f64::NAN] *)
Definition f_nan (f : ffmt) : Z := encode f (nan_bits f []) S754_nan.

(** [a + b], [a - b], [a * b], [a / b] *)
Definition f_add (f : ffmt) (a b : Z) : Z :=
  encode f (nan_bits f [a; b]) (SFadd (f_prec f) (f_emax f) (decode f a) (decode f b)).
Definition f_sub (f : ffmt) (a b : Z) : Z :=
  encode f (nan_bits f [a; b]) (SFsub (f_prec f) (f_emax f) (decode f a) (decode f b)).
Definition f_mul (f : ffmt) (a b : Z) : Z :=
  encode f (nan_bits f [a; b]) (SFmul (f_prec f) (f_emax f) (decode f a) (decode f b)).
Definition f_div (f : ffmt) (a b : Z) : Z :=
  encode f (nan_bits f [a; b]) (SFdiv (f_prec f) (f_emax f) (decode f a) (decode f b)).

(** [==], [<], [<=]; [a > b] is [b < a] and [a >= b] is [b <= a]. *)
Definition f_eq (f : ffmt) (a b : Z) : bool := SFeqb (decode f a) (decode f b).
Definition f_lt (f : ffmt) (a b : Z) : bool := SFltb (decode f a) (decode f b).
Definition f_le (f : ffmt) (a b : Z) : bool := SFleb (decode f a) (decode f b).

(** [z as f32], [z as f64] for an integer, also the literal [z.0]. *)
Definition f_of_int (f : ffmt) (z : Z) : Z :=
  encode f (nan_bits f []) (binary_normalize (f_prec f) (f_emax f) z 0 false).

(** [1.0 / 2.0], the literal [0.5] *)
Definition f_half (f : ffmt) : Z := f_div f (f_of_int f 1) (f_of_int f 2).

(** [a as f64] of an [f32] and [a as f32] of an [f64]. *)
Definition f_convert (src dst : ffmt) (a : Z) : Z :=
  encode dst (nan_bits dst [a])
    match decode src a with
    | S754_finite s m e =>
        binary_normalize (f_prec dst) (f_emax dst) (cond_Zopp s (Zpos m)) e s
    | x => x
    end.
End ops.

(** The integer part of a finite number. *)
Definition trunc_Z (s : bool) (m : positive) (e : Z) : Z :=
  cond_Zopp s (if 0 <=? e then Zpos m * 2 ^ e else Zpos m / 2 ^ (- e)).

(** [a as iN] / [a as uN]: zero for a NaN, saturating at the bounds. *)
Definition f_to_int (f : ffmt) (lo hi : Z) (a : Z) : Z :=
  match decode f a with
  | S754_nan => 0
  | S754_zero _ => 0
  | S754_infinity s => if s then lo else hi
  | S754_finite s m e => Z.max lo (Z.min hi (trunc_Z s m e))
  end.

Definition I32_MIN : Z := - 2 ^ 31.
Definition I32_MAX : Z := 2 ^ 31 - 1.
Definition I64_MIN : Z := - 2 ^ 63.
Definition I64_MAX : Z := 2 ^ 63 - 1.
Definition U64_MAX : Z := 2 ^ 64 - 1.

Definition f_to_i32 (f : ffmt) (a : Z) : Z := f_to_int f I32_MIN I32_MAX a.
Definition f_to_u32 (f : ffmt) (a : Z) : Z := f_to_int f 0 U32_MAX a.
Definition f_to_i64 (f : ffmt) (a : Z) : Z := f_to_int f I64_MIN I64_MAX a.
Definition f_to_u64 (f : ffmt) (a : Z) : Z := f_to_int f 0 U64_MAX a.

(** ** The helpers of executor.rs *)

Section helpers.
Context `{FloatEnv}.

Definition f32_abs (a : Z) : Z := Z.land a 0x7FFFFFFF.
Definition f32_neg (a : Z) : Z := Z.lxor a 0x80000000.
Definition f64_abs (a : Z) : Z := Z.land a 0x7FFFFFFFFFFFFFFF.
Definition f64_neg (a : Z) : Z := Z.lxor a 0x8000000000000000.
Definition f32_copysign (a b : Z) : Z := Z.lor (Z.land a 0x7FFFFFFF) (Z.land b 0x80000000).
Definition f64_copysign (a b : Z) : Z :=
  Z.lor (Z.land a 0x7FFFFFFFFFFFFFFF) (Z.land b 0x8000000000000000).

(** [f32_min], [f64_min] *)
Definition f_min (f : ffmt) (a b : Z) : Z :=
  if is_nan f a || is_nan f b then f_nan f
  else if f_eq f a 0 && f_eq f b 0 then
    if negb (Z.land a (2 ^ (f_width f - 1)) =? 0) then a else b
  else if f_lt f a b then a else b.
Definition f32_min (a b : Z) : Z := f_min fmt32 a b.
Definition f64_min (a b : Z) : Z := f_min fmt64 a b.

(** [f32_max], [f64_max] *)
Definition f_max (f : ffmt) (a b : Z) : Z :=
  if is_nan f a || is_nan f b then f_nan f
  else if f_eq f a 0 && f_eq f b 0 then
    if negb (Z.land a (2 ^ (f_width f - 1)) =? 0) then b else a
  else if f_lt f b a then a else b.
Definition f32_max (a b : Z) : Z := f_max fmt32 a b.
Definition f64_max (a b : Z) : Z := f_max fmt64 a b.

Definition is_special (f : ffmt) (a : Z) : bool :=
  is_nan f a || is_infinite f a || f_eq f a 0.

(** [f32_ceil] .. [f32_sqrt]; the integer detour is through [i32]. *)
Definition f32_ceil (a : Z) : Z :=
  if is_special fmt32 a then a
  else
    let i := f_of_int fmt32 (f_to_i32 fmt32 a) in
    if f_lt fmt32 0 a && f_lt fmt32 i a then f_add fmt32 i (f_of_int fmt32 1) else i.
Definition f32_floor (a : Z) : Z :=
  if is_special fmt32 a then a
  else
    let i := f_of_int fmt32 (f_to_i32 fmt32 a) in
    if f_lt fmt32 a 0 && f_lt fmt32 a i then f_sub fmt32 i (f_of_int fmt32 1) else i.
Definition f32_trunc (a : Z) : Z :=
  if is_special fmt32 a then a else f_of_int fmt32 (f_to_i32 fmt32 a).
Definition f32_nearest (a : Z) : Z :=
  if is_special fmt32 a then a
  else
    let h := f_add fmt32 a (f_half fmt32) in
    let r := f32_floor h in
    if f_eq fmt32 h r && negb (Z.rem (f_to_i32 fmt32 r) 2 =? 0)
    then f_sub fmt32 r (f_of_int fmt32 1) else r.
Definition newton (f : ffmt) (a x : Z) : Z :=
  f_mul f (f_half f) (f_add f x (f_div f a x)).
Definition f32_sqrt (a : Z) : Z :=
  if is_nan fmt32 a || f_lt fmt32 a 0 then f_nan fmt32
  else if f_eq fmt32 a 0 || is_infinite fmt32 a then a
  else Nat.iter 8 (newton fmt32 a) (Z.shiftr a 1 + 0x1FC00000).

(** [f64_ceil] .. [f64_sqrt]; the integer detour is through [i64]. *)
Definition f64_ceil (a : Z) : Z :=
  if is_special fmt64 a then a
  else
    let i := f_of_int fmt64 (f_to_i64 fmt64 a) in
    if f_lt fmt64 0 a && f_lt fmt64 i a then f_add fmt64 i (f_of_int fmt64 1) else i.
Definition f64_floor (a : Z) : Z :=
  if is_special fmt64 a then a
  else
    let i := f_of_int fmt64 (f_to_i64 fmt64 a) in
    if f_lt fmt64 a 0 && f_lt fmt64 a i then f_sub fmt64 i (f_of_int fmt64 1) else i.
Definition f64_trunc (a : Z) : Z :=
  if is_special fmt64 a then a else f_of_int fmt64 (f_to_i64 fmt64 a).
Definition f64_nearest (a : Z) : Z :=
  if is_special fmt64 a then a
  else
    let h := f_add fmt64 a (f_half fmt64) in
    let r := f64_floor h in
    if f_eq fmt64 h r && negb (Z.rem (f_to_i64 fmt64 r) 2 =? 0)
    then f_sub fmt64 r (f_of_int fmt64 1) else r.
Definition f64_sqrt (a : Z) : Z :=
  if is_nan fmt64 a || f_lt fmt64 a 0 then f_nan fmt64
  else if f_eq fmt64 a 0 || is_infinite fmt64 a then a
  else Nat.iter 12 (newton fmt64 a) (Z.shiftr a 1 + 0x1FF8000000000000).

(** The saturating truncations: [hi] and [lo] are [iN::MAX] and [iN::MIN], the
    comparisons are made on their conversions to the float type. *)
Definition trunc_sat (f : ffmt) (lo hi : Z) (a : Z) : Z :=
  if is_nan f a then 0
  else if f_le f (f_of_int f hi) a then hi
  else if f_le f a (f_of_int f lo) then lo
  else f_to_int f lo hi a.
Definition trunc_sat_f32_i32 (a : Z) : Z := trunc_sat fmt32 I32_MIN I32_MAX a.
Definition trunc_sat_f32_u32 (a : Z) : Z := trunc_sat fmt32 0 U32_MAX a.
Definition trunc_sat_f64_i32 (a : Z) : Z := trunc_sat fmt64 I32_MIN I32_MAX a.
Definition trunc_sat_f64_u32 (a : Z) : Z := trunc_sat fmt64 0 U32_MAX a.
Definition trunc_sat_f32_i64 (a : Z) : Z := trunc_sat fmt32 I64_MIN I64_MAX a.
Definition trunc_sat_f32_u64 (a : Z) : Z := trunc_sat fmt32 0 U64_MAX a.
Definition trunc_sat_f64_i64 (a : Z) : Z := trunc_sat fmt64 I64_MIN I64_MAX a.
Definition trunc_sat_f64_u64 (a : Z) : Z := trunc_sat fmt64 0 U64_MAX a.
End helpers.

(** ** Results are bit patterns of the format's width *)

Section ranges.
Context `{FloatEnv}.

Lemma encode_range f nan x : 0 ≤ f_width f → in_u (f_width f) (encode f nan x).
Proof. apply wrap_range. Qed.

Lemma fmin_range f a b :
  0 ≤ f_width f → in_u (f_width f) a → in_u (f_width f) b → in_u (f_width f) (f_min f a b).
Proof.
  intros. unfold f_min. repeat case_match; try done. by apply encode_range.
Qed.
Lemma fmax_range f a b :
  0 ≤ f_width f → in_u (f_width f) a → in_u (f_width f) b → in_u (f_width f) (f_max f a b).
Proof.
  intros. unfold f_max. repeat case_match; try done. by apply encode_range.
Qed.

Lemma iter_newton_range f n a x :
  0 ≤ f_width f → (0 < n)%nat → in_u (f_width f) (Nat.iter n (newton f a) x).
Proof. intros ? Hn. destruct n; [lia|]. cbn [Nat.iter]. unfold newton, f_mul. by apply encode_range. Qed.

(** A [cast as iN] of a float is in the bounds given. *)
Lemma f_to_int_range f lo hi a : lo ≤ 0 ≤ hi → lo ≤ f_to_int f lo hi a ≤ hi.
Proof. intros. unfold f_to_int. destruct (decode f a) as [|[]| |]; lia. Qed.

Lemma trunc_sat_range f lo hi a : lo ≤ 0 ≤ hi → lo ≤ trunc_sat f lo hi a ≤ hi.
Proof.
  intros. unfold trunc_sat. pose proof (f_to_int_range f lo hi a). repeat case_match; lia.
Qed.

Ltac float_range :=
  repeat match goal with |- context [if ?b then _ else _] => destruct b end;
  lazymatch goal with
  | |- in_u 32 (Nat.iter _ _ _) => apply (iter_newton_range fmt32); [by compute|lia]
  | |- in_u 64 (Nat.iter _ _ _) => apply (iter_newton_range fmt64); [by compute|lia]
  | H : in_u _ ?a |- in_u _ ?a => exact H
  | |- in_u 32 _ => apply (encode_range fmt32); by compute
  | |- in_u 64 _ => apply (encode_range fmt64); by compute
  end.

Lemma f32_unary_range a :
  in_u 32 a →
  in_u 32 (f32_abs a) ∧ in_u 32 (f32_neg a) ∧ in_u 32 (f32_ceil a) ∧ in_u 32 (f32_floor a) ∧
  in_u 32 (f32_trunc a) ∧ in_u 32 (f32_nearest a) ∧ in_u 32 (f32_sqrt a).
Proof.
  intros Ha. split_and!.
  - by apply in_u_land.
  - apply in_u_lxor; [done|done|]. unfold in_u. lia.
  - unfold f32_ceil. float_range.
  - unfold f32_floor. float_range.
  - unfold f32_trunc. float_range.
  - unfold f32_nearest. destruct (is_special fmt32 a); [done|]. cbv zeta.
    destruct (_ && _); [float_range|]. unfold f32_floor. float_range.
  - unfold f32_sqrt. float_range.
Qed.

Lemma f64_unary_range a :
  in_u 64 a →
  in_u 64 (f64_abs a) ∧ in_u 64 (f64_neg a) ∧ in_u 64 (f64_ceil a) ∧ in_u 64 (f64_floor a) ∧
  in_u 64 (f64_trunc a) ∧ in_u 64 (f64_nearest a) ∧ in_u 64 (f64_sqrt a).
Proof.
  intros Ha. split_and!.
  - by apply in_u_land.
  - apply in_u_lxor; [done|done|]. unfold in_u. lia.
  - unfold f64_ceil. float_range.
  - unfold f64_floor. float_range.
  - unfold f64_trunc. float_range.
  - unfold f64_nearest. destruct (is_special fmt64 a); [done|]. cbv zeta.
    destruct (_ && _); [float_range|]. unfold f64_floor. float_range.
  - unfold f64_sqrt. float_range.
Qed.

Lemma copysign_range w a b m s :
  0 ≤ w → in_u w a → in_u w b → 0 ≤ m → 0 ≤ s → in_u w (Z.lor (Z.land a m) (Z.land b s)).
Proof. intros. apply in_u_lor; [done|by apply in_u_land..]. Qed.
End ranges.
