(* ===== verification/Numeric.v ===== *)
(** The numeric instructions of [execute_instruction]
    ([runtime/src/executor.rs], lines 1465-2225): constants, comparisons,
    integer and float arithmetic, conversions.

    They touch the operand stack only, so each group of the source is a
    function from an instruction to a program on [ValueStack]; [None] is an
    instruction of another group.  The integer methods of Rust's standard
    library come first. *)

From S2P Require Import Prelude Types Machine Floats.

(** ** Integer methods of width [w] *)

(** [leading_zeros], [trailing_zeros], [count_ones]. *)
Definition leading_zeros (w a : Z) : Z :=
  let u := wrap w a in if u =? 0 then w else w - 1 - Z.log2 u.
Fixpoint low_zeros (n : nat) (u : Z) : Z :=
  match n with
  | O => 0
  | S n => if Z.odd u then 0 else 1 + low_zeros n (Z.div2 u)
  end.
Definition trailing_zeros (w a : Z) : Z := low_zeros (Z.to_nat w) (wrap w a).
Fixpoint ones (n : nat) (u : Z) : Z :=
  match n with
  | O => 0
  | S n => Z.b2z (Z.odd u) + ones n (Z.div2 u)
  end.
Definition count_ones (w a : Z) : Z := ones (Z.to_nat w) (wrap w a).

(** [wrapping_add] .. [wrapping_mul] of signed integers. *)
Definition wrapping_add (w a b : Z) : Z := swrap w (a + b).
Definition wrapping_sub (w a b : Z) : Z := swrap w (a - b).
Definition wrapping_mul (w a b : Z) : Z := swrap w (a * b).

(** [wrapping_div] and [wrapping_rem] of signed, [/] and [%] of unsigned
    integers: they panic on a zero divisor. *)
Definition wrapping_div {E} (w a b : Z) : outcome E Z :=
  if b =? 0 then Panic else Ok (swrap w (Z.quot a b)).
Definition wrapping_rem {E} (w a b : Z) : outcome E Z :=
  if b =? 0 then Panic else Ok (swrap w (Z.rem a b)).
Definition unsigned_div {E} (a b : Z) : outcome E Z := if b =? 0 then Panic else Ok (a / b).
Definition unsigned_rem {E} (a b : Z) : outcome E Z := if b =? 0 then Panic else Ok (a mod b).

(** [wrapping_shl] and [wrapping_shr] of a signed, [wrapping_shr] of an
    unsigned integer; the amount is below the width. *)
Definition wrapping_shl (w a k : Z) : Z := swrap w (Z.shiftl a k).
Definition wrapping_shr (a k : Z) : Z := Z.shiftr a k.

(** [rotate_left], [rotate_right]. *)
Definition rotate_left (w a k : Z) : Z :=
  let u := wrap w a in swrap w (Z.lor (Z.shiftl u k) (Z.shiftr u (w - k))).
Definition rotate_right (w a k : Z) : Z :=
  let u := wrap w a in swrap w (Z.lor (Z.shiftr u k) (Z.shiftl u (w - k))).

(** The shift amounts [b as u32 % 32] and [(b as u32) % 64]. *)
Definition amount (w b : Z) : Z := as_u32 b mod w.

(** ** Shapes of instructions *)

(** Pop an operand or two (the second operand is on top), push a result. *)
Definition unop (pop : M ValueStack TrapError Z) (f : Z → WasmValue) : M ValueStack TrapError unit :=
  a ← pop; stack_push (f a).
Definition unop_try (pop : M ValueStack TrapError Z) (f : Z → outcome TrapError WasmValue)
    : M ValueStack TrapError unit :=
  a ← pop; v ← lift (f a); stack_push v.
Definition binop (pop : M ValueStack TrapError Z) (f : Z → Z → WasmValue)
    : M ValueStack TrapError unit :=
  b ← pop; a ← pop; stack_push (f a b).
Definition binop_try (pop : M ValueStack TrapError Z) (f : Z → Z → outcome TrapError WasmValue)
    : M ValueStack TrapError unit :=
  b ← pop; a ← pop; v ← lift (f a b); stack_push v.

(** [WasmValue::I32(if c { 1 } else { 0 })] *)
Definition of_bool (c : bool) : WasmValue := I32 (if c then 1 else 0).

(** ** Constants *)

Definition exec_const (i : Instruction) : option (M ValueStack TrapError unit) :=
  match i with
  | I32Const v => Some (stack_push (I32 v))
  | I64Const v => Some (stack_push (I64 v))
  | F32Const v => Some (stack_push (F32 v))
  | F64Const v => Some (stack_push (F64 v))
  | _ => None
  end.

(** ** Comparisons *)

Definition exec_i32_cmp (i : Instruction) : option (M ValueStack TrapError unit) :=
  match i with
  | I32Eqz => Some (unop stack_pop_i32 (λ a, of_bool (a =? 0)))
  | I32Eq => Some (binop stack_pop_i32 (λ a b, of_bool (a =? b)))
  | I32Ne => Some (binop stack_pop_i32 (λ a b, of_bool (negb (a =? b))))
  | I32LtS => Some (binop stack_pop_i32 (λ a b, of_bool (a <? b)))
  | I32LtU => Some (binop stack_pop_i32 (λ a b, of_bool (as_u32 a <? as_u32 b)))
  | I32GtS => Some (binop stack_pop_i32 (λ a b, of_bool (b <? a)))
  | I32GtU => Some (binop stack_pop_i32 (λ a b, of_bool (as_u32 b <? as_u32 a)))
  | I32LeS => Some (binop stack_pop_i32 (λ a b, of_bool (a <=? b)))
  | I32LeU => Some (binop stack_pop_i32 (λ a b, of_bool (as_u32 a <=? as_u32 b)))
  | I32GeS => Some (binop stack_pop_i32 (λ a b, of_bool (b <=? a)))
  | I32GeU => Some (binop stack_pop_i32 (λ a b, of_bool (as_u32 b <=? as_u32 a)))
  | _ => None
  end.

Definition exec_i64_cmp (i : Instruction) : option (M ValueStack TrapError unit) :=
  match i with
  | I64Eqz => Some (unop stack_pop_i64 (λ a, of_bool (a =? 0)))
  | I64Eq => Some (binop stack_pop_i64 (λ a b, of_bool (a =? b)))
  | I64Ne => Some (binop stack_pop_i64 (λ a b, of_bool (negb (a =? b))))
  | I64LtS => Some (binop stack_pop_i64 (λ a b, of_bool (a <? b)))
  | I64LtU => Some (binop stack_pop_i64 (λ a b, of_bool (as_u64 a <? as_u64 b)))
  | I64GtS => Some (binop stack_pop_i64 (λ a b, of_bool (b <? a)))
  | I64GtU => Some (binop stack_pop_i64 (λ a b, of_bool (as_u64 b <? as_u64 a)))
  | I64LeS => Some (binop stack_pop_i64 (λ a b, of_bool (a <=? b)))
  | I64LeU => Some (binop stack_pop_i64 (λ a b, of_bool (as_u64 a <=? as_u64 b)))
  | I64GeS => Some (binop stack_pop_i64 (λ a b, of_bool (b <=? a)))
  | I64GeU => Some (binop stack_pop_i64 (λ a b, of_bool (as_u64 b <=? as_u64 a)))
  | _ => None
  end.

Definition exec_f32_cmp (i : Instruction) : option (M ValueStack TrapError unit) :=
  match i with
  | F32Eq => Some (binop stack_pop_f32 (λ a b, of_bool (f_eq fmt32 a b)))
  | F32Ne => Some (binop stack_pop_f32 (λ a b, of_bool (negb (f_eq fmt32 a b))))
  | F32Lt => Some (binop stack_pop_f32 (λ a b, of_bool (f_lt fmt32 a b)))
  | F32Gt => Some (binop stack_pop_f32 (λ a b, of_bool (f_lt fmt32 b a)))
  | F32Le => Some (binop stack_pop_f32 (λ a b, of_bool (f_le fmt32 a b)))
  | F32Ge => Some (binop stack_pop_f32 (λ a b, of_bool (f_le fmt32 b a)))
  | _ => None
  end.

Definition exec_f64_cmp (i : Instruction) : option (M ValueStack TrapError unit) :=
  match i with
  | F64Eq => Some (binop stack_pop_f64 (λ a b, of_bool (f_eq fmt64 a b)))
  | F64Ne => Some (binop stack_pop_f64 (λ a b, of_bool (negb (f_eq fmt64 a b))))
  | F64Lt => Some (binop stack_pop_f64 (λ a b, of_bool (f_lt fmt64 a b)))
  | F64Gt => Some (binop stack_pop_f64 (λ a b, of_bool (f_lt fmt64 b a)))
  | F64Le => Some (binop stack_pop_f64 (λ a b, of_bool (f_le fmt64 a b)))
  | F64Ge => Some (binop stack_pop_f64 (λ a b, of_bool (f_le fmt64 b a)))
  | _ => None
  end.

(** ** Integer arithmetic *)

(** Division and remainder with their traps; [min] is the least integer. *)
Definition div_s (w : Z) (c : Z → WasmValue) (a b : Z) : outcome TrapError WasmValue :=
  if b =? 0 then Err TrapDivisionByZero
  else if (a =? - 2 ^ (w - 1)) && (b =? -1) then Err TrapIntegerOverflow
  else q ← wrapping_div w a b; mret (c q).
Definition div_u (w : Z) (c : Z → WasmValue) (a b : Z) : outcome TrapError WasmValue :=
  let b := wrap w b in
  let a := wrap w a in
  if b =? 0 then Err TrapDivisionByZero else q ← unsigned_div a b; mret (c (swrap w q)).
Definition rem_s (w : Z) (c : Z → WasmValue) (a b : Z) : outcome TrapError WasmValue :=
  if b =? 0 then Err TrapDivisionByZero
  else r ← (if (a =? - 2 ^ (w - 1)) && (b =? -1) then mret 0 else wrapping_rem w a b);
       mret (c r).
Definition rem_u (w : Z) (c : Z → WasmValue) (a b : Z) : outcome TrapError WasmValue :=
  let b := wrap w b in
  let a := wrap w a in
  if b =? 0 then Err TrapDivisionByZero else r ← unsigned_rem a b; mret (c (swrap w r)).

Definition exec_i32_arith (i : Instruction) : option (M ValueStack TrapError unit) :=
  match i with
  | I32Clz => Some (unop stack_pop_i32 (λ a, I32 (leading_zeros 32 a)))
  | I32Ctz => Some (unop stack_pop_i32 (λ a, I32 (trailing_zeros 32 a)))
  | I32Popcnt => Some (unop stack_pop_i32 (λ a, I32 (count_ones 32 a)))
  | I32Add => Some (binop stack_pop_i32 (λ a b, I32 (wrapping_add 32 a b)))
  | I32Sub => Some (binop stack_pop_i32 (λ a b, I32 (wrapping_sub 32 a b)))
  | I32Mul => Some (binop stack_pop_i32 (λ a b, I32 (wrapping_mul 32 a b)))
  | I32DivS => Some (binop_try stack_pop_i32 (div_s 32 I32))
  | I32DivU => Some (binop_try stack_pop_i32 (div_u 32 I32))
  | I32RemS => Some (binop_try stack_pop_i32 (rem_s 32 I32))
  | I32RemU => Some (binop_try stack_pop_i32 (rem_u 32 I32))
  | I32And => Some (binop stack_pop_i32 (λ a b, I32 (Z.land a b)))
  | I32Or => Some (binop stack_pop_i32 (λ a b, I32 (Z.lor a b)))
  | I32Xor => Some (binop stack_pop_i32 (λ a b, I32 (Z.lxor a b)))
  | I32Shl => Some (binop stack_pop_i32 (λ a b, I32 (wrapping_shl 32 a (amount 32 b))))
  | I32ShrS => Some (binop stack_pop_i32 (λ a b, I32 (wrapping_shr a (amount 32 b))))
  | I32ShrU => Some (binop stack_pop_i32 (λ a b, I32 (as_i32 (wrapping_shr (as_u32 a) (amount 32 b)))))
  | I32Rotl => Some (binop stack_pop_i32 (λ a b, I32 (rotate_left 32 a (amount 32 b))))
  | I32Rotr => Some (binop stack_pop_i32 (λ a b, I32 (rotate_right 32 a (amount 32 b))))
  | _ => None
  end.

Definition exec_i64_arith (i : Instruction) : option (M ValueStack TrapError unit) :=
  match i with
  | I64Clz => Some (unop stack_pop_i64 (λ a, I64 (leading_zeros 64 a)))
  | I64Ctz => Some (unop stack_pop_i64 (λ a, I64 (trailing_zeros 64 a)))
  | I64Popcnt => Some (unop stack_pop_i64 (λ a, I64 (count_ones 64 a)))
  | I64Add => Some (binop stack_pop_i64 (λ a b, I64 (wrapping_add 64 a b)))
  | I64Sub => Some (binop stack_pop_i64 (λ a b, I64 (wrapping_sub 64 a b)))
  | I64Mul => Some (binop stack_pop_i64 (λ a b, I64 (wrapping_mul 64 a b)))
  | I64DivS => Some (binop_try stack_pop_i64 (div_s 64 I64))
  | I64DivU => Some (binop_try stack_pop_i64 (div_u 64 I64))
  | I64RemS => Some (binop_try stack_pop_i64 (rem_s 64 I64))
  | I64RemU => Some (binop_try stack_pop_i64 (rem_u 64 I64))
  | I64And => Some (binop stack_pop_i64 (λ a b, I64 (Z.land a b)))
  | I64Or => Some (binop stack_pop_i64 (λ a b, I64 (Z.lor a b)))
  | I64Xor => Some (binop stack_pop_i64 (λ a b, I64 (Z.lxor a b)))
  | I64Shl => Some (binop stack_pop_i64 (λ a b, I64 (wrapping_shl 64 a (amount 64 b))))
  | I64ShrS => Some (binop stack_pop_i64 (λ a b, I64 (wrapping_shr a (amount 64 b))))
  | I64ShrU => Some (binop stack_pop_i64 (λ a b, I64 (as_i64 (wrapping_shr (as_u64 a) (amount 64 b)))))
  | I64Rotl => Some (binop stack_pop_i64 (λ a b, I64 (rotate_left 64 a (amount 64 b))))
  | I64Rotr => Some (binop stack_pop_i64 (λ a b, I64 (rotate_right 64 a (amount 64 b))))
  | _ => None
  end.

(** ** Float arithmetic *)

Section floats.
Context `{FloatEnv}.

Definition exec_f32_arith (i : Instruction) : option (M ValueStack TrapError unit) :=
  match i with
  | F32Abs => Some (unop stack_pop_f32 (λ a, F32 (f32_abs a)))
  | F32Neg => Some (unop stack_pop_f32 (λ a, F32 (f32_neg a)))
  | F32Ceil => Some (unop stack_pop_f32 (λ a, F32 (f32_ceil a)))
  | F32Floor => Some (unop stack_pop_f32 (λ a, F32 (f32_floor a)))
  | F32Trunc => Some (unop stack_pop_f32 (λ a, F32 (f32_trunc a)))
  | F32Nearest => Some (unop stack_pop_f32 (λ a, F32 (f32_nearest a)))
  | F32Sqrt => Some (unop stack_pop_f32 (λ a, F32 (f32_sqrt a)))
  | F32Add => Some (binop stack_pop_f32 (λ a b, F32 (f_add fmt32 a b)))
  | F32Sub => Some (binop stack_pop_f32 (λ a b, F32 (f_sub fmt32 a b)))
  | F32Mul => Some (binop stack_pop_f32 (λ a b, F32 (f_mul fmt32 a b)))
  | F32Div => Some (binop stack_pop_f32 (λ a b, F32 (f_div fmt32 a b)))
  | F32Min => Some (binop stack_pop_f32 (λ a b, F32 (f32_min a b)))
  | F32Max => Some (binop stack_pop_f32 (λ a b, F32 (f32_max a b)))
  | F32Copysign => Some (binop stack_pop_f32 (λ a b, F32 (f32_copysign a b)))
  | _ => None
  end.

Definition exec_f64_arith (i : Instruction) : option (M ValueStack TrapError unit) :=
  match i with
  | F64Abs => Some (unop stack_pop_f64 (λ a, F64 (f64_abs a)))
  | F64Neg => Some (unop stack_pop_f64 (λ a, F64 (f64_neg a)))
  | F64Ceil => Some (unop stack_pop_f64 (λ a, F64 (f64_ceil a)))
  | F64Floor => Some (unop stack_pop_f64 (λ a, F64 (f64_floor a)))
  | F64Trunc => Some (unop stack_pop_f64 (λ a, F64 (f64_trunc a)))
  | F64Nearest => Some (unop stack_pop_f64 (λ a, F64 (f64_nearest a)))
  | F64Sqrt => Some (unop stack_pop_f64 (λ a, F64 (f64_sqrt a)))
  | F64Add => Some (binop stack_pop_f64 (λ a b, F64 (f_add fmt64 a b)))
  | F64Sub => Some (binop stack_pop_f64 (λ a b, F64 (f_sub fmt64 a b)))
  | F64Mul => Some (binop stack_pop_f64 (λ a b, F64 (f_mul fmt64 a b)))
  | F64Div => Some (binop stack_pop_f64 (λ a b, F64 (f_div fmt64 a b)))
  | F64Min => Some (binop stack_pop_f64 (λ a b, F64 (f64_min a b)))
  | F64Max => Some (binop stack_pop_f64 (λ a b, F64 (f64_max a b)))
  | F64Copysign => Some (binop stack_pop_f64 (λ a b, F64 (f64_copysign a b)))
  | _ => None
  end.

(** ** Conversions *)

(** The guards of a trapping truncation: NaN, then the bounds test [oor]. *)
Definition trunc_checked (f : ffmt) (oor : Z → bool) (c : Z → WasmValue) (a : Z)
    : outcome TrapError WasmValue :=
  if is_nan f a then Err TrapInvalidConversionToInteger
  else if oor a then Err TrapIntegerOverflow
  else Ok (c a).

(** [a >= hi || a < lo] and [a >= hi || a <= lo]. *)
Definition out_lt (f : ffmt) (hi lo a : Z) : bool :=
  f_le f (f_of_int f hi) a || f_lt f a (f_of_int f lo).
Definition out_le (f : ffmt) (hi lo a : Z) : bool :=
  f_le f (f_of_int f hi) a || f_le f a (f_of_int f lo).

Definition exec_convert (i : Instruction) : option (M ValueStack TrapError unit) :=
  match i with
  | I32WrapI64 => Some (unop stack_pop_i64 (λ a, I32 (as_i32 a)))
  | I32TruncF32S =>
      Some (unop_try stack_pop_f32 (trunc_checked fmt32 (out_lt fmt32 2147483648 (-2147483648))
              (λ a, I32 (f_to_i32 fmt32 a))))
  | I32TruncF32U =>
      Some (unop_try stack_pop_f32 (trunc_checked fmt32 (out_le fmt32 4294967296 (-1))
              (λ a, I32 (as_i32 (f_to_u32 fmt32 a)))))
  | I32TruncF64S =>
      Some (unop_try stack_pop_f64 (trunc_checked fmt64 (out_le fmt64 2147483648 (-2147483649))
              (λ a, I32 (f_to_i32 fmt64 a))))
  | I32TruncF64U =>
      Some (unop_try stack_pop_f64 (trunc_checked fmt64 (out_le fmt64 4294967296 (-1))
              (λ a, I32 (as_i32 (f_to_u32 fmt64 a)))))
  | I64ExtendI32S => Some (unop stack_pop_i32 (λ a, I64 a))
  | I64ExtendI32U => Some (unop stack_pop_i32 (λ a, I64 (as_u32 a)))
  | I64TruncF32S =>
      Some (unop_try stack_pop_f32
              (trunc_checked fmt32 (out_lt fmt32 9223372036854775808 (-9223372036854775808))
                 (λ a, I64 (f_to_i64 fmt32 a))))
  | I64TruncF32U =>
      Some (unop_try stack_pop_f32 (trunc_checked fmt32 (out_le fmt32 18446744073709551616 (-1))
              (λ a, I64 (as_i64 (f_to_u64 fmt32 a)))))
  | I64TruncF64S =>
      Some (unop_try stack_pop_f64
              (trunc_checked fmt64 (out_lt fmt64 9223372036854775808 (-9223372036854775808))
                 (λ a, I64 (f_to_i64 fmt64 a))))
  | I64TruncF64U =>
      Some (unop_try stack_pop_f64 (trunc_checked fmt64 (out_le fmt64 18446744073709551616 (-1))
              (λ a, I64 (as_i64 (f_to_u64 fmt64 a)))))
  | F32ConvertI32S => Some (unop stack_pop_i32 (λ a, F32 (f_of_int fmt32 a)))
  | F32ConvertI32U => Some (unop stack_pop_i32 (λ a, F32 (f_of_int fmt32 (as_u32 a))))
  | F32ConvertI64S => Some (unop stack_pop_i64 (λ a, F32 (f_of_int fmt32 a)))
  | F32ConvertI64U => Some (unop stack_pop_i64 (λ a, F32 (f_of_int fmt32 (as_u64 a))))
  | F32DemoteF64 => Some (unop stack_pop_f64 (λ a, F32 (f_convert fmt64 fmt32 a)))
  | F64ConvertI32S => Some (unop stack_pop_i32 (λ a, F64 (f_of_int fmt64 a)))
  | F64ConvertI32U => Some (unop stack_pop_i32 (λ a, F64 (f_of_int fmt64 (as_u32 a))))
  | F64ConvertI64S => Some (unop stack_pop_i64 (λ a, F64 (f_of_int fmt64 a)))
  | F64ConvertI64U => Some (unop stack_pop_i64 (λ a, F64 (f_of_int fmt64 (as_u64 a))))
  | F64PromoteF32 => Some (unop stack_pop_f32 (λ a, F64 (f_convert fmt32 fmt64 a)))
  | _ => None
  end.

(** Reinterpretations, sign extensions, saturating truncations. *)
Definition exec_reinterpret (i : Instruction) : option (M ValueStack TrapError unit) :=
  match i with
  | I32ReinterpretF32 => Some (unop stack_pop_f32 (λ a, I32 (as_i32 a)))
  | I64ReinterpretF64 => Some (unop stack_pop_f64 (λ a, I64 (as_i64 a)))
  | F32ReinterpretI32 => Some (unop stack_pop_i32 (λ a, F32 (as_u32 a)))
  | F64ReinterpretI64 => Some (unop stack_pop_i64 (λ a, F64 (as_u64 a)))
  | _ => None
  end.
Definition exec_sign_ext (i : Instruction) : option (M ValueStack TrapError unit) :=
  match i with
  | I32Extend8S => Some (unop stack_pop_i32 (λ a, I32 (as_i8 a)))
  | I32Extend16S => Some (unop stack_pop_i32 (λ a, I32 (as_i16 a)))
  | I64Extend8S => Some (unop stack_pop_i64 (λ a, I64 (as_i8 a)))
  | I64Extend16S => Some (unop stack_pop_i64 (λ a, I64 (as_i16 a)))
  | I64Extend32S => Some (unop stack_pop_i64 (λ a, I64 (as_i32 a)))
  | _ => None
  end.
Definition exec_trunc_sat (i : Instruction) : option (M ValueStack TrapError unit) :=
  match i with
  | I32TruncSatF32S => Some (unop stack_pop_f32 (λ a, I32 (trunc_sat_f32_i32 a)))
  | I32TruncSatF32U => Some (unop stack_pop_f32 (λ a, I32 (as_i32 (trunc_sat_f32_u32 a))))
  | I32TruncSatF64S => Some (unop stack_pop_f64 (λ a, I32 (trunc_sat_f64_i32 a)))
  | I32TruncSatF64U => Some (unop stack_pop_f64 (λ a, I32 (as_i32 (trunc_sat_f64_u32 a))))
  | I64TruncSatF32S => Some (unop stack_pop_f32 (λ a, I64 (trunc_sat_f32_i64 a)))
  | I64TruncSatF32U => Some (unop stack_pop_f32 (λ a, I64 (as_i64 (trunc_sat_f32_u64 a))))
  | I64TruncSatF64S => Some (unop stack_pop_f64 (λ a, I64 (trunc_sat_f64_i64 a)))
  | I64TruncSatF64U => Some (unop stack_pop_f64 (λ a, I64 (as_i64 (trunc_sat_f64_u64 a))))
  | _ => None
  end.

(** The first group that knows the instruction. *)
Definition first_some {A} (l : list (option A)) : option A :=
  fold_right (λ o r, match o with Some a => Some a | None => r end) None l.
Definition exec_numeric (i : Instruction) : option (M ValueStack TrapError unit) :=
  first_some [exec_const i; exec_i32_cmp i; exec_i64_cmp i; exec_f32_cmp i; exec_f64_cmp i;
              exec_i32_arith i; exec_i64_arith i; exec_f32_arith i; exec_f64_arith i;
              exec_convert i; exec_reinterpret i; exec_sign_ext i; exec_trunc_sat i].
End floats.

(** ** Types of the numeric instructions

    The operand types (the last one is on top of the stack) and the result
    type that the WebAssembly specification assigns. *)

Definition num_sig (i : Instruction) : option (list ValueType * ValueType) :=
  match i with
  | I32Const _ => Some ([], TI32)
  | I64Const _ => Some ([], TI64)
  | F32Const _ => Some ([], TF32)
  | F64Const _ => Some ([], TF64)
  | I32Eqz => Some ([TI32], TI32)
  | I32Eq | I32Ne | I32LtS | I32LtU | I32GtS | I32GtU | I32LeS | I32LeU | I32GeS | I32GeU =>
      Some ([TI32; TI32], TI32)
  | I64Eqz => Some ([TI64], TI32)
  | I64Eq | I64Ne | I64LtS | I64LtU | I64GtS | I64GtU | I64LeS | I64LeU | I64GeS | I64GeU =>
      Some ([TI64; TI64], TI32)
  | F32Eq | F32Ne | F32Lt | F32Gt | F32Le | F32Ge => Some ([TF32; TF32], TI32)
  | F64Eq | F64Ne | F64Lt | F64Gt | F64Le | F64Ge => Some ([TF64; TF64], TI32)
  | I32Clz | I32Ctz | I32Popcnt | I32Extend8S | I32Extend16S => Some ([TI32], TI32)
  | I32Add | I32Sub | I32Mul | I32DivS | I32DivU | I32RemS | I32RemU | I32And | I32Or | I32Xor
  | I32Shl | I32ShrS | I32ShrU | I32Rotl | I32Rotr => Some ([TI32; TI32], TI32)
  | I64Clz | I64Ctz | I64Popcnt | I64Extend8S | I64Extend16S | I64Extend32S => Some ([TI64], TI64)
  | I64Add | I64Sub | I64Mul | I64DivS | I64DivU | I64RemS | I64RemU | I64And | I64Or | I64Xor
  | I64Shl | I64ShrS | I64ShrU | I64Rotl | I64Rotr => Some ([TI64; TI64], TI64)
  | F32Abs | F32Neg | F32Ceil | F32Floor | F32Trunc | F32Nearest | F32Sqrt => Some ([TF32], TF32)
  | F32Add | F32Sub | F32Mul | F32Div | F32Min | F32Max | F32Copysign => Some ([TF32; TF32], TF32)
  | F64Abs | F64Neg | F64Ceil | F64Floor | F64Trunc | F64Nearest | F64Sqrt => Some ([TF64], TF64)
  | F64Add | F64Sub | F64Mul | F64Div | F64Min | F64Max | F64Copysign => Some ([TF64; TF64], TF64)
  | I32WrapI64 => Some ([TI64], TI32)
  | I32TruncF32S | I32TruncF32U | I32ReinterpretF32 | I32TruncSatF32S | I32TruncSatF32U =>
      Some ([TF32], TI32)
  | I32TruncF64S | I32TruncF64U | I32TruncSatF64S | I32TruncSatF64U => Some ([TF64], TI32)
  | I64ExtendI32S | I64ExtendI32U => Some ([TI32], TI64)
  | I64TruncF32S | I64TruncF32U | I64TruncSatF32S | I64TruncSatF32U => Some ([TF32], TI64)
  | I64TruncF64S | I64TruncF64U | I64ReinterpretF64 | I64TruncSatF64S | I64TruncSatF64U =>
      Some ([TF64], TI64)
  | F32ConvertI32S | F32ConvertI32U | F32ReinterpretI32 => Some ([TI32], TF32)
  | F32ConvertI64S | F32ConvertI64U => Some ([TI64], TF32)
  | F32DemoteF64 => Some ([TF64], TF32)
  | F64ConvertI32S | F64ConvertI32U => Some ([TI32], TF64)
  | F64ConvertI64S | F64ConvertI64U | F64ReinterpretI64 => Some ([TI64], TF64)
  | F64PromoteF32 => Some ([TF32], TF64)
  | _ => None
  end.

(** The traps of numeric instructions. *)
Definition arith_trap (e : TrapError) : Prop :=
  e = TrapDivisionByZero ∨ e = TrapIntegerOverflow ∨ e = TrapInvalidConversionToInteger.

(** A pop of operands of type [t]. *)
Record popper (pop : M ValueStack TrapError Z) (t : ValueType) (ok : Z → Prop) : Prop := {
  popper_triple : ∀ X, (∀ e, X (Some e)) → triple stack_ok X pop ok;
  popper_typed : ∀ v vs d, value_ok v → value_type v = t →
    ∃ z, pop (mkStack (v :: vs) d) = (Ok z, mkStack vs d) ∧ ok z;
  popper_inv : ∀ s z s', pop s = (Ok z, s') →
    ∃ v, values s = v :: values s' ∧ value_type v = t ∧ max_depth s' = max_depth s
}.

Ltac popper_tac tr :=
  split;
  [ intros; by apply tr
  | intros [] vs d Hv Ht; try done; eexists; by split
  | intros [[|v vs] d] z s' Hp; [done|]; destruct v; cbn in Hp; try discriminate Hp;
    injection Hp as <- <-; eexists; by split_and! ].

Lemma popper_i32 : popper stack_pop_i32 TI32 (in_s 32).
Proof. popper_tac triple_pop_i32. Qed.
Lemma popper_i64 : popper stack_pop_i64 TI64 (in_s 64).
Proof. popper_tac triple_pop_i64. Qed.
Lemma popper_f32 : popper stack_pop_f32 TF32 (in_u 32).
Proof. popper_tac triple_pop_f32. Qed.
Lemma popper_f64 : popper stack_pop_f64 TF64 (in_u 64).
Proof. popper_tac triple_pop_f64. Qed.

(** A value of type [r] in range, or an arithmetic trap. *)
Definition typed (r : ValueType) (v : WasmValue) : Prop := value_ok v ∧ value_type v = r.
Definition typed_or_trap (r : ValueType) (o : outcome TrapError WasmValue) : Prop :=
  match o with Ok v => typed r v | Err e => arith_trap e | Panic => False end.

(** The shapes of numeric instructions, with their types. *)
Inductive shaped : M ValueStack TrapError unit → list ValueType → ValueType → Prop :=
| sh_const v r : typed r v → shaped (stack_push v) [] r
| sh_un pop t ok f r :
    popper pop t ok → (∀ a, ok a → typed r (f a)) → shaped (unop pop f) [t] r
| sh_un_try pop t ok f r :
    popper pop t ok → (∀ a, ok a → typed_or_trap r (f a)) → shaped (unop_try pop f) [t] r
| sh_bin pop t ok f r :
    popper pop t ok → (∀ a b, ok a → ok b → typed r (f a b)) → shaped (binop pop f) [t; t] r
| sh_bin_try pop t ok f r :
    popper pop t ok → (∀ a b, ok a → ok b → typed_or_trap r (f a b)) →
    shaped (binop_try pop f) [t; t] r.

(** ** Ranges of the integer methods *)

Lemma low_zeros_range n u : 0 ≤ low_zeros n u ≤ Z.of_nat n.
Proof. revert u. induction n as [|n IH]; intros u; simpl; [lia|]. specialize (IH (Z.div2 u)). case_match; lia. Qed.

Lemma ones_range n u : 0 ≤ ones n u ≤ Z.of_nat n.
Proof.
  revert u. induction n as [|n IH]; intros u; cbn [ones]; [lia|]. specialize (IH (Z.div2 u)).
  destruct (Z.odd u); simpl Z.b2z; lia.
Qed.

Lemma leading_zeros_range w a : 0 < w → 0 ≤ leading_zeros w a ≤ w.
Proof.
  intros Hw. unfold leading_zeros. pose proof (wrap_range w a) as Hr. unfold in_u in Hr.
  destruct (Z.eqb_spec (wrap w a) 0); [lia|]. pose proof (Z.log2_nonneg (wrap w a)).
  assert (Z.log2 (wrap w a) < w) by (apply Z.log2_lt_pow2; lia). lia.
Qed.

Lemma small_in_s w z : 8 ≤ w → 0 ≤ z ≤ w → in_s w z.
Proof.
  intros Hw Hz. assert (w < 2 ^ (w - 1)).
  { replace (w - 1) with (7 + (w - 8)) by lia. rewrite Z.pow_add_r by lia.
    pose proof (Z.pow_gt_lin_r 2 (w - 8)). lia. }
  unfold in_s. lia.
Qed.

Lemma count_ranges w a :
  8 ≤ w → in_s w (leading_zeros w a) ∧ in_s w (trailing_zeros w a) ∧ in_s w (count_ones w a).
Proof.
  intros Hw. pose proof (low_zeros_range (Z.to_nat w) (wrap w a)).
  pose proof (ones_range (Z.to_nat w) (wrap w a)). pose proof (leading_zeros_range w a).
  split_and!; apply small_in_s; unfold trailing_zeros, count_ones; lia.
Qed.

Lemma of_bool_typed c : typed TI32 (of_bool c).
Proof. split; [|done]. destruct c; simpl; unfold in_s; lia. Qed.

Lemma typed_i32 z : in_s 32 z → typed TI32 (I32 z).
Proof. by split. Qed.
Lemma typed_i64 z : in_s 64 z → typed TI64 (I64 z).
Proof. by split. Qed.
Lemma typed_f32 z : in_u 32 z → typed TF32 (F32 z).
Proof. by split. Qed.
Lemma typed_f64 z : in_u 64 z → typed TF64 (F64 z).
Proof. by split. Qed.

(** Division and remainder. *)
Section division.
Context (w : Z) (c : Z → WasmValue) (t : ValueType).
Hypothesis (Hw : 0 < w).
Hypothesis (Hc : ∀ z, in_s w z → typed t (c z)).

Lemma in_s_0 : in_s w 0.
Proof. pose proof (pow2_pos (w - 1)). unfold in_s. lia. Qed.

Lemma div_s_typed a b : typed_or_trap t (div_s w c a b).
Proof.
  unfold div_s, wrapping_div. repeat case_match; simpl; unfold arith_trap; auto.
  apply Hc. by apply swrap_range.
Qed.
Lemma div_u_typed a b : typed_or_trap t (div_u w c a b).
Proof.
  unfold div_u, unsigned_div. case_match; simpl; unfold arith_trap; auto.
  apply Hc. by apply swrap_range.
Qed.
Lemma rem_s_typed a b : typed_or_trap t (rem_s w c a b).
Proof.
  unfold rem_s, wrapping_rem. repeat case_match; simpl; unfold arith_trap; auto; apply Hc;
    [apply in_s_0|by apply swrap_range].
Qed.
Lemma rem_u_typed a b : typed_or_trap t (rem_u w c a b).
Proof.
  unfold rem_u, unsigned_rem. case_match; simpl; unfold arith_trap; auto.
  apply Hc. by apply swrap_range.
Qed.
End division.

Section shapes.
Context `{FloatEnv}.

Lemma trunc_checked_typed f oor c t a :
  typed t (c a) → typed_or_trap t (trunc_checked f oor c a).
Proof. intros. unfold trunc_checked. repeat case_match; simpl; unfold arith_trap; auto. Qed.

Lemma amount_nonneg w b : 0 < w → 0 ≤ amount w b.
Proof. intros. apply Z.mod_pos_bound. lia. Qed.

Lemma f_to_i32_range f a : in_s 32 (f_to_i32 f a).
Proof. pose proof (f_to_int_range f I32_MIN I32_MAX a). unfold f_to_i32, I32_MIN, I32_MAX, in_s in *. lia. Qed.
Lemma f_to_i64_range f a : in_s 64 (f_to_i64 f a).
Proof. pose proof (f_to_int_range f I64_MIN I64_MAX a). unfold f_to_i64, I64_MIN, I64_MAX, in_s in *. lia. Qed.
Lemma trunc_sat_i32_range f a : in_s 32 (trunc_sat f I32_MIN I32_MAX a).
Proof. pose proof (trunc_sat_range f I32_MIN I32_MAX a). unfold I32_MIN, I32_MAX, in_s in *. lia. Qed.
Lemma trunc_sat_i64_range f a : in_s 64 (trunc_sat f I64_MIN I64_MAX a).
Proof. pose proof (trunc_sat_range f I64_MIN I64_MAX a). unfold I64_MIN, I64_MAX, in_s in *. lia. Qed.

(** The integer result of an instruction is in range. *)
Ltac int_range :=
  lazymatch goal with
  | |- in_s 32 (leading_zeros _ _) => by apply count_ranges
  | |- in_s 32 (trailing_zeros _ _) => by apply (count_ranges 32)
  | |- in_s 32 (count_ones _ _) => by apply (count_ranges 32)
  | |- in_s 64 (leading_zeros _ _) => by apply count_ranges
  | |- in_s 64 (trailing_zeros _ _) => by apply (count_ranges 64)
  | |- in_s 64 (count_ones _ _) => by apply (count_ranges 64)
  | |- in_s _ (Z.land _ _) => by apply in_s_land
  | |- in_s _ (Z.lor _ _) => by apply in_s_lor
  | |- in_s _ (Z.lxor _ _) => by apply in_s_lxor
  | |- in_s _ (wrapping_shr _ _) => apply in_s_shr; [done|by apply amount_nonneg|done]
  | |- in_s _ (f_to_i32 _ _) => apply f_to_i32_range
  | |- in_s _ (f_to_i64 _ _) => apply f_to_i64_range
  | |- in_s _ (trunc_sat_f32_i32 _) => apply trunc_sat_i32_range
  | |- in_s _ (trunc_sat_f64_i32 _) => apply trunc_sat_i32_range
  | |- in_s _ (trunc_sat_f32_i64 _) => apply trunc_sat_i64_range
  | |- in_s _ (trunc_sat_f64_i64 _) => apply trunc_sat_i64_range
  | |- in_s 32 (as_i8 _) => apply (in_s_weaken 8); [done|by apply swrap_range]
  | |- in_s 32 (as_i16 _) => apply (in_s_weaken 16); [done|by apply swrap_range]
  | |- in_s 64 (as_i8 _) => apply (in_s_weaken 8); [done|by apply swrap_range]
  | |- in_s 64 (as_i16 _) => apply (in_s_weaken 16); [done|by apply swrap_range]
  | |- in_s 64 (as_i32 _) => apply (in_s_weaken 32); [done|by apply swrap_range]
  | |- in_s 64 (as_u32 _) => apply (in_u_in_s 32); [done|by apply wrap_range]
  | H : in_s 32 ?a |- in_s 64 ?a => by apply (in_s_weaken 32)
  | |- in_s _ _ => first [done | by apply swrap_range]
  end.

(** The float result of an instruction is in range. *)
Ltac flt_range :=
  lazymatch goal with
  | |- in_u 32 (f32_min _ _) => by apply (fmin_range fmt32)
  | |- in_u 64 (f64_min _ _) => by apply (fmin_range fmt64)
  | |- in_u 32 (f32_max _ _) => by apply (fmax_range fmt32)
  | |- in_u 64 (f64_max _ _) => by apply (fmax_range fmt64)
  | |- in_u _ (f32_copysign _ _) => by apply copysign_range
  | |- in_u _ (f64_copysign _ _) => by apply copysign_range
  | |- in_u _ (as_u32 _) => by apply wrap_range
  | |- in_u _ (as_u64 _) => by apply wrap_range
  | |- in_u 32 (encode _ _ _) => by apply (encode_range fmt32)
  | |- in_u 64 (encode _ _ _) => by apply (encode_range fmt64)
  | H : in_u 32 ?a |- in_u 32 (_ ?a) => by apply f32_unary_range
  | H : in_u 64 ?a |- in_u 64 (_ ?a) => by apply f64_unary_range
  | |- in_u _ _ => done
  end.

Ltac typed_tac :=
  lazymatch goal with
  | |- typed _ (of_bool _) => apply of_bool_typed
  | |- typed _ (I32 _) => apply typed_i32; int_range
  | |- typed _ (I64 _) => apply typed_i64; int_range
  | |- typed _ (F32 _) => apply typed_f32; unfold f_add, f_sub, f_mul, f_div, f_of_int, f_convert; flt_range
  | |- typed _ (F64 _) => apply typed_f64; unfold f_add, f_sub, f_mul, f_div, f_of_int, f_convert; flt_range
  | |- typed_or_trap _ (trunc_checked _ _ _ _) => apply trunc_checked_typed; typed_tac
  | |- typed_or_trap _ (div_s _ _ _ _) => apply div_s_typed; [done|]; intros; by split
  | |- typed_or_trap _ (div_u _ _ _ _) => apply div_u_typed; [done|]; intros; by split
  | |- typed_or_trap _ (rem_s _ _ _ _) => apply rem_s_typed; [done|]; intros; by split
  | |- typed_or_trap _ (rem_u _ _ _ _) => apply rem_u_typed; [done|]; intros; by split
  end.

Ltac popper_hint :=
  first [apply popper_i32 | apply popper_i64 | apply popper_f32 | apply popper_f64].

Lemma numeric_shaped i ps r :
  num_sig i = Some (ps, r) → instr_ok i → ∃ m, exec_numeric i = Some m ∧ shaped m ps r.
Proof.
  destruct i; intros Hs Hi; try discriminate Hs; injection Hs as <- <-;
    (eexists; split; [reflexivity|]);
    first [ apply sh_const; typed_tac
          | eapply sh_un; [popper_hint|intros; typed_tac]
          | eapply sh_un_try; [popper_hint|intros; typed_tac]
          | eapply sh_bin; [popper_hint|intros; typed_tac]
          | eapply sh_bin_try; [popper_hint|intros; typed_tac] ].
Qed.
End shapes.

(** ** What a shaped instruction does *)

Section shaped.
Context (X : option TrapError → Prop) (HX : ∀ e, X (Some e)).

Lemma triple_lift_typed r o :
  typed_or_trap r o → triple stack_ok X (lift o) value_ok.
Proof. intros Ho. apply triple_lift. destruct o; [by destruct Ho|auto|done]. Qed.

Lemma triple_shaped m ps r : shaped m ps r → triple stack_ok X m (λ _, True).
Proof.
  destruct 1 as [v r [Hv _]|pop t ok f r Hp Hf|pop t ok f r Hp Hf|pop t ok f r Hp Hf|pop t ok f r Hp Hf];
    try (eapply triple_bind; [by apply Hp|]; intros a Ha);
    try (eapply triple_bind; [by apply Hp|]; intros b Hb);
    try (eapply triple_bind; [by eapply triple_lift_typed, Hf|]; intros v Hv);
    apply triple_push; try done; by apply Hf.
Qed.
End shaped.

Lemma push_room v vs d : len vs < d → stack_push v (mkStack vs d) = (Ok tt, mkStack (v :: vs) d).
Proof. intros. unfold stack_push. simpl. by rewrite (proj2 (Z.leb_gt _ _)). Qed.

(** On operands of its types, an instruction replaces them by a result of its
    type, or traps. *)
Definition computes (m : M ValueStack TrapError unit) (ps : list ValueType) (r : ValueType) : Prop :=
  ∀ args rest d, map value_type args = ps → Forall value_ok args → len rest < d →
    match m (mkStack (rev args ++ rest) d) with
    | (Ok _, s') => ∃ v, s' = mkStack (v :: rest) d ∧ typed r v
    | (Err e, _) => arith_trap e
    | (Panic, _) => False
    end.

Lemma shaped_computes m ps r : shaped m ps r → computes m ps r.
Proof.
  intros Hm args rest d Hty Hok Hd.
  destruct Hm as [v r Hv|pop t ok f r Hp Hf|pop t ok f r Hp Hf|pop t ok f r Hp Hf|pop t ok f r Hp Hf].
  - destruct args; [|done]. simpl. rewrite push_room by done. eauto.
  - destruct args as [|x [|]]; simplify_eq/=. apply Forall_cons in Hok as [Hok _].
    destruct (popper_typed _ _ _ Hp x rest d Hok eq_refl) as (z & Hz & Ha).
    unfold unop, mbind, M_bind. rewrite Hz, push_room by done. eauto.
  - destruct args as [|x [|]]; simplify_eq/=. apply Forall_cons in Hok as [Hok _].
    destruct (popper_typed _ _ _ Hp x rest d Hok eq_refl) as (z & Hz & Ha).
    specialize (Hf z Ha). unfold unop_try, mbind, M_bind, lift. rewrite Hz.
    destruct (f z) as [v|e|]; [rewrite push_room by done; eauto|done..].
  - destruct args as [|x [|y [|]]]; simplify_eq/=. apply Forall_cons in Hok as [Hx Hy].
    apply Forall_cons in Hy as [Hy _].
    destruct (popper_typed _ _ _ Hp y (x :: rest) d Hy) as (b & Hb & Hb'); [congruence|].
    destruct (popper_typed _ _ _ Hp x rest d Hx) as (a & Ha & Ha'); [congruence|].
    unfold binop, mbind, M_bind. rewrite Hb, Ha, push_room by done. eauto.
  - destruct args as [|x [|y [|]]]; simplify_eq/=. apply Forall_cons in Hok as [Hx Hy].
    apply Forall_cons in Hy as [Hy _].
    destruct (popper_typed _ _ _ Hp y (x :: rest) d Hy) as (b & Hb & Hb'); [congruence|].
    destruct (popper_typed _ _ _ Hp x rest d Hx) as (a & Ha & Ha'); [congruence|].
    specialize (Hf a b Ha' Hb'). unfold binop_try, mbind, M_bind, lift. rewrite Hb, Ha.
    destruct (f a b) as [v|e|]; [rewrite push_room by done; eauto|done..].
Qed.

(** ** The integer methods, bit by bit *)

Lemma rotate_left_bits w a k i :
  0 ≤ k < w → 0 ≤ i < w → Z.testbit (rotate_left w a k) i = Z.testbit a ((i - k) mod w).
Proof.
  intros Hk Hi. unfold rotate_left. cbv zeta. rewrite testbit_swrap, Z.lor_spec by done.
  destruct (Z_lt_le_dec i k).
  - rewrite Z.shiftl_spec_low by done. rewrite orb_false_l, Z.shiftr_spec by lia.
    rewrite testbit_wrap by lia. f_equal. apply (Z.mod_unique_pos _ _ (-1)); lia.
  - rewrite Z.shiftl_spec, Z.shiftr_spec by lia. rewrite testbit_wrap by lia.
    rewrite testbit_wrap_high by lia. rewrite orb_false_r. f_equal. symmetry. apply Z.mod_small. lia.
Qed.

Lemma rotate_right_bits w a k i :
  0 ≤ k < w → 0 ≤ i < w → Z.testbit (rotate_right w a k) i = Z.testbit a ((i + k) mod w).
Proof.
  intros Hk Hi. unfold rotate_right. cbv zeta. rewrite testbit_swrap, Z.lor_spec by done.
  rewrite Z.shiftr_spec by lia. destruct (Z_lt_le_dec (i + k) w).
  - rewrite testbit_wrap by lia. rewrite Z.shiftl_spec_low by lia. rewrite orb_false_r.
    f_equal. symmetry. apply Z.mod_small. lia.
  - rewrite testbit_wrap_high, orb_false_l by lia. rewrite Z.shiftl_spec, testbit_wrap by lia.
    f_equal. apply (Z.mod_unique_pos _ _ 1); lia.
Qed.

Lemma leading_zeros_bits w a :
  0 < w → let n := leading_zeros w a in
  (∀ i, w - n ≤ i < w → Z.testbit a i = false) ∧ (n < w → Z.testbit a (w - 1 - n) = true).
Proof.
  intros Hw. pose proof (wrap_range w a ltac:(lia)) as Hr. unfold in_u in Hr.
  unfold leading_zeros. destruct (Z.eqb_spec (wrap w a) 0) as [H0|H0]; cbv zeta.
  - split; [|lia]. intros i Hi. rewrite <-(testbit_wrap w) by lia. by rewrite H0, Z.bits_0.
  - assert (Z.log2 (wrap w a) < w) by (apply Z.log2_lt_pow2; lia).
    pose proof (Z.log2_nonneg (wrap w a)). split.
    + intros i Hi. rewrite <-(testbit_wrap w) by lia. apply Z.bits_above_log2; lia.
    + intros _. rewrite <-(testbit_wrap w) by lia.
      replace (w - 1 - (w - 1 - Z.log2 (wrap w a))) with (Z.log2 (wrap w a)) by lia.
      apply Z.bit_log2. lia.
Qed.

Lemma low_zeros_bits n : ∀ u, let k := low_zeros n u in
  (∀ i, 0 ≤ i < k → Z.testbit u i = false) ∧ (k < Z.of_nat n → Z.testbit u k = true).
Proof.
  induction n as [|n IH]; intros u; simpl; [split; [lia|lia]|].
  destruct (Z.odd u) eqn:Eo; [split; [lia|]; intros _; by rewrite Z.bit0_odd|].
  destruct (IH (Z.div2 u)) as [IH1 IH2]. pose proof (low_zeros_range n (Z.div2 u)).
  remember (low_zeros n (Z.div2 u)) as k. clear Heqk. split.
  - intros i Hi. destruct (decide (i = 0)) as [->|]; [by rewrite Z.bit0_odd|].
    specialize (IH1 (i - 1)). rewrite Z.div2_spec, Z.shiftr_spec in IH1 by lia.
    replace (i - 1 + 1) with i in IH1 by lia. apply IH1. lia.
  - intros Hk. rewrite Z.div2_spec, Z.shiftr_spec in IH2 by lia.
    rewrite (Z.add_comm 1). apply IH2. lia.
Qed.

Lemma trailing_zeros_bits w a :
  0 < w → let n := trailing_zeros w a in
  (∀ i, 0 ≤ i < n → Z.testbit a i = false) ∧ (n < w → Z.testbit a n = true).
Proof.
  intros Hw. unfold trailing_zeros. destruct (low_zeros_bits (Z.to_nat w) (wrap w a)) as [H1 H2].
  pose proof (low_zeros_range (Z.to_nat w) (wrap w a)). cbv zeta. split.
  - intros i Hi. rewrite <-(testbit_wrap w) by lia. apply H1. lia.
  - intros Hn. rewrite <-(testbit_wrap w) by lia. apply H2. lia.
Qed.

(** The number of set bits among the lowest [n]. *)
Definition popcount (n : nat) (z : Z) : Z :=
  Z.of_nat (length (List.filter (Z.testbit z) (map Z.of_nat (seq 0 n)))).

Lemma ones_popcount n : ∀ u, ones n u = popcount n u.
Proof.
  assert (Hshift : ∀ n k u, length (List.filter (Z.testbit (Z.div2 u)) (map Z.of_nat (seq k n))) =
    length (List.filter (Z.testbit u) (map Z.of_nat (seq (S k) n)))).
  { intros m. induction m as [|m IHm]; intros k u; [done|]. cbn [seq map List.filter].
    rewrite Z.div2_spec, Z.shiftr_spec by lia. rewrite <-Z.div2_spec.
    replace (Z.of_nat k + 1) with (Z.of_nat (S k)) by lia.
    destruct (Z.testbit u (Z.of_nat (S k))); cbn [length]; by rewrite IHm. }
  induction n as [|n IH]; intros u; [done|]. cbn [ones]. rewrite IH. unfold popcount.
  rewrite Hshift. cbn [seq map List.filter]. change (Z.of_nat 0) with 0. rewrite Z.bit0_odd.
  destruct (Z.odd u); cbn [length Z.b2z]; lia.
Qed.

Lemma popcount_ext n a b :
  (∀ i, 0 ≤ i < Z.of_nat n → Z.testbit a i = Z.testbit b i) → popcount n a = popcount n b.
Proof.
  intros Hab. unfold popcount. do 2 f_equal. apply filter_ext_in. intros x Hx.
  apply in_map_iff in Hx as (k & <- & Hk%in_seq). apply Hab. lia.
Qed.

Lemma count_ones_bits w a : 0 ≤ w → count_ones w a = popcount (Z.to_nat w) a.
Proof.
  intros. unfold count_ones. rewrite ones_popcount. apply popcount_ext. intros i Hi.
  apply testbit_wrap. lia.
Qed.

(** Signed division on machine integers does not wrap, except for the one
    quotient that the guard rejects. *)
Lemma quot_in_s w a b :
  0 < w → in_s w a → in_s w b → b ≠ 0 → ¬ (a = - 2 ^ (w - 1) ∧ b = -1) → in_s w (Z.quot a b).
Proof.
  intros Hw Ha Hb H0 Hn. unfold in_s in *. pose proof (pow2_pos (w - 1) ltac:(lia)) as Hp.
  pose proof (Z.quot_abs a b H0) as Hq.
  destruct (decide (Z.abs b = 1)) as [Hb1|Hb1].
  - rewrite Hb1, Z.quot_1_r in Hq. destruct (Z.eq_dec b 1) as [->|]; [by rewrite Z.quot_1_r|].
    assert (b = -1) as -> by lia. lia.
  - assert (Hlt : Z.quot (Z.abs a) (Z.abs b) ≤ Z.abs a / 2).
    { rewrite Z.quot_div_nonneg by lia. apply Z.div_le_compat_l; lia. }
    pose proof (Z.div_lt_upper_bound (Z.abs a) 2 (2 ^ (w - 1))).
    pose proof (Z.quot_pos (Z.abs a) (Z.abs b)). lia.
Qed.

Lemma rem_in_s w a b : 0 < w → in_s w b → b ≠ 0 → in_s w (Z.rem a b).
Proof.
  intros Hw Hb H0. pose proof (Z.rem_bound_abs a b H0). unfold in_s in *. lia.
Qed.

(** The division instructions: width, signed operands, quotient wanted. *)
Definition division (i : Instruction) : option (Z * bool * bool) :=
  match i with
  | I32DivS => Some (32, true, true)
  | I32DivU => Some (32, false, true)
  | I32RemS => Some (32, true, false)
  | I32RemU => Some (32, false, false)
  | I64DivS => Some (64, true, true)
  | I64DivU => Some (64, false, true)
  | I64RemS => Some (64, true, false)
  | I64RemU => Some (64, false, false)
  | _ => None
  end.

(** An integer of the stack, and the operand that it stands for. *)
Definition int_value (w z : Z) : WasmValue := if w =? 32 then I32 z else I64 z.
Definition operand (w : Z) (sg : bool) (z : Z) : Z := if sg then z else wrap w z.

(** The truncated division of [a] by [b]. *)
Definition truncated (a b q r : Z) : Prop :=
  a = b * q + r ∧ Z.abs r < Z.abs b ∧ (r = 0 ∨ Z.sgn r = Z.sgn a).

(** The one quotient that the width cannot hold. *)
Definition overflows (w : Z) (sg qt : bool) (a b : Z) : Prop :=
  sg = true ∧ qt = true ∧ a = - 2 ^ (w - 1) ∧ b = -1.

Definition int_div (w : Z) (sg qt : bool) : Z → Z → outcome TrapError WasmValue :=
  match sg, qt with
  | true, true => div_s w (int_value w)
  | false, true => div_u w (int_value w)
  | true, false => rem_s w (int_value w)
  | false, false => rem_u w (int_value w)
  end.

Lemma truncated_quot a b : b ≠ 0 → truncated a b (Z.quot a b) (Z.rem a b).
Proof.
  intros Hb. split_and!; [by apply Z.quot_rem|by apply Z.rem_bound_abs|].
  destruct (Z.eq_dec (Z.rem a b) 0); [by left|right]. by apply Z.rem_sign_nz.
Qed.

Lemma truncated_div a b : 0 ≤ a → 0 < b → truncated a b (a / b) (a mod b).
Proof.
  intros Ha Hb. rewrite <-Z.quot_div_nonneg, <-Z.rem_mod_nonneg by lia. apply truncated_quot. lia.
Qed.

Lemma wrap_nonzero w b : 0 < w → in_s w b → b ≠ 0 → 0 < wrap w b.
Proof.
  intros Hw Hb H0. pose proof (wrap_range w b ltac:(lia)) as Hr. unfold in_u in Hr.
  destruct (Z.eq_dec (wrap w b) 0) as [Hz|]; [|lia]. destruct H0.
  rewrite <-(swrap_id w b), <-swrap_wrap, Hz by done. apply swrap_id; [done|]. by apply in_s_0.
Qed.

Lemma int_div_signed w (qt : bool) a b :
  0 < w → in_s w a → in_s w b → b ≠ 0 → ¬ overflows w true qt a b →
  let x := if qt then Z.quot a b else Z.rem a b in
  in_s w x ∧ int_div w true qt a b = Ok (int_value w (swrap w x)).
Proof.
  intros Hw Ha Hb H0 Ho. assert (E0 : (b =? 0) = false) by by apply Z.eqb_neq.
  destruct qt; simpl; unfold div_s, rem_s, wrapping_div, wrapping_rem; rewrite E0.
  - assert (Hn : ¬ (a = - 2 ^ (w - 1) ∧ b = -1)) by (intros [??]; by apply Ho).
    split; [by apply quot_in_s|].
    destruct (Z.eqb_spec a (- 2 ^ (w - 1))), (Z.eqb_spec b (-1)); try done. by destruct Hn.
  - split; [by apply rem_in_s|].
    destruct (Z.eqb_spec a (- 2 ^ (w - 1))), (Z.eqb_spec b (-1)); try done.
    subst b. cbn [andb]. replace (Z.rem a (-1)) with 0
      by (pose proof (Z.rem_bound_abs a (-1) ltac:(lia)); lia).
    by rewrite swrap_id by (done || by apply in_s_0).
Qed.

Lemma int_div_unsigned w (qt : bool) a b :
  0 < w → 0 < wrap w b →
  let x := if qt then wrap w a / wrap w b else wrap w a mod wrap w b in
  in_u w x ∧ int_div w false qt a b = Ok (int_value w (swrap w x)).
Proof.
  intros Hw Hb. pose proof (wrap_range w a ltac:(lia)) as Ha.
  pose proof (wrap_range w b ltac:(lia)) as Hb'.
  assert (E0 : (wrap w b =? 0) = false) by (apply Z.eqb_neq; lia).
  destruct qt; simpl; unfold div_u, rem_u, unsigned_div, unsigned_rem; rewrite E0;
    (split; [|done]); unfold in_u in *.
  - split; [apply Z.div_pos; lia|]. apply Z.div_lt_upper_bound; nia.
  - pose proof (Z.mod_pos_bound (wrap w a) (wrap w b) Hb). lia.
Qed.

(** On operands of the width, the four routines trap or give the truncated
    quotient and remainder. *)
Lemma int_div_cases w sg qt a b :
  0 < w → in_s w a → in_s w b →
  (b = 0 → int_div w sg qt a b = Err TrapDivisionByZero) ∧
  (b ≠ 0 → overflows w sg qt a b → int_div w sg qt a b = Err TrapIntegerOverflow) ∧
  (b ≠ 0 → ¬ overflows w sg qt a b →
     ∃ q r, truncated (operand w sg a) (operand w sg b) q r ∧
       let x := if qt then q else r in
       (if sg then in_s w x else in_u w x) ∧ int_div w sg qt a b = Ok (int_value w (swrap w x))).
Proof.
  intros Hw Ha Hb. split_and!.
  - intros ->. destruct sg, qt; unfold int_div, div_s, div_u, rem_s, rem_u;
      rewrite ?(wrap_id w 0) by (unfold in_u; pose proof (pow2_pos w); lia); done.
  - intros _ (-> & -> & -> & ->). unfold int_div, div_s. by rewrite Z.eqb_refl.
  - intros H0 Ho. destruct sg.
    + exists (Z.quot a b), (Z.rem a b). split; [by apply truncated_quot|].
      by apply int_div_signed.
    + pose proof (wrap_nonzero w b Hw Hb H0) as Hpos.
      exists (wrap w a / wrap w b), (wrap w a mod wrap w b).
      split; [apply truncated_div; [apply wrap_range; lia|done]|].
      by apply int_div_unsigned.
Qed.

Lemma binop_try_run pop f w a b rest d :
  w = 32 ∧ pop = stack_pop_i32 ∨ w = 64 ∧ pop = stack_pop_i64 → len rest < d →
  binop_try pop f (mkStack (int_value w b :: int_value w a :: rest) d) =
  match f a b with
  | Ok v => (Ok tt, mkStack (v :: rest) d)
  | Err e => (Err e, mkStack rest d)
  | Panic => (Panic, mkStack rest d)
  end.
Proof.
  intros [[-> ->]|[-> ->]] Hr; unfold binop_try, mbind, M_bind, lift; simpl;
    (destruct (f a b) as [v|e|]; [by apply push_room|done..]).
Qed.

Lemma division_run `{FloatEnv} i w sg qt :
  division i = Some (w, sg, qt) →
  ∃ m, exec_numeric i = Some m ∧
    (∀ a b rest d, len rest < d →
       m (mkStack (int_value w b :: int_value w a :: rest) d) =
       match int_div w sg qt a b with
       | Ok v => (Ok tt, mkStack (v :: rest) d)
       | Err e => (Err e, mkStack rest d)
       | Panic => (Panic, mkStack rest d)
       end) ∧ 0 < w.
Proof.
  intros Hd. destruct i; try discriminate Hd; injection Hd as <- <- <-;
    (eexists; split; [reflexivity|split; [|lia]]); intros a b rest d Hr;
    apply binop_try_run; auto.
Qed.

(** ** Properties *)

(** C9. Type safety of the numeric instructions: each of the 140 numeric
    instructions is handled, and on operands of the types that the
    WebAssembly specification gives it (in range, with room on the stack) it
    replaces them by one result of its result type, in range, or traps with a
    division by zero, an integer overflow or an invalid conversion; it never
    panics. *)
Theorem numeric_type_safety `{FloatEnv} i ps r :
  num_sig i = Some (ps, r) → instr_ok i → ∃ m, exec_numeric i = Some m ∧ computes m ps r.
Proof.
  intros Hs Hi. destruct (numeric_shaped i ps r Hs Hi) as (m & Hm & Hsh).
  exists m. split; [done|]. by apply shaped_computes.
Qed.

(** The counting and rotating instructions, bit by bit: [clz] and [ctz]
    delimit the highest and the lowest set bit, [popcnt] counts the set bits,
    and the rotations move bit [i] by the amount modulo the width. *)
Theorem int_bits_correct w a k :
  w = 32 ∨ w = 64 → 0 ≤ k < w →
  ((∀ i, w - leading_zeros w a ≤ i < w → Z.testbit a i = false) ∧
   (leading_zeros w a < w → Z.testbit a (w - 1 - leading_zeros w a) = true)) ∧
  ((∀ i, 0 ≤ i < trailing_zeros w a → Z.testbit a i = false) ∧
   (trailing_zeros w a < w → Z.testbit a (trailing_zeros w a) = true)) ∧
  count_ones w a = popcount (Z.to_nat w) a ∧
  ∀ i, 0 ≤ i < w →
    Z.testbit (rotate_left w a k) i = Z.testbit a ((i - k) mod w) ∧
    Z.testbit (rotate_right w a k) i = Z.testbit a ((i + k) mod w).
Proof.
  intros Hw Hk. split; [apply leading_zeros_bits; lia|]. split; [apply trailing_zeros_bits; lia|].
  split; [apply count_ones_bits; lia|]. intros i Hi.
  by rewrite rotate_left_bits, rotate_right_bits.
Qed.

(** C15. Division and remainder: run on a stack with the divisor [b] on top of
    the dividend [a], each of the eight instructions [div_s], [div_u],
    [rem_s], [rem_u] of [i32] and [i64] traps with a division by zero when
    [b] is zero; the signed division of the least integer by [-1] traps with
    an integer overflow; and in every other case the two operands are
    replaced by the quotient or the remainder of the truncated division of
    the operands, read as signed or as unsigned integers, which fits the
    width with no wrap-around. *)
Theorem int_division_correct `{FloatEnv} i w sg qt a b rest d :
  division i = Some (w, sg, qt) → in_s w a → in_s w b → len rest < d →
  ∃ m, exec_numeric i = Some m ∧
    let s := mkStack (int_value w b :: int_value w a :: rest) d in
    (b = 0 → (m s).1 = Err TrapDivisionByZero) ∧
    (b ≠ 0 → overflows w sg qt a b → (m s).1 = Err TrapIntegerOverflow) ∧
    (b ≠ 0 → ¬ overflows w sg qt a b →
       ∃ q r, truncated (operand w sg a) (operand w sg b) q r ∧
         let x := if qt then q else r in
         (if sg then in_s w x else in_u w x) ∧
         m s = (Ok tt, mkStack (int_value w (swrap w x) :: rest) d)).
Proof.
  intros Hd Ha Hb Hr. destruct (division_run i w sg qt Hd) as (m & Hm & Hrun & Hw).
  exists m. split; [done|]. cbv zeta. rewrite (Hrun a b rest d Hr).
  destruct (int_div_cases w sg qt a b Hw Ha Hb) as (H0 & Ho & Hq). split_and!.
  - intros E. by rewrite (H0 E).
  - intros E E'. by rewrite (Ho E E').
  - intros E E'. destruct (Hq E E') as (q & r & Ht & Hx & Eq). exists q, r. by rewrite Eq.
Qed.

(** ** Witnesses *)

Lemma numeric_type_safety_witness :
  ∃ m, @exec_numeric canonical_nan I32DivS = Some m ∧ computes m [TI32; TI32] TI32.
Proof. exact (@numeric_type_safety canonical_nan I32DivS [TI32; TI32] TI32 eq_refl I). Defined.

Lemma int_bits_correct_witness :
  Z.testbit (rotate_left 32 (-2147483647) 4) 3 = Z.testbit (-2147483647) 31.
Proof.
  destruct (int_bits_correct 32 (-2147483647) 4) as (_ & _ & _ & H); [by left|lia|].
  apply (H 3). lia.
Defined.

Lemma int_division_correct_witness :
  ∃ m, @exec_numeric canonical_nan I32RemS = Some m ∧
    m (mkStack [I32 2; I32 (-7)] 10) = (Ok tt, mkStack [I32 (-1)] 10).
Proof.
  destruct (@int_division_correct canonical_nan I32RemS 32 true false (-7) 2 [] 10)
    as (m & Hm & _ & _ & H); [done|unfold in_s; lia|unfold in_s; lia|done|].
  exists m. split; [done|]. destruct H as (q & r & (E & Hr & Hs) & _ & Em); [done|by intros (_ & ? & _)|].
  simpl in E, Hr, Hs. assert (r = -1) as -> by lia. exact Em.
Defined.
