(* ===== verification/Context.v ===== *)
(** The execution context: [HostFunction], [ExecutorContext] and its
    construction from a module ([runtime/src/executor.rs], lines 21-247).

    A host function is a function pointer supplied by the embedder that works
    on the context; the context stores only the pointer.  [Embedding] gives
    the types the executor keeps but never inspects (host function pointers,
    the two WASI contexts). *)

From S2P Require Import Prelude Types Memory Machine.

(** Host types that the executor stores without looking inside. *)
Class Embedding : Type := {
  HostFn : Type;
  WasiCtx : Type;
  Wasi2Ctx : Type
}.

Section context.
Context `{Embedding}.

(** [HostFunction]. *)
Record HostFunction : Type := mkHostFunction {
  hf_module : string;
  hf_name : string;
  hf_func : HostFn;
  hf_type_idx : option Z
}.

(** [ExecutorContext]. *)
Record ExecutorContext : Type := mkContext {
  ctx_module : Module_;
  ctx_memories : list LinearMemory;
  ctx_tables : list Table;
  ctx_globals : list GlobalValue;
  ctx_host_functions : list (option HostFunction);
  ctx_fuel : option Z;
  ctx_stdout : list Z;
  ctx_stderr : list Z;
  ctx_exit_code : option Z;
  ctx_wasi : option WasiCtx;
  ctx_wasi2 : option Wasi2Ctx
}.

Definition with_module x c := mkContext x (ctx_memories c) (ctx_tables c) (ctx_globals c) (ctx_host_functions c) (ctx_fuel c) (ctx_stdout c) (ctx_stderr c) (ctx_exit_code c) (ctx_wasi c) (ctx_wasi2 c).
Definition with_memories x c := mkContext (ctx_module c) x (ctx_tables c) (ctx_globals c) (ctx_host_functions c) (ctx_fuel c) (ctx_stdout c) (ctx_stderr c) (ctx_exit_code c) (ctx_wasi c) (ctx_wasi2 c).
Definition with_tables x c := mkContext (ctx_module c) (ctx_memories c) x (ctx_globals c) (ctx_host_functions c) (ctx_fuel c) (ctx_stdout c) (ctx_stderr c) (ctx_exit_code c) (ctx_wasi c) (ctx_wasi2 c).
Definition with_globals x c := mkContext (ctx_module c) (ctx_memories c) (ctx_tables c) x (ctx_host_functions c) (ctx_fuel c) (ctx_stdout c) (ctx_stderr c) (ctx_exit_code c) (ctx_wasi c) (ctx_wasi2 c).
Definition with_fuel x c := mkContext (ctx_module c) (ctx_memories c) (ctx_tables c) (ctx_globals c) (ctx_host_functions c) x (ctx_stdout c) (ctx_stderr c) (ctx_exit_code c) (ctx_wasi c) (ctx_wasi2 c).
Definition with_exit_code x c := mkContext (ctx_module c) (ctx_memories c) (ctx_tables c) (ctx_globals c) (ctx_host_functions c) (ctx_fuel c) (ctx_stdout c) (ctx_stderr c) x (ctx_wasi c) (ctx_wasi2 c).

(** ** Access to one memory or table *)

(** [ctx.memories.get_mut(i).ok_or(none)?], then [f] on it. *)
Definition on_memory {A} (i : Z) (none : TrapError) (f : M LinearMemory TrapError A)
    : M ExecutorContext TrapError A := λ c,
  match vget (ctx_memories c) i with
  | None => (Err none, c)
  | Some m => let '(o, m') := f m in (o, with_memories (vset (ctx_memories c) i m') c)
  end.

(** [ctx.tables.get_mut(i).ok_or(UndefinedElement)?], then [f] on it. *)
Definition on_table {A} (i : Z) (f : M Table TrapError A) : M ExecutorContext TrapError A := λ c,
  match vget (ctx_tables c) i with
  | None => (Err (TrapUndefinedElement i), c)
  | Some t => let '(o, t') := f t in (o, with_tables (vset (ctx_tables c) i t') c)
  end.

(** [op.map_err(|_| err)] on a memory; [err] sees the memory before the call. *)
Definition memory_op {A} (op : M LinearMemory RuntimeError A) (err : LinearMemory → TrapError)
    : M LinearMemory TrapError A := λ m,
  let '(o, m') := op m in (map_err (λ _, err m) o, m').

(** ** Construction *)

(** The derived [Debug] of [RuntimeError]. *)
Definition runtime_error_debug (e : RuntimeError) : string :=
  let shape (c msg : string) := c +:+ "(" +:+ quote +:+ msg +:+ quote +:+ ")" in
  match e with
  | CompilationError msg => shape "CompilationError" msg
  | InstantiationError msg => shape "InstantiationError" msg
  | ExecutionError msg => shape "ExecutionError" msg
  | MemoryError msg => shape "MemoryError" msg
  | WasiError msg => shape "WasiError" msg
  | InvalidBinary msg => shape "InvalidBinary" msg
  | ResourceLimit msg => shape "ResourceLimit" msg
  | PermissionDenied msg => shape "PermissionDenied" msg
  end.

(** [eval_const_expr_static]: the first constant decides; without one, zero. *)
Fixpoint eval_const_expr_static (instrs : list Instruction) (globals : list GlobalValue)
    : outcome TrapError WasmValue :=
  match instrs with
  | [] => Ok (I32 0)
  | I32Const v :: _ => Ok (I32 v)
  | I64Const v :: _ => Ok (I64 v)
  | F32Const v :: _ => Ok (F32 v)
  | F64Const v :: _ => Ok (F64 v)
  | GlobalGet idx :: _ =>
      match vget globals idx with
      | Some g => Ok (gv_value g)
      | None => Err (TrapExecutionError "global index out of range in init expr")
      end
  | RefNull :: _ => Ok (FuncRef None)
  | RefFunc idx :: _ => Ok (FuncRef (Some idx))
  | _ :: instrs => eval_const_expr_static instrs globals
  end.

(** The host binding of each imported function, by module and name. *)
Fixpoint bind_imports (l : list Import) (host_fns : list HostFunction) : list (option HostFunction) :=
  match l with
  | [] => []
  | i :: l =>
      match import_kind i with
      | ImportFunction _ =>
          List.find (λ hf, String.eqb (hf_module hf) (import_module i)
                           && String.eqb (hf_name hf) (import_name i)) host_fns
          :: bind_imports l host_fns
      | _ => bind_imports l host_fns
      end
  end.

(** The memory types, table types and global types of the imports, in order. *)
Definition imported_memories (l : list Import) : list MemoryType :=
  omap (λ i, match import_kind i with ImportMemory t => Some t | _ => None end) l.
Definition imported_tables (l : list Import) : list TableType :=
  omap (λ i, match import_kind i with ImportTable t => Some t | _ => None end) l.
Definition imported_globals (l : list Import) : list GlobalType :=
  omap (λ i, match import_kind i with ImportGlobal t => Some t | _ => None end) l.

Fixpoint new_memories (l : list MemoryType) : outcome TrapError (list LinearMemory) :=
  match l with
  | [] => Ok []
  | t :: l =>
      m ← map_err (λ e, TrapExecutionError (runtime_error_debug e)) (memory_new (mt_min t) (mt_max t));
      ms ← new_memories l;
      Ok (m :: ms)
  end.

Fixpoint new_globals (l : list Global) (acc : list GlobalValue)
    : outcome TrapError (list GlobalValue) :=
  match l with
  | [] => Ok acc
  | g :: l =>
      value ← eval_const_expr_static (init_expr g) acc;
      new_globals l (acc ++ [mkGlobalValue value (gt_mutable (global_type g))])
  end.

(** [offset.as_i32().unwrap_or(0)] *)
Definition i32_or_zero (v : WasmValue) : Z :=
  match val_as_i32 v with Some z => z | None => 0 end.

(** [init_data_segments]; an [i32] offset becomes a [usize] by sign extension. *)
Definition init_data_segment (seg : DataSegment) : M ExecutorContext TrapError unit :=
  if data_passive seg then mret tt
  else
    globals ← gets ctx_globals;
    v ← lift (eval_const_expr_static (data_offset_expr seg) globals);
    let offset := as_usize (i32_or_zero v) in
    let size := len (data_bytes seg) in
    on_memory (data_memory_idx seg) (TrapMemoryOutOfBounds offset size 0)
      (memory_op (write_bytes offset (data_bytes seg))
         (λ mem, TrapMemoryOutOfBounds offset size (memory_size mem))).
Definition init_data_segments : M ExecutorContext TrapError unit :=
  m ← gets ctx_module; iter_m init_data_segment (data m).

(** [for (i, x) in l.iter().enumerate() { f(i, x)? }], from position [i]. *)
Fixpoint iter_enum {S E A} (f : Z → A → M S E unit) (i : Z) (l : list A) : M S E unit :=
  match l with
  | [] => mret tt
  | x :: l => f i x;; iter_enum f (i + 1) l
  end.

(** [init_element_segments]. *)
Definition init_element_segment (seg : Element) : M ExecutorContext TrapError unit :=
  if elem_passive seg then mret tt
  else
    globals ← gets ctx_globals;
    v ← lift (eval_const_expr_static (elem_offset_expr seg) globals);
    let offset := as_u32 (i32_or_zero v) in
    on_table (elem_table_idx seg)
      (iter_enum (λ i func_idx,
         j ← add_or_panic 32 offset (as_u32 i); table_set j (Some func_idx)) 0 (func_indices seg)).
Definition init_element_segments : M ExecutorContext TrapError unit :=
  m ← gets ctx_module; iter_m init_element_segment (elements m).

Definition INITIAL_FUEL : Z := 10000000.

(** [ExecutorContext::new_with_host_functions]. *)
Definition new_with_host_functions (module : Module_) (host_fns : list HostFunction)
    : outcome TrapError ExecutorContext :=
  let host_functions :=
    bind_imports (imports module) host_fns ++ replicate (length (functions module)) None in
  imported ← new_memories (imported_memories (imports module));
  defined ← new_memories (memories module);
  let tables :=
    map (λ t, table_new (tt_min t) (tt_max t))
      (imported_tables (imports module) ++ tables module) in
  let imported_gs :=
    map (λ t, mkGlobalValue (default_for (gt_value_type t)) (gt_mutable t))
      (imported_globals (imports module)) in
  globals ← new_globals (globals module) imported_gs;
  let ctx :=
    mkContext module (imported ++ defined) tables globals host_functions (Some INITIAL_FUEL)
      [] [] None None None in
  match (init_data_segments;; init_element_segments) ctx with
  | (Ok _, ctx) => Ok ctx
  | (Err e, _) => Err e
  | (Panic, _) => Panic
  end.

(** [ExecutorContext::new]. *)
Definition new_context (module : Module_) : outcome TrapError ExecutorContext :=
  new_with_host_functions module [].

(** [func_type], [is_host_function]. *)
Definition func_type (c : ExecutorContext) (func_idx : Z) : option FunctionType :=
  function_type (ctx_module c) func_idx.
Definition is_host_function (c : ExecutorContext) (func_idx : Z) : bool :=
  func_idx <? import_function_count (ctx_module c).
End context.
