(* ===== verification/Executor.v ===== *)
(** The executor: [execute_instruction], the main loop and the entry points
    of [runtime/src/executor.rs] (lines 249-2341).

    The state of a running function is the context, the operand stack and the
    call stack.  [execute_instruction] is a match over all instructions; it is
    split here along the banner comments of the source into groups that touch
    the same part of the state.  [loop_step] is one iteration of the main
    loop and [run_loop] bounds the number of iterations, [None] meaning that
    the bound was reached. *)

From S2P Require Import Prelude Types Memory Machine Floats Numeric Context.

(** What a host function does to the context: the function behind a pointer. *)
Class HostCalls `{Embedding} : Type :=
  host_call : HostFn → list WasmValue → M ExecutorContext TrapError (list WasmValue).

(** [ControlFlow]. *)
Inductive ControlFlow : Type :=
| CF_Continue
| CF_Return
| CF_CallFunction (idx : Z) (args : list WasmValue)
| CF_Exit (code : Z).

(** [collect_results]: pops the results, last one first, and reverses them. *)
Fixpoint collect_go (n : nat) (results : list WasmValue) (s : ValueStack)
    : list WasmValue * ValueStack :=
  match n with
  | O => (results, s)
  | S n =>
      match stack_pop s with
      | (Ok v, s') => collect_go n (v :: results) s'
      | (_, s') => collect_go n results s'
      end
  end.
Definition collect_results (arity base : Z) (s : ValueStack) : list WasmValue * ValueStack :=
  let available := Z.max 0 (stack_len s - base) in
  collect_go (Z.to_nat (Z.min arity available)) [] s.

(** [for r in results { stack.push(r)?; }] *)
Definition push_all (vs : list WasmValue) : M ValueStack TrapError unit := iter_m stack_push vs.

(** The sequence collect, truncate, push that ends a block or a function. *)
Definition unwind (arity base : Z) : M ValueStack TrapError unit := λ s,
  let '(results, s) := collect_results arity base s in
  push_all results (truncate base s).

(** [for _ in 0..n { args.push(stack.pop()?) }; args.reverse()] *)
Definition pop_args (n : nat) : M ValueStack TrapError (list WasmValue) :=
  args ← repeat_m n stack_pop; mret (rev args).

(** ** Structured control *)

Definition opens_block (i : Instruction) : bool :=
  match i with Block _ | Loop _ | If _ => true | _ => false end.

(** The scan of [find_block_end]: [rest] is the code from position [i] on. *)
Fixpoint scan_end (rest : list Instruction) (i depth : Z) : option Z :=
  match rest with
  | [] => None
  | x :: rest =>
      if opens_block x then scan_end rest (i + 1) (depth + 1)
      else
        match x with
        | End => if depth - 1 =? 0 then Some i else scan_end rest (i + 1) (depth - 1)
        | _ => scan_end rest (i + 1) depth
        end
  end.
Definition find_block_end (instructions : list Instruction) (start_pc : Z) : Z :=
  match scan_end (drop (Z.to_nat (start_pc + 1)) instructions) (start_pc + 1) 1 with
  | Some i => i
  | None => Z.max 0 (len instructions - 1)
  end.

(** The scan of [find_else]. *)
Fixpoint scan_else (rest : list Instruction) (i depth : Z) : option Z :=
  match rest with
  | [] => None
  | x :: rest =>
      if opens_block x then scan_else rest (i + 1) (depth + 1)
      else
        match x with
        | Else => if depth =? 1 then Some i else scan_else rest (i + 1) depth
        | End => if depth - 1 =? 0 then None else scan_else rest (i + 1) (depth - 1)
        | _ => scan_else rest (i + 1) depth
        end
  end.
Definition find_else (instructions : list Instruction) (start_pc : Z) : option Z :=
  scan_else (drop (Z.to_nat (start_pc + 1)) instructions) (start_pc + 1) 1.

(** [block_arity], [block_param_arity]. *)
Definition block_arity (bt : BlockType) (module : Module_) : Z :=
  match bt with
  | BT_Empty => 0
  | BT_Value _ => 1
  | BT_TypeIndex idx =>
      match vget (types module) idx with Some t => len (results t) | None => 0 end
  end.
Definition block_param_arity (bt : BlockType) (module : Module_) : Z :=
  match bt with
  | BT_Empty => 0
  | BT_Value _ => 0
  | BT_TypeIndex idx =>
      match vget (types module) idx with Some t => len (params t) | None => 0 end
  end.

Section executor.
Context `{Embedding} `{!HostCalls} `{FloatEnv}.

(** The state threaded through the main loop; the head of [st_calls] is the
    running frame. *)
Record exec_state : Type := mkExec {
  st_ctx : ExecutorContext;
  st_stack : ValueStack;
  st_calls : list CallFrame
}.

Definition set_ctx (c : ExecutorContext) (s : exec_state) := mkExec c (st_stack s) (st_calls s).
Definition set_stack (v : ValueStack) (s : exec_state) := mkExec (st_ctx s) v (st_calls s).
Definition set_calls (l : list CallFrame) (s : exec_state) := mkExec (st_ctx s) (st_stack s) l.

Definition on_ctx {A} (m : M ExecutorContext TrapError A) : M exec_state TrapError A :=
  zoom st_ctx set_ctx m.
Definition on_stack {A} (m : M ValueStack TrapError A) : M exec_state TrapError A :=
  zoom st_stack set_stack m.

(** [call_stack.last_mut().unwrap()] *)
Definition cur_frame : M exec_state TrapError CallFrame := λ s,
  match st_calls s with
  | f :: _ => (Ok f, s)
  | [] => (Panic, s)
  end.
(** Write the frame back. *)
Definition set_frame (f : CallFrame) : M exec_state TrapError unit := λ s,
  match st_calls s with
  | _ :: l => (Ok tt, set_calls (f :: l) s)
  | [] => (Panic, s)
  end.

Definition with_pc (pc : Z) (f : CallFrame) : CallFrame :=
  mkCallFrame (cf_func_idx f) (cf_locals f) pc (cf_stack_base f) (cf_return_arity f)
    (cf_block_stack f) (cf_is_host f).
Definition with_locals (l : list WasmValue) (f : CallFrame) : CallFrame :=
  mkCallFrame (cf_func_idx f) l (cf_pc f) (cf_stack_base f) (cf_return_arity f)
    (cf_block_stack f) (cf_is_host f).
Definition with_blocks (l : list BlockFrame) (f : CallFrame) : CallFrame :=
  mkCallFrame (cf_func_idx f) (cf_locals f) (cf_pc f) (cf_stack_base f) (cf_return_arity f)
    l (cf_is_host f).

(** [get_current_instructions]. *)
Definition get_current_instructions (f : CallFrame) : M exec_state TrapError (list Instruction) :=
  ctx ← gets st_ctx;
  local_idx ← sub_or_panic (cf_func_idx f) (import_function_count (ctx_module ctx));
  body ← unwrap (vget (code (ctx_module ctx)) local_idx);
  mret (instructions body).

(** [branch]. *)
Definition branch (label_idx : Z) : M exec_state TrapError unit :=
  frame ← cur_frame;
  last ← sub_or_panic (len (cf_block_stack frame)) 1;
  block_idx ← sub_or_panic last label_idx;
  target ← unwrap (stack_index (cf_block_stack frame) block_idx);
  on_stack (unwind (bf_arity target) (bf_stack_depth target));;
  if decide (bf_kind target = BK_Loop) then set_frame (with_pc (bf_start_pc target + 1) frame)
  else
    set_frame (with_pc (bf_end_pc target + 1)
      (with_blocks (stack_truncate (cf_block_stack frame) block_idx) frame)).

(** [Block] and [Loop]; a loop's branches carry its parameters. *)
Definition enter_block (kind : BlockKind) (bt : BlockType) (else_pc : option Z) (end_pc : Z)
    : M exec_state TrapError unit :=
  frame ← cur_frame;
  ctx ← gets st_ctx;
  stack ← gets st_stack;
  let arity := block_arity bt (ctx_module ctx) in
  let param := block_param_arity bt (ctx_module ctx) in
  start_pc ← sub_or_panic (cf_pc frame) 1;
  depth ← sub_or_panic (stack_len stack) param;
  let block :=
    mkBlockFrame kind bt depth start_pc end_pc else_pc
      (if decide (kind = BK_Loop) then param else arity) param in
  set_frame (with_blocks (block :: cf_block_stack frame) frame).

Definition exec_block (kind : BlockKind) (bt : BlockType) : M exec_state TrapError unit :=
  frame ← cur_frame;
  instructions ← get_current_instructions frame;
  pc ← sub_or_panic (cf_pc frame) 1;
  enter_block kind bt None (find_block_end instructions pc).

(** [If]. *)
Definition exec_if (bt : BlockType) : M exec_state TrapError unit :=
  cond ← on_stack stack_pop_i32;
  frame ← cur_frame;
  instructions ← get_current_instructions frame;
  pc ← sub_or_panic (cf_pc frame) 1;
  let end_pc := find_block_end instructions pc in
  let else_pc := find_else instructions pc in
  enter_block BK_If bt else_pc end_pc;;
  frame' ← cur_frame;
  if cond =? 0 then
    match else_pc with
    | Some else_pc => set_frame (with_pc (else_pc + 1) frame')
    | None => set_frame (with_pc (end_pc + 1) (with_blocks (cf_block_stack frame) frame'))
    end
  else mret tt.

(** [Else]: the end of the true branch of an [if]. *)
Definition exec_else : M exec_state TrapError unit :=
  frame ← cur_frame;
  match cf_block_stack frame with
  | block :: blocks =>
      on_stack (unwind (bf_arity block) (bf_stack_depth block));;
      set_frame (with_pc (bf_end_pc block + 1) (with_blocks blocks frame))
  | [] => mret tt
  end.

(** [End]. *)
Definition exec_end : M exec_state TrapError unit :=
  frame ← cur_frame;
  match cf_block_stack frame with
  | block :: blocks =>
      if decide (bf_kind block = BK_Function) then
        instructions ← get_current_instructions frame;
        set_frame (with_pc (len instructions) frame)
      else
        set_frame (with_blocks blocks frame);;
        on_stack (unwind (bf_arity block) (bf_stack_depth block))
  | [] => mret tt
  end.

(** [Call]. *)
Definition exec_call (func_idx : Z) : M exec_state TrapError ControlFlow :=
  ctx ← gets st_ctx;
  ft ← ok_or (func_type ctx func_idx) (TrapFunctionNotFound func_idx);
  args ← on_stack (pop_args (length (params ft)));
  mret (CF_CallFunction func_idx args).

(** [CallIndirect]. *)
Definition exec_call_indirect (type_idx table_idx : Z) : M exec_state TrapError ControlFlow :=
  e ← on_stack stack_pop_i32;
  let elem_idx := as_u32 e in
  ctx ← gets st_ctx;
  table ← ok_or (vget (ctx_tables ctx) table_idx) (TrapUndefinedElement table_idx);
  entry ← lift (table_get table elem_idx);
  func_idx ← ok_or entry (TrapUninitializedElement elem_idx);
  expected_type ← ok_or (vget (types (ctx_module ctx)) type_idx) (TrapExecutionError "type index OOB");
  actual_type ← ok_or (func_type ctx func_idx) (TrapFunctionNotFound func_idx);
  if negb (bool_decide (expected_type = actual_type)) then
    throw (TrapIndirectCallTypeMismatch type_idx 0)
  else
    args ← on_stack (pop_args (length (params actual_type)));
    mret (CF_CallFunction func_idx args).

(** [Br], [BrIf], [BrTable]. *)
Definition exec_br_if (label_idx : Z) : M exec_state TrapError unit :=
  cond ← on_stack stack_pop_i32;
  if negb (cond =? 0) then branch label_idx else mret tt.
Definition exec_br_table (targets : list Z) (default : Z) : M exec_state TrapError unit :=
  i ← on_stack stack_pop_i32;
  let idx := as_u32 i in
  label ← (if idx <? len targets then unwrap (vget targets idx) else mret default);
  branch label.

Definition continue (m : M exec_state TrapError unit) : M exec_state TrapError ControlFlow :=
  m;; mret CF_Continue.

(** Control flow. *)
Definition exec_control (i : Instruction) : option (M exec_state TrapError ControlFlow) :=
  match i with
  | Unreachable => Some (throw TrapUnreachable)
  | Nop => Some (mret CF_Continue)
  | Block bt => Some (continue (exec_block BK_Block bt))
  | Loop bt => Some (continue (exec_block BK_Loop bt))
  | If bt => Some (continue (exec_if bt))
  | Else => Some (continue exec_else)
  | End => Some (continue exec_end)
  | Br label_idx => Some (continue (branch label_idx))
  | BrIf label_idx => Some (continue (exec_br_if label_idx))
  | BrTable targets default => Some (continue (exec_br_table targets default))
  | Return => Some (mret CF_Return)
  | Call func_idx => Some (exec_call func_idx)
  | CallIndirect type_idx table_idx => Some (exec_call_indirect type_idx table_idx)
  | _ => None
  end.

(** ** References, parametric and variable instructions *)

Definition exec_reference (i : Instruction) : option (M ValueStack TrapError unit) :=
  match i with
  | RefNull => Some (stack_push (FuncRef None))
  | RefIsNull =>
      Some (v ← stack_pop;
            stack_push (I32 (match v with FuncRef None | ExternRef None => 1 | _ => 0 end)))
  | RefFunc idx => Some (stack_push (FuncRef (Some idx)))
  | Drop => Some (stack_pop;; mret tt)
  | Select =>
      Some (cond ← stack_pop_i32;
            val2 ← stack_pop;
            val1 ← stack_pop;
            stack_push (if negb (cond =? 0) then val1 else val2))
  | _ => None
  end.

(** [if let Some(local) = frame.locals.get_mut(idx) { *local = val; }] *)
Definition set_local (idx : Z) (val : WasmValue) : M exec_state TrapError unit :=
  frame ← cur_frame;
  match vget (cf_locals frame) idx with
  | Some _ => set_frame (with_locals (vset (cf_locals frame) idx val) frame)
  | None => mret tt
  end.

(** [if let Some(g) = ctx.globals.get_mut(idx) { g.value = val; }] *)
Definition set_global (idx : Z) (val : WasmValue) : M exec_state TrapError unit :=
  ctx ← gets st_ctx;
  match vget (ctx_globals ctx) idx with
  | Some g =>
      modify (set_ctx (with_globals
        (vset (ctx_globals ctx) idx (mkGlobalValue val (gv_mutable g))) ctx))
  | None => mret tt
  end.

Definition exec_variable (i : Instruction) : option (M exec_state TrapError unit) :=
  match i with
  | LocalGet idx =>
      Some (frame ← cur_frame;
            val ← ok_or (vget (cf_locals frame) idx) (TrapExecutionError "local index OOB");
            on_stack (stack_push val))
  | LocalSet idx => Some (val ← on_stack stack_pop; set_local idx val)
  | LocalTee idx => Some (val ← on_stack stack_peek; set_local idx val)
  | GlobalGet idx =>
      Some (ctx ← gets st_ctx;
            g ← ok_or (vget (ctx_globals ctx) idx) (TrapExecutionError "global index OOB");
            on_stack (stack_push (gv_value g)))
  | GlobalSet idx => Some (val ← on_stack stack_pop; set_global idx val)
  | _ => None
  end.

(** ** Tables *)

(** [match val { FuncRef(v) => v, _ => None }] *)
Definition as_func_ref (v : WasmValue) : option Z :=
  match v with FuncRef r => r | _ => None end.

(** [for i in 0..n { f(i)? }], and in reverse. *)
Fixpoint for_range {S E} (n : nat) (i : Z) (f : Z → M S E unit) : M S E unit :=
  match n with
  | O => mret tt
  | S n => f i;; for_range n (i + 1) f
  end.
Fixpoint for_range_rev {S E} (n : nat) (f : Z → M S E unit) : M S E unit :=
  match n with
  | O => mret tt
  | S n => f (Z.of_nat n);; for_range_rev n f
  end.

(** [table.get(i)?] and [table.set(i, v)?] with the index computed in [u32]. *)
Definition table_get_m (i : Z) : M Table TrapError (option Z) := t ← get; lift (table_get t i).
Definition copy_entry (s d i : Z) : M Table TrapError unit :=
  si ← add_or_panic 32 s i;
  val ← table_get_m si;
  di ← add_or_panic 32 d i;
  table_set di val.

(** [TableInit]. *)
Definition exec_table_init (elem_idx table_idx : Z) : M exec_state TrapError unit :=
  n ← on_stack stack_pop_i32;
  s ← on_stack stack_pop_i32;
  d ← on_stack stack_pop_i32;
  let n := as_u32 n in
  let s := as_u32 s in
  let d := as_u32 d in
  ctx ← gets st_ctx;
  elem ← ok_or (vget (elements (ctx_module ctx)) elem_idx)
           (TrapExecutionError "element segment index OOB");
  if match checked_add 32 s n with Some e => len (func_indices elem) <? e | None => true end then
    throw (TrapExecutionError "table.init: source range out of bounds")
  else
    on_ctx (on_table table_idx (for_range (Z.to_nat n) 0 (λ i,
      si ← add_or_panic 32 s i;
      func_idx ← unwrap (vget (func_indices elem) si);
      di ← add_or_panic 32 d i;
      table_set di (Some func_idx)))).

(** [ElemDrop]: the segment loses its entries. *)
Definition exec_elem_drop (elem_idx : Z) : M exec_state TrapError unit :=
  ctx ← gets st_ctx;
  let m := ctx_module ctx in
  match vget (elements m) elem_idx with
  | Some e =>
      let e' := mkElement (elem_table_idx e) (elem_offset_expr e) [] false in
      let m' := mkModule (types m) (imports m) (functions m) (tables m) (memories m) (globals m)
                  (exports m) (start m) (vset (elements m) elem_idx e') (code m) (data m)
                  (module_name m) (data_count m) in
      modify (set_ctx (with_module m' ctx))
  | None => mret tt
  end.

(** [src.get(s + i)?] for each [i], then [dst.set(d + i, val)?] for each. *)
Fixpoint read_entries (t : Table) (s i : Z) (n : nat) : M exec_state TrapError (list (option Z)) :=
  match n with
  | O => mret []
  | S n =>
      si ← add_or_panic 32 s i;
      v ← lift (table_get t si);
      vs ← read_entries t s (i + 1) n;
      mret (v :: vs)
  end.

(** [TableCopy]. *)
Definition exec_table_copy (dst_table src_table : Z) : M exec_state TrapError unit :=
  n ← on_stack stack_pop_i32;
  s ← on_stack stack_pop_i32;
  d ← on_stack stack_pop_i32;
  let n := as_u32 n in
  let s := as_u32 s in
  let d := as_u32 d in
  if dst_table =? src_table then
    on_ctx (on_table dst_table
      (if d <=? s then for_range (Z.to_nat n) 0 (copy_entry s d)
       else for_range_rev (Z.to_nat n) (copy_entry s d)))
  else
    ctx ← gets st_ctx;
    src ← ok_or (vget (ctx_tables ctx) src_table) (TrapUndefinedElement src_table);
    entries ← read_entries src s 0 (Z.to_nat n);
    on_ctx (on_table dst_table (iter_enum (λ i val,
      di ← add_or_panic 32 d (as_u32 i); table_set di val) 0 entries)).

(** [TableFill]. *)
Definition exec_table_fill (table_idx : Z) : M exec_state TrapError unit :=
  n ← on_stack stack_pop_i32;
  val ← on_stack stack_pop;
  d ← on_stack stack_pop_i32;
  let n := as_u32 n in
  let d := as_u32 d in
  on_ctx (on_table table_idx (for_range (Z.to_nat n) 0 (λ i,
    di ← add_or_panic 32 d i; table_set di (as_func_ref val)))).

(** [TableGrow]: a failed growth pushes -1. *)
Definition exec_table_grow (table_idx : Z) : M exec_state TrapError unit :=
  n ← on_stack stack_pop_i32;
  init ← on_stack stack_pop;
  r ← on_ctx (on_table table_idx (λ t,
    match table_grow (as_u32 n) (as_func_ref init) t with
    | (Ok old, t') => (Ok (as_i32 old), t')
    | (Err _, t') => (Ok (-1), t')
    | (Panic, t') => (Panic, t')
    end));
  on_stack (stack_push (I32 r)).

Definition exec_table (i : Instruction) : option (M exec_state TrapError unit) :=
  match i with
  | TableGet table_idx =>
      Some (i ← on_stack stack_pop_i32;
            val ← on_ctx (on_table table_idx (table_get_m (as_u32 i)));
            on_stack (stack_push (FuncRef val)))
  | TableSet table_idx =>
      Some (val ← on_stack stack_pop;
            i ← on_stack stack_pop_i32;
            on_ctx (on_table table_idx (table_set (as_u32 i) (as_func_ref val))))
  | TableSize table_idx =>
      Some (n ← on_ctx (on_table table_idx (gets table_size));
            on_stack (stack_push (I32 (as_i32 n))))
  | TableGrow table_idx => Some (exec_table_grow table_idx)
  | TableInit elem_idx table_idx => Some (exec_table_init elem_idx table_idx)
  | ElemDrop elem_idx => Some (exec_elem_drop elem_idx)
  | TableCopy dst_table src_table => Some (exec_table_copy dst_table src_table)
  | TableFill table_idx => Some (exec_table_fill table_idx)
  | _ => None
  end.

(** ** Memory *)

(** [(base as u64 + offset as u64) as usize] *)
Definition address (base offset : Z) : Z := as_u32 base + offset.

(** A load: [size] bytes at the address, read by [read], pushed as [c] says. *)
Definition load_op (size : Z) (read : LinearMemory → Z → outcome RuntimeError Z)
    (c : Z → WasmValue) (offset : Z) : M exec_state TrapError unit :=
  base ← on_stack stack_pop_i32;
  let addr := address base offset in
  v ← on_ctx (on_memory 0 (TrapMemoryOutOfBounds addr size 0)
        (memory_op (λ m, (read m addr, m))
           (λ mem, TrapMemoryOutOfBounds addr size (memory_size mem))));
  on_stack (stack_push (c v)).

Definition exec_load (i : Instruction) : option (M exec_state TrapError unit) :=
  match i with
  | I32Load _ offset => Some (load_op 4 read_u32 (λ v, I32 (as_i32 v)) offset)
  | I64Load _ offset => Some (load_op 8 read_u64 (λ v, I64 (as_i64 v)) offset)
  | F32Load _ offset => Some (load_op 4 read_u32 (λ v, F32 v) offset)
  | F64Load _ offset => Some (load_op 8 read_u64 (λ v, F64 v) offset)
  | I32Load8S _ offset => Some (load_op 1 read_u8 (λ v, I32 (as_i8 v)) offset)
  | I32Load8U _ offset => Some (load_op 1 read_u8 (λ v, I32 v) offset)
  | I32Load16S _ offset => Some (load_op 2 read_u16 (λ v, I32 (as_i16 v)) offset)
  | I32Load16U _ offset => Some (load_op 2 read_u16 (λ v, I32 v) offset)
  | I64Load8S _ offset => Some (load_op 1 read_u8 (λ v, I64 (as_i8 v)) offset)
  | I64Load8U _ offset => Some (load_op 1 read_u8 (λ v, I64 v) offset)
  | I64Load16S _ offset => Some (load_op 2 read_u16 (λ v, I64 (as_i16 v)) offset)
  | I64Load16U _ offset => Some (load_op 2 read_u16 (λ v, I64 v) offset)
  | I64Load32S _ offset => Some (load_op 4 read_u32 (λ v, I64 (as_i32 v)) offset)
  | I64Load32U _ offset => Some (load_op 4 read_u32 (λ v, I64 v) offset)
  | _ => None
  end.

(** A store: the value, then the address, are popped. *)
Definition store_op (pop : M ValueStack TrapError Z) (size : Z)
    (write : Z → Z → M LinearMemory RuntimeError unit) (c : Z → Z) (offset : Z)
    : M exec_state TrapError unit :=
  val ← on_stack pop;
  base ← on_stack stack_pop_i32;
  let addr := address base offset in
  on_ctx (on_memory 0 (TrapMemoryOutOfBounds addr size 0)
    (memory_op (write addr (c val))
       (λ mem, TrapMemoryOutOfBounds addr size (memory_size mem)))).

Definition exec_store (i : Instruction) : option (M exec_state TrapError unit) :=
  match i with
  | I32Store _ offset => Some (store_op stack_pop_i32 4 write_u32 (λ v, as_u32 v) offset)
  | I64Store _ offset => Some (store_op stack_pop_i64 8 write_u64 (λ v, as_u64 v) offset)
  | F32Store _ offset => Some (store_op stack_pop_f32 4 write_u32 (λ v, v) offset)
  | F64Store _ offset => Some (store_op stack_pop_f64 8 write_u64 (λ v, v) offset)
  | I32Store8 _ offset => Some (store_op stack_pop_i32 1 write_u8 (λ v, as_u8 v) offset)
  | I32Store16 _ offset => Some (store_op stack_pop_i32 2 write_u16 (λ v, as_u16 v) offset)
  | I64Store8 _ offset => Some (store_op stack_pop_i64 1 write_u8 (λ v, as_u8 v) offset)
  | I64Store16 _ offset => Some (store_op stack_pop_i64 2 write_u16 (λ v, as_u16 v) offset)
  | I64Store32 _ offset => Some (store_op stack_pop_i64 4 write_u32 (λ v, as_u32 v) offset)
  | _ => None
  end.

(** [MemoryGrow]: a failed growth, or no memory, pushes -1. *)
Definition exec_memory_grow : M exec_state TrapError unit :=
  d ← on_stack stack_pop_i32;
  let delta := as_u32 d in
  ctx ← gets st_ctx;
  match vget (ctx_memories ctx) 0 with
  | Some mem =>
      let '(o, mem') := memory_grow delta mem in
      modify (set_ctx (with_memories (vset (ctx_memories ctx) 0 mem') ctx));;
      on_stack (stack_push (I32 (match o with Ok old_pages => as_i32 old_pages | _ => -1 end)))
  | None => on_stack (stack_push (I32 (-1)))
  end.

(** [MemoryInit]. *)
Definition exec_memory_init (data_idx : Z) : M exec_state TrapError unit :=
  n ← on_stack stack_pop_i32;
  s ← on_stack stack_pop_i32;
  d ← on_stack stack_pop_i32;
  let n := as_u32 n in
  let s := as_u32 s in
  let d := as_u32 d in
  ctx ← gets st_ctx;
  seg ← ok_or (vget (data (ctx_module ctx)) data_idx) (TrapExecutionError "data segment index OOB");
  let oob := TrapMemoryOutOfBounds s n (len (data_bytes seg)) in
  src_end ← ok_or (checked_add 32 s n) oob;
  if len (data_bytes seg) <? src_end then throw oob
  else
    let bytes := slice (data_bytes seg) s src_end in
    on_ctx (on_memory 0 (TrapMemoryOutOfBounds d n 0)
      (memory_op (write_bytes d bytes) (λ mem, TrapMemoryOutOfBounds d n (memory_size mem)))).

(** [DataDrop]: the segment loses its bytes. *)
Definition exec_data_drop (data_idx : Z) : M exec_state TrapError unit :=
  ctx ← gets st_ctx;
  let m := ctx_module ctx in
  match vget (data m) data_idx with
  | Some seg =>
      let seg' := mkDataSegment (data_memory_idx seg) (data_offset_expr seg) [] false in
      let m' := mkModule (types m) (imports m) (functions m) (tables m) (memories m) (globals m)
                  (exports m) (start m) (elements m) (code m) (vset (data m) data_idx seg')
                  (module_name m) (data_count m) in
      modify (set_ctx (with_module m' ctx))
  | None => mret tt
  end.

(** [x.checked_add(n).map_or(true, |end| end > size)] *)
Definition range_exceeds (x n size : Z) : bool :=
  match checked_add 64 x n with Some e => size <? e | None => true end.

(** [MemoryCopy] and [MemoryFill]; [pop_i32()? as usize] sign-extends. *)
Definition exec_memory_copy : M exec_state TrapError unit :=
  n ← on_stack stack_pop_i32;
  s ← on_stack stack_pop_i32;
  d ← on_stack stack_pop_i32;
  let n := as_usize n in
  let s := as_usize s in
  let d := as_usize d in
  on_ctx (on_memory 0 (TrapMemoryOutOfBounds d n 0)
    (mem ← get;
     let mem_size := memory_size mem in
     if range_exceeds s n mem_size || range_exceeds d n mem_size then
       throw (TrapMemoryOutOfBounds (Z.max d s) n mem_size)
     else memory_op (copy_within s d n) (λ _, TrapMemoryOutOfBounds d n mem_size))).
Definition exec_memory_fill : M exec_state TrapError unit :=
  n ← on_stack stack_pop_i32;
  val ← on_stack stack_pop_i32;
  d ← on_stack stack_pop_i32;
  let n := as_usize n in
  let d := as_usize d in
  on_ctx (on_memory 0 (TrapMemoryOutOfBounds d n 0)
    (mem ← get;
     let mem_size := memory_size mem in
     if range_exceeds d n mem_size then throw (TrapMemoryOutOfBounds d n mem_size)
     else memory_op (memory_fill d n (as_u8 val)) (λ _, TrapMemoryOutOfBounds d n mem_size))).

Definition exec_memory (i : Instruction) : option (M exec_state TrapError unit) :=
  match i with
  | MemorySize =>
      Some (ctx ← gets st_ctx;
            let pages := match vget (ctx_memories ctx) 0 with
                         | Some m => memory_pages m
                         | None => 0
                         end in
            on_stack (stack_push (I32 (as_i32 pages))))
  | MemoryGrow => Some exec_memory_grow
  | MemoryInit data_idx => Some (exec_memory_init data_idx)
  | DataDrop data_idx => Some (exec_data_drop data_idx)
  | MemoryCopy => Some exec_memory_copy
  | MemoryFill => Some exec_memory_fill
  | _ => None
  end.

(** ** [execute_instruction] *)

(** The instructions that only continue with the next one. *)
Definition exec_straight (i : Instruction) : option (M exec_state TrapError unit) :=
  first_some [option_map on_stack (exec_reference i); exec_variable i; exec_table i; exec_load i;
              exec_store i; exec_memory i; option_map on_stack (exec_numeric i)].

Definition execute_instruction (i : Instruction) : M exec_state TrapError ControlFlow :=
  cur_frame;;
  match exec_control i with
  | Some m => m
  | None => match exec_straight i with Some m => continue m | None => mret CF_Continue end
  end.

(** ** The main loop *)

(** [call_host_function]. *)
Definition call_host_function (func_idx : Z) (args : list WasmValue)
    : M ExecutorContext TrapError (list WasmValue) :=
  ctx ← get;
  match vget (ctx_host_functions ctx) func_idx with
  | Some (Some hf) => host_call (hf_func hf) args
  | _ => throw (TrapFunctionNotFound func_idx)
  end.

(** The locals of a new frame: the arguments, padded with defaults for missing
    ones, then the declared locals. *)
Fixpoint param_locals (params : list ValueType) (args : list WasmValue) : list WasmValue :=
  match params, args with
  | [], _ => []
  | t :: params, [] => default_for t :: param_locals params []
  | _ :: params, a :: args => a :: param_locals params args
  end.
Definition declared_locals (l : list (Z * ValueType)) : list WasmValue :=
  concat (map (λ d, replicate (Z.to_nat d.1) (default_for d.2)) l).

(** The frame of a call, with its function block. *)
Definition new_frame (func_idx : Z) (ft : FunctionType) (body : FunctionBody)
    (args : list WasmValue) (base : Z) : CallFrame :=
  let return_arity := len (results ft) in
  let block_type :=
    match results ft with
    | [t] => BT_Value t
    | _ => BT_Empty
    end in
  mkCallFrame func_idx (param_locals (params ft) args ++ declared_locals (body_locals body)) 0 base
    return_arity
    [mkBlockFrame BK_Function block_type base 0 (Z.max 0 (len (instructions body) - 1)) None
       return_arity 0] false.

(** [if let Some(fuel) = ctx.fuel { .. }] *)
Definition consume_fuel : M ExecutorContext TrapError unit := λ c,
  match ctx_fuel c with
  | Some fuel =>
      if fuel =? 0 then (Err TrapFuelExhausted, c) else (Ok tt, with_fuel (Some (fuel - 1)) c)
  | None => (Ok tt, c)
  end.

(** Whether the main loop goes on: [call_stack.is_empty()] breaks. *)
Definition more_frames : M exec_state TrapError bool :=
  gets (λ s, match st_calls s with [] => false | _ => true end).

(** The end of a function body. *)
Definition function_end (frame : CallFrame) : M exec_state TrapError bool :=
  modify (λ s, set_calls (tail (st_calls s)) s);;
  on_stack (unwind (cf_return_arity frame) (cf_stack_base frame));;
  more_frames.

(** [ControlFlow::Return]. *)
Definition do_return : M exec_state TrapError bool :=
  frame ← cur_frame;
  let arity := cf_return_arity frame in
  let base := cf_stack_base frame in
  stack ← gets st_stack;
  let '(results, stack) := collect_results arity base stack in
  calls ← gets st_calls;
  let callers := tail calls in
  modify (set_calls callers);;
  let stack :=
    match callers with
    | parent :: _ =>
        truncate (cf_stack_base parent + Z.max 0 (stack_len stack - base)) stack
    | [] => stack
    end in
  modify (set_stack (truncate base stack));;
  on_stack (push_all results);;
  more_frames.

(** [ControlFlow::CallFunction]. *)
Definition do_call (target_idx : Z) (target_args : list WasmValue) : M exec_state TrapError bool :=
  calls ← gets st_calls;
  if MAX_CALL_STACK_DEPTH <=? len calls then throw TrapCallStackOverflow
  else
    ctx ← gets st_ctx;
    if is_host_function ctx target_idx then
      results ← on_ctx (call_host_function target_idx target_args);
      on_stack (push_all results);;
      mret true
    else
      ft ← ok_or (func_type ctx target_idx) (TrapFunctionNotFound target_idx);
      lidx ← sub_or_panic target_idx (import_function_count (ctx_module ctx));
      body ← ok_or (vget (code (ctx_module ctx)) lidx) (TrapFunctionNotFound target_idx);
      stack ← gets st_stack;
      modify (set_calls (new_frame target_idx ft body target_args (stack_len stack) :: calls));;
      mret true.

(** One iteration; [false] leaves the loop. *)
Definition loop_step : M exec_state TrapError bool :=
  calls ← gets st_calls;
  match calls with
  | [] => mret false
  | frame :: _ =>
      instructions ← get_current_instructions frame;
      if len instructions <=? cf_pc frame then function_end frame
      else
        instr ← unwrap (vget instructions (cf_pc frame));
        set_frame (with_pc (cf_pc frame + 1) frame);;
        on_ctx consume_fuel;;
        flow ← execute_instruction instr;
        match flow with
        | CF_Continue => mret true
        | CF_Return => do_return
        | CF_CallFunction target_idx target_args => do_call target_idx target_args
        | CF_Exit code =>
            on_ctx (modify (with_exit_code (Some code)));;
            throw (TrapProcessExit code)
        end
  end.

(** The loop, for at most [n] iterations. *)
Fixpoint run_loop (n : nat) (s : exec_state) : option (outcome TrapError unit * exec_state) :=
  match n with
  | O => None
  | S n =>
      match loop_step s with
      | (Ok true, s') => run_loop n s'
      | (Ok false, s') => Some (Ok tt, s')
      | (Err e, s') => Some (Err e, s')
      | (Panic, s') => Some (Panic, s')
      end
  end.

(** The state [execute_function] enters the loop with. *)
Definition initial_state (ctx : ExecutorContext) (func_idx : Z) (ft : FunctionType)
    (body : FunctionBody) (args : list WasmValue) : exec_state :=
  mkExec ctx stack_new [new_frame func_idx ft body args 0].

(** [execute_function]; [None] when [n] iterations are not enough. *)
Definition execute_function (n : nat) (ctx : ExecutorContext) (func_idx : Z) (args : list WasmValue)
    : option (outcome TrapError (list WasmValue) * ExecutorContext) :=
  if is_host_function ctx func_idx then Some (call_host_function func_idx args ctx)
  else
    match func_type ctx func_idx with
    | None => Some (Err (TrapFunctionNotFound func_idx), ctx)
    | Some ft =>
        let local_idx := func_idx - import_function_count (ctx_module ctx) in
        match vget (code (ctx_module ctx)) local_idx with
        | None => Some (Err (TrapFunctionNotFound func_idx), ctx)
        | Some body =>
            match run_loop n (initial_state ctx func_idx ft body args) with
            | None => None
            | Some (Ok _, s) =>
                let k := Z.min (len (results ft)) (stack_len (st_stack s)) in
                Some (Ok (collect_go (Z.to_nat k) [] (st_stack s)).1, st_ctx s)
            | Some (Err e, s) => Some (Err e, st_ctx s)
            | Some (Panic, s) => Some (Panic, st_ctx s)
            end
        end
    end.

(** [execute_export]. *)
Definition execute_export (n : nat) (ctx : ExecutorContext) (export_name : string)
    (args : list WasmValue) : option (outcome TrapError (list WasmValue) * ExecutorContext) :=
  match find_export (ctx_module ctx) export_name with
  | None => Some (Err (TrapExportNotFound export_name), ctx)
  | Some export =>
      if negb (bool_decide (export_kind export = ExportFunction)) then
        Some (Err (TrapExportNotFound export_name), ctx)
      else execute_function n ctx (export_index export) args
  end.
End executor.
