(* ===== verification/Invariant.v ===== *)
(** The invariant of the executor.

    [ctx_ok] says that every memory, table, global and the module of a context
    are well formed; [frame_ok] that a frame runs an existing function with
    locals in range.  Every instruction preserves them, together with the
    fuel, the code, the imports and the number of frames, whatever its
    outcome.  The lemmas are proved for an arbitrary set [X] of failures that
    contains all traps: taking [X] without the panic shows that an
    instruction never panics. *)

From S2P Require Import Prelude Types Memory Machine Floats Numeric Context Executor.

Section invariant.
Context `{Embedding} `{!HostCalls} `{FloatEnv}.

(** ** Well-formed contexts *)

Record ctx_ok (c : ExecutorContext) : Prop := {
  ok_ctx_module : module_ok (ctx_module c);
  ok_ctx_memories : Forall memory_wf (ctx_memories c);
  ok_ctx_tables : Forall table_ok (ctx_tables c);
  ok_ctx_globals : Forall (λ g, value_ok (gv_value g)) (ctx_globals c);
  ok_ctx_fuel : ∀ n, ctx_fuel c = Some n → 0 ≤ n
}.

(** What no instruction changes: fuel, imports, code and the bound host functions. *)
Record ctx_fixed : Type := mkFixed {
  fx_fuel : option Z;
  fx_imports : list Import;
  fx_code : list FunctionBody;
  fx_hosts : list (option HostFunction)
}.
Definition fixed_of (c : ExecutorContext) : ctx_fixed :=
  mkFixed (ctx_fuel c) (imports (ctx_module c)) (code (ctx_module c)) (ctx_host_functions c).

Definition ctx_inv (fx : ctx_fixed) (c : ExecutorContext) : Prop := ctx_ok c ∧ fixed_of c = fx.

(** ** Well-formed frames and states *)

Definition block_ok (b : BlockFrame) : Prop :=
  0 ≤ bf_stack_depth b ∧ 0 ≤ bf_start_pc b ∧ 0 ≤ bf_end_pc b ∧ 0 ≤ bf_arity b.

(** The body a frame runs. *)
Definition frame_body (fx : ctx_fixed) (fr : CallFrame) : option FunctionBody :=
  vget (fx_code fx) (cf_func_idx fr - count_if is_function_import (fx_imports fx)).

Record frame_ok (fx : ctx_fixed) (fr : CallFrame) : Prop := {
  frame_local : count_if is_function_import (fx_imports fx) ≤ cf_func_idx fr;
  frame_code : ∃ b, frame_body fx fr = Some b ∧ (0 < cf_pc fr → 0 < len (instructions b));
  frame_locals : Forall value_ok (cf_locals fr);
  frame_pc : 0 ≤ cf_pc fr;
  frame_base : 0 ≤ cf_stack_base fr;
  frame_arity : 0 ≤ cf_return_arity fr;
  frame_blocks : Forall block_ok (cf_block_stack fr)
}.

(** [d] frames, of which the running one has its program counter at [p] or
    beyond. *)
Record state_inv (fx : ctx_fixed) (d p : Z) (s : exec_state) : Prop := {
  inv_ctx : ctx_inv fx (st_ctx s);
  inv_stack : stack_ok (st_stack s);
  inv_frames : Forall (frame_ok fx) (st_calls s);
  inv_depth : len (st_calls s) = d;
  inv_pc : ∀ fr l, st_calls s = fr :: l → p ≤ cf_pc fr
}.

Section triples.
Context (X : option TrapError → Prop) (HX : ∀ e, X (Some e)).
Context (fx : ctx_fixed) (d p : Z).

(** ** Lifting from the parts *)

Lemma triple_on_stack {A} (m : M ValueStack TrapError A) Q :
  triple stack_ok X m Q → triple (state_inv fx d p) X (on_stack m) Q.
Proof.
  apply triple_zoom; [by intros s []|]. intros s t [] Ht. by split.
Qed.

Lemma triple_on_ctx {A} (m : M ExecutorContext TrapError A) Q :
  triple (ctx_inv fx) X m Q → triple (state_inv fx d p) X (on_ctx m) Q.
Proof.
  apply triple_zoom; [by intros s []|]. intros s c [] Hc. by split.
Qed.

Lemma triple_on_memory {A} i none (m : M LinearMemory TrapError A) Q :
  triple memory_wf X m Q → triple (ctx_inv fx) X (on_memory i none m) Q.
Proof.
  intros Hm c [Hc Hf]. unfold wp, on_memory. destruct (vget (ctx_memories c) i) as [mem|] eqn:Em.
  - apply vget_Some in Em as [Hi Em].
    assert (Hwf : memory_wf mem) by (destruct Hc; by eapply Forall_lookup_1).
    specialize (Hm mem Hwf). unfold wp in Hm.
    assert (Hu : ∀ mem', memory_wf mem' → ctx_inv fx (with_memories (vset (ctx_memories c) i mem') c)).
    { intros mem' Hmem'. split; [|done]. destruct Hc. split; try done. by apply Forall_insert. }
    destruct (m mem) as [[a|e|] mem']; destruct Hm; split; auto.
  - split; [by split|auto].
Qed.

Lemma triple_on_table {A} i (m : M Table TrapError A) Q :
  triple table_ok X m Q → triple (ctx_inv fx) X (on_table i m) Q.
Proof.
  intros Hm c [Hc Hf]. unfold wp, on_table. destruct (vget (ctx_tables c) i) as [t|] eqn:Et.
  - apply vget_Some in Et as [Hi Et].
    assert (Hwf : table_ok t) by (destruct Hc; by eapply Forall_lookup_1).
    specialize (Hm t Hwf). unfold wp in Hm.
    assert (Hu : ∀ t', table_ok t' → ctx_inv fx (with_tables (vset (ctx_tables c) i t') c)).
    { intros t' Ht'. split; [|done]. destruct Hc. split; try done. by apply Forall_insert. }
    destruct (m t) as [[a|e|] t']; destruct Hm; split; auto.
  - split; [by split|auto].
Qed.

(** A memory operation that fails without a panic. *)
Lemma triple_memory_op {A} (op : M LinearMemory RuntimeError A) err (Q : A → Prop) :
  triple memory_wf (λ e, is_Some e) op Q → triple memory_wf X (memory_op op err) Q.
Proof.
  intros Hop m Hm. specialize (Hop m Hm). unfold wp, memory_op in *.
  destruct (op m) as [[a|e|] m']; simpl; destruct Hop as [? Ho]; split; auto. by destruct Ho.
Qed.

(** ** Frames *)

Hypothesis (Hd : 0 < d).

Definition current (fr : CallFrame) : Prop := frame_ok fx fr ∧ p ≤ cf_pc fr.

Lemma triple_cur_frame : triple (state_inv fx d p) X cur_frame current.
Proof.
  intros s [? ? Hfr Hlen Hpc]. unfold wp, cur_frame. destruct (st_calls s) as [|fr l] eqn:Ec.
  - unfold len in Hlen. simpl in Hlen. lia.
  - split; [by split; rewrite ?Ec|]. split; [by inversion Hfr|by eapply Hpc].
Qed.

Lemma triple_set_frame fr : current fr → triple (state_inv fx d p) X (set_frame fr) (λ _, True).
Proof.
  intros [Hok Hp] s [? ? Hfr Hlen Hpc]. unfold wp, set_frame. destruct (st_calls s) as [|fr' l] eqn:Ec.
  - unfold len in Hlen. simpl in Hlen. lia.
  - split; [|done]. inversion_clear Hfr. split; simpl; try done; [by constructor|].
    by intros ? ? [= <- <-].
Qed.

Lemma triple_instructions fr :
  frame_ok fx fr →
  triple (state_inv fx d p) X (get_current_instructions fr)
    (λ l, (∃ b, frame_body fx fr = Some b ∧ l = instructions b) ∧ (0 < cf_pc fr → 0 < len l)).
Proof.
  intros [Hl (b & Hb & Hn) _ _ _ _ _].
  apply triple_bind with (λ c, fixed_of c = fx); [apply triple_gets; by intros s [[]]|].
  intros c <-. simpl in *. eapply triple_bind; [apply triple_sub|].
  - unfold import_function_count. lia.
  - intros x [-> _]. unfold import_function_count, frame_body in *. simpl in Hb. rewrite Hb.
    apply triple_ret. split; [by exists b|done].
Qed.

(** ** Unwinding *)

Lemma collect_go_ok n : ∀ rs s,
  Forall value_ok rs → stack_ok s →
  Forall value_ok (collect_go n rs s).1 ∧ stack_ok (collect_go n rs s).2.
Proof.
  induction n as [|n IH]; intros rs s Hrs Hs; simpl; [done|].
  pose proof (triple_pop X HX s Hs) as Hp. unfold wp in Hp.
  destruct (stack_pop s) as [[v|e|] s']; destruct Hp; apply IH; try done. by constructor.
Qed.

Lemma triple_push_all vs : Forall value_ok vs → triple stack_ok X (push_all vs) (λ _, True).
Proof. apply triple_iter. intros v Hv. by apply triple_push. Qed.

Lemma triple_unwind arity base : 0 ≤ base → triple stack_ok X (unwind arity base) (λ _, True).
Proof.
  intros Hb s Hs. unfold wp, unwind, collect_results.
  destruct (collect_go_ok (Z.to_nat (Z.min arity (Z.max 0 (stack_len s - base)))) [] s) as [Hr Hs'];
    [constructor|done|].
  destruct (collect_go _ [] s) as [rs s']. simpl in *.
  apply (triple_push_all rs Hr). by apply truncate_ok.
Qed.

Lemma triple_pop_args n : triple stack_ok X (pop_args n) (Forall value_ok).
Proof.
  eapply triple_bind; [apply triple_repeat, triple_pop, HX|]. intros l [Hl _]. apply triple_ret.
  by apply Forall_rev.
Qed.
End triples.

(** ** Control instructions *)

Section control.
Context (X : option TrapError → Prop) (HX : ∀ e, X (Some e)).
Context (fx : ctx_fixed) (d : Z) (Hd : 0 < d).

(** The running frame has left its first instruction. *)
#[local] Abbreviation inv := (state_inv fx d 1).
#[local] Abbreviation running := (current fx 1).

Lemma running_pc fr pc : running fr → 0 ≤ pc → running (with_pc (pc + 1) fr).
Proof.
  intros [[Hl (b & Hb & Hn) ? ? ? ? ?] Hpc] Hp. split; [|simpl; lia].
  split; simpl; try done; [|lia]. exists b. split; [done|]. intros _. apply Hn. lia.
Qed.

Lemma running_blocks fr bs : running fr → Forall block_ok bs → running (with_blocks bs fr).
Proof. intros [[] Hpc] Hbs. split; [|done]. by split. Qed.

Lemma running_locals fr l : running fr → Forall value_ok l → running (with_locals l fr).
Proof. intros [[] Hpc] Hl. split; [|done]. by split. Qed.

Lemma running_blocks_ok fr : running fr → Forall block_ok (cf_block_stack fr).
Proof. by intros [[] _]. Qed.

Lemma scan_end_range rest : ∀ i depth e, 0 ≤ i → scan_end rest i depth = Some e → 0 ≤ e.
Proof.
  induction rest as [|x rest IH]; intros i depth e Hi; simpl; [done|].
  destruct (opens_block x); [apply IH; lia|].
  destruct x; try (apply IH; lia). destruct (_ =? 0); [intros [= <-]; lia|apply IH; lia].
Qed.

Lemma find_block_end_nonneg l pc : 0 ≤ pc → 0 ≤ find_block_end l pc.
Proof.
  intros. unfold find_block_end. destruct (scan_end _ _ _) eqn:Es; [|lia].
  eapply scan_end_range in Es; lia.
Qed.

Lemma scan_else_range rest : ∀ i depth e, 0 ≤ i → scan_else rest i depth = Some e → 0 ≤ e.
Proof.
  induction rest as [|x rest IH]; intros i depth e Hi; simpl; [done|].
  destruct (opens_block x); [apply IH; lia|].
  destruct x; try (apply IH; lia).
  - destruct (depth =? 1); [intros [= <-]; lia|apply IH; lia].
  - destruct (_ =? 0); [done|apply IH; lia].
Qed.

Lemma block_arity_nonneg bt m : 0 ≤ block_arity bt m ∧ 0 ≤ block_param_arity bt m.
Proof.
  destruct bt as [| |idx]; simpl; [lia..|]. destruct (vget (types m) idx); [|lia].
  split; apply len_nonneg.
Qed.

(** Only a block type with parameters can find too few operands. *)
Definition has_type_index (bt : BlockType) : Prop := match bt with BT_TypeIndex _ => True | _ => False end.

Lemma triple_enter_block kind bt else_pc end_pc :
  (has_type_index bt → X None) → 0 ≤ end_pc →
  triple inv X (enter_block kind bt else_pc end_pc) (λ _, True).
Proof.
  intros Hbt He. unfold enter_block. eapply triple_bind; [by apply triple_cur_frame|]. intros fr Hfr.
  apply triple_bind with (λ _, True); [by apply triple_gets|]. intros c _.
  apply triple_bind with (λ _, True); [by apply triple_gets|]. intros st _.
  destruct (block_arity_nonneg bt (ctx_module c)) as [Ha Hpa].
  eapply triple_bind; [apply triple_sub; destruct Hfr; lia|]. intros start [-> Hs].
  eapply triple_bind; [apply triple_sub|].
  - intros Hlt. apply Hbt. destruct bt; simpl in *; try done; pose proof (len_nonneg (values st));
      unfold stack_len in Hlt; lia.
  - intros depth [-> Hdep]. apply triple_set_frame; [done|]. apply running_blocks; [done|].
    constructor; [|by apply running_blocks_ok]. unfold block_ok. simpl.
    split_and!; try lia. case_decide; lia.
Qed.

Lemma triple_exec_block kind bt :
  (has_type_index bt → X None) → triple inv X (exec_block kind bt) (λ _, True).
Proof.
  intros Hbt. eapply triple_bind; [by apply triple_cur_frame|]. intros fr Hfr.
  eapply triple_bind; [apply triple_instructions; by destruct Hfr|]. intros l _.
  eapply triple_bind; [apply triple_sub; destruct Hfr; lia|]. intros pc [-> ?].
  apply triple_enter_block; [done|]. apply find_block_end_nonneg. lia.
Qed.

Lemma triple_exec_if bt : (has_type_index bt → X None) → triple inv X (exec_if bt) (λ _, True).
Proof.
  intros Hbt. eapply triple_bind; [apply triple_on_stack, triple_pop_i32, HX|]. intros cond _.
  eapply triple_bind; [by apply triple_cur_frame|]. intros fr Hfr.
  eapply triple_bind; [apply triple_instructions; by destruct Hfr|]. intros l _.
  eapply triple_bind; [apply triple_sub; destruct Hfr; lia|]. intros pc [-> ?]. cbv zeta.
  pose proof (find_block_end_nonneg l (cf_pc fr - 1) ltac:(lia)) as He.
  eapply triple_bind; [by apply triple_enter_block|]. intros _ _.
  eapply triple_bind; [by apply triple_cur_frame|]. intros fr' Hfr'.
  destruct (cond =? 0); [|by apply triple_ret].
  destruct (find_else l (cf_pc fr - 1)) as [e|] eqn:Ee; (apply triple_set_frame; [done|]).
  - apply running_pc; [done|]. unfold find_else in Ee. eapply scan_else_range in Ee; lia.
  - apply running_pc; [|done]. apply running_blocks; [done|]. by apply running_blocks_ok.
Qed.

Lemma triple_exec_else : triple inv X exec_else (λ _, True).
Proof.
  eapply triple_bind; [by apply triple_cur_frame|]. intros fr Hfr.
  pose proof (running_blocks_ok fr Hfr) as Hb.
  destruct (cf_block_stack fr) as [|b bs]; [by apply triple_ret|].
  apply Forall_cons in Hb as [(? & ? & ? & ?) Hbs].
  eapply triple_bind; [by apply triple_on_stack, triple_unwind|]. intros _ _.
  apply triple_set_frame; [done|]. apply running_pc; [|done]. by apply running_blocks.
Qed.

Lemma triple_exec_end : triple inv X exec_end (λ _, True).
Proof.
  eapply triple_bind; [by apply triple_cur_frame|]. intros fr Hfr.
  pose proof (running_blocks_ok fr Hfr) as Hb.
  destruct (cf_block_stack fr) as [|b bs]; [by apply triple_ret|].
  apply Forall_cons in Hb as [(? & ? & ? & ?) Hbs]. case_decide.
  - eapply triple_bind; [apply triple_instructions; by destruct Hfr|]. intros l [_ Hl].
    apply triple_set_frame; [done|]. replace (len l) with (len l - 1 + 1) by lia.
    apply running_pc; [done|]. destruct Hfr. simpl in Hl. lia.
  - eapply triple_bind; [apply triple_set_frame; [done|by apply running_blocks]|]. intros _ _.
    by apply triple_on_stack, triple_unwind.
Qed.

Lemma triple_branch label : X None → triple inv X (branch label) (λ _, True).
Proof.
  intros HN. eapply triple_bind; [by apply triple_cur_frame|]. intros fr Hfr.
  pose proof (running_blocks_ok fr Hfr) as Hb.
  eapply triple_bind; [by apply triple_sub|]. intros last _.
  eapply triple_bind; [by apply triple_sub|]. intros idx _.
  eapply triple_bind; [by apply triple_unwrap; [intros b Hi; exact Hi|]|]. intros b Hi.
  assert (Hbok : block_ok b).
  { apply vget_Some in Hi as [_ Hi]. by eapply Forall_lookup_1. }
  destruct Hbok as (? & ? & ? & ?).
  eapply triple_bind; [by apply triple_on_stack, triple_unwind|]. intros _ _.
  case_decide; (apply triple_set_frame; [done|]); apply running_pc; try done.
  apply running_blocks; [done|]. by apply Forall_stack_truncate.
Qed.

(** The calls an instruction asks for carry well-formed arguments; no
    instruction exits the process. *)
Definition flow_ok (f : ControlFlow) : Prop :=
  match f with
  | CF_Continue | CF_Return => True
  | CF_CallFunction _ args => Forall value_ok args
  | CF_Exit _ => False
  end.

Lemma triple_continue m : triple inv X m (λ _, True) → triple inv X (continue m) flow_ok.
Proof. intros Hm. eapply triple_bind; [done|]. intros _ _. by apply triple_ret. Qed.

Lemma triple_exec_call idx : triple inv X (exec_call idx) flow_ok.
Proof.
  apply triple_bind with (λ _, True); [by apply triple_gets|]. intros c _.
  apply triple_bind with (λ _, True); [by apply triple_ok_or|]. intros ft _.
  eapply triple_bind; [by apply triple_on_stack, triple_pop_args|]. intros args Hargs.
  by apply triple_ret.
Qed.

Lemma triple_exec_call_indirect ty tbl : triple inv X (exec_call_indirect ty tbl) flow_ok.
Proof.
  eapply triple_bind; [apply triple_on_stack, triple_pop_i32, HX|]. intros e _.
  apply triple_bind with (λ _, True); [by apply triple_gets|]. intros c _.
  apply triple_bind with (λ _, True); [by apply triple_ok_or|]. intros t _.
  apply triple_bind with (λ _, True).
  { apply triple_lift. unfold table_get. destruct (vget _ _); simpl; auto. }
  intros entry _. apply triple_bind with (λ _, True); [by apply triple_ok_or|]. intros idx _.
  apply triple_bind with (λ _, True); [by apply triple_ok_or|]. intros t1 _.
  apply triple_bind with (λ _, True); [by apply triple_ok_or|]. intros t2 _.
  destruct (negb _); [apply triple_throw, HX|].
  eapply triple_bind; [by apply triple_on_stack, triple_pop_args|]. intros args Hargs.
  by apply triple_ret.
Qed.

Lemma triple_exec_br_if label : X None → triple inv X (exec_br_if label) (λ _, True).
Proof.
  intros HN. eapply triple_bind; [apply triple_on_stack, triple_pop_i32, HX|]. intros cond _.
  destruct (negb _); [by apply triple_branch|by apply triple_ret].
Qed.

Lemma triple_exec_br_table targets default :
  X None → triple inv X (exec_br_table targets default) (λ _, True).
Proof.
  intros HN. eapply triple_bind; [apply triple_on_stack, triple_pop_i32, HX|]. intros i _.
  apply triple_bind with (λ _, True); [|intros label _; by apply triple_branch].
  destruct (_ <? _); [by apply triple_unwrap|by apply triple_ret].
Qed.
End control.

(** ** The other instructions *)

(** Run the next pop of a sequence. *)
Ltac pop_step x Hx :=
  eapply triple_bind;
    [ apply triple_on_stack;
      first [ apply triple_pop_i32 | apply triple_pop_i64 | apply triple_pop_f32
            | apply triple_pop_f64 | apply triple_pop | apply triple_peek ]; assumption
    | intros x Hx; simpl in Hx ].

Section straight.
Context (X : option TrapError → Prop) (HX : ∀ e, X (Some e)).
Context (fx : ctx_fixed) (d p : Z) (Hd : 0 < d).
#[local] Abbreviation inv := (state_inv fx d p).

Lemma triple_push_on v : value_ok v → triple inv X (on_stack (stack_push v)) (λ _, True).
Proof. intros. by apply triple_on_stack, triple_push. Qed.

Lemma triple_exec_reference i m :
  exec_reference i = Some m → instr_ok i → triple stack_ok X m (λ _, True).
Proof.
  destruct i; intros [= <-] Hi; simpl in Hi.
  - by apply triple_push.
  - eapply triple_bind; [by apply triple_pop|]. intros v _. apply triple_push; [done|].
    destruct v as [| | | |[]|[]]; simpl; unfold in_s; lia.
  - by apply triple_push.
  - eapply triple_bind; [by apply triple_pop|]. intros v _. by apply triple_ret.
  - eapply triple_bind; [by apply triple_pop_i32|]. intros c _.
    eapply triple_bind; [by apply triple_pop|]. intros v2 Hv2.
    eapply triple_bind; [by apply triple_pop|]. intros v1 Hv1.
    apply triple_push; [done|]. by destruct (negb _).
Qed.

Lemma current_locals fr l : current fx p fr → Forall value_ok l → current fx p (with_locals l fr).
Proof. intros [[] Hpc] Hl. split; [|done]. by split. Qed.

Lemma triple_set_local idx v : value_ok v → triple inv X (set_local idx v) (λ _, True).
Proof.
  intros Hv. eapply triple_bind; [by apply triple_cur_frame|]. intros fr Hfr.
  destruct (vget _ _); [|by apply triple_ret]. apply triple_set_frame; [done|].
  apply current_locals; [done|]. apply Forall_insert; [|done]. by destruct Hfr as [[] _].
Qed.

(** Replacing the context by one that satisfies the invariant. *)
Lemma triple_set_ctx c : ctx_inv fx c → triple inv X (modify (set_ctx c)) (λ _, True).
Proof. intros Hc. apply triple_modify. intros s []. by split. Qed.

Lemma triple_get_ctx : triple inv X (gets st_ctx) (ctx_inv fx).
Proof. apply triple_gets. by intros s []. Qed.

Lemma triple_set_global idx v : value_ok v → triple inv X (set_global idx v) (λ _, True).
Proof.
  intros Hv. eapply triple_bind; [apply triple_get_ctx|]. intros c [Hc Hf].
  destruct (vget _ _); [|by apply triple_ret]. apply triple_set_ctx. split; [|done].
  destruct Hc. split; try done. by apply Forall_insert.
Qed.

Lemma triple_exec_variable i m : exec_variable i = Some m → triple inv X m (λ _, True).
Proof.
  destruct i; intros [= <-].
  - eapply triple_bind; [by apply triple_cur_frame|]. intros fr [[_ _ Hl _ _ _ _] _].
    apply triple_bind with value_ok; [|apply triple_push_on]. apply triple_ok_or; [done|].
    intros v Hv. by apply (vget_Forall _ _ _ _ Hl Hv).
  - pop_step v Hv. by apply triple_set_local.
  - pop_step v Hv. by apply triple_set_local.
  - eapply triple_bind; [apply triple_get_ctx|]. intros c [[_ _ _ Hg _] _].
    apply triple_bind with (λ g, value_ok (gv_value g)); [|intros g; apply triple_push_on].
    apply triple_ok_or; [done|]. intros v Hv. by apply (vget_Forall _ _ _ _ Hg Hv).
  - pop_step v Hv. by apply triple_set_global.
Qed.

(** *** Tables *)

Lemma triple_for_range {S E} (I : S → Prop) (Y : option E → Prop) (P : Z → Prop)
    (f : Z → M S E unit) n : ∀ i,
  0 ≤ i → P i → (∀ j, 0 ≤ j → P j → triple I Y (f j) (λ _, P (j + 1))) →
  triple I Y (for_range n i f) (λ _, True).
Proof.
  induction n as [|n IH]; intros i Hi HP Hf; simpl; [by apply triple_ret|].
  eapply triple_bind; [by apply Hf|]. intros ? HP'. apply IH; [lia|done..].
Qed.

(** The same, with the bound on the index. *)
Lemma triple_for_bounded {S E} (I : S → Prop) (Y : option E → Prop) (P : Z → Prop)
    (f : Z → M S E unit) n :
  P 0 → (∀ j, 0 ≤ j < Z.of_nat n → P j → triple I Y (f j) (λ _, P (j + 1))) →
  triple I Y (for_range n 0 f) (λ _, True).
Proof.
  intros HP Hf. enough (Hgo : ∀ k i, i + Z.of_nat k = Z.of_nat n → 0 ≤ i → P i →
    triple I Y (for_range k i f) (λ _, True)) by (by apply Hgo).
  clear HP. induction k as [|k IH]; intros i Hk Hi HP; simpl; [by apply triple_ret|].
  eapply triple_bind; [apply Hf; [lia|done]|]. intros ? HP'. apply IH; [lia..|done].
Qed.

Lemma triple_for_range_rev {S E} (I : S → Prop) (Y : option E → Prop) (f : Z → M S E unit) n :
  (∀ j, 0 ≤ j → triple I Y (f j) (λ _, True)) → triple I Y (for_range_rev n f) (λ _, True).
Proof.
  intros Hf. induction n as [|n IH]; simpl; [by apply triple_ret|].
  eapply triple_bind; [apply Hf; lia|]. by intros _ _.
Qed.

Lemma triple_iter_enum {S E A} (I : S → Prop) (Y : option E → Prop) (R : A → Prop) (P : Z → Prop)
    (f : Z → A → M S E unit) l : ∀ i,
  0 ≤ i → P i → (∀ j x, 0 ≤ j → P j → R x → triple I Y (f j x) (λ _, P (j + 1))) → Forall R l →
  triple I Y (iter_enum f i l) (λ _, True).
Proof.
  induction l as [|x l IH]; intros i Hi HP Hf Hl; simpl; [by apply triple_ret|].
  apply Forall_cons in Hl as [Hx Hl]. eapply triple_bind; [by apply Hf|]. intros ? HP'.
  apply IH; [lia|done..].
Qed.

Lemma as_func_ref_ok v : value_ok v → limit_ok (as_func_ref v).
Proof. by destruct v. Qed.

Lemma triple_table_get i : triple table_ok X (table_get_m i) (λ v, limit_ok v ∧ i + 1 < 2 ^ 32).
Proof.
  eapply triple_bind; [by apply (triple_get _ _ table_ok)|]. intros t Ht.
  by apply triple_lift, table_get_ok.
Qed.

(** [table.set(a + i, v)?]: the next index does not overflow. *)
Lemma triple_set_at a i v :
  (2 ^ 32 ≤ a + i → X None) → limit_ok v →
  triple table_ok X (j ← add_or_panic 32 a i; table_set j v) (λ _, a + (i + 1) < 2 ^ 32).
Proof.
  intros HN Hv. eapply triple_bind; [by apply triple_add|]. intros j [-> _].
  eapply triple_mono; [by apply triple_table_set|]. intros ? Hj. simpl in Hj. lia.
Qed.

Lemma triple_copy_entry a b i :
  (2 ^ 32 ≤ a + i ∨ 2 ^ 32 ≤ b + i → X None) →
  triple table_ok X (copy_entry a b i) (λ _, a + (i + 1) < 2 ^ 32 ∧ b + (i + 1) < 2 ^ 32).
Proof.
  intros HN. eapply triple_bind; [apply triple_add; auto|]. intros j [-> _].
  eapply triple_bind; [apply triple_table_get|]. intros v [Hv Hj].
  eapply triple_mono; [apply triple_set_at; [auto|done]|]. intros ? Hj'. simpl in Hj'. lia.
Qed.

Lemma triple_read_entries t a n : ∀ i,
  a + i < 2 ^ 32 → table_ok t → triple inv X (read_entries t a i n) (Forall limit_ok).
Proof.
  induction n as [|n IH]; intros i Hi Ht; simpl; [by apply triple_ret|].
  eapply triple_bind; [apply triple_add; lia|]. intros j [-> _].
  apply triple_bind with (λ v, limit_ok v ∧ a + i + 1 < 2 ^ 32); [by apply triple_lift, table_get_ok|].
  intros v [Hv Hj]. eapply triple_bind; [apply IH; [lia|done]|]. intros vs Hvs.
  apply triple_ret. by constructor.
Qed.

Lemma triple_table {A} i (m : M Table TrapError A) Q :
  triple table_ok X m Q → triple inv X (on_ctx (on_table i m)) Q.
Proof. intros. by apply triple_on_ctx, triple_on_table. Qed.

Lemma as_u32_range z : 0 ≤ as_u32 z < 2 ^ 32.
Proof. by apply wrap_range. Qed.

Lemma triple_exec_table_init elem tbl : triple inv X (exec_table_init elem tbl) (λ _, True).
Proof.
  pop_step n Hn. pop_step a Ha. pop_step b Hb.
  eapply triple_bind; [apply triple_get_ctx|]. intros c [[Hm _ _ _ _] _].
  apply triple_bind with element_ok.
  { apply triple_ok_or; [done|]. intros e. by apply vget_Forall, Hm. }
  intros e (_ & _ & Hfi & _). pose proof (as_u32_range a). pose proof (as_u32_range b).
  destruct (match _ with Some _ => _ | None => _ end) eqn:Eb; [by apply triple_throw|].
  unfold checked_add in Eb. destruct (Z.ltb_spec (as_u32 a + as_u32 n) (2 ^ 32)); [|done].
  apply Z.ltb_ge in Eb. apply triple_table.
  apply triple_for_bounded with (λ j, as_u32 b + j < 2 ^ 32); [lia|]. intros j Hj HP.
  eapply triple_bind; [apply triple_add; lia|]. intros si [-> _].
  apply triple_bind with (in_u 32); [apply triple_unwrap|].
  - intros f. by apply vget_Forall.
  - intros Hf. apply vget_None in Hf; lia.
  - intros f Hf. apply triple_set_at; [lia|done].
Qed.

Lemma triple_exec_table_copy dst src :
  (dst = src → X None) → triple inv X (exec_table_copy dst src) (λ _, True).
Proof.
  intros HN. pop_step n Hn. pop_step a Ha. pop_step b Hb.
  pose proof (as_u32_range a). pose proof (as_u32_range b). destruct (Z.eqb_spec dst src) as [He|].
  - specialize (HN He). apply triple_table. destruct (_ <=? _).
    + apply (triple_for_range _ _ (λ _, True)); [done..|]. intros.
      eapply triple_mono; [by apply triple_copy_entry|done].
    + apply triple_for_range_rev. intros. eapply triple_mono; [by apply triple_copy_entry|done].
  - eapply triple_bind; [apply triple_get_ctx|]. intros c [[_ _ Ht _ _] _].
    apply triple_bind with table_ok.
    { apply triple_ok_or; [done|]. intros t. by apply vget_Forall. }
    intros t Hto. eapply triple_bind; [apply triple_read_entries; [lia|done]|]. intros es Hes.
    apply triple_table. eapply (triple_iter_enum _ _ limit_ok (λ j, as_u32 b + j < 2 ^ 32)), Hes;
      [lia..|]. intros j v Hj HP Hv.
    assert (Hu : as_u32 j = j) by (apply wrap_id; unfold in_u; lia). rewrite Hu.
    apply triple_set_at; [lia|done].
Qed.

Lemma triple_exec_table_fill tbl : triple inv X (exec_table_fill tbl) (λ _, True).
Proof.
  pop_step n Hn. pop_step v Hv. pop_step b Hb. pose proof (as_u32_range b).
  apply triple_table, (triple_for_range _ _ (λ j, as_u32 b + j < 2 ^ 32)); [lia..|]. intros j Hj HP.
  apply triple_set_at; [lia|]. by apply as_func_ref_ok.
Qed.

Lemma triple_exec_table_grow tbl : triple inv X (exec_table_grow tbl) (λ _, True).
Proof.
  pop_step n Hn. pop_step v Hv. apply triple_bind with (in_s 32); [|intros r Hr; by apply triple_push_on].
  apply triple_table. intros t Ht.
  pose proof (triple_table_grow X HX (as_u32 n) (as_func_ref v)
    (proj1 (wrap_range 32 n ltac:(done))) (as_func_ref_ok v Hv) t Ht) as Hg.
  unfold wp in *. destruct (table_grow _ _ t) as [[old|e|] t']; destruct Hg; split; auto;
    [by apply swrap_range|unfold in_s; lia].
Qed.

(** A segment that lost its contents leaves a well-formed module. *)
Lemma triple_exec_elem_drop elem : triple inv X (exec_elem_drop elem) (λ _, True).
Proof.
  eapply triple_bind; [apply triple_get_ctx|]. intros c [Hc Hf]. cbv zeta.
  destruct (vget (elements (ctx_module c)) elem) as [e|] eqn:He; [|by apply triple_ret].
  apply triple_set_ctx. destruct Hc as [Hm ? ? ? ?]. split; [|done]. split; try done. simpl.
  destruct Hm as [? ? ? ? ? ? ? ? [Hes Hlen] ? ? ?]. split; try done.
  simpl. split; [|unfold small; by rewrite len_vset].
  apply Forall_insert; [done|]. apply (vget_Forall _ _ _ _ Hes) in He as (? & ? & _).
  split_and!; try done; by constructor.
Qed.

Lemma triple_exec_data_drop idx : triple inv X (exec_data_drop idx) (λ _, True).
Proof.
  eapply triple_bind; [apply triple_get_ctx|]. intros c [Hc Hf]. cbv zeta.
  destruct (vget (data (ctx_module c)) idx) as [e|] eqn:He; [|by apply triple_ret].
  apply triple_set_ctx. destruct Hc as [Hm ? ? ? ?]. split; [|done]. split; try done. simpl.
  destruct Hm as [? ? ? ? ? ? ? ? ? ? [Hes Hlen] ?]. split; try done.
  simpl. split; [|unfold small; by rewrite len_vset].
  apply Forall_insert; [done|]. apply (vget_Forall _ _ _ _ Hes) in He as (? & ? & _).
  split_and!; try done; by constructor.
Qed.

(** *** Memory *)

Lemma triple_memory {A} none (m : M LinearMemory TrapError A) Q :
  triple memory_wf X m Q → triple inv X (on_ctx (on_memory 0 none m)) Q.
Proof. intros. by apply triple_on_ctx, triple_on_memory. Qed.

Lemma address_nonneg base offset : 0 ≤ offset → 0 ≤ address base offset.
Proof. intros. pose proof (wrap_range 32 base ltac:(done)) as [? _]. unfold address, as_u32. lia. Qed.

Lemma triple_load_op n rd c offset :
  (n, rd) ∈ readers → 0 ≤ offset → (∀ v, in_u (8 * Z.of_nat n) v → value_ok (c v)) →
  triple inv X (load_op (Z.of_nat n) rd c offset) (λ _, True).
Proof.
  intros Hrd Ho Hc. pop_step base Hb. apply triple_bind with (in_u (8 * Z.of_nat n)).
  - apply triple_memory, triple_memory_op; [done|]. apply triple_readers; [done..|].
    by apply address_nonneg.
  - intros v Hv. by apply triple_push_on, Hc.
Qed.

Lemma triple_store_op pop ok n wr c offset :
  triple stack_ok X pop ok → (n, wr) ∈ writers → 0 ≤ offset →
  (∀ v, ok v → in_u (8 * Z.of_nat n) (c v)) →
  triple inv X (store_op pop (Z.of_nat n) wr c offset) (λ _, True).
Proof.
  intros Hpop Hwr Ho Hc. eapply triple_bind; [by apply triple_on_stack|]. intros v Hv.
  pop_step base Hb. apply triple_memory, triple_memory_op; [done|].
  eapply triple_writers; [by auto|done| |by apply Hc]. by apply address_nonneg.
Qed.

Lemma triple_exec_load i m : exec_load i = Some m → instr_ok i → triple inv X m (λ _, True).
Proof.
  destruct i; intros [= <-] [_ [Ho _]];
    [ apply (triple_load_op 4) | apply (triple_load_op 8) | apply (triple_load_op 4)
    | apply (triple_load_op 8) | apply (triple_load_op 1) | apply (triple_load_op 1)
    | apply (triple_load_op 2) | apply (triple_load_op 2) | apply (triple_load_op 1)
    | apply (triple_load_op 1) | apply (triple_load_op 2) | apply (triple_load_op 2)
    | apply (triple_load_op 4) | apply (triple_load_op 4) ];
    try done; try set_solver; intros v Hv; simpl; first
    [ done | by apply swrap_range | by apply in_u_in_s with (w := 8) | by apply in_u_in_s with (w := 16)
    | by apply in_u_in_s with (w := 32) | by apply in_s_weaken with (w := 8), swrap_range
    | by apply in_s_weaken with (w := 16), swrap_range | by apply in_s_weaken with (w := 32), swrap_range ].
Qed.

Lemma triple_exec_store i m : exec_store i = Some m → instr_ok i → triple inv X m (λ _, True).
Proof.
  destruct i; intros [= <-] [_ [Ho _]];
    [ eapply (triple_store_op _ _ 4) | eapply (triple_store_op _ _ 8) | eapply (triple_store_op _ _ 4)
    | eapply (triple_store_op _ _ 8) | eapply (triple_store_op _ _ 1) | eapply (triple_store_op _ _ 2)
    | eapply (triple_store_op _ _ 1) | eapply (triple_store_op _ _ 2) | eapply (triple_store_op _ _ 4) ];
    try done; try set_solver;
    first [ by apply triple_pop_i32 | by apply triple_pop_i64 | by apply triple_pop_f32
          | by apply triple_pop_f64 | intros v Hv; simpl in *; first [done | by apply wrap_range] ].
Qed.

Lemma triple_exec_memory_grow : triple inv X exec_memory_grow (λ _, True).
Proof.
  pop_step n Hn. eapply triple_bind; [apply triple_get_ctx|]. intros c [Hc Hf].
  destruct (vget (ctx_memories c) 0) as [mem|] eqn:Hmem;
    [|apply triple_push_on; simpl; unfold in_s; lia].
  assert (Hwf : memory_wf (memory_grow (as_u32 n) mem).2).
  { destruct Hc. apply memory_grow_wf; [by eapply vget_Forall|by apply wrap_range]. }
  destruct (memory_grow (as_u32 n) mem) as [o mem']. simpl in Hwf.
  apply triple_bind with (λ _, True); [|intros _ _; apply triple_push_on].
  - apply triple_set_ctx. split; [|done]. destruct Hc. split; try done. by apply Forall_insert.
  - destruct o; simpl; [by apply swrap_range|unfold in_s; lia..].
Qed.

Lemma triple_exec_memory_init idx : triple inv X (exec_memory_init idx) (λ _, True).
Proof.
  pop_step n Hn. pop_step a Ha. pop_step b Hb.
  eapply triple_bind; [apply triple_get_ctx|]. intros c [[Hm _ _ _ _] _].
  apply triple_bind with segment_ok.
  { apply triple_ok_or; [done|]. intros e. by apply vget_Forall, Hm. }
  intros seg (_ & _ & Hby & _). apply triple_bind with (λ _, True); [by apply triple_ok_or|].
  intros e _. destruct (_ <? _); [by apply triple_throw|].
  apply triple_memory, triple_memory_op; [done|].
  apply triple_write_bytes; [by auto|by apply wrap_range|by apply Forall_slice].
Qed.

Lemma triple_exec_memory_copy : triple inv X exec_memory_copy (λ _, True).
Proof.
  pop_step n Hn. pop_step a Ha. pop_step b Hb. apply triple_memory.
  eapply triple_bind; [by apply (triple_get _ _ (λ _, True))|]. intros mem _. cbv zeta.
  destruct (_ || _); [by apply triple_throw|]. apply triple_memory_op; [done|].
  apply triple_copy_within; [by auto|by apply wrap_range..].
Qed.

Lemma triple_exec_memory_fill : triple inv X exec_memory_fill (λ _, True).
Proof.
  pop_step n Hn. pop_step a Ha. pop_step b Hb. apply triple_memory.
  eapply triple_bind; [by apply (triple_get _ _ (λ _, True))|]. intros mem _. cbv zeta.
  destruct (range_exceeds _ _ _); [by apply triple_throw|]. apply triple_memory_op; [done|].
  apply triple_memory_fill; [by auto|by apply wrap_range..].
Qed.

Lemma triple_exec_memory i m : exec_memory i = Some m → triple inv X m (λ _, True).
Proof.
  destruct i; intros [= <-].
  - eapply triple_bind; [apply triple_get_ctx|]. intros c _. apply triple_push_on.
    by apply swrap_range.
  - apply triple_exec_memory_grow.
  - apply triple_exec_memory_init.
  - apply triple_exec_data_drop.
  - apply triple_exec_memory_copy.
  - apply triple_exec_memory_fill.
Qed.
End straight.

(** ** Every instruction *)

(** The instructions that can panic: branches (to a label that does not
    exist), blocks with parameters (on too few operands) and a copy within one
    table (whose indices overflow). *)
Definition may_panic (i : Instruction) : bool :=
  match i with
  | Block bt | Loop bt | If bt => match bt with BT_TypeIndex _ => true | _ => false end
  | Br _ | BrIf _ | BrTable _ _ => true
  | TableCopy dst src => dst =? src
  | _ => false
  end.

Lemma exec_numeric_sig i m : exec_numeric i = Some m → ∃ ps r, num_sig i = Some (ps, r).
Proof. destruct i; intros Hm; try discriminate Hm; by do 2 eexists. Qed.

(** Every instruction has a case. *)
Lemma exec_total i : is_Some (exec_control i) ∨ is_Some (exec_straight i).
Proof. destruct i; first [by left; eexists | by right; eexists]. Qed.

Section instruction.
Context (X : option TrapError → Prop) (HX : ∀ e, X (Some e)).
Context (fx : ctx_fixed) (d : Z) (Hd : 0 < d).
#[local] Abbreviation inv := (state_inv fx d 1).

Lemma triple_exec_table i m :
  exec_table i = Some m → instr_ok i → (may_panic i = true → X None) →
  triple inv X m (λ _, True).
Proof.
  destruct i; intros [= <-] Hi HN; simpl in *.
  - pop_step a Ha. eapply triple_bind; [by apply triple_table, triple_table_get|].
    intros v [Hv _]. by apply triple_push_on.
  - pop_step v Hv. pop_step a Ha. apply triple_table; [done|].
    eapply triple_mono; [apply triple_table_set; [done|by apply as_func_ref_ok]|done].
  - by apply triple_exec_table_init.
  - apply triple_exec_elem_drop.
  - apply triple_exec_table_copy; [done|]. intros ->. apply HN, Z.eqb_refl.
  - by apply triple_exec_table_grow.
  - apply triple_bind with (λ _, True); [by apply triple_table, triple_gets|].
    intros v _. apply triple_push_on; [done|]. by apply swrap_range.
  - by apply triple_exec_table_fill.
Qed.

Lemma triple_exec_straight i m :
  exec_straight i = Some m → instr_ok i → (may_panic i = true → X None) →
  triple inv X m (λ _, True).
Proof.
  unfold exec_straight, first_some. simpl. intros Hm Hi HN.
  destruct (exec_reference i) eqn:E1; [injection Hm as <-; by eapply triple_on_stack, triple_exec_reference|].
  destruct (exec_variable i) eqn:E2; [injection Hm as <-; by eapply triple_exec_variable|].
  destruct (exec_table i) eqn:E3; [injection Hm as <-; by eapply triple_exec_table|].
  destruct (exec_load i) eqn:E4; [injection Hm as <-; by eapply triple_exec_load|].
  destruct (exec_store i) eqn:E5; [injection Hm as <-; by eapply triple_exec_store|].
  destruct (exec_memory i) eqn:E6; [injection Hm as <-; by eapply triple_exec_memory|].
  destruct (exec_numeric i) eqn:E7; [injection Hm as <-|done].
  destruct (exec_numeric_sig _ _ E7) as (ps & r & Hs).
  destruct (numeric_shaped i ps r Hs Hi) as (m' & Hm' & Hsh). rewrite E7 in Hm'.
  injection Hm' as <-. by eapply triple_on_stack, triple_shaped.
Qed.

Lemma triple_exec_control i m :
  exec_control i = Some m → (may_panic i = true → X None) → triple inv X m flow_ok.
Proof.
  assert (Hbt : ∀ bt, (match bt with BT_TypeIndex _ => true | _ => false end = true → X None) →
    has_type_index bt → X None) by (intros []; simpl; auto).
  destruct i; intros [= <-] HN; simpl in *;
    try (apply triple_continue; first
      [ by apply triple_exec_block, Hbt | by apply triple_exec_if, Hbt | by apply triple_exec_else
      | by apply triple_exec_end | by apply triple_branch, HN | by apply triple_exec_br_if, HN
      | by apply triple_exec_br_table, HN ]).
  - by apply triple_throw.
  - by apply triple_ret.
  - by apply triple_ret.
  - by apply triple_exec_call.
  - by apply triple_exec_call_indirect.
Qed.

Lemma triple_execute i :
  instr_ok i → (may_panic i = true → X None) → triple inv X (execute_instruction i) flow_ok.
Proof.
  intros Hi HN. eapply triple_bind; [by apply triple_cur_frame|]. intros _ _.
  destruct (exec_control i) as [m|] eqn:Ec; [by eapply triple_exec_control|].
  destruct (exec_straight i) as [m|] eqn:Es; [|by apply triple_ret].
  by eapply triple_continue, triple_exec_straight.
Qed.
End instruction.
End invariant.

(** ** Host functions *)

(** What the executor needs of the host functions that are bound: one that is called
    with values in range leaves a well-formed context with the same fuel, code and
    bindings, and returns values in range.  It may trap or panic. *)
Definition hosts_keep `{Embedding} `{!HostCalls} (hosts : list (option HostFunction)) : Prop :=
  ∀ hf fx args, Some hf ∈ hosts → Forall value_ok args →
    triple (ctx_inv fx) (λ _, True) (host_call (hf_func hf) args) (Forall value_ok).

(** No function is bound: every import that is called traps. *)
Definition unbound `{Embedding} (hosts : list (option HostFunction)) : Prop := Forall (λ h, h = None) hosts.

Lemma unbound_keep `{Embedding} `{!HostCalls} hosts : unbound hosts → hosts_keep hosts.
Proof. intros Hu hf fx args Hin. by apply (proj1 (Forall_forall _ _) Hu) in Hin. Qed.
