(* ===== verification/Instantiate.v ===== *)
(** Instantiation: the context [ExecutorContext::new_with_host_functions] builds
    from a well-formed module satisfies the executor's invariant, has one
    memory, table, global and host slot for each declared or imported one, and
    building it never panics. *)

From S2P Require Import Prelude Types Memory Machine Context Executor Invariant.

Section instantiate.
Context `{Embedding}.

(** ** Constant expressions *)

Lemma eval_const_ok l gs :
  Forall instr_ok l → Forall (λ g, value_ok (gv_value g)) gs →
  match eval_const_expr_static l gs with Ok v => value_ok v | Err _ => True | Panic => False end.
Proof.
  intros Hl Hgs. induction Hl as [|i l Hi _ IH]; [simpl; unfold in_s; lia|].
  destruct i; simpl in *; try done.
  destruct (vget gs idx) as [g|] eqn:Eg; [|done]. by eapply (vget_Forall _ _ _ _ Hgs).
Qed.

Lemma const_expr_instrs l : const_expr l → Forall instr_ok l.
Proof. intros Hl. eapply Forall_impl; [exact Hl|]. by intros i []. Qed.

Lemma new_memories_ok l :
  Forall memtype_ok l →
  match new_memories l with
  | Ok ms => Forall memory_wf ms ∧ len ms = len l
  | Err _ => True
  | Panic => False
  end.
Proof.
  induction 1 as [|t l [[Ht _] _] _ IH]; simpl; [done|].
  destruct (memory_new (mt_min t) (mt_max t)) as [m|e|] eqn:Em; simpl.
  - destruct (memory_new_wf _ _ _ Ht Em) as [Hwf _].
    destruct (new_memories l) as [ms| |]; simpl; [|done..]. destruct IH as [Hms Hlen].
    split; [by constructor|]. unfold len in *. simpl. lia.
  - done.
  - unfold memory_new in Em. by repeat case_match.
Qed.

Lemma new_globals_ok l : ∀ acc,
  Forall (λ g, const_expr (init_expr g)) l → Forall (λ g, value_ok (gv_value g)) acc →
  match new_globals l acc with
  | Ok gs => Forall (λ g, value_ok (gv_value g)) gs ∧ len gs = len acc + len l
  | Err _ => True
  | Panic => False
  end.
Proof.
  induction l as [|g l IH]; intros acc Hl Hacc; simpl; [split; [done|unfold len; simpl; lia]|].
  apply Forall_cons in Hl as [Hg Hl].
  pose proof (eval_const_ok (init_expr g) acc (const_expr_instrs _ Hg) Hacc) as Hv.
  destruct (eval_const_expr_static (init_expr g) acc) as [v|e|]; simpl; [|done..].
  specialize (IH (acc ++ [mkGlobalValue v (gt_mutable (global_type g))]) Hl).
  destruct (new_globals l _) as [gs| |]; try (apply IH; apply Forall_app; split; [done|by constructor]).
  destruct IH as [Hgs Hlen]; [apply Forall_app; split; [done|by constructor]|].
  split; [done|]. unfold len in *. rewrite length_app in Hlen. simpl in *. lia.
Qed.

(** ** Segments *)

Section segments.
Context (X : option TrapError → Prop) (HX : ∀ e, X (Some e)) (fx : ctx_fixed).

Lemma triple_eval_const l :
  const_expr l →
  triple (ctx_inv fx) X (globals ← gets ctx_globals; lift (eval_const_expr_static l globals)) value_ok.
Proof.
  intros Hl. apply triple_bind with (Forall (λ g, value_ok (gv_value g))).
  - apply triple_gets. by intros c [[] _].
  - intros gs Hgs. apply triple_lift. pose proof (eval_const_ok l gs (const_expr_instrs _ Hl) Hgs).
    by destruct (eval_const_expr_static l gs).
Qed.

Lemma triple_init_data seg :
  segment_ok seg → triple (ctx_inv fx) X (init_data_segment seg) (λ _, True).
Proof.
  intros (_ & He & Hb & _). unfold init_data_segment. destruct (data_passive seg); [by apply triple_ret|].
  intros c Hc. pose proof (triple_eval_const _ He c Hc) as Hv. apply wp_bind_inv in Hv.
  apply wp_bind. eapply wp_mono; [exact Hv| |done]. intros gs c' Hv'. apply wp_bind.
  eapply wp_mono; [exact Hv'| |done]. intros v c'' [Hc'' Hvok].
  apply triple_on_memory; [done| |done]. apply triple_memory_op; [done|].
  apply triple_write_bytes; [by eauto|by apply wrap_range|done].
Qed.

Lemma triple_init_element seg :
  element_ok seg → triple (ctx_inv fx) X (init_element_segment seg) (λ _, True).
Proof.
  intros (_ & He & Hf & _). unfold init_element_segment. destruct (elem_passive seg); [by apply triple_ret|].
  intros c Hc. pose proof (triple_eval_const _ He c Hc) as Hv. apply wp_bind_inv in Hv.
  apply wp_bind. eapply wp_mono; [exact Hv| |done]. intros gs c' Hv'. apply wp_bind.
  eapply wp_mono; [exact Hv'| |done]. intros v c'' [Hc'' Hvok].
  apply triple_on_table; [done| |done]. pose proof (as_u32_range (i32_or_zero v)).
  eapply (triple_iter_enum _ _ (in_u 32) (λ j, as_u32 (i32_or_zero v) + j < 2 ^ 32)), Hf; [lia..|].
  intros j f Hj HP Hfi. assert (Hu : as_u32 j = j) by (apply wrap_id; unfold in_u; lia).
  rewrite Hu. apply triple_set_at; [done|lia|done].
Qed.

Lemma triple_init_segments :
  triple (ctx_inv fx) X (init_data_segments;; init_element_segments) (λ _, True).
Proof.
  eapply triple_bind.
  - apply triple_bind with module_ok; [apply triple_gets; by intros c [[] _]|]. intros m Hm.
    apply triple_iter with segment_ok; [apply triple_init_data|apply (ok_data _ Hm)].
  - intros _ _. apply triple_bind with module_ok; [apply triple_gets; by intros c [[] _]|]. intros m Hm.
    apply triple_iter with element_ok; [apply triple_init_element|apply (ok_elements _ Hm)].
Qed.
End segments.

(** Segments change the contents of memories and tables and nothing else. *)
Definition shape (c : ExecutorContext) :=
  (ctx_module c, ctx_globals c, ctx_host_functions c, ctx_fuel c, ctx_exit_code c,
   (len (ctx_memories c), len (ctx_tables c))).

#[local] Abbreviation any := (λ _ : option TrapError, True).

Lemma shape_on_memory {A} sh i none (m : M LinearMemory TrapError A) :
  triple (λ c, shape c = sh) any (on_memory i none m) (λ _, True).
Proof.
  intros c Hc. unfold wp, on_memory. destruct (vget _ i); [|done].
  destruct (m l) as [[?|?|] ?]; split; try done; unfold shape in *; simpl; by rewrite len_vset.
Qed.

Lemma shape_on_table {A} sh i (m : M Table TrapError A) :
  triple (λ c, shape c = sh) any (on_table i m) (λ _, True).
Proof.
  intros c Hc. unfold wp, on_table. destruct (vget _ i); [|done].
  destruct (m t) as [[?|?|] ?]; split; try done; unfold shape in *; simpl; by rewrite len_vset.
Qed.

Lemma shape_init_segments sh :
  triple (λ c, shape c = sh) any (init_data_segments;; init_element_segments) (λ _, True).
Proof.
  eapply triple_bind; [|intros _ _]; (apply triple_bind with (λ _, True); [by apply triple_gets|]);
    intros m _; (apply triple_iter with (λ _, True); [|by apply Forall_true]); intros seg _.
  - unfold init_data_segment. destruct (data_passive seg); [by apply triple_ret|].
    apply triple_bind with (λ _, True); [by apply triple_gets|]. intros gs _.
    apply triple_bind with (λ _, True); [apply triple_lift; by destruct (eval_const_expr_static _ _)|].
    intros v _. apply shape_on_memory.
  - unfold init_element_segment. destruct (elem_passive seg); [by apply triple_ret|].
    apply triple_bind with (λ _, True); [by apply triple_gets|]. intros gs _.
    apply triple_bind with (λ _, True); [apply triple_lift; by destruct (eval_const_expr_static _ _)|].
    intros v _. apply shape_on_table.
Qed.

(** ** The new context *)

(** What instantiation of [m] promises of its context. *)
Record instantiated (m : Module_) (hfs : list HostFunction) (c : ExecutorContext) : Prop := {
  inst_ctx_ok : ctx_ok c;
  inst_module : ctx_module c = m;
  inst_fuel : ctx_fuel c = Some INITIAL_FUEL;
  inst_exit : ctx_exit_code c = None;
  inst_memories : len (ctx_memories c) = len (imported_memories (imports m)) + len (memories m);
  inst_tables : len (ctx_tables c) = len (imported_tables (imports m)) + len (tables m);
  inst_globals : len (ctx_globals c) = len (imported_globals (imports m)) + len (globals m);
  inst_hosts : ctx_host_functions c =
    bind_imports (imports m) hfs ++ replicate (length (functions m)) None
}.

Lemma omap_Forall {A B} (P : A → Prop) (Q : B → Prop) (f : A → option B) l :
  Forall P l → (∀ x y, P x → f x = Some y → Q y) → Forall Q (omap f l).
Proof.
  intros Hl Hf. apply Forall_forall. intros y (x & Hx & Hy)%list_elem_of_omap.
  apply (Hf x y); [|done]. rewrite Forall_forall in Hl. by apply Hl.
Qed.

Lemma imported_memories_ok m : module_ok m → Forall memtype_ok (imported_memories (imports m)).
Proof.
  intros Hm. eapply (omap_Forall import_ok); [apply (ok_imports _ Hm)|].
  intros i t Hi. unfold import_ok in Hi. by destruct (import_kind i); intros [= <-].
Qed.

Lemma imported_tables_ok m : module_ok m → Forall tabletype_ok (imported_tables (imports m)).
Proof.
  intros Hm. eapply (omap_Forall import_ok); [apply (ok_imports _ Hm)|].
  intros i t Hi. unfold import_ok in Hi. by destruct (import_kind i); intros [= <-].
Qed.

Lemma new_tables_ok l :
  Forall tabletype_ok l → Forall table_ok (map (λ t, table_new (tt_min t) (tt_max t)) l).
Proof. intros Hl. apply Forall_map. eapply Forall_impl; [exact Hl|]. intros t []. by apply table_new_ok. Qed.

Lemma new_context_ok m hfs :
  module_ok m →
  match new_with_host_functions m hfs with
  | Ok c => instantiated m hfs c
  | Err _ => True
  | Panic => False
  end.
Proof.
  intros Hm. unfold new_with_host_functions.
  pose proof (new_memories_ok _ (imported_memories_ok m Hm)) as Hi.
  pose proof (new_memories_ok _ (proj1 (ok_memories _ Hm))) as Hd.
  destruct (new_memories (imported_memories (imports m))) as [ims| |]; simpl; [|done..].
  destruct (new_memories (memories m)) as [dms| |]; simpl; [|done..].
  set (igs := map _ (imported_globals (imports m))).
  pose proof (new_globals_ok (globals m) igs (proj1 (ok_globals _ Hm))) as Hg.
  assert (Higs : Forall (λ g, value_ok (gv_value g)) igs).
  { apply Forall_map, Forall_true. intros t. apply default_for_ok. }
  specialize (Hg Higs). destruct (new_globals (globals m) igs) as [gs| |]; simpl; [|done..].
  set (c := mkContext _ _ _ _ _ _ _ _ _ _ _).
  assert (Hc : ctx_ok c).
  { split; simpl; [done| | |by apply Hg|intros n [= <-]; unfold INITIAL_FUEL; lia].
    - apply Forall_app. split; [apply Hi|apply Hd].
    - apply new_tables_ok, Forall_app. split; [by apply imported_tables_ok|apply (ok_tables _ Hm)]. }
  pose proof (triple_init_segments (λ e, is_Some e) (λ e, mk_is_Some _ _ eq_refl) (fixed_of c) c (conj Hc eq_refl)) as H1.
  pose proof (shape_init_segments (shape c) c eq_refl) as H2. unfold wp in H1, H2.
  destruct ((init_data_segments;; init_element_segments) c) as [[[]|e|] c'].
  - destruct H1 as [[Hc' _] _]. destruct H2 as [Hs _].
    injection Hs as Hs1 Hs2 Hs3 Hs4 Hs5 Hs6 Hs7. split; try done.
    + rewrite Hs6. simpl. unfold len in *. rewrite length_app. lia.
    + rewrite Hs7. simpl. unfold len in *. rewrite length_map, length_app. lia.
    + rewrite Hs2. simpl. destruct Hg as [_ ->]. unfold igs, len. by rewrite length_map.
  - done.
  - destruct H1 as [_ H1]. by destruct H1.
Qed.

(** ** Properties *)

(** C14. Instantiation.  From a well-formed module,
    [ExecutorContext::new_with_host_functions] builds a context that satisfies
    the invariant of the executor, with one memory, table and global for each
    imported and declared one, the module itself, the initial fuel and the host
    functions bound by name; or it reports an error.  It does not panic, also
    when a segment's offset is out of range. *)
Theorem instantiation_correct m hfs :
  module_ok m →
  match new_with_host_functions m hfs with
  | Ok c => instantiated m hfs c
  | Err _ => True
  | Panic => False
  end.
Proof. apply new_context_ok. Qed.
End instantiate.

(** ** Witnesses *)

Section witnesses.
#[local] Instance plain_embedding : Embedding := {| HostFn := unit; WasiCtx := unit; Wasi2Ctx := unit |}.

(** A module with an imported function, a memory with data, a table and a global. *)
Definition small_module : Module_ :=
  mkModule [mkFunctionType [] []] [mkImport "env" "log" (ImportFunction 0)] []
    [mkTableType TFuncRef 2 (Some 4)] [mkMemoryType 1 (Some 2) false]
    [mkGlobal (mkGlobalType TI64 true) [I64Const (-5)]] [] None
    [mkElement 0 [I32Const 1] [0] false] [] [mkDataSegment 0 [I32Const 16] [1; 2; 3] false] None None.
Definition small_context : ExecutorContext :=
  match new_with_host_functions small_module [mkHostFunction "env" "log" tt None] with
  | Ok c => c
  | _ => mkContext small_module [] [] [] [] None [] [] None None None
  end.

Lemma instantiation_correct_witness :
  new_with_host_functions small_module [mkHostFunction "env" "log" tt None] = Ok small_context ∧
  instantiated small_module [mkHostFunction "env" "log" tt None] small_context.
Proof.
  assert (Hok : module_ok small_module) by (constructor; unfold small_module; ok_tac).
  assert (He : new_with_host_functions small_module [mkHostFunction "env" "log" tt None] = Ok small_context)
    by reflexivity.
  split; [exact He|].
  pose proof (instantiation_correct small_module [mkHostFunction "env" "log" tt None] Hok) as Hc.
  rewrite He in Hc. exact Hc.
Defined.
End witnesses.
