(* ===== verification/Demo.v ===== *)
(** A concrete embedding and a small module that exercises it: an imported host
    function, calls, a loop, a memory with a data segment, a table and a global.
    The theorems about every embedding and every module are applied to it. *)

From S2P Require Import Prelude Types Memory Machine Floats Numeric Context Executor Invariant.
From S2P Require Import Instantiate.

(** Host functions are bytes; calling one appends it to the output. *)
Definition demo_embedding : Embedding := {| HostFn := Z; WasiCtx := unit; Wasi2Ctx := unit |}.
#[local] Existing Instance demo_embedding.

Definition demo_host : HostCalls := λ f args c,
  (Ok [], mkContext (ctx_module c) (ctx_memories c) (ctx_tables c) (ctx_globals c)
            (ctx_host_functions c) (ctx_fuel c) (ctx_stdout c ++ [f]) (ctx_stderr c)
            (ctx_exit_code c) (ctx_wasi c) (ctx_wasi2 c)).
#[local] Existing Instance demo_host.

Lemma demo_hosts_keep hosts : hosts_keep hosts.
Proof. intros hf fx args _ _ c [Hc Hf]. split; [|done]. split; [|done]. destruct Hc. by split. Qed.

(** Function 0 is the host's [log]; function 1 the factorial of its argument,
    by a loop; function 2 logs, stores the factorial of 5 and loads it. *)
Definition demo_code : list FunctionBody :=
  [ mkFunctionBody [(1, TI32)]
      [ I32Const 1; LocalSet 1;
        Block BT_Empty;
          Loop BT_Empty;
            LocalGet 0; I32Eqz; BrIf 1;
            LocalGet 1; LocalGet 0; I32Mul; LocalSet 1;
            LocalGet 0; I32Const 1; I32Sub; LocalSet 0;
            Br 0;
          End;
        End;
        LocalGet 1; End ] [];
    mkFunctionBody []
      [ Call 0; I32Const 8; I32Const 5; Call 1; I32Store 2 0;
        I32Const 4; I32Load 2 4; End ] [] ].
Definition demo_module : Module_ :=
  mkModule [mkFunctionType [] []; mkFunctionType [TI32] [TI32]; mkFunctionType [] [TI32]]
    [mkImport "env" "log" (ImportFunction 0)] [1; 2] [mkTableType TFuncRef 2 (Some 4)]
    [mkMemoryType 1 (Some 2) false] [mkGlobal (mkGlobalType TI64 true) [I64Const (-5)]]
    [mkExport "fac" ExportFunction 1; mkExport "main" ExportFunction 2] None
    [mkElement 0 [I32Const 1] [1] false] demo_code [mkDataSegment 0 [I32Const 16] [1; 2; 3] false]
    (Some "demo") None.

Lemma demo_module_ok : module_ok demo_module.
Proof. constructor; unfold demo_module, demo_code; ok_tac. Qed.

Definition demo_context : ExecutorContext :=
  match new_with_host_functions demo_module [mkHostFunction "env" "log" 33 None] with
  | Ok c => c
  | _ => mkContext demo_module [] [] [] [] None [] [] None None None
  end.

Lemma demo_instantiates :
  new_with_host_functions demo_module [mkHostFunction "env" "log" 33 None] = Ok demo_context.
Proof. reflexivity. Qed.

Lemma demo_context_ok : instantiated demo_module [mkHostFunction "env" "log" 33 None] demo_context.
Proof.
  pose proof (new_context_ok demo_module [mkHostFunction "env" "log" 33 None] demo_module_ok) as Hc.
  by rewrite demo_instantiates in Hc.
Qed.

(** A module without branches: its function divides its arguments. *)
Definition div_body : FunctionBody :=
  mkFunctionBody [] [Block (BT_Value TI32); LocalGet 0; LocalGet 1; I32DivS; End; End] [].
Definition div_module : Module_ :=
  mkModule [mkFunctionType [TI32; TI32] [TI32]] [] [0] [] [] [] [mkExport "div" ExportFunction 0]
    None [] [div_body] [] None None.

Lemma div_module_ok : module_ok div_module.
Proof. constructor; unfold div_module, div_body; ok_tac. Qed.

Definition div_context : ExecutorContext :=
  mkContext div_module [] [] [] [None] (Some 10) [] [] None None None.

Lemma div_context_ok : ctx_ok div_context.
Proof. split; [apply div_module_ok|constructor..|by intros n [= <-]]. Qed.
