(* ===== verification/Loop.v ===== *)
(** The main loop of the executor: what one iteration does to the invariant,
    and that a run ends.

    Every iteration either uses one unit of fuel or leaves a frame, so twice
    the fuel plus the number of frames decreases and bounds the iterations.
    Host functions are what the embedding supplies; [hosts_keep] states what
    the executor relies on, for those that are bound. *)

From S2P Require Import Prelude Types Memory Machine Floats Numeric Context Executor Invariant.
From S2P Require Import Instantiate Demo.

Section main_loop.
Context `{Embedding} `{!HostCalls} `{FloatEnv}.

(** States the loop can reach from [s]. *)
Inductive reachable (s : exec_state) : exec_state → Prop :=
| reach_refl : reachable s s
| reach_step s1 s2 : reachable s s1 → loop_step s1 = (Ok true, s2) → reachable s s2.

(** No instruction of the code is one that can panic. *)
Definition panic_free (code : list FunctionBody) : Prop :=
  Forall (λ b, Forall (λ i, may_panic i = false) (instructions b)) code.

(** The fuel that is left after an instruction. *)
Definition burn (fuel : option Z) : option Z := option_map (λ f, f - 1) fuel.

(** [s] satisfies the invariant for the same code, with [d] frames. *)
Definition loop_inv (fx : ctx_fixed) (d : Z) (s : exec_state) : Prop :=
  state_inv fx d 0 s ∧ 0 < d ≤ MAX_CALL_STACK_DEPTH.

Definition same_code (fx fx' : ctx_fixed) : Prop :=
  fx_imports fx' = fx_imports fx ∧ fx_code fx' = fx_code fx ∧ fx_hosts fx' = fx_hosts fx.

(** What an iteration from [d] frames achieves; [b] tells whether it goes on. *)
Definition advanced (fx : ctx_fixed) (d : Z) (b : bool) (s : exec_state) : Prop :=
  ∃ fx' d', state_inv fx' d' 0 s ∧ same_code fx fx' ∧ d' ≤ MAX_CALL_STACK_DEPTH ∧
    (if b then 0 < d' else d' = 0) ∧
    ((fx_fuel fx' = fx_fuel fx ∧ d' = d - 1) ∨
     (fx_fuel fx' = burn (fx_fuel fx) ∧ fx_fuel fx ≠ Some 0 ∧ d' ≤ d + 1)).

(** Where a trap or a panic leaves the state. *)
Definition settled (fx : ctx_fixed) (s : exec_state) : Prop :=
  ∃ fx' d, state_inv fx' d 0 s ∧ same_code fx fx'.

Lemma state_inv_weaken fx d p p' s : state_inv fx d p s → p' ≤ p → state_inv fx d p' s.
Proof. intros [] Hp. split; try done. intros fr l Hc. etrans; [done|eauto]. Qed.

Lemma frame_ok_pc0 fx fr : frame_ok fx fr → 0 ≤ cf_pc fr.
Proof. by intros []. Qed.

(** The invariant with fewer frames. *)
Lemma state_inv_tail fx d p s :
  0 < d → state_inv fx d p s → state_inv fx (d - 1) 0 (set_calls (tail (st_calls s)) s).
Proof.
  intros Hd [? ? Hfr Hlen ?]. destruct (st_calls s) as [|fr l]; [unfold len in Hlen; simpl in Hlen; lia|].
  apply Forall_cons in Hfr as [_ Hfr]. unfold len in *. simpl in *.
  split; simpl; try done; [unfold len; lia|]. intros fr' l' ->.
  apply Forall_cons in Hfr as [Hok _]. by eapply frame_ok_pc0.
Qed.

(** The invariant with another frame. *)
Lemma state_inv_cons fx d p s fr :
  state_inv fx d p s → frame_ok fx fr → state_inv fx (d + 1) 0 (set_calls (fr :: st_calls s) s).
Proof.
  intros [? ? Hfr Hlen ?] Hok. split; simpl; try done.
  - by constructor.
  - unfold len in *. simpl. lia.
  - intros ? ? [= <- <-]. by eapply frame_ok_pc0.
Qed.

Lemma state_inv_stack fx d p s st :
  state_inv fx d p s → stack_ok st → state_inv fx d p (set_stack st s).
Proof. intros [] Hst. by split. Qed.

Lemma param_locals_ok ps : ∀ args, Forall value_ok args → Forall value_ok (param_locals ps args).
Proof.
  induction ps as [|t ps IH]; intros args Hargs; simpl; [constructor|].
  destruct args as [|a args]; constructor; try apply default_for_ok; try apply IH; try done;
    by apply Forall_cons in Hargs as [].
Qed.

Lemma declared_locals_ok l : Forall value_ok (declared_locals l).
Proof.
  apply Forall_concat, Forall_map, Forall_true. intros d.
  apply Forall_replicate, default_for_ok.
Qed.

Lemma new_frame_ok fx idx ft body args base :
  count_if is_function_import (fx_imports fx) ≤ idx →
  vget (fx_code fx) (idx - count_if is_function_import (fx_imports fx)) = Some body →
  Forall value_ok args → 0 ≤ base → frame_ok fx (new_frame idx ft body args base).
Proof.
  intros Hi Hb Hargs Hbase. split; simpl; try done.
  - exists body. split; [done|lia].
  - apply Forall_app. split; [by apply param_locals_ok|apply declared_locals_ok].
  - apply len_nonneg.
  - apply Forall_singleton. unfold block_ok. simpl. pose proof (len_nonneg (results ft)). lia.
Qed.

(** ** One iteration *)

Section step.
Context (X : option TrapError → Prop) (HX : ∀ e, X (Some e)).

(** The failures of the bound host functions are among [X]. *)
Definition hosts_fit (hosts : list (option HostFunction)) : Prop :=
  ∀ hf fx args, Some hf ∈ hosts → Forall value_ok args →
    triple (ctx_inv fx) X (host_call (hf_func hf) args) (Forall value_ok).

Definition failed (fx : ctx_fixed) (e : option TrapError) (s : exec_state) : Prop :=
  settled fx s ∧ X e.

Lemma inv_failed fx fx' d p e s :
  state_inv fx' d p s → 0 ≤ p → same_code fx fx' → X e → failed fx e s.
Proof. intros. split; [|done]. exists fx', d. split; [by eapply state_inv_weaken|done]. Qed.

(** Where the handling of a control flow leaves the state. *)
Definition landed (fx : ctx_fixed) (d : Z) (b : bool) (s : exec_state) : Prop :=
  state_inv fx d 0 s ∧ if b then 0 < d else d = 0.

Lemma more_frames_ok fx d s Y : state_inv fx d 0 s → wp more_frames (landed fx d) Y s.
Proof.
  intros Hs. apply wp_gets. split; [done|]. destruct Hs as [_ _ _ Hlen _].
  unfold len in Hlen. destruct (st_calls s); simpl in *; lia.
Qed.

Lemma function_end_ok fx d p s fr :
  0 < d → 0 ≤ cf_stack_base fr → state_inv fx d p s →
  wp (function_end fr) (landed fx (d - 1)) (failed fx) s.
Proof.
  intros Hd Hb Hs. apply wp_bind, wp_modify, wp_bind.
  eapply (triple_wp _ _ _ (λ _, True)); [by apply triple_on_stack, triple_unwind|by eapply state_inv_tail|..].
  - intros _ s' Hs' _. by apply more_frames_ok.
  - intros e s' Hs' He. by eapply inv_failed.
Qed.

Lemma do_return_ok fx d s :
  0 < d → state_inv fx d 1 s → wp do_return (landed fx (d - 1)) (failed fx) s.
Proof.
  intros Hd Hs. apply wp_bind.
  eapply (triple_wp _ X); [by apply triple_cur_frame|done|..];
    [|intros e s' Hs' He; by eapply inv_failed].
  clear s Hs. intros fr s Hs [Hfr _]. apply wp_bind, wp_gets. cbv zeta.
  pose proof (inv_stack _ _ _ _ Hs) as Hst. unfold collect_results.
  destruct (collect_go_ok X HX (Z.to_nat (Z.min (cf_return_arity fr)
    (Z.max 0 (stack_len (st_stack s) - cf_stack_base fr)))) [] (st_stack s)) as [Hr Hst'];
    [constructor|done|].
  destruct (collect_go _ [] _) as [rs st]. simpl in Hr, Hst'.
  apply wp_bind, wp_gets, wp_bind, wp_modify, wp_bind, wp_modify, wp_bind.
  pose proof (state_inv_tail _ _ _ _ Hd Hs) as Ht.
  eapply (triple_wp _ X _ (λ _, True)); [by apply triple_on_stack, triple_push_all| |
    intros _ s' Hs' _; by apply more_frames_ok|intros e s' Hs' He; by eapply inv_failed].
  apply state_inv_stack; [done|]. apply truncate_ok; [by destruct Hfr|].
  destruct (tail (st_calls s)) as [|parent l] eqn:Ec; [done|]. apply truncate_ok; [|done].
  destruct Ht as [_ _ Hf _ _]. simpl in Hf. apply Forall_cons in Hf as [[] _]. lia.
Qed.

Lemma call_host_ok fx idx args :
  hosts_fit (fx_hosts fx) → Forall value_ok args →
  triple (ctx_inv fx) X (call_host_function idx args) (Forall value_ok).
Proof.
  intros Hh Hargs c Hc. apply wp_bind, wp_get.
  destruct (vget (ctx_host_functions c) idx) as [[hf|]|] eqn:Ef; try (split; [done|apply HX]).
  apply (Hh hf); [|done..]. destruct Hc as [_ <-]. by apply vget_Some in Ef as [_ ?%list_elem_of_lookup_2].
Qed.

Lemma do_call_ok fx d s idx args :
  hosts_fit (fx_hosts fx) → 0 < d → state_inv fx d 1 s → Forall value_ok args →
  wp (do_call idx args)
    (λ b s', b = true ∧ ∃ d', state_inv fx d' 0 s' ∧ d ≤ d' ≤ d + 1 ∧
       (d ≤ MAX_CALL_STACK_DEPTH → d' ≤ MAX_CALL_STACK_DEPTH))
    (failed fx) s.
Proof.
  intros Hh Hd Hs Hargs. apply wp_bind, wp_gets. destruct (Z.leb_spec MAX_CALL_STACK_DEPTH (len (st_calls s))).
  { by eapply inv_failed. }
  pose proof Hs as [[Hc Hfx] Hst _ Hlen _]. apply wp_bind, wp_gets.
  destruct (is_host_function (st_ctx s) idx) eqn:Eh.
  - apply wp_bind. eapply (triple_wp _ X); [by apply triple_on_ctx, call_host_ok|done|..];
      [|intros e s' Hs' He; by eapply inv_failed].
    intros rs s' Hs' Hrs. apply wp_bind.
    eapply (triple_wp _ X _ (λ _, True)); [by apply triple_on_stack, triple_push_all|done|..];
      [|intros e s'' Hs'' He; by eapply inv_failed].
    intros _ s'' Hs'' _. apply wp_ret. split; [done|]. exists d.
    split; [by eapply state_inv_weaken|lia].
  - unfold is_host_function in Eh. apply Z.ltb_ge in Eh. subst fx.
    apply wp_bind, wp_ok_or; [|intros _; by eapply inv_failed]. intros ft _.
    apply wp_bind. unfold sub_or_panic. destruct (Z.ltb_spec idx (import_function_count (ctx_module (st_ctx s))));
      [lia|].
    apply wp_ret, wp_bind, wp_ok_or; [|intros _; by eapply inv_failed]. intros body Hb.
    apply wp_bind, wp_gets, wp_bind, wp_modify, wp_ret. split; [done|]. exists (d + 1).
    split; [|lia]. apply (state_inv_cons _ _ 1); [done|].
    apply new_frame_ok; try done. apply len_nonneg.
Qed.

Definition burned (fx : ctx_fixed) : ctx_fixed :=
  mkFixed (burn (fx_fuel fx)) (fx_imports fx) (fx_code fx) (fx_hosts fx).

Lemma frames_burned fx l : Forall (frame_ok fx) l → Forall (frame_ok (burned fx)) l.
Proof. intros Hl. eapply Forall_impl; [done|]. intros fr []. by split. Qed.

Lemma consume_fuel_ok fx d s :
  state_inv fx d 1 s →
  wp (on_ctx consume_fuel) (λ _ s', state_inv (burned fx) d 1 s' ∧ fx_fuel fx ≠ Some 0)
    (failed fx) s.
Proof.
  intros Hs. apply wp_zoom. pose proof Hs as [[Hc Hfx] ? Hfr ? ?].
  unfold wp, consume_fuel. destruct (ctx_fuel (st_ctx s)) as [f|] eqn:Ef.
  - zcase.
    + eapply inv_failed; try done.
    + split; [|subst fx; simpl; congruence]. split; simpl; try done; [|by apply frames_burned].
      destruct Hc as [? ? ? ? Hf]. split; [|subst fx; unfold fixed_of, burned; simpl; by rewrite Ef].
      split; try done. simpl. intros k [= <-]. specialize (Hf f Ef). lia.
  - split; [|subst fx; simpl; congruence]. split; simpl; try done; [|by apply frames_burned].
    split; [done|]. subst fx. unfold burned, fixed_of. simpl. by rewrite Ef.
Qed.

Lemma landed_advanced fx d d' b s :
  d ≤ MAX_CALL_STACK_DEPTH → d' ≤ d → fx_fuel fx ≠ Some 0 → landed (burned fx) d' b s → advanced fx d b s.
Proof.
  intros Hd Hd' Hf [Hs Hb]. exists (burned fx), d'. split_and!; try done; [lia|].
  right. split_and!; try done. lia.
Qed.

Lemma frame_instr_ok fx d p s fr b i :
  state_inv fx d p s → frame_body fx fr = Some b → i ∈ instructions b → instr_ok i.
Proof.
  intros [[[Hm _ _ _ _] <-] _ _ _ _] Hb Hi. destruct Hm as [_ _ _ _ _ _ _ _ _ [Hc _] _ _].
  apply (vget_Forall _ _ _ _ Hc) in Hb as (_ & _ & Hb & _). by eapply Forall_forall in Hi.
Qed.

(** Advancing the program counter before the instruction runs. *)
Lemma enter_instr fx d s fr b :
  0 < d → state_inv fx d 0 s → frame_ok fx fr → frame_body fx fr = Some b →
  cf_pc fr < len (instructions b) →
  wp (set_frame (with_pc (cf_pc fr + 1) fr)) (λ _, state_inv fx d 1) (λ _ _, False) s.
Proof.
  intros Hd [? ? Hfr Hlen _] [Hl (b' & Hb' & Hn) ? Hpc ? ? ?] Hb Hlt. unfold wp, set_frame.
  destruct (st_calls s) as [|fr' l]; [unfold len in Hlen; simpl in Hlen; lia|].
  apply Forall_cons in Hfr as [_ Hfr]. split; simpl; try done.
  - constructor; [|done]. split; simpl; try done; [|lia]. exists b. split; [done|lia].
  - intros ? ? [= <- <-]. simpl. lia.
Qed.

(** The main loop's match on the control flow of an instruction. *)
Lemma flow_ok_advanced fx d flow s :
  hosts_fit (fx_hosts fx) → 0 < d ≤ MAX_CALL_STACK_DEPTH → fx_fuel fx ≠ Some 0 → state_inv (burned fx) d 1 s → flow_ok flow →
  wp match flow with
     | CF_Continue => mret true
     | CF_Return => do_return
     | CF_CallFunction target_idx target_args => do_call target_idx target_args
     | CF_Exit code => on_ctx (modify (with_exit_code (Some code)));; throw (TrapProcessExit code)
     end (advanced fx d) (failed fx) s.
Proof.
  intros Hh Hd Hf Hs Hflow. destruct flow as [| |idx args|]; [| | |done].
  - apply wp_ret. eapply landed_advanced; [lia|done|done|].
    split; [by eapply state_inv_weaken|lia].
  - eapply wp_mono; [apply (do_return_ok (burned fx) d); [lia|done]| |done].
    intros b s' Hl. eapply landed_advanced, Hl; [lia..|done].
  - eapply wp_mono; [apply (do_call_ok (burned fx) d); [done|lia|done..]| |done].
    intros b s' (-> & d' & Hs' & Hd' & Hm). exists (burned fx), d'.
    split_and!; try done; [lia..|]. right. split_and!; [done..|lia].
Qed.

Lemma loop_step_ok fx d s :
  loop_inv fx d s → hosts_fit (fx_hosts fx) → (panic_free (fx_code fx) ∨ X None) →
  wp loop_step (advanced fx d) (failed fx) s.
Proof.
  intros [Hs Hd] Hh HN. apply wp_bind, wp_gets. pose proof Hs as [_ _ Hfr Hlen _].
  destruct (st_calls s) as [|fr l] eqn:Ec; [unfold len in Hlen; simpl in Hlen; lia|].
  apply Forall_cons in Hfr as [Hfr _]. apply wp_bind.
  eapply (triple_wp _ X); [by apply triple_instructions|done|..];
    [|intros e s' Hs' He; by eapply inv_failed].
  clear s Hs Ec Hlen. intros instrs s Hs [(b & Hb & ->) _]. zcase.
  { eapply wp_mono; [apply (function_end_ok fx d 0); [lia|by destruct Hfr|done]| |done].
    intros b' s' [Hs' Hb']. exists fx, (d - 1). split_and!; try done; [lia|by left]. }
  apply wp_bind, wp_unwrap; [|intros Hn; apply vget_None in Hn; [lia|by destruct Hfr]].
  intros i Hi. apply wp_bind.
  eapply (wp_mono _ (λ _, state_inv fx d 1)); [apply (enter_instr fx d s fr b); [lia|done..|lia]| |done].
  clear s Hs. intros _ s Hs. apply wp_bind. eapply wp_mono; [by apply consume_fuel_ok| |done].
  clear s Hs. intros _ s [Hs Hfuel]. apply wp_bind. apply vget_Some in Hi as [_ Hi%list_elem_of_lookup_2].
  eapply (triple_wp _ X); [apply (triple_execute X HX (burned fx) d); [lia|..]|done|..].
  - by apply (frame_instr_ok (burned fx) d 1 s fr b).
  - intros Hp. destruct HN as [HN|]; [|done]. apply (vget_Forall _ _ _ _ HN) in Hb.
    rewrite Forall_forall in Hb. specialize (Hb i Hi). congruence.
  - clear s Hs. intros flow s Hs Hflow. by apply flow_ok_advanced.
  - intros e s' Hs' He. by eapply inv_failed.
Qed.
End step.

(** ** Runs *)

Section runs.

Lemma advanced_loop_inv fx d s :
  advanced fx d true s → ∃ fx' d', loop_inv fx' d' s ∧ same_code fx fx' ∧
    ((fx_fuel fx' = fx_fuel fx ∧ d' = d - 1) ∨
     (fx_fuel fx' = burn (fx_fuel fx) ∧ fx_fuel fx ≠ Some 0 ∧ d' ≤ d + 1)).
Proof. intros (fx' & d' & ? & ? & ? & ? & ?). exists fx', d'. by split. Qed.

Lemma same_code_trans fx fx' fx'' : same_code fx fx' → same_code fx' fx'' → same_code fx fx''.
Proof. intros (? & ? & ?) (? & ? & ?). split_and!; congruence. Qed.

Lemma settled_trans fx fx' s : same_code fx fx' → settled fx' s → settled fx s.
Proof. intros ? (fx'' & d & ? & ?). exists fx'', d. split; [done|by eapply same_code_trans]. Qed.

#[global] Instance panic_free_dec code : Decision (panic_free code).
Proof. apply _. Defined.

#[global] Instance unbound_dec hosts : Decision (unbound hosts).
Proof. apply Forall_dec. intros []; [by right|by left]. Defined.

(** Code that does not panic and calls no host function. *)
Definition quiet (code : list FunctionBody) (hosts : list (option HostFunction)) : Prop :=
  panic_free code ∧ unbound hosts.

(** The failures a run of [code] can end in. *)
Definition may_fail (code : list FunctionBody) (hosts : list (option HostFunction)) (e : option TrapError) : Prop :=
  quiet code hosts → is_Some e.

Lemma hosts_may_fail code hosts : hosts_keep hosts → hosts_fit (may_fail code hosts) hosts.
Proof.
  intros Hk hf fx args Hin Hargs c Hc. eapply wp_mono; [by apply (Hk hf fx args)|done|].
  intros e s' [? _]. split; [done|]. intros [_ Hu]. by apply (proj1 (Forall_forall _ _) Hu) in Hin.
Qed.

Lemma step_ok fx d s :
  hosts_keep (fx_hosts fx) → loop_inv fx d s →
  wp loop_step (advanced fx d) (failed (may_fail (fx_code fx) (fx_hosts fx)) fx) s.
Proof.
  intros Hk Hs. apply loop_step_ok; [by intros e ?; eexists|done|by apply hosts_may_fail|].
  destruct (decide (panic_free (fx_code fx))) as [|Hn]; [by left|right; by intros []].
Qed.

Lemma reachable_inv fx d s s' :
  hosts_keep (fx_hosts fx) → loop_inv fx d s → reachable s s' → ∃ fx' d', loop_inv fx' d' s' ∧ same_code fx fx'.
Proof.
  intros Hk Hs. induction 1 as [|s1 s2 _ (fx1 & d1 & Hs1 & Hc1) Hstep]; [by exists fx, d|].
  rewrite <-(proj2 (proj2 Hc1)) in Hk. pose proof (step_ok _ _ _ Hk Hs1) as Hw. unfold wp in Hw. rewrite Hstep in Hw.
  apply advanced_loop_inv in Hw as (fx2 & d2 & ? & ? & _). exists fx2, d2.
  split; [done|by eapply same_code_trans].
Qed.

(** How a run ends. *)
Definition ended (fx : ctx_fixed) (o : outcome TrapError unit) (s : exec_state) : Prop :=
  settled fx s ∧
  match o with
  | Ok _ => st_calls s = []
  | Err _ => True
  | Panic => ¬ quiet (fx_code fx) (fx_hosts fx)
  end.

Lemma run_loop_ok n : ∀ fx d s o s',
  hosts_keep (fx_hosts fx) → loop_inv fx d s → run_loop n s = Some (o, s') → ended fx o s'.
Proof.
  induction n as [|n IH]; intros fx d s o s' Hk Hs; simpl; [done|].
  pose proof (step_ok _ _ _ Hk Hs) as Hw. unfold wp in Hw.
  destruct (loop_step s) as [[[]|e|] s1].
  - intros Hr. apply advanced_loop_inv in Hw as (fx1 & d1 & Hs1 & Hc & _).
    pose proof Hc as (_ & Hcode & Hh). rewrite <-Hh in Hk.
    destruct (IH _ _ _ _ _ Hk Hs1 Hr) as [Hset Ho]. split; [by eapply settled_trans|].
    by rewrite <-Hcode, <-Hh.
  - intros [= <- <-]. destruct Hw as (fx1 & d1 & Hs1 & Hc & _ & Hd1 & _). split; [by exists fx1, d1|].
    destruct Hs1 as [_ _ _ Hlen _]. rewrite Hd1 in Hlen. unfold len in Hlen. apply nil_length_inv. lia.
  - intros [= <- <-]. by destruct Hw.
  - intros [= <- <-]. destruct Hw as [Hset Hf]. split; [done|]. intros Hp. by destruct (Hf Hp).
Qed.

Lemma fuel_nonneg fx d p s f : state_inv fx d p s → fx_fuel fx = Some f → 0 ≤ f.
Proof. intros [[[_ _ _ _ Hf] <-] _ _ _ _] Hfx. by apply Hf. Qed.

Lemma run_loop_ends n : ∀ fx d s f,
  hosts_keep (fx_hosts fx) → loop_inv fx d s → fx_fuel fx = Some f → 2 * f + d < Z.of_nat n →
  ∃ o s', run_loop n s = Some (o, s').
Proof.
  induction n as [|n IH]; intros fx d s f Hk Hs Hf Hn.
  - destruct Hs as [Hs ?]. pose proof (fuel_nonneg _ _ _ _ _ Hs Hf). lia.
  - simpl. pose proof (step_ok _ _ _ Hk Hs) as Hw. unfold wp in Hw.
    destruct (loop_step s) as [[[]|e|] s1]; eauto.
    apply advanced_loop_inv in Hw as (fx1 & d1 & Hs1 & (_ & _ & Hh) & [[Hf1 ->]|(Hf1 & _ & Hd1)]);
      rewrite Hf in Hf1; rewrite <-Hh in Hk.
    + apply (IH _ _ _ f Hk Hs1 Hf1). lia.
    + apply (IH _ _ _ (f - 1) Hk Hs1 Hf1). lia.
Qed.

Lemma run_loop_more n n' s r : run_loop n s = Some r → (n ≤ n')%nat → run_loop n' s = Some r.
Proof.
  revert n' s. induction n as [|n IH]; intros [|n'] s Hr Hle; simpl in *; try done; [lia|].
  destruct (loop_step s) as [[[]|e|] s1]; try done. apply IH; [done|lia].
Qed.

Lemma initial_inv ctx idx ft body args :
  ctx_ok ctx → Forall value_ok args → is_host_function ctx idx = false →
  vget (code (ctx_module ctx)) (idx - import_function_count (ctx_module ctx)) = Some body →
  loop_inv (fixed_of ctx) 1 (initial_state ctx idx ft body args).
Proof.
  intros Hc Hargs Hh%Z.ltb_ge Hb. split; [|unfold MAX_CALL_STACK_DEPTH; lia].
  split; simpl; [by split|apply stack_new_ok|..].
  - apply Forall_singleton. by apply new_frame_ok.
  - done.
  - by intros ? ? [= <- <-].
Qed.

(** [execute_function] either returns at once or runs the loop. *)
Lemma execute_function_cases ctx idx args :
  (∃ r, ∀ n, execute_function n ctx idx args = Some r ∧
     (r = call_host_function idx args ctx ∧ is_host_function ctx idx = true ∨
      r = (Err (TrapFunctionNotFound idx), ctx))) ∨
  ∃ ft body, is_host_function ctx idx = false ∧ func_type ctx idx = Some ft ∧
    vget (code (ctx_module ctx)) (idx - import_function_count (ctx_module ctx)) = Some body ∧
    ∀ n, execute_function n ctx idx args =
      match run_loop n (initial_state ctx idx ft body args) with
      | None => None
      | Some (Ok _, s) =>
          let k := Z.min (len (results ft)) (stack_len (st_stack s)) in
          Some (Ok (collect_go (Z.to_nat k) [] (st_stack s)).1, st_ctx s)
      | Some (Err e, s) => Some (Err e, st_ctx s)
      | Some (Panic, s) => Some (Panic, st_ctx s)
      end.
Proof.
  unfold execute_function. destruct (is_host_function ctx idx) eqn:Eh; [left; eauto|].
  destruct (func_type ctx idx) as [ft|] eqn:Ef; [|left; eauto].
  destruct (vget _ _) as [body|] eqn:Eb; [|left; eauto].
  right. exists ft, body. by split_and!.
Qed.

(** What holds of the outcome of a call into [ctx]. *)
Definition good_outcome (ctx : ExecutorContext) (r : outcome TrapError (list WasmValue) * ExecutorContext)
    : Prop :=
  ctx_ok r.2 ∧ imports (ctx_module r.2) = imports (ctx_module ctx) ∧
  code (ctx_module r.2) = code (ctx_module ctx) ∧
  match r.1 with
  | Ok vs => Forall value_ok vs
  | Err _ => True
  | Panic => ¬ quiet (code (ctx_module ctx)) (ctx_host_functions ctx)
  end.

Lemma execute_function_good n ctx idx args r :
  hosts_keep (ctx_host_functions ctx) → ctx_ok ctx → Forall value_ok args → execute_function n ctx idx args = Some r → good_outcome ctx r.
Proof.
  intros Hk Hc Hargs He.
  destruct (execute_function_cases ctx idx args)
    as [(r' & Hr)|(ft & body & Hh & Hft & Hb & Hr)].
  - destruct (Hr n) as [Hr' Hcase]. rewrite Hr' in He. injection He as ->.
    destruct Hcase as [[-> _]| ->]; [|by split_and!].
    pose proof (call_host_ok (may_fail (code (ctx_module ctx)) (ctx_host_functions ctx)) (λ e _, mk_is_Some _ _ eq_refl)
      (fixed_of ctx) idx args (hosts_may_fail _ _ Hk) Hargs ctx (conj Hc eq_refl)) as Hw. unfold wp in Hw.
    destruct (call_host_function idx args ctx) as [[vs|e|] c']; destruct Hw as [[? Hfx] Hq];
      injection Hfx; intros; split_and!; try done. simpl. intros Hq'. by destruct (Hq Hq').
  - rewrite Hr in He. pose proof (initial_inv ctx idx ft body args Hc Hargs Hh Hb) as Hi.
    destruct (run_loop n _) as [[o s]|] eqn:Er; [|done].
    destruct (run_loop_ok n (fixed_of ctx) _ _ _ _ Hk Hi Er) as [(fx & d & Hs & Hcode & Himp & _) Ho].
    destruct Hs as [[Hc' <-] Hst _ _ _].
    destruct o as [u|e|]; injection He as <-; split_and!; try done. simpl.
    by apply (collect_go_ok (λ _, True)).
Qed.

Lemma execute_function_ends ctx idx args f n :
  hosts_keep (ctx_host_functions ctx) → ctx_ok ctx → Forall value_ok args → ctx_fuel ctx = Some f → 2 * f + 1 < Z.of_nat n →
  is_Some (execute_function n ctx idx args).
Proof.
  intros Hk Hc Hargs Hf Hn.
  destruct (execute_function_cases ctx idx args)
    as [(r' & Hr)|(ft & body & Hh & Hft & Hb & Hr)].
  - destruct (Hr n) as [-> _]. eauto.
  - rewrite Hr. pose proof (initial_inv ctx idx ft body args Hc Hargs Hh Hb) as Hi.
    destruct (run_loop_ends n (fixed_of ctx) _ _ f Hk Hi Hf Hn) as (o & s & ->). destruct o; eauto.
Qed.

Lemma execute_function_more n n' ctx idx args r :
  execute_function n ctx idx args = Some r → (n ≤ n')%nat → execute_function n' ctx idx args = Some r.
Proof.
  intros He Hle. destruct (execute_function_cases ctx idx args)
    as [(r' & Hr)|(ft & body & Hh & Hft & Hb & Hr)].
  - rewrite <-He. by rewrite (proj1 (Hr n)), (proj1 (Hr n')).
  - rewrite Hr in *. destruct (run_loop n _) as [x|] eqn:Er; [|done].
    by rewrite (run_loop_more _ _ _ _ Er Hle).
Qed.
End runs.

(** ** Properties *)

(** C1. The invariant of a run.  Let the host functions that are bound leave a
    well-formed context with the same fuel, code and bindings, whether they return,
    trap or panic, and return values in the range of their types.  Then every state
    the main loop reaches from a call of a function with a body, in a well-formed
    context and with arguments in the range of their types, keeps at most 16384 operands and between 1
    and 1024 frames, all operands and locals stay in the range of their type,
    every frame runs an existing function body at a program counter that is not
    negative, memories, tables, globals and the module stay well formed, and the
    code does not change. *)
Theorem executor_invariant ctx idx ft body args s :
  hosts_keep (ctx_host_functions ctx) →
  ctx_ok ctx → Forall value_ok args → is_host_function ctx idx = false →
  vget (code (ctx_module ctx)) (idx - import_function_count (ctx_module ctx)) = Some body →
  reachable (initial_state ctx idx ft body args) s →
  ctx_ok (st_ctx s) ∧ code (ctx_module (st_ctx s)) = code (ctx_module ctx) ∧
  Forall value_ok (values (st_stack s)) ∧ stack_len (st_stack s) ≤ MAX_VALUE_STACK_DEPTH ∧
  0 < len (st_calls s) ≤ MAX_CALL_STACK_DEPTH ∧
  Forall (λ fr, Forall value_ok (cf_locals fr) ∧ 0 ≤ cf_pc fr ∧ is_Some (frame_body (fixed_of ctx) fr))
    (st_calls s).
Proof.
  intros Hk Hc Hargs Hh Hb Hr.
  destruct (reachable_inv (fixed_of ctx) _ _ _ Hk (initial_inv ctx idx ft body args Hc Hargs Hh Hb) Hr)
    as (fx & d & [[[Hc' <-] [Hv Hd Hm] Hfr <- _] Hlen] & Hi & Hcode & _).
  split_and!; try done; [by rewrite <-Hm|lia..|]. eapply Forall_impl; [exact Hfr|].
  intros fr [? (b & Hbody & _) ? ? ? ? ?]. split_and!; [done..|]. exists b.
  unfold frame_body in *. by rewrite <-Hi, <-Hcode.
Qed.

(** C2. Fuel bounds a run.  Let the host functions that are bound leave a well-formed
    context with the same fuel, code and bindings, whether they return, trap or
    panic, and return values in the range of their types.  In a well-formed
    context with [f] units of fuel, and with arguments in range, a call of any
    function, of any module and whatever its loops and recursion, is over after at most [2 * f + 2] iterations of the main loop, with
    a result or a trap or a panic; more iterations would not change the outcome.
    The context it leaves is well formed, with the same code. *)
Theorem execution_terminates ctx idx args f :
  hosts_keep (ctx_host_functions ctx) →
  ctx_ok ctx → Forall value_ok args → ctx_fuel ctx = Some f →
  ∃ r, good_outcome ctx r ∧
    ∀ n, 2 * f + 2 ≤ Z.of_nat n → execute_function n ctx idx args = Some r.
Proof.
  intros Hk Hc Hargs Hf. pose proof (ok_ctx_fuel _ Hc f Hf).
  destruct (execute_function_ends ctx idx args f (Z.to_nat (2 * f + 2))) as [r Hr]; [done..|lia|].
  exists r. split; [by eapply execute_function_good|]. intros n Hn.
  eapply execute_function_more; [exact Hr|lia].
Qed.

End main_loop.

(** ** Witnesses *)

Section witnesses.
#[local] Existing Instance demo_embedding.
#[local] Existing Instance demo_host.
#[local] Existing Instance canonical_nan.

Definition div_start : exec_state :=
  initial_state div_context 0 (mkFunctionType [TI32; TI32] [TI32]) div_body [I32 7; I32 2].
Definition div_next : exec_state := (loop_step div_start).2.

Lemma executor_invariant_witness :
  reachable div_start div_next ∧ len (st_calls div_next) = 1 ∧
  0 < len (st_calls div_next) ≤ MAX_CALL_STACK_DEPTH.
Proof.
  assert (Hr : reachable div_start div_next) by (eapply reach_step; [apply reach_refl|reflexivity]).
  split; [exact Hr|]. split; [reflexivity|].
  apply (executor_invariant div_context 0 (mkFunctionType [TI32; TI32] [TI32]) div_body
    [I32 7; I32 2] div_next); [apply demo_hosts_keep|apply div_context_ok|ok_tac|reflexivity|reflexivity|exact Hr].
Defined.

Lemma execution_terminates_witness :
  ctx_fuel demo_context = Some 10000000 ∧
  ∃ r, good_outcome demo_context r ∧
    ∀ n, 2 * 10000000 + 2 ≤ Z.of_nat n → execute_function n demo_context 1 [I32 5] = Some r.
Proof.
  split; [exact (inst_fuel _ _ _ demo_context_ok)|].
  apply (execution_terminates demo_context 1 [I32 5] 10000000);
    [apply demo_hosts_keep|exact (inst_ctx_ok _ _ _ demo_context_ok)|ok_tac|exact (inst_fuel _ _ _ demo_context_ok)].
Defined.



(** The demo module computes what it should and calls its host. *)
Lemma demo_runs :
  option_map (λ r, (r.1, ctx_stdout r.2)) (execute_export 200 demo_context "main" []) =
  Some (Ok [I32 120], [33]).
Proof. vm_compute. reflexivity. Qed.
End witnesses.
