(* ===== verification/Control.v ===== *)
(** Control flow of the executor: what calls, returns, blocks and branches do to
    the operand stack and the frames, and that the scans for the end of a
    block find it in well-nested code. *)

From S2P Require Import Prelude Types Memory Machine Floats Numeric Context Executor Invariant.
From S2P Require Import Instantiate Demo Loop.

(** ** Unwinding the operand stack *)

Lemma collect_go_spec n : ∀ rs s,
  (n ≤ length (values s))%nat →
  collect_go n rs s = (rev (take n (values s)) ++ rs, mkStack (drop n (values s)) (max_depth s)).
Proof.
  induction n as [|n IH]; intros rs [vs d] Hn; simpl in *; [done|].
  destruct vs as [|v vs]; simpl in *; [lia|]. unfold stack_pop. simpl.
  rewrite IH by (simpl; lia). simpl. by rewrite <-(assoc_L (++)).
Qed.

Lemma push_all_spec vs : ∀ s,
  len vs + len (values s) ≤ max_depth s →
  push_all vs s = (Ok tt, mkStack (rev vs ++ values s) (max_depth s)).
Proof.
  induction vs as [|v vs IH]; intros [l d] Hd; [done|].
  unfold len in Hd. simpl in Hd. unfold push_all in *. simpl. unfold mbind, M_bind, stack_push. simpl.
  destruct (Z.leb_spec d (len l)) as [Hle|_]; [unfold len in Hle; lia|].
  rewrite IH by (unfold len; simpl; lia). simpl. by rewrite <-(assoc_L (++)).
Qed.

(** Results on top, [mid] operands to drop, [below] to keep. *)
Lemma unwind_spec res mid below arity base d :
  len res = arity → len below = base → len (res ++ mid ++ below) ≤ d →
  unwind arity base (mkStack (res ++ mid ++ below) d) = (Ok tt, mkStack (res ++ below) d).
Proof.
  intros Hr Hb Hd. unfold unwind, collect_results, stack_len. simpl.
  assert (Hn : Z.to_nat (Z.min arity (Z.max 0 (len (res ++ mid ++ below) - base))) = length res).
  { rewrite !len_app. pose proof (len_nonneg mid). unfold len in *. lia. }
  rewrite Hn, collect_go_spec by (simpl; rewrite !length_app; lia). simpl.
  rewrite take_app_length, drop_app_length, app_nil_r. unfold truncate. simpl.
  rewrite <-Hb, stack_truncate_app. rewrite push_all_spec; simpl.
  - by rewrite rev_involutive.
  - rewrite !len_app in *. pose proof (len_nonneg mid). unfold len in *. rewrite length_rev. lia.
Qed.

(** ** Well-nested code *)

(** Instructions that neither open nor close a block. *)
Definition plain (i : Instruction) : bool :=
  match i with Block _ | Loop _ | If _ | Else | End => false | _ => true end.

(** Sequences of instructions whose blocks are closed; an [if] may have two arms. *)
Inductive nested : list Instruction → Prop :=
| nested_nil : nested []
| nested_plain i l : plain i = true → nested l → nested (i :: l)
| nested_block o b l : opens_block o = true → nested b → nested l → nested (o :: b ++ End :: l)
| nested_if bt b1 b2 l :
    nested b1 → nested b2 → nested l → nested (If bt :: b1 ++ Else :: b2 ++ End :: l).

(** The body of a block: of an [if], possibly with its [else]. *)
Inductive block_body : list Instruction → Prop :=
| body_one b : nested b → block_body b
| body_two b1 b2 : nested b1 → nested b2 → block_body (b1 ++ Else :: b2).

Lemma scan_end_nested b : nested b → ∀ rest i depth,
  0 < depth → scan_end (b ++ rest) i depth = scan_end rest (i + len b) depth.
Proof.
  induction 1 as [|x l Hx _ IH|o b l Ho _ IHb _ IHl|bt b1 b2 l _ IH1 _ IH2 _ IHl];
    intros rest i depth Hd; simpl.
  - unfold len. simpl. by rewrite Z.add_0_r.
  - assert (Hop : opens_block x = false) by (by destruct x).
    rewrite Hop, len_cons. destruct x; try done; rewrite IH by done; f_equal; lia.
  - rewrite Ho, <-(assoc_L (++)), IHb by lia. simpl.
    rewrite (proj2 (Z.eqb_neq _ _)) by lia. rewrite IHl by lia.
    rewrite len_cons, len_app, len_cons. f_equal; lia.
  - rewrite <-(assoc_L (++)), IH1 by lia. simpl. rewrite <-(assoc_L (++)), IH2 by lia. simpl.
    rewrite (proj2 (Z.eqb_neq _ _)) by lia. rewrite IHl by lia.
    rewrite len_cons, len_app, len_cons, len_app, len_cons. f_equal; lia.
Qed.

Lemma scan_else_nested b : nested b → ∀ rest i depth,
  0 < depth → scan_else (b ++ rest) i depth = scan_else rest (i + len b) depth.
Proof.
  induction 1 as [|x l Hx _ IH|o b l Ho _ IHb _ IHl|bt b1 b2 l _ IH1 _ IH2 _ IHl];
    intros rest i depth Hd; simpl.
  - unfold len. simpl. by rewrite Z.add_0_r.
  - assert (Hop : opens_block x = false) by (by destruct x).
    rewrite Hop, len_cons. destruct x; try done; rewrite IH by done; f_equal; lia.
  - rewrite Ho, <-(assoc_L (++)), IHb by lia. simpl.
    rewrite (proj2 (Z.eqb_neq (depth + 1 - 1) 0)) by lia. rewrite IHl by lia.
    rewrite len_cons, len_app, len_cons. f_equal; lia.
  - rewrite <-(assoc_L (++)), IH1 by lia. simpl. rewrite (proj2 (Z.eqb_neq (depth + 1) 1)) by lia.
    rewrite <-(assoc_L (++)), IH2 by lia. simpl.
    rewrite (proj2 (Z.eqb_neq (depth + 1 - 1) 0)) by lia. rewrite IHl by lia.
    rewrite len_cons, len_app, len_cons, len_app, len_cons. f_equal; lia.
Qed.

(** The code after an opener at [len pre]. *)
Lemma drop_opener pre o (l : list Instruction) : drop (Z.to_nat (len pre + 1)) (pre ++ o :: l) = l.
Proof.
  replace (Z.to_nat (len pre + 1)) with (length (pre ++ [o]))
    by (unfold len; rewrite length_app; simpl; lia).
  replace (pre ++ o :: l) with ((pre ++ [o]) ++ l) by (by rewrite <-(assoc_L (++))).
  apply drop_app_length.
Qed.

(** ** Frames *)

Section control.
Context `{Embedding} `{!HostCalls} `{FloatEnv}.

(** A state whose operand stack holds [vs] (top first). *)
Definition holding (s : exec_state) (vs : list WasmValue) : Prop :=
  values (st_stack s) = vs ∧ len vs ≤ max_depth (st_stack s).
Definition with_values (vs : list WasmValue) (s : exec_state) : exec_state :=
  set_stack (mkStack vs (max_depth (st_stack s))) s.

Lemma on_stack_unwind s res mid below arity base :
  holding s (res ++ mid ++ below) → len res = arity → len below = base →
  on_stack (unwind arity base) s = (Ok tt, with_values (res ++ below) s).
Proof.
  intros [Hv Hd] Hr Hb. unfold on_stack, zoom, with_values. destruct s as [c [vs d] l]. simpl in *. subst vs.
  by rewrite (unwind_spec res mid below arity base d Hr Hb Hd).
Qed.

(** What [do_return] leaves of the operands below the frame. *)
Definition kept_by_return (callers : list CallFrame) (mid below : list WasmValue) : list WasmValue :=
  match callers with
  | [] => below
  | parent :: _ => stack_truncate below (cf_stack_base parent + len mid)
  end.

Lemma stack_truncate_twice {A} (l : list A) a b :
  0 ≤ a → 0 ≤ b → stack_truncate (stack_truncate l a) b = stack_truncate l (Z.min a b).
Proof.
  intros Ha Hb. destruct (Z.le_ge_cases a b).
  - rewrite Z.min_l by done. pose proof (len_stack_truncate l a Ha).
    unfold stack_truncate at 1. rewrite (proj2 (Z.leb_le _ _)) by lia. done.
  - rewrite Z.min_r by done. unfold stack_truncate at 1. rewrite len_stack_truncate by done.
    unfold stack_truncate. repeat zcase; try done; try lia; rewrite ?drop_drop; f_equal; lia.
Qed.

Lemma do_return_spec s fr callers res mid below :
  st_calls s = fr :: callers → holding s (res ++ mid ++ below) →
  len res = cf_return_arity fr → len below = cf_stack_base fr →
  Forall (λ f, 0 ≤ cf_stack_base f) callers →
  do_return s =
    (Ok (match callers with [] => false | _ => true end),
     set_calls callers (with_values (res ++ kept_by_return callers mid below) s)).
Proof.
  intros Hc [Hv Hd] Hr Hb Hbase. destruct s as [c [vs d] l]. simpl in *. subst l vs.
  unfold do_return, mbind, M_bind, cur_frame, gets. simpl. unfold collect_results, stack_len. simpl.
  assert (Hn : Z.to_nat (Z.min (cf_return_arity fr) (Z.max 0 (len (res ++ mid ++ below) - cf_stack_base fr)))
                 = length res).
  { rewrite !len_app. pose proof (len_nonneg mid). unfold len in *. lia. }
  rewrite Hn, collect_go_spec by (simpl; rewrite !length_app; lia). simpl.
  rewrite take_app_length, drop_app_length, app_nil_r.
  set (st := match callers with [] => _ | _ => _ end).
  assert (Hst : truncate (cf_stack_base fr) st = mkStack (kept_by_return callers mid below) d).
  { unfold st, kept_by_return, truncate. destruct callers as [|parent l]; simpl.
    - by rewrite <-Hb, stack_truncate_app.
    - apply Forall_cons in Hbase as [Hp _]. pose proof (len_nonneg below). pose proof (len_nonneg mid).
      f_equal. rewrite len_app, Z.max_r by lia. rewrite stack_truncate_twice by lia.
      trans (stack_truncate (stack_truncate (mid ++ below) (len below)) (cf_stack_base parent + len mid)).
      + rewrite stack_truncate_twice by lia. f_equal. lia.
      + by rewrite stack_truncate_app. }
  unfold modify. simpl. unfold on_stack, zoom. simpl. rewrite Hst, push_all_spec; simpl.
  - rewrite rev_involutive. by destruct callers.
  - unfold kept_by_return. destruct callers as [|parent l]; rewrite !len_app in *;
      pose proof (len_nonneg mid); unfold len at 1; rewrite length_rev; unfold len in *; [lia|].
    pose proof (len_stack_truncate below (cf_stack_base parent + len mid)). unfold len in *.
    apply Forall_cons in Hbase as [Hp _]. lia.
Qed.

Lemma function_end_spec s fr callers res mid below :
  st_calls s = fr :: callers → holding s (res ++ mid ++ below) →
  len res = cf_return_arity fr → len below = cf_stack_base fr →
  function_end fr s =
    (Ok (match callers with [] => false | _ => true end),
     set_calls callers (with_values (res ++ below) s)).
Proof.
  intros Hc Hh Hr Hb. unfold function_end, mbind, M_bind, modify. rewrite Hc.
  rewrite (on_stack_unwind _ res mid below); [|done..]. by destruct callers.
Qed.

(** Where the label of a branch points: the frames inside it, itself, the rest. *)
Lemma label_target {A} (inner outer : list A) b :
  stack_index (inner ++ b :: outer) (len (inner ++ b :: outer) - 1 - len inner) = Some b ∧
  stack_truncate (inner ++ b :: outer) (len (inner ++ b :: outer) - 1 - len inner) = outer.
Proof.
  rewrite len_app, len_cons. pose proof (len_nonneg outer). pose proof (len_nonneg inner). split.
  - unfold stack_index. rewrite len_app, len_cons. apply vget_Some. rewrite len_app, len_cons.
    split; [lia|]. replace (Z.to_nat _) with (length inner) by (unfold len; lia).
    rewrite lookup_app_r by lia. by rewrite Nat.sub_diag.
  - replace (len inner + (len outer + 1) - 1 - len inner) with (len outer) by lia.
    replace (inner ++ b :: outer) with ((inner ++ [b]) ++ outer) by (by rewrite <-(assoc_L (++))).
    apply stack_truncate_app.
Qed.

Lemma get_instructions_spec s fr b :
  count_if is_function_import (imports (ctx_module (st_ctx s))) ≤ cf_func_idx fr →
  frame_body (fixed_of (st_ctx s)) fr = Some b →
  get_current_instructions fr s = (Ok (instructions b), s).
Proof.
  intros Hl Hb. unfold get_current_instructions, mbind, M_bind, gets, sub_or_panic, import_function_count.
  rewrite (proj2 (Z.ltb_ge _ _)) by done. unfold frame_body in Hb. simpl in Hb. simpl. by rewrite Hb.
Qed.

(** The frame [Block] or [Loop] pushes for a block with one result. *)
Definition block_frame_of (k : BlockKind) (t : ValueType) (s : exec_state) (fr : CallFrame)
    (b : FunctionBody) : BlockFrame :=
  mkBlockFrame k (BT_Value t) (stack_len (st_stack s)) (cf_pc fr - 1)
    (find_block_end (instructions b) (cf_pc fr - 1)) None (if decide (k = BK_Loop) then 0 else 1) 0.

Lemma exec_block_spec s fr callers b k t :
  st_calls s = fr :: callers → 0 < cf_pc fr →
  count_if is_function_import (imports (ctx_module (st_ctx s))) ≤ cf_func_idx fr →
  frame_body (fixed_of (st_ctx s)) fr = Some b →
  exec_block k (BT_Value t) s =
    (Ok tt, set_calls (with_blocks (block_frame_of k t s fr b :: cf_block_stack fr) fr :: callers) s).
Proof.
  intros Hc Hpc Hl Hb. unfold exec_block, enter_block, mbind, M_bind, cur_frame. rewrite Hc.
  rewrite (get_instructions_spec s fr b Hl Hb). unfold sub_or_panic, gets, set_frame.
  rewrite (proj2 (Z.ltb_ge _ _)) by lia. unfold mret, M_ret. rewrite Hc. simpl.
  pose proof (len_nonneg (values (st_stack s))). unfold stack_len.
  rewrite (proj2 (Z.ltb_ge _ _)) by lia.
  rewrite (proj2 (Z.ltb_ge (len _) 0)) by lia. rewrite Hc. by rewrite Z.sub_0_r.
Qed.

Lemma exec_end_spec s fr callers blk bs res mid below :
  st_calls s = fr :: callers → cf_block_stack fr = blk :: bs → bf_kind blk ≠ BK_Function →
  holding s (res ++ mid ++ below) → len res = bf_arity blk → len below = bf_stack_depth blk →
  exec_end s = (Ok tt, set_calls (with_blocks bs fr :: callers) (with_values (res ++ below) s)).
Proof.
  intros Hc Hbs Hk Hh Hr Hb. unfold exec_end, mbind, M_bind, cur_frame. rewrite Hc, Hbs.
  rewrite decide_False by done. unfold set_frame. rewrite Hc.
  by rewrite (on_stack_unwind _ res mid below).
Qed.

(** ** Properties *)

(** The end of a function.  When a function body runs off its end, its
    frame is removed, its results replace everything it had on the operand
    stack and the operands of its callers below its base are untouched; the
    loop goes on iff a caller is left. *)
Theorem function_end_correct s fr callers res mid below :
  st_calls s = fr :: callers → holding s (res ++ mid ++ below) →
  len res = cf_return_arity fr → len below = cf_stack_base fr →
  function_end fr s =
    (Ok (match callers with [] => false | _ => true end),
     set_calls callers (with_values (res ++ below) s)).
Proof. apply function_end_spec. Qed.

(** A [return] does what the end of the function does exactly when it is
    the outermost call or the function leaves at least as many operands
    behind as its caller had on the stack.  Otherwise it also drops operands
    of the caller. *)
Theorem return_drops_operands s fr callers res mid below :
  st_calls s = fr :: callers → holding s (res ++ mid ++ below) →
  len res = cf_return_arity fr → len below = cf_stack_base fr →
  Forall (λ f, 0 ≤ cf_stack_base f) callers →
  do_return s = function_end fr s ↔
  match callers with
  | [] => True
  | parent :: _ => cf_stack_base fr - cf_stack_base parent ≤ len mid
  end.
Proof.
  intros Hc Hh Hr Hb Hbase. rewrite (do_return_spec s fr callers res mid below) by done.
  rewrite (function_end_spec s fr callers res mid below) by done.
  destruct callers as [|parent l]; [done|]. apply Forall_cons in Hbase as [Hp _]. simpl.
  pose proof (len_nonneg mid). split.
  - intros [= Heq]. apply app_inv_head in Heq. apply (f_equal len) in Heq.
    rewrite len_stack_truncate in Heq by lia. lia.
  - intros Hle. unfold stack_truncate. by rewrite (proj2 (Z.leb_le _ _)) by lia.
Qed.

(** Finding the end of a block.  In well-nested code, [find_block_end]
    from the instruction that opens a block is the position of the matching
    [end], also past inner blocks and past an [else]. *)
Theorem find_block_end_correct pre o body post :
  block_body body →
  find_block_end (pre ++ o :: body ++ End :: post) (len pre) = len pre + 1 + len body.
Proof.
  intros Hb. unfold find_block_end. rewrite drop_opener.
  destruct Hb as [b Hb|b1 b2 Hb1 Hb2]; simpl.
  - by rewrite scan_end_nested by (done || lia).
  - rewrite <-(assoc_L (++)), scan_end_nested by (done || lia). simpl.
    rewrite scan_end_nested by (done || lia). simpl. rewrite len_app, len_cons. lia.
Qed.

(** Finding the [else] of an [if].  In well-nested code [find_else] is the
    position of the [else] that belongs to the [if], and there is none when the
    [if] has one arm, whatever the blocks inside and after it have. *)
Theorem find_else_correct pre bt b1 post :
  nested b1 →
  find_else (pre ++ If bt :: b1 ++ End :: post) (len pre) = None ∧
  find_else (pre ++ If bt :: b1 ++ Else :: post) (len pre) = Some (len pre + 1 + len b1).
Proof. intros Hb. unfold find_else. rewrite !drop_opener, !scan_else_nested by (done || lia). done. Qed.

(** C10. Branches.  A branch to the block [target], [len inner] labels out,
    keeps the operands the label carries and those below the block, and drops
    the ones between; out of a block it continues behind its end with the
    enclosing blocks, and into a loop at its first instruction.  (In a loop
    the frames of the inner blocks stay.)  A label with no block panics. *)
Theorem branch_correct s fr callers :
  st_calls s = fr :: callers →
  (∀ inner target outer res mid below,
    cf_block_stack fr = inner ++ target :: outer → holding s (res ++ mid ++ below) →
    len res = bf_arity target → len below = bf_stack_depth target →
    branch (len inner) s =
      (Ok tt, set_calls ((if decide (bf_kind target = BK_Loop)
                          then with_pc (bf_start_pc target + 1) fr
                          else with_pc (bf_end_pc target + 1) (with_blocks outer fr)) :: callers)
                (with_values (res ++ below) s))) ∧
  (∀ label, len (cf_block_stack fr) ≤ label → branch label s = (Panic, s)).
Proof.
  intros Hc. split.
  - intros inner target outer res mid below Hbs Hh Hr Hb. destruct (label_target inner outer target) as [Hi Ht].
    pose proof (len_nonneg inner). pose proof (len_nonneg outer).
    unfold branch, cur_frame, mbind, M_bind, mret, M_ret. rewrite Hc, Hbs.
    assert (Hl : len (inner ++ target :: outer) = len inner + len outer + 1) by (rewrite len_app, len_cons; lia).
    unfold sub_or_panic, mret, M_ret. do 2 (rewrite (proj2 (Z.ltb_ge _ _)) by lia). rewrite Hi. simpl.
    rewrite (on_stack_unwind _ res mid below) by done. rewrite Ht.
    by case_decide; unfold set_frame; simpl; rewrite Hc.
  - intros label Hl. unfold branch, cur_frame, mbind, M_bind. rewrite Hc. unfold sub_or_panic.
    pose proof (len_nonneg (cf_block_stack fr)).
    destruct (Z.ltb_spec (len (cf_block_stack fr)) 1); [done|].
    unfold mret, M_ret. by rewrite (proj2 (Z.ltb_lt _ _)) by lia.
Qed.

(** Entering and leaving a block.  A block that declares one result and
    computes it returns with the result on the stack and its frame gone.  The
    same code as a [loop] loses the result: the frame of a loop records the
    number of its parameters where the [end] expects its results. *)
Theorem block_end_result s fr callers b k t v vs :
  k = BK_Block ∨ k = BK_Loop → st_calls s = fr :: callers → 0 < cf_pc fr →
  count_if is_function_import (imports (ctx_module (st_ctx s))) ≤ cf_func_idx fr →
  frame_body (fixed_of (st_ctx s)) fr = Some b →
  holding s vs → len (v :: vs) ≤ max_depth (st_stack s) →
  ∃ s1, exec_block k (BT_Value t) s = (Ok tt, s1) ∧
    exec_end (with_values (v :: vs) s1) =
      (Ok tt, with_values (if decide (k = BK_Loop) then vs else v :: vs) s).
Proof.
  intros Hk Hc Hpc Hl Hb [Hv Hd] Hd'. rewrite (exec_block_spec s fr callers b k t) by done.
  eexists. split; [reflexivity|]. set (blk := block_frame_of k t s fr b).
  rewrite (exec_end_spec _ (with_blocks (blk :: cf_block_stack fr) fr) callers blk (cf_block_stack fr)
    (if decide (k = BK_Loop) then [] else [v]) (if decide (k = BK_Loop) then [v] else []) vs);
    try done.
  - destruct s as [c st l]. simpl in *. subst l. destruct fr. by destruct Hk as [-> | ->].
  - simpl. by destruct Hk as [-> | ->].
  - by destruct Hk as [-> | ->]; split.
  - simpl. by destruct Hk as [-> | ->].
  - simpl. unfold stack_len. by rewrite Hv.
Qed.
End control.

(** ** Witnesses *)

Section witnesses.
#[local] Existing Instance demo_embedding.
#[local] Existing Instance demo_host.
#[local] Existing Instance canonical_nan.

(** A callee with one result, an operand of its own and one of its caller's. *)
Definition callee : CallFrame := mkCallFrame 1 [] 3 1 1 [] false.
Definition caller : CallFrame := mkCallFrame 0 [] 2 0 1 [] false.
Definition in_callee (mid : list WasmValue) : exec_state :=
  mkExec div_context (mkStack ([I32 5] ++ mid ++ [I32 10]) 16384) [callee; caller].

Lemma in_callee_holding mid : len mid ≤ 100 → holding (in_callee mid) ([I32 5] ++ mid ++ [I32 10]).
Proof. intros Hm. split; [done|]. rewrite !len_app. change (len [_]) with 1. simpl. lia. Qed.

Lemma function_end_correct_witness :
  function_end callee (in_callee [I32 7]) =
    (Ok true, set_calls [caller] (with_values [I32 5; I32 10] (in_callee [I32 7]))).
Proof.
  apply (function_end_correct (in_callee [I32 7]) callee [caller] [I32 5] [I32 7] [I32 10]);
    [reflexivity|by apply in_callee_holding|reflexivity..].
Defined.

(** Without an operand left behind, [return] loses the caller's 10. *)
Lemma return_drops_operands_witness : do_return (in_callee []) ≠ function_end callee (in_callee []).
Proof.
  intros Heq. apply (return_drops_operands (in_callee []) callee [caller] [I32 5] [] [I32 10]) in Heq;
    [vm_compute in Heq; by destruct Heq|reflexivity|by apply in_callee_holding|reflexivity|reflexivity|].
  by repeat constructor.
Defined.

(** [10 + f()] where [f] ends in [i32.const 5] or in [i32.const 5; return]. *)
Definition sum_module (callee_code : list Instruction) : Module_ :=
  mkModule [mkFunctionType [] [TI32]] [] [0; 0] [] [] [] [mkExport "main" ExportFunction 0] None []
    [mkFunctionBody [] [I32Const 10; Call 1; I32Add; End] []; mkFunctionBody [] callee_code []]
    [] None None.
Definition sum_result (callee_code : list Instruction) :=
  match new_context (sum_module callee_code) with
  | Ok ctx => option_map fst (execute_export 50 ctx "main" [])
  | _ => None
  end.

Lemma sum_without_return : sum_result [I32Const 5; End] = Some (Ok [I32 15]).
Proof. vm_compute. reflexivity. Qed.
Lemma sum_with_return : sum_result [I32Const 5; Return; End] = Some (Err TrapStackUnderflow).
Proof. vm_compute. reflexivity. Qed.

Lemma find_block_end_correct_witness :
  find_block_end [Nop; Block BT_Empty; If BT_Empty; Nop; Else; Nop; End; End; Nop] 1 = 7.
Proof.
  apply (find_block_end_correct [Nop] (Block BT_Empty) [If BT_Empty; Nop; Else; Nop; End] [Nop]).
  apply body_one, (nested_if BT_Empty [Nop] [Nop] []); repeat constructor.
Defined.

Lemma find_else_correct_witness :
  find_else [If BT_Empty; Block BT_Empty; End; End; Else] 0 = None ∧
  find_else [If BT_Empty; Block BT_Empty; End; Else; Nop; End] 0 = Some 3.
Proof.
  split; apply (find_else_correct [] BT_Empty [Block BT_Empty; End]);
    apply (nested_block (Block BT_Empty) [] []); repeat constructor.
Defined.

(** A branch to the outer of two blocks. *)
Definition inner_block : BlockFrame := mkBlockFrame BK_Block BT_Empty 2 4 6 None 0 0.
Definition outer_block : BlockFrame := mkBlockFrame BK_Block (BT_Value TI32) 1 1 8 None 1 0.
Definition in_blocks : exec_state :=
  mkExec div_context (mkStack [I32 5; I32 7; I32 10] 16384)
    [mkCallFrame 0 [] 5 0 0 [inner_block; outer_block] false].

Lemma branch_correct_witness :
  branch 1 in_blocks =
    (Ok tt, mkExec div_context (mkStack [I32 5; I32 10] 16384) [mkCallFrame 0 [] 9 0 0 [] false]) ∧
  branch 2 in_blocks = (Panic, in_blocks).
Proof.
  split; [apply (proj1 (branch_correct in_blocks (mkCallFrame 0 [] 5 0 0 [inner_block; outer_block] false)
    [] eq_refl) [inner_block] outer_block [] [I32 5] [I32 7] [I32 10]); done|].
  apply (proj2 (branch_correct in_blocks (mkCallFrame 0 [] 5 0 0 [inner_block; outer_block] false)
    [] eq_refl)). vm_compute. discriminate.
Defined.

Definition in_div : exec_state := mkExec div_context (mkStack [I32 10] 16384) [mkCallFrame 0 [] 1 0 0 [] false].

Lemma block_end_result_witness :
  (∃ s1, exec_block BK_Block (BT_Value TI32) in_div = (Ok tt, s1) ∧
     exec_end (with_values [I32 5; I32 10] s1) = (Ok tt, with_values [I32 5; I32 10] in_div)) ∧
  (∃ s1, exec_block BK_Loop (BT_Value TI32) in_div = (Ok tt, s1) ∧
     exec_end (with_values [I32 5; I32 10] s1) = (Ok tt, in_div)).
Proof.
  split.
  - apply (block_end_result in_div (mkCallFrame 0 [] 1 0 0 [] false) [] div_body BK_Block TI32 (I32 5) [I32 10]);
      first [by left | done].
  - apply (block_end_result in_div (mkCallFrame 0 [] 1 0 0 [] false) [] div_body BK_Loop TI32 (I32 5) [I32 10]);
      first [by right | done].
Defined.
End witnesses.
