(* ===== verification/Access.v ===== *)
(** The instructions that read and write memory, globals and locals, as the
    executor runs them. *)

From S2P Require Import Prelude Types Memory Machine Floats Numeric Context Executor Invariant.
From S2P Require Import Instantiate Demo Loop Control.

(** ** The load and store instructions *)

(** The width in bytes, the offset and what becomes of the bytes read. *)
Definition load_sig (i : Instruction) : option (nat * Z * (Z → WasmValue)) :=
  match i with
  | I32Load _ o => Some (4%nat, o, λ z, I32 (swrap 32 z))
  | I64Load _ o => Some (8%nat, o, λ z, I64 (swrap 64 z))
  | F32Load _ o => Some (4%nat, o, F32)
  | F64Load _ o => Some (8%nat, o, F64)
  | I32Load8S _ o => Some (1%nat, o, λ z, I32 (swrap 8 z))
  | I32Load8U _ o => Some (1%nat, o, I32)
  | I32Load16S _ o => Some (2%nat, o, λ z, I32 (swrap 16 z))
  | I32Load16U _ o => Some (2%nat, o, I32)
  | I64Load8S _ o => Some (1%nat, o, λ z, I64 (swrap 8 z))
  | I64Load8U _ o => Some (1%nat, o, I64)
  | I64Load16S _ o => Some (2%nat, o, λ z, I64 (swrap 16 z))
  | I64Load16U _ o => Some (2%nat, o, I64)
  | I64Load32S _ o => Some (4%nat, o, λ z, I64 (swrap 32 z))
  | I64Load32U _ o => Some (4%nat, o, I64)
  | _ => None
  end.

(** The type stored, the width in bytes and the offset. *)
Definition store_sig (i : Instruction) : option (ValueType * nat * Z) :=
  match i with
  | I32Store _ o => Some (TI32, 4%nat, o)
  | I64Store _ o => Some (TI64, 8%nat, o)
  | F32Store _ o => Some (TF32, 4%nat, o)
  | F64Store _ o => Some (TF64, 8%nat, o)
  | I32Store8 _ o => Some (TI32, 1%nat, o)
  | I32Store16 _ o => Some (TI32, 2%nat, o)
  | I64Store8 _ o => Some (TI64, 1%nat, o)
  | I64Store16 _ o => Some (TI64, 2%nat, o)
  | I64Store32 _ o => Some (TI64, 4%nat, o)
  | _ => None
  end.

(** The bits of a number. *)
Definition bits (v : WasmValue) : Z :=
  match v with I32 z | I64 z | F32 z | F64 z => z | _ => 0 end.

Section access.
Context `{Embedding} `{!HostCalls} `{FloatEnv}.

(** A state with a frame and a well-formed memory 0. *)
Record running_with (s : exec_state) (m : LinearMemory) : Prop := {
  run_frame : st_calls s ≠ [];
  run_memory : vget (ctx_memories (st_ctx s)) 0 = Some m;
  run_wf : memory_wf m
}.

Definition with_memory (m : LinearMemory) (s : exec_state) : exec_state :=
  set_ctx (with_memories (vset (ctx_memories (st_ctx s)) 0 m) (st_ctx s)) s.

Lemma with_same_memory s m :
  vget (ctx_memories (st_ctx s)) 0 = Some m → with_memory m s = s.
Proof.
  intros [_ Hm]%vget_Some. destruct s as [[] st l]. unfold with_memory, with_memories, set_ctx, vset. simpl in *.
  by rewrite list_insert_id.
Qed.

(** ** Popping and pushing *)

Lemma pop_i32_spec s z vs :
  holding s (I32 z :: vs) → on_stack stack_pop_i32 s = (Ok z, with_values vs s).
Proof. destruct s as [c [l d] k]. by intros [Hv _]; simpl in Hv; subst l. Qed.

Lemma push_spec s v vs :
  holding s vs → len vs < max_depth (st_stack s) →
  on_stack (stack_push v) s = (Ok tt, with_values (v :: vs) s).
Proof.
  destruct s as [c [l d] k]. intros [Hv _] Hd; simpl in Hv, Hd; subst l.
  unfold on_stack, zoom, stack_push. simpl. by rewrite (proj2 (Z.leb_gt _ _)) by lia.
Qed.

Lemma holding_cons s v vs : holding s (v :: vs) → holding (with_values vs s) vs.
Proof. intros [_ Hd]. split; [done|]. rewrite len_cons in Hd. simpl. lia. Qed.

Lemma with_values_twice s vs ws : with_values ws (with_values vs s) = with_values ws s.
Proof. done. Qed.

(** An access to memory 0 under a boundary. *)
Lemma on_memory_spec {A} s m none (op : M LinearMemory RuntimeError A) err :
  running_with s m →
  on_ctx (on_memory 0 none (memory_op op err)) s =
    (map_err (λ _, err m) (op m).1, with_memory (op m).2 s).
Proof.
  intros [_ Hm _]. unfold on_ctx, zoom, on_memory. rewrite Hm. unfold memory_op.
  by destruct (op m) as [o m'].
Qed.

Lemma execute_straight i m s :
  exec_control i = None → exec_straight i = Some m → st_calls s ≠ [] →
  execute_instruction i s = (continue m) s.
Proof.
  intros Hc Hs Hf. unfold execute_instruction, mbind at 1, M_bind at 1, cur_frame.
  destruct (st_calls s); [done|]. by rewrite Hc, Hs.
Qed.

(** ** Loads *)

Lemma load_sig_exec i n o c :
  load_sig i = Some (n, o, c) →
  exec_control i = None ∧
  ∃ rd, (n, rd) ∈ readers ∧ exec_straight i = Some (load_op (Z.of_nat n) rd c o).
Proof.
  destruct i; intros [= <- <- <-]; (split; [done|]); eexists; (split; [|reflexivity]); set_solver.
Qed.

Lemma load_op_spec s m n rd c o base vs :
  (n, rd) ∈ readers → 0 ≤ o → running_with s m → holding s (I32 base :: vs) →
  load_op (Z.of_nat n) rd c o s =
  if decide (in_bounds m (as_u32 base + o) (Z.of_nat n))
  then (Ok tt, with_values (c (le_at m n (as_u32 base + o)) :: vs) s)
  else (Err (TrapMemoryOutOfBounds (as_u32 base + o) (Z.of_nat n) (memory_size m)), with_values vs s).
Proof.
  intros Hrd Ho Hrun Hh. pose proof (as_u32_range base).
  unfold load_op, mbind, M_bind. rewrite (pop_i32_spec _ _ _ Hh). unfold address.
  rewrite (on_memory_spec _ m) by (destruct Hrun; by split). simpl.
  rewrite (with_same_memory (with_values vs s)) by apply Hrun. case_decide as Hb.
  - rewrite (readers_in m _ n rd Hrd (run_wf _ _ Hrun) Hb). simpl.
    rewrite (push_spec _ _ vs); [done|by eapply holding_cons|].
    destruct Hh as [_ Hd]. rewrite len_cons in Hd. simpl. lia.
  - destruct (readers_out m (as_u32 base + o) n rd Hrd ltac:(lia) Hb) as [e ->]. done.
Qed.

(** ** Stores *)

Definition is_num (t : ValueType) : bool :=
  match t with TI32 | TI64 | TF32 | TF64 => true | _ => false end.
Definition pop_of (t : ValueType) : M ValueStack TrapError Z :=
  match t with TI32 => stack_pop_i32 | TI64 => stack_pop_i64 | TF32 => stack_pop_f32 | _ => stack_pop_f64 end.

Lemma pop_of_spec s t v vs :
  holding s (v :: vs) → value_type v = t → is_num t = true →
  on_stack (pop_of t) s = (Ok (bits v), with_values vs s).
Proof.
  intros [Hv _] Ht Hin. destruct s as [c [l d] k]. simpl in Hv. subst l.
  by destruct v; simpl in Ht; subst t.
Qed.

(** The value a store writes is the low bits of the operand. *)
Lemma store_sig_exec i t n o :
  store_sig i = Some (t, n, o) →
  exec_control i = None ∧ is_num t = true ∧
  ∃ wr c, (n, wr) ∈ writers ∧ exec_straight i = Some (store_op (pop_of t) (Z.of_nat n) wr c o) ∧
    ∀ v, value_ok v → value_type v = t → c (bits v) = wrap (8 * Z.of_nat n) (bits v).
Proof.
  destruct i; intros [= <- <- <-]; (split; [done|]); (split; [done|]);
    do 2 eexists; (split; [|split; [reflexivity|]]); [set_solver| |set_solver| |set_solver| |set_solver|
    |set_solver| |set_solver| |set_solver| |set_solver| |set_solver|];
    intros [] Hv [=]; simpl; try done; symmetry; by apply wrap_id.
Qed.

(** The memory with the low [n] bytes of [v] at [a]. *)
Definition stored (m : LinearMemory) (n : nat) (a : Z) (v : WasmValue) : LinearMemory :=
  patched m a (to_le_bytes n (wrap (8 * Z.of_nat n) (bits v))).

Lemma store_op_spec s m t n wr c o v base vs :
  (n, wr) ∈ writers → 0 ≤ o → is_num t = true → running_with s m →
  holding s (v :: I32 base :: vs) → value_type v = t →
  c (bits v) = wrap (8 * Z.of_nat n) (bits v) →
  store_op (pop_of t) (Z.of_nat n) wr c o s =
  if decide (in_bounds m (as_u32 base + o) (Z.of_nat n))
  then (Ok tt, with_memory (stored m n (as_u32 base + o) v) (with_values vs s))
  else (Err (TrapMemoryOutOfBounds (as_u32 base + o) (Z.of_nat n) (memory_size m)), with_values vs s).
Proof.
  intros Hwr Ho Ht Hrun Hh Hvt Hc. pose proof (as_u32_range base).
  unfold store_op, mbind, M_bind. rewrite (pop_of_spec _ t v _ Hh Hvt Ht).
  rewrite (pop_i32_spec _ base vs) by (by eapply holding_cons). unfold address.
  rewrite (on_memory_spec _ m) by (destruct Hrun; by split). rewrite Hc. case_decide as Hb.
  - by rewrite (writers_in m _ _ n wr Hwr (run_wf _ _ Hrun) Hb) by (apply wrap_range; lia).
  - destruct (writers_out m (as_u32 base + o) (wrap (8 * Z.of_nat n) (bits v)) n wr) as [[e ->] ->];
      [done|lia|done|]. simpl. f_equal. apply with_same_memory, Hrun.
Qed.

(** ** Bulk operations *)

(** [memory.fill] and [memory.copy] take their operands as [usize], which
    extends the sign of the [i32]. *)
Lemma range_exceeds_iff m a n :
  memory_wf m → 0 ≤ a → 0 ≤ n → range_exceeds a n (memory_size m) = false ↔ in_bounds m a n.
Proof.
  intros Hwf Ha Hn. pose proof (memory_size_bound m Hwf). unfold MAX_MEMORY_SIZE in *.
  unfold range_exceeds, checked_add, in_bounds. destruct (Z.ltb_spec (a + n) (2 ^ 64)).
  - rewrite Z.ltb_ge. lia.
  - split; [done|]. lia.
Qed.

Lemma as_usize_range z : 0 ≤ as_usize z.
Proof. by apply wrap_range. Qed.

Lemma fill_spec s m n v d vs :
  running_with s m → holding s (I32 n :: I32 v :: I32 d :: vs) →
  exec_memory_fill s =
  if decide (in_bounds m (as_usize d) (as_usize n))
  then (Ok tt, with_memory (patched m (as_usize d) (replicate (Z.to_nat (as_usize n)) (as_u8 v)))
                 (with_values vs s))
  else (Err (TrapMemoryOutOfBounds (as_usize d) (as_usize n) (memory_size m)), with_values vs s).
Proof.
  intros Hrun Hh. pose proof (as_usize_range n). pose proof (as_usize_range d).
  unfold exec_memory_fill, mbind, M_bind. rewrite (pop_i32_spec _ _ _ Hh).
  rewrite (pop_i32_spec _ v (I32 d :: vs)) by (by eapply holding_cons).
  rewrite (pop_i32_spec _ d vs) by (by do 2 eapply holding_cons).
  unfold on_ctx, zoom, on_memory. simpl. rewrite (run_memory _ _ Hrun). unfold get.
  pose proof (range_exceeds_iff m (as_usize d) (as_usize n) (run_wf _ _ Hrun)) as Hr.
  destruct (range_exceeds (as_usize d) (as_usize n) (memory_size m)).
  - rewrite decide_False by (intros Hb; by apply Hr in Hb). simpl. f_equal.
    apply (with_same_memory (with_values vs s)), Hrun.
  - assert (Hb : in_bounds m (as_usize d) (as_usize n)) by (by apply Hr).
    rewrite decide_True by done. unfold memory_op. rewrite memory_fill_bytes by done.
    rewrite write_bytes_in; [done|by apply Hrun|].
    unfold len. rewrite length_replicate. by rewrite Z2Nat.id by lia.
Qed.

Lemma copy_spec s m n a d vs :
  running_with s m → holding s (I32 n :: I32 a :: I32 d :: vs) →
  exec_memory_copy s =
  if decide (in_bounds m (as_usize a) (as_usize n) ∧ in_bounds m (as_usize d) (as_usize n))
  then (Ok tt, with_memory (patched m (as_usize d)
                              (slice (mem_data m) (as_usize a) (as_usize a + as_usize n)))
                 (with_values vs s))
  else (Err (TrapMemoryOutOfBounds (Z.max (as_usize d) (as_usize a)) (as_usize n) (memory_size m)),
        with_values vs s).
Proof.
  intros Hrun Hh. pose proof (as_usize_range n). pose proof (as_usize_range a).
  pose proof (as_usize_range d). unfold exec_memory_copy, mbind, M_bind.
  rewrite (pop_i32_spec _ _ _ Hh).
  rewrite (pop_i32_spec _ a (I32 d :: vs)) by (by eapply holding_cons).
  rewrite (pop_i32_spec _ d vs) by (by do 2 eapply holding_cons).
  unfold on_ctx, zoom, on_memory. simpl. rewrite (run_memory _ _ Hrun). unfold get.
  pose proof (range_exceeds_iff m (as_usize a) (as_usize n) (run_wf _ _ Hrun)) as Hra.
  pose proof (range_exceeds_iff m (as_usize d) (as_usize n) (run_wf _ _ Hrun)) as Hrd.
  destruct (range_exceeds (as_usize a) _ _ || range_exceeds (as_usize d) _ _) eqn:Er.
  - rewrite decide_False. { simpl. f_equal. apply (with_same_memory (with_values vs s)), Hrun. }
    intros [Ha Hd]. apply Hra in Ha; [|done..]. apply Hrd in Hd; [|done..]. by rewrite Ha, Hd in Er.
  - apply orb_false_elim in Er as [Ha Hd]. apply Hra in Ha; [|done..]. apply Hrd in Hd; [|done..].
    rewrite decide_True by done. unfold memory_op. by rewrite copy_within_in by (done || apply Hrun).
Qed.

Lemma load_exec s m i n o c base vs :
  load_sig i = Some (n, o, c) → 0 ≤ o → running_with s m → holding s (I32 base :: vs) →
  execute_instruction i s =
  if decide (in_bounds m (as_u32 base + o) (Z.of_nat n))
  then (Ok CF_Continue, with_values (c (le_at m n (as_u32 base + o)) :: vs) s)
  else (Err (TrapMemoryOutOfBounds (as_u32 base + o) (Z.of_nat n) (memory_size m)), with_values vs s).
Proof.
  intros Hs Ho Hrun Hh. destruct (load_sig_exec i n o c Hs) as (Hc & rd & Hrd & He).
  rewrite (execute_straight i _ s Hc He) by apply Hrun.
  unfold continue, mbind, M_bind. rewrite (load_op_spec s m n rd c o base vs) by done. by case_decide.
Qed.

Lemma store_exec s m i t n o v base vs :
  store_sig i = Some (t, n, o) → 0 ≤ o → running_with s m → holding s (v :: I32 base :: vs) →
  value_ok v → value_type v = t →
  execute_instruction i s =
  if decide (in_bounds m (as_u32 base + o) (Z.of_nat n))
  then (Ok CF_Continue, with_memory (stored m n (as_u32 base + o) v) (with_values vs s))
  else (Err (TrapMemoryOutOfBounds (as_u32 base + o) (Z.of_nat n) (memory_size m)), with_values vs s).
Proof.
  intros Hs Ho Hrun Hh Hv Ht. destruct (store_sig_exec i t n o Hs) as (Hc & Htn & wr & c & Hwr & He & Hcv).
  rewrite (execute_straight i _ s Hc He) by apply Hrun. unfold continue, mbind, M_bind.
  rewrite (store_op_spec s m t n wr c o v base vs) by (try done; by apply Hcv). by case_decide.
Qed.



(** ** Variables *)

(** The global at an index. *)
Definition global_at (s : exec_state) (idx : Z) : option GlobalValue := vget (ctx_globals (st_ctx s)) idx.

(** Everything but the operand is as before when the index is out of range. *)
Lemma local_set_exec s fr callers idx v vs :
  st_calls s = fr :: callers → holding s (v :: vs) →
  execute_instruction (LocalSet idx) s =
    (Ok CF_Continue,
     match vget (cf_locals fr) idx with
     | Some _ => set_calls (with_locals (vset (cf_locals fr) idx v) fr :: callers) (with_values vs s)
     | None => with_values vs s
     end).
Proof.
  intros Hc [Hv _]. rewrite (execute_straight (LocalSet idx) _ s eq_refl eq_refl) by (by rewrite Hc).
  destruct s as [c [l d] k]. simpl in Hv, Hc. subst l k.
  unfold continue, set_local, mbind, M_bind, on_stack, zoom, stack_pop, cur_frame. simpl.
  by destruct (vget (cf_locals fr) idx).
Qed.

Lemma global_set_exec s idx v vs :
  st_calls s ≠ [] → holding s (v :: vs) →
  execute_instruction (GlobalSet idx) s =
    (Ok CF_Continue,
     match vget (ctx_globals (st_ctx s)) idx with
     | Some g => set_ctx (with_globals (vset (ctx_globals (st_ctx s)) idx (mkGlobalValue v (gv_mutable g)))
                            (st_ctx s)) (with_values vs s)
     | None => with_values vs s
     end).
Proof.
  intros Hc [Hv _]. rewrite (execute_straight (GlobalSet idx) _ s eq_refl eq_refl) by done.
  destruct s as [c [l d] k]. simpl in Hv, Hc. subst l.
  unfold continue, set_global, mbind, M_bind, on_stack, zoom, stack_pop, gets. simpl.
  by destruct (vget (ctx_globals c) idx).
Qed.

(** ** Properties *)

(** C11. Loads.  A load instruction pops a 32-bit address, treats it as
    unsigned, adds the static offset without wrapping around, and pushes the
    little-endian value of the bytes there, sign- or zero-extended as the
    instruction says.  An access that would leave the memory traps, with the
    address, the width and the size of the memory in the trap; nothing else
    changes. *)
Theorem load_correct s m i n o c base vs :
  load_sig i = Some (n, o, c) → 0 ≤ o → running_with s m → holding s (I32 base :: vs) →
  execute_instruction i s =
  if decide (in_bounds m (as_u32 base + o) (Z.of_nat n))
  then (Ok CF_Continue, with_values (c (le_at m n (as_u32 base + o)) :: vs) s)
  else (Err (TrapMemoryOutOfBounds (as_u32 base + o) (Z.of_nat n) (memory_size m)), with_values vs s).
Proof. apply load_exec. Qed.

(** Stores.  A store instruction pops a value and an address and writes the
    low bytes of the value there, little-endian, in one piece; all other bytes,
    memories, tables, globals and frames are untouched, and a store that would
    leave the memory traps before it writes anything. *)
Theorem store_correct s m i t n o v base vs :
  store_sig i = Some (t, n, o) → 0 ≤ o → running_with s m → holding s (v :: I32 base :: vs) →
  value_ok v → value_type v = t →
  execute_instruction i s =
  if decide (in_bounds m (as_u32 base + o) (Z.of_nat n))
  then (Ok CF_Continue, with_memory (stored m n (as_u32 base + o) v) (with_values vs s))
  else (Err (TrapMemoryOutOfBounds (as_u32 base + o) (Z.of_nat n) (memory_size m)), with_values vs s).
Proof. apply store_exec. Qed.

(** [memory.fill] and [memory.copy].  Operands are popped in the order
    length, value or source, destination.  A fill inside the memory sets
    exactly its range; a copy moves the bytes the source held before, also when
    the ranges overlap; a range that leaves the memory traps and changes
    nothing.  Addresses are the operands as 64-bit unsigned numbers. *)
Theorem bulk_memory_correct s m n x d vs :
  running_with s m → holding s (I32 n :: I32 x :: I32 d :: vs) →
  execute_instruction MemoryFill s =
    (if decide (in_bounds m (as_usize d) (as_usize n))
     then (Ok CF_Continue, with_memory (patched m (as_usize d)
             (replicate (Z.to_nat (as_usize n)) (as_u8 x))) (with_values vs s))
     else (Err (TrapMemoryOutOfBounds (as_usize d) (as_usize n) (memory_size m)), with_values vs s)) ∧
  execute_instruction MemoryCopy s =
    (if decide (in_bounds m (as_usize x) (as_usize n) ∧ in_bounds m (as_usize d) (as_usize n))
     then (Ok CF_Continue, with_memory (patched m (as_usize d)
             (slice (mem_data m) (as_usize x) (as_usize x + as_usize n))) (with_values vs s))
     else (Err (TrapMemoryOutOfBounds (Z.max (as_usize d) (as_usize x)) (as_usize n) (memory_size m)),
           with_values vs s)).
Proof.
  intros Hrun Hh. split.
  - rewrite (execute_straight MemoryFill exec_memory_fill) by (done || apply Hrun).
    unfold continue, mbind, M_bind. rewrite (fill_spec s m n x d vs) by done. by case_decide.
  - rewrite (execute_straight MemoryCopy exec_memory_copy) by (done || apply Hrun).
    unfold continue, mbind, M_bind. rewrite (copy_spec s m n x d vs) by done. by case_decide.
Qed.

(** Because the operands are sign-extended, a [memory.fill] at an address of
    2 GiB or more always traps, however large the memory is. *)
Theorem fill_high_address_traps s m n x d vs :
  running_with s m → holding s (I32 n :: I32 x :: I32 d :: vs) → in_s 32 d → d < 0 →
  ∃ e s', execute_instruction MemoryFill s = (Err e, s').
Proof.
  intros Hrun Hh Hd Hneg. rewrite (execute_straight MemoryFill exec_memory_fill) by (done || apply Hrun).
  unfold continue, mbind, M_bind. rewrite (fill_spec s m n x d vs) by done.
  rewrite decide_False; [by do 2 eexists|]. intros (_ & _ & Hb). pose proof (as_usize_range n).
  pose proof (memory_size_bound m (run_wf _ _ Hrun)). unfold MAX_MEMORY_SIZE in *.
  assert (Hu : as_usize d = d + 2 ^ 64).
  { unfold as_usize. rewrite wrap_in_s by (done || unfold in_s in *; lia). by rewrite (proj2 (Z.ltb_lt _ _)). }
  unfold in_s in Hd. lia.
Qed.



(** A local that is set can be read: after [local.set] of an existing local
    the running frame differs only in that local, and [local.get] pushes the
    value; an index out of range is ignored by [local.set] although
    [local.get] traps on it. *)
Theorem local_set_get s fr callers idx v vs :
  st_calls s = fr :: callers → holding s (v :: vs) → 0 ≤ idx →
  ∃ s1, execute_instruction (LocalSet idx) s = (Ok CF_Continue, s1) ∧
    execute_instruction (LocalGet idx) s1 =
      if decide (idx < len (cf_locals fr)) then (Ok CF_Continue, with_values (v :: vs) s1)
      else (Err (TrapExecutionError "local index OOB"), s1).
Proof.
  intros Hc Hh Hi. rewrite (local_set_exec s fr callers idx v vs) by done.
  eexists. split; [reflexivity|].
  assert (Hd : len vs < max_depth (st_stack s)) by (destruct Hh as [_ Hd]; rewrite len_cons in Hd; lia).
  rewrite (execute_straight (LocalGet idx) _ _ eq_refl eq_refl)
    by (destruct (vget _ idx); simpl; by rewrite ?Hc).
  unfold continue, mbind, M_bind. case_decide as Hlt.
  - destruct (vget_lt (cf_locals fr) idx) as [x Hx]; [lia|]. rewrite Hx. unfold cur_frame. simpl.
    rewrite vget_vset by lia. rewrite Z.eqb_refl. simpl.
    rewrite (push_spec _ v vs); [done| |done]. split; simpl; [done|lia].
  - rewrite (proj2 (vget_None _ _ Hi)) by lia. unfold cur_frame. simpl. rewrite Hc.
    by rewrite (proj2 (vget_None _ _ Hi)) by lia.
Qed.

(** [global.set] writes every global, also an immutable one: neither the
    executor nor the validator looks at the mutability, which is only kept. *)
Theorem global_set_ignores_mutability s idx g v vs :
  st_calls s ≠ [] → holding s (v :: vs) → global_at s idx = Some g →
  ∃ s1, execute_instruction (GlobalSet idx) s = (Ok CF_Continue, s1) ∧
    global_at s1 idx = Some (mkGlobalValue v (gv_mutable g)).
Proof.
  unfold global_at. intros Hc Hh Hg. rewrite (global_set_exec s idx v vs) by done. rewrite Hg.
  eexists. split; [reflexivity|]. simpl. pose proof Hg as [? _]%vget_Some.
  rewrite vget_vset by lia. by rewrite Z.eqb_refl.
Qed.
End access.

(** ** Witnesses *)

Section witnesses.
#[local] Existing Instance demo_embedding.
#[local] Existing Instance demo_host.
#[local] Existing Instance canonical_nan.

Definition one_page_context : ExecutorContext :=
  mkContext div_module [one_page] [] [mkGlobalValue (I32 1) false] [None] (Some 10) [] [] None None None.
Definition with_operands (vs : list WasmValue) : exec_state :=
  mkExec one_page_context (mkStack vs 16384) [mkCallFrame 0 [I32 3] 1 0 0 [] false].

Lemma with_operands_running vs : running_with (with_operands vs) one_page.
Proof. split; [done|reflexivity|apply one_page_wf]. Qed.

Lemma with_operands_holding vs : len vs ≤ 16384 → holding (with_operands vs) vs.
Proof. by split. Qed.

Lemma load_correct_witness :
  execute_instruction (I32Load8U 0 4) (with_operands [I32 (-1)]) =
    (Err (TrapMemoryOutOfBounds 4294967299 1 65536), with_operands []).
Proof.
  rewrite (load_correct (with_operands [I32 (-1)]) one_page (I32Load8U 0 4) 1 4 I32 (-1) []);
    [|reflexivity|done|apply with_operands_running|by apply with_operands_holding].
  rewrite decide_False by (intros (_ & _ & Hb); rewrite one_page_size in Hb; vm_compute in Hb; by destruct Hb).
  by rewrite one_page_size.
Defined.

Lemma store_correct_witness :
  execute_instruction (I64Store16 0 0) (with_operands [I64 (-2); I32 8]) =
    (Ok CF_Continue, with_memory (stored one_page 2 8 (I64 (-2))) (with_operands [])).
Proof.
  rewrite (store_correct (with_operands [I64 (-2); I32 8]) one_page (I64Store16 0 0) TI64 2 0 (I64 (-2)) 8 []);
    [|reflexivity|done|apply with_operands_running|by apply with_operands_holding|ok_tac|reflexivity].
  by rewrite decide_True by (by apply one_page_bounds).
Defined.

Lemma bulk_memory_correct_witness :
  execute_instruction MemoryFill (with_operands [I32 4; I32 255; I32 8]) =
    (Ok CF_Continue, with_memory (patched one_page 8 [255; 255; 255; 255]) (with_operands [])).
Proof.
  rewrite (proj1 (bulk_memory_correct (with_operands [I32 4; I32 255; I32 8]) one_page 4 255 8 []
    (with_operands_running _) (with_operands_holding [I32 4; I32 255; I32 8] ltac:(done)))).
  by rewrite decide_True by (by apply one_page_bounds).
Defined.

Lemma fill_high_address_traps_witness :
  ∃ e s', execute_instruction MemoryFill (with_operands [I32 1; I32 0; I32 (-2147483648)]) = (Err e, s').
Proof.
  apply (fill_high_address_traps (with_operands [I32 1; I32 0; I32 (-2147483648)]) one_page 1 0
    (-2147483648) []); [apply with_operands_running|by apply with_operands_holding|ok_tac|lia].
Defined.



Lemma local_set_get_witness :
  ∃ s1, execute_instruction (LocalSet 0) (with_operands [I64 9]) = (Ok CF_Continue, s1) ∧
    execute_instruction (LocalGet 0) s1 = (Ok CF_Continue, with_values [I64 9] s1).
Proof.
  apply (local_set_get (with_operands [I64 9]) (mkCallFrame 0 [I32 3] 1 0 0 [] false) [] 0 (I64 9) []);
    [reflexivity|by apply with_operands_holding|done].
Defined.

Lemma global_set_ignores_mutability_witness :
  ∃ s1, execute_instruction (GlobalSet 0) (with_operands [I32 2]) = (Ok CF_Continue, s1) ∧
    global_at s1 0 = Some (mkGlobalValue (I32 2) false).
Proof.
  apply (global_set_ignores_mutability (with_operands [I32 2]) 0 (mkGlobalValue (I32 1) false) (I32 2) []);
    [done|by apply with_operands_holding|reflexivity].
Defined.
End witnesses.
