(* ===== verification/Effect.v ===== *)
(** The stack effect of the instructions: the tables of
    [runtime/src/opcodes.rs] against what the executor does.

    [effect size m k] says that every successful run of [m] changes [size] of
    the state by [k]; effects add up along a sequence. *)

From S2P Require Import Prelude Types Opcodes Memory Machine Floats Numeric Context Executor.
From S2P Require Import Invariant Instantiate Demo Loop Control Access.

Definition effect {S E A} (size : S → Z) (m : M S E A) (k : Z) : Prop :=
  ∀ s a s', m s = (Ok a, s') → size s' = size s + k.

Section effect.
Context {S E : Type} (size : S → Z).

Lemma effect_ret {A} (a : A) : effect (E := E) size (mret a) 0.
Proof. intros s b s' [= <- <-]. lia. Qed.

Lemma effect_bind {A B} (m : M S E A) (f : A → M S E B) k k' :
  effect size m k → (∀ a, effect size (f a) k') → effect size (m ≫= f) (k + k').
Proof.
  intros Hm Hf s b s'. unfold mbind, M_bind. destruct (m s) as [[a|e|] s1] eqn:Em; try done.
  intros Hb. apply Hm in Em. apply Hf in Hb. lia.
Qed.

Lemma effect_throw {A} e k : effect size (throw e : M S E A) k.
Proof. by intros s a s' [=]. Qed.

Lemma effect_gets {A} (f : S → A) : effect (E := E) size (gets f) 0.
Proof. intros s b s' [= <- <-]. lia. Qed.

Lemma effect_lift {A} (o : outcome E A) : effect size (lift o) 0.
Proof. intros s a s'. destruct o; intros [=]. subst. lia. Qed.

Lemma effect_ok_or {A} (o : option A) e : effect (E := E) size (ok_or o e) 0.
Proof. intros s a s'. destruct o; intros [=]. subst. lia. Qed.

Lemma effect_modify (f : S → S) : (∀ s, size (f s) = size s) → effect (E := E) size (modify f) 0.
Proof. intros Hf s a s' [= <- <-]. rewrite Hf. lia. Qed.

Lemma effect_eq {A} (m : M S E A) k k' : effect size m k → k = k' → effect size m k'.
Proof. by intros ? <-. Qed.
End effect.

(** ** On the operand stack *)

Lemma effect_push v : effect stack_len (stack_push v) 1.
Proof.
  intros s a s'. unfold stack_push. zcase; intros [=]. subst. unfold stack_len. simpl.
  rewrite len_cons. lia.
Qed.

Lemma effect_pop : effect stack_len stack_pop (-1).
Proof.
  intros s a s'. unfold stack_pop, stack_len. destruct (values s); intros [=]. subst. simpl.
  rewrite len_cons. lia.
Qed.

Lemma effect_peek : effect stack_len stack_peek 0.
Proof. intros s a s'. unfold stack_peek. destruct (values s); intros [=]. subst. lia. Qed.

Lemma effect_popper pop t ok : popper pop t ok → effect stack_len pop (-1).
Proof.
  intros Hp s a s' Hs. destruct (popper_inv _ _ _ Hp _ _ _ Hs) as (v & Hv & _).
  unfold stack_len. rewrite Hv, len_cons. lia.
Qed.

Lemma effect_pop_i32 : effect stack_len stack_pop_i32 (-1).
Proof.
  apply (effect_bind _ _ _ (-1) 0); [apply effect_pop|].
  intros []; first [apply effect_ret | apply effect_throw].
Qed.

Lemma effect_shaped m ps r : shaped m ps r → effect stack_len m (1 - len ps).
Proof.
  destruct 1 as [v r _|pop t ok f r Hp _|pop t ok f r Hp _|pop t ok f r Hp _|pop t ok f r Hp _];
    try apply effect_popper in Hp; unfold unop, unop_try, binop, binop_try.
  - apply effect_push.
  - eapply (effect_bind _ _ _ (-1) 1); [done|]. intros a. apply effect_push.
  - eapply (effect_bind _ _ _ (-1) 1); [done|]. intros a. apply (effect_bind _ _ _ 0 1); [apply effect_lift|].
    intros v. apply effect_push.
  - eapply (effect_bind _ _ _ (-1) 0); [done|]. intros b. eapply (effect_bind _ _ _ (-1) 1); [done|].
    intros a. apply effect_push.
  - eapply (effect_bind _ _ _ (-1) 0); [done|]. intros b. eapply (effect_bind _ _ _ (-1) 1); [done|].
    intros a. apply (effect_bind _ _ _ 0 1); [apply effect_lift|]. intros v. apply effect_push.
Qed.

(** ** On the state of the executor *)

Section state.
Context `{Embedding} `{!HostCalls} `{FloatEnv}.

Definition operands (s : exec_state) : Z := stack_len (st_stack s).

Lemma effect_on_stack {A} (m : M ValueStack TrapError A) k :
  effect stack_len m k → effect operands (on_stack m) k.
Proof.
  intros Hm s a s'. unfold on_stack, zoom. destruct (m (st_stack s)) as [[b|e|] t] eqn:Em; intros [=].
  subst. by apply Hm in Em.
Qed.

Lemma effect_on_ctx {A} (m : M ExecutorContext TrapError A) : effect operands (on_ctx m) 0.
Proof.
  intros s a s'. unfold on_ctx, zoom. destruct (m (st_ctx s)) as [[b|e|] t]; intros [=].
  subst. unfold operands. simpl. lia.
Qed.

Lemma effect_cur_frame : effect operands cur_frame 0.
Proof. intros s a s'. unfold cur_frame. destruct (st_calls s); intros [=]. subst. lia. Qed.

Lemma effect_set_frame fr : effect operands (set_frame fr) 0.
Proof.
  intros s a s'. unfold set_frame. destruct (st_calls s); intros [=]. subst.
  unfold operands. simpl. lia.
Qed.

(** One step along the structure of an operation. *)
Ltac effect_step :=
  cbv zeta;
  lazymatch goal with
  | |- effect _ (_ ≫= _) _ => eapply effect_bind; [|intros ?]
  | |- effect _ (on_stack stack_pop_i32) _ => apply effect_on_stack, effect_pop_i32
  | |- effect _ (on_stack stack_pop) _ => apply effect_on_stack, effect_pop
  | |- effect _ (on_stack stack_peek) _ => apply effect_on_stack, effect_peek
  | |- effect _ (on_stack (stack_push _)) _ => apply effect_on_stack, effect_push
  | |- effect _ (on_ctx _) _ => apply effect_on_ctx
  | |- effect _ cur_frame _ => apply effect_cur_frame
  | |- effect _ (set_frame _) _ => apply effect_set_frame
  | |- effect _ (mret _) _ => apply effect_ret
  | |- effect _ (gets _) _ => apply effect_gets
  | |- effect _ (lift _) _ => apply effect_lift
  | |- effect _ (ok_or _ _) _ => apply effect_ok_or
  | |- effect _ (throw _) _ => apply effect_throw
  | |- effect _ (modify (set_ctx _)) _ => apply effect_modify; intros ?; reflexivity
  end.

Lemma effect_set_local idx v : effect operands (set_local idx v) 0.
Proof. apply (effect_bind _ _ _ 0 0); [apply effect_cur_frame|]. intros fr. destruct (vget _ _); effect_step. Qed.

Lemma effect_set_global idx v : effect operands (set_global idx v) 0.
Proof. apply (effect_bind _ _ _ 0 0); [apply effect_gets|]. intros c. destruct (vget _ _); effect_step. Qed.

Lemma effect_read_entries t a n : ∀ i, effect operands (read_entries t a i n) 0.
Proof.
  induction n as [|n IH]; intros i; simpl; [apply effect_ret|].
  apply (effect_bind _ _ _ 0 0).
  { intros s x s'. unfold add_or_panic, unwrap. destruct (checked_add _ _ _); intros [=]. subst. lia. }
  intros j. apply (effect_bind _ _ _ 0 0); [apply effect_lift|]. intros v.
  apply (effect_bind _ _ _ 0 0); [apply IH|]. intros vs. apply effect_ret.
Qed.

(** The effect of each group, as the table states it. *)
Definition table_effect (i : Instruction) : option Z :=
  match stack_pop_count i, stack_push_count i with
  | Some p, Some q => Some (q - p)
  | _, _ => None
  end.

Definition has_table_effect (i : Instruction) (m : M exec_state TrapError unit) : Prop :=
  ∃ k, table_effect i = Some k ∧ effect operands m k.

Ltac effect_sum :=
  solve [eexists; (split; [reflexivity|]); eapply effect_eq;
         [repeat first [effect_step | apply effect_set_local | apply effect_set_global]|reflexivity]].

Lemma effect_variable i m : exec_variable i = Some m → has_table_effect i m.
Proof. destruct i; intros [= <-]; effect_sum. Qed.

Lemma effect_load i m : exec_load i = Some m → has_table_effect i m.
Proof. destruct i; intros [= <-]; unfold load_op; effect_sum. Qed.

Lemma effect_store i m : exec_store i = Some m → has_table_effect i m.
Proof.
  assert (Hs : ∀ pop t ok n wr c o,
    popper pop t ok → effect operands (store_op pop n wr c o) (-2)).
  { intros pop t ok n wr c o Hp. apply (effect_bind _ _ _ (-1) (-1)).
    - eapply effect_on_stack, effect_popper, Hp.
    - intros v. apply (effect_bind _ _ _ (-1) 0); [effect_step|]. intros b. effect_step. }
  destruct i; intros [= <-]; (eexists; (split; [reflexivity|])); eapply Hs;
    first [apply popper_i32 | apply popper_i64 | apply popper_f32 | apply popper_f64].
Qed.

Lemma effect_reference i m : exec_reference i = Some m → has_table_effect i (on_stack m).
Proof.
  destruct i; intros [= <-]; (eexists; (split; [reflexivity|])); apply effect_on_stack.
  - apply effect_push.
  - apply (effect_bind _ _ _ (-1) 1); [apply effect_pop|]. intros v. apply effect_push.
  - apply effect_push.
  - apply (effect_bind _ _ _ (-1) 0); [apply effect_pop|]. intros v. apply effect_ret.
  - apply (effect_bind _ _ _ (-1) (-1)); [apply effect_pop_i32|]. intros c.
    apply (effect_bind _ _ _ (-1) 0); [apply effect_pop|]. intros v2.
    apply (effect_bind _ _ _ (-1) 1); [apply effect_pop|]. intros v1. apply effect_push.
Qed.

(** The three operands of a bulk operation, then the rest. *)
Lemma effect_three {A B C} (p1 : M exec_state TrapError A) (p2 : M exec_state TrapError B)
    (p3 : M exec_state TrapError C) (f : A → B → C → M exec_state TrapError unit) :
  effect operands p1 (-1) → effect operands p2 (-1) → effect operands p3 (-1) →
  (∀ a b c, effect operands (f a b c) 0) →
  effect operands (a ← p1; b ← p2; c ← p3; f a b c) (-3).
Proof.
  intros H1' H2 H3 Hf. apply (effect_bind _ _ _ (-1) (-2)); [done|]. intros a.
  apply (effect_bind _ _ _ (-1) (-1)); [done|]. intros b.
  apply (effect_bind _ _ _ (-1) 0); [done|]. intros c. apply Hf.
Qed.

Lemma effect_table i m : exec_table i = Some m → has_table_effect i m.
Proof.
  destruct i; intros [= <-]; unfold exec_table_grow, exec_table_fill; try effect_sum.
  - eexists; (split; [reflexivity|]). apply effect_three; [effect_step..|]. intros n a b.
    apply (effect_bind _ _ _ 0 0); [effect_step|]. intros c.
    apply (effect_bind _ _ _ 0 0); [effect_step|]. intros e. destruct (match _ with Some _ => _ | None => _ end); effect_step.
  - eexists; (split; [reflexivity|]). apply (effect_bind _ _ _ 0 0); [effect_step|]. intros c.
    cbv zeta. destruct (vget _ _); effect_step.
  - eexists; (split; [reflexivity|]). apply effect_three; [effect_step..|]. intros n a b.
    destruct (_ =? _); [effect_step|]. apply (effect_bind _ _ _ 0 0); [effect_step|]. intros c.
    apply (effect_bind _ _ _ 0 0); [effect_step|]. intros t.
    apply (effect_bind _ _ _ 0 0); [apply effect_read_entries|]. intros es. effect_step.
Qed.

Lemma effect_memory i m : exec_memory i = Some m → has_table_effect i m.
Proof.
  destruct i; intros [= <-]; unfold exec_memory_copy, exec_memory_fill; try effect_sum.
  - eexists; (split; [reflexivity|]). apply (effect_bind _ _ _ (-1) 1); [effect_step|]. intros n.
    apply (effect_bind _ _ _ 0 1); [effect_step|]. intros c. destruct (vget _ _) as [mem|]; [|effect_step].
    destruct (memory_grow _ mem). apply (effect_bind _ _ _ 0 1); [effect_step|]. intros u. effect_step.
  - eexists; (split; [reflexivity|]). apply effect_three; [effect_step..|]. intros n a b.
    apply (effect_bind _ _ _ 0 0); [effect_step|]. intros c.
    apply (effect_bind _ _ _ 0 0); [effect_step|]. intros e.
    apply (effect_bind _ _ _ 0 0); [effect_step|]. intros x. destruct (_ <? _); effect_step.
  - eexists; (split; [reflexivity|]). apply (effect_bind _ _ _ 0 0); [effect_step|]. intros c.
    cbv zeta. destruct (vget _ _); effect_step.
Qed.

Lemma effect_numeric i m : exec_numeric i = Some m → instr_ok i → has_table_effect i (on_stack m).
Proof.
  intros Hm Hi. destruct (exec_numeric_sig i m Hm) as (ps & r & Hs).
  destruct (numeric_shaped i ps r Hs Hi) as (m' & Hm' & Hsh). rewrite Hm in Hm'. injection Hm' as <-.
  exists (1 - len ps). split; [|by eapply effect_on_stack, effect_shaped].
  clear Hm Hsh. destruct i; try discriminate Hs; by injection Hs as <- <-.
Qed.

Lemma effect_straight i m : exec_straight i = Some m → instr_ok i → has_table_effect i m.
Proof.
  unfold exec_straight, first_some. simpl. intros Hm Hi.
  destruct (exec_reference i) eqn:E1; [injection Hm as <-; by apply effect_reference|].
  destruct (exec_variable i) eqn:E2; [injection Hm as <-; by apply effect_variable|].
  destruct (exec_table i) eqn:E3; [injection Hm as <-; by apply effect_table|].
  destruct (exec_load i) eqn:E4; [injection Hm as <-; by apply effect_load|].
  destruct (exec_store i) eqn:E5; [injection Hm as <-; by apply effect_store|].
  destruct (exec_memory i) eqn:E6; [injection Hm as <-; by apply effect_memory|].
  destruct (exec_numeric i) eqn:E7; [injection Hm as <-; by apply effect_numeric|done].
Qed.

(** ** Properties *)

(** C13. The stack tables are right.  For every instruction that is not control
    flow, a successful execution changes the number of operands by exactly what
    [stack_pop_count] and [stack_push_count] say, and goes on with the next
    instruction. *)
Theorem stack_tables_correct i s f s' :
  instr_ok i → exec_control i = None → execute_instruction i s = (Ok f, s') →
  f = CF_Continue ∧
  ∃ p q, stack_pop_count i = Some p ∧ stack_push_count i = Some q ∧
    operands s' = operands s - p + q.
Proof.
  intros Hi Hc He. destruct (exec_total i) as [Hx|[m Hm]]; [rewrite Hc in Hx; by destruct Hx|].
  destruct (effect_straight i m Hm Hi) as (k & Hk & Hek). unfold table_effect in Hk.
  destruct (stack_pop_count i) as [p|]; [|done]. destruct (stack_push_count i) as [q|]; [|done].
  destruct (st_calls s) as [|fr l] eqn:Es.
  { unfold execute_instruction, mbind, M_bind, cur_frame in He. by rewrite Es in He. }
  rewrite (execute_straight i m s Hc Hm) in He by (by rewrite Es). unfold continue, mbind, M_bind in He.
  destruct (m s) as [[[]|e|] s1] eqn:Em; try done. injection He as <- <-. split; [done|].
  exists p, q. split_and!; [done..|]. apply Hek in Em. injection Hk as <-. lia.
Qed.
End state.

(** ** Witnesses *)

Section witnesses.
#[local] Existing Instance demo_embedding.
#[local] Existing Instance demo_host.
#[local] Existing Instance canonical_nan.

Lemma stack_tables_correct_witness :
  execute_instruction Select (with_operands [I32 0; I64 2; I64 1]) =
    (Ok CF_Continue, with_operands [I64 2]) ∧
  operands (with_operands [I64 2]) = 3 - 3 + 1.
Proof.
  assert (He : execute_instruction Select (with_operands [I32 0; I64 2; I64 1]) =
    (Ok CF_Continue, with_operands [I64 2])) by reflexivity.
  split; [exact He|].
  destruct (stack_tables_correct Select _ _ _ I eq_refl He) as (_ & p & q & Hp & Hq & Hl).
  injection Hp as <-. injection Hq as <-. exact Hl.
Defined.
End witnesses.
