(* ===== verification/Reader.v ===== *)
(** The binary reader of [runtime/src/parser.rs] (lines 63-279).

    [BinaryReader] is the data with a position; every [read_*] method is in
    [M BinaryReader ParseError].  The loops of the LEB128 readers run at most
    [lim / 7 + 2] times, which is the fuel they are given.  A loop that uses up its
    fuel returns an error of its own, [hung], which no loop of the source returns. *)

From S2P Require Import Prelude.

(** [ParseError]. *)
Record ParseError : Type := mkParseError { pe_message : string; pe_offset : Z }.

(** [Display] of [ParseError]. *)
Definition parse_error_display (e : ParseError) : string :=
  "Parse error at offset " +:+ hex (pe_offset e) +:+ ": " +:+ pe_message e.

(** Not an error of the source: what a loop of the model returns when its fuel is used
    up.  Offsets are of type [usize], so no error of the source is one of these. *)
Definition hung : ParseError := mkParseError "the loop goes on" (-1).
Definition genuine (e : ParseError) : Prop := 0 ≤ pe_offset e.
Definition is_hung (e : ParseError) : bool := pe_offset e <? 0.

(** [BinaryReader]. *)
Record BinaryReader : Type := mkReader { rd_data : list Z; rd_pos : Z }.

Abbreviation Reader := (M BinaryReader ParseError).

(** [BinaryReader::new]. *)
Definition reader_new (data : list Z) : BinaryReader := mkReader data 0.

(** [sub_reader]. *)
Definition sub_reader (offset length : Z) : Reader BinaryReader :=
  e ← add_or_panic 64 offset length;
  r ← get;
  if len (rd_data r) <? e then throw (mkParseError "Sub-reader bounds exceed data" offset)
  else mret (mkReader (slice (rd_data r) offset e) 0).

(** [position], [remaining], [is_empty]. *)
Definition position : Reader Z := gets rd_pos.
Definition remaining (r : BinaryReader) : Z := Z.max 0 (len (rd_data r) - rd_pos r).
Definition is_empty (r : BinaryReader) : bool := len (rd_data r) <=? rd_pos r.

Definition advance (r : BinaryReader) (n : Z) : BinaryReader :=
  mkReader (rd_data r) (rd_pos r + n).

(** [peek_byte]. *)
Definition peek_byte : Reader Z :=
  r ← get;
  if is_empty r then throw (mkParseError "Unexpected end of data" (rd_pos r))
  else unwrap (vget (rd_data r) (rd_pos r)).

(** [read_byte]. *)
Definition read_byte : Reader Z :=
  b ← peek_byte;
  modify (λ r, advance r 1);;
  mret b.

(** [read_bytes]. *)
Definition read_bytes (n : Z) : Reader (list Z) :=
  pos ← position;
  e ← add_or_panic 64 pos n;
  r ← get;
  if len (rd_data r) <? e then throw (mkParseError "Unexpected end of data" pos)
  else modify (λ r, advance r n);; mret (slice (rd_data r) pos e).

(** [skip]. *)
Definition skip (n : Z) : Reader unit :=
  pos ← position;
  e ← add_or_panic 64 pos n;
  r ← get;
  if len (rd_data r) <? e then throw (mkParseError "Cannot skip past end" pos)
  else modify (λ r, advance r n).

(** [read_u32_le]. *)
Definition read_u32_le : Reader Z := bs ← read_bytes 4; mret (from_le_bytes bs).

(** [x << shift] at width [w]: a panic when the shift reaches the width. *)
Definition shl_or_panic {S E} (w : Z) (cast : Z → Z) (x shift : Z) : M S E Z :=
  if w <=? shift then panic else mret (cast (Z.shiftl x shift)).

(** The loop of [read_leb128_u32] and [read_leb128_u64]. *)
Fixpoint leb_unsigned (fuel : nat) (w lim : Z) (msg : string) (start result shift : Z)
    : Reader Z :=
  match fuel with
  | O => throw hung
  | S fuel =>
      if lim <? shift then throw (mkParseError msg start)
      else
        byte ← read_byte;
        part ← shl_or_panic w (wrap w) (Z.land byte 0x7F) shift;
        let result := Z.lor result part in
        if Z.land byte 0x80 =? 0 then mret result
        else leb_unsigned fuel w lim msg start result (shift + 7)
  end.

(** The loop of [read_leb128_i32] and [read_leb128_i64]. *)
Fixpoint leb_signed (fuel : nat) (w lim : Z) (msg : string) (start result shift : Z)
    : Reader Z :=
  match fuel with
  | O => throw hung
  | S fuel =>
      if lim <? shift then throw (mkParseError msg start)
      else
        byte ← read_byte;
        part ← shl_or_panic w (swrap w) (Z.land byte 0x7F) shift;
        let result := Z.lor result part in
        let shift := shift + 7 in
        if Z.land byte 0x80 =? 0 then
          if (shift <? w) && negb (Z.land byte 0x40 =? 0)
          then mret (Z.lor result (swrap w (Z.shiftl (-1) shift)))
          else mret result
        else leb_signed fuel w lim msg start result shift
  end.

(** [read_leb128_u32], [read_leb128_i32], [read_leb128_u64], [read_leb128_i64]. *)
Definition read_leb128_u32 : Reader Z :=
  start ← position; leb_unsigned 7 32 35 "LEB128 u32 overflow" start 0 0.
Definition read_leb128_i32 : Reader Z :=
  start ← position; leb_signed 7 32 35 "LEB128 i32 overflow" start 0 0.
Definition read_leb128_u64 : Reader Z :=
  start ← position; leb_unsigned 12 64 70 "LEB128 u64 overflow" start 0 0.
Definition read_leb128_i64 : Reader Z :=
  start ← position; leb_signed 12 64 70 "LEB128 i64 overflow" start 0 0.

(** [read_f32], [read_f64]: the bit pattern. *)
Definition read_f32 : Reader Z := bs ← read_bytes 4; mret (from_le_bytes bs).
Definition read_f64 : Reader Z := bs ← read_bytes 8; mret (from_le_bytes bs).

(** [read_name]. *)
Definition read_name : Reader string :=
  length ← read_leb128_u32;
  bytes ← read_bytes length;
  if utf8_valid bytes then mret (string_of_bytes bytes)
  else
    pos ← position;
    off ← sub_or_panic pos length;
    throw (mkParseError "Invalid UTF-8 in name" off).

(** A [while] or [loop] over a reader: [step] either breaks with a result or
    goes on with a new state.  The fuel bounds the iterations after the first. *)
Fixpoint reader_loop {T A} (fuel : nat) (step : T → Reader (T + A)) (s : T) : Reader A :=
  o ← step s;
  match o with
  | inr a => mret a
  | inl s' =>
      match fuel with
      | O => throw hung
      | S fuel => reader_loop fuel step s'
      end
  end.

(** ** Readers and the bytes they consume *)

(** A reader over a byte slice; a Rust slice has at most [isize::MAX] bytes. *)
Definition reader_ok (r : BinaryReader) : Prop :=
  0 ≤ rd_pos r ≤ len (rd_data r) ∧ len (rd_data r) < 2 ^ 63 ∧ bytes_ok (rd_data r).

(** The bytes not read yet. *)
Definition rest (r : BinaryReader) : list Z := drop (Z.to_nat (rd_pos r)) (rd_data r).

(** [reads m bs a]: in front of the bytes [bs], [m] returns [a] and consumes
    exactly [bs]. *)
Definition reads {A} (m : Reader A) (bs : list Z) (a : A) : Prop :=
  ∀ r tl, reader_ok r → rest r = bs ++ tl → m r = (Ok a, advance r (len bs)).

Lemma len_rest r : reader_ok r → len (rest r) = len (rd_data r) - rd_pos r.
Proof. intros ((? & ?) & _). unfold rest, len in *. rewrite length_drop. lia. Qed.

Lemma rest_advance r bs tl :
  reader_ok r → rest r = bs ++ tl →
  reader_ok (advance r (len bs)) ∧ rest (advance r (len bs)) = tl.
Proof.
  intros Hr Hb. pose proof (len_rest r Hr) as Hl. rewrite Hb, len_app in Hl.
  pose proof (len_nonneg bs). pose proof (len_nonneg tl).
  destruct Hr as ((? & ?) & ? & ?). split.
  - split; [simpl; lia|done].
  - unfold rest in *. simpl. replace (Z.to_nat (rd_pos r + len bs)) with (Z.to_nat (rd_pos r) + length bs)%nat
      by (unfold len in *; lia).
    rewrite <-drop_drop, Hb. apply drop_app_length.
Qed.

Lemma rest_app_ok r bs tl : reader_ok r → rest r = bs ++ tl → bytes_ok bs.
Proof.
  intros (_ & _ & Hb) Hr. unfold rest in Hr.
  assert (Hd : bytes_ok (bs ++ tl)) by (rewrite <-Hr; by apply Forall_drop).
  by apply Forall_app in Hd as [? _].
Qed.

Lemma advance_advance r a b : advance (advance r a) b = advance r (a + b).
Proof. unfold advance. simpl. f_equal. lia. Qed.

Lemma advance_0 r : advance r 0 = r.
Proof. destruct r. unfold advance. simpl. by rewrite Z.add_0_r. Qed.

Lemma reads_ret {A} (a : A) : reads (mret a) [] a.
Proof. intros r tl _ _. change (len []) with 0. by rewrite advance_0. Qed.

Lemma reads_bind {A B} (m : Reader A) (k : A → Reader B) bs1 bs2 a b :
  reads m bs1 a → reads (k a) bs2 b → reads (m ≫= k) (bs1 ++ bs2) b.
Proof.
  intros Hm Hk r tl Hr Hb. rewrite <-app_assoc in Hb.
  unfold mbind, M_bind. rewrite (Hm r _ Hr Hb).
  destruct (rest_advance r _ _ Hr Hb) as [Hr' Hb'].
  rewrite (Hk _ _ Hr' Hb'). by rewrite advance_advance, len_app.
Qed.

Lemma reads_bind_nil {A B} (m : Reader A) (k : A → Reader B) bs a b :
  reads m bs a → reads (k a) [] b → reads (m ≫= k) bs b.
Proof. intros. rewrite <-(app_nil_r bs). by eapply reads_bind. Qed.

Lemma reads_eq {A} (m : Reader A) bs bs' a : bs = bs' → reads m bs a → reads m bs' a.
Proof. by intros ->. Qed.

(** Operations that only look at the reader. *)
Lemma reads_position {A} (k : Z → Reader A) bs a :
  (∀ p, 0 ≤ p → reads (k p) bs a) → reads (position ≫= k) bs a.
Proof. intros Hk r tl Hr Hb. apply (Hk (rd_pos r)) with tl; [|done..]. by destruct Hr as ((?&?)&_). Qed.

Lemma rest_head r b tl : reader_ok r → rest r = b :: tl → vget (rd_data r) (rd_pos r) = Some b.
Proof.
  intros Hr Hb. pose proof (len_rest r Hr) as Hl. rewrite Hb in Hl. unfold len in Hl. simpl in Hl.
  apply vget_Some. destruct Hr as ((? & ?) & _). split; [unfold len in *; lia|].
  unfold rest in Hb. by rewrite <-(Nat.add_0_r (Z.to_nat _)), <-lookup_drop, Hb.
Qed.

Lemma is_empty_rest r : reader_ok r → is_empty r = match rest r with [] => true | _ => false end.
Proof.
  intros Hr. pose proof (len_rest r Hr) as Hl. unfold is_empty.
  destruct (rest r); unfold len in *; simpl in Hl; zcase; done || lia.
Qed.

Lemma peek_byte_cons r b tl : reader_ok r → rest r = b :: tl → peek_byte r = (Ok b, r).
Proof.
  intros Hr Hb. unfold peek_byte, get, mbind, M_bind.
  rewrite is_empty_rest, Hb by done. by rewrite (rest_head _ _ _ Hr Hb).
Qed.

Lemma reads_byte b : reads read_byte [b] b.
Proof.
  intros r tl Hr Hb. unfold read_byte, mbind, M_bind. by rewrite (peek_byte_cons _ _ _ Hr Hb).
Qed.

Lemma reads_bytes bs : reads (read_bytes (len bs)) bs bs.
Proof.
  intros r tl Hr Hb. pose proof (len_rest r Hr) as Hl. rewrite Hb, len_app in Hl.
  pose proof (len_nonneg tl). pose proof (len_nonneg bs). destruct Hr as ((? & ?) & ? & ?).
  unfold read_bytes, position, gets, add_or_panic, checked_add, get, mbind, M_bind.
  rewrite (proj2 (Z.ltb_lt _ _)) by lia. simpl. rewrite (proj2 (Z.ltb_ge _ _)) by lia. simpl.
  do 2 f_equal. unfold slice. unfold rest in Hb. rewrite Hb.
  replace (Z.to_nat _) with (length bs) by (unfold len in *; lia).
  unfold mret, M_ret. by rewrite take_app_length.
Qed.

Lemma reads_skip bs : reads (skip (len bs)) bs tt.
Proof.
  intros r tl Hr Hb. pose proof (len_rest r Hr) as Hl. rewrite Hb, len_app in Hl.
  pose proof (len_nonneg tl). pose proof (len_nonneg bs). destruct Hr as ((? & ?) & ? & ?).
  unfold skip, position, gets, add_or_panic, checked_add, get, mbind, M_bind.
  rewrite (proj2 (Z.ltb_lt _ _)) by lia. simpl. by rewrite (proj2 (Z.ltb_ge _ _)) by lia.
Qed.

(** ** LEB128 *)

(** The reference encoders of the WebAssembly binary format. *)
Fixpoint enc_unsigned (fuel : nat) (n : Z) : list Z :=
  match fuel with
  | O => []
  | S fuel => if n <? 128 then [n] else (n mod 128 + 128) :: enc_unsigned fuel (n / 128)
  end.
Definition enc_u32 (n : Z) : list Z := enc_unsigned 5 n.
Definition enc_u64 (n : Z) : list Z := enc_unsigned 10 n.

Fixpoint enc_signed (fuel : nat) (n : Z) : list Z :=
  match fuel with
  | O => []
  | S fuel =>
      if (-64 <=? n) && (n <? 64) then [n mod 128]
      else (n mod 128 + 128) :: enc_signed fuel (n / 128)
  end.
Definition enc_i32 (n : Z) : list Z := enc_signed 5 n.
Definition enc_i64 (n : Z) : list Z := enc_signed 10 n.

Lemma reads_shl w cast x s :
  0 ≤ s < w → reads (shl_or_panic w cast x s) [] (cast (x * 2 ^ s)).
Proof.
  intros. unfold shl_or_panic. rewrite (proj2 (Z.leb_gt _ _)) by lia.
  rewrite Z.shiftl_mul_pow2 by lia. apply reads_ret.
Qed.

Lemma low7_small n : 0 ≤ n < 128 → Z.land n 0x7F = n.
Proof. intros. rewrite byte_low7 by (unfold in_u; lia). by apply Z.mod_small. Qed.

Lemma low7_cont n : Z.land (n mod 128 + 128) 0x7F = n mod 128.
Proof.
  assert (Hm : 0 ≤ n mod 128 < 128) by (apply Z.mod_pos_bound; lia).
  rewrite byte_low7 by (unfold in_u; lia).
  replace (n mod 128 + 128) with (n mod 128 + 1 * 128) by lia.
  rewrite Z.mod_add, Zmod_mod by lia. done.
Qed.

Lemma high_small n : 0 ≤ n < 128 → (Z.land n 0x80 =? 0) = true.
Proof. intros. rewrite byte_high by (unfold in_u; lia). apply Z.ltb_lt. lia. Qed.

Lemma high_cont n : (Z.land (n mod 128 + 128) 0x80 =? 0) = false.
Proof.
  assert (Hm : 0 ≤ n mod 128 < 128) by (apply Z.mod_pos_bound; lia).
  rewrite byte_high by (unfold in_u; lia). apply Z.ltb_ge. lia.
Qed.

Lemma reads_leb_unsigned n : ∀ f1 f2 w lim msg start acc s,
  0 ≤ s < w → w ≤ lim → w - s ≤ 7 * Z.of_nat f1 → w - s ≤ 7 * Z.of_nat f2 →
  0 ≤ n < 2 ^ (w - s) → 0 ≤ acc < 2 ^ s →
  reads (leb_unsigned f1 w lim msg start acc s) (enc_unsigned f2 n) (acc + n * 2 ^ s).
Proof.
  intros f1. revert n. induction f1 as [|f1 IH]; intros n f2 w lim msg start acc s Hs Hl Hf1 Hf2 Hn Ha; [lia|].
  destruct f2 as [|f2]; [lia|]. simpl. rewrite (proj2 (Z.ltb_ge _ _)) by lia.
  pose proof (pow2_pos s ltac:(lia)) as Hp.
  assert (Hw : 2 ^ w = 2 ^ (w - s) * 2 ^ s) by (rewrite <-Z.pow_add_r by lia; f_equal; lia).
  destruct (Z.ltb_spec n 128).
  - eapply (reads_bind _ _ [n] []); [apply reads_byte|]. rewrite low7_small by lia.
    eapply reads_bind_nil; [by apply reads_shl|]. rewrite high_small by lia.
    rewrite (wrap_id w) by (unfold in_u; nia). rewrite lor_shifted by lia. apply reads_ret.
  - assert (Hs7 : 7 < w - s).
    { destruct (Z_lt_le_dec 7 (w - s)); [done|].
      pose proof (Z.pow_le_mono_r 2 (w - s) 7). lia. }
    assert (Hm : 0 ≤ n mod 128 < 128) by (apply Z.mod_pos_bound; lia).
    eapply (reads_bind _ _ [_]); [apply reads_byte|]. rewrite low7_cont.
    assert (H7 : 2 ^ (s + 7) = 128 * 2 ^ s) by (rewrite Z.pow_add_r by lia; lia).
    pose proof (Z.pow_le_mono_r 2 (s + 7) w).
    apply (reads_bind _ _ [] _ _ _ (reads_shl _ _ _ _ Hs)). rewrite high_cont.
    rewrite (wrap_id w) by (unfold in_u; nia). rewrite lor_shifted by lia.
    replace (acc + n * 2 ^ s) with (acc + n mod 128 * 2 ^ s + n / 128 * 2 ^ (s + 7)).
    + apply IH; try lia; [|nia]. split; [apply Z.div_pos; lia|].
      apply Z.div_lt_upper_bound; [lia|].
      replace (w - s) with (7 + (w - (s + 7))) in Hn by lia. rewrite Z.pow_add_r in Hn by lia. lia.
    + rewrite H7. pose proof (Z.div_mod n 128). nia.
Qed.

Lemma lor_sign_extend y s : 0 ≤ s → 0 ≤ y < 2 ^ s → Z.lor y (- 2 ^ s) = y - 2 ^ s.
Proof.
  intros. replace (- 2 ^ s) with (-1 * 2 ^ s) by lia. rewrite lor_shifted by done. lia.
Qed.

Lemma shiftl_m1 s : 0 ≤ s → Z.shiftl (-1) s = - 2 ^ s.
Proof. intros. rewrite Z.shiftl_mul_pow2 by done. lia. Qed.

(** [(n + 128) << s] at width [w] when only the low bits survive. *)
Lemma swrap_drop_top w n s :
  0 ≤ s < w → w ≤ s + 7 → - 2 ^ (w - s - 1) ≤ n < 2 ^ (w - s - 1) →
  swrap w ((n + 128) * 2 ^ s) = n * 2 ^ s.
Proof.
  intros Hs Hw Hn.
  assert (H7 : 128 * 2 ^ s = 2 ^ (s + 7 - w) * 2 ^ w).
  { rewrite <-Z.pow_add_r by lia. replace (s + 7 - w + w) with (s + 7) by lia.
    rewrite Z.pow_add_r by lia. lia. }
  rewrite (swrap_eq_wrap w _ (n * 2 ^ s)); [|lia|].
  - apply swrap_id; [lia|]. unfold in_s.
    replace (w - 1) with (w - s - 1 + s) by lia. rewrite Z.pow_add_r by lia.
    pose proof (pow2_pos s ltac:(lia)). nia.
  - unfold wrap. replace ((n + 128) * 2 ^ s) with (n * 2 ^ s + 2 ^ (s + 7 - w) * 2 ^ w) by lia.
    apply Z.mod_add. pose proof (pow2_pos w ltac:(lia)). lia.
Qed.

(** The last byte of a signed encoding: the value's sign is restored. *)
Lemma reads_signed_last w s acc n :
  0 ≤ s < w → 0 ≤ acc < 2 ^ s → -64 ≤ n < 64 → - 2 ^ (w - s - 1) ≤ n < 2 ^ (w - s - 1) →
  let byte := n mod 128 in
  let result := Z.lor acc (swrap w (byte * 2 ^ s)) in
  (if (s + 7 <? w) && negb (Z.land byte 0x40 =? 0)
   then Z.lor result (swrap w (Z.shiftl (-1) (s + 7))) else result) = acc + n * 2 ^ s.
Proof.
  intros Hs Ha Hn Hr. cbv zeta. pose proof (pow2_pos s ltac:(lia)) as Hp.
  assert (Hm : n mod 128 = if n <? 0 then n + 128 else n).
  { zcase; [symmetry; apply (Z.mod_unique_pos _ _ (-1)); lia|apply Z.mod_small; lia]. }
  rewrite byte_bit6 by (rewrite Hm; unfold in_u; zcase; lia).
  rewrite Zmod_mod, Hm. destruct (Z.ltb_spec n 0); destruct (Z.ltb_spec (s + 7) w).
  - rewrite (proj2 (Z.ltb_ge _ _)) by lia. simpl.
    assert (H7 : 2 ^ (s + 7) = 128 * 2 ^ s) by (rewrite Z.pow_add_r by lia; lia).
    pose proof (Z.pow_le_mono_r 2 (s + 7) (w - 1)).
    rewrite (swrap_id w ((n + 128) * 2 ^ s)) by (lia || unfold in_s; nia).
    rewrite lor_shifted by lia. rewrite shiftl_m1 by lia.
    rewrite (swrap_id w (- _)) by (lia || unfold in_s; lia).
    rewrite lor_sign_extend by nia. nia.
  - simpl. rewrite swrap_drop_top by lia. apply lor_shifted; lia.
  - rewrite (proj2 (Z.ltb_lt _ _)) by lia. simpl.
    rewrite swrap_id; [apply lor_shifted; lia|lia|]. unfold in_s.
    replace (w - 1) with (w - s - 1 + s) by lia. rewrite Z.pow_add_r by lia. nia.
  - rewrite andb_false_l. rewrite swrap_id; [apply lor_shifted; lia|lia|]. unfold in_s.
    replace (w - 1) with (w - s - 1 + s) by lia. rewrite Z.pow_add_r by lia. nia.
Qed.

Lemma reads_leb_signed n : ∀ f1 f2 w lim msg start acc s,
  0 ≤ s < w → w ≤ lim → w - s ≤ 7 * Z.of_nat f1 → w - s ≤ 7 * Z.of_nat f2 →
  - 2 ^ (w - s - 1) ≤ n < 2 ^ (w - s - 1) → 0 ≤ acc < 2 ^ s →
  reads (leb_signed f1 w lim msg start acc s) (enc_signed f2 n) (acc + n * 2 ^ s).
Proof.
  intros f1. revert n. induction f1 as [|f1 IH]; intros n f2 w lim msg start acc s Hs Hl Hf1 Hf2 Hn Ha; [lia|].
  destruct f2 as [|f2]; [lia|]. simpl. rewrite (proj2 (Z.ltb_ge _ _)) by lia.
  pose proof (pow2_pos s ltac:(lia)) as Hp.
  assert (Hm : 0 ≤ n mod 128 < 128) by (apply Z.mod_pos_bound; lia).
  destruct ((-64 <=? n) && (n <? 64)) eqn:Ec.
  - apply andb_true_iff in Ec as [? ?]. ztest.
    eapply (reads_bind _ _ [_] []); [apply reads_byte|].
    rewrite low7_small by lia. apply (reads_bind_nil _ _ [] _ _ (reads_shl _ _ _ _ Hs)).
    rewrite high_small by lia.
    pose proof (reads_signed_last w s acc n Hs Ha ltac:(lia) Hn) as Hlast. cbv zeta in Hlast.
    destruct (_ && _); rewrite Hlast; apply reads_ret.
  - assert (Hs7 : 7 < w - s).
    { destruct (Z_lt_le_dec 7 (w - s)); [done|].
      pose proof (Z.pow_le_mono_r 2 (w - s - 1) 6). apply andb_false_iff in Ec as [?|?]; ztest; lia. }
    eapply (reads_bind _ _ [_]); [apply reads_byte|]. rewrite low7_cont.
    assert (H7 : 2 ^ (s + 7) = 128 * 2 ^ s) by (rewrite Z.pow_add_r by lia; lia).
    pose proof (Z.pow_le_mono_r 2 (s + 7) (w - 1)).
    apply (reads_bind _ _ [] _ _ _ (reads_shl _ _ _ _ Hs)). rewrite high_cont.
    rewrite (swrap_id w) by (lia || unfold in_s; nia). rewrite lor_shifted by lia.
    replace (acc + n * 2 ^ s) with (acc + n mod 128 * 2 ^ s + n / 128 * 2 ^ (s + 7)).
    + apply IH; try lia; [|nia].
      replace (w - s - 1) with (7 + (w - (s + 7) - 1)) in Hn by lia. rewrite Z.pow_add_r in Hn by lia.
      split; [apply Z.div_le_lower_bound; lia|apply Z.div_lt_upper_bound; lia].
    + rewrite H7. pose proof (Z.div_mod n 128). nia.
Qed.

Lemma reads_u32 n : in_u 32 n → reads read_leb128_u32 (enc_u32 n) n.
Proof.
  intros Hn. apply reads_position. intros p _. unfold enc_u32.
  replace n with (0 + n * 2 ^ 0) at 2 by lia. apply reads_leb_unsigned; unfold in_u in Hn; lia.
Qed.

Lemma reads_u64 n : in_u 64 n → reads read_leb128_u64 (enc_u64 n) n.
Proof.
  intros Hn. apply reads_position. intros p _. unfold enc_u64.
  replace n with (0 + n * 2 ^ 0) at 2 by lia. apply reads_leb_unsigned; unfold in_u in Hn; lia.
Qed.

Lemma reads_i32 n : in_s 32 n → reads read_leb128_i32 (enc_i32 n) n.
Proof.
  intros Hn. apply reads_position. intros p _. unfold enc_i32.
  replace n with (0 + n * 2 ^ 0) at 2 by lia. apply reads_leb_signed; unfold in_s in Hn; lia.
Qed.

Lemma reads_i64 n : in_s 64 n → reads read_leb128_i64 (enc_i64 n) n.
Proof.
  intros Hn. apply reads_position. intros p _. unfold enc_i64.
  replace n with (0 + n * 2 ^ 0) at 2 by lia. apply reads_leb_signed; unfold in_s in Hn; lia.
Qed.

(** ** Ranges and failures *)

(** Reading keeps the reader well formed and never moves backwards; this holds
    of the readers' results also when they fail.  No loop uses up its fuel: an
    error is one of the source. *)
Definition keeps_at {A} (m : Reader A) (Q : A → Prop) (r : BinaryReader) : Prop :=
  wp m (λ a r', Q a ∧ reader_ok r' ∧ rd_data r' = rd_data r ∧ rd_pos r ≤ rd_pos r')
    (λ e r', (∀ x, e = Some x → genuine x) ∧ reader_ok r' ∧ rd_data r' = rd_data r ∧ rd_pos r ≤ rd_pos r') r.
Definition keeps {A} (m : Reader A) (Q : A → Prop) : Prop := ∀ r, reader_ok r → keeps_at m Q r.

(** Close the bookkeeping part of a [keeps] goal. *)
Ltac rd_done :=
  unfold reader_ok in *; destruct_and?; split_and?; simpl in *;
  try (intros ? [= <-]; unfold genuine; simpl); try done; try congruence; try lia.

Lemma keeps_mono {A} (m : Reader A) (Q Q' : A → Prop) :
  keeps m Q → (∀ a, Q a → Q' a) → keeps m Q'.
Proof. intros Hm HQ r Hr. eapply wp_mono; [by apply Hm| |done]. intros a r' [? ?]. eauto. Qed.

Lemma keeps_ret {A} (a : A) (Q : A → Prop) : Q a → keeps (mret a) Q.
Proof. intros Ha r Hr. apply wp_ret. rd_done. Qed.

Lemma keeps_throw {A} e (Q : A → Prop) : genuine e → keeps (throw e) Q.
Proof. intros He r Hr. apply wp_throw. rd_done. Qed.

Lemma keeps_panic {A} (Q : A → Prop) : keeps panic Q.
Proof. intros r Hr. unfold keeps_at, wp, panic. rd_done. Qed.

Lemma keeps_bind {A B} (m : Reader A) (k : A → Reader B) (Q : A → Prop) (Q' : B → Prop) :
  keeps m Q → (∀ a, Q a → keeps (k a) Q') → keeps (m ≫= k) Q'.
Proof.
  intros Hm Hk r Hr. apply wp_bind. eapply wp_mono; [by apply Hm| |done].
  intros a r' (Ha & Hr' & Hd & Hp). eapply wp_mono; [by apply (Hk a Ha)| |].
  - intros b r'' (? & ? & Hd' & ?). rd_done.
  - intros e r'' (? & ? & Hd' & ?). split; [done|]. rd_done.
Qed.

Lemma keeps_position : keeps position (λ p, 0 ≤ p).
Proof. intros r Hr. apply wp_gets. rd_done. Qed.

Lemma keeps_byte : keeps read_byte (in_u 8).
Proof.
  intros r Hr. destruct (rest r) as [|b tl] eqn:Eb.
  - unfold keeps_at, wp, read_byte, peek_byte, get, mbind, M_bind. rewrite is_empty_rest, Eb by done.
    simpl. rd_done.
  - unfold keeps_at, wp. rewrite (reads_byte b r tl Hr Eb).
    pose proof (rest_app_ok r [b] tl Hr Eb) as Hb. apply Forall_inv in Hb.
    destruct (rest_advance r [b] tl Hr Eb). split; [done|]. split; [done|].
    simpl. change (len [b]) with 1. split; [done|lia].
Qed.

Lemma keeps_peek : keeps peek_byte (in_u 8).
Proof.
  intros r Hr. destruct (rest r) as [|b tl] eqn:Eb.
  - unfold keeps_at, wp, peek_byte, get, mbind, M_bind. rewrite is_empty_rest, Eb by done. simpl. rd_done.
  - unfold keeps_at, wp. rewrite (peek_byte_cons _ _ _ Hr Eb).
    pose proof (rest_app_ok r [b] tl Hr Eb) as Hb. apply Forall_inv in Hb. rd_done.
Qed.

Lemma keeps_bytes n : 0 ≤ n → keeps (read_bytes n) (λ bs, bytes_ok bs ∧ len bs = n).
Proof.
  intros Hn r Hr. pose proof Hr as ((? & ?) & ? & ?).
  unfold keeps_at, wp, read_bytes, position, gets, add_or_panic, checked_add, get, mbind, M_bind.
  zcase; simpl; [|rd_done]. zcase; simpl; [rd_done|].
  split; [split|].
  - by apply Forall_slice.
  - rewrite length_slice by lia. lia.
  - rd_done.
Qed.

Lemma keeps_skip n : 0 ≤ n → keeps (skip n) (λ _, True).
Proof.
  intros Hn r Hr. pose proof Hr as ((? & ?) & ? & ?).
  unfold keeps_at, wp, skip, position, gets, add_or_panic, checked_add, get, mbind, M_bind.
  zcase; simpl; [|rd_done]. zcase; simpl; [rd_done|].
  split; [done|]. rd_done.
Qed.

Lemma keeps_repeat {A} (m : Reader A) (Q : A → Prop) n :
  keeps m Q → keeps (repeat_m n m) (λ l, Forall Q l ∧ length l = n).
Proof.
  intros Hm. induction n as [|n IH]; simpl; [by apply keeps_ret|].
  eapply keeps_bind; [done|]. intros a Ha. eapply keeps_bind; [done|].
  intros l [Hl <-]. apply keeps_ret. split; [by constructor|done].
Qed.

Lemma keeps_leb_unsigned f w lim msg start acc s :
  0 ≤ w → 0 ≤ start → s ≤ lim + 7 < s + 7 * Z.of_nat f → in_u w acc → keeps (leb_unsigned f w lim msg start acc s) (in_u w).
Proof.
  intros Hw Hst. revert acc s. induction f as [|f IH]; intros acc s Hs Ha; simpl; [lia|].
  zcase; [by apply keeps_throw|]. eapply keeps_bind; [apply keeps_byte|]. intros b Hb.
  apply keeps_bind with (in_u w).
  - unfold shl_or_panic. zcase; [apply keeps_panic|]. apply keeps_ret. by apply wrap_range.
  - intros p Hp. pose proof (in_u_lor w acc p Hw Ha Hp). zcase; [by apply keeps_ret|apply IH; [lia|done]].
Qed.

Lemma keeps_leb_signed f w lim msg start acc s :
  0 < w → 0 ≤ start → s ≤ lim + 7 < s + 7 * Z.of_nat f → in_s w acc → keeps (leb_signed f w lim msg start acc s) (in_s w).
Proof.
  intros Hw Hst. revert acc s. induction f as [|f IH]; intros acc s Hs Ha; simpl; [lia|].
  zcase; [by apply keeps_throw|]. eapply keeps_bind; [apply keeps_byte|]. intros b Hb.
  apply keeps_bind with (in_s w).
  - unfold shl_or_panic. zcase; [apply keeps_panic|]. apply keeps_ret. by apply swrap_range.
  - intros p Hp. pose proof (in_s_lor w acc p Hw Ha Hp).
    destruct (Z.land b 128 =? 0); [|apply IH; [lia|done]].
    destruct (_ && _); apply keeps_ret; [|done]. apply in_s_lor; [done..|]. by apply swrap_range.
Qed.

Lemma keeps_u32 : keeps read_leb128_u32 (in_u 32).
Proof. eapply keeps_bind; [apply keeps_position|]. intros p Hp. cbv beta in Hp. apply keeps_leb_unsigned; unfold in_u; lia. Qed.
Lemma keeps_u64 : keeps read_leb128_u64 (in_u 64).
Proof. eapply keeps_bind; [apply keeps_position|]. intros p Hp. cbv beta in Hp. apply keeps_leb_unsigned; unfold in_u; lia. Qed.
Lemma keeps_i32 : keeps read_leb128_i32 (in_s 32).
Proof. eapply keeps_bind; [apply keeps_position|]. intros p Hp. cbv beta in Hp. apply keeps_leb_signed; unfold in_s; lia. Qed.
Lemma keeps_i64 : keeps read_leb128_i64 (in_s 64).
Proof. eapply keeps_bind; [apply keeps_position|]. intros p Hp. cbv beta in Hp. apply keeps_leb_signed; unfold in_s; lia. Qed.

Lemma keeps_f32 : keeps read_f32 (in_u 32).
Proof.
  eapply keeps_bind; [by apply keeps_bytes|]. intros bs [Hb Hl]. apply keeps_ret.
  pose proof (from_le_bytes_range bs Hb) as Hr. rewrite Hl in Hr. unfold in_u. lia.
Qed.
Lemma keeps_f64 : keeps read_f64 (in_u 64).
Proof.
  eapply keeps_bind; [by apply keeps_bytes|]. intros bs [Hb Hl]. apply keeps_ret.
  pose proof (from_le_bytes_range bs Hb) as Hr. rewrite Hl in Hr. unfold in_u. lia.
Qed.
Lemma keeps_name : keeps read_name (λ _, True).
Proof.
  eapply keeps_bind; [apply keeps_u32|]. intros n Hn.
  eapply keeps_bind; [apply keeps_bytes; unfold in_u in Hn; lia|]. intros bs _.
  destruct (utf8_valid bs); [by apply keeps_ret|].
  eapply keeps_bind; [apply keeps_position|]. intros p _. apply keeps_bind with (λ x, 0 ≤ x).
  - unfold sub_or_panic. zcase; [apply keeps_panic|]. apply keeps_ret. lia.
  - intros x Hx. by apply keeps_throw.
Qed.

(** The hints are keyed on the operation, so that no reader is unfolded to try one. *)
#[export] Hint Extern 0 (keeps position _) => apply keeps_position : kpio.
#[export] Hint Extern 0 (keeps read_byte _) => apply keeps_byte : kpio.
#[export] Hint Extern 0 (keeps peek_byte _) => apply keeps_peek : kpio.
#[export] Hint Extern 0 (keeps read_leb128_u32 _) => apply keeps_u32 : kpio.
#[export] Hint Extern 0 (keeps read_leb128_u64 _) => apply keeps_u64 : kpio.
#[export] Hint Extern 0 (keeps read_leb128_i32 _) => apply keeps_i32 : kpio.
#[export] Hint Extern 0 (keeps read_leb128_i64 _) => apply keeps_i64 : kpio.
#[export] Hint Extern 0 (keeps read_f32 _) => apply keeps_f32 : kpio.
#[export] Hint Extern 0 (keeps read_f64 _) => apply keeps_f64 : kpio.
#[export] Hint Extern 0 (keeps read_name _) => apply keeps_name : kpio.

Lemma reader_new_ok bs : bytes_ok bs → len bs < 2 ^ 63 → reader_ok (reader_new bs).
Proof. intros. pose proof (len_nonneg bs). split; [simpl; lia|done]. Qed.

(** ** Loops *)

(** An iteration that goes on consumes at least one byte. *)
Definition progress_step {T A} (step : T → Reader (T + A)) : Prop :=
  ∀ s r s' r', reader_ok r → step s r = (Ok (inl s'), r') →
    reader_ok r' ∧ rd_data r' = rd_data r ∧ rd_pos r < rd_pos r'.

Lemma progress_byte {A} (k : Z → Reader A) r a r' :
  reader_ok r → (∀ b, keeps (k b) (λ _, True)) → (read_byte ≫= k) r = (Ok a, r') →
  reader_ok r' ∧ rd_data r' = rd_data r ∧ rd_pos r < rd_pos r'.
Proof.
  intros Hr Hk. unfold mbind, M_bind. destruct (rest r) as [|b tl] eqn:Eb.
  - unfold read_byte, peek_byte, get, mbind, M_bind. by rewrite is_empty_rest, Eb by done.
  - rewrite (reads_byte b r tl Hr Eb). destruct (rest_advance r [b] tl Hr Eb) as [Hr' _].
    specialize (Hk b _ Hr'). unfold keeps_at, wp in Hk. intros Heq. rewrite Heq in Hk.
    change (len [b]) with 1 in Hk. simpl in Hk. destruct_and?. split; [done|]. split; [done|lia].
Qed.

(** With as many iterations as there are bytes left the loop comes to its end. *)
Lemma keeps_loop {T A} (P : T → Prop) (Q : A → Prop) (step : T → Reader (T + A)) fuel s r :
  (∀ s, P s → keeps (step s) (λ o, match o with inl s' => P s' | inr a => Q a end)) →
  progress_step step → P s → reader_ok r → len (rest r) ≤ Z.of_nat fuel → keeps_at (reader_loop fuel step s) Q r.
Proof.
  intros Hstep Hp. revert s r. induction fuel as [|fuel IH]; intros s r Hs Hr Hf;
    pose proof (Hstep s Hs r Hr) as Hw; pose proof (Hp s r) as Hgo; pose proof (len_rest r Hr) as Hl;
    unfold keeps_at in *; unfold wp in *; cbn [reader_loop]; unfold mbind, M_bind;
    destruct (step s r) as [[[s'|a]|e|] r'] eqn:Es; try done;
    destruct (Hgo _ _ Hr eq_refl) as (Hr' & Hd & Hlt); pose proof (len_rest r' Hr') as Hl';
    pose proof (len_nonneg (rest r')); rewrite Hd in Hl'; [lia|].
  destruct Hw as (Hs' & _). specialize (IH s' r' Hs' Hr').
  destruct (reader_loop fuel step s' r') as [[a|e|] r'']; (destruct IH as (? & ? & ? & ?); [lia|]); split_and!; try done; congruence || lia.
Qed.

(** As many iterations as there are bytes left are enough: any two larger
    amounts of fuel give the same result. *)
Lemma reader_loop_fuel {T A} (step : T → Reader (T + A)) f1 : ∀ f2 s r,
  progress_step step → reader_ok r →
  len (rest r) ≤ Z.of_nat f1 → len (rest r) ≤ Z.of_nat f2 →
  reader_loop f1 step s r = reader_loop f2 step s r.
Proof.
  induction f1 as [|f1 IH]; intros f2 s r Hp Hr H1 H2;
    pose proof (Hp s r) as Hs; pose proof (len_rest r Hr) as Hl; destruct f2 as [|f2];
    try done; simpl; unfold mbind, M_bind;
    destruct (step s r) as [[[s'|a]|e|] r'] eqn:Es; try done;
    destruct (Hs _ _ Hr eq_refl) as (Hr' & Hd & Hlt);
    pose proof (len_rest r' Hr') as Hl'; pose proof (len_nonneg (rest r'));
    rewrite Hd in Hl'; try lia.
  apply IH; done || lia.
Qed.

(** One iteration of an unsigned or signed loop, by the next byte. *)
Lemma leb_unsigned_step f w lim msg start acc s r b tl :
  s ≤ lim → reader_ok r → rest r = b :: tl →
  leb_unsigned (S f) w lim msg start acc s r =
    if w <=? s then (Panic, advance r 1)
    else if b <? 128 then (Ok (Z.lor acc (wrap w (Z.shiftl (b mod 128) s))), advance r 1)
    else leb_unsigned f w lim msg start (Z.lor acc (wrap w (Z.shiftl (b mod 128) s))) (s + 7)
           (advance r 1).
Proof.
  intros Hs Hr Hb. pose proof (rest_app_ok r [b] tl Hr Hb) as Hok. apply Forall_inv in Hok.
  simpl. rewrite (proj2 (Z.ltb_ge _ _)) by done. unfold mbind, M_bind.
  rewrite (reads_byte b r tl Hr Hb). change (len [b]) with 1. unfold shl_or_panic.
  rewrite byte_low7, byte_high by done. by repeat zcase.
Qed.

Lemma leb_unsigned_nil f w lim msg start acc s r :
  s ≤ lim → reader_ok r → rest r = [] →
  leb_unsigned (S f) w lim msg start acc s r =
    (Err (mkParseError "Unexpected end of data" (rd_pos r)), r).
Proof.
  intros Hs Hr Hb. simpl. rewrite (proj2 (Z.ltb_ge _ _)) by done.
  unfold read_byte, peek_byte, get, mbind, M_bind. by rewrite is_empty_rest, Hb by done.
Qed.

(** The five bytes a [u32] can take are followed by one that panics. *)
Definition too_long (bs : list Z) : Prop :=
  6 ≤ len bs ∧ Forall (λ b, 128 ≤ b) (take 5 bs).

Lemma rest_cons r b tl :
  reader_ok r → rest r = b :: tl → reader_ok (advance r 1) ∧ rest (advance r 1) = tl.
Proof. intros. by apply (rest_advance r [b] tl). Qed.

Lemma leb_unsigned_panics w lim msg start k : ∀ f acc s r,
  (k < f)%nat → w ≤ s + 7 * Z.of_nat k ≤ lim → (k ≠ 0%nat → s + 7 * (Z.of_nat k - 1) < w) →
  reader_ok r →
  (leb_unsigned f w lim msg start acc s r).1 = Panic ↔
    (Z.of_nat k < len (rest r) ∧ Forall (λ b, 128 ≤ b) (take k (rest r))).
Proof.
  induction k as [|k IH]; intros [|f] acc s r Hf Hw Hk Hr; try lia;
    destruct (rest r) as [|b tl] eqn:Eb;
    (rewrite leb_unsigned_nil by (lia || done)) || rewrite (leb_unsigned_step _ _ _ _ _ _ _ _ b tl) by (lia || done).
  - split; [done|]. unfold len. simpl. lia.
  - rewrite (proj2 (Z.leb_le _ _)) by lia. split; [|done]. intros _. split; [unfold len; simpl; lia|constructor].
  - split; [done|]. unfold len. simpl. lia.
  - rewrite (proj2 (Z.leb_gt _ _)) by lia. destruct (rest_cons r b tl Hr Eb) as [Hr' <-].
    zcase; [split; [done|]; intros [_ Hc]; apply Forall_inv in Hc; lia|].
    rewrite IH; [|lia..|done]. unfold len. simpl. rewrite Forall_cons.
    split; intros [? ?]; destruct_and?; split; try done; lia.
Qed.

(** LEB128 round trip: in front of the encoding of any [u32], [i32], [u64]
    or [i64] the corresponding reader returns that integer and consumes
    exactly the encoding, whatever follows. *)
Theorem leb128_roundtrip r tl n :
  reader_ok r →
  (in_u 32 n → rest r = enc_u32 n ++ tl →
     read_leb128_u32 r = (Ok n, advance r (len (enc_u32 n)))) ∧
  (in_s 32 n → rest r = enc_i32 n ++ tl →
     read_leb128_i32 r = (Ok n, advance r (len (enc_i32 n)))) ∧
  (in_u 64 n → rest r = enc_u64 n ++ tl →
     read_leb128_u64 r = (Ok n, advance r (len (enc_u64 n)))) ∧
  (in_s 64 n → rest r = enc_i64 n ++ tl →
     read_leb128_i64 r = (Ok n, advance r (len (enc_i64 n)))).
Proof.
  intros Hr. split_and!; intros Hn Hb;
    [eapply reads_u32|eapply reads_i32|eapply reads_u64|eapply reads_i64]; done.
Qed.

(** The failure modes of [read_leb128_u32]: it panics exactly when five
    continuation bytes are followed by a further byte (the shift of 35 does
    not fit a [u32], while the guard only rejects shifts above 35); on every
    other input it returns an integer of 32 bits or an error. *)
Theorem leb128_u32_panics_iff r :
  reader_ok r → (read_leb128_u32 r).1 = Panic ↔ too_long (rest r).
Proof.
  intros Hr. unfold read_leb128_u32, position, gets, mbind, M_bind, too_long.
  rewrite (leb_unsigned_panics 32 35 _ _ 5) by (lia || done).
  split; intros [? ?]; split; try done; lia.
Qed.

(** ** Witnesses *)

(** Decide that a concrete list holds bytes. *)
Ltac bytes_tac := repeat constructor; unfold in_u; lia.

Lemma leb128_roundtrip_witness :
  read_leb128_u32 (reader_new [0xE5; 0x8E; 0x26; 7]) =
    (Ok 624485, advance (reader_new [0xE5; 0x8E; 0x26; 7]) 3).
Proof.
  destruct (leb128_roundtrip (reader_new [0xE5; 0x8E; 0x26; 7]) [7] 624485) as (H & _).
  - apply reader_new_ok; [bytes_tac|done].
  - apply H; [unfold in_u; lia|reflexivity].
Defined.

Lemma leb128_u32_panics_witness :
  (read_leb128_u32 (reader_new [0x80; 0x80; 0x80; 0x80; 0x80; 0])).1 = Panic.
Proof.
  apply (leb128_u32_panics_iff (reader_new [0x80; 0x80; 0x80; 0x80; 0x80; 0])).
  - apply reader_new_ok; [bytes_tac|done].
  - split; [done|]. simpl. repeat (constructor; [lia|]). constructor.
Defined.
