(* ===== verification/Parser.v ===== *)
(** The module parser: [WasmParser] of [runtime/src/parser.rs] (lines 281-1391).

    Every [parse_*] function is a [Reader] program with the same reads in the
    same order.  [decode_instruction]'s match on the opcode is written as one
    function per group of the source; each returns [None] on an opcode of
    another group.  The two loops on [reader.is_empty()] get the number of
    bytes as fuel: an iteration consumes at least one byte. *)

From S2P Require Import Prelude Types Reader.

Definition WASM_MAGIC : list Z := [0x00; 0x61; 0x73; 0x6D].
Definition WASM_VERSION : Z := 1.

(** [SectionId] and [SectionId::from_byte]. *)
Inductive SectionId : Type :=
| SecCustom
| SecType
| SecImport
| SecFunction
| SecTable
| SecMemory
| SecGlobal
| SecExport
| SecStart
| SecElement
| SecCode
| SecData
| SecDataCount.

Definition section_from_byte (b : Z) : option SectionId :=
  match b with
  | 0 => Some SecCustom
  | 1 => Some SecType
  | 2 => Some SecImport
  | 3 => Some SecFunction
  | 4 => Some SecTable
  | 5 => Some SecMemory
  | 6 => Some SecGlobal
  | 7 => Some SecExport
  | 8 => Some SecStart
  | 9 => Some SecElement
  | 10 => Some SecCode
  | 11 => Some SecData
  | 12 => Some SecDataCount
  | _ => None
  end.

(** [Err(ParseError::new(msg, reader.position()))], and with [position() - 1]. *)
Definition fail_here {A} (msg : string) : Reader A :=
  pos ← position; throw (mkParseError msg pos).
Definition fail_prev {A} (msg : string) : Reader A :=
  pos ← position; off ← sub_or_panic pos 1; throw (mkParseError msg off).

(** A length prefix, then that many items. *)
Definition counted {A} (m : Reader A) : Reader (list A) :=
  count ← read_leb128_u32; repeat_m (Z.to_nat count) m.

(** ** Types *)

Definition value_type_of_byte (b : Z) : option ValueType :=
  match b with
  | 0x7F => Some TI32
  | 0x7E => Some TI64
  | 0x7D => Some TF32
  | 0x7C => Some TF64
  | 0x7B => Some TV128
  | 0x70 => Some TFuncRef
  | 0x6F => Some TExternRef
  | _ => None
  end.

(** [parse_value_type]. *)
Definition parse_value_type : Reader ValueType :=
  byte ← read_byte;
  match value_type_of_byte byte with
  | Some vt => mret vt
  | None => fail_prev "Invalid value type"
  end.

(** [if flags & 1 != 0 { Some(read_leb128_u32()?) } else { None }] *)
Definition read_max (flags : Z) : Reader (option Z) :=
  if negb (Z.land flags 0x01 =? 0) then max ← read_leb128_u32; mret (Some max)
  else mret None.

(** [parse_limits]. *)
Definition parse_limits : Reader (Z * option Z) :=
  flags ← read_byte;
  min ← read_leb128_u32;
  max ← read_max flags;
  mret (min, max).

(** [parse_table_type]. *)
Definition parse_table_type : Reader TableType :=
  element_type ← parse_value_type;
  lim ← parse_limits;
  mret (mkTableType element_type lim.1 lim.2).

(** [parse_memory_type]. *)
Definition parse_memory_type : Reader MemoryType :=
  flags ← read_byte;
  let shared := negb (Z.land flags 0x02 =? 0) in
  min ← read_leb128_u32;
  max ← read_max flags;
  mret (mkMemoryType min max shared).

(** [parse_global_type]. *)
Definition parse_global_type : Reader GlobalType :=
  value_type ← parse_value_type;
  b ← read_byte;
  mret (mkGlobalType value_type (b =? 0x01)).

(** ** Instructions *)

(** [parse_blocktype]. *)
Definition parse_blocktype : Reader BlockType :=
  byte ← peek_byte;
  if byte =? 0x40 then read_byte;; mret BT_Empty
  else if bool_decide (is_Some (value_type_of_byte byte)) then
    vt ← parse_value_type; mret (BT_Value vt)
  else
    idx ← read_leb128_i32;
    if idx <? 0 then fail_here "Invalid block type index"
    else mret (BT_TypeIndex (as_u32 idx)).

(** Readers of the immediates of an instruction. *)
Definition imm1 (c : Z → Instruction) : option (Reader Instruction) :=
  Some (idx ← read_leb128_u32; mret (c idx)).
Definition imm2 (c : Z → Z → Instruction) : option (Reader Instruction) :=
  Some (a ← read_leb128_u32; b ← read_leb128_u32; mret (c a b)).
Definition memarg (c : Z → Z → Instruction) : option (Reader Instruction) :=
  Some (align ← read_leb128_u32; offset ← read_leb128_u32; mret (c align offset)).
Definition blocktype (c : BlockType → Instruction) : option (Reader Instruction) :=
  Some (bt ← parse_blocktype; mret (c bt)).
(** An immediate byte that is read and ignored. *)
Definition skip_byte (i : Instruction) : option (Reader Instruction) :=
  Some (read_byte;; mret i).

(** [decode_instruction]: control flow, reference, parametric, variable and
    table instructions. *)
Definition decode_control (opcode : Z) : option (Reader Instruction) :=
  match opcode with
  | 0x00 => Some (mret Unreachable)
  | 0x01 => Some (mret Nop)
  | 0x02 => blocktype Block
  | 0x03 => blocktype Loop
  | 0x04 => blocktype If
  | 0x05 => Some (mret Else)
  | 0x0B => Some (mret End)
  | 0x0C => imm1 Br
  | 0x0D => imm1 BrIf
  | 0x0E =>
      Some (targets ← counted read_leb128_u32;
            default ← read_leb128_u32;
            mret (BrTable targets default))
  | 0x0F => Some (mret Return)
  | 0x10 => imm1 Call
  | 0x11 => imm2 CallIndirect
  | 0xD0 => skip_byte RefNull
  | 0xD1 => Some (mret RefIsNull)
  | 0xD2 => imm1 RefFunc
  | 0x1A => Some (mret Drop)
  | 0x1B => Some (mret Select)
  | 0x1C => Some (counted parse_value_type;; mret Select)
  | 0x20 => imm1 LocalGet
  | 0x21 => imm1 LocalSet
  | 0x22 => imm1 LocalTee
  | 0x23 => imm1 GlobalGet
  | 0x24 => imm1 GlobalSet
  | 0x25 => imm1 TableGet
  | 0x26 => imm1 TableSet
  | _ => None
  end.

(** [decode_instruction]: memory instructions. *)
Definition decode_memory (opcode : Z) : option (Reader Instruction) :=
  match opcode with
  | 0x28 => memarg I32Load
  | 0x29 => memarg I64Load
  | 0x2A => memarg F32Load
  | 0x2B => memarg F64Load
  | 0x2C => memarg I32Load8S
  | 0x2D => memarg I32Load8U
  | 0x2E => memarg I32Load16S
  | 0x2F => memarg I32Load16U
  | 0x30 => memarg I64Load8S
  | 0x31 => memarg I64Load8U
  | 0x32 => memarg I64Load16S
  | 0x33 => memarg I64Load16U
  | 0x34 => memarg I64Load32S
  | 0x35 => memarg I64Load32U
  | 0x36 => memarg I32Store
  | 0x37 => memarg I64Store
  | 0x38 => memarg F32Store
  | 0x39 => memarg F64Store
  | 0x3A => memarg I32Store8
  | 0x3B => memarg I32Store16
  | 0x3C => memarg I64Store8
  | 0x3D => memarg I64Store16
  | 0x3E => memarg I64Store32
  | 0x3F => skip_byte MemorySize
  | 0x40 => skip_byte MemoryGrow
  | _ => None
  end.

(** [decode_instruction]: constants. *)
Definition decode_const (opcode : Z) : option (Reader Instruction) :=
  match opcode with
  | 0x41 => Some (v ← read_leb128_i32; mret (I32Const v))
  | 0x42 => Some (v ← read_leb128_i64; mret (I64Const v))
  | 0x43 => Some (v ← read_f32; mret (F32Const v))
  | 0x44 => Some (v ← read_f64; mret (F64Const v))
  | _ => None
  end.

(** [decode_instruction]: numeric instructions without immediates
    (comparisons and arithmetic). *)
Definition simple_opcode (opcode : Z) : option Instruction :=
  match opcode with
  | 0x45 => Some I32Eqz
  | 0x46 => Some I32Eq
  | 0x47 => Some I32Ne
  | 0x48 => Some I32LtS
  | 0x49 => Some I32LtU
  | 0x4A => Some I32GtS
  | 0x4B => Some I32GtU
  | 0x4C => Some I32LeS
  | 0x4D => Some I32LeU
  | 0x4E => Some I32GeS
  | 0x4F => Some I32GeU
  | 0x50 => Some I64Eqz
  | 0x51 => Some I64Eq
  | 0x52 => Some I64Ne
  | 0x53 => Some I64LtS
  | 0x54 => Some I64LtU
  | 0x55 => Some I64GtS
  | 0x56 => Some I64GtU
  | 0x57 => Some I64LeS
  | 0x58 => Some I64LeU
  | 0x59 => Some I64GeS
  | 0x5A => Some I64GeU
  | 0x5B => Some F32Eq
  | 0x5C => Some F32Ne
  | 0x5D => Some F32Lt
  | 0x5E => Some F32Gt
  | 0x5F => Some F32Le
  | 0x60 => Some F32Ge
  | 0x61 => Some F64Eq
  | 0x62 => Some F64Ne
  | 0x63 => Some F64Lt
  | 0x64 => Some F64Gt
  | 0x65 => Some F64Le
  | 0x66 => Some F64Ge
  | 0x67 => Some I32Clz
  | 0x68 => Some I32Ctz
  | 0x69 => Some I32Popcnt
  | 0x6A => Some I32Add
  | 0x6B => Some I32Sub
  | 0x6C => Some I32Mul
  | 0x6D => Some I32DivS
  | 0x6E => Some I32DivU
  | 0x6F => Some I32RemS
  | 0x70 => Some I32RemU
  | 0x71 => Some I32And
  | 0x72 => Some I32Or
  | 0x73 => Some I32Xor
  | 0x74 => Some I32Shl
  | 0x75 => Some I32ShrS
  | 0x76 => Some I32ShrU
  | 0x77 => Some I32Rotl
  | 0x78 => Some I32Rotr
  | 0x79 => Some I64Clz
  | 0x7A => Some I64Ctz
  | 0x7B => Some I64Popcnt
  | 0x7C => Some I64Add
  | 0x7D => Some I64Sub
  | 0x7E => Some I64Mul
  | 0x7F => Some I64DivS
  | 0x80 => Some I64DivU
  | 0x81 => Some I64RemS
  | 0x82 => Some I64RemU
  | 0x83 => Some I64And
  | 0x84 => Some I64Or
  | 0x85 => Some I64Xor
  | 0x86 => Some I64Shl
  | 0x87 => Some I64ShrS
  | 0x88 => Some I64ShrU
  | 0x89 => Some I64Rotl
  | 0x8A => Some I64Rotr
  | 0x8B => Some F32Abs
  | 0x8C => Some F32Neg
  | 0x8D => Some F32Ceil
  | 0x8E => Some F32Floor
  | 0x8F => Some F32Trunc
  | 0x90 => Some F32Nearest
  | 0x91 => Some F32Sqrt
  | 0x92 => Some F32Add
  | 0x93 => Some F32Sub
  | 0x94 => Some F32Mul
  | 0x95 => Some F32Div
  | 0x96 => Some F32Min
  | 0x97 => Some F32Max
  | 0x98 => Some F32Copysign
  | 0x99 => Some F64Abs
  | 0x9A => Some F64Neg
  | 0x9B => Some F64Ceil
  | 0x9C => Some F64Floor
  | 0x9D => Some F64Trunc
  | 0x9E => Some F64Nearest
  | 0x9F => Some F64Sqrt
  | 0xA0 => Some F64Add
  | 0xA1 => Some F64Sub
  | 0xA2 => Some F64Mul
  | 0xA3 => Some F64Div
  | 0xA4 => Some F64Min
  | 0xA5 => Some F64Max
  | 0xA6 => Some F64Copysign
  | _ => None
  end.

(** [decode_instruction]: conversions, reinterpretations, sign extension. *)
Definition simple_conversion (opcode : Z) : option Instruction :=
  match opcode with
  | 0xA7 => Some I32WrapI64
  | 0xA8 => Some I32TruncF32S
  | 0xA9 => Some I32TruncF32U
  | 0xAA => Some I32TruncF64S
  | 0xAB => Some I32TruncF64U
  | 0xAC => Some I64ExtendI32S
  | 0xAD => Some I64ExtendI32U
  | 0xAE => Some I64TruncF32S
  | 0xAF => Some I64TruncF32U
  | 0xB0 => Some I64TruncF64S
  | 0xB1 => Some I64TruncF64U
  | 0xB2 => Some F32ConvertI32S
  | 0xB3 => Some F32ConvertI32U
  | 0xB4 => Some F32ConvertI64S
  | 0xB5 => Some F32ConvertI64U
  | 0xB6 => Some F32DemoteF64
  | 0xB7 => Some F64ConvertI32S
  | 0xB8 => Some F64ConvertI32U
  | 0xB9 => Some F64ConvertI64S
  | 0xBA => Some F64ConvertI64U
  | 0xBB => Some F64PromoteF32
  | 0xBC => Some I32ReinterpretF32
  | 0xBD => Some I64ReinterpretF64
  | 0xBE => Some F32ReinterpretI32
  | 0xBF => Some F64ReinterpretI64
  | 0xC0 => Some I32Extend8S
  | 0xC1 => Some I32Extend16S
  | 0xC2 => Some I64Extend8S
  | 0xC3 => Some I64Extend16S
  | 0xC4 => Some I64Extend32S
  | _ => None
  end.

(** [decode_instruction]: the 0xFC prefix. *)
Definition decode_prefixed (sub : Z) : option (Reader Instruction) :=
  match sub with
  | 0 => Some (mret I32TruncSatF32S)
  | 1 => Some (mret I32TruncSatF32U)
  | 2 => Some (mret I32TruncSatF64S)
  | 3 => Some (mret I32TruncSatF64U)
  | 4 => Some (mret I64TruncSatF32S)
  | 5 => Some (mret I64TruncSatF32U)
  | 6 => Some (mret I64TruncSatF64S)
  | 7 => Some (mret I64TruncSatF64U)
  | 8 => Some (data_idx ← read_leb128_u32; read_byte;; mret (MemoryInit data_idx))
  | 9 => imm1 DataDrop
  | 10 => Some (read_byte;; read_byte;; mret MemoryCopy)
  | 11 => skip_byte MemoryFill
  | 12 => imm2 TableInit
  | 13 => imm1 ElemDrop
  | 14 => imm2 TableCopy
  | 15 => imm1 TableGrow
  | 16 => imm1 TableSize
  | 17 => imm1 TableFill
  | _ => None
  end.

(** The first group that knows the opcode. *)
Definition decode_opcode (opcode : Z) : option (Reader Instruction) :=
  match decode_control opcode with
  | Some m => Some m
  | None =>
  match decode_memory opcode with
  | Some m => Some m
  | None =>
  match decode_const opcode with
  | Some m => Some m
  | None =>
  match simple_opcode opcode with
  | Some i => Some (mret i)
  | None =>
  match simple_conversion opcode with
  | Some i => Some (mret i)
  | None => None
  end end end end end.

(** [decode_instruction]. *)
Definition decode_instruction : Reader Instruction :=
  opcode ← read_byte;
  match decode_opcode opcode with
  | Some m => m
  | None =>
      if opcode =? 0xFC then
        sub ← read_leb128_u32;
        match decode_prefixed sub with
        | Some m => m
        | None => fail_here "Unknown 0xFC sub-opcode"
        end
      else fail_prev "Unknown opcode"
  end.

(** One iteration of the loop of [decode_instructions]. *)
Definition decode_step (instrs : list Instruction)
    : Reader (list Instruction + list Instruction) :=
  r ← get;
  if is_empty r then mret (inr instrs)
  else instr ← decode_instruction; mret (inl (instrs ++ [instr])).

(** Run a reader program on another reader. *)
Definition run_on {A} (r : BinaryReader) (m : Reader A) : Reader A := lift (m r).1.

(** [decode_instructions]. *)
Definition decode_instructions (bytes : list Z) : Reader (list Instruction) :=
  run_on (reader_new bytes) (reader_loop (length bytes) decode_step []).

(** [parse_init_expr]: one instruction of a constant expression; [None] is
    the terminating [end]. *)
Definition parse_init_instr (byte : Z) : Reader (option Instruction) :=
  match byte with
  | 0x0B => mret None
  | 0x41 => val ← read_leb128_i32; mret (Some (I32Const val))
  | 0x42 => val ← read_leb128_i64; mret (Some (I64Const val))
  | 0x43 => val ← read_f32; mret (Some (F32Const val))
  | 0x44 => val ← read_f64; mret (Some (F64Const val))
  | 0x23 => idx ← read_leb128_u32; mret (Some (GlobalGet idx))
  | 0xD0 => read_byte;; mret (Some RefNull)
  | 0xD2 => idx ← read_leb128_u32; mret (Some (RefFunc idx))
  | _ => fail_prev "Invalid opcode in init expression"
  end.

Definition parse_init_step (instrs : list Instruction)
    : Reader (list Instruction + list Instruction) :=
  byte ← read_byte;
  o ← parse_init_instr byte;
  mret (match o with None => inr instrs | Some i => inl (instrs ++ [i]) end).

(** [parse_init_expr]. *)
Definition parse_init_expr : Reader (list Instruction) :=
  r ← get; reader_loop (length (rd_data r)) parse_init_step [].

(** ** Sections *)

(** [parse_type_section]. *)
Definition parse_func_type : Reader FunctionType :=
  form ← read_byte;
  if negb (form =? 0x60) then fail_prev "Expected functype marker 0x60"
  else
    params ← counted parse_value_type;
    results ← counted parse_value_type;
    mret (mkFunctionType params results).
Definition parse_type_section : Reader (list FunctionType) := counted parse_func_type.

(** [parse_import_section]. *)
Definition parse_import_kind : Reader ImportKind :=
  kind_byte ← read_byte;
  match kind_byte with
  | 0x00 => type_idx ← read_leb128_u32; mret (ImportFunction type_idx)
  | 0x01 => table ← parse_table_type; mret (ImportTable table)
  | 0x02 => mem ← parse_memory_type; mret (ImportMemory mem)
  | 0x03 => global ← parse_global_type; mret (ImportGlobal global)
  | _ => fail_prev "Invalid import kind"
  end.
Definition parse_import : Reader Import :=
  module ← read_name;
  name ← read_name;
  kind ← parse_import_kind;
  mret (mkImport module name kind).
Definition parse_import_section : Reader (list Import) := counted parse_import.

(** [parse_function_section], [parse_table_section], [parse_memory_section]. *)
Definition parse_function_section : Reader (list Z) := counted read_leb128_u32.
Definition parse_table_section : Reader (list TableType) := counted parse_table_type.
Definition parse_memory_section : Reader (list MemoryType) := counted parse_memory_type.

(** [parse_global_section]. *)
Definition parse_global : Reader Global :=
  global_type ← parse_global_type;
  init_expr ← parse_init_expr;
  mret (mkGlobal global_type init_expr).
Definition parse_global_section : Reader (list Global) := counted parse_global.

(** [parse_export_section]. *)
Definition parse_export_kind : Reader ExportKind :=
  kind_byte ← read_byte;
  match kind_byte with
  | 0x00 => mret ExportFunction
  | 0x01 => mret ExportTable
  | 0x02 => mret ExportMemory
  | 0x03 => mret ExportGlobal
  | _ => fail_prev "Invalid export kind"
  end.
Definition parse_export : Reader Export :=
  name ← read_name;
  kind ← parse_export_kind;
  index ← read_leb128_u32;
  mret (mkExport name kind index).
Definition parse_export_section : Reader (list Export) := counted parse_export.

(** [parse_element_section]. *)
Definition parse_element : Reader Element :=
  flags ← read_leb128_u32;
  match flags with
  | 0 =>
      offset_expr ← parse_init_expr;
      func_indices ← counted read_leb128_u32;
      mret (mkElement 0 offset_expr func_indices false)
  | 1 =>
      read_byte;;
      func_indices ← counted read_leb128_u32;
      mret (mkElement 0 [] func_indices true)
  | 2 =>
      table_idx ← read_leb128_u32;
      offset_expr ← parse_init_expr;
      read_byte;;
      func_indices ← counted read_leb128_u32;
      mret (mkElement table_idx offset_expr func_indices false)
  | _ => fail_here "Unsupported element segment kind"
  end.
Definition parse_element_section : Reader (list Element) := counted parse_element.

(** [parse_code_section]: [body_size] minus the bytes of the local
    declarations is the length of the code; the subtraction can overflow. *)
Definition parse_local : Reader (Z * ValueType) :=
  count ← read_leb128_u32;
  vtype ← parse_value_type;
  mret (count, vtype).
Definition parse_body : Reader FunctionBody :=
  body_size ← read_leb128_u32;
  body_start ← position;
  locals ← counted parse_local;
  code_start ← position;
  used ← sub_or_panic code_start body_start;
  code_len ← sub_or_panic body_size used;
  code_bytes ← read_bytes code_len;
  instructions ← decode_instructions code_bytes;
  mret (mkFunctionBody locals instructions code_bytes).
Definition parse_code_section : Reader (list FunctionBody) := counted parse_body.

(** [parse_data_section]. *)
Definition read_data : Reader (list Z) :=
  data_len ← read_leb128_u32; read_bytes data_len.
Definition parse_segment : Reader DataSegment :=
  flags ← read_leb128_u32;
  match flags with
  | 0 =>
      offset_expr ← parse_init_expr;
      data ← read_data;
      mret (mkDataSegment 0 offset_expr data false)
  | 1 =>
      data ← read_data;
      mret (mkDataSegment 0 [] data true)
  | 2 =>
      memory_idx ← read_leb128_u32;
      offset_expr ← parse_init_expr;
      data ← read_data;
      mret (mkDataSegment memory_idx offset_expr data false)
  | _ => fail_here "Unsupported data segment kind"
  end.
Definition parse_data_section : Reader (list DataSegment) := counted parse_segment.

(** [parse_header]. *)
Definition parse_header : Reader unit :=
  magic ← read_bytes 4;
  if negb (bool_decide (magic = WASM_MAGIC)) then
    throw (mkParseError "Invalid WASM magic number" 0)
  else
    version ← read_u32_le;
    if negb (version =? WASM_VERSION) then throw (mkParseError "Unsupported WASM version" 4)
    else mret tt.

(** [try_parse_custom_name]: every error of the source inside becomes [None]. *)
Definition name_step (_ : unit) : Reader (unit + option string) :=
  r ← get;
  if is_empty r then mret (inr None)
  else
    subsection_id ← read_byte;
    subsection_size ← read_leb128_u32;
    if subsection_id =? 0 then module_name ← read_name; mret (inr (Some module_name))
    else skip subsection_size;; mret (inl tt).
Definition parse_name_section : Reader (option string) :=
  name ← read_name;
  if String.eqb name "name" then r ← get; reader_loop (length (rd_data r)) name_step tt
  else mret None.
Definition try_parse_custom_name (data : list Z) (section_start section_size : Z)
    : outcome ParseError (option string) :=
  match checked_add 64 section_start section_size with
  | None => Panic
  | Some e =>
      if len data <? e then Ok None
      else
        match (parse_name_section (reader_new (slice data section_start e))).1 with
        | Ok o => Ok o
        | Err e => if is_hung e then Err e else Ok None
        | Panic => Panic
        end
  end.

(** Record updates for the locals of [WasmParser::parse]. *)
Definition set_types x m := mkModule x (imports m) (functions m) (tables m) (memories m) (globals m) (exports m) (start m) (elements m) (code m) (data m) (module_name m) (data_count m).
Definition set_imports x m := mkModule (types m) x (functions m) (tables m) (memories m) (globals m) (exports m) (start m) (elements m) (code m) (data m) (module_name m) (data_count m).
Definition set_functions x m := mkModule (types m) (imports m) x (tables m) (memories m) (globals m) (exports m) (start m) (elements m) (code m) (data m) (module_name m) (data_count m).
Definition set_tables x m := mkModule (types m) (imports m) (functions m) x (memories m) (globals m) (exports m) (start m) (elements m) (code m) (data m) (module_name m) (data_count m).
Definition set_memories x m := mkModule (types m) (imports m) (functions m) (tables m) x (globals m) (exports m) (start m) (elements m) (code m) (data m) (module_name m) (data_count m).
Definition set_globals x m := mkModule (types m) (imports m) (functions m) (tables m) (memories m) x (exports m) (start m) (elements m) (code m) (data m) (module_name m) (data_count m).
Definition set_exports x m := mkModule (types m) (imports m) (functions m) (tables m) (memories m) (globals m) x (start m) (elements m) (code m) (data m) (module_name m) (data_count m).
Definition set_start x m := mkModule (types m) (imports m) (functions m) (tables m) (memories m) (globals m) (exports m) x (elements m) (code m) (data m) (module_name m) (data_count m).
Definition set_elements x m := mkModule (types m) (imports m) (functions m) (tables m) (memories m) (globals m) (exports m) (start m) x (code m) (data m) (module_name m) (data_count m).
Definition set_code x m := mkModule (types m) (imports m) (functions m) (tables m) (memories m) (globals m) (exports m) (start m) (elements m) x (data m) (module_name m) (data_count m).
Definition set_segments x m := mkModule (types m) (imports m) (functions m) (tables m) (memories m) (globals m) (exports m) (start m) (elements m) (code m) x (module_name m) (data_count m).
Definition set_name x m := mkModule (types m) (imports m) (functions m) (tables m) (memories m) (globals m) (exports m) (start m) (elements m) (code m) (data m) x (data_count m).
Definition set_data_count x m := mkModule (types m) (imports m) (functions m) (tables m) (memories m) (globals m) (exports m) (start m) (elements m) (code m) (data m) (module_name m) x.

(** A section body on its sub-reader, then [reader.skip(section_size)?]. *)
Definition section {A} (section_start section_size : Z) (m : Reader A) (upd : A → Module_ → Module_)
    (acc : Module_) : Reader Module_ :=
  sr ← sub_reader section_start section_size;
  x ← run_on sr m;
  skip section_size;;
  mret (upd x acc).

(** The match on the section id in the loop of [WasmParser::parse]. *)
Definition parse_section_body (bytes : list Z) (section_id : option SectionId)
    (section_start section_size : Z) (acc : Module_) : Reader Module_ :=
  match section_id with
  | Some SecCustom =>
      custom_name ← lift (try_parse_custom_name bytes section_start section_size);
      skip section_size;;
      mret (match custom_name with Some n => set_name (Some n) acc | None => acc end)
  | Some SecType => section section_start section_size parse_type_section set_types acc
  | Some SecImport => section section_start section_size parse_import_section set_imports acc
  | Some SecFunction => section section_start section_size parse_function_section set_functions acc
  | Some SecTable => section section_start section_size parse_table_section set_tables acc
  | Some SecMemory => section section_start section_size parse_memory_section set_memories acc
  | Some SecGlobal => section section_start section_size parse_global_section set_globals acc
  | Some SecExport => section section_start section_size parse_export_section set_exports acc
  | Some SecStart =>
      section section_start section_size read_leb128_u32 (λ i, set_start (Some i)) acc
  | Some SecElement => section section_start section_size parse_element_section set_elements acc
  | Some SecCode => section section_start section_size parse_code_section set_code acc
  | Some SecData => section section_start section_size parse_data_section set_segments acc
  | Some SecDataCount =>
      section section_start section_size read_leb128_u32 (λ n, set_data_count (Some n)) acc
  | None => skip section_size;; mret acc
  end.

(** One iteration of the loop of [WasmParser::parse]. *)
Definition parse_step (bytes : list Z) (acc : Module_) : Reader (Module_ + Module_) :=
  r ← get;
  if is_empty r then mret (inr acc)
  else
    section_id_byte ← read_byte;
    section_size ← read_leb128_u32;
    section_start ← position;
    acc ← parse_section_body bytes (section_from_byte section_id_byte)
            section_start section_size acc;
    mret (inl acc).

(** [WasmParser::parse]. *)
Definition parse_reader (bytes : list Z) : Reader Module_ :=
  parse_header;; reader_loop (length bytes) (parse_step bytes) empty_module.
Definition parse (bytes : list Z) : outcome ParseError Module_ :=
  (parse_reader bytes (reader_new bytes)).1.

(** ** Ranges: what a parsed module satisfies *)

(** Split a [keeps] goal along the monad; the leaves are closed by [kpio]. *)
Ltac keeps_go :=
  repeat lazymatch goal with
  | |- keeps (_ ≫= _) _ => eapply keeps_bind; [solve [eauto 4 with kpio nocore]|]
  | |- keeps (mret _) _ => apply keeps_ret
  | |- keeps (throw _) _ => apply keeps_throw; unfold genuine; simpl; lia
  | |- keeps panic _ => apply keeps_panic
  | |- ∀ _, _ => progress (intros; destruct_and?; simpl in *)
  | |- _ => solve [eauto 4 with kpio nocore]
  end; try (destruct_and?; simpl in *; split_and?; done); eauto.

Lemma keeps_sub a b : keeps (sub_or_panic a b) (λ x, x = a - b ∧ b ≤ a).
Proof. unfold sub_or_panic. zcase; [apply keeps_panic|]. by apply keeps_ret. Qed.

Lemma keeps_fail_here {A} msg (Q : A → Prop) : keeps (fail_here msg) Q.
Proof. unfold fail_here. keeps_go. Qed.

Lemma keeps_fail_prev {A} msg (Q : A → Prop) : keeps (fail_prev msg) Q.
Proof.
  unfold fail_prev. eapply keeps_bind; [apply keeps_position|]. intros p _.
  eapply keeps_bind; [apply keeps_sub|]. intros x [-> Hx]. apply keeps_throw. unfold genuine. simpl. lia.
Qed.

Lemma keeps_counted {A} (m : Reader A) (Q : A → Prop) :
  keeps m Q → keeps (counted m) (λ l, Forall Q l ∧ small l).
Proof.
  intros Hm. eapply keeps_bind; [apply keeps_u32|]. intros n Hn.
  eapply keeps_mono; [by apply keeps_repeat|]. intros l [Hl Hlen].
  split; [done|]. unfold small, len, in_u in *. lia.
Qed.

#[export] Hint Extern 0 (keeps (sub_or_panic _ _) _) => apply keeps_sub : kpio.
#[export] Hint Extern 0 (keeps (fail_here _) _) => apply keeps_fail_here : kpio.
#[export] Hint Extern 0 (keeps (fail_prev _) _) => apply keeps_fail_prev : kpio.
#[export] Hint Extern 0 (keeps (counted _) _) => apply keeps_counted : kpio.

Lemma keeps_value_type : keeps parse_value_type (λ _, True).
Proof. unfold parse_value_type. keeps_go. destruct (value_type_of_byte _); keeps_go. Qed.

Lemma keeps_read_max flags : keeps (read_max flags) limit_ok.
Proof. unfold read_max. destruct (negb _); keeps_go. Qed.

#[export] Hint Extern 0 (keeps parse_value_type _) => apply keeps_value_type : kpio.
#[export] Hint Extern 0 (keeps (read_max _) _) => apply keeps_read_max : kpio.

Lemma keeps_limits : keeps parse_limits (λ l, in_u 32 l.1 ∧ limit_ok l.2).
Proof. unfold parse_limits. keeps_go. Qed.
#[export] Hint Extern 0 (keeps parse_limits _) => apply keeps_limits : kpio.

Lemma keeps_table_type : keeps parse_table_type tabletype_ok.
Proof. unfold parse_table_type, tabletype_ok. keeps_go. Qed.

Lemma keeps_memory_type : keeps parse_memory_type memtype_ok.
Proof. unfold parse_memory_type, memtype_ok. keeps_go. Qed.

Lemma keeps_global_type : keeps parse_global_type (λ _, True).
Proof. unfold parse_global_type. keeps_go. Qed.

Lemma keeps_blocktype : keeps parse_blocktype blocktype_ok.
Proof.
  unfold parse_blocktype. keeps_go. destruct (_ =? 64); [keeps_go|].
  case_bool_decide; [keeps_go|]. eapply keeps_bind; [apply keeps_i32|].
  intros idx Hi. zcase; [keeps_go|]. apply keeps_ret. unfold blocktype_ok, in_s, in_u, as_u32 in *.
  rewrite wrap_id; unfold in_u; lia.
Qed.
#[export] Hint Extern 0 (keeps parse_table_type _) => apply keeps_table_type : kpio.
#[export] Hint Extern 0 (keeps parse_memory_type _) => apply keeps_memory_type : kpio.
#[export] Hint Extern 0 (keeps parse_global_type _) => apply keeps_global_type : kpio.
#[export] Hint Extern 0 (keeps parse_blocktype _) => apply keeps_blocktype : kpio.

(** Every group decodes to instructions in range. *)
Definition decodes_ok (o : option (Reader Instruction)) : Prop :=
  match o with Some m => keeps m instr_ok | None => True end.

Lemma imm1_ok (c : Z → Instruction) : (∀ a, in_u 32 a → instr_ok (c a)) → decodes_ok (imm1 c).
Proof. intros Hc. simpl. keeps_go. Qed.

Lemma imm2_ok (c : Z → Z → Instruction) :
  (∀ a b, in_u 32 a → in_u 32 b → instr_ok (c a b)) → decodes_ok (imm2 c).
Proof. intros Hc. simpl. keeps_go. Qed.

Lemma memarg_ok (c : Z → Z → Instruction) :
  (∀ a b, in_u 32 a → in_u 32 b → instr_ok (c a b)) → decodes_ok (memarg c).
Proof. intros Hc. simpl. keeps_go. Qed.

Lemma blocktype_instr_ok (c : BlockType → Instruction) :
  (∀ bt, blocktype_ok bt → instr_ok (c bt)) → decodes_ok (blocktype c).
Proof. intros Hc. simpl. keeps_go. Qed.

Lemma skip_byte_ok i : instr_ok i → decodes_ok (skip_byte i).
Proof. intros. simpl. keeps_go. Qed.

Lemma ret_ok i : instr_ok i → decodes_ok (Some (mret i)).
Proof. intros. simpl. keeps_go. Qed.


(** Case analysis on the literals of a match over an opcode. *)
Ltac opcode_cases :=
  repeat match goal with
  | |- context [match ?z with Z0 => _ | Zpos _ => _ | Zneg _ => _ end] => destruct z
  | |- context [match ?p with xI _ => _ | xO _ => _ | xH => _ end] => destruct p
  end.

Ltac decode_go :=
  opcode_cases;
  lazymatch goal with
  | |- decodes_ok None => exact I
  | |- decodes_ok (imm1 _) => by apply imm1_ok
  | |- decodes_ok (imm2 _) => by apply imm2_ok
  | |- decodes_ok (memarg _) => by apply memarg_ok
  | |- decodes_ok (blocktype _) => by apply blocktype_instr_ok
  | |- decodes_ok (skip_byte _) => by apply skip_byte_ok
  | |- decodes_ok (Some (mret _)) => by apply ret_ok
  | |- _ => simpl; keeps_go
  end.

Lemma decode_control_ok opcode : decodes_ok (decode_control opcode).
Proof. unfold decode_control. decode_go. Qed.

Lemma decode_memory_ok opcode : decodes_ok (decode_memory opcode).
Proof. unfold decode_memory. decode_go. Qed.

Lemma decode_const_ok opcode : decodes_ok (decode_const opcode).
Proof. unfold decode_const. decode_go. Qed.

Lemma decode_prefixed_ok opcode : decodes_ok (decode_prefixed opcode).
Proof. unfold decode_prefixed. decode_go. Qed.

Lemma simple_opcode_ok opcode i : simple_opcode opcode = Some i → instr_ok i.
Proof. unfold simple_opcode. opcode_cases; intros; by simplify_eq. Qed.

Lemma simple_conversion_ok opcode i : simple_conversion opcode = Some i → instr_ok i.
Proof. unfold simple_conversion. opcode_cases; intros; by simplify_eq. Qed.

Lemma decode_opcode_ok opcode : decodes_ok (decode_opcode opcode).
Proof.
  unfold decode_opcode. pose proof (decode_control_ok opcode) as H1.
  destruct (decode_control opcode); [done|].
  pose proof (decode_memory_ok opcode) as H2. destruct (decode_memory opcode); [done|].
  pose proof (decode_const_ok opcode) as H3. destruct (decode_const opcode); [done|].
  destruct (simple_opcode opcode) eqn:Es; [by apply ret_ok, (simple_opcode_ok opcode)|].
  destruct (simple_conversion opcode) eqn:Ec; [|done].
  by apply ret_ok, (simple_conversion_ok opcode).
Qed.

Lemma keeps_decode_rest opcode :
  keeps (match decode_opcode opcode with
         | Some m => m
         | None =>
             if opcode =? 0xFC then
               sub ← read_leb128_u32;
               match decode_prefixed sub with
               | Some m => m
               | None => fail_here "Unknown 0xFC sub-opcode"
               end
             else fail_prev "Unknown opcode"
         end) instr_ok.
Proof.
  pose proof (decode_opcode_ok opcode) as Hb. destruct (decode_opcode opcode); [done|].
  zcase; [|keeps_go]. eapply keeps_bind; [apply keeps_u32|]. intros sub _.
  pose proof (decode_prefixed_ok sub) as Hs. destruct (decode_prefixed sub); [done|keeps_go].
Qed.

Lemma keeps_instruction : keeps decode_instruction instr_ok.
Proof. eapply keeps_bind; [apply keeps_byte|]. intros. apply keeps_decode_rest. Qed.

Lemma keeps_get (Q : BinaryReader → Prop) : (∀ r, reader_ok r → Q r) → keeps get Q.
Proof. intros HQ r Hr. unfold keeps_at, wp, get. split; [by apply HQ|]. rd_done. Qed.

Lemma keeps_decode_step instrs :
  Forall instr_ok instrs →
  keeps (decode_step instrs) (λ o, Forall instr_ok (match o with inl l => l | inr l => l end)).
Proof.
  intros Hl. eapply keeps_bind; [by apply (keeps_get (λ _, True))|]. intros r _.
  destruct (is_empty r); [by apply keeps_ret|].
  eapply keeps_bind; [apply keeps_instruction|]. intros i Hi. apply keeps_ret.
  apply Forall_app. split; [done|]. by apply Forall_singleton.
Qed.

(** A reader program on another reader leaves the current one alone. *)
Lemma keeps_run_at {A} r' (m : Reader A) (Q : A → Prop) : keeps_at m Q r' → keeps (run_on r' m) Q.
Proof.
  intros Hm r Hr. unfold keeps_at, wp, run_on, lift in *.
  destruct (m r') as [[a|e|] r'']; simpl; destruct Hm as (Hq & _); (split; [done|]); rd_done.
Qed.

Lemma keeps_run_on {A} r' (m : Reader A) (Q : A → Prop) : reader_ok r' → keeps m Q → keeps (run_on r' m) Q.
Proof. intros Hr' Hm. apply keeps_run_at. by apply Hm. Qed.

Lemma progress_while {T A} (k : T → Z → Reader (T + A)) (a : T → A) :
  (∀ s b, keeps (k s b) (λ _, True)) →
  progress_step (λ s, r ← get; if is_empty r then mret (inr (a s)) else read_byte ≫= k s).
Proof.
  intros Hk s r s' r' Hr. unfold get. unfold mbind at 1, M_bind at 1. simpl.
  destruct (is_empty r); [done|]. by apply progress_byte.
Qed.

Lemma progress_decode : progress_step decode_step.
Proof.
  intros s r s' r' Hr. unfold decode_step, get. unfold mbind at 1, M_bind at 1. simpl.
  destruct (is_empty r); [done|]. unfold decode_instruction. rewrite bind_assoc.
  apply progress_byte; [done|]. intros b.
  eapply keeps_bind; [apply keeps_decode_rest|]. intros. by apply keeps_ret.
Qed.


Lemma keeps_decode_instructions bs :
  bytes_ok bs → len bs < 2 ^ 63 → keeps (decode_instructions bs) (Forall instr_ok).
Proof.
  intros. apply keeps_run_at. apply (keeps_loop (Forall instr_ok)).
  - intros l Hl. eapply keeps_mono; [by apply keeps_decode_step|]. by intros [?|?].
  - apply progress_decode.
  - by constructor.
  - by apply reader_new_ok.
  - by rewrite len_rest by (by apply reader_new_ok); simpl; unfold len; lia.
Qed.

Lemma keeps_init_instr b :
  keeps (parse_init_instr b) (λ o, ∀ i, o = Some i → const_instr i ∧ instr_ok i).
Proof. unfold parse_init_instr. opcode_cases; keeps_go; intros; by simplify_eq. Qed.

Lemma progress_init : progress_step parse_init_step.
Proof.
  intros s r s' r' Hr. apply progress_byte; [done|]. intros b.
  eapply keeps_bind; [apply keeps_init_instr|]. intros. by apply keeps_ret.
Qed.

(** A loop with as many iterations as its reader has bytes. *)
Lemma keeps_data_loop {T A} (P : T → Prop) (Q : A → Prop) (step : T → Reader (T + A)) s :
  (∀ s, P s → keeps (step s) (λ o, match o with inl s' => P s' | inr a => Q a end)) → progress_step step → P s →
  keeps (r ← get; reader_loop (length (rd_data r)) step s) Q.
Proof.
  intros Hstep Hp Hs r Hr. pose proof Hr as ((? & ?) & _).
  assert (Hk : keeps_at (reader_loop (length (rd_data r)) step s) Q r).
  { apply (keeps_loop P); [done..|]. rewrite len_rest by done. unfold len. lia. }
  exact Hk.
Qed.

Lemma keeps_init_expr : keeps parse_init_expr const_expr.
Proof.
  apply (keeps_data_loop const_expr); [|apply progress_init|constructor]. intros l Hl.
  eapply keeps_bind; [apply keeps_byte|]. intros b _.
  eapply keeps_bind; [apply keeps_init_instr|]. intros [i|] Hi; apply keeps_ret; [|done].
  apply Forall_app. split; [done|]. apply Forall_singleton. by apply Hi.
Qed.
#[export] Hint Extern 0 (keeps parse_init_expr _) => apply keeps_init_expr : kpio.

(** ** Sections *)

Lemma keeps_func_type : keeps parse_func_type functype_ok.
Proof. unfold parse_func_type, functype_ok. keeps_go. destruct (negb _); keeps_go. Qed.

Lemma keeps_import : keeps parse_import import_ok.
Proof.
  unfold parse_import. keeps_go. apply keeps_bind with (λ k, import_ok (mkImport "" "" k)).
  - unfold parse_import_kind. keeps_go. opcode_cases; keeps_go.
  - keeps_go.
Qed.

Lemma keeps_global : keeps parse_global (λ g, const_expr (init_expr g)).
Proof. unfold parse_global. keeps_go. Qed.

Lemma keeps_export : keeps parse_export (λ e, in_u 32 (export_index e)).
Proof.
  unfold parse_export. keeps_go. apply keeps_bind with (λ _, True); [|keeps_go].
  unfold parse_export_kind. keeps_go. opcode_cases; keeps_go.
Qed.

Lemma keeps_element : keeps parse_element element_ok.
Proof.
  unfold parse_element. keeps_go.
  opcode_cases; keeps_go; destruct_and?; split_and!; simpl; try done; try lia; by apply Forall_nil.
Qed.

Lemma keeps_local : keeps parse_local (λ l, in_u 32 l.1).
Proof. unfold parse_local. keeps_go. Qed.
#[export] Hint Extern 0 (keeps parse_local _) => apply keeps_local : kpio.

Lemma keeps_body : keeps parse_body body_ok.
Proof.
  unfold parse_body. eapply keeps_bind; [apply keeps_u32|]. intros body_size Hs.
  eapply keeps_bind; [apply keeps_position|]. intros p _.
  eapply keeps_bind; [apply keeps_counted, keeps_local|]. intros locals [Hl Hsm].
  eapply keeps_bind; [apply keeps_position|]. intros q _.
  eapply keeps_bind; [apply keeps_sub|]. intros used [-> ?].
  eapply keeps_bind; [apply keeps_sub|]. intros n [-> ?].
  eapply keeps_bind; [apply keeps_bytes; lia|]. intros bs [Hb Hlen].
  eapply keeps_bind; [apply keeps_decode_instructions; [done|unfold in_u in *; lia]|]. intros l Hi.
  by apply keeps_ret.
Qed.

Lemma keeps_read_data : keeps read_data (λ bs, bytes_ok bs ∧ small bs).
Proof.
  eapply keeps_bind; [apply keeps_u32|]. intros n Hn.
  eapply keeps_mono; [apply keeps_bytes; unfold in_u in Hn; lia|].
  intros bs [? ?]. unfold small, in_u in *. split; [done|lia].
Qed.
#[export] Hint Extern 0 (keeps read_data _) => apply keeps_read_data : kpio.

Lemma keeps_segment : keeps parse_segment segment_ok.
Proof.
  unfold parse_segment. keeps_go.
  opcode_cases; keeps_go; destruct_and?; split_and!; simpl; try done; try lia; by apply Forall_nil.
Qed.

Lemma keeps_sub_reader a n :
  0 ≤ a → 0 ≤ n → keeps (sub_reader a n) reader_ok.
Proof.
  intros Ha Hn r Hr. unfold keeps_at, wp, sub_reader, add_or_panic, checked_add, get, mbind, M_bind.
  zcase; simpl; [|rd_done]. zcase; simpl; [rd_done|].
  destruct Hr as ((? & ?) & ? & Hb). split; [|rd_done].
  split; [|split]; simpl; rewrite ?length_slice by lia; [|lia|by apply Forall_slice]. lia.
Qed.

(** What follows the first byte of a name subsection. *)
Lemma keeps_name_rest b :
  keeps (subsection_size ← read_leb128_u32;
         if b =? 0 then module_name ← read_name; mret (inr (Some module_name)) else skip subsection_size;; mret (inl tt))
    (λ _ : unit + option string, True).
Proof.
  eapply keeps_bind; [apply keeps_u32|]. intros n Hn. zcase.
  - eapply keeps_bind; [apply keeps_name|]. intros. by apply keeps_ret.
  - eapply keeps_bind; [apply keeps_skip; unfold in_u in Hn; lia|]. intros. by apply keeps_ret.
Qed.

Lemma progress_name : progress_step name_step.
Proof.
  apply (progress_while _ (λ _, None)). intros _ b. apply keeps_name_rest.
Qed.

Lemma keeps_name_section : keeps parse_name_section (λ _, True).
Proof.
  eapply keeps_bind; [apply keeps_name|]. intros name _. destruct (String.eqb _ _); [|by apply keeps_ret].
  apply (keeps_data_loop (λ _, True)); [|apply progress_name|done]. intros u _.
  eapply keeps_bind; [by apply (keeps_get (λ _, True))|]. intros r _. destruct (is_empty r); [by apply keeps_ret|].
  eapply keeps_bind; [apply keeps_byte|]. intros b _. eapply keeps_mono; [apply keeps_name_rest|]. by intros [].
Qed.

(** The loop over the name subsections ends. *)
Lemma keeps_custom_name bytes a n :
  bytes_ok bytes → len bytes < 2 ^ 63 → 0 ≤ a → 0 ≤ n → keeps (lift (try_parse_custom_name bytes a n)) (λ _, True).
Proof.
  intros Hb Hl Ha Hn r Hr. unfold keeps_at, wp, lift, try_parse_custom_name, checked_add. zcase; simpl; [|rd_done].
  zcase; simpl; [rd_done|]. set (sr := reader_new _).
  assert (Hsr : reader_ok sr).
  { apply reader_new_ok; [by apply Forall_slice|]. rewrite length_slice by lia. lia. }
  pose proof (keeps_name_section sr Hsr) as Hk. unfold keeps_at, wp in Hk.
  destruct (parse_name_section sr) as [[o|e|] r']; simpl; [rd_done| |rd_done].
  destruct Hk as (Hg & _). specialize (Hg e eq_refl). unfold genuine in Hg. unfold is_hung.
  rewrite (proj2 (Z.ltb_ge _ _)) by done. rd_done.
Qed.

Lemma keeps_section {A} a n (m : Reader A) (upd : A → Module_ → Module_) acc (Q : A → Prop) :
  0 ≤ a → 0 ≤ n → keeps m Q → (∀ x, Q x → module_ok acc → module_ok (upd x acc)) →
  keeps (section a n m upd acc) (λ acc', module_ok acc → module_ok acc').
Proof.
  intros Ha Hn Hm Hu. unfold section. eapply keeps_bind; [by apply keeps_sub_reader|]. intros sr Hsr.
  eapply keeps_bind; [by apply keeps_run_on|]. intros x Hx.
  eapply keeps_bind; [by apply keeps_skip|]. intros. apply keeps_ret. by apply Hu.
Qed.

Lemma keeps_section_body bytes id a n acc :
  bytes_ok bytes → len bytes < 2 ^ 63 → 0 ≤ a → 0 ≤ n →
  keeps (parse_section_body bytes id a n acc) (λ acc', module_ok acc → module_ok acc').
Proof.
  intros Hbytes Hbl Ha Hn.
  assert (Hcount : ∀ B (m : Reader B) Q upd,
    keeps m Q → (∀ l, Forall Q l ∧ small l → module_ok acc → module_ok (upd l acc)) →
    keeps (section a n (counted m) upd acc) (λ acc', module_ok acc → module_ok acc')).
  { intros. eapply keeps_section; [done..|by apply keeps_counted|done]. }
  destruct id as [[]|]; simpl;
    try (eapply Hcount; [eauto using keeps_func_type, keeps_import, keeps_u32, keeps_table_type,
      keeps_memory_type, keeps_global, keeps_export, keeps_element, keeps_body, keeps_segment
      |by intros l Hl []; constructor]);
    try (eapply keeps_section; [done..|apply keeps_u32|by intros i Hi []; constructor]).
  - apply keeps_bind with (λ _, True).
    + by apply keeps_custom_name.
    + intros o _. eapply keeps_bind; [by apply keeps_skip|]. intros. apply keeps_ret.
      intros []. destruct o; by constructor.
  - eapply keeps_bind; [by apply keeps_skip|]. intros. by apply keeps_ret.
Qed.

Lemma keeps_header : keeps parse_header (λ _, True).
Proof.
  unfold parse_header. eapply keeps_bind; [by apply keeps_bytes|]. intros magic _.
  destruct (negb _); [by apply keeps_throw|]. apply keeps_bind with (λ _, True).
  - eapply keeps_bind; [by apply keeps_bytes|]. intros. by apply keeps_ret.
  - intros v _. destruct (negb _); [by apply keeps_throw|by apply keeps_ret].
Qed.

Lemma empty_module_ok : module_ok empty_module.
Proof. constructor; simpl; try done; split; by constructor || done. Qed.

(** What follows the first byte of a section. *)
Lemma keeps_section_rest bytes b acc :
  bytes_ok bytes → len bytes < 2 ^ 63 →
  keeps (section_size ← read_leb128_u32; section_start ← position;
         acc ← parse_section_body bytes (section_from_byte b) section_start section_size acc; mret (inl acc))
    (λ o : Module_ + Module_, match o with inl acc' => module_ok acc → module_ok acc' | inr _ => False end).
Proof.
  intros Hb Hl.
  eapply keeps_bind; [apply keeps_u32|]. intros n Hn.
  eapply keeps_bind; [apply keeps_position|]. intros p Hp.
  eapply keeps_bind; [apply keeps_section_body; [done..|unfold in_u in Hn; lia]|].
  intros. by apply keeps_ret.
Qed.

(** One iteration of the loop over the sections. *)
Lemma keeps_parse_step bytes acc :
  bytes_ok bytes → len bytes < 2 ^ 63 → module_ok acc →
  keeps (parse_step bytes acc) (λ o, match o with inl acc' => module_ok acc' | inr acc' => module_ok acc' end).
Proof.
  intros Hb Hl Hacc. eapply keeps_bind; [by apply (keeps_get (λ _, True))|]. intros r _.
  destruct (is_empty r); [by apply keeps_ret|].
  eapply keeps_bind; [apply keeps_byte|]. intros b _.
  eapply keeps_mono; [by apply (keeps_section_rest bytes b acc)|]. intros [acc'|acc'] Ho; [by apply Ho|done].
Qed.

Lemma progress_parse bytes : bytes_ok bytes → len bytes < 2 ^ 63 → progress_step (parse_step bytes).
Proof.
  intros Hb Hl. apply (progress_while _ (λ acc, acc)). intros acc b. eapply keeps_mono; [by apply (keeps_section_rest bytes b acc)|done].
Qed.

Lemma keeps_parse bytes : bytes_ok bytes → len bytes < 2 ^ 63 → keeps_at (parse_reader bytes) module_ok (reader_new bytes).
Proof.
  intros Hb Hl. pose proof (reader_new_ok bytes Hb Hl) as Hr.
  pose proof (keeps_header (reader_new bytes) Hr) as Hh. unfold keeps_at, wp, parse_reader, mbind, M_bind in *.
  destruct (parse_header (reader_new bytes)) as [[u|e|] r]; [|done..]. destruct Hh as (_ & Hr' & Hd & Hp).
  assert (Hk : keeps_at (reader_loop (length bytes) (parse_step bytes) empty_module) module_ok r).
  { apply (keeps_loop module_ok); [by intros; apply keeps_parse_step|by apply progress_parse|apply empty_module_ok|done|].
    rewrite len_rest, Hd by done. simpl in *. unfold len. lia. }
  unfold keeps_at, wp in Hk. destruct (reader_loop _ _ _ r) as [[m|e|] r'']; destruct Hk as (? & ? & ? & ?);
    split_and!; try done; congruence || lia.
Qed.

(** ** Termination of the loops *)

Lemma loop_fuel_data {T A} (step : T → Reader (T + A)) k s r :
  progress_step step → reader_ok r →
  reader_loop (length (rd_data r) + k) step s r = reader_loop (length (rd_data r)) step s r.
Proof.
  intros Hp Hr. pose proof (len_rest r Hr) as Hl. pose proof Hr as ((? & ?) & _).
  apply reader_loop_fuel; try done; rewrite Hl; unfold len in *; lia.
Qed.

(** An outcome that is not due to the fuel. *)
Definition ends {A} (o : outcome ParseError A * BinaryReader) : Prop := match o.1 with Err e => genuine e | _ => True end.

(** A loop ends whose body ends and goes on only after reading a byte. *)
Definition body_ends {T A} (step : T → Reader (T + A)) : Prop := ∀ s, keeps (step s) (λ _, True).

Lemma loop_ends {T A} (step : T → Reader (T + A)) s r :
  body_ends step → progress_step step → reader_ok r → ends (reader_loop (length (rd_data r)) step s r).
Proof.
  intros Hs Hp Hr. pose proof Hr as ((? & ?) & _).
  assert (Hk : keeps_at (reader_loop (length (rd_data r)) step s) (λ _, True) r).
  { apply (keeps_loop (λ _, True)); [|done..|rewrite len_rest by done; unfold len in *; lia].
    intros s' _. eapply keeps_mono; [apply Hs|]. by intros []. }
  unfold keeps_at, wp, ends in *. destruct (reader_loop _ _ _ r) as [[|e|] r']; [done| |done]. by apply Hk.
Qed.

Lemma while_ends {T A} (k : T → Z → Reader (T + A)) (a : T → A) :
  (∀ s b, keeps (k s b) (λ _, True)) →
  body_ends (λ s, r ← get; if is_empty r then mret (inr (a s)) else read_byte ≫= k s).
Proof.
  intros Hk s. eapply keeps_bind; [by apply (keeps_get (λ _, True))|]. intros r _.
  destruct (is_empty r); [by apply keeps_ret|]. eapply keeps_bind; [apply keeps_byte|]. intros b _. apply Hk.
Qed.

Lemma parse_step_ends bytes : bytes_ok bytes → len bytes < 2 ^ 63 → body_ends (parse_step bytes).
Proof.
  intros Hb Hl. apply (while_ends _ (λ acc, acc)). intros acc b. eapply keeps_mono; [by apply (keeps_section_rest bytes b acc)|done].
Qed.

Lemma decode_step_ends : body_ends decode_step.
Proof.
  intros s. eapply keeps_bind; [by apply (keeps_get (λ _, True))|]. intros r _.
  destruct (is_empty r); [by apply keeps_ret|]. eapply keeps_bind; [apply keeps_instruction|]. intros. by apply keeps_ret.
Qed.

Lemma parse_init_step_ends : body_ends parse_init_step.
Proof.
  intros s. eapply keeps_bind; [apply keeps_byte|]. intros b _.
  eapply keeps_bind; [apply keeps_init_instr|]. intros. by apply keeps_ret.
Qed.

Lemma name_step_ends : body_ends name_step.
Proof.
  apply (while_ends _ (λ _, None)). intros _ b. apply keeps_name_rest.
Qed.

Lemma parse_genuine bytes e : bytes_ok bytes → len bytes < 2 ^ 63 → parse bytes = Err e → genuine e.
Proof.
  intros Hb Hl Hp. pose proof (keeps_parse bytes Hb Hl) as Hk. unfold parse in Hp. unfold keeps_at, wp in Hk.
  destruct (parse_reader bytes (reader_new bytes)) as [o r']. simpl in Hp. subst o. by apply Hk.
Qed.

Lemma parse_ok_module bytes m :
  bytes_ok bytes → len bytes < 2 ^ 63 → parse bytes = Ok m → module_ok m.
Proof.
  intros Hb Hl Hp. pose proof (keeps_parse bytes Hb Hl) as Hk.
  unfold parse in Hp. unfold keeps_at, wp in Hk. destruct (parse_reader bytes (reader_new bytes)) as [o r'].
  simpl in Hp. subst o. by destruct Hk.
Qed.

(** ** Properties *)

(** C6. The parser's loops end.  A loop of the model that used up its fuel, the number
    of bytes of its reader, would return the error [hung], which no code of the
    source returns.  On every byte string the parser returns a module, an error of
    the source or panics, and never [hung]; and on every reader the section loop,
    the instruction loop, the constant-expression loop and the name-subsection loop
    do not return it either, and with more fuel they return the same. *)
Theorem parser_loops_terminate r k :
  reader_ok r →
  let n := length (rd_data r) in
  (∀ e, parse (rd_data r) = Err e → genuine e) ∧
  (∀ acc, ends (reader_loop n (parse_step (rd_data r)) acc r) ∧
     reader_loop (n + k) (parse_step (rd_data r)) acc r = reader_loop n (parse_step (rd_data r)) acc r) ∧
  (∀ l, ends (reader_loop n decode_step l r) ∧ reader_loop (n + k) decode_step l r = reader_loop n decode_step l r) ∧
  (∀ l, ends (reader_loop n parse_init_step l r) ∧
     reader_loop (n + k) parse_init_step l r = reader_loop n parse_init_step l r) ∧
  ends (reader_loop n name_step tt r) ∧ reader_loop (n + k) name_step tt r = reader_loop n name_step tt r.
Proof.
  intros Hr. pose proof Hr as (_ & Hl & Hb). split.
  { intros e He. by apply (parse_genuine (rd_data r)). }
  split_and!; intros; (try split); try (apply loop_fuel_data; [|done]); try apply loop_ends;
    auto using progress_parse, progress_decode, progress_init, progress_name,
      parse_step_ends, decode_step_ends, parse_init_step_ends, name_step_ends.
Qed.

(** C5. A module that [WasmParser::parse] returns is well formed: every index,
    limit and constant is in the range of its Rust type, constant expressions
    hold constant instructions only, passive segments have no offset, and all
    decoded instructions have immediates in range. *)
Theorem parse_module_ok bytes m :
  bytes_ok bytes → len bytes < 2 ^ 63 → parse bytes = Ok m → module_ok m.
Proof. apply parse_ok_module. Qed.

(** ** Witnesses *)

Lemma parser_loops_terminate_witness :
  ends (reader_loop 2 decode_step [] (reader_new [0x01; 0x0B])) ∧
  reader_loop (2 + 5) decode_step [] (reader_new [0x01; 0x0B]) =
    reader_loop 2 decode_step [] (reader_new [0x01; 0x0B]).
Proof.
  apply (parser_loops_terminate (reader_new [0x01; 0x0B]) 5).
  apply reader_new_ok; [bytes_tac|done].
Defined.

(** The header and a start section. *)
Definition start_wasm : list Z := [0; 0x61; 0x73; 0x6D; 1; 0; 0; 0; 8; 1; 7].

Lemma parse_module_ok_witness : module_ok (set_start (Some 7) empty_module).
Proof. apply (parse_module_ok start_wasm); [bytes_tac|done|by vm_compute]. Defined.
