(* ===== verification/Encode.v ===== *)
(** The binary encoding of modules, and the round trip through the parser.

    The encoder is the WebAssembly binary format written from its
    specification; the repository has no encoder.  [parse] of an encoded
    module returns the module. *)

From S2P Require Import Prelude Types Reader Parser.

(** ** The encoder *)

Definition enc_vec {A} (f : A → list Z) (l : list A) : list Z :=
  enc_u32 (len l) ++ concat (map f l).

Fixpoint bytes_of_string (s : string) : list Z :=
  match s with
  | EmptyString => []
  | String c s => Z.of_N (Ascii.N_of_ascii c) :: bytes_of_string s
  end.
Definition enc_bytes (bs : list Z) : list Z := enc_u32 (len bs) ++ bs.
Definition enc_name (s : string) : list Z := enc_bytes (bytes_of_string s).

Definition enc_valtype (vt : ValueType) : Z :=
  match vt with
  | TI32 => 0x7F
  | TI64 => 0x7E
  | TF32 => 0x7D
  | TF64 => 0x7C
  | TV128 => 0x7B
  | TFuncRef => 0x70
  | TExternRef => 0x6F
  end.

Definition enc_max (max : option Z) : list Z :=
  match max with Some m => enc_u32 m | None => [] end.
Definition flag_max (max : option Z) : Z := match max with Some _ => 1 | None => 0 end.
Definition enc_limits (min : Z) (max : option Z) : list Z :=
  flag_max max :: enc_u32 min ++ enc_max max.
Definition enc_tabletype (t : TableType) : list Z :=
  enc_valtype (tt_element_type t) :: enc_limits (tt_min t) (tt_max t).
Definition enc_memtype (t : MemoryType) : list Z :=
  (flag_max (mt_max t) + if mt_shared t then 2 else 0) :: enc_u32 (mt_min t) ++ enc_max (mt_max t).
Definition enc_globaltype (t : GlobalType) : list Z :=
  [enc_valtype (gt_value_type t); if gt_mutable t then 1 else 0].

Definition enc_blocktype (bt : BlockType) : list Z :=
  match bt with
  | BT_Empty => [0x40]
  | BT_Value vt => [enc_valtype vt]
  | BT_TypeIndex idx => enc_i32 idx
  end.

Definition enc_instr (i : Instruction) : list Z :=
  match i with
  | Unreachable => [0x00]
  | Nop => [0x01]
  | Else => [0x05]
  | End => [0x0B]
  | Return => [0x0F]
  | RefIsNull => [0xD1]
  | Drop => [0x1A]
  | Select => [0x1B]
  | Block bt => 0x02 :: enc_blocktype bt
  | Loop bt => 0x03 :: enc_blocktype bt
  | If bt => 0x04 :: enc_blocktype bt
  | BrTable ts d => 0x0E :: enc_vec enc_u32 ts ++ enc_u32 d
  | Br a => 0x0C :: enc_u32 a
  | BrIf a => 0x0D :: enc_u32 a
  | Call a => 0x10 :: enc_u32 a
  | RefFunc a => 0xD2 :: enc_u32 a
  | LocalGet a => 0x20 :: enc_u32 a
  | LocalSet a => 0x21 :: enc_u32 a
  | LocalTee a => 0x22 :: enc_u32 a
  | GlobalGet a => 0x23 :: enc_u32 a
  | GlobalSet a => 0x24 :: enc_u32 a
  | TableGet a => 0x25 :: enc_u32 a
  | TableSet a => 0x26 :: enc_u32 a
  | CallIndirect a b => 0x11 :: enc_u32 a ++ enc_u32 b
  | I32Load a b => 0x28 :: enc_u32 a ++ enc_u32 b
  | I64Load a b => 0x29 :: enc_u32 a ++ enc_u32 b
  | F32Load a b => 0x2A :: enc_u32 a ++ enc_u32 b
  | F64Load a b => 0x2B :: enc_u32 a ++ enc_u32 b
  | I32Load8S a b => 0x2C :: enc_u32 a ++ enc_u32 b
  | I32Load8U a b => 0x2D :: enc_u32 a ++ enc_u32 b
  | I32Load16S a b => 0x2E :: enc_u32 a ++ enc_u32 b
  | I32Load16U a b => 0x2F :: enc_u32 a ++ enc_u32 b
  | I64Load8S a b => 0x30 :: enc_u32 a ++ enc_u32 b
  | I64Load8U a b => 0x31 :: enc_u32 a ++ enc_u32 b
  | I64Load16S a b => 0x32 :: enc_u32 a ++ enc_u32 b
  | I64Load16U a b => 0x33 :: enc_u32 a ++ enc_u32 b
  | I64Load32S a b => 0x34 :: enc_u32 a ++ enc_u32 b
  | I64Load32U a b => 0x35 :: enc_u32 a ++ enc_u32 b
  | I32Store a b => 0x36 :: enc_u32 a ++ enc_u32 b
  | I64Store a b => 0x37 :: enc_u32 a ++ enc_u32 b
  | F32Store a b => 0x38 :: enc_u32 a ++ enc_u32 b
  | F64Store a b => 0x39 :: enc_u32 a ++ enc_u32 b
  | I32Store8 a b => 0x3A :: enc_u32 a ++ enc_u32 b
  | I32Store16 a b => 0x3B :: enc_u32 a ++ enc_u32 b
  | I64Store8 a b => 0x3C :: enc_u32 a ++ enc_u32 b
  | I64Store16 a b => 0x3D :: enc_u32 a ++ enc_u32 b
  | I64Store32 a b => 0x3E :: enc_u32 a ++ enc_u32 b
  | RefNull => [0xD0; 0x70]
  | MemorySize => [0x3F; 0]
  | MemoryGrow => [0x40; 0]
  | I32Const v => 0x41 :: enc_i32 v
  | I64Const v => 0x42 :: enc_i64 v
  | F32Const v => 0x43 :: to_le_bytes 4 v
  | F64Const v => 0x44 :: to_le_bytes 8 v
  | I32Eqz => [0x45]
  | I32Eq => [0x46]
  | I32Ne => [0x47]
  | I32LtS => [0x48]
  | I32LtU => [0x49]
  | I32GtS => [0x4A]
  | I32GtU => [0x4B]
  | I32LeS => [0x4C]
  | I32LeU => [0x4D]
  | I32GeS => [0x4E]
  | I32GeU => [0x4F]
  | I64Eqz => [0x50]
  | I64Eq => [0x51]
  | I64Ne => [0x52]
  | I64LtS => [0x53]
  | I64LtU => [0x54]
  | I64GtS => [0x55]
  | I64GtU => [0x56]
  | I64LeS => [0x57]
  | I64LeU => [0x58]
  | I64GeS => [0x59]
  | I64GeU => [0x5A]
  | F32Eq => [0x5B]
  | F32Ne => [0x5C]
  | F32Lt => [0x5D]
  | F32Gt => [0x5E]
  | F32Le => [0x5F]
  | F32Ge => [0x60]
  | F64Eq => [0x61]
  | F64Ne => [0x62]
  | F64Lt => [0x63]
  | F64Gt => [0x64]
  | F64Le => [0x65]
  | F64Ge => [0x66]
  | I32Clz => [0x67]
  | I32Ctz => [0x68]
  | I32Popcnt => [0x69]
  | I32Add => [0x6A]
  | I32Sub => [0x6B]
  | I32Mul => [0x6C]
  | I32DivS => [0x6D]
  | I32DivU => [0x6E]
  | I32RemS => [0x6F]
  | I32RemU => [0x70]
  | I32And => [0x71]
  | I32Or => [0x72]
  | I32Xor => [0x73]
  | I32Shl => [0x74]
  | I32ShrS => [0x75]
  | I32ShrU => [0x76]
  | I32Rotl => [0x77]
  | I32Rotr => [0x78]
  | I64Clz => [0x79]
  | I64Ctz => [0x7A]
  | I64Popcnt => [0x7B]
  | I64Add => [0x7C]
  | I64Sub => [0x7D]
  | I64Mul => [0x7E]
  | I64DivS => [0x7F]
  | I64DivU => [0x80]
  | I64RemS => [0x81]
  | I64RemU => [0x82]
  | I64And => [0x83]
  | I64Or => [0x84]
  | I64Xor => [0x85]
  | I64Shl => [0x86]
  | I64ShrS => [0x87]
  | I64ShrU => [0x88]
  | I64Rotl => [0x89]
  | I64Rotr => [0x8A]
  | F32Abs => [0x8B]
  | F32Neg => [0x8C]
  | F32Ceil => [0x8D]
  | F32Floor => [0x8E]
  | F32Trunc => [0x8F]
  | F32Nearest => [0x90]
  | F32Sqrt => [0x91]
  | F32Add => [0x92]
  | F32Sub => [0x93]
  | F32Mul => [0x94]
  | F32Div => [0x95]
  | F32Min => [0x96]
  | F32Max => [0x97]
  | F32Copysign => [0x98]
  | F64Abs => [0x99]
  | F64Neg => [0x9A]
  | F64Ceil => [0x9B]
  | F64Floor => [0x9C]
  | F64Trunc => [0x9D]
  | F64Nearest => [0x9E]
  | F64Sqrt => [0x9F]
  | F64Add => [0xA0]
  | F64Sub => [0xA1]
  | F64Mul => [0xA2]
  | F64Div => [0xA3]
  | F64Min => [0xA4]
  | F64Max => [0xA5]
  | F64Copysign => [0xA6]
  | I32WrapI64 => [0xA7]
  | I32TruncF32S => [0xA8]
  | I32TruncF32U => [0xA9]
  | I32TruncF64S => [0xAA]
  | I32TruncF64U => [0xAB]
  | I64ExtendI32S => [0xAC]
  | I64ExtendI32U => [0xAD]
  | I64TruncF32S => [0xAE]
  | I64TruncF32U => [0xAF]
  | I64TruncF64S => [0xB0]
  | I64TruncF64U => [0xB1]
  | F32ConvertI32S => [0xB2]
  | F32ConvertI32U => [0xB3]
  | F32ConvertI64S => [0xB4]
  | F32ConvertI64U => [0xB5]
  | F32DemoteF64 => [0xB6]
  | F64ConvertI32S => [0xB7]
  | F64ConvertI32U => [0xB8]
  | F64ConvertI64S => [0xB9]
  | F64ConvertI64U => [0xBA]
  | F64PromoteF32 => [0xBB]
  | I32ReinterpretF32 => [0xBC]
  | I64ReinterpretF64 => [0xBD]
  | F32ReinterpretI32 => [0xBE]
  | F64ReinterpretI64 => [0xBF]
  | I32Extend8S => [0xC0]
  | I32Extend16S => [0xC1]
  | I64Extend8S => [0xC2]
  | I64Extend16S => [0xC3]
  | I64Extend32S => [0xC4]
  | I32TruncSatF32S => [0xFC; 0]
  | I32TruncSatF32U => [0xFC; 1]
  | I32TruncSatF64S => [0xFC; 2]
  | I32TruncSatF64U => [0xFC; 3]
  | I64TruncSatF32S => [0xFC; 4]
  | I64TruncSatF32U => [0xFC; 5]
  | I64TruncSatF64S => [0xFC; 6]
  | I64TruncSatF64U => [0xFC; 7]
  | MemoryInit a => 0xFC :: 8 :: enc_u32 a ++ [0]
  | MemoryCopy => [0xFC; 10; 0; 0]
  | MemoryFill => [0xFC; 11; 0]
  | DataDrop a => 0xFC :: 9 :: enc_u32 a
  | ElemDrop a => 0xFC :: 13 :: enc_u32 a
  | TableGrow a => 0xFC :: 15 :: enc_u32 a
  | TableSize a => 0xFC :: 16 :: enc_u32 a
  | TableFill a => 0xFC :: 17 :: enc_u32 a
  | TableInit a b => 0xFC :: 12 :: enc_u32 a ++ enc_u32 b
  | TableCopy a b => 0xFC :: 14 :: enc_u32 a ++ enc_u32 b
  end.

Definition enc_expr (l : list Instruction) : list Z := concat (map enc_instr l).

(** ** Sections and modules *)

Definition enc_const (l : list Instruction) : list Z := enc_expr l ++ [0x0B].
Definition enc_functype (ft : FunctionType) : list Z :=
  0x60 :: enc_vec (λ t, [enc_valtype t]) (params ft) ++ enc_vec (λ t, [enc_valtype t]) (results ft).
Definition enc_import_kind (k : ImportKind) : list Z :=
  match k with
  | ImportFunction idx => 0x00 :: enc_u32 idx
  | ImportTable t => 0x01 :: enc_tabletype t
  | ImportMemory t => 0x02 :: enc_memtype t
  | ImportGlobal t => 0x03 :: enc_globaltype t
  end.
Definition enc_import (i : Import) : list Z :=
  enc_name (import_module i) ++ enc_name (import_name i) ++ enc_import_kind (import_kind i).
Definition enc_global (g : Global) : list Z := enc_globaltype (global_type g) ++ enc_const (init_expr g).
Definition enc_export_kind (k : ExportKind) : Z :=
  match k with
  | ExportFunction => 0
  | ExportTable => 1
  | ExportMemory => 2
  | ExportGlobal => 3
  end.
Definition enc_export (e : Export) : list Z :=
  enc_name (export_name e) ++ enc_export_kind (export_kind e) :: enc_u32 (export_index e).
Definition enc_element (e : Element) : list Z :=
  if elem_passive e then 1 :: 0 :: enc_vec enc_u32 (func_indices e)
  else if elem_table_idx e =? 0 then
    0 :: enc_const (elem_offset_expr e) ++ enc_vec enc_u32 (func_indices e)
  else
    2 :: enc_u32 (elem_table_idx e) ++ enc_const (elem_offset_expr e) ++
    0 :: enc_vec enc_u32 (func_indices e).
Definition enc_local (l : Z * ValueType) : list Z := enc_u32 l.1 ++ [enc_valtype l.2].
Definition enc_body_content (b : FunctionBody) : list Z :=
  enc_vec enc_local (body_locals b) ++ enc_expr (instructions b).
Definition enc_body (b : FunctionBody) : list Z := enc_bytes (enc_body_content b).
Definition enc_segment (d : DataSegment) : list Z :=
  if data_passive d then 1 :: enc_bytes (data_bytes d)
  else if data_memory_idx d =? 0 then 0 :: enc_const (data_offset_expr d) ++ enc_bytes (data_bytes d)
  else 2 :: enc_u32 (data_memory_idx d) ++ enc_const (data_offset_expr d) ++ enc_bytes (data_bytes d).

(** A section: its id, its size and its content. *)
Definition enc_section (id : Z) (content : list Z) : list Z := id :: enc_bytes content.

(** The "name" custom section with the module-name subsection. *)
Definition name_content (n : string) : list Z :=
  enc_name "name" ++ 0 :: enc_bytes (enc_name n).

(** The sections of a module in the order the specification prescribes, each
    with the field of the module that it determines. *)
Definition section_list (m : Module_) : list (list Z * (Module_ → Module_)) :=
  [ (enc_section 1 (enc_vec enc_functype (types m)), set_types (types m));
    (enc_section 2 (enc_vec enc_import (imports m)), set_imports (imports m));
    (enc_section 3 (enc_vec enc_u32 (functions m)), set_functions (functions m));
    (enc_section 4 (enc_vec enc_tabletype (tables m)), set_tables (tables m));
    (enc_section 5 (enc_vec enc_memtype (memories m)), set_memories (memories m));
    (enc_section 6 (enc_vec enc_global (globals m)), set_globals (globals m));
    (enc_section 7 (enc_vec enc_export (exports m)), set_exports (exports m)) ]
  ++ match start m with
     | Some i => [(enc_section 8 (enc_u32 i), set_start (Some i))]
     | None => []
     end
  ++ [(enc_section 9 (enc_vec enc_element (elements m)), set_elements (elements m))]
  ++ match data_count m with
     | Some n => [(enc_section 12 (enc_u32 n), set_data_count (Some n))]
     | None => []
     end
  ++ [ (enc_section 10 (enc_vec enc_body (code m)), set_code (code m));
       (enc_section 11 (enc_vec enc_segment (data m)), set_segments (data m)) ]
  ++ match module_name m with
     | Some n => [(enc_section 0 (name_content n), set_name (Some n))]
     | None => []
     end.

Definition enc_module (m : Module_) : list Z :=
  WASM_MAGIC ++ to_le_bytes 4 WASM_VERSION ++ concat (map fst (section_list m)).

(** What the binary format needs beyond [module_ok]: names are UTF-8, bodies
    carry their encoding, and sizes fit a [u32]. *)
Definition name_ok (s : string) : Prop :=
  utf8_valid (bytes_of_string s) = true ∧ small (bytes_of_string s).
Record encodable (m : Module_) : Prop := {
  enc_wf : module_ok m;
  enc_import_names : Forall (λ i, name_ok (import_module i) ∧ name_ok (import_name i)) (imports m);
  enc_export_names : Forall (λ e, name_ok (export_name e)) (exports m);
  enc_bodies : Forall (λ b, raw_bytes b = enc_expr (instructions b) ∧ small (enc_body_content b)) (code m);
  enc_module_name : match module_name m with Some n => name_ok n | None => True end;
  enc_size : small (enc_module m)
}.

(** ** The encoder writes bytes *)

Lemma bytes_nil : bytes_ok [].
Proof. constructor. Qed.
Lemma bytes_cons b bs : in_u 8 b → bytes_ok bs → bytes_ok (b :: bs).
Proof. by constructor. Qed.
Lemma bytes_app a b : bytes_ok a → bytes_ok b → bytes_ok (a ++ b).
Proof. intros. by apply Forall_app. Qed.

Lemma enc_unsigned_ok fuel n : 0 ≤ n → bytes_ok (enc_unsigned fuel n).
Proof.
  revert n. induction fuel as [|fuel IH]; intros n Hn; simpl; [apply bytes_nil|]. zcase.
  - apply bytes_cons; [unfold in_u; lia|apply bytes_nil].
  - pose proof (Z.mod_pos_bound n 128). apply bytes_cons; [unfold in_u; lia|].
    apply IH. by apply Z.div_pos.
Qed.

Lemma enc_signed_ok fuel n : bytes_ok (enc_signed fuel n).
Proof.
  revert n. induction fuel as [|fuel IH]; intros n; simpl; [apply bytes_nil|].
  pose proof (Z.mod_pos_bound n 128).
  destruct (_ && _); apply bytes_cons; [unfold in_u; lia|apply bytes_nil|unfold in_u; lia|apply IH].
Qed.

Lemma enc_u32_ok n : in_u 32 n → bytes_ok (enc_u32 n).
Proof. intros [? _]. by apply enc_unsigned_ok. Qed.
Lemma enc_i32_ok n : bytes_ok (enc_i32 n).
Proof. apply enc_signed_ok. Qed.
Lemma enc_i64_ok n : bytes_ok (enc_i64 n).
Proof. apply enc_signed_ok. Qed.
Lemma enc_len_ok {A} (l : list A) : bytes_ok (enc_u32 (len l)).
Proof. apply enc_unsigned_ok, len_nonneg. Qed.
Lemma enc_valtype_ok vt : in_u 8 (enc_valtype vt).
Proof. destruct vt; unfold in_u; simpl; lia. Qed.

Lemma bytes_concat {A} (f : A → list Z) l : Forall (λ x, bytes_ok (f x)) l → bytes_ok (concat (map f l)).
Proof. induction 1; simpl; [apply bytes_nil|by apply bytes_app]. Qed.

Lemma enc_vec_ok {A} (f : A → list Z) (l : list A) :
  Forall (λ x, bytes_ok (f x)) l → bytes_ok (enc_vec f l).
Proof. intros. apply bytes_app; [apply enc_len_ok|by apply bytes_concat]. Qed.

Lemma bytes_of_string_ok s : bytes_ok (bytes_of_string s).
Proof.
  induction s as [|c s IH]; simpl; [apply bytes_nil|]. apply bytes_cons; [|done].
  pose proof (Ascii.N_ascii_bounded c). unfold in_u. lia.
Qed.

Lemma enc_bytes_ok bs : bytes_ok bs → bytes_ok (enc_bytes bs).
Proof. intros. apply bytes_app; [apply enc_len_ok|done]. Qed.

Lemma enc_name_ok s : bytes_ok (enc_name s).
Proof. apply enc_bytes_ok, bytes_of_string_ok. Qed.

Lemma enc_max_ok o : limit_ok o → bytes_ok (enc_max o).
Proof. destruct o; simpl; [apply enc_u32_ok|intros; apply bytes_nil]. Qed.

Create HintDb enc.
#[export] Hint Resolve bytes_nil bytes_cons bytes_app enc_u32_ok enc_i32_ok enc_i64_ok enc_len_ok
  enc_valtype_ok enc_vec_ok enc_bytes_ok enc_name_ok enc_max_ok to_le_bytes_ok : enc.
#[export] Hint Extern 1 (in_u 8 _) => unfold in_u; lia : enc.

Lemma enc_u32s_ok l : Forall (in_u 32) l → bytes_ok (enc_vec enc_u32 l).
Proof. intros. apply enc_vec_ok. eapply Forall_impl; [done|apply enc_u32_ok]. Qed.

Lemma enc_blocktype_ok bt : bytes_ok (enc_blocktype bt).
Proof. destruct bt; simpl; auto with enc. Qed.
#[export] Hint Resolve enc_u32s_ok enc_blocktype_ok : enc.

Lemma enc_instr_ok i : instr_ok i → bytes_ok (enc_instr i).
Proof. destruct i; cbn [enc_instr instr_ok]; intros; destruct_and?; auto 6 with enc. Qed.

Lemma enc_expr_ok l : Forall instr_ok l → bytes_ok (enc_expr l).
Proof. intros. apply bytes_concat. eapply Forall_impl; [done|apply enc_instr_ok]. Qed.

(** ** Reading back: types *)

Lemma reads_cons {A} (k : Z → Reader A) b bs a :
  reads (k b) bs a → reads (read_byte ≫= k) (b :: bs) a.
Proof. apply (reads_bind _ _ [b]). apply reads_byte. Qed.

Lemma reads_vec {A} (m : Reader A) (f : A → list Z) l :
  small l → Forall (λ x, reads m (f x) x) l → reads (counted m) (enc_vec f l) l.
Proof.
  intros Hs Hl. eapply reads_bind.
  - apply reads_u32. pose proof (len_nonneg l). unfold in_u, small in *. lia.
  - replace (Z.to_nat (len l)) with (length l) by (unfold len; lia). clear Hs.
    induction Hl as [|x l Hx _ IH]; simpl; [apply reads_ret|].
    eapply reads_bind; [done|]. eapply reads_bind_nil; [done|]. apply reads_ret.
Qed.

Lemma reads_u32s l : Forall (in_u 32) l → small l → reads (counted read_leb128_u32) (enc_vec enc_u32 l) l.
Proof. intros Hl Hs. apply reads_vec; [done|]. eapply Forall_impl; [done|apply reads_u32]. Qed.

Lemma string_of_bytes_of_string s : string_of_bytes (bytes_of_string s) = s.
Proof.
  induction s as [|c s IH]; [done|]. unfold string_of_bytes in *. simpl. rewrite IH.
  unfold byte_char. by rewrite N2Z.id, Ascii.ascii_N_embedding.
Qed.

Lemma reads_name s : name_ok s → reads read_name (enc_name s) s.
Proof.
  intros [Hu Hs]. eapply reads_bind.
  - apply reads_u32. pose proof (len_nonneg (bytes_of_string s)). unfold in_u, small in *. lia.
  - eapply reads_bind_nil; [apply reads_bytes|]. rewrite Hu, string_of_bytes_of_string. apply reads_ret.
Qed.

Lemma value_type_of_enc vt : value_type_of_byte (enc_valtype vt) = Some vt.
Proof. by destruct vt. Qed.

Lemma reads_value_type vt : reads parse_value_type [enc_valtype vt] vt.
Proof. apply reads_cons. rewrite value_type_of_enc. apply reads_ret. Qed.

Lemma reads_value_types l :
  small l → reads (counted parse_value_type) (enc_vec (λ t, [enc_valtype t]) l) l.
Proof. intros. apply reads_vec; [done|]. apply Forall_true. apply reads_value_type. Qed.

Lemma reads_max flags max :
  limit_ok max → negb (Z.land flags 1 =? 0) = bool_decide (is_Some max) →
  reads (read_max flags) (enc_max max) max.
Proof.
  intros Hm Hf. unfold read_max. rewrite Hf. destruct max as [m|]; simpl.
  - eapply reads_bind_nil; [by apply reads_u32|apply reads_ret].
  - apply reads_ret.
Qed.

Lemma reads_limits min max :
  in_u 32 min → limit_ok max → reads parse_limits (enc_limits min max) (min, max).
Proof.
  intros. apply reads_cons. eapply reads_bind; [by apply reads_u32|].
  eapply reads_bind_nil; [apply reads_max; [done|by destruct max]|]. apply reads_ret.
Qed.

Lemma reads_table_type t : tabletype_ok t → reads parse_table_type (enc_tabletype t) t.
Proof.
  destruct t as [vt min max]. intros [? ?]. apply (reads_bind _ _ [_]) with vt; [apply reads_value_type|].
  eapply reads_bind_nil; [by apply reads_limits|]. apply reads_ret.
Qed.

Lemma reads_memory_type t : memtype_ok t → reads parse_memory_type (enc_memtype t) t.
Proof.
  destruct t as [min max sh]. intros [Hmin Hmax]. apply reads_cons.
  eapply reads_bind; [by apply reads_u32|].
  eapply reads_bind_nil; [apply reads_max; [done|by destruct max, sh]|].
  replace (negb (Z.land _ 2 =? 0)) with sh by (by destruct max, sh). apply reads_ret.
Qed.

Lemma reads_global_type t : reads parse_global_type (enc_globaltype t) t.
Proof.
  destruct t as [vt mu]. apply (reads_bind _ _ [_]) with vt; [apply reads_value_type|].
  apply reads_cons. replace (_ =? 1) with mu by (by destruct mu). apply reads_ret.
Qed.

(** ** Reading back: instructions *)

Lemma reads_peek {A} (k : Z → Reader A) b bs a :
  reads (k b) (b :: bs) a → reads (peek_byte ≫= k) (b :: bs) a.
Proof.
  intros Hk r tl Hr Hb. unfold mbind, M_bind. rewrite (peek_byte_cons r b (bs ++ tl)) by done.
  by apply (Hk r tl).
Qed.

(** The first byte of a type index is no block type of one byte. *)
Lemma enc_index_first idx :
  in_u 31 idx → ∃ b bs, enc_i32 idx = b :: bs ∧ b ≠ 0x40 ∧ value_type_of_byte b = None.
Proof.
  intros Hi. unfold in_u in Hi. unfold enc_i32. cbn [enc_signed].
  destruct ((-64 <=? idx) && (idx <? 64)) eqn:Ec.
  - apply andb_true_iff in Ec as [? ?]. ztest. rewrite Z.mod_small by lia. exists idx, [].
    split; [done|]. split; [lia|].
    assert (Hs : idx ∈ seqZ 0 64) by (apply elem_of_seqZ; lia). case_elem Hs.
  - eexists _, _. split; [done|].
    assert (Hs : idx mod 128 + 128 ∈ seqZ 128 128).
    { apply elem_of_seqZ. pose proof (Z.mod_pos_bound idx 128). lia. }
    revert Hs. generalize (idx mod 128 + 128). intros b Hs.
    split; [apply elem_of_seqZ in Hs; lia|]. case_elem Hs.
Qed.

Lemma reads_blocktype bt : blocktype_ok bt → reads parse_blocktype (enc_blocktype bt) bt.
Proof.
  destruct bt as [|vt|idx]; simpl; intros Hbt.
  - apply reads_peek. simpl. apply reads_cons. apply reads_ret.
  - apply reads_peek. rewrite (proj2 (Z.eqb_neq _ _)) by (by destruct vt).
    rewrite value_type_of_enc. rewrite bool_decide_true by done.
    eapply reads_bind_nil; [apply reads_value_type|]. apply reads_ret.
  - destruct (enc_index_first idx Hbt) as (b & bs & He & Hb & Hv).
    rewrite He. apply reads_peek. rewrite (proj2 (Z.eqb_neq _ _)) by done. rewrite Hv.
    rewrite bool_decide_false by (by intros [? ?]). rewrite <-He. unfold in_u in Hbt.
    eapply reads_bind_nil; [apply reads_i32; unfold in_s; lia|].
    rewrite (proj2 (Z.ltb_ge _ _)) by lia. unfold as_u32.
    rewrite wrap_id by (unfold in_u; lia). apply reads_ret.
Qed.

Lemma reads_f32 v : in_u 32 v → reads read_f32 (to_le_bytes 4 v) v.
Proof.
  intros Hv. eapply reads_bind_nil; [apply (reads_bytes (to_le_bytes 4 v))|].
  rewrite from_to_le_bytes, Z.mod_small by done. apply reads_ret.
Qed.
Lemma reads_f64 v : in_u 64 v → reads read_f64 (to_le_bytes 8 v) v.
Proof.
  intros Hv. eapply reads_bind_nil; [apply (reads_bytes (to_le_bytes 8 v))|].
  rewrite from_to_le_bytes, Z.mod_small by done. apply reads_ret.
Qed.

(** An instruction's immediates, by the shape of its encoding. *)
Lemma reads_imm1 (c : Z → Instruction) a :
  in_u 32 a → reads (idx ← read_leb128_u32; mret (c idx)) (enc_u32 a) (c a).
Proof. intros. eapply reads_bind_nil; [by apply reads_u32|apply reads_ret]. Qed.

Lemma reads_imm2 (c : Z → Z → Instruction) a b :
  in_u 32 a → in_u 32 b →
  reads (x ← read_leb128_u32; y ← read_leb128_u32; mret (c x y)) (enc_u32 a ++ enc_u32 b) (c a b).
Proof. intros. eapply reads_bind; [by apply reads_u32|]. by apply (reads_imm1 (c a)). Qed.

Lemma reads_bt (c : BlockType → Instruction) bt :
  blocktype_ok bt → reads (x ← parse_blocktype; mret (c x)) (enc_blocktype bt) (c bt).
Proof. intros. eapply reads_bind_nil; [by apply reads_blocktype|apply reads_ret]. Qed.

Lemma reads_prefixed n bs (m : Reader Instruction) i :
  in_u 32 n → decode_prefixed n = Some m → reads m bs i →
  reads decode_instruction (0xFC :: enc_u32 n ++ bs) i.
Proof.
  intros Hn Hm Hr. apply reads_cons. simpl. eapply reads_bind; [by apply reads_u32|].
  by rewrite Hm.
Qed.

Lemma reads_instr i : instr_ok i → reads decode_instruction (enc_instr i) i.
Proof.
  destruct i; cbn [enc_instr instr_ok]; intros; destruct_and?;
    lazymatch goal with
    | |- reads _ [0xFC; ?n] _ => eapply (reads_prefixed n []); [done..|]
    | |- reads _ (0xFC :: ?n :: _) _ => eapply (reads_prefixed n); [done..|]
    | |- _ => apply reads_cons; cbn [decode_opcode decode_control decode_memory decode_const
                    simple_opcode simple_conversion imm1 imm2 memarg blocktype skip_byte]
    end;
    try solve [apply reads_ret | by apply (reads_imm1 _) | by apply (reads_imm2 _)
              | by apply (reads_bt _) | apply reads_cons, reads_ret].
  - eapply reads_bind; [by apply reads_u32s|]. by apply (reads_imm1 (BrTable targets)).
  - eapply reads_bind; [by apply reads_u32|]. apply reads_cons, reads_ret.
  - apply reads_cons, reads_cons, reads_ret.
  - eapply reads_bind_nil; [by apply reads_i32|apply reads_ret].
  - eapply reads_bind_nil; [by apply reads_i64|apply reads_ret].
  - eapply reads_bind_nil; [by apply reads_f32|apply reads_ret].
  - eapply reads_bind_nil; [by apply reads_f64|apply reads_ret].
Qed.

Lemma enc_instr_length i : (1 ≤ length (enc_instr i))%nat.
Proof. destruct i; cbn [enc_instr length]; lia. Qed.

Lemma enc_expr_length l : (length l ≤ length (enc_expr l))%nat.
Proof.
  unfold enc_expr. induction l as [|i l IH]; simpl; [lia|]. rewrite length_app.
  pose proof (enc_instr_length i). lia.
Qed.

Lemma decode_step_enc i acc r tl :
  instr_ok i → reader_ok r → rest r = enc_instr i ++ tl →
  decode_step acc r = (Ok (inl (acc ++ [i])), advance r (len (enc_instr i))).
Proof.
  intros Hi Hr Hb. unfold decode_step, get, mbind, M_bind.
  rewrite is_empty_rest, Hb by done. pose proof (enc_instr_length i) as Hn.
  destruct (enc_instr i ++ tl) eqn:He.
  - apply app_eq_nil in He as [He _]. rewrite He in Hn. simpl in Hn. lia.
  - rewrite <-He in Hb. by rewrite (reads_instr i Hi r tl Hr Hb).
Qed.

Lemma decode_loop_exact l : ∀ acc fuel r,
  Forall instr_ok l → reader_ok r → rest r = enc_expr l → (length l ≤ fuel)%nat →
  (reader_loop fuel decode_step acc r).1 = Ok (acc ++ l).
Proof.
  induction l as [|i l IH]; intros acc fuel r Hl Hr Hb Hf.
  - destruct fuel; simpl; unfold decode_step, get, mbind, M_bind;
      rewrite is_empty_rest, Hb by done; simpl; by rewrite app_nil_r.
  - destruct fuel as [|fuel]; simpl in Hf; [lia|]. inversion_clear Hl as [|? ? Hi Hl'].
    simpl. unfold mbind, M_bind. rewrite (decode_step_enc i acc r _ Hi Hr Hb).
    destruct (rest_advance r _ _ Hr Hb) as [Hr' Hb'].
    rewrite (IH _ fuel _ Hl' Hr' Hb') by lia. by rewrite <-app_assoc.
Qed.

Lemma decode_enc l r :
  Forall instr_ok l → len (enc_expr l) < 2 ^ 63 → decode_instructions (enc_expr l) r = (Ok l, r).
Proof.
  intros Hl Hs. unfold decode_instructions, run_on, lift.
  rewrite (decode_loop_exact l [] _ (reader_new (enc_expr l))); [done|done|..].
  - apply reader_new_ok; [by apply enc_expr_ok|done].
  - done.
  - apply enc_expr_length.
Qed.

(** ** Reading back: constant expressions *)

Lemma reads_init_instr i bs :
  const_instr i → instr_ok i →
  reads (parse_init_step bs) (enc_instr i) (inl (bs ++ [i])).
Proof.
  intros Hc Hi. unfold parse_init_step.
  destruct i; simpl in Hc; try done; cbn [enc_instr instr_ok] in *; apply reads_cons;
    (eapply (reads_bind_nil _ _ _ (Some _)); [|apply reads_ret]); cbn [parse_init_instr];
    try (eapply reads_bind_nil; [solve [eauto using reads_u32, reads_i32, reads_i64, reads_f32, reads_f64]|apply reads_ret]).
  apply reads_cons, reads_ret.
Qed.

Lemma reads_init_loop l : ∀ acc fuel,
  const_expr l → (length l ≤ fuel)%nat →
  reads (reader_loop fuel parse_init_step acc) (enc_const l) (acc ++ l).
Proof.
  induction l as [|i l IH]; intros acc fuel Hl Hf.
  - rewrite app_nil_r. destruct fuel; simpl;
      (eapply (reads_bind_nil _ _ _ (inr acc)); [|apply reads_ret]);
      apply reads_cons; (eapply (reads_bind_nil _ _ [] None); [apply reads_ret|apply reads_ret]).
  - destruct fuel as [|fuel]; simpl in Hf; [lia|]. inversion_clear Hl as [|? ? [Hc Hi] Hl'].
    unfold enc_const, enc_expr. simpl. rewrite <-app_assoc.
    eapply reads_bind; [by apply reads_init_instr|]. simpl.
    replace (acc ++ i :: l) with ((acc ++ [i]) ++ l) by (by rewrite <-app_assoc).
    apply IH; [done|lia].
Qed.

Lemma reads_init_expr l : const_expr l → reads parse_init_expr (enc_const l) l.
Proof.
  intros Hl r tl Hr Hb. unfold parse_init_expr, get. unfold mbind, M_bind. simpl.
  apply (reads_init_loop l [] (length (rd_data r))) with tl; try done.
  pose proof (len_rest r Hr) as Hlen. rewrite Hb in Hlen. unfold len, enc_const in Hlen.
  rewrite !length_app in Hlen. pose proof (enc_expr_length l). destruct Hr as ((? & ?) & _). lia.
Qed.

(** ** Reading back: the items of the sections *)

Lemma reads_func_type ft : functype_ok ft → reads parse_func_type (enc_functype ft) ft.
Proof.
  destruct ft as [ps rs]. intros [? ?]. apply reads_cons. simpl.
  eapply reads_bind; [by apply reads_value_types|].
  eapply reads_bind_nil; [by apply reads_value_types|]. apply reads_ret.
Qed.

Lemma reads_import i :
  import_ok i → name_ok (import_module i) → name_ok (import_name i) →
  reads parse_import (enc_import i) i.
Proof.
  destruct i as [mo na k]. intros Hk Hm Hn. eapply reads_bind; [by apply reads_name|].
  eapply reads_bind; [by apply reads_name|].
  eapply (reads_bind_nil _ _ _ k); [|apply reads_ret].
  destruct k; apply reads_cons; cbn [parse_import_kind];
    (eapply reads_bind_nil; [|apply reads_ret]).
  - by apply reads_u32.
  - by apply reads_table_type.
  - by apply reads_memory_type.
  - apply reads_global_type.
Qed.

Lemma reads_global g : const_expr (init_expr g) → reads parse_global (enc_global g) g.
Proof.
  destruct g as [t e]. intros. eapply reads_bind; [apply reads_global_type|].
  eapply reads_bind_nil; [by apply reads_init_expr|]. apply reads_ret.
Qed.

Lemma reads_export e :
  in_u 32 (export_index e) → name_ok (export_name e) → reads parse_export (enc_export e) e.
Proof.
  destruct e as [n k i]. intros. eapply reads_bind; [by apply reads_name|].
  apply (reads_bind _ _ [_]) with k; [destruct k; apply reads_cons, reads_ret|].
  eapply reads_bind_nil; [by apply reads_u32|]. apply reads_ret.
Qed.

Lemma reads_small n bs {A} (k : Z → Reader A) a :
  0 ≤ n < 128 → reads (k n) bs a → reads (read_leb128_u32 ≫= k) (n :: bs) a.
Proof.
  intros Hn. apply (reads_bind _ _ [n]). replace [n] with (enc_u32 n).
  - apply reads_u32. unfold in_u. lia.
  - unfold enc_u32. simpl. by rewrite (proj2 (Z.ltb_lt _ _)) by lia.
Qed.

Lemma reads_element e : element_ok e → reads parse_element (enc_element e) e.
Proof.
  destruct e as [t o fs pas]. intros (Ht & Ho & Hf & Hs & Hp). simpl in *. unfold enc_element. simpl.
  destruct pas; [destruct Hp as [-> ->]; [done|]|destruct (Z.eqb_spec t 0) as [-> |]];
    (apply reads_small; [lia|]); cbn [Z.eqb].
  - apply reads_cons. eapply reads_bind_nil; [by apply reads_u32s|]. apply reads_ret.
  - eapply reads_bind; [by apply reads_init_expr|].
    eapply reads_bind_nil; [by apply reads_u32s|]. apply reads_ret.
  - eapply reads_bind; [by apply reads_u32|]. eapply reads_bind; [by apply reads_init_expr|].
    apply reads_cons. eapply reads_bind_nil; [by apply reads_u32s|]. apply reads_ret.
Qed.

Lemma reads_data bs : small bs → reads read_data (enc_bytes bs) bs.
Proof.
  intros Hs. eapply reads_bind; [|apply reads_bytes].
  apply reads_u32. pose proof (len_nonneg bs). unfold in_u, small in *. lia.
Qed.

Lemma reads_segment d : segment_ok d → reads parse_segment (enc_segment d) d.
Proof.
  destruct d as [t o bs pas]. intros (Ht & Ho & Hb & Hs & Hp). simpl in *. unfold enc_segment. simpl.
  destruct pas; [destruct Hp as [-> ->]; [done|]|destruct (Z.eqb_spec t 0) as [-> |]];
    (apply reads_small; [lia|]).
  - eapply reads_bind_nil; [by apply reads_data|]. apply reads_ret.
  - eapply reads_bind; [by apply reads_init_expr|].
    eapply reads_bind_nil; [by apply reads_data|]. apply reads_ret.
  - eapply reads_bind; [by apply reads_u32|]. eapply reads_bind; [by apply reads_init_expr|].
    eapply reads_bind_nil; [by apply reads_data|]. apply reads_ret.
Qed.

Lemma reads_local l : in_u 32 l.1 → reads parse_local (enc_local l) l.
Proof.
  destruct l as [n vt]. intros. eapply reads_bind; [by apply reads_u32|].
  eapply reads_bind_nil; [apply reads_value_type|]. apply reads_ret.
Qed.

(** Positions that are subtracted: [bs] was read between the two. *)
Lemma reads_span {A B} (m : Reader A) (k : Z → A → Reader B) bs1 bs2 a b :
  reads m bs1 a → reads (k (len bs1) a) bs2 b →
  reads (p ← position; x ← m; q ← position; used ← sub_or_panic q p; k used x) (bs1 ++ bs2) b.
Proof.
  intros Hm Hk r tl Hr Hb. unfold position, gets, mbind, M_bind. rewrite <-app_assoc in Hb.
  rewrite (Hm r _ Hr Hb). destruct (rest_advance r _ _ Hr Hb) as [Hr' Hb'].
  unfold sub_or_panic. simpl. pose proof (len_nonneg bs1).
  rewrite (proj2 (Z.ltb_ge _ _)) by lia. unfold mret, M_ret.
  replace (rd_pos r + len bs1 - rd_pos r) with (len bs1) by lia.
  rewrite (Hk _ _ Hr' Hb'). by rewrite advance_advance, len_app.
Qed.

Lemma reads_body b :
  body_ok b → raw_bytes b = enc_expr (instructions b) → small (enc_body_content b) →
  reads parse_body (enc_body b) b.
Proof.
  destruct b as [ls ins raw]. intros (Hl & Hs & Hi & _) Hraw Hc. simpl in *. subst raw.
  unfold enc_body, enc_bytes, enc_body_content, small in *. simpl in *.
  rewrite len_app in *. pose proof (len_nonneg (enc_vec enc_local ls)).
  pose proof (len_nonneg (enc_expr ins)).
  eapply reads_bind; [apply reads_u32; unfold in_u; lia|].
  eapply (reads_span (counted parse_local)).
  { apply reads_vec; [done|]. eapply Forall_impl; [done|]. apply reads_local. }
  apply (reads_bind _ _ [] _ (len (enc_expr ins))).
  { unfold sub_or_panic. rewrite (proj2 (Z.ltb_ge _ _)) by lia.
    replace (_ - _) with (len (enc_expr ins)) by lia. apply reads_ret. }
  apply (reads_bind_nil _ _ _ (enc_expr ins)); [apply reads_bytes|]. apply (reads_bind _ _ [] _ ins).
  - intros r tl _ _. rewrite decode_enc by (done || lia). by rewrite advance_0.
  - apply reads_ret.
Qed.

(** ** Reading back: sections *)

Lemma rest_slice r bs tl :
  reader_ok r → rest r = bs ++ tl →
  slice (rd_data r) (rd_pos r) (rd_pos r + len bs) = bs ∧ rd_pos r + len bs ≤ len (rd_data r).
Proof.
  intros Hr Hb. pose proof (len_rest r Hr) as Hl. rewrite Hb, len_app in Hl.
  pose proof (len_nonneg tl). split; [|lia]. unfold slice. unfold rest in Hb. rewrite Hb.
  replace (Z.to_nat _) with (length bs) by (unfold len; lia). apply take_app_length.
Qed.

Lemma sub_reader_enc r bs tl :
  reader_ok r → rest r = bs ++ tl → sub_reader (rd_pos r) (len bs) r = (Ok (reader_new bs), r).
Proof.
  intros Hr Hb. destruct (rest_slice r bs tl Hr Hb) as [Hs Hle]. destruct Hr as ((? & ?) & ? & _).
  unfold sub_reader, add_or_panic, checked_add, get, mbind, M_bind.
  rewrite (proj2 (Z.ltb_lt _ _)) by lia. simpl. rewrite (proj2 (Z.ltb_ge _ _)) by lia.
  by rewrite Hs.
Qed.

Lemma reads_all {A} (m : Reader A) bs a :
  reads m bs a → reader_ok (reader_new bs) → (m (reader_new bs)).1 = Ok a.
Proof. intros Hm Hr. by rewrite (Hm _ [] Hr ltac:(by rewrite app_nil_r)). Qed.

(** [parse_section_body] in front of a section's content. *)
Definition reads_section (id : Z) (content : list Z) (f : Module_ → Module_) : Prop :=
  ∀ acc r tl, reader_ok r → rest r = content ++ tl →
    parse_section_body (rd_data r) (section_from_byte id) (rd_pos r) (len content) acc r =
      (Ok (f acc), advance r (len content)).

Lemma section_enc {A} (m : Reader A) bs a (upd : A → Module_ → Module_) acc r tl :
  reads m bs a → reader_ok r → rest r = bs ++ tl →
  section (rd_pos r) (len bs) m upd acc r = (Ok (upd a acc), advance r (len bs)).
Proof.
  intros Hm Hr Hb. unfold section, mbind, M_bind. rewrite (sub_reader_enc r bs tl Hr Hb).
  unfold run_on, lift. rewrite (reads_all m bs a Hm).
  - by rewrite (reads_skip bs r tl Hr Hb).
  - pose proof (rest_app_ok r bs tl Hr Hb). destruct (rest_slice r bs tl Hr Hb).
    destruct Hr as ((? & ?) & ? & _). apply reader_new_ok; [done|lia].
Qed.

(** A loop whose test finds data left. *)
Lemma reads_nonempty {A} (m m' : Reader A) b bs a :
  reads m (b :: bs) a → reads (r ← get; if is_empty r then m' else m) (b :: bs) a.
Proof.
  intros Hm r tl Hr Hb. unfold get, mbind, M_bind. rewrite is_empty_rest, Hb by done.
  by apply (Hm r tl).
Qed.

Lemma reads_loop_break {T A} fuel (step : T → Reader (T + A)) s bs a :
  reads (step s) bs (inr a) → reads (reader_loop fuel step s) bs a.
Proof. intros Hs. destruct fuel; simpl; (eapply reads_bind_nil; [done|]; apply reads_ret). Qed.

Lemma reads_name_section n :
  name_ok n → small (enc_name n) → reads parse_name_section (name_content n) (Some n).
Proof.
  intros Hn Hs. unfold parse_name_section, name_content.
  eapply reads_bind; [by apply reads_name|]. cbn [String.eqb Ascii.eqb Bool.eqb].
  intros r tl Hr Hb. unfold get. unfold mbind, M_bind. simpl.
  apply (reads_loop_break (length (rd_data r)) name_step tt) with tl; [|done..].
  apply reads_nonempty. apply reads_cons. eapply reads_bind.
  - apply reads_u32. pose proof (len_nonneg (enc_name n)). unfold in_u, small in *. lia.
  - simpl. eapply reads_bind_nil; [by apply reads_name|]. apply reads_ret.
Qed.

Lemma reads_custom n :
  name_ok n → small (enc_name n) → reads_section 0 (name_content n) (set_name (Some n)).
Proof.
  intros Hn Hs acc r tl Hr Hb. destruct (rest_slice r _ _ Hr Hb) as [Hsl Hle].
  pose proof (rest_app_ok r _ _ Hr Hb) as Hok. pose proof Hr as ((? & ?) & ? & _). simpl.
  unfold try_parse_custom_name, checked_add, lift, mbind, M_bind.
  rewrite (proj2 (Z.ltb_lt _ _)) by lia. rewrite (proj2 (Z.ltb_ge _ _)) by lia. rewrite Hsl.
  rewrite (reads_all _ _ _ (reads_name_section n Hn Hs)) by (apply reader_new_ok; [done|lia]).
  by rewrite (reads_skip _ r tl Hr Hb).
Qed.

Lemma parse_step_enc id content f acc r tl :
  small content → reads_section id content f → reader_ok r →
  rest r = enc_section id content ++ tl →
  parse_step (rd_data r) acc r = (Ok (inl (f acc)), advance r (len (enc_section id content))).
Proof.
  intros Hs Hc Hr Hb. unfold parse_step, get. unfold mbind at 1, M_bind at 1. simpl.
  rewrite is_empty_rest, Hb by done. simpl. unfold mbind at 1, M_bind at 1.
  unfold enc_section in Hb. simpl in Hb. rewrite (reads_byte id r _ Hr Hb).
  destruct (rest_cons r id _ Hr Hb) as [Hr1 Hb1]. change (len [id]) with 1.
  unfold enc_bytes in Hb1. rewrite <-app_assoc in Hb1. unfold mbind at 1, M_bind at 1.
  rewrite (reads_u32 (len content)) with (tl := content ++ tl); [|..|done|done].
  - destruct (rest_advance _ _ _ Hr1 Hb1) as [Hr2 Hb2].
    specialize (Hc acc _ tl Hr2 Hb2).
    change (rd_data (advance _ _)) with (rd_data r) in Hc.
    unfold position, gets. unfold mbind, M_bind. rewrite Hc.
    rewrite !advance_advance. unfold mret, M_ret. do 3 f_equal.
    unfold enc_section, enc_bytes. unfold len. simpl. rewrite length_app. lia.
  - pose proof (len_nonneg content). unfold in_u, small in *. lia.
Qed.

(** A section and the field it sets. *)
Definition section_ok (p : list Z * (Module_ → Module_)) : Prop :=
  ∃ id content, p.1 = enc_section id content ∧ reads_section id content p.2.

Lemma counted_section_ok {A} id (m : Reader A) (f : A → list Z) l (upd : list A → Module_ → Module_) :
  (∀ bytes a n acc, parse_section_body bytes (section_from_byte id) a n acc =
     section a n (counted m) upd acc) →
  small l → Forall (λ x, reads m (f x) x) l →
  section_ok (enc_section id (enc_vec f l), upd l).
Proof.
  intros Hid Hs Hl. eexists id, _. split; [done|]. intros acc r tl Hr Hb. rewrite Hid.
  simpl. apply (section_enc _ _ l upd _ _ tl); [by apply reads_vec|done..].
Qed.

Lemma u32_section_ok id n (upd : Z → Module_ → Module_) :
  (∀ bytes a k acc, parse_section_body bytes (section_from_byte id) a k acc =
     section a k read_leb128_u32 upd acc) →
  in_u 32 n → section_ok (enc_section id (enc_u32 n), upd n).
Proof.
  intros Hid Hn. eexists id, _. split; [done|]. intros acc r tl Hr Hb. rewrite Hid.
  simpl. apply (section_enc _ _ n upd _ _ tl); [by apply reads_u32|done..].
Qed.

Lemma Forall_reads {A} (P Q : A → Prop) (m : Reader A) f l :
  Forall P l → Forall Q l → (∀ x, P x → Q x → reads m (f x) x) → Forall (λ x, reads m (f x) x) l.
Proof. intros HP HQ Hr. induction HP; inversion_clear HQ; constructor; auto. Qed.

Lemma enc_module_sections m p :
  p ∈ section_list m → small (enc_module m) → small p.1.
Proof.
  intros Hp. unfold enc_module, small. rewrite !len_app.
  assert (len p.1 ≤ len (concat (map fst (section_list m)))).
  { induction (section_list m) as [|q l IH]; [by apply not_elem_of_nil in Hp|].
    apply elem_of_cons in Hp as [->|Hp]; simpl; rewrite len_app;
      [pose proof (len_nonneg (concat (map fst l)))|pose proof (len_nonneg q.1); specialize (IH Hp)]; lia. }
  pose proof (len_nonneg WASM_MAGIC). pose proof (len_nonneg (to_le_bytes 4 WASM_VERSION)). lia.
Qed.

Lemma enc_section_small id content : small (enc_section id content) → small content.
Proof.
  unfold small, enc_section, enc_bytes, len. simpl. rewrite length_app. lia.
Qed.

Lemma module_name_small m n :
  module_name m = Some n → small (enc_module m) → small (enc_name n).
Proof.
  intros Hn Hs. assert (Hc : small (enc_section 0 (name_content n))).
  { apply (enc_module_sections m (_, set_name (Some n))); [|done].
    unfold section_list. rewrite Hn, !elem_of_app. do 5 right. by apply list_elem_of_singleton. }
  apply enc_section_small in Hc. revert Hc.
  unfold small, name_content, enc_bytes, len. rewrite !length_app. simpl. rewrite length_app. lia.
Qed.

Lemma section_list_ok m : encodable m → Forall section_ok (section_list m).
Proof.
  intros [[] Hin Hen Hb Hmn Hsz]. destruct_and?. unfold section_list.
  repeat (apply Forall_app; split); repeat (apply Forall_cons; split); try apply Forall_nil_2;
    try (eapply counted_section_ok; [done|done|]).
  - eapply Forall_impl; [done|apply reads_func_type].
  - apply (Forall_reads import_ok _ _ _ _ ltac:(done) Hin). intros i ? [? ?]. by apply reads_import.
  - eapply Forall_impl; [done|apply reads_u32].
  - eapply Forall_impl; [done|apply reads_table_type].
  - eapply Forall_impl; [done|apply reads_memory_type].
  - eapply Forall_impl; [done|apply reads_global].
  - apply (Forall_reads (λ e, in_u 32 (export_index e)) _ _ _ _ ltac:(done) Hen). intros e ? ?. by apply reads_export.
  - destruct (start m); [|done]. apply Forall_singleton.
    by apply (u32_section_ok 8 _ (λ i, set_start (Some i))).
  - eapply Forall_impl; [done|apply reads_element].
  - destruct (data_count m); [|done]. apply Forall_singleton.
    by apply (u32_section_ok 12 _ (λ i, set_data_count (Some i))).
  - apply (Forall_reads body_ok _ _ _ _ ltac:(done) Hb). intros b ? [? ?]. by apply reads_body.
  - eapply Forall_impl; [done|apply reads_segment].
  - destruct (module_name m) as [n|] eqn:En; [|done]. apply Forall_singleton.
    exists 0, (name_content n). split; [done|]. apply reads_custom; [done|].
    by apply (module_name_small m).
Qed.

Lemma parse_loop_enc l : ∀ acc fuel r,
  Forall section_ok l → Forall (λ p, small p.1) l → reader_ok r →
  rest r = concat (map fst l) → (length l ≤ fuel)%nat →
  (reader_loop fuel (parse_step (rd_data r)) acc r).1 = Ok (foldl (λ acc p, p.2 acc) acc l).
Proof.
  induction l as [|[bs f] l IH]; intros acc fuel r Hl Hs Hr Hb Hf.
  - destruct fuel; simpl; unfold parse_step, get, mbind, M_bind; by rewrite is_empty_rest, Hb by done.
  - destruct fuel as [|fuel]; simpl in Hf; [lia|].
    inversion_clear Hl as [|? ? (id & c & Heq & Hc) Hl']. inversion_clear Hs as [|? ? Hsm Hs'].
    simpl in *. subst bs. unfold mbind, M_bind.
    rewrite (parse_step_enc id c f acc r _ (enc_section_small _ _ Hsm) Hc Hr Hb).
    destruct (rest_advance r _ _ Hr Hb) as [Hr' Hb'].
    specialize (IH (f acc) fuel _ Hl' Hs' Hr' Hb').
    change (rd_data (advance r _)) with (rd_data r) in IH. apply IH. lia.
Qed.

Lemma foldl_sections m : foldl (λ acc p, p.2 acc) empty_module (section_list m) = m.
Proof. destruct m as [? ? ? ? ? ? ? st ? ? ? nm dc]. by destruct st, nm, dc. Qed.

Lemma reads_header : reads parse_header (WASM_MAGIC ++ to_le_bytes 4 WASM_VERSION) tt.
Proof.
  eapply reads_bind; [apply (reads_bytes WASM_MAGIC)|]. rewrite bool_decide_true by done. simpl negb.
  cbv iota. apply (reads_bind_nil _ _ _ WASM_VERSION); [|apply reads_ret].
  eapply reads_bind_nil; [apply (reads_bytes (to_le_bytes 4 WASM_VERSION))|apply reads_ret].
Qed.

Lemma sections_length l :
  Forall section_ok l → (length l ≤ length (concat (map fst l)))%nat.
Proof.
  induction 1 as [|p l (id & c & Heq & _) _ IH]; simpl; [lia|].
  rewrite length_app, Heq. unfold enc_section. simpl. lia.
Qed.

(** ** Encoded modules are bytes *)

Lemma enc_functype_ok ft : bytes_ok (enc_functype ft).
Proof.
  assert (∀ l, bytes_ok (enc_vec (λ t, [enc_valtype t]) l)).
  { intros. apply enc_vec_ok. apply Forall_true. auto with enc. }
  apply bytes_cons; [unfold in_u; lia|]. by apply bytes_app.
Qed.

Lemma enc_tabletype_ok t : tabletype_ok t → bytes_ok (enc_tabletype t).
Proof.
  intros [? ?]. unfold enc_tabletype, enc_limits.
  assert (in_u 8 (flag_max (tt_max t))) by (destruct (tt_max t); unfold in_u; simpl; lia). auto 6 with enc.
Qed.

Lemma enc_memtype_ok t : memtype_ok t → bytes_ok (enc_memtype t).
Proof.
  intros [? ?]. apply bytes_cons; [|auto with enc].
  destruct (mt_max t), (mt_shared t); unfold in_u; simpl; lia.
Qed.

Lemma enc_globaltype_ok t : bytes_ok (enc_globaltype t).
Proof.
  apply bytes_cons; [apply enc_valtype_ok|]. apply bytes_cons; [|apply bytes_nil].
  destruct (gt_mutable t); unfold in_u; lia.
Qed.

Lemma enc_const_ok l : const_expr l → bytes_ok (enc_const l).
Proof.
  intros Hl. apply bytes_app; [|auto with enc]. apply enc_expr_ok.
  eapply Forall_impl; [done|]. by intros i [_ ?].
Qed.

Lemma enc_import_ok i : import_ok i → bytes_ok (enc_import i).
Proof.
  destruct i as [mo na k]. intros Hk. do 2 (apply bytes_app; [apply enc_name_ok|]).
  destruct k; simpl in *; (apply bytes_cons; [unfold in_u; lia|]);
    auto using enc_u32_ok, enc_tabletype_ok, enc_memtype_ok, enc_globaltype_ok.
Qed.

Lemma enc_global_ok g : const_expr (init_expr g) → bytes_ok (enc_global g).
Proof. intros. apply bytes_app; [apply enc_globaltype_ok|by apply enc_const_ok]. Qed.

Lemma enc_export_ok e : in_u 32 (export_index e) → bytes_ok (enc_export e).
Proof.
  intros. apply bytes_app; [apply enc_name_ok|]. apply bytes_cons; [|auto with enc].
  destruct (export_kind e); unfold in_u; simpl; lia.
Qed.

#[export] Hint Resolve enc_const_ok : enc.

Lemma enc_element_ok e : element_ok e → bytes_ok (enc_element e).
Proof.
  intros (? & ? & ? & ? & ?). unfold enc_element. destruct (elem_passive e); [|zcase]; auto 7 with enc.
Qed.

Lemma enc_segment_ok d : segment_ok d → bytes_ok (enc_segment d).
Proof.
  intros (? & ? & ? & ? & ?). unfold enc_segment. destruct (data_passive d); [|zcase]; auto 7 with enc.
Qed.

Lemma enc_body_ok b : body_ok b → bytes_ok (enc_body b).
Proof.
  intros (Hl & _ & Hi & _). apply enc_bytes_ok, bytes_app; [|by apply enc_expr_ok].
  apply enc_vec_ok. eapply Forall_impl; [done|]. intros l Hl'. apply bytes_app; auto with enc.
Qed.

Lemma enc_section_ok id content : in_u 8 id → bytes_ok content → bytes_ok (enc_section id content).
Proof. intros. unfold enc_section. auto with enc. Qed.

Lemma enc_section_vec_ok {A} id (P : A → Prop) f (l : list A) :
  in_u 8 id → Forall P l → (∀ x, P x → bytes_ok (f x)) → bytes_ok (enc_section id (enc_vec f l)).
Proof. intros ? Hl Hf. apply enc_section_ok, enc_vec_ok; [done|]. by eapply Forall_impl. Qed.

Lemma enc_module_ok m : module_ok m → bytes_ok (enc_module m).
Proof.
  intros []. destruct_and?. apply bytes_app; [bytes_tac|]. apply bytes_app; [apply to_le_bytes_ok|].
  apply bytes_concat. unfold section_list.
  rewrite !Forall_app, !Forall_cons, !Forall_nil. split_and!; try done; simpl;
    try (eapply enc_section_vec_ok; [unfold in_u; lia|done|];
         eauto using enc_functype_ok, enc_import_ok, enc_u32_ok, enc_tabletype_ok, enc_memtype_ok,
           enc_global_ok, enc_export_ok, enc_element_ok, enc_body_ok, enc_segment_ok).
  - destruct (start m); [|done]. apply Forall_singleton. apply enc_section_ok; auto with enc.
  - destruct (data_count m); [|done]. apply Forall_singleton. apply enc_section_ok; auto with enc.
  - destruct (module_name m); [|done]. apply Forall_singleton. apply enc_section_ok; [auto with enc|].
    unfold name_content. auto with enc.
Qed.

Lemma parse_enc m : encodable m → parse (enc_module m) = Ok m.
Proof.
  intros He. pose proof (section_list_ok m He) as Hl. pose proof He as [Hm _ _ _ _ Hsz].
  assert (Hr : reader_ok (reader_new (enc_module m))).
  { apply reader_new_ok; [by apply enc_module_ok|]. unfold small in Hsz. lia. }
  unfold parse, parse_reader. unfold mbind, M_bind.
  assert (Hrest : rest (reader_new (enc_module m)) =
    (WASM_MAGIC ++ to_le_bytes 4 WASM_VERSION) ++ concat (map fst (section_list m)))
    by (by rewrite <-app_assoc).
  rewrite (reads_header _ _ Hr Hrest). destruct (rest_advance _ _ _ Hr Hrest) as [Hr' Hb'].
  assert (Hf : (length (section_list m) ≤ length (enc_module m))%nat).
  { pose proof (sections_length _ Hl). unfold enc_module. rewrite !length_app. lia. }
  assert (Hs : Forall (λ p, small p.1) (section_list m)).
  { apply Forall_forall. intros p Hp. by apply (enc_module_sections m). }
  pose proof (parse_loop_enc _ empty_module _ _ Hl Hs Hr' Hb' Hf) as Hp.
  by rewrite foldl_sections in Hp.
Qed.

(** ** Properties *)

(** Round trip of instructions: decoding the binary encoding of any
    sequence of instructions with immediates in range returns that sequence. *)
Theorem decode_roundtrip l r :
  Forall instr_ok l → len (enc_expr l) < 2 ^ 63 →
  decode_instructions (enc_expr l) r = (Ok l, r).
Proof. apply decode_enc. Qed.

(** C3. Round trip of modules: parsing the binary encoding of a well-formed
    module (header, every section, function bodies and the name section)
    returns exactly that module. *)
Theorem parse_roundtrip m : encodable m → parse (enc_module m) = Ok m.
Proof. apply parse_enc. Qed.

(** A code entry whose declared size is smaller than its local
    declarations makes [parse_code_section] panic: the subtraction of the
    sizes has no guard. *)
Theorem parse_body_size_panics size ls r tl :
  reader_ok r → in_u 32 size → Forall (λ l, in_u 32 l.1) ls → small ls →
  size < len (enc_vec enc_local ls) →
  rest r = enc_u32 size ++ enc_vec enc_local ls ++ tl → (parse_body r).1 = Panic.
Proof.
  intros Hr Hsz Hl Hs Hlt Hb. unfold parse_body, mbind, M_bind.
  rewrite (reads_u32 size Hsz r _ Hr Hb). destruct (rest_advance _ _ _ Hr Hb) as [Hr1 Hb1].
  unfold position, gets. rewrite (reads_vec parse_local enc_local ls Hs) with (tl := tl); [|..|done|done].
  - pose proof (len_nonneg (enc_vec enc_local ls)). unfold sub_or_panic, mret, M_ret.
    rewrite (proj2 (Z.ltb_ge _ _)) by (simpl; lia).
    by rewrite (proj2 (Z.ltb_lt _ _)) by (simpl; lia).
  - eapply Forall_impl; [done|apply reads_local].
Qed.

(** ** Witnesses *)

(** A module with one exported function that adds its two arguments. *)
Definition add_module : Module_ :=
  mkModule [mkFunctionType [TI32; TI32] [TI32]] [] [0] [] [mkMemoryType 1 (Some 2) false]
    [mkGlobal (mkGlobalType TI64 true) [I64Const (-5)]] [mkExport "add" ExportFunction 0] None []
    [mkFunctionBody [(1, TI32)] [LocalGet 0; LocalGet 1; I32Add; End]
       (enc_expr [LocalGet 0; LocalGet 1; I32Add; End])]
    [mkDataSegment 0 [I32Const 16] [1; 2; 3] false] (Some "adder") (Some 1).

Ltac enc_tac := repeat first [apply enc_expr_ok | ok_step | progress unfold name_ok]; try done.

Lemma add_module_ok : module_ok add_module.
Proof. constructor; unfold add_module; enc_tac. Qed.

Lemma add_module_encodable : encodable add_module.
Proof. constructor; [apply add_module_ok|..]; unfold add_module; enc_tac. Qed.

Lemma decode_roundtrip_witness :
  decode_instructions [0x20; 0; 0x41; 0x7F; 0x6A; 0x0B] (reader_new []) =
    (Ok [LocalGet 0; I32Const (-1); I32Add; End], reader_new []).
Proof. apply (decode_roundtrip [LocalGet 0; I32Const (-1); I32Add; End]); enc_tac. Defined.

Lemma parse_roundtrip_witness : parse (enc_module add_module) = Ok add_module.
Proof. apply parse_roundtrip. apply add_module_encodable. Defined.

Lemma parse_body_size_panics_witness : (parse_body (reader_new [1; 1; 3; 0x7F; 0x0B])).1 = Panic.
Proof.
  apply (parse_body_size_panics 1 [(3, TI32)] _ [0x0B]); try enc_tac.
  apply reader_new_ok; [enc_tac|done].
Defined.
