(* ===== verification/Validator.v ===== *)
(** Module validation: [ModuleValidator] of [runtime/src/parser.rs] (lines
    1408-1655) and the entry points of [runtime/src/module.rs] that parse and
    validate ([from_bytes], [validate], [validate_structure]). *)

From S2P Require Import Prelude Types Reader Parser Encode.

(** [ParseError::new(msg, 0)]. *)
Definition invalid {A} (msg : string) : outcome ParseError A := Err (mkParseError msg 0).

(** [for (i, x) in l.iter().enumerate() { f(i, x)? }] *)
Fixpoint for_enum {E A} (f : Z → A → outcome E unit) (i : Z) (l : list A) : outcome E unit :=
  match l with
  | [] => Ok tt
  | x :: l => f i x ≫= λ _, for_enum f (i + 1) l
  end.
Definition for_each {E A} (f : A → outcome E unit) : list A → outcome E unit :=
  for_enum (λ _, f) 0.

Definition check {E} (bad : bool) (e : outcome E unit) : outcome E unit := if bad then e else Ok tt.

(** [total_functions], [total_tables], [total_memories], [total_globals]. *)
Definition total_functions (m : Module_) : Z :=
  count_if is_function_import (imports m) + len (functions m).
Definition total_tables (m : Module_) : Z :=
  count_if is_table_import (imports m) + len (tables m).
Definition total_memories (m : Module_) : Z :=
  count_if is_memory_import (imports m) + len (memories m).
Definition total_globals (m : Module_) : Z :=
  count_if is_global_import (imports m) + len (globals m).

(** [validate_functions]. *)
Definition validate_functions (m : Module_) : outcome ParseError unit :=
  for_enum (λ i type_idx,
    check (len (types m) <=? type_idx)
      (invalid ("Function " +:+ pretty i +:+ " references type index " +:+ pretty type_idx
                +:+ " but only " +:+ pretty (len (types m)) +:+ " types defined")))
    0 (functions m) ≫= λ _,
  check (negb (len (code m) =? len (functions m)))
    (invalid ("Function count (" +:+ pretty (len (functions m))
              +:+ ") does not match code count (" +:+ pretty (len (code m)) +:+ ")")).

(** [min > max], for an optional maximum. *)
Definition min_exceeds (min : Z) (max : option Z) : bool :=
  match max with Some max => max <? min | None => false end.

(** [validate_memories]. *)
Definition validate_memories (m : Module_) : outcome ParseError unit :=
  let import_mems := count_if is_memory_import (imports m) in
  let total_mems := len (memories m) + import_mems in
  check (1 <? total_mems) (invalid "Multiple memories not supported in MVP") ≫= λ _,
  for_each (λ mem,
    check (min_exceeds (mt_min mem) (mt_max mem)) (invalid "Memory min exceeds max") ≫= λ _,
    check (65536 <? mt_min mem) (invalid "Memory min too large")) (memories m).

(** [validate_tables]. *)
Definition validate_tables (m : Module_) : outcome ParseError unit :=
  let import_tables := count_if is_table_import (imports m) in
  let total_tables := len (tables m) + import_tables in
  check (1 <? total_tables) (invalid "Multiple tables not supported in MVP") ≫= λ _,
  for_each (λ t, check (min_exceeds (tt_min t) (tt_max t)) (invalid "Table min exceeds max"))
    (tables m).

(** The two nested loops of [validate_exports]: the first pair of equal names. *)
Fixpoint duplicate_exports (l : list Export) : outcome ParseError unit :=
  match l with
  | [] => Ok tt
  | e :: l =>
      check (existsb (λ e', String.eqb (export_name e) (export_name e')) l)
        (invalid ("Duplicate export name: " +:+ export_name e)) ≫= λ _,
      duplicate_exports l
  end.

(** [validate_exports]. *)
Definition validate_exports (m : Module_) : outcome ParseError unit :=
  duplicate_exports (exports m) ≫= λ _,
  for_each (λ e,
    let max :=
      match export_kind e with
      | ExportFunction => total_functions m
      | ExportTable => total_tables m
      | ExportMemory => total_memories m
      | ExportGlobal => total_globals m
      end in
    check (max <=? export_index e)
      (invalid ("Export '" +:+ export_name e +:+ "' index " +:+ pretty (export_index e)
                +:+ " out of range (max " +:+ pretty max +:+ ")"))) (exports m).

(** [validate_start]. *)
Definition validate_start (m : Module_) : outcome ParseError unit :=
  match start m with
  | Some start_idx =>
      let num_funcs := total_functions m in
      check (num_funcs <=? start_idx)
        (invalid ("Start function index " +:+ pretty start_idx +:+ " out of range ("
                  +:+ pretty num_funcs +:+ ")"))
  | None => Ok tt
  end.

(** [validate_elements]. *)
Definition validate_elements (m : Module_) : outcome ParseError unit :=
  let num_tables := total_tables m in
  let num_funcs := total_functions m in
  for_enum (λ i elem,
    check (negb (elem_passive elem) && (num_tables <=? elem_table_idx elem))
      (invalid ("Element segment " +:+ pretty i +:+ " references table "
                +:+ pretty (elem_table_idx elem) +:+ " but only " +:+ pretty num_tables
                +:+ " tables")) ≫= λ _,
    for_each (λ func_idx,
      check (num_funcs <=? func_idx)
        (invalid ("Element segment " +:+ pretty i +:+ " references function "
                  +:+ pretty func_idx +:+ " out of range"))) (func_indices elem)) 0 (elements m).

(** [validate_data]. *)
Definition validate_data (m : Module_) : outcome ParseError unit :=
  let num_mems := total_memories m in
  for_enum (λ i seg,
    check (negb (data_passive seg) && (num_mems <=? data_memory_idx seg))
      (invalid ("Data segment " +:+ pretty i +:+ " references memory "
                +:+ pretty (data_memory_idx seg) +:+ " but only " +:+ pretty num_mems
                +:+ " memories"))) 0 (data m).

(** [ModuleValidator::validate]. *)
Definition validate_module (m : Module_) : outcome ParseError unit :=
  validate_functions m ≫= λ _, validate_memories m ≫= λ _, validate_tables m ≫= λ _,
  validate_exports m ≫= λ _, validate_start m ≫= λ _, validate_elements m ≫= λ _,
  validate_data m.

(** [Module::validate_structure]. *)
Definition validate_structure (m : Module_) : outcome RuntimeError unit :=
  map_err (λ e, InvalidBinary ("Validation: " +:+ parse_error_display e)) (validate_module m).

(** [Module::from_bytes]. *)
Definition from_bytes (bytes : list Z) : outcome RuntimeError Module_ :=
  map_err (λ e, InvalidBinary (parse_error_display e)) (parse bytes) ≫= λ m,
  validate_structure m ≫= λ _,
  Ok m.

(** [Module::validate]. *)
Definition validate (bytes : list Z) : outcome RuntimeError unit :=
  if len bytes <? 8 then Err (InvalidBinary "Binary too small")
  else if negb (bool_decide (slice bytes 0 4 = WASM_MAGIC)) then
    Err (InvalidBinary "Invalid magic number")
  else
    let version := from_le_bytes (slice bytes 4 8) in
    if negb (version =? 1) then
      Err (InvalidBinary ("Unsupported WASM version: " +:+ pretty version))
    else
      map_err (λ e, InvalidBinary (parse_error_display e)) (parse bytes) ≫= λ m,
      validate_structure m ≫= λ _,
      Ok tt.

(** ** What validation promises *)

Definition limits_ok (min : Z) (max : option Z) : Prop :=
  match max with Some max => min ≤ max | None => True end.

(** The number of things an export of a kind can name. *)
Definition export_bound (m : Module_) (k : ExportKind) : Z :=
  match k with
  | ExportFunction => total_functions m
  | ExportTable => total_tables m
  | ExportMemory => total_memories m
  | ExportGlobal => total_globals m
  end.

Record valid (m : Module_) : Prop := {
  valid_functions : Forall (λ t, t < len (types m)) (functions m);
  valid_code : len (code m) = len (functions m);
  valid_one_memory : total_memories m ≤ 1;
  valid_memories : Forall (λ t, limits_ok (mt_min t) (mt_max t) ∧ mt_min t ≤ 65536) (memories m);
  valid_one_table : total_tables m ≤ 1;
  valid_tables : Forall (λ t, limits_ok (tt_min t) (tt_max t)) (tables m);
  valid_export_names : NoDup (map export_name (exports m));
  valid_exports : Forall (λ e, export_index e < export_bound m (export_kind e)) (exports m);
  valid_start : ∀ s, start m = Some s → s < total_functions m;
  valid_elements : Forall (λ e, (elem_passive e = false → elem_table_idx e < total_tables m) ∧
    Forall (λ f, f < total_functions m) (func_indices e)) (elements m);
  valid_data : Forall (λ d, data_passive d = false → data_memory_idx d < total_memories m) (data m)
}.

Definition succeeds {E} (o : outcome E unit) : Prop := o = Ok tt.

Lemma succeeds_bind {E} (a b : outcome E unit) :
  succeeds (a ≫= λ _, b) ↔ succeeds a ∧ succeeds b.
Proof.
  unfold succeeds, mbind, outcome_bind. destruct a as [[]|e|]; split; intros; destruct_and?; done.
Qed.

Lemma succeeds_check bad msg : succeeds (check bad (invalid msg)) ↔ bad = false.
Proof. by destruct bad. Qed.

Lemma succeeds_for {E A} (f : Z → A → outcome E unit) (P : A → Prop) l i :
  (∀ i x, succeeds (f i x) ↔ P x) → succeeds (for_enum f i l) ↔ Forall P l.
Proof.
  intros Hf. revert i. induction l as [|x l IH]; intros i; simpl; [by split|].
  rewrite succeeds_bind, Hf, IH. by rewrite Forall_cons.
Qed.

Lemma min_exceeds_false min max : min_exceeds min max = false ↔ limits_ok min max.
Proof. destruct max; simpl; [apply Z.ltb_ge|done]. Qed.

Lemma succeeds_functions m :
  succeeds (validate_functions m) ↔
    Forall (λ t, t < len (types m)) (functions m) ∧ len (code m) = len (functions m).
Proof.
  unfold validate_functions. rewrite succeeds_bind, (succeeds_for _ (λ t, t < len (types m))).
  - by rewrite succeeds_check, negb_false_iff, Z.eqb_eq.
  - intros. by rewrite succeeds_check, Z.leb_gt.
Qed.

Lemma succeeds_memories m :
  succeeds (validate_memories m) ↔
    total_memories m ≤ 1 ∧
    Forall (λ t, limits_ok (mt_min t) (mt_max t) ∧ mt_min t ≤ 65536) (memories m).
Proof.
  unfold validate_memories. cbv zeta. rewrite succeeds_bind, succeeds_check, Z.ltb_ge.
  unfold total_memories. rewrite Z.add_comm. apply and_iff_compat_l. apply succeeds_for. intros _ t.
  by rewrite succeeds_bind, !succeeds_check, min_exceeds_false, Z.ltb_ge.
Qed.

Lemma succeeds_tables m :
  succeeds (validate_tables m) ↔
    total_tables m ≤ 1 ∧ Forall (λ t, limits_ok (tt_min t) (tt_max t)) (tables m).
Proof.
  unfold validate_tables. cbv zeta. rewrite succeeds_bind, succeeds_check, Z.ltb_ge.
  unfold total_tables. rewrite Z.add_comm. apply and_iff_compat_l. apply succeeds_for. intros _ t.
  by rewrite succeeds_check, min_exceeds_false.
Qed.

Lemma succeeds_duplicates l : succeeds (duplicate_exports l) ↔ NoDup (map export_name l).
Proof.
  induction l as [|e l IH]; simpl; [split; by constructor|].
  rewrite succeeds_bind, succeeds_check, IH, NoDup_cons. apply and_iff_compat_r.
  rewrite <-not_true_iff_false, existsb_exists. apply not_iff_compat.
  rewrite list_elem_of_In, in_map_iff. split.
  - intros (e' & ? & Heq). exists e'. by apply String.eqb_eq in Heq as ->.
  - intros (e' & Heq & ?). exists e'. split; [done|]. by apply String.eqb_eq.
Qed.

Lemma succeeds_exports m :
  succeeds (validate_exports m) ↔
    NoDup (map export_name (exports m)) ∧
    Forall (λ e, export_index e < export_bound m (export_kind e)) (exports m).
Proof.
  unfold validate_exports. rewrite succeeds_bind, succeeds_duplicates. apply and_iff_compat_l.
  apply succeeds_for. intros _ e. cbv zeta. by rewrite succeeds_check, Z.leb_gt.
Qed.

Lemma succeeds_start m :
  succeeds (validate_start m) ↔ ∀ s, start m = Some s → s < total_functions m.
Proof.
  unfold validate_start. destruct (start m) as [s|]; [|by split].
  cbv zeta. rewrite succeeds_check, Z.leb_gt. split; [by intros ? ? [= <-]|auto].
Qed.

Lemma active_check_false passive n i :
  negb passive && (n <=? i) = false ↔ (passive = false → i < n).
Proof. destruct passive; simpl; [by split|]. rewrite Z.leb_gt. split; auto. Qed.

Lemma succeeds_elements m :
  succeeds (validate_elements m) ↔
    Forall (λ e, (elem_passive e = false → elem_table_idx e < total_tables m) ∧
      Forall (λ f, f < total_functions m) (func_indices e)) (elements m).
Proof.
  apply succeeds_for. intros i e. rewrite succeeds_bind, succeeds_check, active_check_false.
  apply and_iff_compat_l. apply succeeds_for. intros _ f. by rewrite succeeds_check, Z.leb_gt.
Qed.

Lemma succeeds_data m :
  succeeds (validate_data m) ↔
    Forall (λ d, data_passive d = false → data_memory_idx d < total_memories m) (data m).
Proof. apply succeeds_for. intros i d. by rewrite succeeds_check, active_check_false. Qed.

Lemma validate_module_succeeds m : succeeds (validate_module m) ↔ valid m.
Proof.
  unfold validate_module. rewrite !succeeds_bind, succeeds_functions, succeeds_memories,
    succeeds_tables, succeeds_exports, succeeds_start, succeeds_elements, succeeds_data.
  split; [intros; destruct_and?; by constructor|intros []; by split_and!].
Qed.

(** [succeeds] or an error: validation never panics. *)
Lemma bind_no_panic {E} (a : outcome E unit) (b : unit → outcome E unit) :
  a ≠ Panic → b tt ≠ Panic → (a ≫= b) ≠ Panic.
Proof. by destruct a as [[]|e|]. Qed.
Lemma check_no_panic bad msg : check bad (invalid msg) ≠ Panic.
Proof. by destruct bad. Qed.
Lemma for_no_panic {E A} (f : Z → A → outcome E unit) l i :
  (∀ i x, f i x ≠ Panic) → for_enum f i l ≠ Panic.
Proof.
  intros Hf. revert i. induction l as [|x l IH]; intros i; simpl; [done|].
  apply bind_no_panic; [apply Hf|apply IH].
Qed.
Lemma duplicates_no_panic l : duplicate_exports l ≠ Panic.
Proof. induction l; simpl; [done|]. apply bind_no_panic; [apply check_no_panic|done]. Qed.

Lemma validate_module_no_panic m : validate_module m ≠ Panic.
Proof.
  unfold validate_module, validate_functions, validate_memories, validate_tables, validate_exports,
    validate_elements, validate_data, for_each.
  assert (validate_start m ≠ Panic)
    by (unfold validate_start; destruct (start m); [apply check_no_panic|done]).
  repeat (apply bind_no_panic || apply for_no_panic || apply duplicates_no_panic
          || apply check_no_panic || intros); done.
Qed.

(** The header that [parse] accepts, in the terms of [Module::validate]. *)
Lemma parse_header_inv bytes r :
  parse_header (reader_new bytes) = (Ok tt, r) →
  8 ≤ len bytes ∧ slice bytes 0 4 = WASM_MAGIC ∧ from_le_bytes (slice bytes 4 8) = 1.
Proof.
  unfold parse_header, read_u32_le, read_bytes, position, gets, add_or_panic, checked_add, get.
  unfold mbind, M_bind. simpl. change (0 + 4) with 4. destruct (Z.ltb_spec (len bytes) 4); [done|].
  simpl. case_bool_decide as Hm; [|done]. simpl. change (0 + 4 + 4) with 8.
  destruct (Z.ltb_spec (len bytes) 8); [done|]. simpl. change (0 + 4) with 4.
  destruct (Z.eqb_spec (from_le_bytes (slice bytes 4 8)) WASM_VERSION) as [Hv|]; done.
Qed.

Lemma parse_inv bytes m :
  parse bytes = Ok m →
  8 ≤ len bytes ∧ slice bytes 0 4 = WASM_MAGIC ∧ from_le_bytes (slice bytes 4 8) = 1.
Proof.
  unfold parse, parse_reader. unfold mbind, M_bind.
  destruct (parse_header (reader_new bytes)) as [[[]|e|] r] eqn:Eh; try done.
  intros _. by apply (parse_header_inv bytes r).
Qed.

Lemma map_err_ok {E E' A} (f : E → E') (o : outcome E A) a : map_err f o = Ok a ↔ o = Ok a.
Proof. destruct o; simpl; split; by intros [=->] || done. Qed.

Lemma from_bytes_ok bytes m : from_bytes bytes = Ok m ↔ parse bytes = Ok m ∧ valid m.
Proof.
  rewrite <-validate_module_succeeds. unfold from_bytes, validate_structure, succeeds.
  destruct (parse bytes) as [m'|e|]; simpl; [|split; intros; destruct_and?; done..].
  destruct (validate_module m') as [[]|e|] eqn:Ev; simpl; split; try done;
    intros; destruct_and?; simplify_eq; try done; congruence.
Qed.

Lemma from_bytes_panic bytes : from_bytes bytes = Panic → parse bytes = Panic.
Proof.
  unfold from_bytes, validate_structure. destruct (parse bytes) as [m|e|]; simpl; [|done..].
  pose proof (validate_module_no_panic m). by destruct (validate_module m).
Qed.

(** ** Properties *)

(** C8. The validator accepts exactly the valid modules, and it never panics:
    type indices, code count, single memory and table with ordered limits,
    distinct export names, and every export, start, element and data index in
    range. *)
Theorem validate_iff m :
  (validate_module m = Ok tt ↔ valid m) ∧ validate_module m ≠ Panic.
Proof. split; [apply validate_module_succeeds|apply validate_module_no_panic]. Qed.

(** [Module::from_bytes] loads every valid module from its encoding, and a
    module it loads is valid and well formed. *)
Theorem from_bytes_correct bytes m :
  bytes_ok bytes → len bytes < 2 ^ 63 →
  (from_bytes bytes = Ok m → parse bytes = Ok m ∧ valid m ∧ module_ok m) ∧
  (encodable m → bytes = enc_module m → valid m → from_bytes bytes = Ok m).
Proof.
  intros Hb Hl. split.
  - intros [Hp Hv]%from_bytes_ok. split_and!; [done|done|]. by apply (parse_ok_module bytes).
  - intros He -> Hv. apply from_bytes_ok. split; [by apply parse_enc|done].
Qed.

(** [Module::validate] accepts exactly the byte strings that
    [Module::from_bytes] loads: its own header checks reject nothing that the
    parser accepts. *)
Theorem validate_from_bytes bytes :
  validate bytes = Ok tt ↔ ∃ m, from_bytes bytes = Ok m.
Proof.
  unfold validate. split.
  - do 3 (case_match; [done|]). intros Hv. unfold from_bytes.
    destruct (map_err _ (parse bytes)) as [m|e|]; try done. exists m. simpl in *.
    by destruct (validate_structure m).
  - intros [m Hm]. pose proof Hm as [Hp _]%from_bytes_ok.
    destruct (parse_inv bytes m Hp) as (Hl & Hmag & Hver).
    rewrite (proj2 (Z.ltb_ge _ _)) by lia. rewrite bool_decide_true by done. rewrite Hver. simpl.
    unfold from_bytes in Hm. destruct (map_err _ (parse bytes)) as [m'|e|]; try done. simpl in *.
    by destruct (validate_structure m') as [[]|e|].
Qed.

(** ** Witnesses *)

Lemma add_module_valid : valid add_module.
Proof.
  apply validate_module_succeeds. by vm_compute.
Qed.

Lemma from_bytes_correct_witness : from_bytes (enc_module add_module) = Ok add_module.
Proof.
  apply (from_bytes_correct (enc_module add_module) add_module).
  - apply enc_module_ok, add_module_ok.
  - by vm_compute.
  - apply add_module_encodable.
  - reflexivity.
  - apply add_module_valid.
Defined.
