(* ===== verification/Instance.v ===== *)
(** Instances and the engine: [runtime/src/instance.rs], [runtime/src/engine.rs]
    and the entry points of [runtime/src/lib.rs].

    A [BTreeMap] that is iterated is a list of bindings sorted by key; one that
    is only looked up is a [gmap].  The global engine is an explicit optional
    value.  The functions that run code take the bound [n] of the main loop
    and return [None] when it is reached. *)

From stdpp Require Import gmap.
From S2P Require Import Prelude Types Memory Machine Floats Numeric Context Executor Invariant.
From S2P Require Import Instantiate Demo Loop Reader Parser Encode Validator.

(** ** Sorted maps with a pair of strings as key *)

Definition key : Type := string * string.

Definition key_compare (a b : key) : comparison :=
  match String.compare a.1 b.1 with
  | Eq => String.compare a.2 b.2
  | c => c
  end.

Fixpoint bt_insert {A} (k : key) (v : A) (m : list (key * A)) : list (key * A) :=
  match m with
  | [] => [(k, v)]
  | (k', v') :: m' =>
      match key_compare k k' with
      | Lt => (k, v) :: m
      | Eq => (k', v) :: m'
      | Gt => (k', v') :: bt_insert k v m'
      end
  end.

(** ** Host-side store *)

Record Store : Type := mkStore { store_data : gmap Z (list Z); next_key : Z }.
Definition store_new : Store := mkStore ∅ 0.

(** [Store::store]; the key counter is a [u64]. *)
Definition store_store (bytes : list Z) : M Store RuntimeError Z :=
  s ← get;
  let key := next_key s in
  next ← add_or_panic 64 key 1;
  modify (λ _, mkStore (<[key := bytes]> (store_data s)) next);;
  mret key.
Definition store_get (s : Store) (key : Z) : option (list Z) := store_data s !! key.
Definition store_remove (key : Z) (s : Store) : option (list Z) * Store :=
  (store_data s !! key, mkStore (delete key (store_data s)) (next_key s)).

Section instance.
Context `{Embedding} `{!HostCalls} `{FloatEnv}.

(** ** Imports *)

Record Imports : Type := mkImports {
  imp_functions : list (key * HostFn);
  imp_memories : list (key * LinearMemory)
}.
Definition imports_new : Imports := mkImports [] [].
Definition add_function (m n : string) (func : HostFn) (i : Imports) : Imports :=
  mkImports (bt_insert (m, n) func (imp_functions i)) (imp_memories i).
Definition add_memory (m n : string) (memory : LinearMemory) (i : Imports) : Imports :=
  mkImports (imp_functions i) (bt_insert (m, n) memory (imp_memories i)).
Definition to_exec_host_functions (i : Imports) : list HostFunction :=
  map (λ b, mkHostFunction b.1.1 b.1.2 b.2 None) (imp_functions i).

(** ** Instances *)

Record Instance_ : Type := mkInstance { inst_ctx : ExecutorContext; inst_store : Store }.

Definition new_with_imports (module : Module_) (imports : Imports) : outcome RuntimeError Instance_ :=
  ctx ← map_err (λ e, InstantiationError (trap_display e))
          (new_with_host_functions module (to_exec_host_functions imports));
  Ok (mkInstance ctx store_new).
Definition instance_new (module : Module_) : outcome RuntimeError Instance_ :=
  new_with_imports module imports_new.

(** [call_typed], from the instance to the results and the instance after. *)
Definition call_typed (n : nat) (name : string) (args : list WasmValue) (i : Instance_)
    : option (outcome RuntimeError (list WasmValue) * Instance_) :=
  match execute_export n (inst_ctx i) name args with
  | None => None
  | Some (r, ctx) =>
      Some (map_err (λ e, ExecutionError (trap_display e)) r, mkInstance ctx (inst_store i))
  end.

(** [args.chunks(4)] *)
Fixpoint chunks4 (l : list Z) : list (list Z) :=
  match l with
  | [] => []
  | a :: b :: c :: d :: l => [a; b; c; d] :: chunks4 l
  | l => [l]
  end.
(** Four bytes, zero where the chunk is shorter, as an [i32]. *)
Definition arg_of_chunk (chunk : list Z) : WasmValue :=
  I32 (as_i32 (from_le_bytes (resize chunk 4 0))).
Definition result_bytes (v : WasmValue) : list Z :=
  match v with
  | I32 v => to_le_bytes 4 (as_u32 v)
  | I64 v => to_le_bytes 8 (as_u64 v)
  | F32 b => to_le_bytes 4 b
  | F64 b => to_le_bytes 8 b
  | _ => []
  end.

(** [Instance::call]. *)
Definition instance_call (n : nat) (name : string) (args : list Z) (i : Instance_)
    : option (outcome RuntimeError (list Z) * Instance_) :=
  match call_typed n name (map arg_of_chunk (chunks4 args)) i with
  | None => None
  | Some (r, i') => Some (results ← r; Ok (concat (map result_bytes results)), i')
  end.

Definition instance_memory (i : Instance_) : option LinearMemory := vget (ctx_memories (inst_ctx i)) 0.
Definition instance_fuel (i : Instance_) : option Z := ctx_fuel (inst_ctx i).
Definition set_fuel (fuel : option Z) (i : Instance_) : Instance_ :=
  mkInstance (with_fuel fuel (inst_ctx i)) (inst_store i).
Definition add_fuel (fuel : Z) (i : Instance_) : Instance_ :=
  match ctx_fuel (inst_ctx i) with
  | Some f => set_fuel (Some (Z.min (f + fuel) (2 ^ 64 - 1))) i
  | None => i
  end.

(** ** The engine *)

(** [RuntimeConfig]. *)
Record RuntimeConfig : Type := mkConfig {
  max_memory_pages : Z;
  max_table_size : Z;
  enable_simd : bool;
  enable_threads : bool;
  enable_reference_types : bool;
  enable_bulk_memory : bool;
  stack_size : Z;
  enable_fuel : bool;
  initial_fuel : Z
}.
Definition default_config : RuntimeConfig :=
  mkConfig 256 10000 true false true true (1024 * 1024) true 1000000.

Record Engine : Type := mkEngine { engine_config : RuntimeConfig; cache_enabled : bool }.
Definition engine_new (config : RuntimeConfig) : outcome RuntimeError Engine := Ok (mkEngine config true).
Definition set_cache_enabled (enabled : bool) (e : Engine) : Engine := mkEngine (engine_config e) enabled.

(** The global engine: [init_with_config], [init] and [get]. *)
Definition init_with_config (config : RuntimeConfig) : M (option Engine) RuntimeError unit :=
  engine ← lift (engine_new config);
  modify (λ _, Some engine).
Definition init : M (option Engine) RuntimeError unit := init_with_config default_config.
Definition get_engine : M (option Engine) RuntimeError Engine :=
  e ← get; ok_or e (ExecutionError "Engine not initialized").

Definition load_module (wasm_bytes : list Z) : outcome RuntimeError Module_ := from_bytes wasm_bytes.
Definition instantiate_with_imports (e : Engine) (module : Module_) (imports : Imports)
    : outcome RuntimeError Instance_ :=
  i ← new_with_imports module imports;
  Ok (if enable_fuel (engine_config e) then set_fuel (Some (initial_fuel (engine_config e))) i
      else set_fuel None i).
Definition instantiate (e : Engine) (module : Module_) : outcome RuntimeError Instance_ :=
  instantiate_with_imports e module imports_new.

(** [Engine::execute] and [kpio_runtime::execute]. *)
Definition engine_execute (n : nat) (e : Engine) (wasm_bytes : list Z) (entry_point : string)
    (args : list WasmValue) : option (outcome RuntimeError (list WasmValue)) :=
  match (m ← load_module wasm_bytes; instantiate e m) with
  | Ok i => option_map fst (call_typed n entry_point args i)
  | Err err => Some (Err err)
  | Panic => Some Panic
  end.
Definition runtime_execute (n : nat) (wasm_bytes : list Z) (entry_point : string) (args : list Z)
    : option (outcome RuntimeError (list Z)) :=
  match (m ← from_bytes wasm_bytes; instance_new m) with
  | Ok i => option_map fst (instance_call n entry_point args i)
  | Err err => Some (Err err)
  | Panic => Some Panic
  end.
End instance.

(** ** Sorted maps *)

Lemma string_compare_refl s : String.compare s s = Eq.
Proof.
  pose proof (String.compare_antisym s s) as Hc. by destruct (String.compare s s).
Qed.

Lemma key_compare_eq a b : key_compare a b = Eq ↔ a = b.
Proof.
  unfold key_compare. destruct a as [a1 a2], b as [b1 b2]. simpl. split.
  - destruct (String.compare a1 b1) eqn:E1; try done. intros E2.
    by rewrite (String.compare_eq_iff _ _ E1), (String.compare_eq_iff _ _ E2).
  - intros [= -> ->]. by rewrite !string_compare_refl.
Qed.

Definition bt_lookup {A} (k : key) (m : list (key * A)) : option A :=
  option_map snd (List.find (λ b, bool_decide (b.1 = k)) m).

Lemma bt_lookup_insert {A} k k' (v : A) m :
  bt_lookup k' (bt_insert k v m) = if decide (k' = k) then Some v else bt_lookup k' m.
Proof.
  unfold bt_lookup. induction m as [|[k1 v1] m IH]; simpl.
  - case_bool_decide; case_decide; simpl; congruence.
  - destruct (key_compare k k1) eqn:Ec; simpl.
    + apply key_compare_eq in Ec as ->. case_bool_decide; case_decide; simpl; congruence.
    + case_bool_decide as Hk; [by rewrite decide_True by done|]. by rewrite decide_False by congruence.
    + case_bool_decide as Hk; simpl; [|done]. subst k'. rewrite decide_False; [done|].
      intros ->. rewrite (proj2 (key_compare_eq _ _)) in Ec; done.
Qed.

(** ** The host-side store *)

(** Only keys that were handed out are bound. *)
Record store_ok (s : Store) : Prop := {
  store_next : 0 ≤ next_key s < 2 ^ 64;
  store_keys : ∀ k, is_Some (store_data s !! k) → 0 ≤ k < next_key s
}.

(** ** Instances run on well-formed contexts *)

Section instances.
Context `{Embedding} `{!HostCalls} `{FloatEnv}.

(** The function an import name is bound to. *)
Definition resolve (i : Imports) (m n : string) : option HostFn :=
  option_map hf_func
    (List.find (λ hf, String.eqb (hf_module hf) m && String.eqb (hf_name hf) n)
       (to_exec_host_functions i)).

Lemma resolve_lookup i m n : resolve i m n = bt_lookup (m, n) (imp_functions i).
Proof.
  unfold resolve, to_exec_host_functions, bt_lookup. induction (imp_functions i) as [|[[m' n'] f] l IH]; [done|].
  simpl. destruct (String.eqb_spec m' m) as [->|Hm]; simpl.
  - destruct (String.eqb_spec n' n) as [->|Hn]; simpl.
    + by rewrite bool_decide_eq_true_2.
    + by rewrite bool_decide_eq_false_2 by congruence.
  - by rewrite bool_decide_eq_false_2 by congruence.
Qed.








(** ** Arguments and results as bytes *)

Lemma arg_of_le_bytes z : in_s 32 z → arg_of_chunk (to_le_bytes 4 (as_u32 z)) = I32 z.
Proof.
  intros Hz. unfold arg_of_chunk.
  change (resize (to_le_bytes 4 (as_u32 z)) 4 0) with (to_le_bytes 4 (as_u32 z)).
  rewrite from_to_le_bytes. change (256 ^ Z.of_nat 4) with (2 ^ 32).
  unfold as_i32, as_u32. change (wrap 32 z mod 2 ^ 32) with (wrap 32 (wrap 32 z)).
  rewrite !swrap_wrap. by rewrite swrap_id.
Qed.

Lemma chunks4_app (a b c d : Z) l : chunks4 ([a; b; c; d] ++ l) = [a; b; c; d] :: chunks4 l.
Proof. done. Qed.

Lemma decode_encode_args zs :
  Forall (in_s 32) zs → map arg_of_chunk (chunks4 (concat (map result_bytes (map I32 zs)))) = map I32 zs.
Proof.
  induction 1 as [|z zs Hz _ IH]; [done|]. simpl.
  change (map arg_of_chunk (?a :: ?l)) with (arg_of_chunk a :: map arg_of_chunk l).
  rewrite IH. f_equal. by apply arg_of_le_bytes.
Qed.

(** ** Properties *)


(** Import resolution.  After [Imports::add_function] the name resolves to
    the new function, also when it was bound before, and every other name
    resolves as before. *)
Theorem add_function_resolves i m n f m' n' :
  resolve (add_function m n f i) m' n' =
    if decide ((m', n') = (m, n)) then Some f else resolve i m' n'.
Proof. rewrite !resolve_lookup. apply bt_lookup_insert. Qed.

(** [Instance::call] decodes the argument bytes the way it encodes results:
    the bytes of a list of [i32]s are read back as these [i32]s, so the output
    of one call can be the input of another. *)
Theorem call_bytes_roundtrip zs :
  Forall (in_s 32) zs → map arg_of_chunk (chunks4 (concat (map result_bytes (map I32 zs)))) = map I32 zs.
Proof. apply decode_encode_args. Qed.
End instances.

(** The store hands out fresh keys: what is stored under the key it returns
    can be retrieved, the key was not bound before, other entries stay, and a
    removed entry is gone while its key is never handed out again. *)
Theorem store_correct_keys s bytes :
  store_ok s → next_key s + 1 < 2 ^ 64 →
  ∃ s', store_store bytes s = (Ok (next_key s), s') ∧ store_ok s' ∧
    store_get s (next_key s) = None ∧ store_get s' (next_key s) = Some bytes ∧
    (∀ k, k ≠ next_key s → store_get s' k = store_get s k) ∧
    (∀ k, let '(old, s'') := store_remove k s' in
       old = store_get s' k ∧ store_get s'' k = None ∧ store_ok s'' ∧ next_key s'' = next_key s').
Proof.
  intros [Hn Hk] Hb. exists (mkStore (<[next_key s := bytes]> (store_data s)) (next_key s + 1)).
  unfold store_store, mbind, M_bind, get, add_or_panic, unwrap, checked_add. 
  rewrite (proj2 (Z.ltb_lt _ _)) by lia.
  assert (Hok : ∀ k, is_Some (<[next_key s := bytes]> (store_data s) !! k) → 0 ≤ k < next_key s + 1).
  { intros k. destruct (decide (k = next_key s)) as [->|Hne]; [lia|].
    rewrite lookup_insert_ne by done. intros Hs%Hk. lia. }
  split_and!.
  - done.
  - split; simpl; [lia|done].
  - unfold store_get. destruct (store_data s !! next_key s) eqn:E; [|done].
    destruct (Hk (next_key s)); [by eexists|lia].
  - unfold store_get. simpl. by rewrite lookup_insert_eq.
  - intros k Hne. unfold store_get. simpl. by rewrite lookup_insert_ne.
  - intros k. simpl. split_and!; [done|apply lookup_delete_eq| |done].
    split; simpl; [lia|]. intros k' Hs. apply Hok.
    destruct (decide (k' = k)) as [->|]; [rewrite lookup_delete_eq in Hs; by destruct Hs|].
    by rewrite lookup_delete_ne in Hs.
Qed.

(** ** Witnesses *)

Section witnesses.
#[local] Existing Instance demo_embedding.
#[local] Existing Instance demo_host.
#[local] Existing Instance canonical_nan.

Definition demo_engine : Engine := mkEngine default_config true.


Lemma add_module_runs :
  engine_execute 10 demo_engine (enc_module add_module) "add" [I32 2; I32 3] = Some (Ok [I32 5]).
Proof. vm_compute. reflexivity. Qed.

Lemma call_bytes_roundtrip_witness :
  map arg_of_chunk (chunks4 [255; 255; 255; 255; 7; 0; 0; 0]) = [I32 (-1); I32 7].
Proof. apply (call_bytes_roundtrip [-1; 7]). ok_tac. Defined.

Lemma store_correct_keys_witness :
  ∃ s', store_store [1; 2] store_new = (Ok 0, s') ∧ store_get s' 0 = Some [1; 2].
Proof.
  destruct (store_correct_keys store_new [1; 2]) as (s' & H1 & _ & _ & H2 & _).
  - split; simpl; [lia|]. intros k [? Hs]. by rewrite lookup_empty in Hs.
  - done.
  - exists s'. split; [exact H1|exact H2].
Defined.
End witnesses.
