(* ===== verification/Ring.v ===== *)
(** * Ring buffers of the asynchronous I/O subsystem

    [src/kernel/src/io/ring.rs].  The submission and the completion ring have
    the same code over two entry types; [Ring A] is that code, with the head
    and tail as free-running 32-bit counters.  [Fifo] is what a ring promises:
    a queue of bounded length.  The refinement is stated for whole sequences
    of calls, so it covers any number of wrap-arounds of the counters. *)

From S2P Require Import Prelude.

(** ** The rings *)

Record Ring (A : Type) : Type := mkRing {
  entries : list A;
  head : Z;
  tail : Z;
  mask : Z;
}.
Arguments mkRing {A} _ _ _ _.
Arguments entries {A} _.
Arguments head {A} _.
Arguments tail {A} _.
Arguments mask {A} _.

(** [usize::next_power_of_two]: overflow of the result panics. *)
Definition next_power_of_two (n : Z) : option Z :=
  if n <=? 1 then Some 1
  else let p := 2 ^ (Z.log2 (n - 1) + 1) in if p <? 2 ^ 64 then Some p else None.

(** [u32::wrapping_sub] and [u32::wrapping_add]. *)
Definition wrapping_sub (a b : Z) : Z := as_u32 (a - b).
Definition wrapping_add (a b : Z) : Z := as_u32 (a + b).

Section ring.
Context {A E : Type}.

Definition ring_new (blank : A) (size : Z) : outcome E (Ring A) :=
  size ← ok_or_panic (next_power_of_two size);
  mret (mkRing (repeat blank (Z.to_nat size)) 0 0 (as_u32 (size - 1))).

Definition ring_is_full (r : Ring A) : bool := mask r <? wrapping_sub (tail r) (head r).
Definition ring_is_empty (r : Ring A) : bool := head r =? tail r.
Definition ring_len (r : Ring A) : Z := wrapping_sub (tail r) (head r).

Definition ring_capacity (r : Ring A) : outcome E Z :=
  if mask r + 1 <? 2 ^ 32 then Ok (mask r + 1) else Panic.

Definition ring_push (entry : A) : M (Ring A) E bool :=
  tl ← gets tail;
  hd ← gets head;
  m ← gets mask;
  if m <? wrapping_sub tl hd then mret false
  else
    let idx := Z.land tl m in
    es ← gets entries;
    _ ← unwrap (vget es idx);
    modify (λ r, mkRing (vset (entries r) idx entry) (head r) (tail r) (mask r));;
    modify (λ r, mkRing (entries r) (head r) (wrapping_add tl 1) (mask r));;
    mret true.

Definition ring_pop : M (Ring A) E (option A) :=
  hd ← gets head;
  tl ← gets tail;
  if hd =? tl then mret None
  else
    m ← gets mask;
    es ← gets entries;
    entry ← unwrap (vget es (Z.land hd m));
    modify (λ r, mkRing (entries r) (wrapping_add hd 1) (tail r) (mask r));;
    mret (Some entry).

Definition ring_peek (r : Ring A) : outcome E (option A) :=
  if head r =? tail r then Ok None
  else e ← ok_or_panic (vget (entries r) (Z.land (head r) (mask r))); mret (Some e).

End ring.

(** ** The contract: a queue of at most [cap] entries *)

Module Fifo.
Section fifo.
Context {A : Type} (cap : Z).

Definition push (x : A) (q : list A) : bool * list A :=
  if len q <? cap then (true, q ++ [x]) else (false, q).

Definition pop (q : list A) : option A * list A :=
  match q with [] => (None, []) | x :: q' => (Some x, q') end.

End fifo.
End Fifo.

(** ** Sequences of calls *)

Inductive ring_call (A : Type) : Type :=
| CPush (entry : A)
| CPop
| CPeek
| CIsEmpty
| CIsFull
| CLen
| CCapacity.
Arguments CPush {A} entry.
Arguments CPop {A}.
Arguments CPeek {A}.
Arguments CIsEmpty {A}.
Arguments CIsFull {A}.
Arguments CLen {A}.
Arguments CCapacity {A}.

Inductive answer (A : Type) : Type :=
| ABool (b : bool)
| AEntry (e : option A)
| ANum (n : Z).
Arguments ABool {A} b.
Arguments AEntry {A} e.
Arguments ANum {A} n.

Section calls.
Context {A E : Type}.

Definition ring_call_step (c : ring_call A) : M (Ring A) E (answer A) :=
  match c with
  | CPush e => b ← ring_push e; mret (ABool b)
  | CPop => x ← ring_pop; mret (AEntry x)
  | CPeek => r ← get; x ← lift (ring_peek r); mret (AEntry x)
  | CIsEmpty => b ← gets ring_is_empty; mret (ABool b)
  | CIsFull => b ← gets ring_is_full; mret (ABool b)
  | CLen => n ← gets ring_len; mret (ANum n)
  | CCapacity => r ← get; n ← lift (ring_capacity r); mret (ANum n)
  end.

Fixpoint ring_calls (cs : list (ring_call A)) : M (Ring A) E (list (answer A)) :=
  match cs with
  | [] => mret []
  | c :: cs => a ← ring_call_step c; l ← ring_calls cs; mret (a :: l)
  end.

Definition fifo_call_step (cap : Z) (c : ring_call A) (q : list A) : answer A * list A :=
  match c with
  | CPush e => let (b, q') := Fifo.push cap e q in (ABool b, q')
  | CPop => let (x, q') := Fifo.pop q in (AEntry x, q')
  | CPeek => (AEntry (Stdlib.Lists.List.hd_error q), q)
  | CIsEmpty => (ABool (len q =? 0), q)
  | CIsFull => (ABool (cap <=? len q), q)
  | CLen => (ANum (len q), q)
  | CCapacity => (ANum cap, q)
  end.

Fixpoint fifo_calls (cap : Z) (cs : list (ring_call A)) (q : list A) : list (answer A) :=
  match cs with
  | [] => []
  | c :: cs => let (a, q') := fifo_call_step cap c q in a :: fifo_calls cap cs q'
  end.

End calls.

(** ** The representation relation *)

(** A ring of capacity [2 ^ k] holds [q]: the counters differ by its length,
    and the slots from the head on hold its entries. *)
Record represents {A} (k : Z) (r : Ring A) (q : list A) : Prop := {
  rep_k : 0 ≤ k ≤ 31;
  rep_mask : mask r = Z.ones k;
  rep_slots : len (entries r) = 2 ^ k;
  rep_head : in_u 32 (head r);
  rep_tail : tail r = as_u32 (head r + len q);
  rep_len : len q ≤ 2 ^ k;
  rep_entries : ∀ i, 0 ≤ i < len q → vget (entries r) ((head r + i) mod 2 ^ k) = vget q i;
}.

Lemma next_power_of_two_spec n :
  0 ≤ n ≤ 2 ^ 31 →
  ∃ k, 0 ≤ k ≤ 31 ∧ next_power_of_two n = Some (2 ^ k) ∧ n ≤ 2 ^ k ∧ (2 ≤ n → 2 ^ k < 2 * n).
Proof.
  intros Hn. unfold next_power_of_two. destruct (Z.leb_spec n 1).
  - exists 0. split_and!; try done; lia.
  - pose proof (Z.log2_spec (n - 1) ltac:(lia)) as [Hlo Hhi].
    assert (Z.log2 (n - 1) < 31) by (apply Z.log2_lt_pow2; lia).
    pose proof (Z.log2_nonneg (n - 1)). rewrite <- Z.add_1_r in Hhi.
    assert (2 ^ (Z.log2 (n - 1) + 1) ≤ 2 ^ 31) by (apply Z.pow_le_mono_r; lia).
    exists (Z.log2 (n - 1) + 1). zcase; [|lia].
    rewrite (Z.pow_add_r 2 (Z.log2 (n - 1)) 1) in * by lia. split_and!; lia || done.
Qed.

Lemma next_power_of_two_log n k : 0 ≤ k → next_power_of_two n = Some (2 ^ k) → k = Z.log2_up n.
Proof.
  intros Hk. unfold next_power_of_two. destruct (Z.leb_spec n 1).
  - rewrite Z.log2_up_eqn0 by lia. intros [= H1]. apply (Z.pow_inj_r 2); done || lia.
  - rewrite Z.log2_up_eqn by lia. zcase; [|done]. intros [= H1]. apply (Z.pow_inj_r 2) in H1; try lia.
    + rewrite <- H1, Z.add_1_r. do 2 f_equal.
    + pose proof (Z.log2_nonneg (n - 1)). lia.
Qed.

Section refinement.
Context {A E : Type}.
Implicit Types (r : Ring A) (q : list A).

(** Modulo [2 ^ k] the wrap of the counters at [2 ^ 32] is invisible. *)
Lemma counter_slot k z : 0 ≤ k ≤ 31 → Z.land (as_u32 z) (Z.ones k) = z mod 2 ^ k.
Proof.
  intros. rewrite Z.land_ones by lia. unfold as_u32, wrap.
  apply Z.mod_mod_divide.
  exists (2 ^ (32 - k)). rewrite <- Z.pow_add_r by lia. f_equal. lia.
Qed.

Lemma represents_pow k r q : represents k r q → 0 < 2 ^ k ≤ 2 ^ 31.
Proof. intros [?]. split; [apply pow2_pos; lia|apply Z.pow_le_mono_r; lia]. Qed.

Lemma represents_head k r q : represents k r q → head r = as_u32 (head r).
Proof. intros H. symmetry. apply wrap_id, (rep_head _ _ _ H). Qed.

Lemma represents_ring_len k r q : represents k r q → ring_len r = len q.
Proof.
  intros H. pose proof (represents_pow _ _ _ H). destruct H as [_ _ _ Hh Ht Hl _].
  unfold ring_len, wrapping_sub, as_u32 in *. rewrite Ht. unfold wrap, in_u in *.
  rewrite Zminus_mod_idemp_l, Z.mod_small; pose proof (len_nonneg q); lia.
Qed.

Lemma represents_is_full k r q : represents k r q → ring_is_full r = (2 ^ k <=? len q).
Proof.
  intros H. pose proof (represents_pow _ _ _ H). unfold ring_is_full.
  change (wrapping_sub (tail r) (head r)) with (ring_len r).
  rewrite (represents_ring_len _ _ _ H), (rep_mask _ _ _ H), Z.ones_equiv.
  repeat zcase; done || lia.
Qed.

Lemma represents_is_empty k r q : represents k r q → ring_is_empty r = (len q =? 0).
Proof.
  intros H. pose proof (represents_pow _ _ _ H). pose proof (represents_ring_len _ _ _ H) as Hl.
  pose proof (represents_head _ _ _ H) as Hh. pose proof (rep_tail _ _ _ H) as Ht.
  unfold ring_is_empty, ring_len, wrapping_sub in *.
  repeat zcase; try done.
  - rewrite e, Z.sub_diag in Hl. by rewrite <- Hl in *.
  - rewrite e, Z.add_0_r, <- Hh in Ht. done.
Qed.

Lemma represents_slot k r q i x :
  represents k r q → vget q i = Some x → vget (entries r) (Z.land (as_u32 (head r + i)) (mask r)) = Some x.
Proof.
  intros H Hx. pose proof Hx as [Hi _]%vget_Some.
  rewrite (rep_mask _ _ _ H), counter_slot by apply (rep_k _ _ _ H).
  by rewrite (rep_entries _ _ _ H) by done.
Qed.

Lemma represents_front k r x q :
  represents k r (x :: q) → vget (entries r) (Z.land (head r) (mask r)) = Some x.
Proof.
  intros H. rewrite (represents_head _ _ _ H). rewrite <- (Z.add_0_r (head r)).
  apply (represents_slot _ _ _ _ _ H). by apply vget_Some.
Qed.

Lemma ring_new_represents (blank : A) n :
  0 ≤ n ≤ 2 ^ 31 →
  ∃ k r, ring_new (E:=E) blank n = Ok r ∧ next_power_of_two n = Some (2 ^ k) ∧ represents k r [].
Proof.
  intros Hn. destruct (next_power_of_two_spec n Hn) as (k & Hk & Hp & _).
  assert (0 < 2 ^ k ≤ 2 ^ 31) by (split; [apply pow2_pos; lia|apply Z.pow_le_mono_r; lia]).
  eexists k, _. unfold ring_new. rewrite Hp. split_and!; [done..|].
  split; simpl; [done| | |done|done|unfold len; simpl; lia|unfold len; simpl; lia].
  - unfold as_u32. rewrite Z.ones_equiv, wrap_id; [lia|unfold in_u; lia].
  - unfold len. rewrite repeat_length. lia.
Qed.

Lemma push_refines k r q (x : A) :
  represents k r q →
  ∃ r', ring_push (E:=E) x r = (Ok (Fifo.push (2 ^ k) x q).1, r') ∧
        represents k r' (Fifo.push (2 ^ k) x q).2.
Proof.
  intros H. pose proof (represents_pow _ _ _ H) as Hp. pose proof (represents_is_full _ _ _ H) as Hf.
  unfold ring_push, Fifo.push, ring_is_full in *. simpl. unfold gets, mbind, M_bind. simpl.
  rewrite Hf. destruct (Z.leb_spec (2 ^ k) (len q)).
  { exists r. zcase; [lia|]. done. }
  destruct (Z.ltb_spec (len q) (2 ^ k)); [|lia].
  pose proof (rep_mask _ _ _ H) as Hm. pose proof (rep_k _ _ _ H) as Hk.
  rewrite (rep_tail _ _ _ H), Hm, counter_slot by done.
  assert (0 ≤ (head r + len q) mod 2 ^ k < len (entries r)) as Hi.
  { rewrite (rep_slots _ _ _ H). apply Z.mod_pos_bound. lia. }
  destruct (vget_lt _ _ Hi) as [old Hold]. unfold unwrap. rewrite Hold. simpl.
  eexists. split; [done|].
  destruct H as [_ _ Hs Hh Ht Hl He]. split; simpl; try done.
  - by rewrite len_vset.
  - unfold wrapping_add, as_u32, wrap in *. rewrite len_app.
    rewrite Zplus_mod_idemp_l. f_equal. unfold len. simpl. lia.
  - rewrite len_app. unfold len at 2. simpl. lia.
  - intros i Hi'. rewrite len_app in Hi'. unfold len at 2 in Hi'. simpl in Hi'.
    rewrite vget_vset by (done || apply Z.mod_pos_bound; lia).
    destruct (decide (i = len q)) as [->|Hne].
    + by rewrite Z.eqb_refl, vget_snoc.
    + destruct (Z.eqb_spec ((head r + i) mod 2 ^ k) ((head r + len q) mod 2 ^ k)) as [Heq|_].
      * exfalso. apply (f_equal (λ z, (z - head r) mod 2 ^ k)) in Heq.
        rewrite !Zminus_mod_idemp_l in Heq.
        replace (head r + i - head r) with i in Heq by lia.
        replace (head r + len q - head r) with (len q) in Heq by lia.
        rewrite !Z.mod_small in Heq by (pose proof (len_nonneg q); lia). done.
      * by rewrite vget_app_l, He by lia.
Qed.

Lemma pop_refines k r q :
  represents k r q →
  ∃ r', ring_pop (E:=E) r = (Ok (Fifo.pop q).1, r') ∧ represents k r' (Fifo.pop q).2.
Proof.
  intros H. pose proof (represents_pow _ _ _ H) as Hp. pose proof (represents_is_empty _ _ _ H) as Hem.
  unfold ring_is_empty in Hem.
  unfold ring_pop, gets, mbind, M_bind. simpl. rewrite Hem. destruct q as [|x q]; [by exists r|].
  rewrite len_cons_eqb.
  rewrite (represents_front _ _ _ _ H). eexists. split; [done|].
  destruct H as [Hk Hm Hs Hh Ht Hl He]. split; simpl; try done.
  - unfold wrapping_add, as_u32. by apply wrap_range.
  - rewrite Ht, len_cons. unfold wrapping_add, as_u32, wrap. rewrite Zplus_mod_idemp_l. f_equal. lia.
  - rewrite len_cons in Hl. lia.
  - intros i Hi. rewrite len_cons in He. rewrite <- (vget_cons_S x q i), <- He by lia.
    unfold wrapping_add. rewrite <- (counter_slot k (as_u32 _ + i)), <- (counter_slot k (head r + _)) by done.
    f_equal. f_equal. unfold as_u32, wrap. rewrite Zplus_mod_idemp_l. f_equal. lia.
Qed.

Lemma call_refines k r q (c : ring_call A) :
  represents k r q →
  ∃ r', ring_call_step (E:=E) c r = (Ok (fifo_call_step (2 ^ k) c q).1, r') ∧
        represents k r' (fifo_call_step (2 ^ k) c q).2.
Proof.
  intros H. destruct c as [x| | | | | |]; simpl; unfold mbind, M_bind.
  - destruct (push_refines k r q x H) as (r' & -> & Hr). exists r'. by destruct (Fifo.push _ _ _).
  - destruct (pop_refines k r q H) as (r' & -> & Hr). exists r'. by destruct (Fifo.pop _).
  - exists r. split; [|done]. unfold get, lift, ring_peek. change (head r =? tail r) with (ring_is_empty r).
    rewrite (represents_is_empty _ _ _ H). destruct q as [|x q]; [done|].
    rewrite len_cons_eqb.
    by rewrite (represents_front _ _ _ _ H).
  - exists r. unfold gets. by rewrite (represents_is_empty _ _ _ H).
  - exists r. unfold gets. by rewrite (represents_is_full _ _ _ H).
  - exists r. unfold gets. by rewrite (represents_ring_len _ _ _ H).
  - exists r. pose proof (represents_pow _ _ _ H). unfold get, lift, ring_capacity.
    rewrite (rep_mask _ _ _ H), Z.ones_equiv, Z.add_pred_l, Z.add_1_r, Z.pred_succ. zcase; [done|lia].
Qed.

Lemma calls_refine k cs : ∀ r q,
  represents k r q →
  ∃ r', ring_calls (E:=E) cs r = (Ok (fifo_calls (2 ^ k) cs q), r').
Proof.
  induction cs as [|c cs IH]; intros r q H; [by exists r|].
  destruct (call_refines k r q c H) as (r1 & Hc & H1). simpl. unfold mbind, M_bind. rewrite Hc.
  destruct (fifo_call_step (2 ^ k) c q) as [a q']. destruct (IH _ _ H1) as (r2 & ->). by exists r2.
Qed.

End refinement.

(** C28. The rings of the asynchronous I/O subsystem are bounded queues: from a
    ring made for [n] entries, at most 2^31, any sequence of calls, however long, answers
    exactly as a first-in first-out queue of the next power of two of [n]
    does, and never panics. *)
Theorem ring_refines_fifo {A E} (blank : A) n (cs : list (ring_call A)) :
  0 ≤ n ≤ 2 ^ 31 →
  ∃ cap r r', next_power_of_two n = Some cap ∧ ring_new (E:=E) blank n = Ok r ∧
    ring_calls (E:=E) cs r = (Ok (fifo_calls cap cs []), r').
Proof.
  intros Hn. destruct (ring_new_represents (E:=E) blank n Hn) as (k & r & Hr & Hk & H).
  destruct (calls_refine (E:=E) k cs r [] H) as (r' & H'). by exists (2 ^ k), r, r'.
Qed.

Lemma ring_refines_fifo_witness :
  ∃ cap r r', next_power_of_two 3 = Some cap ∧ ring_new (E:=unit) 0 3 = Ok r ∧
    ring_calls (E:=unit) [CPush 7; CPush 8; CPop; CPeek; CLen; CIsFull; CCapacity] r =
      (Ok (fifo_calls cap [CPush 7; CPush 8; CPop; CPeek; CLen; CIsFull; CCapacity] []), r').
Proof. apply (ring_refines_fifo 0 3). lia. Defined.

(** A ring of [2 ^ 32] slots is never full: its mask is the largest counter
    value, and after [2 ^ 32] pushes it looks empty again. *)
Lemma ring_full_range_never_full {A} (r : Ring A) : mask r = U32_MAX → ring_is_full r = false.
Proof.
  intros Hm. unfold ring_is_full, wrapping_sub. rewrite Hm. apply Z.ltb_ge.
  pose proof (wrap_range 32 (tail r - head r) ltac:(lia)) as [_ ?]. unfold as_u32, U32_MAX. lia.
Qed.
