(* ===== verification/Io.v ===== *)
(** * Asynchronous I/O: operations, executor, contexts and subsystem

    [src/kernel/src/io/{operations,ring,executor,mod}.rs].  A process submits
    entries to the submission ring of its context; [IoSubsystem::process]
    drains the rings of all contexts, runs each operation on the executor and
    puts its completion on the ring of the context it came from.  The contexts
    are shared between the subsystem and the processes; here a process names
    its context by the position in the subsystem.  Statistics are atomic
    counters that wrap. *)

From S2P Require Import Prelude Ring.

(** ** Operations *)

Inductive OpCode : Type :=
  | Nop | Read | Write | Readv | Writev | Fsync | ReadFixed | WriteFixed | PollAdd
  | PollRemove | SyncFileRange | SendMsg | RecvMsg | Timeout | TimeoutRemove | Accept
  | AsyncCancel | LinkTimeout | Connect | Fallocate | Openat | Close | FilesUpdate | Statx
  | ReadBuf | ProvideBuffers | RemoveBuffers | Tee | Shutdown | Renameat | Unlinkat | Mkdirat
  | Symlinkat | Linkat | MsgRing | Fsetxattr | Setxattr | Fgetxattr | Getxattr | Socket
  | UringCmd | SendZc | SendMsgZc.

Inductive IoOpError : Type :=
  | OpPermissionDenied | OpNotFound | OpIoError | OpInvalidArgument | OpBadFd | OpBusy
  | OpExists | OpNotADirectory | OpIsADirectory | OpInvalidSeek | OpTooManyOpenFiles
  | OpNoSpace | OpReadOnly | OpWouldBlock | OpInterrupted | OpConnectionRefused
  | OpConnectionReset | OpNotConnected | OpAlreadyConnected | OpTimedOut | OpNotSupported
  | OpCancelled | OpUnknown (e : Z).

Definition to_errno (e : IoOpError) : Z :=
  match e with
  | OpPermissionDenied => 1
  | OpNotFound => 2
  | OpIoError => 5
  | OpInvalidArgument => 22
  | OpBadFd => 9
  | OpBusy => 16
  | OpExists => 17
  | OpNotADirectory => 20
  | OpIsADirectory => 21
  | OpInvalidSeek => 29
  | OpTooManyOpenFiles => 24
  | OpNoSpace => 28
  | OpReadOnly => 30
  | OpWouldBlock => 11
  | OpInterrupted => 4
  | OpConnectionRefused => 111
  | OpConnectionReset => 104
  | OpNotConnected => 107
  | OpAlreadyConnected => 106
  | OpTimedOut => 110
  | OpNotSupported => 95
  | OpCancelled => 125
  | OpUnknown e => e
  end.

Definition from_errno (errno : Z) : IoOpError :=
  if errno =? 1 then OpPermissionDenied
  else if errno =? 2 then OpNotFound
  else if errno =? 5 then OpIoError
  else if errno =? 22 then OpInvalidArgument
  else if errno =? 9 then OpBadFd
  else if errno =? 16 then OpBusy
  else if errno =? 17 then OpExists
  else if errno =? 20 then OpNotADirectory
  else if errno =? 21 then OpIsADirectory
  else if errno =? 29 then OpInvalidSeek
  else if errno =? 24 then OpTooManyOpenFiles
  else if errno =? 28 then OpNoSpace
  else if errno =? 30 then OpReadOnly
  else if errno =? 11 then OpWouldBlock
  else if errno =? 4 then OpInterrupted
  else if errno =? 111 then OpConnectionRefused
  else if errno =? 104 then OpConnectionReset
  else if errno =? 107 then OpNotConnected
  else if errno =? 106 then OpAlreadyConnected
  else if errno =? 110 then OpTimedOut
  else if errno =? 95 then OpNotSupported
  else if errno =? 125 then OpCancelled
  else OpUnknown errno.

Inductive IoResult : Type :=
| Bytes (n : Z)
| Fd (fd : Z)
| Success
| Error (e : IoOpError)
| Pending
| Cancelled.

Definition is_ok (r : IoResult) : bool :=
  match r with Bytes _ | Fd _ | Success => true | _ => false end.

(** [-(e.to_errno() as i64)]: the negation cannot overflow an [i64]. *)
Definition to_result_code (r : IoResult) : Z :=
  match r with
  | Bytes n => as_i64 n
  | Fd fd => fd
  | Success => 0
  | Error e => - to_errno e
  | Pending => 0
  | Cancelled => -125
  end.

(** ** Ring entries *)

Record SqEntry : Type := mkSqEntry {
  opcode : OpCode;
  sq_flags : Z;
  ioprio : Z;
  fd : Z;
  offset : Z;
  addr : Z;
  sq_len : Z;
  op_flags : Z;
  user_data : Z;
  buf_index : Z;
  personality : Z;
  splice_fd_in : Z;
  reserved : Z * Z;
}.

(** The constructors of [SqEntry] differ in the operation, the descriptor, the
    offset, the address, the length and the operation flags. *)
Definition sq_make (op : OpCode) (fd offset addr len op_flags user_data : Z) : SqEntry :=
  mkSqEntry op 0 0 fd offset addr len op_flags user_data 0 0 (-1) (0, 0).

Definition sq_new (op : OpCode) (fd ud : Z) : SqEntry := sq_make op fd 0 0 0 0 ud.
Definition sq_write (fd buf len offset ud : Z) : SqEntry := sq_make Write fd offset buf len 0 ud.
Definition sq_readv (fd iov iovlen offset ud : Z) : SqEntry := sq_make Readv fd offset iov iovlen 0 ud.
Definition sq_writev (fd iov iovlen offset ud : Z) : SqEntry := sq_make Writev fd offset iov iovlen 0 ud.
Definition sq_timeout (ts count ud : Z) : SqEntry := sq_make Timeout (-1) count ts 1 0 ud.
Definition sq_nop (ud : Z) : SqEntry := sq_new Nop (-1) ud.

Definition SQ_DRAIN : Z := 2.
Definition SQ_LINK : Z := 4.
Definition sq_or_flag (flag : Z) (e : SqEntry) : SqEntry :=
  mkSqEntry (opcode e) (Z.lor (sq_flags e) flag) (ioprio e) (fd e) (offset e) (addr e) (sq_len e)
    (op_flags e) (user_data e) (buf_index e) (personality e) (splice_fd_in e) (reserved e).
Definition set_link : SqEntry → SqEntry := sq_or_flag SQ_LINK.
Definition set_drain : SqEntry → SqEntry := sq_or_flag SQ_DRAIN.

Record CqEntry : Type := mkCqEntry {
  cq_user_data : Z;
  cq_result : Z;
  cq_flags : Z;
}.

Definition cq_new (ud result : Z) : CqEntry := mkCqEntry ud result 0.
Definition cq_success (ud value : Z) : CqEntry := cq_new ud value.
Definition cq_error (ud errno : Z) : CqEntry := cq_new ud (- errno).
Definition cq_is_error (e : CqEntry) : bool := cq_result e <? 0.
(** [-self.result] overflows for the smallest [i64]. *)
Definition cq_error_code {E} (e : CqEntry) : outcome E (option Z) :=
  if cq_result e <? 0 then
    if cq_result e =? - 2 ^ 63 then Panic else Ok (Some (as_i32 (- cq_result e)))
  else Ok None.

(** ** The executor *)

Record ExecutorStats : Type := mkExecutorStats {
  ops_processed : Z;
  ops_completed : Z;
  ops_failed : Z;
  ops_cancelled : Z;
  ex_bytes_read : Z;
  ex_bytes_written : Z;
}.

Inductive OpState : Type := Queued | Executing | Completed | Failed | OpStateCancelled.
#[export] Instance OpState_eq_dec : EqDecision OpState.
Proof. solve_decision. Defined.

Record PendingOp : Type := mkPendingOp { p_entry : SqEntry; submit_time : Z }.

Record InFlightOp : Type := mkInFlightOp {
  f_user_data : Z;
  f_opcode : OpCode;
  f_state : OpState;
  start_time : Z;
}.

Record RegisteredBuffer : Type := mkRegisteredBuffer { rb_addr : Z; rb_len : Z }.

Record IoExecutor : Type := mkIoExecutor {
  pending : list PendingOp;
  in_flight_ops : list InFlightOp;
  registered_files : list (option Z);
  registered_buffers : list RegisteredBuffer;
  ex_stats : ExecutorStats;
  initialized : bool;
}.

Definition executor_new : IoExecutor :=
  mkIoExecutor [] [] [] [] (mkExecutorStats 0 0 0 0 0 0) false.

Definition set_ex_stats (f : ExecutorStats → ExecutorStats) (x : IoExecutor) : IoExecutor :=
  mkIoExecutor (pending x) (in_flight_ops x) (registered_files x) (registered_buffers x)
    (f (ex_stats x)) (initialized x).
Definition set_pending (p : list PendingOp) (x : IoExecutor) : IoExecutor :=
  mkIoExecutor p (in_flight_ops x) (registered_files x) (registered_buffers x) (ex_stats x) (initialized x).
Definition set_in_flight (l : list InFlightOp) (x : IoExecutor) : IoExecutor :=
  mkIoExecutor (pending x) l (registered_files x) (registered_buffers x) (ex_stats x) (initialized x).
Definition set_files (l : list (option Z)) (x : IoExecutor) : IoExecutor :=
  mkIoExecutor (pending x) (in_flight_ops x) l (registered_buffers x) (ex_stats x) (initialized x).
Definition set_buffers (l : list RegisteredBuffer) (x : IoExecutor) : IoExecutor :=
  mkIoExecutor (pending x) (in_flight_ops x) (registered_files x) l (ex_stats x) (initialized x).

Definition bump (z : Z) : Z := as_u64 (z + 1).
Definition add_processed (s : ExecutorStats) : ExecutorStats :=
  mkExecutorStats (bump (ops_processed s)) (ops_completed s) (ops_failed s) (ops_cancelled s)
    (ex_bytes_read s) (ex_bytes_written s).
Definition add_completed (s : ExecutorStats) : ExecutorStats :=
  mkExecutorStats (ops_processed s) (bump (ops_completed s)) (ops_failed s) (ops_cancelled s)
    (ex_bytes_read s) (ex_bytes_written s).
Definition add_failed (s : ExecutorStats) : ExecutorStats :=
  mkExecutorStats (ops_processed s) (ops_completed s) (bump (ops_failed s)) (ops_cancelled s)
    (ex_bytes_read s) (ex_bytes_written s).
Definition add_cancelled (s : ExecutorStats) : ExecutorStats :=
  mkExecutorStats (ops_processed s) (ops_completed s) (ops_failed s) (bump (ops_cancelled s))
    (ex_bytes_read s) (ex_bytes_written s).
Definition add_bytes_read (n : Z) (s : ExecutorStats) : ExecutorStats :=
  mkExecutorStats (ops_processed s) (ops_completed s) (ops_failed s) (ops_cancelled s)
    (as_u64 (ex_bytes_read s + n)) (ex_bytes_written s).
Definition add_bytes_written (n : Z) (s : ExecutorStats) : ExecutorStats :=
  mkExecutorStats (ops_processed s) (ops_completed s) (ops_failed s) (ops_cancelled s)
    (ex_bytes_read s) (as_u64 (ex_bytes_written s + n)).

Section executor.
Context {E : Type}.
Implicit Types (sq : SqEntry).
Abbreviation ExecM := (M IoExecutor E).

Definition handle_nop (_ : SqEntry) : IoResult := Success.

Definition handle_read sq : ExecM IoResult :=
  if fd sq <? 0 then mret (Error OpBadFd)
  else if (addr sq =? 0) || (sq_len sq =? 0) then mret (Error OpInvalidArgument)
  else
    let bytes_read := sq_len sq in
    modify (set_ex_stats (add_bytes_read bytes_read));;
    mret (Bytes bytes_read).

Definition handle_write sq : ExecM IoResult :=
  if fd sq <? 0 then mret (Error OpBadFd)
  else if (addr sq =? 0) || (sq_len sq =? 0) then mret (Error OpInvalidArgument)
  else
    let bytes_written := sq_len sq in
    modify (set_ex_stats (add_bytes_written bytes_written));;
    mret (Bytes bytes_written).

(** [sq.len as usize * 4096] is below [2 ^ 44]. *)
Definition handle_readv sq : ExecM IoResult :=
  if fd sq <? 0 then mret (Error OpBadFd)
  else if (addr sq =? 0) || (sq_len sq =? 0) then mret (Error OpInvalidArgument)
  else
    let total_bytes := sq_len sq * 4096 in
    modify (set_ex_stats (add_bytes_read total_bytes));;
    mret (Bytes total_bytes).

Definition handle_writev sq : ExecM IoResult :=
  if fd sq <? 0 then mret (Error OpBadFd)
  else if (addr sq =? 0) || (sq_len sq =? 0) then mret (Error OpInvalidArgument)
  else
    let total_bytes := sq_len sq * 4096 in
    modify (set_ex_stats (add_bytes_written total_bytes));;
    mret (Bytes total_bytes).

Definition handle_fsync sq : IoResult := if fd sq <? 0 then Error OpBadFd else Success.
Definition handle_poll_add sq : IoResult := if fd sq <? 0 then Error OpBadFd else Pending.
Definition handle_timeout (_ : SqEntry) : IoResult := Pending.
Definition handle_close sq : IoResult := if fd sq <? 0 then Error OpBadFd else Success.
Definition handle_accept sq : IoResult := if fd sq <? 0 then Error OpBadFd else Pending.
Definition handle_connect sq : IoResult := if fd sq <? 0 then Error OpBadFd else Pending.

Definition handle_sendmsg sq : ExecM IoResult :=
  if fd sq <? 0 then mret (Error OpBadFd)
  else
    let bytes := sq_len sq in
    modify (set_ex_stats (add_bytes_written bytes));;
    mret (Bytes bytes).

Definition handle_recvmsg sq : IoResult := if fd sq <? 0 then Error OpBadFd else Pending.

Definition executor_process sq : ExecM (option CqEntry) :=
  modify (set_ex_stats add_processed);;
  result ←
    match opcode sq with
    | Nop => mret (handle_nop sq)
    | Read => handle_read sq
    | Write => handle_write sq
    | Readv => handle_readv sq
    | Writev => handle_writev sq
    | Fsync => mret (handle_fsync sq)
    | PollAdd => mret (handle_poll_add sq)
    | Timeout => mret (handle_timeout sq)
    | Close => mret (handle_close sq)
    | Accept => mret (handle_accept sq)
    | Connect => mret (handle_connect sq)
    | SendMsg => handle_sendmsg sq
    | RecvMsg => mret (handle_recvmsg sq)
    | _ => mret (Error OpNotSupported)
    end;
  match result with
  | Pending => mret None
  | _ =>
      modify (set_ex_stats (if is_ok result then add_completed else add_failed));;
      mret (Some (cq_new (user_data sq) (to_result_code result)))
  end.

Definition register_files (fds : list Z) : ExecM unit :=
  modify (set_files (map (λ f, if 0 <=? f then Some f else None) fds)).
Definition unregister_files : ExecM unit := modify (set_files []).
Definition register_buffers (bufs : list (Z * Z)) : ExecM unit :=
  modify (set_buffers (map (λ '(a, n), mkRegisteredBuffer a n) bufs)).
Definition unregister_buffers : ExecM unit := modify (set_buffers []).
Definition get_registered_file (x : IoExecutor) (index : Z) : option Z := mjoin (vget (registered_files x) index).
Definition get_registered_buffer (x : IoExecutor) (index : Z) : option (Z * Z) :=
  (λ b, (rb_addr b, rb_len b)) <$> vget (registered_buffers x) index.

(** [cancel] marks the first queued operation with the user data. *)
Fixpoint cancel_go (ud : Z) (l : list InFlightOp) : option (list InFlightOp) :=
  match l with
  | [] => None
  | op :: l =>
      if (f_user_data op =? ud) && bool_decide (f_state op = Queued)
      then Some (mkInFlightOp (f_user_data op) (f_opcode op) OpStateCancelled (start_time op) :: l)
      else cons op <$> cancel_go ud l
  end.

Definition cancel (ud : Z) : ExecM bool :=
  ops ← gets in_flight_ops;
  match cancel_go ud ops with
  | Some ops' => modify (set_in_flight ops');; modify (set_ex_stats add_cancelled);; mret true
  | None => mret false
  end.

Definition live_op (op : InFlightOp) : Prop :=
  f_state op ≠ Completed ∧ f_state op ≠ Failed ∧ f_state op ≠ OpStateCancelled.
#[global] Instance live_op_dec op : Decision (live_op op).
Proof. unfold live_op. apply _. Defined.

(** The loop of [tick] pops [pending] from the front until it is empty;
    processing does not add to it. *)
Fixpoint tick_pending (ps : list PendingOp) : ExecM (list CqEntry) :=
  match ps with
  | [] => modify (set_pending []);; mret []
  | p :: ps =>
      modify (set_pending ps);;
      c ← executor_process (p_entry p);
      rest ← tick_pending ps;
      mret (match c with Some cq => cq :: rest | None => rest end)
  end.

Definition tick : ExecM (list CqEntry) :=
  ps ← gets pending;
  completions ← tick_pending ps;
  ops ← gets in_flight_ops;
  modify (set_in_flight (filter live_op ops));;
  mret completions.

End executor.

(** ** The work queue of the background workers *)

Record WorkItem : Type := mkWorkItem { w_ctx_id : Z; w_entry : SqEntry }.
Record IoWorkQueue : Type := mkIoWorkQueue { items : list WorkItem; worker_count : Z }.

Definition work_queue_new (workers : Z) : IoWorkQueue := mkIoWorkQueue [] workers.
Definition work_submit (ctx : Z) (entry : SqEntry) (q : IoWorkQueue) : IoWorkQueue :=
  mkIoWorkQueue (items q ++ [mkWorkItem ctx entry]) (worker_count q).
Definition work_pop (q : IoWorkQueue) : option (Z * SqEntry) * IoWorkQueue :=
  match items q with
  | [] => (None, q)
  | w :: l => (Some (w_ctx_id w, w_entry w), mkIoWorkQueue l (worker_count q))
  end.
Definition work_len (q : IoWorkQueue) : Z := len (items q).

Record IoWorker : Type := mkIoWorker { worker_id : Z; running : bool }.
Definition worker_new (id : Z) : IoWorker := mkIoWorker id false.
Definition worker_start (w : IoWorker) : IoWorker := mkIoWorker (worker_id w) true.
Definition worker_stop (w : IoWorker) : IoWorker := mkIoWorker (worker_id w) false.

(** ** Contexts *)

Record IoStats : Type := mkIoStats {
  submissions : Z;
  completions : Z;
  in_flight : Z;
  bytes_read : Z;
  bytes_written : Z;
  sq_overflows : Z;
  cq_overflows : Z;
}.

Record IoContext : Type := mkIoContext {
  submission : Ring SqEntry;
  completion : Ring CqEntry;
  ctx_id : Z;
  ctx_stats : IoStats;
}.

Inductive IoError : Type :=
| RingFull | InvalidFd | InvalidBuffer | NotSupported | CancelledError | IoErrorCode (e : Z) | Busy | TimeoutError.

Definition set_stats (f : IoStats → IoStats) (c : IoContext) : IoContext :=
  mkIoContext (submission c) (completion c) (ctx_id c) (f (ctx_stats c)).
Definition set_submission (r : Ring SqEntry) (c : IoContext) : IoContext :=
  mkIoContext r (completion c) (ctx_id c) (ctx_stats c).
Definition set_completion (r : Ring CqEntry) (c : IoContext) : IoContext :=
  mkIoContext (submission c) r (ctx_id c) (ctx_stats c).

Definition note_submit (s : IoStats) : IoStats :=
  mkIoStats (bump (submissions s)) (completions s) (as_u32 (in_flight s + 1)) (bytes_read s)
    (bytes_written s) (sq_overflows s) (cq_overflows s).
Definition note_sq_overflow (s : IoStats) : IoStats :=
  mkIoStats (submissions s) (completions s) (in_flight s) (bytes_read s) (bytes_written s)
    (bump (sq_overflows s)) (cq_overflows s).
Definition note_completion (s : IoStats) : IoStats :=
  mkIoStats (submissions s) (bump (completions s)) (as_u32 (in_flight s - 1)) (bytes_read s)
    (bytes_written s) (sq_overflows s) (cq_overflows s).
Definition note_cq_overflow (s : IoStats) : IoStats :=
  mkIoStats (submissions s) (completions s) (in_flight s) (bytes_read s) (bytes_written s)
    (sq_overflows s) (bump (cq_overflows s)).

Abbreviation CtxM := (M IoContext IoError).

Definition sq_ring_new : Z → outcome IoError (Ring SqEntry) := ring_new (sq_nop 0).
Definition cq_ring_new : Z → outcome IoError (Ring CqEntry) := ring_new (cq_new 0 0).

(** [NEXT_ID] is a counter of the whole program. *)
Definition context_new (next_id ring_size : Z) : outcome IoError (IoContext * Z) :=
  s ← sq_ring_new ring_size;
  c ← cq_ring_new ring_size;
  mret (mkIoContext s c next_id (mkIoStats 0 0 0 0 0 0 0), bump next_id).

Definition submit (entry : SqEntry) : CtxM unit :=
  full ← gets (λ c, ring_is_full (submission c));
  if (full : bool) then modify (set_stats note_sq_overflow);; throw RingFull
  else
    _ ← zoom submission set_submission (ring_push entry);
    modify (set_stats note_submit).

Definition poll_completion : CtxM (option CqEntry) :=
  entry ← zoom completion set_completion ring_pop;
  match entry with
  | None => mret None
  | Some e => modify (set_stats note_completion);; mret (Some e)
  end.

Fixpoint poll_completions (max : nat) : CtxM (list CqEntry) :=
  match max with
  | O => mret []
  | S max =>
      e ← poll_completion;
      match e with
      | Some e => rest ← poll_completions max; mret (e :: rest)
      | None => mret []
      end
  end.

Definition wait_completion : CtxM (option CqEntry) := poll_completion.

Definition submit_and_wait : CtxM (list CqEntry) :=
  pending ← gets (λ c, in_flight (ctx_stats c));
  poll_completions (Z.to_nat pending).

Definition complete (entry : CqEntry) : CtxM unit :=
  full ← gets (λ c, ring_is_full (completion c));
  if (full : bool) then modify (set_stats note_cq_overflow);; throw RingFull
  else
    _ ← zoom completion set_completion (ring_push entry);
    mret tt.

(** The loop pops until the ring is empty; [fuel] bounds the pops and
    [drain_refines] shows that it is never what ends them. *)
Fixpoint drain_go (fuel : nat) : CtxM (list SqEntry) :=
  match fuel with
  | O => panic
  | S fuel =>
      e ← zoom submission set_submission ring_pop;
      match e with
      | Some e => rest ← drain_go fuel; mret (e :: rest)
      | None => mret []
      end
  end.

Definition drain_submissions : CtxM (list SqEntry) :=
  n ← gets (λ c, ring_len (submission c));
  drain_go (S (Z.to_nat n)).

(** ** The subsystem *)

Record IoSubsystem : Type := mkIoSubsystem {
  contexts : list IoContext;
  executor : IoExecutor;
  next_id : Z;
}.

Definition set_contexts (cs : list IoContext) (s : IoSubsystem) : IoSubsystem :=
  mkIoSubsystem cs (executor s) (next_id s).
Definition set_executor (x : IoExecutor) (s : IoSubsystem) : IoSubsystem :=
  mkIoSubsystem (contexts s) x (next_id s).

Definition subsystem_new : IoSubsystem :=
  mkIoSubsystem [] (mkIoExecutor [] [] [] [] (mkExecutorStats 0 0 0 0 0 0) true) 1.

Abbreviation SubM := (M IoSubsystem IoError).

Definition create_context (ring_size : Z) : SubM nat :=
  s ← get;
  '(c, next) ← lift (context_new (next_id s) ring_size);
  modify (λ s, mkIoSubsystem (contexts s ++ [c]) (executor s) next);;
  mret (length (contexts s)).

(** An operation of the process that holds context [i]. *)
Definition on_context {A} (i : nat) (m : CtxM A) : SubM A :=
  s ← get;
  match contexts s !! i with
  | None => panic
  | Some c => let (r, c') := m c in put (set_contexts (<[i := c']> (contexts s)) s);; lift r
  end.

(** [let _ = ...]: an error is dropped, a panic is not. *)
Definition ignore {S E A} (m : M S E A) : M S E unit := λ s,
  match m s with
  | (Panic, s') => (Panic, s')
  | (_, s') => (Ok tt, s')
  end.

(** The first loop of [process]: the drained entries with their contexts. *)
Fixpoint drain_all (cs : list IoContext) : outcome IoError (list (Z * SqEntry) * list IoContext) :=
  match cs with
  | [] => mret ([], [])
  | c :: cs =>
      match drain_submissions c with
      | (Ok sqs, c') =>
          '(rest, cs') ← drain_all cs;
          mret (map (pair (ctx_id c')) sqs ++ rest, c' :: cs')
      | (Err e, _) => Err e
      | (Panic, _) => Panic
      end
  end.

(** The inner loop: complete on the first context with the identifier. *)
Fixpoint complete_on (id : Z) (cq : CqEntry) (cs : list IoContext) : outcome IoError (list IoContext) :=
  match cs with
  | [] => mret []
  | c :: cs =>
      if ctx_id c =? id then
        match ignore (complete cq) c with
        | (Ok _, c') => mret (c' :: cs)
        | (Err e, _) => Err e
        | (Panic, _) => Panic
        end
      else cs' ← complete_on id cq cs; mret (c :: cs')
  end.

Definition process_one (p : Z * SqEntry) : SubM unit :=
  cq ← zoom executor set_executor (executor_process p.2);
  match cq with
  | None => mret tt
  | Some cq =>
      cs ← gets contexts;
      cs' ← lift (complete_on p.1 cq cs);
      modify (set_contexts cs')
  end.

Definition process : SubM unit :=
  cs ← gets contexts;
  '(all, cs') ← lift (drain_all cs);
  modify (set_contexts cs');;
  iter_m process_one all.

(** ** What the parts promise

    A context is two bounded queues with the same capacity; [ctx_view] is its
    abstract state and the [v_] functions are its operations. *)

Record ctx_view : Type := mkView {
  v_k : Z;
  v_id : Z;
  v_sq : list SqEntry;
  v_cq : list CqEntry;
  v_stats : IoStats;
}.

Definition v_cap (v : ctx_view) : Z := 2 ^ v_k v.
Definition v_set_sq (l : list SqEntry) (v : ctx_view) : ctx_view :=
  mkView (v_k v) (v_id v) l (v_cq v) (v_stats v).

(** The completion of an operation: none while it is pending. *)
Definition op_result (sq : SqEntry) : IoResult :=
  let transfer n :=
    if fd sq <? 0 then Error OpBadFd
    else if (addr sq =? 0) || (sq_len sq =? 0) then Error OpInvalidArgument else Bytes n in
  let checked r := if fd sq <? 0 then Error OpBadFd else r in
  match opcode sq with
  | Nop => Success
  | Read | Write => transfer (sq_len sq)
  | Readv | Writev => transfer (sq_len sq * 4096)
  | Fsync | Close => checked Success
  | SendMsg => checked (Bytes (sq_len sq))
  | PollAdd | Accept | Connect | RecvMsg => checked Pending
  | Timeout => Pending
  | _ => Error OpNotSupported
  end.

Definition respond (sq : SqEntry) : option CqEntry :=
  match op_result sq with
  | Pending => None
  | r => Some (cq_new (user_data sq) (to_result_code r))
  end.

Definition v_submit (e : SqEntry) (v : ctx_view) : outcome IoError unit * ctx_view :=
  if len (v_sq v) <? v_cap v
  then (Ok tt, mkView (v_k v) (v_id v) (v_sq v ++ [e]) (v_cq v) (note_submit (v_stats v)))
  else (Err RingFull, mkView (v_k v) (v_id v) (v_sq v) (v_cq v) (note_sq_overflow (v_stats v))).

Definition v_poll (v : ctx_view) : option CqEntry * ctx_view :=
  match v_cq v with
  | [] => (None, v)
  | e :: l => (Some e, mkView (v_k v) (v_id v) (v_sq v) l (note_completion (v_stats v)))
  end.

Definition v_complete (e : CqEntry) (v : ctx_view) : ctx_view :=
  if len (v_cq v) <? v_cap v
  then mkView (v_k v) (v_id v) (v_sq v) (v_cq v ++ [e]) (v_stats v)
  else mkView (v_k v) (v_id v) (v_sq v) (v_cq v) (note_cq_overflow (v_stats v)).

Definition v_completes (es : list CqEntry) (v : ctx_view) : ctx_view :=
  fold_left (λ v e, v_complete e v) es v.

Definition v_process (v : ctx_view) : ctx_view :=
  v_completes (omap respond (v_sq v)) (v_set_sq [] v).

Record ctx_rep (c : IoContext) (v : ctx_view) : Prop := {
  rep_sq : represents (v_k v) (submission c) (v_sq v);
  rep_cq : represents (v_k v) (completion c) (v_cq v);
  rep_id : ctx_id c = v_id v;
  rep_stats : ctx_stats c = v_stats v;
}.

Definition sub_rep (s : IoSubsystem) (vs : list ctx_view) : Prop :=
  Forall2 ctx_rep (contexts s) vs ∧ NoDup (v_id <$> vs).

(** The entries of a tagged list that belong to one context. *)
Definition own (id : Z) (all : list (Z * SqEntry)) : list SqEntry := (filter (λ p, p.1 = id) all).*2.

Definition v_answer (all : list (Z * SqEntry)) (v : ctx_view) : ctx_view :=
  v_completes (omap respond (own (v_id v) all)) v.

(** ** Each operation on one context *)



Lemma complete_refines e c v :
  ctx_rep c v → ∃ c', ignore (complete e) c = (Ok tt, c') ∧ ctx_rep c' (v_complete e v).
Proof.
  intros [Hs Hc Hi Ht]. unfold ignore, complete, v_complete, v_cap, mbind, M_bind, gets, zoom. simpl.
  rewrite (represents_is_full _ _ _ Hc).
  destruct (Z.leb_spec (2 ^ v_k v) (len (v_cq v))), (Z.ltb_spec (len (v_cq v)) (2 ^ v_k v)); try lia.
  - eexists. split; [done|]. split; simpl; done || congruence.
  - destruct (push_refines (E:=IoError) _ _ _ e Hc) as (r' & -> & Hr). unfold Fifo.push in *.
    destruct (Z.ltb_spec (len (v_cq v)) (2 ^ v_k v)); [|lia].
    eexists. split; [done|]. split; simpl; done || congruence.
Qed.

Lemma drain_go_refines n : ∀ c v,
  ctx_rep c v → (length (v_sq v) < n)%nat →
  ∃ c', drain_go n c = (Ok (v_sq v), c') ∧ ctx_rep c' (v_set_sq [] v).
Proof.
  induction n as [|n IH]; intros c v [Hs Hc Hi Ht] Hn; [lia|]. simpl. unfold mbind, M_bind, zoom. simpl.
  destruct (pop_refines (E:=IoError) _ _ _ Hs) as (r' & -> & Hr).
  destruct (v_sq v) as [|e l] eqn:Hl; simpl in *.
  - eexists. split; [done|]. by split.
  - destruct (IH (set_submission r' c) (v_set_sq l v)) as (c' & Hd & Hrep); [by split|simpl; lia|].
    rewrite Hd. eexists. by split.
Qed.

Lemma drain_refines c v :
  ctx_rep c v → ∃ c', drain_submissions c = (Ok (v_sq v), c') ∧ ctx_rep c' (v_set_sq [] v).
Proof.
  intros H. unfold drain_submissions, mbind, M_bind, gets.
  rewrite (represents_ring_len _ _ _ (rep_sq _ _ H)). apply drain_go_refines; [done|]. unfold len. lia.
Qed.

(** ** The subsystem *)

Lemma executor_respond {E} sq x :
  ∃ x', executor_process (E:=E) sq x = (Ok (respond sq), x').
Proof.
  unfold respond, op_result. destruct sq as [op ? ? f ? a l ? ? ? ? ? ?].
  destruct op; simpl; unfold executor_process, mbind, M_bind; simpl;
    unfold handle_read, handle_write, handle_readv, handle_writev, handle_sendmsg,
      handle_fsync, handle_poll_add, handle_close, handle_accept, handle_connect, handle_recvmsg; simpl;
    destruct (f <? 0); simpl; try (by eexists); destruct ((a =? 0) || (l =? 0)); by eexists.
Qed.

Lemma v_complete_id e v : v_id (v_complete e v) = v_id v.
Proof. unfold v_complete. by case_match. Qed.

Lemma v_completes_id es v : v_id (v_completes es v) = v_id v.
Proof. revert v. induction es as [|e es IH]; intros v; [done|]. simpl. by rewrite IH, v_complete_id. Qed.

Lemma complete_on_refines id cq cs vs :
  Forall2 ctx_rep cs vs → NoDup (v_id <$> vs) →
  ∃ cs', complete_on id cq cs = Ok cs' ∧
    Forall2 ctx_rep cs' ((λ v, if decide (v_id v = id) then v_complete cq v else v) <$> vs).
Proof.
  induction 1 as [|c v cs vs Hc Hcs IH]; intros Hnd; [by exists []|].
  apply NoDup_cons in Hnd as [Hnin Hnd]. simpl. rewrite (rep_id _ _ Hc).
  destruct (Z.eqb_spec (v_id v) id) as [Heq|Hne]; [rewrite decide_True by done|rewrite decide_False by done].
  - destruct (complete_refines cq c v Hc) as (c' & -> & Hc'). eexists. split; [done|]. constructor; [done|].
    clear IH. induction Hcs as [|c2 v2 cs vs H2 _ IH]; [constructor|].
    apply not_elem_of_cons in Hnin as [? ?]. apply NoDup_cons in Hnd as [_ ?]. simpl.
    rewrite decide_False by congruence. constructor; auto.
  - destruct (IH Hnd) as (cs' & -> & Hcs'). eexists. split; [done|]. by constructor.
Qed.

Lemma process_one_refines p s vs :
  sub_rep s vs → ∃ s', process_one p s = (Ok tt, s') ∧ sub_rep s' (v_answer [p] <$> vs).
Proof.
  intros [Hr Hnd]. destruct p as [id sq]. unfold process_one, mbind, M_bind, zoom. simpl.
  destruct (executor_respond (E:=IoError) sq (executor s)) as (x' & ->).
  assert (∀ v, v_answer [(id, sq)] v =
    match respond sq with
    | Some cq => if decide (v_id v = id) then v_complete cq v else v
    | None => v
    end) as Hans.
  { intros v. unfold v_answer, own. rewrite filter_cons, filter_nil. simpl.
    destruct (decide (id = v_id v)), (decide (v_id v = id)); try congruence; simpl;
      by destruct (respond sq). }
  assert (NoDup (v_id <$> (v_answer [(id, sq)] <$> vs))) as Hnd'.
  { rewrite <- list_fmap_compose. erewrite list_fmap_ext; [done|]. intros i v _. apply v_completes_id. }
  rewrite (list_fmap_ext _ _ vs (λ i v _, Hans v)) in *.
  destruct (respond sq) as [cq|]; simpl.
  - destruct (complete_on_refines id cq (contexts s) vs Hr Hnd) as (cs' & -> & Hcs'). eexists. by split.
  - eexists. split; [done|]. split; [|done]. by rewrite list_fmap_id.
Qed.

Lemma own_app id l k : own id (l ++ k) = own id l ++ own id k.
Proof. unfold own. by rewrite filter_app, fmap_app. Qed.

Lemma v_completes_app es1 es2 v : v_completes (es1 ++ es2) v = v_completes es2 (v_completes es1 v).
Proof. apply fold_left_app. Qed.

Lemma v_answer_cons p all v : v_answer (p :: all) v = v_answer all (v_answer [p] v).
Proof.
  unfold v_answer. rewrite v_completes_id. change (p :: all) with ([p] ++ all).
  by rewrite own_app, omap_app, v_completes_app.
Qed.

Lemma process_all_refines all : ∀ s vs,
  sub_rep s vs → ∃ s', iter_m process_one all s = (Ok tt, s') ∧ sub_rep s' (v_answer all <$> vs).
Proof.
  induction all as [|p all IH]; intros s vs Hs.
  - exists s. split; [done|]. by rewrite list_fmap_id.
  - destruct (process_one_refines p s vs Hs) as (s1 & H1 & Hs1). simpl. unfold mbind, M_bind. rewrite H1.
    destruct (IH _ _ Hs1) as (s2 & H2 & Hs2). exists s2. split; [done|].
    rewrite <- list_fmap_compose in Hs2. erewrite list_fmap_ext; [done|].
    intros i v _. apply v_answer_cons.
Qed.

Definition tagged (vs : list ctx_view) : list (Z * SqEntry) :=
  concat ((λ v, map (pair (v_id v)) (v_sq v)) <$> vs).

Lemma drain_all_refines cs vs :
  Forall2 ctx_rep cs vs →
  ∃ cs', drain_all cs = Ok (tagged vs, cs') ∧ Forall2 ctx_rep cs' (v_set_sq [] <$> vs).
Proof.
  induction 1 as [|c v cs vs Hc Hcs (cs' & Hd & IH)]; [by exists []|]. simpl.
  destruct (drain_refines c v Hc) as (c' & -> & Hc'). rewrite Hd. simpl.
  rewrite (rep_id _ _ Hc'). eexists. split; [done|]. by constructor.
Qed.

Lemma own_tag_same id sqs : own id (map (pair id) sqs) = sqs.
Proof.
  unfold own. induction sqs as [|q sqs IH]; [done|]. simpl. rewrite filter_cons_True by done. by f_equal/=.
Qed.

Lemma own_tag_other id id' sqs : id' ≠ id → own id (map (pair id') sqs) = [].
Proof. intros Hne. unfold own. induction sqs as [|q sqs IH]; [done|]. simpl. by rewrite filter_cons_False. Qed.

Lemma tagged_cons v vs : tagged (v :: vs) = map (pair (v_id v)) (v_sq v) ++ tagged vs.
Proof. done. Qed.

Lemma own_tagged_none id vs : id ∉ v_id <$> vs → own id (tagged vs) = [].
Proof.
  induction vs as [|v vs IH]; [done|]. rewrite fmap_cons, tagged_cons, own_app.
  intros [? ?]%not_elem_of_cons. by rewrite own_tag_other, IH by done.
Qed.

Lemma own_tagged vs v : NoDup (v_id <$> vs) → v ∈ vs → own (v_id v) (tagged vs) = v_sq v.
Proof.
  induction vs as [|w vs IH]; [by intros _ ?%not_elem_of_nil|].
  rewrite fmap_cons, tagged_cons, own_app. intros [Hn Hnd]%NoDup_cons [->|Hin]%elem_of_cons.
  - by rewrite own_tag_same, own_tagged_none, app_nil_r.
  - rewrite own_tag_other; [by apply IH|]. intros Heq. apply Hn. rewrite Heq. by apply list_elem_of_fmap_2.
Qed.

Lemma process_refines s vs :
  sub_rep s vs → ∃ s', process s = (Ok tt, s') ∧ sub_rep s' (v_process <$> vs).
Proof.
  intros [Hr Hnd]. unfold process, mbind, M_bind, gets, lift. simpl.
  destruct (drain_all_refines _ _ Hr) as (cs' & -> & Hcs'). simpl.
  destruct (process_all_refines (tagged vs) (set_contexts cs' s) (v_set_sq [] <$> vs)) as (s' & Hs' & Hrep).
  { split; [done|]. by rewrite <- list_fmap_compose. }
  exists s'. split; [done|]. rewrite <- list_fmap_compose in Hrep. erewrite list_fmap_ext; [done|].
  intros i v Hv%list_elem_of_lookup_2. unfold compose, v_answer, v_process. simpl. by rewrite own_tagged.
Qed.

(** ** What processing delivers *)

(** The completion queue after the deliveries: what fits, in order; the rest
    is only counted. *)
Lemma v_completes_spec es : ∀ v,
  len (v_cq v) ≤ v_cap v →
  v_cq (v_completes es v) = take (Z.to_nat (v_cap v)) (v_cq v ++ es) ∧
  v_sq (v_completes es v) = v_sq v ∧
  in_flight (v_stats (v_completes es v)) = in_flight (v_stats v) ∧
  (0 ≤ cq_overflows (v_stats v) < 2 ^ 64 →
   cq_overflows (v_stats (v_completes es v)) =
     as_u64 (cq_overflows (v_stats v) + Z.max 0 (len (v_cq v) + len es - v_cap v))).
Proof.
  induction es as [|e es IH]; intros v Hv; simpl.
  - split_and!; try done.
    + rewrite app_nil_r, take_ge; [done|]. unfold len in Hv. lia.
    + intros ?. unfold as_u64. change (len []) with 0. rewrite wrap_id; unfold in_u; lia.
  - unfold v_complete. destruct (Z.ltb_spec (len (v_cq v)) (v_cap v)).
    + destruct (IH (mkView (v_k v) (v_id v) (v_sq v) (v_cq v ++ [e]) (v_stats v))) as (H1 & H2 & H3 & H4).
      { simpl. rewrite len_snoc. change (v_cap (mkView _ _ _ _ _)) with (v_cap v). lia. }
      simpl in *. split_and!; [|done|done|].
      * rewrite H1. by rewrite <- app_assoc.
      * intros Ho. rewrite H4, len_snoc, len_cons by done. f_equal.
        change (v_cap (mkView _ _ _ _ _)) with (v_cap v). lia.
    + destruct (IH (mkView (v_k v) (v_id v) (v_sq v) (v_cq v) (note_cq_overflow (v_stats v)))) as (H1 & H2 & H3 & H4).
      { done. }
      simpl in *. split_and!; [|done|done|].
      * rewrite H1. change (v_cap (mkView _ _ _ _ _)) with (v_cap v). unfold len in *.
        by rewrite !take_app_le by lia.
      * intros Ho. rewrite H4 by (apply (wrap_range 64); lia). rewrite len_cons.
        change (v_cap (mkView _ _ _ _ _)) with (v_cap v). unfold bump, as_u64, wrap.
        rewrite Zplus_mod_idemp_l. f_equal. pose proof (len_nonneg es). lia.
Qed.

(** A context before and after [process]. *)
Record delivered (v v' : ctx_view) : Prop := {
  del_id : v_id v' = v_id v;
  del_sq : v_sq v' = [];
  del_cq : v_cq v' = take (Z.to_nat (v_cap v)) (v_cq v ++ omap respond (v_sq v));
  del_in_flight : in_flight (v_stats v') = in_flight (v_stats v);
  del_lost : cq_overflows (v_stats v') =
    as_u64 (cq_overflows (v_stats v) + Z.max 0 (len (v_cq v) + len (omap respond (v_sq v)) - v_cap v));
}.

Definition stats_ok (v : ctx_view) : Prop := in_u 64 (cq_overflows (v_stats v)).

Lemma v_process_delivered c v : ctx_rep c v → stats_ok v → delivered v (v_process v).
Proof.
  intros Hc Hs. pose proof (rep_len _ _ _ (rep_cq _ _ Hc)) as Hl.
  destruct (v_completes_spec (omap respond (v_sq v)) (v_set_sq [] v) Hl) as (H1 & H2 & H3 & H4).
  split; [exact (v_completes_id _ (v_set_sq [] v))|done|done|done|by apply H4].
Qed.

(** ** Sequences of client calls *)

Inductive io_call : Type :=
| ICreate (ring_size : Z)
| ISubmit (ctx : nat) (e : SqEntry)
| IPoll (ctx : nat)
| IPollMany (ctx : nat) (max : nat)
| ISubmitAndWait (ctx : nat)
| IProcess.

Inductive io_answer : Type :=
| IUnit
| IContext (ctx : nat)
| IEntry (e : option CqEntry)
| IEntries (es : list CqEntry).

Definition io_call_step (c : io_call) : SubM io_answer :=
  match c with
  | ICreate n => i ← create_context n; mret (IContext i)
  | ISubmit i e => on_context i (submit e);; mret IUnit
  | IPoll i => e ← on_context i poll_completion; mret (IEntry e)
  | IPollMany i n => es ← on_context i (poll_completions n); mret (IEntries es)
  | ISubmitAndWait i => es ← on_context i submit_and_wait; mret (IEntries es)
  | IProcess => process;; mret IUnit
  end.

(** An error answers the call; the state goes on. *)
Fixpoint io_calls (cs : list io_call) (s : IoSubsystem) : list (outcome IoError io_answer) :=
  match cs with
  | [] => []
  | c :: cs => let (a, s') := io_call_step c s in a :: io_calls cs s'
  end.

Fixpoint v_polls (n : nat) (v : ctx_view) : list CqEntry * ctx_view :=
  match n with
  | O => ([], v)
  | S n =>
      match v_poll v with
      | (Some e, v') => let (es, v'') := v_polls n v' in (e :: es, v'')
      | (None, v') => ([], v')
      end
  end.

Definition v_on {A} (i : nat) (f : ctx_view → outcome IoError A * ctx_view) (ans : A → io_answer)
    (vs : list ctx_view) : outcome IoError io_answer * list ctx_view :=
  match vs !! i with
  | None => (Panic, vs)
  | Some v => let (r, v') := f v in (r ≫= λ a, Ok (ans a), <[i := v']> vs)
  end.

(** The abstract subsystem: views of the contexts, numbered from 1. *)
Definition v_call_step (c : io_call) (vs : list ctx_view) : outcome IoError io_answer * list ctx_view :=
  match c with
  | ICreate n =>
      (Ok (IContext (length vs)),
       vs ++ [mkView (Z.log2_up n) (len vs + 1) [] [] (mkIoStats 0 0 0 0 0 0 0)])
  | ISubmit i e => v_on i (v_submit e) (λ _, IUnit) vs
  | IPoll i => v_on i (λ v, let (e, v') := v_poll v in (Ok e, v')) IEntry vs
  | IPollMany i n => v_on i (λ v, let (es, v') := v_polls n v in (Ok es, v')) IEntries vs
  | ISubmitAndWait i =>
      v_on i (λ v, let (es, v') := v_polls (Z.to_nat (in_flight (v_stats v))) v in (Ok es, v')) IEntries vs
  | IProcess => (Ok IUnit, v_process <$> vs)
  end.



(** The subsystem implements the views, and its contexts are numbered. *)
Record io_inv (s : IoSubsystem) (vs : list ctx_view) : Prop := {
  io_rep : Forall2 ctx_rep (contexts s) vs;
  io_ids : ∀ i v, vs !! i = Some v → v_id v = Z.of_nat i + 1;
  io_next : next_id s = as_u64 (len vs + 1);
}.

Lemma io_inv_nodup s vs : io_inv s vs → NoDup (v_id <$> vs).
Proof.
  intros H. apply NoDup_alt. intros i j x Hi Hj.
  apply list_lookup_fmap_Some in Hi as (v & -> & Hv). apply list_lookup_fmap_Some in Hj as (w & Heq & Hw).
  apply (io_ids _ _ H) in Hv, Hw. lia.
Qed.





Lemma create_refines n s vs :
  io_inv s vs → 0 ≤ n ≤ 2 ^ 31 → len vs + 1 < 2 ^ 64 →
  ∃ s', io_call_step (ICreate n) s = ((v_call_step (ICreate n) vs).1, s') ∧
        io_inv s' (v_call_step (ICreate n) vs).2.
Proof.
  intros [Hr Hi Hn] Hsz Hlen. simpl. unfold create_context, context_new, sq_ring_new, cq_ring_new, mbind, M_bind, get, lift. simpl.
  destruct (ring_new_represents (E:=IoError) (sq_nop 0) n Hsz) as (k & sr & -> & Hk & Hsr).
  destruct (ring_new_represents (E:=IoError) (cq_new 0 0) n Hsz) as (k' & cr & -> & Hk' & Hcr). simpl.
  apply next_power_of_two_log in Hk as ->; [|apply (rep_k _ _ _ Hsr)].
  apply next_power_of_two_log in Hk' as ->; [|apply (rep_k _ _ _ Hcr)].
  pose proof (len_nonneg vs). rewrite (Forall2_length _ _ _ Hr). eexists. split; [done|].
  assert (next_id s = len vs + 1) as Hid.
  { rewrite Hn. unfold as_u64. apply wrap_id. unfold in_u. lia. }
  split; simpl.
  - apply Forall2_app; [done|]. constructor; [by split|constructor].
  - intros i v [Hv|[Hge Hv]]%lookup_app_Some; [by apply Hi|].
    apply list_lookup_singleton_Some in Hv as [Hz <-]. simpl. unfold len. lia.
  - rewrite Hid, len_snoc. unfold bump. done.
Qed.









(** What one run of [process] does to every context: its submissions are
    gone, and its completion queue holds, in submission order, the completions
    that fit the ring.  The others are dropped and only counted, while the
    operations stay counted as in flight. *)
Theorem process_delivers s vs :
  sub_rep s vs → Forall stats_ok vs →
  ∃ s' vs', process s = (Ok tt, s') ∧ sub_rep s' vs' ∧ Forall2 delivered vs vs'.
Proof.
  intros Hs Hok. destruct (process_refines s vs Hs) as (s' & Hp & Hs').
  exists s', (v_process <$> vs). split_and!; [done..|]. destruct Hs as [Hr _].
  apply Forall2_fmap_r. clear -Hr Hok. induction Hr as [|c v cs vs Hc _ IH]; [constructor|].
  apply Forall_cons in Hok as [Hv Hok]. constructor; [by eapply v_process_delivered|auto].
Qed.

Definition one_context : IoSubsystem := (io_call_step (ICreate 4) subsystem_new).2.

Lemma process_delivers_witness :
  ∃ s' vs', process one_context = (Ok tt, s') ∧ sub_rep s' vs' ∧
    Forall2 delivered (v_call_step (ICreate 4) []).2 vs'.
Proof.
  destruct (create_refines 4 subsystem_new []) as (s' & Hstep & Hinv); [|lia|reflexivity|].
  { split; [constructor|done|done]. }
  apply (process_delivers one_context).
  - unfold one_context. rewrite Hstep. split; [exact (io_rep _ _ Hinv)|by eapply io_inv_nodup].
  - repeat constructor; simpl; lia.
Defined.

(** With a completion ring that is not drained in time the completion of an
    operation is lost: the call that waits for it never gets it, although the
    operation stays in flight for ever. *)
Lemma completion_lost :
  io_calls [ICreate 1; ISubmit 0 (sq_nop 1); IProcess; ISubmit 0 (sq_nop 2); IProcess;
            ISubmitAndWait 0; IProcess; ISubmitAndWait 0] subsystem_new =
    [Ok (IContext 0); Ok IUnit; Ok IUnit; Ok IUnit; Ok IUnit;
     Ok (IEntries [cq_new 1 0]); Ok IUnit; Ok (IEntries [])].
Proof. vm_compute. reflexivity. Qed.

(** [from_errno] inverts [to_errno] except on the codes it already names. *)
Lemma errno_roundtrip e :
  from_errno (to_errno e) = e ∨ ∃ n, e = OpUnknown n ∧ from_errno n ≠ OpUnknown n.
Proof.
  destruct e as [| | | | | | | | | | | | | | | | | | | | | |n]; try (by left). simpl.
  unfold from_errno. repeat case_match; try (by left); right; exists n; split; try done; simplify_eq.
  all: unfold from_errno; repeat case_match; done.
Qed.
