(* ===== verification/Buddy.v ===== *)
(** * The buddy allocator

    [src/kernel/src/memory/buddy.rs].  Free blocks of each order hang on a
    list linked through slots of the [blocks] array; a slot is taken for every
    block that is added and is never given back.  The first part is the code.
    The second part shows that the linked slots implement plain lists of
    addresses, one per order ([Free] and the [f_] functions); [BuddyBlocks]
    builds on that. *)

From S2P Require Import Prelude.

(** ** The code *)

Definition MAX_ORDER : Z := 10.
Definition MIN_BLOCK_SIZE : Z := 4096.
Definition SLOTS : Z := 4096.

Record BuddyStats : Type := mkBuddyStats {
  allocations : Z;
  deallocations : Z;
  failures : Z;
  merges : Z;
  splits : Z;
}.

Record FreeBlock : Type := mkFreeBlock { fb_addr : Z; fb_next : option Z }.

(** [stats] is the global [BUDDY_STATS]. *)
Record BuddyAllocator : Type := mkBuddy {
  free_lists : list (option Z);
  blocks : list (option FreeBlock);
  next_slot : Z;
  base : Z;
  size : Z;
  allocated_bitmap : list Z;
  stats : BuddyStats;
}.

Definition buddy_new : BuddyAllocator :=
  mkBuddy (repeat None 11) (repeat None (Z.to_nat SLOTS)) 0 0 0 (repeat 0 64) (mkBuddyStats 0 0 0 0 0).

Definition set_free_lists (l : list (option Z)) (b : BuddyAllocator) : BuddyAllocator :=
  mkBuddy l (blocks b) (next_slot b) (base b) (size b) (allocated_bitmap b) (stats b).
Definition set_blocks (l : list (option FreeBlock)) (b : BuddyAllocator) : BuddyAllocator :=
  mkBuddy (free_lists b) l (next_slot b) (base b) (size b) (allocated_bitmap b) (stats b).
Definition set_next_slot (n : Z) (b : BuddyAllocator) : BuddyAllocator :=
  mkBuddy (free_lists b) (blocks b) n (base b) (size b) (allocated_bitmap b) (stats b).
Definition set_region (bs sz : Z) (b : BuddyAllocator) : BuddyAllocator :=
  mkBuddy (free_lists b) (blocks b) (next_slot b) bs sz (allocated_bitmap b) (stats b).
Definition set_bitmap (l : list Z) (b : BuddyAllocator) : BuddyAllocator :=
  mkBuddy (free_lists b) (blocks b) (next_slot b) (base b) (size b) l (stats b).
Definition set_stats (f : BuddyStats → BuddyStats) (b : BuddyAllocator) : BuddyAllocator :=
  mkBuddy (free_lists b) (blocks b) (next_slot b) (base b) (size b) (allocated_bitmap b) (f (stats b)).

Definition bump (n : Z) : Z := as_u64 (n + 1).
Definition count_allocation (s : BuddyStats) : BuddyStats :=
  mkBuddyStats (bump (allocations s)) (deallocations s) (failures s) (merges s) (splits s).
Definition count_deallocation (s : BuddyStats) : BuddyStats :=
  mkBuddyStats (allocations s) (bump (deallocations s)) (failures s) (merges s) (splits s).
Definition count_failure (s : BuddyStats) : BuddyStats :=
  mkBuddyStats (allocations s) (deallocations s) (bump (failures s)) (merges s) (splits s).
Definition count_merge (s : BuddyStats) : BuddyStats :=
  mkBuddyStats (allocations s) (deallocations s) (failures s) (bump (merges s)) (splits s).
Definition count_split (s : BuddyStats) : BuddyStats :=
  mkBuddyStats (allocations s) (deallocations s) (failures s) (merges s) (bump (splits s)).

Section code.
Context {E : Type}.
Abbreviation BuddyM := (M BuddyAllocator E).

(** Doubling stops or overflows after at most 52 rounds. *)
Fixpoint size_to_order_go (fuel : nat) (block_size order size : Z) : outcome E Z :=
  match fuel with
  | O => Panic
  | S fuel =>
      if block_size <? size then
        if block_size * 2 <? 2 ^ 64 then size_to_order_go fuel (block_size * 2) (order + 1) size
        else Panic
      else Ok order
  end.

Definition size_to_order (size : Z) : outcome E Z := size_to_order_go 53 MIN_BLOCK_SIZE 0 size.

(** [MIN_BLOCK_SIZE << order]: a shift by the width or more panics. *)
Definition order_to_size (order : Z) : outcome E Z :=
  if order <? 64 then Ok (as_usize (Z.shiftl MIN_BLOCK_SIZE order)) else Panic.

Definition buddy_address (addr order : Z) : BuddyM Z :=
  block_size ← lift (order_to_size order);
  bs ← gets base;
  relative ← sub_or_panic addr bs;
  add_or_panic 64 bs (Z.lxor relative block_size).

(** [for order in min_order..=MAX_ORDER]: [n] orders from [order] on. *)
Fixpoint find_free_block_go (n : nat) (order : Z) : BuddyM (option Z) :=
  match n with
  | O => mret None
  | S n =>
      fl ← gets free_lists;
      hd ← unwrap (vget fl order);
      match hd with
      | Some _ => mret (Some order)
      | None => find_free_block_go n (order + 1)
      end
  end.

Definition find_free_block (min_order : Z) : BuddyM (option Z) :=
  find_free_block_go (Z.to_nat (MAX_ORDER + 1 - min_order)) min_order.

(** Indexed writes: an index out of range panics. *)
Definition set_head (order : Z) (hd : option Z) : BuddyM unit :=
  fl ← gets free_lists;
  _ ← unwrap (vget fl order);
  modify (set_free_lists (vset fl order hd)).
Definition set_block (slot : Z) (b : option FreeBlock) : BuddyM unit :=
  bl ← gets blocks;
  _ ← unwrap (vget bl slot);
  modify (set_blocks (vset bl slot b)).

Definition add_to_free_list (order addr : Z) : BuddyM unit :=
  slot ← gets next_slot;
  bl ← gets blocks;
  if len bl <=? slot then mret tt
  else
    modify (set_next_slot (slot + 1));;
    fl ← gets free_lists;
    next ← unwrap (vget fl order);
    set_block slot (Some (mkFreeBlock addr next));;
    set_head order (Some slot).

Definition remove_from_free_list (order : Z) : BuddyM (option Z) :=
  fl ← gets free_lists;
  hd ← unwrap (vget fl order);
  match hd with
  | None => mret None
  | Some slot =>
      bl ← gets blocks;
      b ← unwrap (vget bl slot);
      match b with
      | None => mret None
      | Some block =>
          set_head order (fb_next block);;
          set_block slot None;;
          mret (Some (fb_addr block))
      end
  end.

(** The walks along a list run over at most all slots; [fuel] is one more. *)
Fixpoint remove_specific_go (fuel : nat) (order addr : Z) (prev current : option Z) : BuddyM bool :=
  match fuel with
  | O => panic
  | S fuel =>
      match current with
      | None => mret false
      | Some slot =>
          bl ← gets blocks;
          b ← unwrap (vget bl slot);
          match b with
          | None => mret false
          | Some block =>
              if fb_addr block =? addr then
                match prev with
                | Some prev_slot =>
                    pb ← unwrap (vget bl prev_slot);
                    match pb with
                    | Some prev_block =>
                        set_block prev_slot (Some (mkFreeBlock (fb_addr prev_block) (fb_next block)))
                    | None => mret tt
                    end
                | None => set_head order (fb_next block)
                end;;
                set_block slot None;;
                mret true
              else remove_specific_go fuel order addr current (fb_next block)
          end
      end
  end.

Definition walk_fuel : nat := S (Z.to_nat SLOTS).

Definition remove_specific_from_free_list (order addr : Z) : BuddyM bool :=
  fl ← gets free_lists;
  hd ← unwrap (vget fl order);
  remove_specific_go walk_fuel order addr None hd.

Fixpoint is_free_go (fuel : nat) (addr : Z) (current : option Z) : BuddyM bool :=
  match fuel with
  | O => panic
  | S fuel =>
      match current with
      | None => mret false
      | Some slot =>
          bl ← gets blocks;
          b ← unwrap (vget bl slot);
          match b with
          | None => mret false
          | Some block =>
              if fb_addr block =? addr then mret true else is_free_go fuel addr (fb_next block)
          end
      end
  end.

Definition is_free_at_order (addr order : Z) : BuddyM bool :=
  fl ← gets free_lists;
  hd ← unwrap (vget fl order);
  is_free_go walk_fuel addr hd.

Definition set_allocated (addr : Z) (allocated : bool) : BuddyM unit :=
  bs ← gets base;
  relative ← sub_or_panic addr bs;
  let relative := relative / MIN_BLOCK_SIZE in
  let word := relative / 64 in
  let bit := relative mod 64 in
  bm ← gets allocated_bitmap;
  match vget bm word with
  | None => mret tt
  | Some w =>
      let mask := Z.shiftl 1 bit in
      modify (set_bitmap (vset bm word (if allocated then Z.lor w mask else Z.ldiff w mask)))
  end.

Definition init (bs sz : Z) : BuddyM unit :=
  modify (set_region bs sz);;
  order ← lift (size_to_order sz);
  add_to_free_list (Z.min order MAX_ORDER) bs.

(** [while current_order > order]: [n] is the difference at the start. *)
Fixpoint split_go (n : nat) (addr current_order order : Z) : BuddyM unit :=
  match n with
  | O => mret tt
  | S n =>
      let current_order := current_order - 1 in
      half ← lift (order_to_size current_order);
      buddy_addr ← add_or_panic 64 addr half;
      add_to_free_list current_order buddy_addr;;
      modify (set_stats count_split);;
      split_go n addr current_order order
  end.

Definition allocate (sz : Z) : BuddyM (option Z) :=
  let sz := Z.max sz MIN_BLOCK_SIZE in
  order ← lift (size_to_order sz);
  if MAX_ORDER <? order then
    modify (set_stats count_failure);; mret None
  else
    found ← find_free_block order;
    match found with
    | None => mret None
    | Some block_order =>
        a ← remove_from_free_list block_order;
        match a with
        | None => mret None
        | Some addr =>
            split_go (Z.to_nat (block_order - order)) addr block_order order;;
            set_allocated addr true;;
            modify (set_stats count_allocation);;
            mret (Some addr)
        end
    end.

(** [while order < MAX_ORDER]: [n] bounds the orders left. *)
Fixpoint merge_go (n : nat) (addr order : Z) : BuddyM (Z * Z) :=
  match n with
  | O => mret (addr, order)
  | S n =>
      buddy_addr ← buddy_address addr order;
      free ← is_free_at_order buddy_addr order;
      if negb free then mret (addr, order)
      else
        removed ← remove_specific_from_free_list order buddy_addr;
        if negb removed then mret (addr, order)
        else
          modify (set_stats count_merge);;
          merge_go n (Z.min addr buddy_addr) (order + 1)
  end.

Definition deallocate (addr sz : Z) : BuddyM unit :=
  let sz := Z.max sz MIN_BLOCK_SIZE in
  order ← lift (size_to_order sz);
  set_allocated addr false;;
  '(addr, order) ← merge_go (Z.to_nat (MAX_ORDER - order)) addr order;
  add_to_free_list order addr;;
  modify (set_stats count_deallocation).

(** [stats]: the length of each list and the free bytes. *)
Fixpoint count_go (fuel : nat) (count : Z) (current : option Z) : BuddyM Z :=
  match fuel with
  | O => panic
  | S fuel =>
      match current with
      | None => mret count
      | Some slot =>
          bl ← gets blocks;
          b ← unwrap (vget bl slot);
          match b with
          | None => mret count
          | Some block => count_go fuel (count + 1) (fb_next block)
          end
      end
  end.

Definition count_order (order : Z) : BuddyM Z :=
  fl ← gets free_lists;
  hd ← unwrap (vget fl order);
  count_go walk_fuel 0 hd.

Fixpoint counts_go (orders : list Z) : BuddyM (list Z * Z) :=
  match orders with
  | [] => mret ([], 0)
  | order :: orders =>
      c ← count_order order;
      sz ← lift (order_to_size order);
      '(cs, total) ← counts_go orders;
      mret (c :: cs, total + c * sz)
  end.

Definition orders : list Z := [0; 1; 2; 3; 4; 5; 6; 7; 8; 9; 10].

Record BuddyAllocatorStats : Type := mkBuddyAllocatorStats {
  free_blocks : list Z;
  total_size : Z;
  free_size : Z;
}.

Definition get_stats : BuddyM BuddyAllocatorStats :=
  '(cs, total) ← counts_go orders;
  sz ← gets size;
  mret (mkBuddyAllocatorStats cs sz total).

End code.

(** ** The contract of the linked slots: a list of addresses for each order *)

Record Free : Type := mkFree { f_list : Z → list Z; f_used : Z }.

Definition upd {A} (f : Z → A) (o : Z) (x : A) : Z → A := λ o', if o' =? o then x else f o'.

(** A block that finds no slot is forgotten. *)
Definition f_add (o a : Z) (f : Free) : Free :=
  if SLOTS <=? f_used f then f else mkFree (upd (f_list f) o (a :: f_list f o)) (f_used f + 1).

Fixpoint remove_first (a : Z) (l : list Z) : list Z :=
  match l with
  | [] => []
  | x :: l => if x =? a then l else x :: remove_first a l
  end.

Definition f_remove (o a : Z) (f : Free) : Free :=
  mkFree (upd (f_list f) o (remove_first a (f_list f o))) (f_used f).

Definition bsize (o : Z) : Z := MIN_BLOCK_SIZE * 2 ^ o.

Fixpoint f_split (n : nat) (addr cur : Z) (f : Free) : Free :=
  match n with
  | O => f
  | S n => f_split n addr (cur - 1) (f_add (cur - 1) (addr + bsize (cur - 1)) f)
  end.

Fixpoint f_find (n : nat) (o : Z) (f : Free) : option (Z * Z) :=
  match n with
  | O => None
  | S n => match f_list f o with [] => f_find n (o + 1) f | a :: _ => Some (o, a) end
  end.

Definition f_alloc (order : Z) (f : Free) : option Z * Free :=
  match f_find (Z.to_nat (MAX_ORDER + 1 - order)) order f with
  | None => (None, f)
  | Some (o, a) => (Some a, f_split (Z.to_nat (o - order)) a o (f_remove o a f))
  end.

Definition buddy_of (bs a o : Z) : Z := bs + Z.lxor (a - bs) (bsize o).

Fixpoint f_merge (n : nat) (bs a o : Z) (f : Free) : Z * Z * Free :=
  match n with
  | O => (a, o, f)
  | S n =>
      let b := buddy_of bs a o in
      if decide (b ∈ f_list f o) then f_merge n bs (Z.min a b) (o + 1) (f_remove o b f)
      else (a, o, f)
  end.

Definition f_free (bs a o : Z) (f : Free) : Free :=
  let '(a, o, f) := f_merge (Z.to_nat (MAX_ORDER - o)) bs a o f in f_add o a f.

(** ** Linked slots represent the lists *)

Inductive chain (bl : list (option FreeBlock)) : option Z → list (Z * Z) → Prop :=
| chain_nil : chain bl None []
| chain_cons s a next l :
    vget bl s = Some (Some (mkFreeBlock a next)) → chain bl next l → chain bl (Some s) ((s, a) :: l).

Record links (b : BuddyAllocator) (f : Free) (G : Z → list (Z * Z)) : Prop := {
  lk_heads : len (free_lists b) = 11;
  lk_slots : len (blocks b) = SLOTS;
  lk_next : next_slot b = f_used f;
  lk_used : 0 ≤ f_used f ≤ SLOTS;
  lk_chain : ∀ o, 0 ≤ o ≤ MAX_ORDER → ∃ hd, vget (free_lists b) o = Some hd ∧ chain (blocks b) hd (G o);
  lk_addrs : ∀ o, 0 ≤ o ≤ MAX_ORDER → (G o).*2 = f_list f o;
  lk_nodup : ∀ o, 0 ≤ o ≤ MAX_ORDER → NoDup (G o).*1;
  lk_apart : ∀ o o' s, 0 ≤ o ≤ MAX_ORDER → 0 ≤ o' ≤ MAX_ORDER → s ∈ (G o).*1 → s ∈ (G o').*1 → o = o';
  lk_below : ∀ o s, 0 ≤ o ≤ MAX_ORDER → s ∈ (G o).*1 → 0 ≤ s < f_used f;
}.

Definition rep (b : BuddyAllocator) (f : Free) : Prop := ∃ G, links b f G.

(** The parts of the state the free lists do not touch. *)
Definition same_region (b b' : BuddyAllocator) : Prop :=
  base b' = base b ∧ size b' = size b ∧ allocated_bitmap b' = allocated_bitmap b.

#[export] Instance same_region_preorder : PreOrder same_region.
Proof. split; [by intros b|]. unfold same_region. intros a b c (? & ? & ?) (? & ? & ?). split_and!; congruence. Qed.

(** Bounds of an index into the two arrays. *)
Ltac in_range HG :=
  simpl; rewrite ?(lk_heads _ _ _ HG), ?(lk_slots _ _ _ HG); unfold MAX_ORDER, SLOTS in *; lia.

Lemma chain_other bl s x hd l :
  0 ≤ s < len bl → s ∉ l.*1 → chain bl hd l → chain (vset bl s x) hd l.
Proof.
  intros Hs Hn Hc. induction Hc as [|s' a next l Hv Hc IH]; [constructor|].
  rewrite fmap_cons in Hn. apply not_elem_of_cons in Hn as [Hne Hn]. econstructor; [|by apply IH].
  pose proof Hv as [? _]%vget_Some. rewrite vget_vset by lia.
  destruct (Z.eqb_spec s' s); [by subst|done].
Qed.

Lemma chain_len bl hd l :
  chain bl hd l → NoDup l.*1 → (length l ≤ length bl)%nat.
Proof.
  intros Hc Hnd. rewrite <- (length_fmap fst l).
  assert (Forall (λ s, 0 ≤ s < len bl) l.*1) as Hb.
  { clear Hnd. induction Hc as [|s a next l [? _]%vget_Some _ IH]; by constructor. }
  assert (length (Z.to_nat <$> l.*1) ≤ length (seq 0 (length bl)))%nat as Hle.
  { apply submseteq_length, NoDup_submseteq.
    - apply NoDup_fmap_2_strong; [|done]. intros x y Hx Hy Heq.
      rewrite Forall_forall in Hb. apply Hb in Hx, Hy. lia.
    - intros n (z & -> & Hz)%list_elem_of_fmap. rewrite Forall_forall in Hb. apply Hb in Hz.
      apply elem_of_seq. unfold len in Hz. lia. }
  by rewrite length_fmap, length_seq in Hle.
Qed.

Lemma upd_same {A} (f : Z → A) o x : upd f o x o = x.
Proof. unfold upd. by rewrite Z.eqb_refl. Qed.

Lemma upd_other {A} (f : Z → A) o o' x : o' ≠ o → upd f o x o' = f o'.
Proof. intros. unfold upd. by destruct (Z.eqb_spec o' o). Qed.

Lemma elem_of_upd_fst {A} (G : Z → list (Z * A)) o o' l s :
  s ∈ (upd G o l o').*1 → (o' = o ∧ s ∈ l.*1) ∨ (o' ≠ o ∧ s ∈ (G o').*1).
Proof. unfold upd. destruct (Z.eqb_spec o' o); auto. Qed.

Lemma remove_first_app a l k : a ∉ l → remove_first a (l ++ a :: k) = l ++ k.
Proof.
  induction l as [|x l IH]; simpl; [by rewrite Z.eqb_refl|].
  intros [Hne Hn]%not_elem_of_cons. destruct (Z.eqb_spec x a); [by subst|]. by rewrite IH.
Qed.

Lemma chain_app bl l1 : ∀ hd l2, chain bl hd (l1 ++ l2) → ∃ mid, chain bl mid l2.
Proof.
  induction l1 as [|[s a] l1 IH]; intros hd l2; simpl; [by exists hd|]. inversion 1; subst. by eapply IH.
Qed.

(** Unlinking the slot behind [ps]. *)
Lemma chain_unlink bl s a next ps pa l0 : ∀ hd l2,
  chain bl hd (l0 ++ (ps, pa) :: (s, a) :: l2) →
  NoDup (l0 ++ (ps, pa) :: (s, a) :: l2).*1 →
  vget bl s = Some (Some (mkFreeBlock a next)) →
  chain (vset (vset bl ps (Some (mkFreeBlock pa next))) s None) hd (l0 ++ (ps, pa) :: l2).
Proof.
  intros hd l2 Hc Hnd Hs. pose proof Hs as [Hsr _]%vget_Some.
  assert (0 ≤ ps < len bl) as Hps.
  { destruct (chain_app _ _ _ _ Hc) as [mid Hm]. inversion Hm as [|? ? ? ? Hv]; subst.
    by apply vget_Some in Hv as [? _]. }
  assert (chain (vset bl ps (Some (mkFreeBlock pa next))) hd (l0 ++ (ps, pa) :: l2) ∧
          s ∉ (l0 ++ (ps, pa) :: l2).*1) as [Hc' Hn'].
  { revert hd Hc. induction l0 as [|[s0 a0] l0 IH]; intros hd Hc; simpl in *.
    - apply NoDup_cons in Hnd as [Hn1 Hnd]. apply NoDup_cons in Hnd as [Hn2 Hnd].
      apply not_elem_of_cons in Hn1 as [Hne Hn1].
      inversion Hc as [|? ? ? ? Hv Hc2]; subst. inversion Hc2 as [|? ? ? ? Hv2 Hc3]; subst.
      rewrite Hs in Hv2. simplify_eq. split.
      + econstructor; [by rewrite vget_vset, Z.eqb_refl by lia|]. by apply chain_other.
      + by apply not_elem_of_cons.
    - apply NoDup_cons in Hnd as [Hn1 Hnd]. inversion Hc as [|? ? ? ? Hv Hc2]; subst.
      destruct (IH Hnd _ Hc2) as [IH1 IH2].
      rewrite fmap_app, !fmap_cons, not_elem_of_app, !not_elem_of_cons in Hn1. simpl in Hn1.
      destruct Hn1 as (Hn1 & Hnp & Hns & Hn2). pose proof Hv as [? _]%vget_Some. split.
      + econstructor; [|done]. rewrite vget_vset by lia. by destruct (Z.eqb_spec s0 ps).
      + by apply not_elem_of_cons. }
  apply chain_other; [by rewrite len_vset|done|done].
Qed.

Section refinement.
Context {E : Type}.

Lemma wp_set_head b o hd Q :
  0 ≤ o < len (free_lists b) → Q tt (set_free_lists (vset (free_lists b) o hd) b) →
  returns (set_head (E:=E) o hd) Q b.
Proof.
  intros Ho HQ. unfold set_head. do 2 wp_step. wp_step.
  destruct (vget_lt _ _ Ho) as [x Hx]. eapply wp_unwrap_Some; [done|]. by wp_step.
Qed.

Lemma wp_set_block b s x Q :
  0 ≤ s < len (blocks b) → Q tt (set_blocks (vset (blocks b) s x) b) →
  returns (set_block (E:=E) s x) Q b.
Proof.
  intros Hs HQ. unfold set_block. do 2 wp_step. wp_step.
  destruct (vget_lt _ _ Hs) as [y Hy]. eapply wp_unwrap_Some; [done|]. by wp_step.
Qed.

(** A new slot in front of one list. *)
Lemma add_refines b f o a :
  rep b f → 0 ≤ o ≤ MAX_ORDER →
  returns (add_to_free_list (E:=E) o a) (λ _ b', rep b' (f_add o a f) ∧ same_region b b') b.
Proof.
  intros [G HG] Ho. unfold add_to_free_list, f_add. do 4 wp_step.
  rewrite (lk_slots _ _ _ HG), (lk_next _ _ _ HG). pose proof (lk_used _ _ _ HG) as Hu.
  destruct (Z.leb_spec SLOTS (f_used f)); [wp_step; split; [by exists G|done]|].
  do 4 wp_step. wp_step. destruct (lk_chain _ _ _ HG o Ho) as (hd & Hhd & Hch).
  eapply wp_unwrap_Some; [done|]. wp_step. apply wp_set_block; [in_range HG|].
  apply wp_set_head; [in_range HG|].
  split; [|done]. exists (upd G o ((f_used f, a) :: G o)).
  assert (∀ o', 0 ≤ o' ≤ MAX_ORDER → f_used f ∉ (G o').*1) as Hfresh.
  { intros o' Ho' Hin. pose proof (lk_below _ _ _ HG _ _ Ho' Hin). lia. }
  split; simpl; rewrite ?len_vset; try apply HG; try lia.
  - intros o' Ho'. rewrite vget_vset by (in_range HG).
    unfold upd. destruct (Z.eqb_spec o' o) as [->|Hne].
    + eexists. split; [done|]. econstructor.
      * rewrite vget_vset, Z.eqb_refl by (in_range HG). done.
      * apply chain_other; [in_range HG|by apply Hfresh|done].
    + destruct (lk_chain _ _ _ HG o' Ho') as (hd' & Hhd' & Hch'). exists hd'. split; [done|].
      apply chain_other; [in_range HG|by apply Hfresh|done].
  - intros o' Ho'. unfold upd. destruct (o' =? o); simpl; by rewrite (lk_addrs _ _ _ HG).
  - intros o' Ho'. unfold upd. destruct (o' =? o); [|by apply HG]. simpl. constructor; [by apply Hfresh|by apply HG].
  - intros o1 o2 s H1 H2 [[-> Hs1]|[Hn1 Hs1]]%elem_of_upd_fst [[-> Hs2]|[Hn2 Hs2]]%elem_of_upd_fst; try done.
    + apply elem_of_cons in Hs1 as [->|Hs1]; [by apply Hfresh in Hs2|by eapply HG].
    + apply elem_of_cons in Hs2 as [->|Hs2]; [by apply Hfresh in Hs1|by eapply HG].
    + by eapply HG.
  - intros o' s Ho' [[-> Hs]|[_ Hs]]%elem_of_upd_fst.
    + apply elem_of_cons in Hs as [->|Hs]; [simpl; lia|]. pose proof (lk_below _ _ _ HG _ _ Ho' Hs). lia.
    + pose proof (lk_below _ _ _ HG _ _ Ho' Hs). lia.
Qed.

(** One list lost a slot; the others are as before. *)
Lemma links_remove b b' f G o l1 s a l2 :
  links b f G → 0 ≤ o ≤ MAX_ORDER → G o = l1 ++ (s, a) :: l2 → a ∉ l1.*2 →
  len (free_lists b') = 11 → len (blocks b') = SLOTS → next_slot b' = next_slot b →
  (∃ hd, vget (free_lists b') o = Some hd ∧ chain (blocks b') hd (l1 ++ l2)) →
  (∀ o', 0 ≤ o' ≤ MAX_ORDER → o' ≠ o → vget (free_lists b') o' = vget (free_lists b) o') →
  (∀ hd l, s ∉ l.*1 → (∀ x, x ∈ l1.*1 → x ∉ l.*1) → chain (blocks b) hd l → chain (blocks b') hd l) →
  rep b' (f_remove o a f).
Proof.
  intros HG Ho Hl Ha H1 H2 H3 H4 H5 H6. exists (upd G o (l1 ++ l2)).
  assert (∀ x, x ∈ (l1 ++ l2).*1 → x ∈ (G o).*1) as Hsub.
  { intros x. rewrite Hl, !fmap_app, fmap_cons, !elem_of_app, elem_of_cons. tauto. }
  assert (∀ x, x ∈ (s :: l1.*1) → x ∈ (G o).*1) as Hsub'.
  { intros x. rewrite Hl, fmap_app, fmap_cons, elem_of_app, !elem_of_cons. tauto. }
  split; simpl; try done; try apply HG.
  - rewrite H3. apply HG.
  - intros o' Ho'. destruct (decide (o' = o)) as [->|Hne]; [by rewrite upd_same|].
    rewrite upd_other, H5 by done. destruct (lk_chain _ _ _ HG o' Ho') as (hd & Hhd & Hc).
    exists hd. split; [done|]. apply H6; [| |done].
    + intros Hin. apply Hne. eapply (lk_apart _ _ _ HG); [done..|]. apply Hsub'. by left.
    + intros x Hx Hin. apply Hne. eapply (lk_apart _ _ _ HG); [done..|]. apply Hsub'. by right.
  - intros o' Ho'. destruct (decide (o' = o)) as [->|Hne]; [|by rewrite !upd_other, (lk_addrs _ _ _ HG)].
    rewrite !upd_same, <- (lk_addrs _ _ _ HG), Hl, !fmap_app, fmap_cons by done. by rewrite remove_first_app.
  - intros o' Ho'. destruct (decide (o' = o)) as [->|Hne]; [|rewrite upd_other by done; by apply HG].
    rewrite upd_same. pose proof (lk_nodup _ _ _ HG o Ho) as Hnd. rewrite Hl in Hnd.
    rewrite fmap_app in *. rewrite fmap_cons in Hnd. apply NoDup_app in Hnd as (? & Hd & Hnd).
    apply NoDup_cons in Hnd as [_ ?]. apply NoDup_app. split_and!; [done| |done].
    intros x Hx Hin. apply (Hd x Hx). by right.
  - intros o1 o2 x Ho1 Ho2 Hx1%elem_of_upd_fst Hx2%elem_of_upd_fst.
    apply (lk_apart _ _ _ HG _ _ x); [done..| |];
      [destruct Hx1 as [[-> ?]|[_ ?]]|destruct Hx2 as [[-> ?]|[_ ?]]]; auto.
  - intros o' x Ho' [[-> Hx]|[_ Hx]]%elem_of_upd_fst; eapply (lk_below _ _ _ HG); eauto.
Qed.

Lemma remove_head_refines b f o a l :
  rep b f → 0 ≤ o ≤ MAX_ORDER → f_list f o = a :: l →
  returns (remove_from_free_list (E:=E) o)
    (λ r b', r = Some a ∧ rep b' (f_remove o a f) ∧ same_region b b') b.
Proof.
  intros [G HG] Ho Hl. destruct (lk_chain _ _ _ HG o Ho) as (hd & Hhd & Hc).
  pose proof (lk_addrs _ _ _ HG o Ho) as Ha. rewrite Hl in Ha.
  destruct (G o) as [|[s a'] k] eqn:HGo; simplify_eq/=. inversion Hc as [|? ? next ? Hs Hk]; subst.
  pose proof Hs as [Hsr _]%vget_Some. pose proof (lk_nodup _ _ _ HG o Ho) as Hnd. rewrite HGo in Hnd.
  apply NoDup_cons in Hnd as [Hn _].
  unfold remove_from_free_list. do 2 wp_step. wp_step. eapply wp_unwrap_Some; [done|]. simpl.
  do 2 wp_step. wp_step. eapply wp_unwrap_Some; [done|]. simpl.
  wp_step. apply wp_set_head; [in_range HG|].
  wp_step. apply wp_set_block; [done|]. wp_step. split_and!; [done| |done].
  eapply (links_remove b _ f G o [] s a k); simpl; rewrite ?len_vset; try done; try apply HG.
  - by apply not_elem_of_nil.
  - exists next. rewrite vget_vset, Z.eqb_refl by (in_range HG).
    split; [done|]. by apply chain_other.
  - intros o' Ho' Hne. rewrite vget_vset by (in_range HG).
    by destruct (Z.eqb_spec o' o).
  - intros hd' l' Hs' _ Hc'. by apply chain_other.
Qed.

(** The walk of [remove_specific_from_free_list]: [l1] lies behind it. *)
Lemma remove_walk_refines b f G o a fuel : ∀ l1 l2 cur,
  links b f G → 0 ≤ o ≤ MAX_ORDER → G o = l1 ++ l2 → a ∉ l1.*2 →
  chain (blocks b) cur l2 → (length l2 < fuel)%nat →
  (∃ hd, vget (free_lists b) o = Some hd ∧ chain (blocks b) hd (l1 ++ l2) ∧ (l1 = [] → hd = cur)) →
  returns (remove_specific_go (E:=E) fuel o a (fst <$> last l1) cur)
    (λ r b', same_region b b' ∧ r = bool_decide (a ∈ l2.*2) ∧ rep b' (if r then f_remove o a f else f)) b.
Proof.
  induction fuel as [|fuel IH]; intros l1 l2 cur HG Ho Hl Ha Hc Hf (hd & Hhd & Hc1 & Hh); [lia|]. simpl.
  destruct Hc as [|s x next l2 Hs Hc].
  { wp_step. split_and!; [done|done|by exists G]. }
  simpl in Hf. do 3 wp_step. eapply wp_unwrap_Some; [done|]. simpl.
  pose proof Hs as [Hsr _]%vget_Some. pose proof (lk_nodup _ _ _ HG o Ho) as Hnd. rewrite Hl in Hnd.
  destruct (Z.eqb_spec x a) as [->|Hne].
  - rewrite bool_decide_eq_true_2 by (left; done). destruct l1 as [|[ps pa] l0 _] using rev_ind.
    + simpl. simpl in Hnd. apply NoDup_cons in Hnd as [Hn _].
      wp_step. apply wp_set_head; [in_range HG|]. wp_step. apply wp_set_block; [done|]. wp_step.
      split_and!; [done|done|].
      eapply (links_remove b _ f G o [] s a l2); simpl; rewrite ?len_vset; try done; try apply HG.
      * exists next. rewrite vget_vset, Z.eqb_refl by (in_range HG). split; [done|]. by apply chain_other.
      * intros o' Ho' Hne. rewrite vget_vset by (in_range HG). by destruct (Z.eqb_spec o' o).
      * intros hd' l' Hs' _ Hc'. by apply chain_other.
    + rewrite last_snoc. simpl. rewrite <- app_assoc in Hc1, Hnd, Hl. simpl in Hc1, Hnd, Hl.
      destruct (chain_app _ _ _ _ Hc1) as [mid Hm]. inversion Hm as [|? ? nx ? Hps]; subst.
      pose proof Hps as [Hpr _]%vget_Some.
      do 2 wp_step. eapply wp_unwrap_Some; [done|]. simpl. apply wp_set_block; [done|]. wp_step.
      apply wp_set_block; [simpl; by rewrite len_vset|]. wp_step. split_and!; [done|done|].
      eapply (links_remove b _ f G o (l0 ++ [(ps, pa)]) s a l2); simpl; rewrite ?len_vset; try done; try apply HG.
      * by rewrite <- app_assoc.
      * exists hd. split; [done|]. rewrite <- app_assoc. simpl. by apply chain_unlink with a.
      * intros hd' l' Hs' Hl1 Hc'. apply chain_other; [by rewrite len_vset|done|].
        apply chain_other; [done| |done]. apply Hl1. rewrite fmap_app. apply elem_of_app. right. by left.
  - replace (Some s) with (fst <$> last (l1 ++ [(s, x)])) by (by rewrite last_snoc).
    eapply returns_mono; [apply (IH (l1 ++ [(s, x)]) l2 next); try done; try lia|].
    + by rewrite <- app_assoc.
    + rewrite fmap_app, not_elem_of_app. split; [done|]. simpl. intros [->|Hn%not_elem_of_nil]%elem_of_cons; done.
    + exists hd. rewrite <- app_assoc. split_and!; [done..|]. intros Hnil. by destruct l1.
    + intros r b' (Hsame & -> & Hr). split_and!; [done| |done].
      apply bool_decide_ext. rewrite ?fmap_cons, elem_of_cons. split; [by right|by intros [<-|?]].
Qed.

Lemma rep_walk_fuel b f G o : links b f G → 0 ≤ o ≤ MAX_ORDER → (length (G o) < walk_fuel)%nat.
Proof.
  intros HG Ho. destruct (lk_chain _ _ _ HG o Ho) as (hd & _ & Hc).
  pose proof (chain_len _ _ _ Hc (lk_nodup _ _ _ HG o Ho)). pose proof (lk_slots _ _ _ HG) as Hs.
  unfold len, walk_fuel, SLOTS in *. lia.
Qed.

Lemma remove_specific_refines b f o a :
  rep b f → 0 ≤ o ≤ MAX_ORDER →
  returns (remove_specific_from_free_list (E:=E) o a)
    (λ r b', same_region b b' ∧ r = bool_decide (a ∈ f_list f o) ∧
      rep b' (if r then f_remove o a f else f)) b.
Proof.
  intros [G HG] Ho. destruct (lk_chain _ _ _ HG o Ho) as (hd & Hhd & Hc).
  unfold remove_specific_from_free_list. do 3 wp_step. eapply wp_unwrap_Some; [done|].
  rewrite <- (lk_addrs _ _ _ HG o Ho). eapply (remove_walk_refines b f G o a walk_fuel [] (G o)); try done.
  - by apply not_elem_of_nil.
  - by eapply rep_walk_fuel.
  - by exists hd.
Qed.

Lemma is_free_walk_refines b a fuel : ∀ l cur,
  chain (blocks b) cur l → (length l < fuel)%nat →
  returns (is_free_go (E:=E) fuel a cur) (λ r b', b' = b ∧ r = bool_decide (a ∈ l.*2)) b.
Proof.
  induction fuel as [|fuel IH]; intros l cur Hc Hf; [lia|]. simpl.
  destruct Hc as [|s x next l Hs Hc]; [by wp_step|]. do 3 wp_step. eapply wp_unwrap_Some; [done|]. simpl in *.
  destruct (Z.eqb_spec x a) as [->|Hne].
  - wp_step. split; [done|]. symmetry. apply bool_decide_eq_true. by left.
  - eapply returns_mono; [apply (IH l next Hc); lia|]. intros r b' [-> ->]. split; [done|].
    apply bool_decide_ext. rewrite elem_of_cons. split; [by right|by intros [<-|?]].
Qed.

Lemma is_free_refines b f o a :
  rep b f → 0 ≤ o ≤ MAX_ORDER →
  returns (is_free_at_order (E:=E) a o) (λ r b', b' = b ∧ r = bool_decide (a ∈ f_list f o)) b.
Proof.
  intros [G HG] Ho. destruct (lk_chain _ _ _ HG o Ho) as (hd & Hhd & Hc).
  unfold is_free_at_order. do 3 wp_step. eapply wp_unwrap_Some; [done|].
  rewrite <- (lk_addrs _ _ _ HG o Ho). apply is_free_walk_refines; [done|by eapply rep_walk_fuel].
Qed.

Lemma order_to_size_spec o : 0 ≤ o ≤ MAX_ORDER → order_to_size (E:=E) o = Ok (bsize o).
Proof.
  unfold MAX_ORDER. intros Ho. unfold order_to_size, bsize, as_usize.
  destruct (Z.ltb_spec o 64); [|lia]. rewrite Z.shiftl_mul_pow2 by lia. rewrite wrap_id; [done|].
  assert (2 ^ o ≤ 2 ^ 10) by (apply Z.pow_le_mono_r; lia). pose proof (pow2_pos o ltac:(lia)).
  unfold in_u, MIN_BLOCK_SIZE. lia.
Qed.

Lemma size_to_order_go_spec fuel : ∀ o sz,
  0 ≤ o → o + Z.of_nat fuel = 53 → sz ≤ 2 ^ 63 → (o = 0 ∨ bsize (o - 1) < sz) →
  ∃ o', size_to_order_go (E:=E) fuel (bsize o) o sz = Ok o' ∧
    0 ≤ o' ∧ sz ≤ bsize o' ∧ (o' = 0 ∨ bsize (o' - 1) < sz).
Proof.
  induction fuel as [|fuel IH]; intros o sz Ho Hf Hsz Hlow; simpl.
  - exfalso. destruct Hlow as [->|Hlow]; [lia|]. replace (o - 1) with 52 in Hlow by lia.
    unfold bsize, MIN_BLOCK_SIZE in Hlow. lia.
  - destruct (Z.ltb_spec (bsize o) sz) as [Hlt|Hge]; [|by exists o].
    assert (bsize (o + 1) = bsize o * 2) as Hdbl.
    { unfold bsize. rewrite Z.pow_add_r by lia. lia. }
    destruct (Z.ltb_spec (bsize o * 2) (2 ^ 64)); [|lia]. rewrite <- Hdbl. apply IH; try lia.
    right. by replace (o + 1 - 1) with o by lia.
Qed.

(** The least order whose blocks hold [sz] bytes. *)
Lemma size_to_order_spec sz :
  sz ≤ 2 ^ 63 →
  ∃ o, size_to_order (E:=E) sz = Ok o ∧ 0 ≤ o ∧ sz ≤ bsize o ∧ (o = 0 ∨ bsize (o - 1) < sz).
Proof. intros Hsz. apply (size_to_order_go_spec 53 0 sz); lia. Qed.


Lemma rep_head b f o :
  rep b f → 0 ≤ o ≤ MAX_ORDER →
  ∃ hd, vget (free_lists b) o = Some hd ∧ (hd = None ↔ f_list f o = []).
Proof.
  intros [G HG] Ho. destruct (lk_chain _ _ _ HG o Ho) as (hd & Hhd & Hc). exists hd. split; [done|].
  rewrite <- (lk_addrs _ _ _ HG o Ho). by destruct Hc.
Qed.

Lemma find_refines b f n : ∀ o,
  rep b f → 0 ≤ o → o + Z.of_nat n ≤ MAX_ORDER + 1 →
  returns (find_free_block_go (E:=E) n o) (λ r b', b' = b ∧ r = fst <$> f_find n o f) b.
Proof.
  induction n as [|n IH]; intros o Hr Ho Hn; simpl; [by wp_step|].
  destruct (rep_head b f o Hr) as (hd & Hhd & Hnil); [lia|].
  do 3 wp_step. eapply wp_unwrap_Some; [done|]. destruct hd as [s|].
  - wp_step. split; [done|]. destruct (f_list f o); [by pose proof (proj2 Hnil eq_refl)|done].
  - rewrite (proj1 Hnil eq_refl). apply IH; [done|lia..].
Qed.

Lemma rep_stats b f g : rep b f → rep (set_stats g b) f.
Proof. intros [G [? ? ? ? ? ? ? ? ?]]. exists G. by split. Qed.

Lemma rep_bitmap b f l : rep b f → rep (set_bitmap l b) f.
Proof. intros [G [? ? ? ? ? ? ? ? ?]]. exists G. by split. Qed.

Lemma split_refines n : ∀ b f addr cur order,
  rep b f → 0 ≤ cur - Z.of_nat n → cur ≤ MAX_ORDER + 1 → 0 ≤ addr → addr + bsize cur ≤ 2 ^ 64 →
  returns (split_go (E:=E) n addr cur order) (λ _ b', rep b' (f_split n addr cur f) ∧ same_region b b') b.
Proof.
  induction n as [|n IH]; intros b f addr cur order Hr Hlow Hcur Ha Hend; simpl; [by wp_step|].
  assert (bsize cur = bsize (cur - 1) * 2) as Hdbl.
  { unfold bsize. replace (2 ^ cur) with (2 ^ (cur - 1 + 1)) by (f_equal; lia). rewrite Z.pow_add_r by lia. lia. }
  assert (0 < bsize (cur - 1)) by (unfold bsize, MIN_BLOCK_SIZE; pose proof (pow2_pos (cur - 1) ltac:(lia)); lia).
  wp_step. eapply wp_lift_Ok; [apply order_to_size_spec; lia|]. wp_step. apply wp_add; [lia|]. wp_step.
  eapply returns_mono; [apply (add_refines _ f); [done|lia]|]. intros [] b1 [Hr1 Hs1]. do 2 wp_step.
  eapply returns_mono; [apply IH; [by apply rep_stats|lia..]|].
  intros _ b2 [Hr2 Hs2]. split; [done|]. by etransitivity.
Qed.

Lemma buddy_address_spec b a o Q :
  0 ≤ o ≤ MAX_ORDER → 0 ≤ base b ≤ a → buddy_of (base b) a o < 2 ^ 64 → Q (buddy_of (base b) a o) b →
  returns (buddy_address (E:=E) a o) Q b.
Proof.
  intros Ho Hb Hlt HQ. unfold buddy_address, buddy_of in *. wp_step.
  eapply wp_lift_Ok; [by apply order_to_size_spec|]. do 2 wp_step. wp_step. apply wp_sub; [lia|]. by apply wp_add.
Qed.

(** Addresses near the region: all buddies of blocks stay below [2 ^ 64]. *)
Definition near (bs a : Z) : Prop := 0 ≤ bs ∧ bs ≤ a < bs + bsize 11 ∧ bs + bsize 11 ≤ 2 ^ 64.

Lemma near_buddy bs a o : near bs a → 0 ≤ o ≤ MAX_ORDER → near bs (buddy_of bs a o).
Proof.
  unfold near, MAX_ORDER, buddy_of. change (bsize 11) with (2 ^ 23). intros (H0 & [H1 H2] & H3) Ho.
  assert (in_u 23 (bsize o)) as Hb.
  { unfold in_u, bsize, MIN_BLOCK_SIZE. assert (2 ^ o ≤ 2 ^ 10) by (apply Z.pow_le_mono_r; lia).
    pose proof (pow2_pos o ltac:(lia)). lia. }
  assert (in_u 23 (a - bs)) as Ha by (unfold in_u; lia).
  pose proof (in_u_lxor 23 _ _ ltac:(lia) Ha Hb) as [? ?]. lia.
Qed.

Lemma merge_refines n : ∀ b f a o,
  rep b f → near (base b) a → 0 ≤ o → o + Z.of_nat n ≤ MAX_ORDER →
  returns (merge_go (E:=E) n a o)
    (λ r b', ∃ a' o' f', f_merge n (base b) a o f = (a', o', f') ∧ r = (a', o') ∧
      rep b' f' ∧ same_region b b' ∧ near (base b) a' ∧ o ≤ o' ≤ o + Z.of_nat n) b.
Proof.
  induction n as [|n IH]; intros b f a o Hr Ha Ho Hn; simpl.
  { wp_step. exists a, o, f. split_and!; done || apply Ha || lia. }
  pose proof (near_buddy _ _ o Ha ltac:(lia)) as Hb.
  wp_step. apply buddy_address_spec; [lia| |unfold near in Hb; lia|]; [unfold near in Ha; lia|].
  wp_step. eapply returns_mono; [apply is_free_refines; [done|lia]|]. intros r b' [-> ->].
  destruct (decide (buddy_of (base b) a o ∈ f_list f o)) as [Hin|Hout].
  - rewrite bool_decide_eq_true_2 by done. simpl. wp_step.
    eapply returns_mono; [apply (remove_specific_refines _ f); [done|lia]|].
    intros r b1 (Hs1 & -> & Hr1). rewrite bool_decide_eq_true_2 in * by done. simpl. do 2 wp_step.
    eapply returns_mono; [apply (IH (set_stats count_merge b1) (f_remove o (buddy_of (base b) a o) f));
      [by apply rep_stats| |lia..]|].
    + simpl. destruct Hs1 as [-> _]. unfold near in *. lia.
    + intros r b2 (a' & o' & f' & Hf & -> & Hr2 & Hs2 & Hn2 & Ho2). exists a', o', f'. simpl in *.
      destruct Hs1 as (Hb1 & Hz1 & Hm1). rewrite Hb1 in *. split_and!; try done; try lia.
      destruct Hs2 as (? & ? & ?). unfold same_region. simpl in *. split_and!; congruence.
  - rewrite bool_decide_eq_false_2 by done. simpl. wp_step. exists a, o, f. split_and!; done || apply Ha || lia.
Qed.

(** The order of a request. *)
Definition order_of (sz : Z) : Z := Z.max 0 (Z.log2_up sz - 12).

Lemma size_to_order_eq sz : sz ≤ 2 ^ 63 → size_to_order (E:=E) sz = Ok (order_of sz).
Proof.
  intros Hsz. destruct (size_to_order_spec sz Hsz) as (o & -> & Ho & Hle & Hlow). f_equal.
  unfold order_of, bsize, MIN_BLOCK_SIZE in *. change 4096 with (2 ^ 12) in *.
  rewrite <- Z.pow_add_r in Hle by lia. destruct (decide (o = 0)) as [->|Hne].
  - apply Z.log2_up_le_mono in Hle. rewrite Z.log2_up_pow2 in Hle by lia. lia.
  - destruct Hlow as [?|Hlow]; [lia|]. rewrite <- Z.pow_add_r in Hlow by lia.
    rewrite (Z.log2_up_unique sz (12 + o)); [lia|lia|]. split; [|done].
    replace (Z.pred (12 + o)) with (12 + (o - 1)) by lia. done.
Qed.

Definition bit_at (bm : list Z) (p : Z) : bool :=
  match vget bm (p / 64) with Some w => Z.testbit w (p mod 64) | None => false end.

Lemma set_allocated_refines b f a v :
  rep b f → base b ≤ a →
  returns (set_allocated (E:=E) a v)
    (λ _ b', rep b' f ∧ base b' = base b ∧ size b' = size b ∧
      len (allocated_bitmap b') = len (allocated_bitmap b) ∧
      ∀ p, 0 ≤ p < len (allocated_bitmap b) * 64 →
        bit_at (allocated_bitmap b') p =
          if p =? (a - base b) / MIN_BLOCK_SIZE then v else bit_at (allocated_bitmap b) p) b.
Proof.
  intros Hr Ha. unfold set_allocated. do 2 wp_step. wp_step. apply wp_sub; [done|]. do 2 wp_step. simpl.
  set (page := (a - base b) / MIN_BLOCK_SIZE).
  assert (0 ≤ page) by (apply Z.div_pos; unfold MIN_BLOCK_SIZE; lia).
  destruct (vget (allocated_bitmap b) (page / 64)) as [w|] eqn:Hw; wp_step.
  - pose proof Hw as [Hwr _]%vget_Some. split_and!; [by apply rep_bitmap|done|done|by simpl; rewrite len_vset|].
    intros p Hp. simpl. unfold bit_at. rewrite vget_vset by (done || apply Z.div_pos; lia).
    destruct (Z.eqb_spec (p / 64) (page / 64)) as [Hq|Hq].
    + assert ((p =? page) = (page mod 64 =? p mod 64)) as ->.
      { pose proof (Z.div_mod p 64). pose proof (Z.div_mod page 64).
        destruct (Z.eqb_spec p page), (Z.eqb_spec (page mod 64) (p mod 64)); try done; [by subst|lia]. }
      rewrite Hq, Hw. pose proof (Z.mod_pos_bound p 64). pose proof (Z.mod_pos_bound page 64).
      destruct v; [rewrite Z.lor_spec|rewrite Z.ldiff_spec];
        rewrite Z.shiftl_1_l, Z.pow2_bits_eqb by lia; destruct (page mod 64 =? p mod 64);
        by rewrite ?orb_true_r, ?orb_false_r, ?andb_false_r, ?andb_true_r.
    + destruct (Z.eqb_spec p page); [by subst|done].
  - apply vget_None in Hw; [|by apply Z.div_pos]. split_and!; try done.
    intros p Hp. destruct (Z.eqb_spec p page) as [->|]; [|done]. exfalso.
    assert (page / 64 < len (allocated_bitmap b)) by (apply Z.div_lt_upper_bound; lia). lia.
Qed.

(** Every free block lies between the base and the end of the addresses. *)
Definition f_near (bs : Z) (f : Free) : Prop :=
  ∀ o a, 0 ≤ o ≤ MAX_ORDER → a ∈ f_list f o → 0 ≤ bs ≤ a ∧ a + bsize o ≤ 2 ^ 64.

Definition f_request (sz : Z) (f : Free) : option Z * Free :=
  let order := order_of (Z.max sz MIN_BLOCK_SIZE) in
  if MAX_ORDER <? order then (None, f) else f_alloc order f.

Lemma f_find_Some n f : ∀ o o' a,
  f_find n o f = Some (o', a) → o ≤ o' < o + Z.of_nat n ∧ ∃ l, f_list f o' = a :: l.
Proof.
  induction n as [|n IH]; intros o o' a; simpl; [done|].
  destruct (f_list f o) as [|x l] eqn:Hl.
  - intros (? & ?)%IH. split; [lia|done].
  - intros [= <- <-]. split; [lia|by exists l].
Qed.

(** What marking does to the bits of the first 4096 pages. *)
Definition marks (bs : Z) (a : option Z) (v : bool) (bm bm' : list Z) : Prop :=
  len bm' = len bm ∧
  ∀ p, 0 ≤ p < len bm * 64 →
    bit_at bm' p = match a with
                   | Some a => if p =? (a - bs) / MIN_BLOCK_SIZE then v else bit_at bm p
                   | None => bit_at bm p
                   end.

Lemma allocate_refines b f sz :
  rep b f → f_near (base b) f → sz ≤ 2 ^ 63 →
  returns (allocate (E:=E) sz)
    (λ r b', r = (f_request sz f).1 ∧ rep b' (f_request sz f).2 ∧ base b' = base b ∧ size b' = size b ∧
      marks (base b) r true (allocated_bitmap b) (allocated_bitmap b')) b.
Proof.
  intros Hr Hnear Hsz. unfold allocate, f_request, f_alloc.
  set (k := order_of (Z.max sz MIN_BLOCK_SIZE)). assert (0 ≤ k) by (unfold k, order_of; lia).
  wp_step. eapply wp_lift_Ok; [apply size_to_order_eq; unfold MIN_BLOCK_SIZE; lia|]. fold k.
  destruct (Z.ltb_spec MAX_ORDER k) as [Hbig|Hk].
  { do 3 wp_step. split_and!; try done. by apply rep_stats. }
  wp_step. unfold find_free_block. eapply returns_mono; [apply (find_refines b f); [done|lia..]|].
  intros r b' [-> ->]. destruct (f_find _ k f) as [[o a]|] eqn:Hf; simpl; [|by wp_step].
  apply f_find_Some in Hf as [Ho [l Hl]].
  wp_step. eapply returns_mono; [apply (remove_head_refines b f o a l); [done|lia|done]|].
  intros r b1 (-> & Hr1 & Hs1). destruct (Hnear o a ltac:(lia)) as [Hba Hend]; [rewrite Hl; by left|].
  wp_step. eapply returns_mono; [apply (split_refines _ b1 (f_remove o a f)); [done|lia..]|].
  intros [] b2 [Hr2 Hs2]. destruct Hs1 as (Hb1 & Hz1 & Hm1), Hs2 as (Hb2 & Hz2 & Hm2).
  wp_step. eapply returns_mono; [apply (set_allocated_refines b2); [done|lia]|].
  intros [] b3 (Hr3 & Hb3 & Hz3 & Hl3 & Hm3). do 3 wp_step. simpl.
  rewrite Hb2, Hb1, Hm2, Hm1 in *. split_and!; try done; try congruence. by apply rep_stats.
Qed.

Lemma deallocate_refines b f a sz :
  rep b f → near (base b) a → sz ≤ 2 ^ 63 → order_of (Z.max sz MIN_BLOCK_SIZE) ≤ MAX_ORDER →
  returns (deallocate (E:=E) a sz)
    (λ _ b', rep b' (f_free (base b) a (order_of (Z.max sz MIN_BLOCK_SIZE)) f) ∧
      base b' = base b ∧ size b' = size b ∧
      marks (base b) (Some a) false (allocated_bitmap b) (allocated_bitmap b')) b.
Proof.
  intros Hr Ha Hsz Hk. unfold deallocate, f_free. set (k := order_of (Z.max sz MIN_BLOCK_SIZE)) in *.
  assert (0 ≤ k) by (unfold k, order_of; lia).
  wp_step. eapply wp_lift_Ok; [apply size_to_order_eq; unfold MIN_BLOCK_SIZE; lia|]. fold k.
  wp_step. eapply returns_mono; [apply (set_allocated_refines b f); [done|unfold near in Ha; lia]|].
  intros [] b1 (Hr1 & Hb1 & Hz1 & Hl1 & Hm1). wp_step.
  eapply returns_mono; [apply (merge_refines _ b1 f); [done|by rewrite Hb1|lia..]|].
  intros r b2 (a' & o' & f' & Hf & -> & Hr2 & (Hb2 & Hz2 & Hm2) & Hn2 & Ho2).
  rewrite Hb1 in Hf. rewrite Hf. simpl. wp_step.
  eapply returns_mono; [apply (add_refines b2 f'); [done|lia]|]. intros [] b3 (Hr3 & Hb3 & Hz3 & Hm3). wp_step.
  split_and!; try (simpl; congruence); [by apply rep_stats|]. split; simpl; rewrite Hm3, Hm2; done.
Qed.

Definition f_empty : Free := mkFree (λ _, []) 0.

Lemma new_rep : rep buddy_new f_empty.
Proof.
  exists (λ _, []). split; try done.
  - intros o Ho. exists None. split; [|constructor]. apply vget_Some.
    unfold MAX_ORDER in Ho. split; [unfold len; simpl; lia|].
    change (free_lists buddy_new) with (replicate 11 (@None Z)). apply lookup_replicate_2. lia.
  - intros. constructor.
  - intros o o' s _ _ ?%not_elem_of_nil. done.
  - intros o s _ ?%not_elem_of_nil. done.
Qed.

Lemma init_refines b f bs sz :
  rep b f → sz ≤ 2 ^ 63 →
  returns (init (E:=E) bs sz)
    (λ _ b', rep b' (f_add (Z.min (order_of sz) MAX_ORDER) bs f) ∧ base b' = bs ∧ size b' = sz ∧
      allocated_bitmap b' = allocated_bitmap b) b.
Proof.
  intros [G HG] Hsz. unfold init. do 2 wp_step. wp_step. eapply wp_lift_Ok; [by apply size_to_order_eq|].
  eapply returns_mono; [apply (add_refines _ f)|].
  - exists G. destruct HG. by split.
  - unfold order_of, MAX_ORDER. lia.
  - intros [] b' (Hr & Hb & Hz & Hm). done.
Qed.

(** [stats] counts the lists and weighs them with the block sizes. *)
Lemma count_walk_refines b fuel : ∀ l cur n,
  chain (blocks b) cur l → (length l < fuel)%nat →
  returns (count_go (E:=E) fuel n cur) (λ r b', b' = b ∧ r = n + len l) b.
Proof.
  induction fuel as [|fuel IH]; intros l cur n Hc Hf; [lia|]. simpl.
  destruct Hc as [|s x next l Hs Hc]; [wp_step; split; [done|unfold len; simpl; lia]|].
  do 3 wp_step. eapply wp_unwrap_Some; [done|]. simpl in *.
  eapply returns_mono; [apply (IH l next _ Hc); lia|]. intros r b' [-> ->]. split; [done|]. rewrite len_cons. lia.
Qed.

Definition weigh (f : Free) (os : list Z) : Z := foldr (λ o n, n + len (f_list f o) * bsize o) 0 os.

Lemma counts_refines b f os :
  rep b f → Forall (λ o, 0 ≤ o ≤ MAX_ORDER) os →
  returns (counts_go (E:=E) os) (λ r b', b' = b ∧ r = ((λ o, len (f_list f o)) <$> os, weigh f os)) b.
Proof.
  intros Hr. induction os as [|o os IH]; intros Hos; simpl; [by wp_step|].
  apply Forall_cons in Hos as [Ho Hos]. pose proof Hr as [G HG].
  destruct (lk_chain _ _ _ HG o Ho) as (hd & Hhd & Hc).
  wp_step. unfold count_order. do 3 wp_step. eapply wp_unwrap_Some; [done|].
  eapply returns_mono; [apply count_walk_refines; [done|by eapply rep_walk_fuel]|]. intros r b' [-> ->].
  wp_step. eapply wp_lift_Ok; [by apply order_to_size_spec|]. wp_step.
  eapply returns_mono; [by apply IH|]. intros r b' [-> ->]. wp_step. split; [done|].
  assert (len (G o) = len (f_list f o)) as ->.
  { rewrite <- (lk_addrs _ _ _ HG o Ho). unfold len. by rewrite length_fmap. }
  by rewrite Z.add_0_l.
Qed.

Lemma stats_refines b f :
  rep b f →
  returns (get_stats (E:=E))
    (λ r b', b' = b ∧ r = mkBuddyAllocatorStats ((λ o, len (f_list f o)) <$> orders) (size b) (weigh f orders)) b.
Proof.
  intros Hr. unfold get_stats. wp_step. eapply returns_mono; [apply counts_refines; [done|]|].
  - unfold orders, MAX_ORDER. repeat constructor; lia.
  - intros r b' [-> ->]. by do 3 wp_step.
Qed.

End refinement.
