(* ===== verification/BuddyBlocks.v ===== *)
(** * The buddy allocator: blocks of memory

    What [Buddy] promises its callers.  A block is an address with an order;
    [covers] counts the blocks over a byte.  [reach] is the allocator under any
    sequence of [allocate] and [deallocate] calls of clients that free what
    they were given, with the list of the blocks they hold. *)

From S2P Require Import Prelude Buddy.

(** ** Blocks *)

(** 1 for the bytes of a block, 0 elsewhere. *)
Definition covers (o a x : Z) : Z := if (a <=? x) && (x <? a + bsize o) then 1 else 0.

Definition cover_list (o : Z) (l : list Z) (x : Z) : Z := foldr (λ a n, covers o a x + n) 0 l.
Definition cover_free (f : Free) (x : Z) : Z := foldr (λ o n, cover_list o (f_list f o) x + n) 0 orders.
Definition cover_held (A : list (Z * Z)) (x : Z) : Z := foldr (λ p n, covers p.2 p.1 x + n) 0 A.

(** Held blocks as (address, order). *)
Abbreviation held := (list (Z * Z)).

Definition request_order (n : Z) : Z := order_of (Z.max n MIN_BLOCK_SIZE).

Inductive reach (bs sz : Z) : BuddyAllocator → held → Prop :=
| reach_init b :
    init (E:=unit) bs sz buddy_new = (Ok tt, b) → reach bs sz b []
| reach_alloc b A n a b' :
    reach bs sz b A → n ≤ 2 ^ 63 → allocate (E:=unit) n b = (Ok (Some a), b') →
    reach bs sz b' ((a, request_order n) :: A)
| reach_none b A n b' :
    reach bs sz b A → n ≤ 2 ^ 63 → allocate (E:=unit) n b = (Ok None, b') → reach bs sz b' A
| reach_free b A1 A2 n a b' :
    reach bs sz b (A1 ++ (a, request_order n) :: A2) → n ≤ 2 ^ 63 →
    deallocate (E:=unit) a n b = (Ok tt, b') → reach bs sz b' (A1 ++ A2).

(** The order of the block the region starts as. *)
Definition region_order (sz : Z) : Z := Z.min (order_of sz) MAX_ORDER.

(** The buddy addresses of the region do not wrap. *)
Definition region_ok (bs sz : Z) : Prop := 0 ≤ bs ∧ bs + bsize 11 ≤ 2 ^ 64 ∧ sz ≤ 2 ^ 63.

(** ** The invariant on the lists *)

Record blocks_inv (bs O : Z) (f : Free) (A : held) : Prop := {
  bi_free : ∀ o a, 0 ≤ o ≤ MAX_ORDER → a ∈ f_list f o → (bsize o | a - bs);
  bi_held : ∀ a o, (a, o) ∈ A → 0 ≤ o ≤ MAX_ORDER ∧ (bsize o | a - bs);
  bi_cover : ∀ x, cover_free f x + cover_held A x ≤ covers O bs x;
  bi_exact : f_used f < SLOTS → ∀ x, cover_free f x + cover_held A x = covers O bs x;
  bi_apart : ∀ o a, 0 ≤ o < MAX_ORDER → a ∈ f_list f o → buddy_of bs a o ∉ f_list f o;
}.

(** ** Counting *)

Lemma bsize_pos o : 0 ≤ o → 0 < bsize o.
Proof. intros. unfold bsize, MIN_BLOCK_SIZE. pose proof (pow2_pos o ltac:(lia)). lia. Qed.

Lemma bsize_S o : 0 ≤ o → bsize (o + 1) = 2 * bsize o.
Proof. intros. unfold bsize. rewrite Z.pow_add_r by lia. lia. Qed.

Lemma bsize_mono o o' : 0 ≤ o ≤ o' → bsize o ≤ bsize o'.
Proof. intros. unfold bsize, MIN_BLOCK_SIZE. pose proof (Z.pow_le_mono_r 2 o o'). lia. Qed.

Lemma covers_range o a x : 0 ≤ covers o a x ≤ 1.
Proof. unfold covers. case_match; lia. Qed.

Lemma covers_in o a x : a ≤ x < a + bsize o → covers o a x = 1.
Proof. intros. unfold covers. destruct (Z.leb_spec a x), (Z.ltb_spec x (a + bsize o)); done || lia. Qed.

Lemma covers_1 o a x : 0 < covers o a x → a ≤ x < a + bsize o.
Proof. unfold covers. destruct (Z.leb_spec a x), (Z.ltb_spec x (a + bsize o)); simpl; lia. Qed.

Lemma covers_halves o a x : 0 ≤ o → covers (o + 1) a x = covers o a x + covers o (a + bsize o) x.
Proof.
  intros. unfold covers. rewrite bsize_S by lia. pose proof (bsize_pos o).
  destruct (Z.leb_spec a x), (Z.ltb_spec x (a + 2 * bsize o)), (Z.ltb_spec x (a + bsize o)),
    (Z.leb_spec (a + bsize o) x), (Z.ltb_spec x (a + bsize o + bsize o)); simpl; lia.
Qed.

Lemma cover_list_nonneg o l x : 0 ≤ cover_list o l x.
Proof. induction l as [|a l IH]; simpl; [lia|]. pose proof (covers_range o a x). lia. Qed.

Lemma cover_held_nonneg A x : 0 ≤ cover_held A x.
Proof. induction A as [|p A IH]; simpl; [lia|]. pose proof (covers_range p.2 p.1 x). lia. Qed.

Lemma cover_held_app A B x : cover_held (A ++ B) x = cover_held A x + cover_held B x.
Proof. induction A as [|p A IH]; simpl; lia. Qed.

Lemma cover_held_elem A a o x : (a, o) ∈ A → covers o a x ≤ cover_held A x.
Proof.
  intros (A1 & A2 & ->)%list_elem_of_split. rewrite cover_held_app. simpl.
  pose proof (cover_held_nonneg A1 x). pose proof (cover_held_nonneg A2 x). lia.
Qed.

Lemma cover_list_elem o l a x : a ∈ l → covers o a x ≤ cover_list o l x.
Proof.
  induction 1 as [a l|a b l _ IH]; simpl; [pose proof (cover_list_nonneg o l x); lia|].
  pose proof (covers_range o b x). lia.
Qed.

Lemma cover_remove_first o l a x :
  a ∈ l → cover_list o (remove_first a l) x = cover_list o l x - covers o a x.
Proof.
  induction 1 as [a l|a b l _ IH]; simpl; [rewrite Z.eqb_refl; lia|].
  destruct (Z.eqb_spec b a) as [->|]; simpl; lia.
Qed.

Lemma cover_free_upd f o l u x :
  0 ≤ o ≤ MAX_ORDER →
  cover_free (mkFree (upd (f_list f) o l) u) x =
    cover_free f x - cover_list o (f_list f o) x + cover_list o l x.
Proof.
  unfold MAX_ORDER. intros Ho.
  assert (o ∈ orders) as Hin by (unfold orders; set_unfold; lia).
  unfold cover_free. simpl.
  case_elem Hin; unfold upd; simpl; lia.
Qed.

Lemma cover_free_nonneg f x : 0 ≤ cover_free f x.
Proof.
  unfold cover_free. induction orders as [|o l IH]; simpl; [lia|].
  pose proof (cover_list_nonneg o (f_list f o) x). lia.
Qed.

Lemma cover_free_elem f o a x :
  0 ≤ o ≤ MAX_ORDER → a ∈ f_list f o → covers o a x ≤ cover_free f x.
Proof.
  intros Ho Ha. pose proof (cover_free_upd f o [] 0 x Ho) as Hu. simpl in Hu.
  pose proof (cover_free_nonneg (mkFree (upd (f_list f) o []) 0) x).
  pose proof (cover_list_elem o _ a x Ha). lia.
Qed.

Lemma cover_remove f o a x :
  0 ≤ o ≤ MAX_ORDER → a ∈ f_list f o → cover_free (f_remove o a f) x = cover_free f x - covers o a x.
Proof. intros Ho Ha. unfold f_remove. rewrite cover_free_upd, cover_remove_first by done. lia. Qed.

Lemma cover_add f o a x :
  0 ≤ o ≤ MAX_ORDER →
  cover_free (f_add o a f) x ≤ cover_free f x + covers o a x ∧
  (f_used (f_add o a f) < SLOTS → cover_free (f_add o a f) x = cover_free f x + covers o a x).
Proof.
  intros Ho. unfold f_add. destruct (Z.leb_spec SLOTS (f_used f)).
  - pose proof (covers_range o a x). split; lia.
  - rewrite cover_free_upd by done. simpl. lia.
Qed.

(** ** Buddies *)

Lemma lxor_1 q : Z.lxor q 1 = if Z.even q then q + 1 else q - 1.
Proof.
  rewrite (Z.div_mod q 2) at 1 by lia. rewrite Zmod_even. set (t := q / 2).
  assert (Z.land (2 * t) 1 = 0) as Hl.
  { change 1 with (Z.ones 1). rewrite Z.land_ones by lia. change (2 ^ 1) with 2. rewrite Z.mul_comm. apply Z.mod_mul. lia. }
  pose proof (Z.add_nocarry_lxor _ _ Hl) as Hx. pose proof (Z.div_mod q 2). rewrite Zmod_even in *.
  destruct (Z.even q).
  - rewrite Z.add_0_r, <- Hx. fold t in H. lia.
  - rewrite Hx, Z.lxor_assoc, Z.lxor_nilpotent, Z.lxor_0_r. fold t in H. lia.
Qed.

(** The buddy of the [q]-th block of an order is the [q + 1]-st or the [q - 1]-st. *)
Lemma buddy_of_spec bs a o :
  0 ≤ o → (bsize o | a - bs) →
  (∃ q, a = bs + 2 * q * bsize o ∧ buddy_of bs a o = a + bsize o) ∨
  (∃ q, a = bs + (2 * q + 1) * bsize o ∧ buddy_of bs a o = a - bsize o).
Proof.
  intros Ho [q Hq]. unfold buddy_of. rewrite Hq.
  assert (Z.lxor (q * bsize o) (bsize o) = Z.lxor q 1 * bsize o) as ->.
  { unfold bsize, MIN_BLOCK_SIZE. change 4096 with (2 ^ 12). rewrite <- Z.pow_add_r by lia.
    rewrite <- (Z.mul_1_l (2 ^ (12 + o))) at 2. rewrite <- !Z.shiftl_mul_pow2 by lia. by rewrite <- Z.shiftl_lxor. }
  rewrite lxor_1. destruct (Z.even q) eqn:He.
  - left. apply Z.even_spec in He as [t ->]. exists t. lia.
  - right. assert (Z.odd q = true) as Hodd by (by rewrite <- Z.negb_even, He).
    apply Z.odd_spec in Hodd as [t ->]. exists t. lia.
Qed.

Lemma buddy_involutive bs a o :
  0 ≤ o → buddy_of bs (buddy_of bs a o) o = a.
Proof.
  intros Ho. unfold buddy_of. replace (bs + Z.lxor (a - bs) (bsize o) - bs) with (Z.lxor (a - bs) (bsize o)) by lia.
  rewrite Z.lxor_assoc, Z.lxor_nilpotent, Z.lxor_0_r. lia.
Qed.

Lemma buddy_merge bs a o x :
  0 ≤ o → (bsize o | a - bs) →
  covers o a x + covers o (buddy_of bs a o) x = covers (o + 1) (Z.min a (buddy_of bs a o)) x ∧
  (bsize (o + 1) | Z.min a (buddy_of bs a o) - bs) ∧
  (bsize o | buddy_of bs a o - bs).
Proof.
  intros Ho Hd. pose proof (bsize_pos o Ho). rewrite bsize_S by done.
  destruct (buddy_of_spec bs a o Ho Hd) as [(q & -> & ->)|(q & -> & ->)].
  - rewrite Z.min_l by lia. split_and!; [by rewrite covers_halves|exists q; lia|exists (2 * q + 1); lia].
  - rewrite Z.min_r by lia. split_and!; [|exists q; lia|exists (2 * q); lia].
    rewrite covers_halves by lia.
    replace (bs + (2 * q + 1) * bsize o - bsize o + bsize o) with (bs + (2 * q + 1) * bsize o) by lia. lia.
Qed.

Lemma buddy_ne bs a o : 0 ≤ o → (bsize o | a - bs) → buddy_of bs a o ≠ a.
Proof.
  intros Ho Hd. pose proof (bsize_pos o Ho).
  destruct (buddy_of_spec bs a o Ho Hd) as [(q & _ & ->)|(q & _ & ->)]; lia.
Qed.

(** ** Splitting and merging *)

Lemma f_add_list f o a o' x : x ∈ f_list (f_add o a f) o' → x ∈ f_list f o' ∨ (o' = o ∧ x = a).
Proof.
  unfold f_add. case_match; [auto|]. simpl. unfold upd. destruct (Z.eqb_spec o' o) as [->|]; [|auto].
  intros [->|]%elem_of_cons; auto.
Qed.

Lemma remove_first_sub a l x : x ∈ remove_first a l → x ∈ l.
Proof.
  induction l as [|y l IH]; simpl; [done|]. destruct (y =? a); [by right|].
  intros [->|?]%elem_of_cons; [left|right]; auto.
Qed.

Lemma f_remove_list f o a o' x : x ∈ f_list (f_remove o a f) o' → x ∈ f_list f o'.
Proof.
  unfold f_remove. simpl. unfold upd. destruct (Z.eqb_spec o' o) as [->|]; [|done]. apply remove_first_sub.
Qed.

Lemma f_add_used f o a : f_used f ≤ f_used (f_add o a f).
Proof. unfold f_add. case_match; simpl; lia. Qed.

Lemma f_split_used n : ∀ f a cur, f_used f ≤ f_used (f_split n a cur f).
Proof.
  induction n as [|n IH]; intros f a cur; simpl; [lia|].
  etransitivity; [apply (f_add_used f (cur - 1) (a + bsize (cur - 1)))|apply IH].
Qed.

(** A block of order [cur] becomes one of order [cur - n] and the rest free. *)
Lemma f_split_cover n x : ∀ f a cur,
  0 ≤ cur - Z.of_nat n → cur ≤ MAX_ORDER →
  cover_free (f_split n a cur f) x + covers (cur - Z.of_nat n) a x ≤ cover_free f x + covers cur a x ∧
  (f_used (f_split n a cur f) < SLOTS →
   cover_free (f_split n a cur f) x + covers (cur - Z.of_nat n) a x = cover_free f x + covers cur a x).
Proof.
  induction n as [|n IH]; intros f a cur Hlow Hc; simpl; [replace (cur - Z.of_nat 0) with cur by lia; lia|].
  pose proof (covers_halves (cur - 1) a x ltac:(lia)) as Hh. replace (cur - 1 + 1) with cur in Hh by lia.
  destruct (cover_add f (cur - 1) (a + bsize (cur - 1)) x ltac:(lia)) as [Hle Heq].
  destruct (IH (f_add (cur - 1) (a + bsize (cur - 1)) f) a (cur - 1)) as [IH1 IH2]; [lia..|].
  replace (cur - 1 - Z.of_nat n) with (cur - Z.of_nat (S n)) in * by lia.
  pose proof (f_split_used n (f_add (cur - 1) (a + bsize (cur - 1)) f) a (cur - 1)).
  split; [lia|]. intros Hu. rewrite IH2, Heq by lia. lia.
Qed.

Lemma f_split_list n : ∀ f a cur o x,
  0 ≤ cur - Z.of_nat n → x ∈ f_list (f_split n a cur f) o →
  x ∈ f_list f o ∨ (cur - Z.of_nat n ≤ o < cur ∧ x = a + bsize o).
Proof.
  induction n as [|n IH]; intros f a cur o x Hlow; simpl; [auto|].
  intros [Hin|[? ->]]%IH; [|right; split; [lia|done]|lia].
  apply f_add_list in Hin as [?|[-> ->]]; [by left|right]. split; [lia|done].
Qed.

Lemma f_merge_spec n bs : ∀ a o f a' o' f',
  0 ≤ o → o + Z.of_nat n = MAX_ORDER → (bsize o | a - bs) →
  (∀ o a, 0 ≤ o ≤ MAX_ORDER → a ∈ f_list f o → (bsize o | a - bs)) →
  f_merge n bs a o f = (a', o', f') →
  o ≤ o' ≤ MAX_ORDER ∧ (bsize o' | a' - bs) ∧ f_used f' = f_used f ∧
  (∀ x, cover_free f' x + covers o' a' x = cover_free f x + covers o a x) ∧
  (∀ o x, x ∈ f_list f' o → x ∈ f_list f o) ∧
  (o' = MAX_ORDER ∨ buddy_of bs a' o' ∉ f_list f' o').
Proof.
  induction n as [|n IH]; intros a o f a' o' f' Ho Hn Ha Hf; simpl.
  { intros [= <- <- <-]. split_and!; try done; lia. }
  destruct (decide (buddy_of bs a o ∈ f_list f o)) as [Hin|Hout].
  - intros Hm. destruct (buddy_merge bs a o 0 Ho Ha) as (_ & Hd & _).
    apply IH in Hm as (H1 & H2 & H3 & H4 & H5 & H6); [|lia|lia|done|].
    + split_and!; [lia|lia|done|done| | |done].
      * intros x. rewrite H4, cover_remove by (done || lia).
        destruct (buddy_merge bs a o x Ho Ha) as (Hc & _). lia.
      * intros o2 x Hx. eapply f_remove_list, H5, Hx.
    + intros o2 a2 Ho2 Ha2. eapply Hf; [done|]. by eapply f_remove_list.
  - intros [= <- <- <-]. split_and!; try done; lia || (by right).
Qed.

(** ** The operations keep the invariant *)

Lemma bsize_divide o o' : 0 ≤ o ≤ o' → (bsize o | bsize o').
Proof.
  intros. exists (2 ^ (o' - o)). unfold bsize. replace o' with (o' - o + o) at 1 by lia.
  rewrite Z.pow_add_r by lia. lia.
Qed.

Lemma f_find_skips n f : ∀ o o' a, f_find n o f = Some (o', a) → ∀ o2, o ≤ o2 < o' → f_list f o2 = [].
Proof.
  induction n as [|n IH]; intros o o' a; simpl; [done|]. destruct (f_list f o) as [|y l] eqn:Hl.
  - intros Hf o2 Ho2. destruct (decide (o2 = o)) as [->|]; [done|]. eapply IH; [done|lia].
  - intros [= <- <-] o2 ?. lia.
Qed.

Lemma request_inv bs O f A n a f' :
  blocks_inv bs O f A → f_request n f = (Some a, f') → blocks_inv bs O f' ((a, request_order n) :: A).
Proof.
  intros HI. unfold f_request, f_alloc. change (order_of (Z.max n MIN_BLOCK_SIZE)) with (request_order n).
  set (k := request_order n). assert (0 ≤ k) by (unfold k, request_order, order_of; lia).
  destruct (Z.ltb_spec MAX_ORDER k); [done|].
  destruct (f_find _ k f) as [[o b]|] eqn:Hf; [|done]. intros [= -> <-].
  pose proof (f_find_skips _ _ _ _ _ Hf) as Hskip. apply f_find_Some in Hf as [Ho [l Hl]].
  assert (a ∈ f_list f o) as Ha by (rewrite Hl; by left).
  pose proof (bi_free _ _ _ _ HI o a ltac:(lia) Ha) as Hal.
  set (m := Z.to_nat (o - k)). assert (o - Z.of_nat m = k) as Hm by lia.
  assert (∀ o2 x, x ∈ f_list (f_split m a o (f_remove o a f)) o2 →
    x ∈ f_list f o2 ∨ (k ≤ o2 < o ∧ x = a + bsize o2)) as Hlist.
  { intros o2 x [Hx|Hx]%f_split_list; [left; by eapply f_remove_list|right; by rewrite Hm in Hx|lia]. }
  assert (∀ x, cover_free (f_remove o a f) x + covers o a x = cover_free f x) as Hrem.
  { intros x. rewrite cover_remove by (done || lia). lia. }
  split.
  - intros o2 x Ho2 [Hx|[Hr ->]]%Hlist; [by eapply bi_free|].
    replace (a + bsize o2 - bs) with ((a - bs) + bsize o2) by lia. apply Z.divide_add_r; [|apply Z.divide_refl].
    eapply Z.divide_trans; [apply (bsize_divide o2 o); lia|done].
  - intros a2 o2 [[= -> ->]|Hin]%elem_of_cons; [|by eapply bi_held]. split; [lia|].
    eapply Z.divide_trans; [apply (bsize_divide k o); lia|done].
  - intros x. pose proof (bi_cover _ _ _ _ HI x). specialize (Hrem x). simpl.
    destruct (f_split_cover m x (f_remove o a f) a o) as [Hle _]; [lia..|]. rewrite Hm in Hle. lia.
  - intros Hu x. specialize (Hrem x). simpl.
    destruct (f_split_cover m x (f_remove o a f) a o) as [_ Heq]; [lia..|]. rewrite Hm in Heq.
    pose proof (f_split_used m (f_remove o a f) a o) as Hmono. simpl in Hmono.
    pose proof (bi_exact _ _ _ _ HI ltac:(lia) x). specialize (Heq Hu). lia.
  - intros o2 x Ho2 Hx%Hlist Hb%Hlist. destruct Hx as [Hx|[Hr ->]], Hb as [Hb|[Hr2 Hb]].
    + by apply (bi_apart _ _ _ _ HI o2 x).
    + rewrite (Hskip o2) in Hx by lia. by apply not_elem_of_nil in Hx.
    + rewrite (Hskip o2) in Hb by lia. by apply not_elem_of_nil in Hb.
    + revert Hb. apply buddy_ne; [lia|]. replace (a + bsize o2 - bs) with ((a - bs) + bsize o2) by lia.
      apply Z.divide_add_r; [|apply Z.divide_refl]. eapply Z.divide_trans; [apply (bsize_divide o2 o); lia|done].
Qed.

Lemma request_none_inv bs O f A n f' :
  blocks_inv bs O f A → f_request n f = (None, f') → f' = f.
Proof. intros HI. unfold f_request, f_alloc. repeat case_match; congruence. Qed.

Lemma free_inv bs O f A1 A2 a o :
  blocks_inv bs O f (A1 ++ (a, o) :: A2) → blocks_inv bs O (f_free bs a o f) (A1 ++ A2).
Proof.
  intros HI. destruct (bi_held _ _ _ _ HI a o) as [Ho Ha]; [apply elem_of_app; right; by left|].
  unfold f_free. destruct (f_merge _ bs a o f) as [[a' o'] f'] eqn:Hm.
  apply f_merge_spec in Hm as (Ho' & Ha' & Hu & Hc & Hsub & Hend); [|lia|lia|done|apply HI].
  assert (∀ x, cover_held (A1 ++ (a, o) :: A2) x = cover_held (A1 ++ A2) x + covers o a x) as Hheld.
  { intros x. rewrite !cover_held_app. simpl. lia. }
  split.
  - intros o2 x Ho2 [Hx|[-> ->]]%f_add_list; [|done]. eapply bi_free; [done..|by apply Hsub].
  - intros a2 o2 Hin. apply (bi_held _ _ _ _ HI). rewrite elem_of_app, elem_of_cons. apply elem_of_app in Hin. tauto.
  - intros x. destruct (cover_add f' o' a' x ltac:(lia)) as [Hle _].
    pose proof (bi_cover _ _ _ _ HI x). rewrite Hheld in *. specialize (Hc x). lia.
  - intros Hlt x. destruct (cover_add f' o' a' x ltac:(lia)) as [_ Heq]. pose proof (f_add_used f' o' a').
    pose proof (bi_exact _ _ _ _ HI ltac:(lia) x) as He. rewrite Hheld in He. rewrite Heq by done.
    specialize (Hc x). lia.
  - intros o2 x Ho2 Hx%f_add_list Hb%f_add_list.
    destruct Hx as [Hx|[-> ->]], Hb as [Hb|[Heq Hb]].
    + eapply (bi_apart _ _ _ _ HI o2 x); auto.
    + subst o2. destruct Hend as [?|Hend]; [lia|]. apply Hend. rewrite <- Hb, buddy_involutive by lia. done.
    + destruct Hend as [?|Hend]; [lia|]. done.
    + revert Hb. apply buddy_ne; [lia|done].
Qed.

Lemma init_inv bs sz :
  let O := region_order sz in blocks_inv bs O (f_add O bs f_empty) [].
Proof.
  intros O. assert (0 ≤ O ≤ MAX_ORDER) as HO by (unfold O, region_order, order_of, MAX_ORDER; lia).
  assert (∀ o x, x ∈ f_list (f_add O bs f_empty) o → o = O ∧ x = bs) as Hl.
  { intros o x [Hx|?]%f_add_list; [by apply not_elem_of_nil in Hx|done]. }
  assert (∀ x, cover_free (f_add O bs f_empty) x = covers O bs x) as Hc.
  { intros x. destruct (cover_add f_empty O bs x HO) as [_ Heq]. rewrite Heq by done. change (cover_free f_empty x) with 0. lia. }
  split.
  - intros o x Ho [-> ->]%Hl. rewrite Z.sub_diag. apply Z.divide_0_r.
  - intros a o ?%not_elem_of_nil. done.
  - intros x. rewrite Hc. simpl. lia.
  - intros _ x. rewrite Hc. simpl. lia.
  - intros o x Ho [-> ->]%Hl [_ Hb]%Hl. revert Hb. apply buddy_ne; [lia|]. rewrite Z.sub_diag. apply Z.divide_0_r.
Qed.

(** ** Reachable allocators *)

Definition start_page (bs : Z) (p : Z * Z) : Z := (p.1 - bs) / MIN_BLOCK_SIZE.

Record buddy_inv (bs sz : Z) (b : BuddyAllocator) (A : held) (f : Free) : Prop := {
  bv_rep : rep b f;
  bv_blocks : blocks_inv bs (region_order sz) f A;
  bv_base : base b = bs;
  bv_bitmap : len (allocated_bitmap b) = 64;
  bv_bits : ∀ p, 0 ≤ p < 4096 → bit_at (allocated_bitmap b) p = bool_decide (p ∈ start_page bs <$> A);
}.

Lemma region_order_range sz : 0 ≤ region_order sz ≤ MAX_ORDER.
Proof. unfold region_order, order_of, MAX_ORDER. lia. Qed.

Lemma bit_at_zero n p : bit_at (replicate n 0) p = false.
Proof.
  unfold bit_at. destruct (vget (replicate n 0) (p / 64)) as [w|] eqn:Hw; [|done].
  apply vget_Some in Hw as [_ [-> _]%lookup_replicate]. apply Z.bits_0.
Qed.

Section inv.
Context (bs sz : Z) (Hreg : region_ok bs sz).

Lemma region_size : 0 < bsize (region_order sz) ≤ bsize 10.
Proof.
  pose proof (region_order_range sz). split; [apply bsize_pos; lia|]. apply bsize_mono. unfold MAX_ORDER in *. lia.
Qed.

(** A counted block lies in the region. *)
Lemma in_region o a :
  0 ≤ o → (∀ x, covers o a x ≤ covers (region_order sz) bs x) →
  bs ≤ a ∧ a + bsize o ≤ bs + bsize (region_order sz).
Proof.
  intros Ho Hc. pose proof (bsize_pos o Ho).
  pose proof (Hc a) as H1. pose proof (Hc (a + bsize o - 1)) as H2.
  rewrite covers_in in H1, H2 by lia.
  pose proof (covers_1 _ _ _ (Z.lt_le_trans 0 1 _ Z.lt_0_1 H1)).
  pose proof (covers_1 _ _ _ (Z.lt_le_trans 0 1 _ Z.lt_0_1 H2)). lia.
Qed.

Lemma held_in_region f A a o :
  blocks_inv bs (region_order sz) f A → (a, o) ∈ A →
  bs ≤ a ∧ a + bsize o ≤ bs + bsize (region_order sz).
Proof.
  intros HI Hin. destruct (bi_held _ _ _ _ HI a o Hin) as [Ho _]. apply in_region; [lia|]. intros x.
  pose proof (bi_cover _ _ _ _ HI x). pose proof (cover_free_nonneg f x).
  pose proof (cover_held_elem A a o x Hin). lia.
Qed.

Lemma free_in_region f A a o :
  blocks_inv bs (region_order sz) f A → 0 ≤ o ≤ MAX_ORDER → a ∈ f_list f o →
  bs ≤ a ∧ a + bsize o ≤ bs + bsize (region_order sz).
Proof.
  intros HI Ho Hin. apply in_region; [lia|]. intros x.
  pose proof (bi_cover _ _ _ _ HI x). pose proof (cover_held_nonneg A x).
  pose proof (cover_free_elem f o a x Ho Hin). lia.
Qed.

Lemma held_near f A a o : blocks_inv bs (region_order sz) f A → (a, o) ∈ A → near bs a.
Proof.
  intros HI Hin. pose proof (held_in_region _ _ _ _ HI Hin). destruct (bi_held _ _ _ _ HI a o Hin) as [Ho _].
  pose proof (bsize_pos o ltac:(lia)). pose proof region_size. destruct Hreg as (? & ? & ?).
  unfold near. change (bsize 11) with (2 * bsize 10) in *. lia.
Qed.

Lemma blocks_f_near f A : blocks_inv bs (region_order sz) f A → f_near bs f.
Proof.
  intros HI o a Ho Ha. pose proof (free_in_region _ _ _ _ HI Ho Ha). pose proof region_size.
  destruct Hreg as (? & ? & ?). change (bsize 11) with (2 * bsize 10) in *. lia.
Qed.

(** Two held blocks share no byte, so they start on different pages. *)
Lemma held_disjoint f A1 A2 a o a' o' :
  blocks_inv bs (region_order sz) f (A1 ++ (a, o) :: A2) → (a', o') ∈ A1 ++ A2 →
  a + bsize o ≤ a' ∨ a' + bsize o' ≤ a.
Proof.
  intros HI Hin. destruct (decide (a + bsize o ≤ a' ∨ a' + bsize o' ≤ a)) as [|Hno]; [done|exfalso].
  destruct (bi_held _ _ _ _ HI a o) as [Ho _]; [apply elem_of_app; right; by left|].
  destruct (bi_held _ _ _ _ HI a' o') as [Ho' _].
  { rewrite elem_of_app, elem_of_cons. apply elem_of_app in Hin. tauto. }
  pose proof (bi_cover _ _ _ _ HI (Z.max a a')) as Hc. rewrite cover_held_app in Hc. simpl in Hc.
  pose proof (cover_held_elem _ _ _ (Z.max a a') Hin) as H1. rewrite cover_held_app in H1.
  pose proof (bsize_pos o ltac:(lia)). pose proof (bsize_pos o' ltac:(lia)).
  rewrite covers_in in H1 by lia. rewrite (covers_in o a) in Hc by lia.
  pose proof (cover_free_nonneg f (Z.max a a')). pose proof (covers_range (region_order sz) bs (Z.max a a')). lia.
Qed.

Lemma start_page_inj f A1 A2 a o p :
  blocks_inv bs (region_order sz) f (A1 ++ (a, o) :: A2) → p ∈ A1 ++ A2 →
  start_page bs p ≠ start_page bs (a, o).
Proof.
  intros HI Hin. destruct p as [a' o']. pose proof (held_disjoint _ _ _ _ _ _ _ HI Hin) as Hd.
  destruct (bi_held _ _ _ _ HI a o) as [Ho Hal]; [apply elem_of_app; right; by left|].
  destruct (bi_held _ _ _ _ HI a' o') as [Ho' Hal'].
  { rewrite elem_of_app, elem_of_cons. apply elem_of_app in Hin. tauto. }
  assert (∀ o a, 0 ≤ o → (bsize o | a - bs) → ∃ q, a - bs = q * MIN_BLOCK_SIZE) as Hpage.
  { intros o2 a2 Ho2 [q ->]. exists (q * 2 ^ o2). unfold bsize. lia. }
  destruct (Hpage o a ltac:(lia) Hal) as [q Hq], (Hpage o' a' ltac:(lia) Hal') as [q' Hq'].
  unfold start_page. simpl. rewrite Hq, Hq', !Z.div_mul by done.
  pose proof (bsize_pos o ltac:(lia)). pose proof (bsize_pos o' ltac:(lia)). intros ->. lia.
Qed.

Lemma alloc_step b A f n :
  buddy_inv bs sz b A f → n ≤ 2 ^ 63 →
  ∃ r b', allocate (E:=unit) n b = (Ok r, b') ∧ r = (f_request n f).1 ∧
    buddy_inv bs sz b' (match r with Some a => (a, request_order n) :: A | None => A end) (f_request n f).2.
Proof.
  intros [Hr HI Hb Hm Hbits] Hn.
  destruct (returns_eq _ _ _ (allocate_refines (E:=unit) b f n Hr ltac:(rewrite Hb; by eapply blocks_f_near) Hn))
    as (r & b' & Heq & -> & Hr' & Hb' & _ & Hlen & Hbit).
  exists (f_request n f).1, b'. split_and!; [done..|].
  destruct (f_request n f) as [[a|] f'] eqn:Hreq; simpl in *; rewrite Hm in *.
  - split; try done; try congruence; [by eapply request_inv|].
    intros p Hp. rewrite Hbit, Hb by lia. change ((a - bs) / MIN_BLOCK_SIZE) with (start_page bs (a, request_order n)).
    destruct (Z.eqb_spec p (start_page bs (a, request_order n))) as [->|Hne].
    + symmetry. apply bool_decide_eq_true. by left.
    + rewrite Hbits by done. apply bool_decide_ext. rewrite fmap_cons, elem_of_cons. tauto.
  - apply request_none_inv with (A := A) (O := region_order sz) (bs := bs) in Hreq as ->; [|done].
    split; try done; try congruence. intros p Hp. rewrite Hbit by lia. by apply Hbits.
Qed.

Lemma free_step b A1 A2 a n f :
  buddy_inv bs sz b (A1 ++ (a, request_order n) :: A2) f → n ≤ 2 ^ 63 →
  ∃ b', deallocate (E:=unit) a n b = (Ok tt, b') ∧
    buddy_inv bs sz b' (A1 ++ A2) (f_free bs a (request_order n) f).
Proof.
  intros [Hr HI Hb Hm Hbits] Hn. assert ((a, request_order n) ∈ A1 ++ (a, request_order n) :: A2) as Hin.
  { apply elem_of_app. right. by left. }
  destruct (bi_held _ _ _ _ HI _ _ Hin) as [Ho _]. pose proof (held_near _ _ _ _ HI Hin) as Hnear.
  destruct (returns_eq _ _ _ (deallocate_refines (E:=unit) b f a n Hr ltac:(by rewrite Hb) Hn ltac:(apply Ho)))
    as ([] & b' & Heq & Hr' & Hb' & _ & Hlen & Hbit).
  change (order_of (Z.max n MIN_BLOCK_SIZE)) with (request_order n) in *. rewrite Hb, Hm in *.
  exists b'. split; [done|]. split; try done; [by apply free_inv|].
  intros p Hp. rewrite Hbit by lia. change ((a - bs) / MIN_BLOCK_SIZE) with (start_page bs (a, request_order n)).
  destruct (Z.eqb_spec p (start_page bs (a, request_order n))) as [->|Hne].
  - symmetry. apply bool_decide_eq_false. intros (q & Heq' & Hq)%list_elem_of_fmap.
    by eapply start_page_inj, (eq_sym Heq').
  - rewrite Hbits by done. apply bool_decide_ext. rewrite !fmap_app, fmap_cons, !elem_of_app, elem_of_cons. tauto.
Qed.

Lemma reach_inv b A : reach bs sz b A → ∃ f, buddy_inv bs sz b A f.
Proof.
  induction 1 as [b Hinit|b A n a b' _ [f IH] Hn Heq|b A n b' _ [f IH] Hn Heq|b A1 A2 n a b' _ [f IH] Hn Heq].
  - destruct Hreg as (? & ? & Hsz).
    destruct (returns_eq _ _ _ (init_refines (E:=unit) buddy_new f_empty bs sz new_rep Hsz))
      as ([] & b' & Heq & Hr & Hb & _ & Hm). rewrite Hinit in Heq. injection Heq as <-.
    exists (f_add (region_order sz) bs f_empty). split; try done; [apply init_inv|by rewrite Hm|].
    intros p Hp. rewrite Hm. change (allocated_bitmap buddy_new) with (replicate 64 0).
    by rewrite bit_at_zero, bool_decide_eq_false_2 by apply not_elem_of_nil.
  - destruct (alloc_step b A f n IH Hn) as (r & b2 & Heq' & _ & HI). rewrite Heq in Heq'. simplify_eq. by eexists.
  - destruct (alloc_step b A f n IH Hn) as (r & b2 & Heq' & _ & HI). rewrite Heq in Heq'. simplify_eq. by eexists.
  - destruct (free_step b A1 A2 a n f IH Hn) as (b2 & Heq' & HI). rewrite Heq in Heq'. simplify_eq. by eexists.
Qed.

End inv.

(** ** Coalescing *)

Lemma cover_free_two f o o' a a' x :
  0 ≤ o ≤ MAX_ORDER → 0 ≤ o' ≤ MAX_ORDER → o ≠ o' → a ∈ f_list f o → a' ∈ f_list f o' →
  covers o a x + covers o' a' x ≤ cover_free f x.
Proof.
  intros Ho Ho' Hne Ha Ha'. pose proof (cover_free_upd f o [] 0 x Ho) as Hu. simpl in Hu.
  pose proof (cover_list_elem o _ a x Ha).
  pose proof (cover_free_elem (mkFree (upd (f_list f) o []) 0) o' a' x Ho') as He. simpl in He.
  rewrite upd_other in He by congruence. specialize (He Ha'). lia.
Qed.

Lemma cover_list_pos o l x : 0 < cover_list o l x → ∃ a, a ∈ l ∧ a ≤ x < a + bsize o.
Proof.
  induction l as [|a l IH]; [done|]. change (cover_list o (a :: l) x) with (covers o a x + cover_list o l x).
  intros Hp. destruct (decide (0 < covers o a x)) as [Hc|Hc].
  - exists a. split; [by left|by apply covers_1].
  - destruct IH as (a' & ? & ?); [lia|]. exists a'. split; [by right|done].
Qed.

Lemma cover_free_pos f x :
  0 < cover_free f x → ∃ o a, 0 ≤ o ≤ MAX_ORDER ∧ a ∈ f_list f o ∧ a ≤ x < a + bsize o.
Proof.
  unfold cover_free. assert (Forall (λ o, 0 ≤ o ≤ MAX_ORDER) orders) as Hr.
  { unfold orders, MAX_ORDER. repeat constructor; lia. }
  induction orders as [|o l IH]; simpl; [lia|]. apply Forall_cons in Hr as [Ho Hr]. intros Hp.
  destruct (decide (0 < cover_list o (f_list f o) x)) as [Hc|Hc].
  - destruct (cover_list_pos _ _ _ Hc) as (a & ? & ?). by exists o, a.
  - apply IH; [done|lia].
Qed.

(** An aligned interval that meets a cell of the grid contains it. *)
Lemma grid_nested u t m q x :
  0 < u → t * u ≤ x < (t + m) * u → q * u ≤ x < (q + 1) * u → t ≤ q ∧ q + 1 ≤ t + m.
Proof. intros. split; apply Z.lt_succ_r; apply (Z.mul_lt_mono_pos_r u); lia. Qed.

(** The lowest free order is the one of the whole region: the buddy of a
    smaller free block would be covered by a free block of the same order, or
    by one that covers the smaller block too. *)
Lemma lowest_is_whole bs O f a o :
  0 ≤ O ≤ MAX_ORDER → blocks_inv bs O f [] → f_used f < SLOTS →
  0 ≤ o ≤ MAX_ORDER → a ∈ f_list f o → (∀ o2, 0 ≤ o2 < o → f_list f o2 = []) → O ≤ o.
Proof.
  intros HO HI Hu Ho Ha Hlow. destruct (Z_lt_le_dec o O) as [Hlt|]; [exfalso|done].
  pose proof (bi_free _ _ _ _ HI o a Ho Ha) as Hal. pose proof (bsize_pos o ltac:(lia)) as Hpos.
  assert (∀ x, cover_free f x = covers O bs x) as Hex.
  { intros x. rewrite <- (bi_exact _ _ _ _ HI Hu x). simpl. lia. }
  assert (covers O bs a = 1) as Hca.
  { pose proof (cover_free_elem f o a a Ho Ha) as Hc. rewrite covers_in in Hc by lia.
    pose proof (Hex a). pose proof (covers_range O bs a). lia. }
  set (b := buddy_of bs a o). destruct (buddy_merge bs a o 0 ltac:(lia) Hal) as (_ & Hpar & Hbl). fold b in Hpar, Hbl.
  pose proof (covers_1 O bs a ltac:(lia)) as Hina.
  assert (Z.abs (a - b) = bsize o ∧ a ≠ b) as [Hdist Hneq].
  { unfold b. destruct (buddy_of_spec bs a o ltac:(lia) Hal) as [(q & _ & ->)|(q & _ & ->)]; lia. }
  set (p := Z.min a b) in *.
  (* the parent of the two buddies is in every larger block that holds one of them *)
  assert (∀ o2 c x, o < o2 → (bsize o2 | c - bs) → p ≤ x < p + bsize (o + 1) → c ≤ x < c + bsize o2 →
    c ≤ p ∧ p + bsize (o + 1) ≤ c + bsize o2) as Hnest.
  { intros o2 c x Ho2 [qc Hc] Hx Hcx. destruct Hpar as [qp Hp].
    destruct (bsize_divide (o + 1) o2 ltac:(lia)) as [m Hm]. rewrite Hm in *.
    pose proof (bsize_pos (o + 1) ltac:(lia)).
    destruct (grid_nested (bsize (o + 1)) (qc * m) m qp (x - bs)); [lia..|]. nia. }
  rewrite bsize_S in Hnest by lia.
  destruct (Hnest O bs a) as [Hp1 Hp2]; [lia|rewrite Z.sub_diag; apply Z.divide_0_r|unfold p; lia|lia|].
  assert (covers O bs b = 1) as Hcb by (apply covers_in; unfold p in *; lia).
  destruct (cover_free_pos f b) as (o2 & a2 & Ho2 & Ha2 & Hb2); [pose proof (Hex b); lia|].
  destruct (Z.lt_trichotomy o2 o) as [?|[->|Hgt]].
  - rewrite Hlow in Ha2 by lia. by apply not_elem_of_nil in Ha2.
  - apply (bi_apart _ _ _ _ HI o a); [lia|done|]. fold b. replace b with a2; [done|].
    pose proof (bi_free _ _ _ _ HI o a2 Ho Ha2) as [q2 Hq2]. destruct Hbl as [qb Hqb].
    destruct (grid_nested (bsize o) q2 1 qb (b - bs)); [lia..|]. assert (q2 = qb) as -> by lia. lia.
  - destruct (Hnest o2 a2 b) as [? ?]; [lia|by apply (bi_free _ _ _ _ HI)|unfold p; lia|lia|].
    pose proof (cover_free_two f o o2 a a2 a Ho Ho2 ltac:(lia) Ha Ha2) as Htwo.
    rewrite !covers_in in Htwo by (unfold p in *; lia). pose proof (Hex a). lia.
Qed.

Lemma cover_list_bound o l x : (∀ a, a ∈ l → a = x) → 0 < bsize o → cover_list o l x = Z.of_nat (length l).
Proof.
  intros Hl Hp. induction l as [|a l IH]; [done|].
  change (cover_list o (a :: l) x) with (covers o a x + cover_list o l x).
  rewrite IH by (intros b Hb; apply Hl; by right). rewrite (Hl a) by (by left). rewrite covers_in by lia.
  rewrite length_cons. lia.
Qed.

(** The allocator as [init] left it. *)
Definition whole (bs O : Z) (f : Free) : Prop :=
  ∀ o, 0 ≤ o ≤ MAX_ORDER → f_list f o = if o =? O then [bs] else [].

Lemma f_find_None n f : ∀ o, f_find n o f = None → ∀ o2, o ≤ o2 < o + Z.of_nat n → f_list f o2 = [].
Proof.
  induction n as [|n IH]; intros o; simpl; [lia|]. destruct (f_list f o) eqn:Hl; [|done].
  intros Hf o2 Ho2. destruct (decide (o2 = o)) as [->|]; [done|]. apply (IH (o + 1)); [done|lia].
Qed.

Lemma nothing_held_whole bs sz f :
  region_ok bs sz → blocks_inv bs (region_order sz) f [] → f_used f < SLOTS → whole bs (region_order sz) f.
Proof.
  intros Hreg HI Hu. set (O := region_order sz) in *. pose proof (region_order_range sz) as HO. fold O in HO.
  assert (∀ x, cover_free f x = covers O bs x) as Hex.
  { intros x. rewrite <- (bi_exact _ _ _ _ HI Hu x). simpl. lia. }
  pose proof (bsize_pos O ltac:(lia)) as HposO.
  destruct (f_find 11 0 f) as [[o a]|] eqn:Hf.
  2:{ exfalso. destruct (cover_free_pos f bs) as (o2 & a2 & Ho2 & Ha2 & _).
      { rewrite Hex, covers_in; lia. }
      rewrite (f_find_None _ _ _ Hf o2) in Ha2 by (unfold MAX_ORDER in *; lia). by apply not_elem_of_nil in Ha2. }
  pose proof (f_find_skips _ _ _ _ _ Hf) as Hskip. apply f_find_Some in Hf as [Ho [l Hl]].
  assert (O ≤ o) as Hge.
  { apply (lowest_is_whole bs O f a o); auto; [unfold MAX_ORDER; lia|]. rewrite Hl. by left. }
  assert (∀ o2 a2, 0 ≤ o2 ≤ MAX_ORDER → a2 ∈ f_list f o2 → o2 = O ∧ a2 = bs) as Hall.
  { intros o2 a2 Ho2 Ha2. pose proof (free_in_region bs sz f [] a2 o2 HI Ho2 Ha2) as Hin. fold O in Hin.
    assert (o ≤ o2). { destruct (Z_lt_le_dec o2 o); [|done]. rewrite Hskip in Ha2 by lia. by apply not_elem_of_nil in Ha2. }
    destruct (decide (o2 = O)) as [->|]; [split; [done|lia]|]. exfalso.
    pose proof (bsize_mono (O + 1) o2 ltac:(lia)). rewrite bsize_S in * by lia. lia. }
  intros o2 Ho2. destruct (Z.eqb_spec o2 O) as [->|Hne].
  - pose proof (Hex bs) as Hb. rewrite covers_in in Hb by lia.
    pose proof (cover_free_upd f O [] 0 bs HO) as Hupd. simpl in Hupd.
    pose proof (cover_free_nonneg (mkFree (upd (f_list f) O []) 0) bs).
    rewrite (cover_list_bound O (f_list f O) bs) in Hupd; [|intros; by eapply Hall|done].
    assert (∃ a2, a2 ∈ f_list f O) as [a2 Ha2].
    { destruct (cover_free_pos f bs ltac:(lia)) as (o3 & a3 & Ho3 & Ha3 & _).
      destruct (Hall o3 a3 Ho3 Ha3) as [-> _]. by exists a3. }
    destruct (f_list f O) as [|x [|y k]] eqn:Hlist; [by apply not_elem_of_nil in Ha2| |simpl in Hupd; lia].
    f_equal. eapply (Hall O); [done|]. rewrite Hlist. by left.
  - destruct (f_list f o2) as [|x k] eqn:Hlist; [done|]. exfalso. apply Hne.
    eapply (Hall o2 x); [done|]. rewrite Hlist. by left.
Qed.

Lemma bsize_pow o : 0 ≤ o → bsize o = 2 ^ (12 + o).
Proof. intros. unfold bsize, MIN_BLOCK_SIZE. by rewrite Z.pow_add_r by lia. Qed.

Lemma request_order_le n o : 0 ≤ o → n ≤ bsize o → request_order n ≤ o.
Proof.
  intros Ho Hn. unfold request_order, order_of. rewrite bsize_pow in Hn by done.
  assert (Z.log2_up (Z.max n MIN_BLOCK_SIZE) ≤ Z.log2_up (2 ^ (12 + o))) as Hle.
  { apply Z.log2_up_le_mono. pose proof (Z.pow_le_mono_r 2 12 (12 + o)). unfold MIN_BLOCK_SIZE. lia. }
  rewrite Z.log2_up_pow2 in Hle by lia. lia.
Qed.

Lemma request_order_bsize o : 0 ≤ o → request_order (bsize o) = o.
Proof.
  intros Ho. unfold request_order, order_of. rewrite bsize_pow by done.
  pose proof (Z.pow_le_mono_r 2 12 (12 + o) ltac:(lia) ltac:(lia)). change (2 ^ 12) with 4096 in *.
  rewrite (Z.max_l (2 ^ (12 + o))) by (unfold MIN_BLOCK_SIZE; lia). rewrite Z.log2_up_pow2 by lia. lia.
Qed.

(** The block of a request holds it, and no smaller one does. *)
Lemma request_order_fits n :
  n ≤ 2 ^ 63 → n ≤ bsize (request_order n) ∧ (request_order n = 0 ∨ bsize (request_order n - 1) < n).
Proof.
  intros Hn. destruct (size_to_order_spec (E:=unit) (Z.max n MIN_BLOCK_SIZE)) as (o & Heq & Ho & Hle & Hlow).
  { unfold MIN_BLOCK_SIZE. lia. }
  rewrite size_to_order_eq in Heq by (unfold MIN_BLOCK_SIZE; lia). injection Heq as Heq.
  unfold request_order. rewrite Heq. split; [lia|]. destruct (decide (o = 0)) as [|Hne]; [by left|right].
  destruct Hlow as [?|Hlow]; [lia|]. pose proof (bsize_mono 0 (o - 1) ltac:(lia)) as Hm.
  change (bsize 0) with MIN_BLOCK_SIZE in Hm. lia.
Qed.

Lemma f_find_eq n f o' a l : ∀ o,
  (∀ o2, o ≤ o2 < o' → f_list f o2 = []) → f_list f o' = a :: l → o ≤ o' < o + Z.of_nat n →
  f_find n o f = Some (o', a).
Proof.
  induction n as [|n IH]; intros o Hskip Hl Ho; simpl; [lia|].
  destruct (decide (o = o')) as [->|Hne]; [by rewrite Hl|]. rewrite Hskip by lia.
  apply IH; [|done|lia]. intros o2 ?. apply Hskip. lia.
Qed.

Lemma whole_request bs O f n :
  0 ≤ O ≤ MAX_ORDER → whole bs O f → n ≤ bsize O → (f_request n f).1 = Some bs.
Proof.
  intros HO Hw Hn. pose proof (request_order_le n O ltac:(lia) Hn) as Hk.
  assert (0 ≤ request_order n) by (unfold request_order, order_of; lia).
  unfold f_request, f_alloc. change (order_of (Z.max n MIN_BLOCK_SIZE)) with (request_order n).
  destruct (Z.ltb_spec MAX_ORDER (request_order n)); [lia|].
  rewrite (f_find_eq _ f O bs []); [done| |by rewrite Hw, Z.eqb_refl by lia|lia].
  intros o2 Ho2. rewrite Hw by lia. by destruct (Z.eqb_spec o2 O); [lia|].
Qed.

(** ** The theorems *)

(** Whatever sequence of allocations and frees has been made, [allocate]
    ends without a panic.  A block it returns holds the request and is less
    than twice as large as needed, is aligned to its size relative to the
    base, lies inside the region, and shares no byte with any block handed out
    before and not yet freed.  It returns none only when no free block is
    large enough. *)
Theorem buddy_allocate_correct bs sz b A n :
  region_ok bs sz → reach bs sz b A → n ≤ 2 ^ 63 →
  ∃ r b', allocate (E:=unit) n b = (Ok r, b') ∧
    let k := request_order n in
    match r with
    | Some a =>
        n ≤ bsize k ∧ (k = 0 ∨ bsize (k - 1) < n) ∧ (bsize k | a - bs) ∧
        bs ≤ a ∧ a + bsize k ≤ bs + bsize (region_order sz) ∧
        ∀ a' o', (a', o') ∈ A → a + bsize k ≤ a' ∨ a' + bsize o' ≤ a
    | None => ∃ f, rep b f ∧ ∀ o, k ≤ o ≤ MAX_ORDER → f_list f o = []
    end.
Proof.
  intros Hreg Hr Hn. destruct (reach_inv bs sz Hreg b A Hr) as [f Hf].
  destruct (alloc_step bs sz Hreg b A f n Hf Hn) as (r & b' & Heq & -> & HI).
  exists (f_request n f).1, b'. split; [done|]. destruct (f_request n f) as [[a|] f'] eqn:Hreq; simpl in *.
  - pose proof (request_order_fits n Hn) as [? ?]. apply bv_blocks in HI.
    destruct (bi_held _ _ _ _ HI a (request_order n)) as [_ Hal]; [by left|].
    destruct (held_in_region bs sz _ _ a (request_order n) HI) as [? ?]; [by left|].
    split_and!; try done. intros a' o' Hin. by apply (held_disjoint bs sz f' [] A a (request_order n)).
  - exists f. split; [apply Hf|]. intros o Ho. revert Hreq. unfold f_request, f_alloc.
    change (order_of (Z.max n MIN_BLOCK_SIZE)) with (request_order n).
    destruct (Z.ltb_spec MAX_ORDER (request_order n)); [lia|]. destruct (f_find _ _ f) as [[]|] eqn:Hfind; [done|].
    intros _. eapply f_find_None; [done|]. lia.
Qed.

Definition demo_buddy : BuddyAllocator := (init (E:=unit) 65536 65536 buddy_new).2.

Lemma demo_reach : reach 65536 65536 demo_buddy [].
Proof. apply reach_init. vm_compute. reflexivity. Qed.

Lemma demo_region : region_ok 65536 65536.
Proof. unfold region_ok. split_and!; vm_compute; discriminate. Qed.

Lemma buddy_allocate_correct_witness :
  ∃ r b', allocate (E:=unit) 5000 demo_buddy = (Ok r, b') ∧
    let k := request_order 5000 in
    match r with
    | Some a =>
        5000 ≤ bsize k ∧ (k = 0 ∨ bsize (k - 1) < 5000) ∧ (bsize k | a - 65536) ∧
        65536 ≤ a ∧ a + bsize k ≤ 65536 + bsize (region_order 65536) ∧
        ∀ a' o', (a', o') ∈ @nil (Z * Z) → a + bsize k ≤ a' ∨ a' + bsize o' ≤ a
    | None => ∃ f, rep demo_buddy f ∧ ∀ o, k ≤ o ≤ MAX_ORDER → f_list f o = []
    end.
Proof. apply (buddy_allocate_correct 65536 65536 demo_buddy [] 5000); [exact demo_region|exact demo_reach|lia]. Defined.

(** The size of the area that is managed for a region. *)
Lemma managed_size sz :
  (∀ o, 0 ≤ o ≤ MAX_ORDER → sz = bsize o → bsize (region_order sz) = sz) ∧
  (MIN_BLOCK_SIZE ≤ sz ≤ bsize MAX_ORDER → sz ≤ bsize (region_order sz) < 2 * sz).
Proof.
  unfold region_order, order_of. split.
  - intros o Ho ->. rewrite (bsize_pow o) by lia. rewrite Z.log2_up_pow2 by lia. rewrite bsize_pow by lia. f_equal. lia.
  - intros [Hlo Hhi]. rewrite bsize_pow in Hhi by (unfold MAX_ORDER; lia). unfold MIN_BLOCK_SIZE in Hlo.
    assert (12 ≤ Z.log2_up sz) by (change 12 with (Z.log2_up 4096); apply Z.log2_up_le_mono; lia).
    assert (Z.log2_up sz ≤ 22) by (change 22 with (Z.log2_up (2 ^ 22)); apply Z.log2_up_le_mono; done).
    pose proof (Z.log2_up_spec sz ltac:(lia)) as [H1 H2].
    rewrite bsize_pow by (unfold MAX_ORDER; lia). replace (12 + Z.min _ _) with (Z.log2_up sz) by (unfold MAX_ORDER; lia).
    split; [done|]. rewrite <-Z.sub_1_r in H1.
    replace (Z.log2_up sz) with (Z.succ (Z.log2_up sz - 1)) by lia. rewrite Z.pow_succ_r by lia. lia.
Qed.

(** C30. For a region that starts at least 8 MiB below 2^64 and requests of at most
    2^63 bytes, in every reachable state the blocks in the hands of clients are
    pairwise disjoint, aligned and inside the managed area; the bitmap marks
    exactly their first pages; each can be freed without a panic, by a size of its
    order; and as long
    as slots are left, every byte of the managed area lies in exactly one block
    that is free or held.  The managed area starts at the base of the region;
    it is the region when the size is a power of two from 4 KiB to 4 MiB, and
    for other sizes in that range the size is rounded up, to less than twice
    the size, so that blocks can lie behind the end of the region. *)
Theorem buddy_blocks_partition bs sz b A :
  region_ok bs sz → reach bs sz b A →
  ((∀ o, 0 ≤ o ≤ MAX_ORDER → sz = bsize o → bsize (region_order sz) = sz) ∧
   (MIN_BLOCK_SIZE ≤ sz ≤ bsize MAX_ORDER → sz ≤ bsize (region_order sz) < 2 * sz)) ∧
  (∀ A1 a o A2, A = A1 ++ (a, o) :: A2 →
     (bsize o | a - bs) ∧ bs ≤ a ∧ a + bsize o ≤ bs + bsize (region_order sz) ∧
     (∀ a' o', (a', o') ∈ A1 ++ A2 → a + bsize o ≤ a' ∨ a' + bsize o' ≤ a) ∧
     (∀ n, n ≤ 2 ^ 63 → request_order n = o → ∃ b', deallocate (E:=unit) a n b = (Ok tt, b'))) ∧
  (∀ p, 0 ≤ p < 4096 → bit_at (allocated_bitmap b) p = bool_decide (p ∈ start_page bs <$> A)) ∧
  (next_slot b < SLOTS → ∃ f, rep b f ∧ ∀ x, cover_free f x + cover_held A x = covers (region_order sz) bs x).
Proof.
  intros Hreg Hr. destruct (reach_inv bs sz Hreg b A Hr) as [f Hf]. pose proof (bv_blocks _ _ _ _ _ Hf) as HI.
  split; [apply managed_size|]. split; [|split; [apply Hf|]].
  - intros A1 a o A2 ->. assert ((a, o) ∈ A1 ++ (a, o) :: A2) as Hin by (apply elem_of_app; right; by left).
    destruct (bi_held _ _ _ _ HI a o Hin) as [_ ?]. destruct (held_in_region bs sz _ _ a o HI Hin).
    split_and!; try done; [intros a' o'; by eapply held_disjoint|]. intros n Hn <-.
    destruct (free_step bs sz Hreg b A1 A2 a n f Hf Hn) as (b' & -> & _). by exists b'.
  - intros Hlt. exists f. pose proof (bv_rep _ _ _ _ _ Hf) as Hrep. split; [done|].
    destruct Hrep as [G HG]. apply (bi_exact _ _ _ _ HI). by rewrite <- (lk_next _ _ _ HG).
Qed.

(** After a request of 5000 bytes and one of 100. *)
Definition demo_held : BuddyAllocator :=
  (allocate (E:=unit) 100 (allocate (E:=unit) 5000 demo_buddy).2).2.

Lemma demo_held_reach : reach 65536 65536 demo_held [(73728, request_order 100); (65536, request_order 5000)].
Proof.
  apply (reach_alloc _ _ (allocate (E:=unit) 5000 demo_buddy).2); [|lia|vm_compute; reflexivity].
  apply (reach_alloc _ _ demo_buddy); [exact demo_reach|lia|vm_compute; reflexivity].
Qed.

Lemma buddy_blocks_partition_witness :
  (∃ b', deallocate (E:=unit) 65536 5000 demo_held = (Ok tt, b')) ∧
  (bit_at (allocated_bitmap demo_held) 2 = true ∧ bit_at (allocated_bitmap demo_held) 1 = false) ∧
  ∃ f, rep demo_held f ∧
    ∀ x, cover_free f x + cover_held [(73728, request_order 100); (65536, request_order 5000)] x = covers 4 65536 x.
Proof.
  destruct (buddy_blocks_partition 65536 65536 demo_held [(73728, request_order 100); (65536, request_order 5000)])
    as (_ & Hheld & Hbit & Hcover); [exact demo_region|exact demo_held_reach|].
  split; [|split].
  - destruct (Hheld [(73728, request_order 100)] 65536 (request_order 5000) [] eq_refl) as (_ & _ & _ & _ & Hfree).
    apply Hfree; [lia|reflexivity].
  - split; [rewrite (Hbit 2)|rewrite (Hbit 1)]; try lia; vm_compute; reflexivity.
  - apply Hcover. vm_compute. reflexivity.
Defined.

(** Freed blocks are merged completely: when every block has been freed,
    in any order, and slots are left, the whole region is one block again, so
    a request of any size up to the region gets the base. *)
Theorem buddy_coalesces bs sz b n :
  region_ok bs sz → reach bs sz b [] → next_slot b < SLOTS → n ≤ bsize (region_order sz) →
  ∃ b', allocate (E:=unit) n b = (Ok (Some bs), b').
Proof.
  intros Hreg Hr Hs Hn. destruct (reach_inv bs sz Hreg b [] Hr) as [f Hf].
  pose proof (region_size sz). pose proof (region_order_range sz).
  assert (n ≤ 2 ^ 63) as Hn63 by (assert (bsize 10 ≤ 2 ^ 63) by (vm_compute; discriminate); lia).
  destruct (alloc_step bs sz Hreg b [] f n Hf Hn63) as (r & b' & Heq & -> & _).
  exists b'. rewrite Heq. do 2 f_equal. apply whole_request with (region_order sz); [done| |done].
  apply nothing_held_whole; [done|apply Hf|]. destruct (bv_rep _ _ _ _ _ Hf) as [G HG].
  by rewrite <- (lk_next _ _ _ HG).
Qed.

Lemma buddy_coalesces_witness : ∃ b', allocate (E:=unit) 65536 demo_buddy = (Ok (Some 65536), b').
Proof.
  apply (buddy_coalesces 65536 65536 demo_buddy 65536);
    [exact demo_region|exact demo_reach|vm_compute; reflexivity|vm_compute; discriminate].
Defined.

(** ** Slots run out *)

Lemma whole_cycle bs sz b f :
  region_ok bs sz → reach bs sz b [] → buddy_inv bs sz b [] f → whole bs (region_order sz) f →
  ∃ b' f', reach bs sz b' [] ∧ buddy_inv bs sz b' [] f' ∧
    if f_used f <? SLOTS
    then whole bs (region_order sz) f' ∧ f_used f' = f_used f + 1
    else ∀ o, 0 ≤ o ≤ MAX_ORDER → f_list f' o = [].
Proof.
  intros Hreg Hr Hf Hw. set (O := region_order sz) in *.
  pose proof (region_order_range sz) as HO. fold O in HO. pose proof (region_size sz) as Hsize. fold O in Hsize.
  assert (bsize O ≤ 2 ^ 63) as Hn by (assert (bsize 10 ≤ 2 ^ 63) by (vm_compute; discriminate); lia).
  pose proof (request_order_bsize O ltac:(lia)) as Hord.
  assert (f_request (bsize O) f = (Some bs, f_remove O bs f)) as Hreq.
  { pose proof (whole_request bs O f (bsize O) HO Hw ltac:(lia)) as H1. revert H1. unfold f_request, f_alloc.
    change (order_of (Z.max (bsize O) MIN_BLOCK_SIZE)) with (request_order (bsize O)). rewrite Hord.
    destruct (Z.ltb_spec MAX_ORDER O); [lia|].
    rewrite (f_find_eq _ f O bs []); [|lia|by rewrite Hw, Z.eqb_refl by lia|lia]. intros _.
    by rewrite Z.sub_diag. }
  destruct (alloc_step bs sz Hreg b [] f (bsize O) Hf Hn) as (r & b1 & Heq1 & -> & H1).
  rewrite Hreq in *. simpl in *. rewrite Hord in H1.
  assert (reach bs sz b1 [(bs, request_order (bsize O))]) as Hr1 by (by eapply reach_alloc).
  assert (∀ o, 0 ≤ o ≤ MAX_ORDER → f_list (f_remove O bs f) o = []) as Hnone.
  { intros o Ho. unfold f_remove. simpl. unfold upd. destruct (Z.eqb_spec o O) as [->|Hne].
    - rewrite Hw, Z.eqb_refl by lia. simpl. by rewrite Z.eqb_refl.
    - rewrite Hw by lia. by destruct (Z.eqb_spec o O). }
  destruct (free_step bs sz Hreg b1 [] [] bs (bsize O) (f_remove O bs f)) as (b2 & Heq2 & H2); [by rewrite Hord|done|].
  exists b2, (f_free bs bs O (f_remove O bs f)). rewrite Hord in H2.
  split_and!; [by apply (reach_free bs sz b1 [] [] (bsize O) bs)|done|].
  assert (f_free bs bs O (f_remove O bs f) = f_add O bs (f_remove O bs f)) as ->.
  { unfold f_free. destruct (Z.to_nat (MAX_ORDER - O)); [done|]. simpl. rewrite decide_False; [done|].
    rewrite upd_same, Hw, Z.eqb_refl by lia. simpl. rewrite Z.eqb_refl. apply not_elem_of_nil. }
  unfold f_add. change (f_used (f_remove O bs f)) with (f_used f).
  destruct (Z.ltb_spec (f_used f) SLOTS), (Z.leb_spec SLOTS (f_used f)); try lia; [|done].
  split; [|done]. intros o Ho. simpl. unfold upd. fold (f_list (f_remove O bs f)).
  destruct (Z.eqb_spec o O) as [->|Hne].
  - by rewrite Z.eqb_refl, Hw, Z.eqb_refl by lia; simpl; rewrite Z.eqb_refl.
  - rewrite Hw by lia. by destruct (Z.eqb_spec o O).
Qed.

Lemma whole_cycles bs sz (n : nat) :
  region_ok bs sz → Z.of_nat n < SLOTS →
  ∃ b f, reach bs sz b [] ∧ buddy_inv bs sz b [] f ∧ whole bs (region_order sz) f ∧ f_used f = Z.of_nat n + 1.
Proof.
  intros Hreg. induction n as [|n IH]; intros Hn.
  - pose proof Hreg as (? & ? & Hsz).
    destruct (returns_eq _ _ _ (init_refines (E:=unit) buddy_new f_empty bs sz new_rep Hsz)) as ([] & b & Heq & Hrep & _).
    assert (reach bs sz b []) as Hr by (by apply reach_init). destruct (reach_inv bs sz Hreg b [] Hr) as [f Hf].
    assert (f_used f = 1) as Hu.
    { destruct Hrep as [G HG], (bv_rep _ _ _ _ _ Hf) as [G' HG'].
      rewrite <- (lk_next _ _ _ HG'), (lk_next _ _ _ HG). reflexivity. }
    exists b, f. split_and!; try done. apply nothing_held_whole; [done|apply Hf|]. rewrite Hu. reflexivity.
  - destruct IH as (b & f & Hr & Hf & Hw & Hu); [lia|].
    destruct (whole_cycle bs sz b f Hreg Hr Hf Hw) as (b' & f' & Hr' & Hf' & Hc).
    destruct (Z.ltb_spec (f_used f) SLOTS); [|lia]. destruct Hc as [Hw' Hu']. exists b', f'. split_and!; try done. lia.
Qed.

(** Slots are never reused, so the allocator wears out: for every region
    there is a history in which every block that was allocated has been freed
    and from which every further allocation, of any size, fails. *)
Theorem buddy_wears_out bs sz :
  region_ok bs sz →
  ∃ b, reach bs sz b [] ∧ ∀ n, n ≤ 2 ^ 63 → ∃ b', allocate (E:=unit) n b = (Ok None, b').
Proof.
  intros Hreg. destruct (whole_cycles bs sz (Z.to_nat (SLOTS - 1)) Hreg ltac:(reflexivity))
    as (b & f & Hr & Hf & Hw & Hu).
  destruct (whole_cycle bs sz b f Hreg Hr Hf Hw) as (b' & f' & Hr' & Hf' & Hc).
  rewrite Hu in Hc. change (Z.of_nat (Z.to_nat (SLOTS - 1)) + 1 <? SLOTS) with false in Hc.
  exists b'. split; [done|]. intros n Hn.
  destruct (alloc_step bs sz Hreg b' [] f' n Hf' Hn) as (r & b2 & Heq & -> & _). exists b2. rewrite Heq. do 2 f_equal.
  unfold f_request, f_alloc. destruct (Z.ltb_spec MAX_ORDER (order_of (Z.max n MIN_BLOCK_SIZE))); [done|].
  destruct (f_find _ _ f') as [[o a]|] eqn:Hfind; [|done].
  exfalso. apply f_find_Some in Hfind as [Ho [l Hl]]. rewrite Hc in Hl; [done|].
  assert (0 ≤ order_of (n `max` MIN_BLOCK_SIZE)) by (unfold order_of; lia). lia.
Qed.

Lemma buddy_wears_out_witness :
  ∃ b, reach 65536 65536 b [] ∧ ∀ n, n ≤ 2 ^ 63 → ∃ b', allocate (E:=unit) n b = (Ok None, b').
Proof. apply (buddy_wears_out 65536 65536). exact demo_region. Defined.

(** [init] rounds the size up: a region of three pages is managed as four, and
    the last page handed out lies behind it. *)
Lemma init_rounds_up :
  (allocate (E:=unit) 16384 (init (E:=unit) 65536 12288 buddy_new).2).1 = Ok (Some 65536) ∧
  65536 + 12288 < 65536 + bsize (request_order 16384).
Proof. split; vm_compute; reflexivity. Qed.
