(* ===== verification/Frames.v ===== *)
(** * Physical frames

    [allocate_frame] and [free_frame] of [src/kernel/src/memory/mod.rs] (a
    stack of recycled frames in front of a bump allocator) and the frame
    reference counts of [src/kernel/src/memory/refcount.rs]. *)

From stdpp Require Import gmap.
From S2P Require Import Prelude.

(** ** The frame allocator *)

Definition PAGE_SIZE : Z := 4096.

Record GlobalFrameAllocator : Type := mkGlobalFrameAllocator { next_frame : Z; end_frame : Z }.

(** [free_frames] is [GLOBAL_FREE_FRAMES], the last pushed first. *)
Record Frames : Type := mkFrames {
  free_frames : list Z;
  bump_frames : option GlobalFrameAllocator;
}.

Definition frames_new : Frames := mkFrames [] None.

Section code.
Context {E : Type}.

Definition init_frame_allocator (start end_ : Z) : M Frames E unit :=
  modify (λ s, mkFrames (free_frames s) (Some (mkGlobalFrameAllocator start end_))).

(** [GlobalFrameAllocator::allocate]; the addition panics on overflow. *)
Definition bump_allocate (g : GlobalFrameAllocator) : outcome E (option Z * GlobalFrameAllocator) :=
  if end_frame g <=? next_frame g then Ok (None, g)
  else
    let frame := next_frame g in
    next ← ok_or_panic (checked_add 64 (next_frame g) PAGE_SIZE);
    mret (Some frame, mkGlobalFrameAllocator next (end_frame g)).

Definition allocate_frame : M Frames E (option Z) :=
  fs ← gets free_frames;
  match fs with
  | addr :: rest => modify (λ s, mkFrames rest (bump_frames s));; mret (Some addr)
  | [] =>
      b ← gets bump_frames;
      match b with
      | None => mret None
      | Some g =>
          '(r, g') ← lift (bump_allocate g);
          modify (λ s, mkFrames (free_frames s) (Some g'));;
          mret r
      end
  end.

Definition free_frame (addr : Z) : M Frames E unit :=
  if addr mod PAGE_SIZE =? 0
  then modify (λ s, mkFrames (addr :: free_frames s) (bump_frames s))
  else panic.

Definition free_frame_count (s : Frames) : Z := len (free_frames s).

End code.

(** ** Frames are handed out exclusively

    [held] are the frames that clients got and have not freed. *)

Record frames_inv (start end_ : Z) (s : Frames) (held : list Z) : Prop := {
  fr_bump : ∃ next, bump_frames s = Some (mkGlobalFrameAllocator next end_) ∧
    start ≤ next ∧ next mod PAGE_SIZE = 0 ∧
    Forall (λ a, start ≤ a < next ∧ a < end_ ∧ a mod PAGE_SIZE = 0) (free_frames s ++ held);
  fr_nodup : NoDup (free_frames s ++ held);
}.

(** Nothing on the free list and nothing left of the region. *)
Definition exhausted (s : Frames) : bool :=
  match free_frames s, bump_frames s with
  | [], Some g => end_frame g <=? next_frame g
  | [], None => true
  | _ :: _, _ => false
  end.

Definition frames_region (start end_ : Z) : Prop :=
  0 ≤ start ∧ start mod PAGE_SIZE = 0 ∧ end_ + PAGE_SIZE ≤ 2 ^ 64.

Section frames.
Context {E : Type} (start end_ : Z) (Hreg : frames_region start end_).

Lemma frames_init : frames_inv start end_ (init_frame_allocator (E:=E) start end_ frames_new).2 [].
Proof.
  destruct Hreg as (? & ? & ?). split; simpl; [|constructor]. exists start. split_and!; done || lia || constructor.
Qed.

Lemma allocate_frame_spec s held :
  frames_inv start end_ s held →
  returns (allocate_frame (E:=E))
    (λ r s', match r with
             | Some a => frames_inv start end_ s' (a :: held) ∧ (a ∉ held) ∧ start ≤ a < end_ ∧ (a mod PAGE_SIZE = 0)
             | None => s' = s ∧ exhausted s = true
             end) s.
Proof.
  intros [(next & Hb & Hle & Hal & Hall) Hnd]. destruct Hreg as (? & Hst & Hend).
  destruct s as [[|a fs] bump]; simpl in *; subst.
  - unfold allocate_frame. do 2 wp_step. simpl. do 2 wp_step. simpl. do 2 wp_step. unfold bump_allocate. simpl.
    destruct (Z.leb_spec end_ next) as [Hle'|Hlt].
    { do 3 wp_step. split; [done|]. by apply Z.leb_le. }
    unfold checked_add. destruct (Z.ltb_spec (next + PAGE_SIZE) (2 ^ 64)); [|unfold PAGE_SIZE in *; lia].
    simpl. do 3 wp_step. assert (next ∉ held) as Hfresh.
    { intros Hin. rewrite Forall_forall in Hall. destruct (Hall _ Hin) as [? _]. lia. }
    assert (0 < PAGE_SIZE) by done. split_and!; [|done|lia|lia|done]. split; simpl; [|by constructor].
    exists (next + PAGE_SIZE). split_and!; [done|lia| |].
    + rewrite <- Z.add_mod_idemp_r, Z.mod_same, Z.add_0_r by done. done.
    + constructor; [split_and!; lia || done|]. eapply Forall_impl; [done|]. intros x (? & ? & ?). split_and!; lia || done.
  - unfold allocate_frame. do 2 wp_step. simpl. do 3 wp_step.
    apply NoDup_cons in Hnd as [Hn Hnd]. apply Forall_cons in Hall as [(Ha & Hae & Hal') Hall].
    rewrite not_elem_of_app in Hn. split_and!; [|tauto|lia|lia|done]. split; simpl.
    + exists next. split_and!; try done. rewrite Forall_app in *. destruct Hall. split; [done|by constructor].
    + apply NoDup_app. apply NoDup_app in Hnd as (? & Hd & ?). split_and!; [done| |constructor; tauto].
      intros x Hx [->|Hin]%elem_of_cons; [tauto|by eapply Hd].
Qed.

Lemma free_frame_spec s held1 a held2 :
  frames_inv start end_ s (held1 ++ a :: held2) →
  returns (free_frame (E:=E) a) (λ _ s', frames_inv start end_ s' (held1 ++ held2)) s.
Proof.
  intros [(next & Hb & Hle & Hal & Hall) Hnd].
  assert (free_frames s ++ held1 ++ a :: held2 ≡ₚ a :: free_frames s ++ held1 ++ held2) as Hperm by solve_Permutation.
  rewrite Hperm in Hnd, Hall. pose proof Hall as [(_ & _ & Ha) _]%Forall_cons.
  unfold free_frame. rewrite Ha, Z.eqb_refl. wp_step. split; simpl; [|done].
  exists next. by split_and!.
Qed.

End frames.

(** Any sequence of requests and frees by clients that free what they hold. *)
Inductive frames_reach (start end_ : Z) : Frames → list Z → Prop :=
| fr_start s : init_frame_allocator (E:=unit) start end_ frames_new = (Ok tt, s) → frames_reach start end_ s []
| fr_alloc s held a s' :
    frames_reach start end_ s held → allocate_frame (E:=unit) s = (Ok (Some a), s') →
    frames_reach start end_ s' (a :: held)
| fr_none s held s' :
    frames_reach start end_ s held → allocate_frame (E:=unit) s = (Ok None, s') → frames_reach start end_ s' held
| fr_free s held1 a held2 s' :
    frames_reach start end_ s (held1 ++ a :: held2) → free_frame (E:=unit) a s = (Ok tt, s') →
    frames_reach start end_ s' (held1 ++ held2).

Lemma frames_reach_inv start end_ s held :
  frames_region start end_ → frames_reach start end_ s held → frames_inv start end_ s held.
Proof.
  intros Hreg. induction 1 as [s Heq|s held a s' _ IH Heq|s held s' _ IH Heq|s h1 a h2 s' _ IH Heq].
  - injection Heq as <-. by apply (frames_init (E:=unit)).
  - destruct (returns_eq _ _ _ (allocate_frame_spec (E:=unit) start end_ Hreg s held IH)) as (r & s2 & Heq2 & Hr).
    rewrite Heq in Heq2. simplify_eq. apply Hr.
  - destruct (returns_eq _ _ _ (allocate_frame_spec (E:=unit) start end_ Hreg s held IH)) as (r & s2 & Heq2 & Hr).
    rewrite Heq in Heq2. simplify_eq. by destruct Hr as [-> _].
  - destruct (returns_eq _ _ _ (free_frame_spec (E:=unit) start end_ s h1 a h2 IH)) as (r & s2 & Heq2 & Hr).
    rewrite Heq in Heq2. by simplify_eq.
Qed.

(** C31. Physical frames are exclusive: whatever clients allocate and free, the
    frames they hold are distinct, page-aligned and start inside the region, none
    of them is on the free list; an allocation returns a frame nobody holds unless
    none is left, and freeing a frame that is held returns. *)
Theorem frames_exclusive start end_ s held :
  frames_region start end_ → frames_reach start end_ s held →
  NoDup held ∧ (∀ a, a ∈ held → start ≤ a < end_ ∧ a mod PAGE_SIZE = 0 ∧ a ∉ free_frames s) ∧
  (∃ r s', allocate_frame (E:=unit) s = (Ok r, s') ∧
    match r with Some a => a ∉ held | None => exhausted s = true end) ∧
  (∀ a, a ∈ held → ∃ s', free_frame (E:=unit) a s = (Ok tt, s')).
Proof.
  intros Hreg Hr. pose proof (frames_reach_inv _ _ _ _ Hreg Hr) as HI.
  pose proof HI as [(next & _ & _ & _ & Hall) Hnd]. apply NoDup_app in Hnd as (_ & Hd & Hnd).
  apply Forall_app in Hall as [_ Hall]. rewrite Forall_forall in Hall. split_and!; [done| | |].
  - intros a Ha. destruct (Hall a Ha) as (? & ? & ?). split_and!; [lia..|done|]. intros Hf. by eapply Hd.
  - destruct (returns_eq _ _ _ (allocate_frame_spec (E:=unit) start end_ Hreg s held HI)) as (r & s2 & Heq & Hs).
    exists r, s2. split; [done|]. destruct r; apply Hs.
  - intros a (h1 & h2 & ->)%list_elem_of_split.
    destruct (returns_eq _ _ _ (free_frame_spec (E:=unit) start end_ s h1 a h2 HI)) as ([] & s2 & Heq & _). by exists s2.
Qed.

Definition demo_frames : Frames := (init_frame_allocator (E:=unit) 8192 65536 frames_new).2.
Definition demo_frames1 : Frames := (allocate_frame (E:=unit) demo_frames).2.

Lemma frames_exclusive_witness :
  (8192 ∉ free_frames demo_frames1) ∧ ∃ s', free_frame (E:=unit) 8192 demo_frames1 = (Ok tt, s').
Proof.
  destruct (frames_exclusive 8192 65536 demo_frames1 [8192]) as (_ & Ha & _ & Hf).
  - unfold frames_region. split_and!; done.
  - apply (fr_alloc _ _ demo_frames); [by constructor|by vm_compute].
  - split; [apply Ha; by left|apply Hf; by left].
Defined.

(** ** Reference counts

    Only counts of at least 2 are stored; a frame without an entry counts 1. *)

Module Refcount.

Abbreviation Counts := (gmap Z Z).

Section code.
Context {E : Type}.

(** [*entry += 1] on a [u32]. *)
Definition increment (phys : Z) : M Counts E unit :=
  m ← gets id;
  n ← unwrap (checked_add 32 (default 1 (m !! phys)) 1);
  modify (insert phys n).

Definition decrement (phys : Z) : M Counts E Z :=
  m ← gets id;
  match (m : Counts) !! phys with
  | Some count =>
      new_count ← sub_or_panic count 1;
      (if new_count <=? 1 then modify (delete phys) else modify (insert phys new_count));;
      mret new_count
  | None => mret 0
  end.

Definition get (m : Counts) (phys : Z) : Z := default 1 (m !! phys).
Definition shared_frame_count (m : Counts) : nat := size m.

End code.

Definition counts_ok (m : Counts) : Prop := map_Forall (λ _ n, 2 ≤ n < 2 ^ 32) m.

Lemma increment_spec {E} m phys :
  counts_ok m → get m phys < 2 ^ 32 - 1 →
  returns (increment (E:=E) phys)
    (λ _ m', counts_ok m' ∧ ∀ p, get m' p = if p =? phys then get m p + 1 else get m p) m.
Proof.
  intros Hok Hlt. unfold increment, get in *. do 2 wp_step. wp_step.
  assert (1 ≤ default 1 (m !! phys)) as Hge.
  { destruct (m !! phys) eqn:Hm; simpl; [|lia]. apply (map_Forall_lookup_1 _ _ _ _ Hok) in Hm. lia. }
  unfold checked_add. simpl. eapply wp_unwrap_Some; [by destruct (Z.ltb_spec (default 1 (m !! phys) + 1) (2 ^ 32)); [|lia]|].
  wp_step. split.
  - apply map_Forall_insert_2; [simpl; lia|done].
  - intros p. destruct (Z.eqb_spec p phys) as [->|]; [by rewrite lookup_insert_eq|by rewrite lookup_insert_ne].
Qed.

Lemma decrement_spec {E} m phys :
  counts_ok m →
  returns (decrement (E:=E) phys)
    (λ r m', counts_ok m' ∧ r = get m phys - 1 ∧
       ∀ p, get m' p = if p =? phys then Z.max 1 (get m p - 1) else get m p) m.
Proof.
  intros Hok. unfold decrement, get. do 2 wp_step. simpl.
  destruct (m !! phys) as [n|] eqn:Hm; simpl.
  - pose proof (map_Forall_lookup_1 _ _ _ _ Hok Hm) as Hn. simpl in Hn.
    wp_step. apply wp_sub; [lia|]. wp_step. destruct (Z.leb_spec (n - 1) 1).
    + do 2 wp_step. split_and!; [by apply map_Forall_delete|done|]. intros p.
      destruct (Z.eqb_spec p phys) as [->|]; [rewrite lookup_delete_eq, Hm; simpl; lia|by rewrite lookup_delete_ne].
    + do 2 wp_step. split_and!; [apply map_Forall_insert_2; [simpl; lia|done]|done|]. intros p.
      destruct (Z.eqb_spec p phys) as [->|]; [rewrite lookup_insert_eq, Hm; simpl; lia|by rewrite lookup_insert_ne].
  - wp_step. split_and!; try done. intros p. destruct (Z.eqb_spec p phys) as [->|]; [by rewrite Hm|done].
Qed.

End Refcount.
