(* ===== verification/Slab.v ===== *)
(** * The slab allocator

    [src/kernel/src/memory/slab.rs]: caches of objects of one size, each a set
    of one-page slabs with a bitmap of free objects.  The pages come from
    [Frames].  The cache is shown to be a set of live objects: [allocate] adds
    an address that is not in it and [free] removes one. *)

From stdpp Require Import gmap.
From S2P Require Import Prelude Frames.

(** ** The code *)

Record SlabStats : Type := mkSlabStats {
  allocations : Z;
  deallocations : Z;
  current_objects : Z;
  slabs_created : Z;
  slabs_destroyed : Z;
  cache_hits : Z;
  cache_misses : Z;
}.

Definition stats_new : SlabStats := mkSlabStats 0 0 0 0 0 0 0.
Definition up (n : Z) : Z := as_u64 (n + 1).

Definition record_alloc (is_cache_hit : bool) (s : SlabStats) : SlabStats :=
  mkSlabStats (up (allocations s)) (deallocations s) (up (current_objects s)) (slabs_created s)
    (slabs_destroyed s)
    (if is_cache_hit then up (cache_hits s) else cache_hits s)
    (if is_cache_hit then cache_misses s else up (cache_misses s)).
Definition record_dealloc (s : SlabStats) : SlabStats :=
  mkSlabStats (allocations s) (up (deallocations s)) (as_u64 (current_objects s - 1)) (slabs_created s)
    (slabs_destroyed s) (cache_hits s) (cache_misses s).
Definition record_slab_created (s : SlabStats) : SlabStats :=
  mkSlabStats (allocations s) (deallocations s) (current_objects s) (up (slabs_created s))
    (slabs_destroyed s) (cache_hits s) (cache_misses s).
Definition record_slab_destroyed (s : SlabStats) : SlabStats :=
  mkSlabStats (allocations s) (deallocations s) (current_objects s) (slabs_created s)
    (up (slabs_destroyed s)) (cache_hits s) (cache_misses s).

Record Slab : Type := mkSlab {
  base : Z;
  free_bitmap : Z;
  object_count : Z;
  free_count : Z;
  slab_size : Z;
}.

(** Vectors with the last pushed slab first. *)
Record SlabCache : Type := mkSlabCache {
  object_size : Z;
  alignment : Z;
  partial_slabs : list Slab;
  full_slabs : list Slab;
  empty_slabs : list Slab;
  max_empty_slabs : Z;
  allocated : Z;
  cache_stats : SlabStats;
}.

(** A cache with the global state it works on: the frame allocator and
    [GLOBAL_STATS]. *)
Record World : Type := mkWorld {
  cache : SlabCache;
  frames : Frames;
  global_stats : SlabStats;
}.

Definition SIZE_CLASSES : list Z := [8; 16; 32; 64; 128; 256; 512; 1024; 2048].

Fixpoint size_class_go (size : Z) (classes : list Z) : option Z :=
  match classes with
  | [] => None
  | class :: classes => if size <=? class then Some class else size_class_go size classes
  end.
Definition get_size_class (size : Z) : option Z := size_class_go size SIZE_CLASSES.

Definition cache_new (object_size alignment : Z) : SlabCache :=
  mkSlabCache (Z.max object_size 8) alignment [] [] [] 2 0 stats_new.

Definition set_partial (l : list Slab) (c : SlabCache) : SlabCache :=
  mkSlabCache (object_size c) (alignment c) l (full_slabs c) (empty_slabs c) (max_empty_slabs c)
    (allocated c) (cache_stats c).
Definition set_full (l : list Slab) (c : SlabCache) : SlabCache :=
  mkSlabCache (object_size c) (alignment c) (partial_slabs c) l (empty_slabs c) (max_empty_slabs c)
    (allocated c) (cache_stats c).
Definition set_empty (l : list Slab) (c : SlabCache) : SlabCache :=
  mkSlabCache (object_size c) (alignment c) (partial_slabs c) (full_slabs c) l (max_empty_slabs c)
    (allocated c) (cache_stats c).
Definition set_count (n : Z) (c : SlabCache) : SlabCache :=
  mkSlabCache (object_size c) (alignment c) (partial_slabs c) (full_slabs c) (empty_slabs c)
    (max_empty_slabs c) n (cache_stats c).
Definition set_cache_stats (f : SlabStats → SlabStats) (c : SlabCache) : SlabCache :=
  mkSlabCache (object_size c) (alignment c) (partial_slabs c) (full_slabs c) (empty_slabs c)
    (max_empty_slabs c) (allocated c) (f (cache_stats c)).

Definition on_cache (f : SlabCache → SlabCache) (w : World) : World :=
  mkWorld (f (cache w)) (frames w) (global_stats w).
Definition on_frames (fr : Frames) (w : World) : World := mkWorld (cache w) fr (global_stats w).
Definition on_global (f : SlabStats → SlabStats) (w : World) : World :=
  mkWorld (cache w) (frames w) (f (global_stats w)).
(** Counters that are kept for the cache and globally. *)
Definition on_stats (f : SlabStats → SlabStats) (w : World) : World := on_global f (on_cache (set_cache_stats f) w).

Section code.
Context {E : Type}.
Abbreviation SlabM := (M World E).

(** [Slab::new].  [(1u64 << object_count) - 1] panics when the count is 64. *)
Definition slab_new (object_size : Z) : SlabM (option Slab) :=
  f ← zoom frames on_frames allocate_frame;
  match f with
  | None => mret None
  | Some b =>
      if object_size =? 0 then panic
      else
        let object_count := Z.min (4096 / object_size) 64 in
        if object_count <? 64
        then mret (Some (mkSlab b (Z.shiftl 1 object_count - 1) object_count object_count 4096))
        else panic
  end.

(** [u64::trailing_zeros] of a number that is not zero. *)
Fixpoint trailing_zeros_go (n : nat) (z : Z) : Z :=
  match n with
  | O => 0
  | S n => if Z.testbit z 0 then 0 else 1 + trailing_zeros_go n (Z.shiftr z 1)
  end.
Definition trailing_zeros (z : Z) : Z := trailing_zeros_go 64 z.

(** [Slab::allocate]: the object and the slab after it. *)
Definition slab_allocate (object_size : Z) (s : Slab) : outcome E (option (Z * Slab)) :=
  if free_bitmap s =? 0 then Ok None
  else
    let index := trailing_zeros (free_bitmap s) in
    if free_count s <? 1 then Panic
    else Ok (Some (base s + index * object_size,
                   mkSlab (base s) (Z.ldiff (free_bitmap s) (Z.shiftl 1 index)) (object_count s)
                     (free_count s - 1) (slab_size s))).

Definition slab_free (ptr object_size : Z) (s : Slab) : outcome E Slab :=
  if (ptr <? base s) || (object_size =? 0) then Panic
  else
    let index := (ptr - base s) / object_size in
    if index <? 64
    then Ok (mkSlab (base s) (Z.lor (free_bitmap s) (Z.shiftl 1 index)) (object_count s)
               (free_count s + 1) (slab_size s))
    else Panic.

Definition contains (ptr object_size : Z) (s : Slab) : bool :=
  (base s <=? ptr) && (ptr <? base s + object_count s * object_size).
Definition is_full (s : Slab) : bool := free_count s =? 0.
Definition is_empty (s : Slab) : bool := free_count s =? object_count s.

(** [Drop for Slab]. *)
Definition slab_drop (s : Slab) : SlabM unit :=
  if base s =? 0 then mret tt else zoom frames on_frames (free_frame (base s)).

Definition handle_empty_slab (s : Slab) : SlabM unit :=
  c ← gets cache;
  if len (empty_slabs c) <? max_empty_slabs c
  then modify (on_cache (set_empty (s :: empty_slabs c)))
  else
    modify (on_stats record_slab_destroyed);;
    slab_drop s.

(** The bookkeeping of a successful allocation. *)
Definition note_alloc (hit : bool) : SlabM unit :=
  c ← gets cache;
  modify (on_cache (set_count (allocated c + 1)));;
  modify (on_stats (record_alloc hit)).

(** Step 3 of [SlabCache::allocate]: a fresh slab. *)
Definition allocate_new : SlabM (option Z) :=
  c ← gets cache;
  s ← slab_new (object_size c);
  match s with
  | None => mret None
  | Some s =>
      modify (on_stats record_slab_created);;
      r ← lift (slab_allocate (object_size c) s);
      match r with
      | None => slab_drop s;; mret None
      | Some (ptr, s) =>
          note_alloc false;;
          c ← gets cache;
          modify (on_cache (if is_full s then set_full (s :: full_slabs c) else set_partial (s :: partial_slabs c)));;
          mret (Some ptr)
      end
  end.

(** Step 2: an empty slab that was kept. *)
Definition allocate_empty : SlabM (option Z) :=
  c ← gets cache;
  match empty_slabs c with
  | s :: rest =>
      modify (on_cache (set_empty rest));;
      r ← lift (slab_allocate (object_size c) s);
      match r with
      | None => slab_drop s;; mret None
      | Some (ptr, s) =>
          note_alloc true;;
          c ← gets cache;
          modify (on_cache (set_partial (s :: partial_slabs c)));;
          mret (Some ptr)
      end
  | [] => allocate_new
  end.

Definition allocate : SlabM (option Z) :=
  c ← gets cache;
  match partial_slabs c with
  | s :: rest =>
      r ← lift (slab_allocate (object_size c) s);
      match r with
      | Some (ptr, s) =>
          modify (on_cache (set_partial (s :: rest)));;
          note_alloc true;;
          (if is_full s
           then modify (λ w, on_cache (λ c, set_full (s :: full_slabs c) (set_partial rest c)) w)
           else mret tt);;
          mret (Some ptr)
      | None => allocate_empty
      end
  | [] => allocate_empty
  end.

(** The loops of [SlabCache::free] look from the first pushed slab on;
    [find_slab] gives the slabs pushed after the one that holds [ptr], that
    slab, and those pushed before it. *)
Fixpoint find_slab (ptr object_size : Z) (l : list Slab) : option (list Slab * Slab * list Slab) :=
  match l with
  | [] => None
  | s :: l =>
      match find_slab ptr object_size l with
      | Some (after, found, before) => Some (s :: after, found, before)
      | None => if contains ptr object_size s then Some ([], s, l) else None
      end
  end.

Definition note_free : SlabM unit :=
  c ← gets cache;
  n ← sub_or_panic (allocated c) 1;
  modify (on_cache (set_count n));;
  modify (on_stats record_dealloc).

Definition free (ptr : Z) : SlabM unit :=
  c ← gets cache;
  match find_slab ptr (object_size c) (partial_slabs c) with
  | Some (after, s, before) =>
      s ← lift (slab_free ptr (object_size c) s);
      modify (on_cache (set_partial (after ++ s :: before)));;
      note_free;;
      if is_empty s then
        modify (on_cache (set_partial (after ++ before)));;
        handle_empty_slab s
      else mret tt
  | None =>
      match find_slab ptr (object_size c) (full_slabs c) with
      | Some (after, s, before) =>
          s ← lift (slab_free ptr (object_size c) s);
          modify (on_cache (set_full (after ++ s :: before)));;
          note_free;;
          modify (on_cache (set_full (after ++ before)));;
          if is_empty s then handle_empty_slab s
          else
            c ← gets cache;
            modify (on_cache (set_partial (s :: partial_slabs c)))
      | None => panic
      end
  end.

(** [shrink] pops until no empty slab is left. *)
Fixpoint shrink_go (slabs : list Slab) : SlabM unit :=
  match slabs with
  | [] => modify (on_cache (set_empty []))
  | s :: rest =>
      modify (on_cache (set_empty rest));;
      modify (on_stats record_slab_destroyed);;
      slab_drop s;;
      shrink_go rest
  end.
Definition shrink : SlabM unit := c ← gets cache; shrink_go (empty_slabs c).

Definition memory_usage (c : SlabCache) : Z :=
  (len (partial_slabs c) + len (full_slabs c) + len (empty_slabs c)) * 4096.

End code.

(** ** One slab *)

Definition indices (s : Slab) : list Z := seqZ 0 (object_count s).
(** The objects in use and the free ones, by index. *)
Definition used (s : Slab) : list Z := filter (λ i, Z.testbit (free_bitmap s) i = false) (indices s).
Definition unused (s : Slab) : list Z := filter (λ i, Z.testbit (free_bitmap s) i = true) (indices s).
(** The addresses in use. *)
Definition live_objects (sz : Z) (s : Slab) : list Z := (λ i, base s + i * sz) <$> used s.

(** The object sizes whose slabs hold 2 to 63 objects. *)
Definition size_ok (sz : Z) : Prop := 64 < sz ≤ 2048.

Record slab_ok (sz : Z) (s : Slab) : Prop := {
  so_count : object_count s = 4096 / sz;
  so_bitmap : in_u (object_count s) (free_bitmap s);
  so_free : free_count s = len (unused s);
}.

Lemma count_range sz : size_ok sz → 2 ≤ 4096 / sz < 64.
Proof.
  intros [? ?]. split; [apply Z.div_le_lower_bound; lia|apply Z.div_lt_upper_bound; lia].
Qed.

Lemma count_fits sz : size_ok sz → 4096 / sz * sz ≤ 4096.
Proof. intros [? ?]. pose proof (Z.mul_div_le 4096 sz). lia. Qed.

Lemma elem_used s i : i ∈ used s ↔ 0 ≤ i < object_count s ∧ Z.testbit (free_bitmap s) i = false.
Proof. unfold used, indices. rewrite list_elem_of_filter, elem_of_seqZ, Z.add_0_l. tauto. Qed.

Lemma elem_unused s i : i ∈ unused s ↔ 0 ≤ i < object_count s ∧ Z.testbit (free_bitmap s) i = true.
Proof. unfold unused, indices. rewrite list_elem_of_filter, elem_of_seqZ, Z.add_0_l. tauto. Qed.

Lemma NoDup_indices s : NoDup (indices s).
Proof. apply NoDup_seqZ. Qed.

Lemma trailing_zeros_go_spec n : ∀ z,
  0 < z < 2 ^ Z.of_nat n → 0 ≤ trailing_zeros_go n z ∧ Z.testbit z (trailing_zeros_go n z) = true.
Proof.
  induction n as [|n IH]; intros z Hz; [simpl in Hz; lia|]. simpl trailing_zeros_go.
  destruct (Z.odd z) eqn:H0; [split; [lia|by rewrite Z.bit0_odd]|].
  assert (Z.shiftr z 1 = z / 2) as Hs by (by rewrite Z.shiftr_div_pow2).
  assert (z mod 2 = 0) as Hm by (by rewrite Zmod_odd, H0).
  destruct (IH (Z.shiftr z 1)) as [Hge Hb].
  - rewrite Hs. rewrite Nat2Z.inj_succ, Z.pow_succ_r in Hz by lia. pose proof (Z.div_mod z 2). lia.
  - split; [lia|]. rewrite Z.shiftr_spec in Hb by lia. by replace (1 + _) with (trailing_zeros_go n (Z.shiftr z 1) + 1) by lia.
Qed.

Lemma trailing_zeros_spec z :
  0 < z < 2 ^ 64 → 0 ≤ trailing_zeros z ∧ Z.testbit z (trailing_zeros z) = true.
Proof. apply (trailing_zeros_go_spec 64). Qed.

Lemma testbit_in_u w z i : 0 ≤ w → in_u w z → Z.testbit z i = true → 0 ≤ i → i < w.
Proof.
  intros Hw Hz Hb Hi. destruct (Z_lt_le_dec i w) as [|Hge]; [done|].
  rewrite <- (wrap_id w z Hz), testbit_wrap_high in Hb by lia. done.
Qed.

(** Two slabs that differ in the bit of one object, free in the first. *)
Record flips (i : Z) (s s' : Slab) : Prop := {
  fl_count : object_count s' = object_count s;
  fl_index : 0 ≤ i < object_count s;
  fl_on : Z.testbit (free_bitmap s) i = true;
  fl_off : Z.testbit (free_bitmap s') i = false;
  fl_other : ∀ j, 0 ≤ j → j ≠ i → Z.testbit (free_bitmap s') j = Z.testbit (free_bitmap s) j;
}.

Lemma flips_used i s s' : flips i s s' → used s' ≡ₚ i :: used s.
Proof.
  intros [Hc Hi Hon Hoff Ho]. apply NoDup_Permutation.
  - apply NoDup_filter, NoDup_indices.
  - constructor; [|apply NoDup_filter, NoDup_indices]. rewrite elem_used. intros [_ ?]. congruence.
  - intros j. rewrite elem_of_cons, !elem_used, Hc. destruct (decide (j = i)) as [->|Hne]; [tauto|].
    destruct (decide (0 ≤ j)); [rewrite Ho by done; tauto|]. lia.
Qed.

Lemma flips_unused i s s' : flips i s s' → unused s ≡ₚ i :: unused s'.
Proof.
  intros [Hc Hi Hon Hoff Ho]. apply NoDup_Permutation.
  - apply NoDup_filter, NoDup_indices.
  - constructor; [|apply NoDup_filter, NoDup_indices]. rewrite elem_unused. intros [_ ?]. congruence.
  - intros j. rewrite elem_of_cons, !elem_unused, Hc. destruct (decide (j = i)) as [->|Hne]; [tauto|].
    destruct (decide (0 ≤ j)); [rewrite Ho by done; tauto|]. lia.
Qed.

Lemma len_Permutation {A} (l k : list A) : l ≡ₚ k → len l = len k.
Proof. intros H. unfold len. by rewrite H. Qed.

Lemma flips_free i s s' : flips i s s' → len (unused s) = len (unused s') + 1.
Proof. intros H. rewrite (len_Permutation _ _ (flips_unused i s s' H)), len_cons. done. Qed.

Lemma slab_allocate_spec {E} sz s :
  size_ok sz → slab_ok sz s → free_bitmap s ≠ 0 →
  ∃ i s', slab_allocate (E:=E) sz s = Ok (Some (base s + i * sz, s')) ∧ base s' = base s ∧
    slab_ok sz s' ∧ flips i s s'.
Proof.
  intros Hsz [Hc Hb Hf] Hne. pose proof (count_range sz Hsz). unfold in_u in Hb.
  assert (2 ^ object_count s ≤ 2 ^ 64) by (apply Z.pow_le_mono_r; lia).
  destruct (trailing_zeros_spec (free_bitmap s)) as [Hi Hbit]; [lia|].
  set (i := trailing_zeros (free_bitmap s)) in *.
  assert (i < object_count s) as Hlt by (eapply testbit_in_u; [|exact Hb|done|done]; lia).
  set (s' := mkSlab (base s) (Z.ldiff (free_bitmap s) (Z.shiftl 1 i)) (object_count s) (free_count s - 1) (slab_size s)).
  assert (flips i s s') as Hflip.
  { split; try done; simpl; [|intros j Hj Hji]; rewrite Z.ldiff_spec, Z.shiftl_1_l, Z.pow2_bits_eqb by lia.
    - by rewrite Z.eqb_refl, andb_false_r.
    - destruct (Z.eqb_spec i j); [congruence|]. by rewrite andb_true_r. }
  pose proof (flips_free _ _ _ Hflip) as Hlen. pose proof (len_nonneg (unused s')).
  unfold slab_allocate. destruct (Z.eqb_spec (free_bitmap s) 0); [done|]. fold i.
  destruct (Z.ltb_spec (free_count s) 1); [lia|]. exists i, s'. split_and!; try done.
  split; [done| |simpl; lia]. apply in_u_ldiff; [simpl; lia|done].
Qed.

Lemma slab_free_spec {E} sz s i :
  size_ok sz → slab_ok sz s → i ∈ used s →
  ∃ s', slab_free (E:=E) (base s + i * sz) sz s = Ok s' ∧ base s' = base s ∧ slab_ok sz s' ∧ flips i s' s.
Proof.
  intros Hsz [Hc Hb Hf] [Hi Hbit]%elem_used. pose proof (count_range sz Hsz). destruct Hsz as [? ?].
  set (s' := mkSlab (base s) (Z.lor (free_bitmap s) (Z.shiftl 1 i)) (object_count s) (free_count s + 1) (slab_size s)).
  assert (flips i s' s) as Hflip.
  { split; try done; simpl; [|intros j Hj Hji]; rewrite Z.lor_spec, Z.shiftl_1_l, Z.pow2_bits_eqb by lia.
    - by rewrite Z.eqb_refl, orb_true_r.
    - destruct (Z.eqb_spec i j); [congruence|]. by rewrite orb_false_r. }
  pose proof (flips_free _ _ _ Hflip) as Hlen.
  unfold slab_free. destruct (Z.ltb_spec (base s + i * sz) (base s)); [nia|].
  destruct (Z.eqb_spec sz 0); [lia|]. simpl. replace (base s + i * sz - base s) with (i * sz) by lia.
  rewrite Z.div_mul by lia. destruct (Z.ltb_spec i 64); [|lia]. exists s'. split_and!; try done.
  split; [done| |simpl; lia]. simpl. apply in_u_lor; [lia|done|]. rewrite Z.shiftl_1_l. unfold in_u.
  pose proof (pow2_pos i ltac:(lia)). pose proof (Z.pow_lt_mono_r 2 i (object_count s)). lia.
Qed.

(** ** A cache *)

Definition slabs (c : SlabCache) : list Slab := partial_slabs c ++ full_slabs c ++ empty_slabs c.
Definition live (sz : Z) (l : list Slab) : list Z := l ≫= live_objects sz.

(** [other] are the frames in use outside the cache. *)
Record cache_inv (start end_ sz : Z) (w : World) (other : list Z) : Prop := {
  ci_size : object_size (cache w) = sz;
  ci_max : max_empty_slabs (cache w) = 2;
  ci_frames : frames_inv start end_ (frames w) ((base <$> slabs (cache w)) ++ other);
  ci_ok : Forall (slab_ok sz) (slabs (cache w));
  ci_partial : Forall (λ s, free_bitmap s ≠ 0 ∧ used s ≠ []) (partial_slabs (cache w));
  ci_full : Forall (λ s, free_bitmap s = 0) (full_slabs (cache w));
  ci_empty : Forall (λ s, used s = []) (empty_slabs (cache w));
  ci_count : allocated (cache w) = len (live sz (slabs (cache w)));
}.

Lemma frames_inv_perm start end_ f h h' :
  h ≡ₚ h' → frames_inv start end_ f h → frames_inv start end_ f h'.
Proof. intros Hp [(next & ? & ? & ? & Hall) Hnd]. rewrite Hp in Hall, Hnd. split; [by exists next|done]. Qed.

#[export] Instance live_proper sz : Proper ((≡ₚ) ==> (≡ₚ)) (live sz).
Proof. intros l k H. unfold live. by rewrite H. Qed.

Lemma live_cons sz s l : live sz (s :: l) = live_objects sz s ++ live sz l.
Proof. done. Qed.

Lemma live_flip sz i s s' l :
  base s' = base s → flips i s s' → live sz (s' :: l) ≡ₚ (base s + i * sz) :: live sz (s :: l).
Proof.
  intros Hb Hf. rewrite !live_cons. unfold live_objects. rewrite (flips_used _ _ _ Hf), Hb. done.
Qed.

Lemma live_in_page sz s x :
  size_ok sz → slab_ok sz s → x ∈ live_objects sz s → base s ≤ x ∧ x + sz ≤ base s + 4096.
Proof.
  intros Hsz Hok (i & -> & [Hi _]%elem_used)%list_elem_of_fmap. pose proof (count_fits sz Hsz).
  rewrite (so_count _ _ Hok) in Hi. destruct Hsz. nia.
Qed.

Lemma same_page a b x :
  a mod PAGE_SIZE = 0 → b mod PAGE_SIZE = 0 → a ≤ x < a + 4096 → b ≤ x < b + 4096 → a = b.
Proof.
  intros Ha Hb Hx Hy. apply Z.mod_divide in Ha as [p ->], Hb as [q ->]; [|done..]. unfold PAGE_SIZE in *. lia.
Qed.

Lemma live_NoDup sz l :
  size_ok sz → Forall (slab_ok sz) l → Forall (λ s, base s mod PAGE_SIZE = 0) l → NoDup (base <$> l) →
  NoDup (live sz l).
Proof.
  intros Hsz. induction l as [|s l IH]; intros Hok Hal Hnd; [constructor|].
  apply Forall_cons in Hok as [Hs Hok]. apply Forall_cons in Hal as [Ha Hal].
  apply NoDup_cons in Hnd as [Hn Hnd]. rewrite live_cons. apply NoDup_app. split_and!; [| |by apply IH].
  - apply NoDup_fmap_2_strong; [|apply NoDup_filter, NoDup_indices].
    intros i j _ _ Heq. destruct Hsz. nia.
  - intros x Hx (s2 & Hx2 & Hin)%list_elem_of_bind. apply Hn.
    rewrite Forall_forall in Hok, Hal. apply live_in_page in Hx, Hx2; auto. destruct Hsz.
    rewrite (same_page (base s) (base s2) x); auto; [by apply list_elem_of_fmap_2|lia..].
Qed.

Section cache.
Context {E : Type} (start end_ sz : Z) (Hreg : frames_region start end_) (Hpos : 0 < start) (Hsz : size_ok sz).

Lemma cache_aligned w other :
  cache_inv start end_ sz w other →
  Forall (λ s, start ≤ base s < end_ ∧ base s mod PAGE_SIZE = 0) (slabs (cache w)) ∧ NoDup (base <$> slabs (cache w)).
Proof.
  intros HI. destruct (ci_frames _ _ _ _ _ HI) as [(next & _ & _ & _ & Hall) Hnd].
  rewrite !Forall_app in Hall. destruct Hall as (_ & Hall & _). apply NoDup_app in Hnd as (_ & _ & Hnd).
  apply NoDup_app in Hnd as (Hnd & _ & _). split; [|done]. rewrite Forall_fmap in Hall.
  eapply Forall_impl; [done|]. intros s (? & ? & ?). simpl in *. split; [lia|done].
Qed.

Lemma cache_live_NoDup w other : cache_inv start end_ sz w other → NoDup (live sz (slabs (cache w))).
Proof.
  intros HI. destruct (cache_aligned w other HI) as [Hal Hnd]. apply live_NoDup; auto; [apply HI|].
  eapply Forall_impl; [done|]. by intros s [_ ?].
Qed.

(** What an allocation or a free does to the set of live objects. *)
Definition allocates (w : World) (p : Z) (w' : World) : Prop :=
  live sz (slabs (cache w')) ≡ₚ p :: live sz (slabs (cache w)).

Lemma flips_not_empty i s s' : flips i s s' → used s' ≠ [].
Proof. intros Hf Hn. pose proof (flips_used _ _ _ Hf) as Hp. rewrite Hn in Hp. by apply Permutation_nil_cons in Hp. Qed.

(** A slab is full exactly when its bitmap is empty. *)
Lemma full_bitmap s : slab_ok sz s → (is_full s = true ↔ free_bitmap s = 0).
Proof.
  intros [Hc Hb Hf]. unfold is_full. rewrite Z.eqb_eq, Hf. pose proof (count_range sz Hsz). split.
  - intros Hl. assert (unused s = []) as Hn by (by apply nil_length_inv; unfold len in Hl; lia).
    apply Z.bits_inj'. intros i Hi. rewrite Z.bits_0. destruct (Z.testbit (free_bitmap s) i) eqn:Hbit; [|done].
    exfalso. assert (i ∈ unused s) as Hin.
    { apply elem_unused. split; [|done]. split; [done|]. eapply testbit_in_u; [|done..]. lia. }
    rewrite Hn in Hin. by apply not_elem_of_nil in Hin.
  - intros Hz. unfold unused. rewrite Hz. assert (∀ l : list Z, filter (λ i, Z.testbit 0 i = true) l = []) as ->; [|done].
    induction l as [|x l IH]; [done|]. rewrite filter_cons_False; [done|]. by rewrite Z.bits_0.
Qed.

Lemma used_unused s : len (used s) + len (unused s) = len (indices s).
Proof.
  unfold used, unused. induction (indices s) as [|i l IH]; [done|].
  rewrite !filter_cons, len_cons. destruct (Z.testbit (free_bitmap s) i); simpl; rewrite len_cons; lia.
Qed.

Lemma empty_used s : slab_ok sz s → (is_empty s = true ↔ used s = []).
Proof.
  intros [Hc Hb Hf]. pose proof (used_unused s) as Hu. pose proof (count_range sz Hsz).
  assert (len (indices s) = object_count s) as Hi by (unfold indices, len; rewrite length_seqZ; lia).
  unfold is_empty. rewrite Z.eqb_eq, Hf. split.
  - intros Heq. apply nil_length_inv. unfold len in *. lia.
  - intros Hn. rewrite Hn in Hu. unfold len at 1 in Hu. simpl in Hu. lia.
Qed.

(** One slab of the cache was replaced by [s'], maybe on another list. *)
Lemma inv_replace w w' other s s' l :
  cache_inv start end_ sz w other →
  slabs (cache w) ≡ₚ s :: l → slabs (cache w') ≡ₚ s' :: l → base s' = base s → slab_ok sz s' →
  object_size (cache w') = sz → max_empty_slabs (cache w') = 2 → frames w' = frames w →
  Forall (λ s, free_bitmap s ≠ 0 ∧ used s ≠ []) (partial_slabs (cache w')) →
  Forall (λ s, free_bitmap s = 0) (full_slabs (cache w')) →
  Forall (λ s, used s = []) (empty_slabs (cache w')) →
  allocated (cache w') = len (live sz (slabs (cache w'))) →
  cache_inv start end_ sz w' other.
Proof.
  intros HI Hp Hp' Hb Hok H1 H2 H3 H4 H5 H6 H7. split; try done.
  - rewrite H3. eapply frames_inv_perm; [|apply HI]. rewrite Hp, Hp'. simpl. by rewrite Hb.
  - rewrite Hp'. pose proof (ci_ok _ _ _ _ _ HI) as Hall. rewrite Hp in Hall.
    apply Forall_cons in Hall as [_ ?]. by constructor.
Qed.

Lemma live_replace w w' i s s' l :
  slabs (cache w) ≡ₚ s :: l → slabs (cache w') ≡ₚ s' :: l → base s' = base s → flips i s s' →
  allocates w (base s + i * sz) w'.
Proof. intros Hp Hp' Hb Hf. unfold allocates. rewrite Hp, Hp'. by apply live_flip. Qed.

Lemma allocates_count w p w' :
  allocates w p w' → len (live sz (slabs (cache w'))) = len (live sz (slabs (cache w))) + 1.
Proof. intros H. by rewrite (len_Permutation _ _ H), len_cons. Qed.

(** The result of a successful allocation. *)
Record allocated_at (w : World) (other : list Z) (p : Z) (w' : World) : Prop := {
  al_inv : cache_inv start end_ sz w' other;
  al_live : allocates w p w';
  al_page : ∃ b, start ≤ b < end_ ∧ b mod PAGE_SIZE = 0 ∧ b ≤ p ∧ p + sz ≤ b + PAGE_SIZE;
}.

Lemma flip_page w other i s s' l :
  cache_inv start end_ sz w other → slabs (cache w) ≡ₚ s :: l → flips i s s' →
  ∃ b, start ≤ b < end_ ∧ b mod PAGE_SIZE = 0 ∧ b ≤ base s + i * sz ∧ base s + i * sz + sz ≤ b + PAGE_SIZE.
Proof.
  intros HI Hp Hf. destruct (cache_aligned w other HI) as [Hal _]. rewrite Hp in Hal.
  apply Forall_cons in Hal as [[? ?] _]. exists (base s).
  pose proof (ci_ok _ _ _ _ _ HI) as Hok. rewrite Hp in Hok. apply Forall_cons in Hok as [Hs _].
  pose proof (count_fits sz Hsz). pose proof (fl_index _ _ _ Hf) as Hi. rewrite (so_count _ _ Hs) in Hi.
  unfold PAGE_SIZE in *. destruct Hsz. split_and!; try done; nia.
Qed.

(** Step 1: the partial slab on top has a free object. *)
Lemma allocate_partial_spec w other s rest :
  cache_inv start end_ sz w other → partial_slabs (cache w) = s :: rest →
  returns (allocate (E:=E)) (λ r w', ∃ p, r = Some p ∧ allocated_at w other p w') w.
Proof.
  intros HI Hp. pose proof HI as [Hs Hm Hfr Hok Hpa Hfu Hem Hct]. rewrite Hp in Hpa.
  apply Forall_cons in Hpa as [[Hbm Hus] Hpa].
  assert (slabs (cache w) ≡ₚ s :: rest ++ full_slabs (cache w) ++ empty_slabs (cache w)) as Hperm.
  { unfold slabs. by rewrite Hp. }
  assert (slab_ok sz s) as Hsok by (rewrite Hperm in Hok; by apply Forall_cons in Hok as [? _]).
  destruct (slab_allocate_spec (E:=E) sz s Hsz Hsok Hbm) as (i & s' & Heq & Hb & Hok' & Hflip).
  unfold allocate. do 2 wp_step. rewrite Hp, Hs. wp_step. eapply wp_lift_Ok; [exact Heq|]. simpl.
  unfold note_alloc. do 3 wp_step. do 5 wp_step. destruct (is_full s') eqn:Hfull; do 2 wp_step.
  - exists (base s + i * sz). split; [done|]. set (w' := on_cache _ _).
    assert (slabs (cache w') ≡ₚ s' :: rest ++ full_slabs (cache w) ++ empty_slabs (cache w)) as Hperm'.
    { unfold slabs. simpl. solve_Permutation. }
    assert (allocates w (base s + i * sz) w') as Hal by (by eapply live_replace).
    split; [|done|by eapply flip_page]. eapply inv_replace; try done.
    + simpl. constructor; [|done]. by apply full_bitmap.
    + rewrite (allocates_count _ _ _ Hal). simpl. by rewrite Hct.
  - exists (base s + i * sz). split; [done|]. set (w' := on_stats _ _).
    assert (slabs (cache w') ≡ₚ s' :: rest ++ full_slabs (cache w) ++ empty_slabs (cache w)) as Hperm'.
    { unfold slabs. simpl. solve_Permutation. }
    assert (allocates w (base s + i * sz) w') as Hal by (by eapply live_replace).
    split; [|done|by eapply flip_page]. eapply inv_replace; try done.
    + simpl. constructor; [|done]. split; [|by eapply flips_not_empty].
      intros Hz%full_bitmap; [|done]. congruence.
    + rewrite (allocates_count _ _ _ Hal). simpl. by rewrite Hct.
Qed.

(** A slab without live objects has room for at least two. *)
Lemma empty_slab_room i s s' :
  slab_ok sz s → slab_ok sz s' → used s = [] → flips i s s' → free_bitmap s ≠ 0 ∧ free_bitmap s' ≠ 0.
Proof.
  intros Hs Hs' Hn Hf. pose proof (used_unused s) as Hu. rewrite Hn in Hu. unfold len at 1 in Hu. simpl in Hu.
  assert (len (indices s) = object_count s) as Hi.
  { unfold indices, len. rewrite length_seqZ. pose proof (fl_index _ _ _ Hf). lia. }
  pose proof (flips_free _ _ _ Hf). pose proof (count_range sz Hsz). rewrite (so_count _ _ Hs) in Hi.
  split; intros Hz%full_bitmap; try done; unfold is_full in Hz; apply Z.eqb_eq in Hz;
    [rewrite (so_free _ _ Hs) in Hz|rewrite (so_free _ _ Hs') in Hz]; lia.
Qed.

Lemma empty_slab_bitmap s : slab_ok sz s → used s = [] → free_bitmap s ≠ 0.
Proof.
  intros Hs Hn Hz. pose proof (used_unused s) as Hu. rewrite Hn in Hu. unfold len at 1 in Hu. simpl in Hu.
  apply (full_bitmap s Hs) in Hz. unfold is_full in Hz. apply Z.eqb_eq in Hz. rewrite (so_free _ _ Hs) in Hz.
  unfold indices, len in *. rewrite length_seqZ in Hu. pose proof (count_range sz Hsz).
  rewrite <- (so_count _ _ Hs) in *. lia.
Qed.

(** Step 2: an empty slab is taken. *)
Lemma allocate_empty_spec w other s rest :
  cache_inv start end_ sz w other → empty_slabs (cache w) = s :: rest →
  returns (allocate_empty (E:=E)) (λ r w', ∃ p, r = Some p ∧ allocated_at w other p w') w.
Proof.
  intros HI Hp. pose proof HI as [Hs Hm Hfr Hok Hpa Hfu Hem Hct]. rewrite Hp in Hem.
  apply Forall_cons in Hem as [Hus Hem].
  assert (slabs (cache w) ≡ₚ s :: partial_slabs (cache w) ++ full_slabs (cache w) ++ rest) as Hperm.
  { unfold slabs. rewrite Hp. solve_Permutation. }
  assert (slab_ok sz s) as Hsok by (rewrite Hperm in Hok; by apply Forall_cons in Hok as [? _]).
  pose proof (empty_slab_bitmap s Hsok Hus) as Hbm.
  destruct (slab_allocate_spec (E:=E) sz s Hsz Hsok Hbm) as (i & s' & Heq & Hb & Hok' & Hflip).
  unfold allocate_empty. do 2 wp_step. rewrite Hp, Hs. do 2 wp_step. wp_step. eapply wp_lift_Ok; [exact Heq|]. simpl.
  unfold note_alloc. do 9 wp_step. exists (base s + i * sz). split; [done|]. set (w' := on_cache _ _).
  assert (slabs (cache w') ≡ₚ s' :: partial_slabs (cache w) ++ full_slabs (cache w) ++ rest) as Hperm' by done.
  assert (allocates w (base s + i * sz) w') as Hal by (by eapply live_replace).
  split; [|done|by eapply flip_page]. eapply inv_replace; try done.
  - simpl. constructor; [|done]. split; [by eapply (empty_slab_room i s s')|by eapply flips_not_empty].
  - rewrite (allocates_count _ _ _ Hal). simpl. by rewrite Hct.
Qed.

Definition fresh_slab (b : Z) : Slab :=
  mkSlab b (Z.shiftl 1 (4096 / sz) - 1) (4096 / sz) (4096 / sz) 4096.

Lemma fresh_slab_ok b : slab_ok sz (fresh_slab b) ∧ used (fresh_slab b) = [].
Proof.
  pose proof (count_range sz Hsz). pose proof (pow2_pos (4096 / sz) ltac:(lia)).
  assert (used (fresh_slab b) = []) as Hn.
  { apply elem_of_nil_inv. intros i [Hi Hbit]%elem_used. simpl in *. rewrite Z.shiftl_1_l in Hbit.
    rewrite Z.sub_1_r, <- Z.ones_equiv in Hbit. by rewrite Z.ones_spec_low in Hbit by lia. }
  split; [|done]. split; simpl; [done| |].
  - rewrite Z.shiftl_1_l. unfold in_u. lia.
  - pose proof (used_unused (fresh_slab b)) as Hu. rewrite Hn in Hu. unfold len at 1 in Hu. simpl in Hu.
    unfold indices, len in *. rewrite length_seqZ in Hu. simpl in Hu. lia.
Qed.

(** Step 3: a new slab, unless there is no frame. *)
Lemma allocate_new_spec w other :
  cache_inv start end_ sz w other →
  returns (allocate_new (E:=E))
    (λ r w', match r with
             | Some p => allocated_at w other p w'
             | None => w' = w ∧ exhausted (frames w) = true
             end) w.
Proof.
  intros HI. pose proof HI as [Hs Hm Hfr Hok Hpa Hfu Hem Hct].
  unfold allocate_new. do 3 wp_step. unfold slab_new. wp_step. apply wp_zoom.
  eapply wp_mono; [apply (allocate_frame_spec (E:=E) start end_ Hreg _ _ Hfr)| |by intros].
  intros [b|] fr; [|intros [-> Hn]; do 2 wp_step; by destruct w].
  intros (Hfr' & Hnb & Hbr & Hba). rewrite Hs. pose proof (count_range sz Hsz) as Hcr.
  destruct (Z.eqb_spec sz 0); [destruct Hsz; lia|]. rewrite Z.min_l by lia.
  destruct (Z.ltb_spec (4096 / sz) 64); [|lia]. wp_step. change (mkSlab b _ _ _ _) with (fresh_slab b).
  destruct (fresh_slab_ok b) as [Hfok Hfu'].
  destruct (slab_allocate_spec (E:=E) sz (fresh_slab b) Hsz Hfok) as (i & s' & Heq & Hb & Hok' & Hflip).
  { by apply empty_slab_bitmap. }
  do 2 wp_step. wp_step. eapply wp_lift_Ok; [exact Heq|]. simpl. unfold note_alloc. do 9 wp_step.
  destruct (empty_slab_room i _ _ Hfok Hok' Hfu' Hflip) as [_ Hbm'].
  destruct (is_full s') eqn:Hfull; [by apply full_bitmap in Hfull|]. do 2 wp_step.
  set (w' := on_cache _ _).
  assert (slabs (cache w') ≡ₚ s' :: slabs (cache w)) as Hperm by done.
  assert (allocates w (b + i * sz) w') as Hal.
  { unfold allocates. rewrite Hperm. rewrite (live_flip sz i (fresh_slab b) s') by done.
    rewrite live_cons. unfold live_objects. by rewrite Hfu'. }
  split; [split; try done|done|].
  - eapply frames_inv_perm; [|exact Hfr']. rewrite Hperm. simpl. by rewrite Hb.
  - rewrite Hperm. by constructor.
  - simpl. constructor; [|done]. split; [done|by eapply flips_not_empty].
  - rewrite (allocates_count _ _ _ Hal). simpl. by rewrite Hct.
  - exists b. pose proof (count_fits sz Hsz). pose proof (fl_index _ _ _ Hflip) as Hi. simpl in Hi.
    unfold PAGE_SIZE in *. destruct Hsz. split_and!; try done; nia.
Qed.

Lemma allocate_spec w other :
  cache_inv start end_ sz w other →
  returns (allocate (E:=E))
    (λ r w', match r with
             | Some p => allocated_at w other p w'
             | None => w' = w ∧ exhausted (frames w) = true
             end) w.
Proof.
  intros HI. destruct (partial_slabs (cache w)) as [|s rest] eqn:Hp.
  - unfold allocate. do 2 wp_step. rewrite Hp. destruct (empty_slabs (cache w)) as [|s rest] eqn:He.
    + unfold allocate_empty. do 2 wp_step. rewrite He. by apply allocate_new_spec.
    + eapply returns_mono; [by eapply allocate_empty_spec|]. by intros r w' (p & -> & Hw).
  - eapply returns_mono; [by eapply allocate_partial_spec|]. by intros r w' (p & -> & Hw).
Qed.

(** ** Freeing *)

Lemma find_slab_Some p l : ∀ after s before,
  find_slab p sz l = Some (after, s, before) → l = after ++ s :: before ∧ contains p sz s = true.
Proof.
  induction l as [|x l IH]; intros after s before; simpl; [done|].
  destruct (find_slab p sz l) as [[[a f] b]|].
  - intros [= <- <- <-]. destruct (IH _ _ _ eq_refl) as [-> ?]. done.
  - destruct (contains p sz x) eqn:Hc; [|done]. by intros [= <- <- <-].
Qed.

Lemma find_slab_None p l s : find_slab p sz l = None → s ∈ l → contains p sz s = false.
Proof.
  induction l as [|x l IH]; simpl; [by intros _ ?%not_elem_of_nil|].
  destruct (find_slab p sz l) as [[[? ?] ?]|]; [done|]. destruct (contains p sz x) eqn:Hc; [done|].
  intros _ [->|?]%elem_of_cons; auto.
Qed.

Lemma contains_live s i : slab_ok sz s → i ∈ used s → contains (base s + i * sz) sz s = true.
Proof.
  intros Hs [Hi _]%elem_used. unfold contains. destruct Hsz.
  apply andb_true_intro. split; [apply Z.leb_le|apply Z.ltb_lt]; nia.
Qed.

Lemma contains_page s p : slab_ok sz s → contains p sz s = true → base s ≤ p < base s + 4096.
Proof.
  intros Hs [Ha%Z.leb_le Hb%Z.ltb_lt]%andb_prop. rewrite (so_count _ _ Hs) in Hb.
  pose proof (count_fits sz Hsz). lia.
Qed.

(** Only one slab contains an address. *)
Lemma contains_unique w other s s' p :
  cache_inv start end_ sz w other → s ∈ slabs (cache w) → s' ∈ slabs (cache w) →
  contains p sz s = true → contains p sz s' = true → s = s'.
Proof.
  intros HI Hs Hs' Hc Hc'. destruct (cache_aligned w other HI) as [Hal Hnd].
  pose proof (ci_ok _ _ _ _ _ HI) as Hok. rewrite Forall_forall in Hok, Hal.
  apply contains_page in Hc, Hc'; auto. destruct (Hal s Hs) as [_ Ha], (Hal s' Hs') as [_ Ha'].
  pose proof (same_page _ _ _ Ha Ha' Hc Hc') as Heq.
  apply list_elem_of_lookup in Hs as [i Hi], Hs' as [j Hj].
  assert (i = j) as ->; [|congruence].
  eapply NoDup_lookup; [exact Hnd|by apply list_lookup_fmap_Some_2|].
  rewrite Heq. by apply list_lookup_fmap_Some_2.
Qed.

(** The slab [s] has been taken out of the cache; its frame counts as [other]. *)
Lemma handle_empty_spec w other s :
  cache_inv start end_ sz w (base s :: other) → slab_ok sz s → used s = [] →
  returns (handle_empty_slab (E:=E) s)
    (λ _ w', cache_inv start end_ sz w' other ∧ live sz (slabs (cache w')) ≡ₚ live sz (slabs (cache w))) w.
Proof.
  intros [Hs Hm Hfr Hok Hpa Hfu Hem Hct] Hsok Hus.
  assert (∀ l, live sz (s :: l) = live sz l) as Hlive.
  { intros l. rewrite live_cons. unfold live_objects. by rewrite Hus. }
  unfold handle_empty_slab. do 2 wp_step. destruct (Z.ltb_spec (len (empty_slabs (cache w))) (max_empty_slabs (cache w))).
  - wp_step. set (w' := on_cache _ _).
    assert (slabs (cache w') ≡ₚ s :: slabs (cache w)) as Hperm by (unfold slabs; simpl; solve_Permutation).
    assert (live sz (slabs (cache w')) ≡ₚ live sz (slabs (cache w))) as Hl by (by rewrite Hperm, Hlive).
    split; [|done]. split; try done.
    + eapply frames_inv_perm; [|exact Hfr]. rewrite Hperm. simpl. solve_Permutation.
    + rewrite Hperm. by constructor.
    + simpl. by constructor.
    + rewrite (len_Permutation _ _ Hl). done.
  - do 2 wp_step. unfold slab_drop.
    assert (start ≤ base s) as Hb.
    { destruct Hfr as [(next & _ & _ & _ & Hall) _]. rewrite !Forall_app, Forall_cons in Hall.
      destruct Hall as (_ & _ & (? & _) & _). lia. }
    destruct (Z.eqb_spec (base s) 0); [lia|]. apply wp_zoom.
    eapply wp_mono; [apply (free_frame_spec (E:=E) start end_ _ _ _ _ Hfr)| |by intros].
    intros [] fr Hfr'. split; [|done]. by split.
Qed.

Lemma note_free_spec w Q :
  1 ≤ allocated (cache w) → Q tt (on_stats record_dealloc (on_cache (set_count (allocated (cache w) - 1)) w)) →
  returns (note_free (E:=E)) Q w.
Proof.
  intros H HQ. unfold note_free. do 3 wp_step. apply wp_sub; [done|]. do 3 wp_step. done.
Qed.

Lemma live_count_pos w other p :
  cache_inv start end_ sz w other → p ∈ live sz (slabs (cache w)) → 1 ≤ allocated (cache w).
Proof.
  intros HI Hin. rewrite (ci_count _ _ _ _ _ HI). destruct (live sz (slabs (cache w))) as [|x l].
  - by apply not_elem_of_nil in Hin.
  - rewrite len_cons. pose proof (len_nonneg l). lia.
Qed.

Lemma bitmap_on i s s' : flips i s s' → free_bitmap s ≠ 0.
Proof. intros Hf Hz. pose proof (fl_on _ _ _ Hf) as Ho. rewrite Hz, Z.bits_0 in Ho. done. Qed.

(** The slab [s] lost its last object, [s'] is what is left of it. *)
Lemma inv_detach w w' other i s s' l :
  cache_inv start end_ sz w other →
  slabs (cache w) ≡ₚ s :: l → slabs (cache w') ≡ₚ l → base s' = base s → flips i s' s → used s' = [] →
  object_size (cache w') = sz → max_empty_slabs (cache w') = 2 → frames w' = frames w →
  Forall (λ s, free_bitmap s ≠ 0 ∧ used s ≠ []) (partial_slabs (cache w')) →
  Forall (λ s, free_bitmap s = 0) (full_slabs (cache w')) →
  Forall (λ s, used s = []) (empty_slabs (cache w')) →
  allocated (cache w') = allocated (cache w) - 1 →
  cache_inv start end_ sz w' (base s' :: other) ∧ allocates w' (base s + i * sz) w.
Proof.
  intros HI Hp Hp' Hb Hf Hu H1 H2 H3 H4 H5 H6 H7.
  assert (allocates w' (base s + i * sz) w) as Hal.
  { unfold allocates. rewrite Hp, Hp', (live_flip sz i s' s l) by done.
    rewrite live_cons, Hb. unfold live_objects. by rewrite Hu. }
  split; [split; try done|done].
  - rewrite H3. eapply frames_inv_perm; [|apply HI]. rewrite Hp, Hp', Hb. simpl. solve_Permutation.
  - rewrite Hp'. pose proof (ci_ok _ _ _ _ _ HI) as Hall. rewrite Hp in Hall. by apply Forall_cons in Hall as [_ ?].
  - rewrite H7, (ci_count _ _ _ _ _ HI), (allocates_count _ _ _ Hal). lia.
Qed.

Definition freed (w : World) (other : list Z) (p : Z) (w' : World) : Prop :=
  cache_inv start end_ sz w' other ∧ allocates w' p w.

(** The object is in a partial slab. *)
Lemma free_partial_spec w other after s before i :
  cache_inv start end_ sz w other → i ∈ used s → base s + i * sz ∈ live sz (slabs (cache w)) →
  partial_slabs (cache w) = after ++ s :: before →
  find_slab (base s + i * sz) sz (partial_slabs (cache w)) = Some (after, s, before) →
  returns (free (E:=E) (base s + i * sz)) (λ _ w', freed w other (base s + i * sz) w') w.
Proof.
  intros HI Hi Hlive Hp Hfind. pose proof HI as [Hs Hm Hfr Hok Hpa Hfu Hem Hct]. rewrite Hp in Hpa.
  apply Forall_app in Hpa as [Hpa1 [_ Hpa2]%Forall_cons].
  set (l := after ++ before ++ full_slabs (cache w) ++ empty_slabs (cache w)).
  assert (slabs (cache w) ≡ₚ s :: l) as Hperm by (unfold slabs; rewrite Hp; solve_Permutation).
  assert (slab_ok sz s) as Hsok by (rewrite Hperm in Hok; by apply Forall_cons in Hok as [? _]).
  destruct (slab_free_spec (E:=E) sz s i Hsz Hsok Hi) as (s' & Heq & Hb & Hok' & Hflip).
  unfold free. do 2 wp_step. rewrite Hs, Hfind. wp_step. eapply wp_lift_Ok; [exact Heq|]. do 3 wp_step.
  apply note_free_spec; [by eapply (live_count_pos w)|]. destruct (is_empty s') eqn:He; [do 2 wp_step|wp_step].
  - apply (empty_used s' Hok') in He. set (w1 := on_cache _ _).
    destruct (inv_detach w w1 other i s s' l) as [HI1 Hal]; try done.
    { unfold slabs, l. simpl. solve_Permutation. }
    { by apply Forall_app. }
    eapply wp_mono; [by apply handle_empty_spec| |by intros]. intros [] w' [HI' Hl]. split; [done|].
    unfold allocates in *. by rewrite Hl.
  - set (w1 := on_stats _ _).
    assert (slabs (cache w1) ≡ₚ s' :: l) as Hperm1 by (unfold slabs, l; simpl; solve_Permutation).
    assert (allocates w1 (base s + i * sz) w) as Hal by (rewrite <- Hb; by eapply live_replace).
    split; [|done]. eapply inv_replace; try done.
    + apply Forall_app. split; [done|]. constructor; [|done]. split; [by eapply bitmap_on|].
      intros Hn. apply (empty_used s' Hok') in Hn. congruence.
    + pose proof (allocates_count _ _ _ Hal). change (allocated (cache w1)) with (allocated (cache w) - 1). lia.
Qed.

(** The object is in a full slab. *)
Lemma free_full_spec w other after s before i :
  cache_inv start end_ sz w other → i ∈ used s → base s + i * sz ∈ live sz (slabs (cache w)) →
  full_slabs (cache w) = after ++ s :: before →
  find_slab (base s + i * sz) sz (partial_slabs (cache w)) = None →
  find_slab (base s + i * sz) sz (full_slabs (cache w)) = Some (after, s, before) →
  returns (free (E:=E) (base s + i * sz)) (λ _ w', freed w other (base s + i * sz) w') w.
Proof.
  intros HI Hi Hlive Hp Hnone Hfind. pose proof HI as [Hs Hm Hfr Hok Hpa Hfu Hem Hct]. rewrite Hp in Hfu.
  apply Forall_app in Hfu as [Hfu1 [_ Hfu2]%Forall_cons].
  set (l := partial_slabs (cache w) ++ after ++ before ++ empty_slabs (cache w)).
  assert (slabs (cache w) ≡ₚ s :: l) as Hperm by (unfold slabs; rewrite Hp; solve_Permutation).
  assert (slab_ok sz s) as Hsok by (rewrite Hperm in Hok; by apply Forall_cons in Hok as [? _]).
  destruct (slab_free_spec (E:=E) sz s i Hsz Hsok Hi) as (s' & Heq & Hb & Hok' & Hflip).
  unfold free. do 2 wp_step. rewrite Hs, Hnone, Hfind. wp_step. eapply wp_lift_Ok; [exact Heq|]. do 3 wp_step.
  apply note_free_spec; [by eapply (live_count_pos w)|]. do 2 wp_step. destruct (is_empty s') eqn:He.
  - apply (empty_used s' Hok') in He. set (w1 := on_cache _ _).
    destruct (inv_detach w w1 other i s s' l) as [HI1 Hal]; try done.
    { unfold slabs, l. simpl. solve_Permutation. }
    { by apply Forall_app. }
    eapply wp_mono; [by apply handle_empty_spec| |by intros]. intros [] w' [HI' Hl]. split; [done|].
    unfold allocates in *. by rewrite Hl.
  - do 3 wp_step. set (w1 := on_cache _ _).
    assert (slabs (cache w1) ≡ₚ s' :: l) as Hperm1 by (unfold slabs, l; simpl; solve_Permutation).
    assert (allocates w1 (base s + i * sz) w) as Hal by (rewrite <- Hb; by eapply live_replace).
    split; [|done]. eapply inv_replace; try done.
    + constructor; [|done]. split; [by eapply bitmap_on|].
      intros Hn. apply (empty_used s' Hok') in Hn. congruence.
    + by apply Forall_app.
    + pose proof (allocates_count _ _ _ Hal). change (allocated (cache w1)) with (allocated (cache w) - 1). lia.
Qed.

Lemma free_spec w other p :
  cache_inv start end_ sz w other → p ∈ live sz (slabs (cache w)) →
  returns (free (E:=E) p) (λ _ w', freed w other p w') w.
Proof.
  intros HI Hp. pose proof Hp as (s & (i & -> & Hi)%list_elem_of_fmap & Hs)%list_elem_of_bind.
  pose proof (ci_ok _ _ _ _ _ HI) as Hok. rewrite Forall_forall in Hok.
  pose proof (contains_live s i (Hok s Hs) Hi) as Hc.
  destruct (find_slab (base s + i * sz) sz (partial_slabs (cache w))) as [[[a f] b]|] eqn:Hf.
  - pose proof (find_slab_Some _ _ _ _ _ Hf) as [Heq Hc'].
    assert (f = s) as ->.
    { eapply contains_unique; try done. unfold slabs. rewrite Heq, !elem_of_app, elem_of_cons. tauto. }
    by eapply free_partial_spec.
  - destruct (find_slab (base s + i * sz) sz (full_slabs (cache w))) as [[[a f] b]|] eqn:Hf'.
    + pose proof (find_slab_Some _ _ _ _ _ Hf') as [Heq Hc'].
      assert (f = s) as ->.
      { eapply contains_unique; try done. unfold slabs. rewrite Heq, !elem_of_app, elem_of_cons. tauto. }
      by eapply free_full_spec.
    + exfalso. unfold slabs in Hs. rewrite !elem_of_app in Hs. destruct Hs as [Hs|[Hs|Hs]].
      * rewrite (find_slab_None _ _ _ Hf Hs) in Hc. done.
      * rewrite (find_slab_None _ _ _ Hf' Hs) in Hc. done.
      * pose proof (ci_empty _ _ _ _ _ HI) as Hem. rewrite Forall_forall in Hem.
        rewrite (Hem s Hs) in Hi. by apply not_elem_of_nil in Hi.
Qed.

(** [shrink] gives every empty slab back and keeps the live objects. *)
Lemma shrink_spec w other :
  cache_inv start end_ sz w other →
  returns (shrink (E:=E))
    (λ _ w', cache_inv start end_ sz w' other ∧ live sz (slabs (cache w')) ≡ₚ live sz (slabs (cache w)) ∧
      empty_slabs (cache w') = []) w.
Proof.
  unfold shrink. intros HI. do 2 wp_step. remember (empty_slabs (cache w)) as l eqn:Hl. symmetry in Hl.
  revert w HI Hl. induction l as [|s l IH]; intros w HI Hl; pose proof HI as [Hs Hm Hfr Hok Hpa Hfu Hem Hct].
  - simpl. wp_step. replace (on_cache (set_empty []) w) with w; [by split_and!|].
    destruct w as [[] ? ?]. simpl in *. unfold on_cache, set_empty. simpl. by subst.
  - simpl shrink_go. do 4 wp_step. wp_step. set (w1 := on_stats _ _).
    assert (slabs (cache w) ≡ₚ s :: slabs (cache w1)) as Hperm by (unfold slabs; simpl; rewrite Hl; solve_Permutation).
    rewrite Hl in Hem. apply Forall_cons in Hem as [Hus Hem].
    assert (live sz (slabs (cache w1)) ≡ₚ live sz (slabs (cache w))) as Hlive.
    { rewrite Hperm, live_cons. unfold live_objects. by rewrite Hus. }
    destruct (cache_aligned w other HI) as [Hal _]. rewrite Hperm in Hal, Hok.
    apply Forall_cons in Hal as [[? _] _], Hok as [_ Hok]. unfold slab_drop.
    destruct (Z.eqb_spec (base s) 0); [lia|]. apply wp_zoom.
    assert (frames_inv start end_ (frames w1) ((base <$> slabs (cache w1)) ++ base s :: other)) as Hfr1.
    { eapply frames_inv_perm; [|exact Hfr]. rewrite Hperm. simpl. solve_Permutation. }
    eapply wp_mono; [apply (free_frame_spec (E:=E) start end_ _ _ _ _ Hfr1)| |by intros].
    intros [] fr Hfr2. eapply wp_mono; [apply IH| |by intros].
    + split; try done. change (allocated (cache w) = len (live sz (slabs (cache w1)))).
      by rewrite (len_Permutation _ _ Hlive).
    + done.
    + intros [] w' (? & Hl' & ?). split_and!; try done. rewrite Hl'. exact Hlive.
Qed.

End cache.

(** ** The nine caches

    The statics [SLAB_8] to [SLAB_2048] as a map from the size class; a class
    without an entry is [None].  They share the frames and [GLOBAL_STATS]. *)

Module Global.

Record Slabs : Type := mkSlabs {
  caches : gmap Z SlabCache;
  frames_of : Frames;
  stats_of : SlabStats;
}.

Definition view (k : Z) (w : Slabs) : World :=
  mkWorld (default (cache_new k 8) (caches w !! k)) (frames_of w) (stats_of w).
Definition put (k : Z) (x : World) (w : Slabs) : Slabs :=
  mkSlabs (<[k := cache x]> (caches w)) (frames x) (global_stats x).

Definition init (w : Slabs) : Slabs :=
  mkSlabs (list_to_map ((λ k, (k, cache_new k 8)) <$> SIZE_CLASSES)) (frames_of w) (stats_of w).

Section code.
Context {E : Type}.

Definition slab_alloc (size : Z) : M Slabs E (option Z) :=
  match get_size_class size with
  | None => mret None
  | Some k =>
      c ← gets (λ w, caches w !! k);
      match c with
      | None => mret None
      | Some _ => zoom (view k) (put k) allocate
      end
  end.

Definition slab_free (ptr size : Z) : M Slabs E unit :=
  match get_size_class size with
  | None => panic
  | Some k =>
      c ← gets (λ w, caches w !! k);
      match c with
      | None => mret tt
      | Some _ => zoom (view k) (put k) (free ptr)
      end
  end.

End code.

(** *** The objects of all the caches *)

Definition all_slabs (m : gmap Z SlabCache) : list (Z * Slab) :=
  map_to_list m ≫= λ kc, (λ s, (kc.1, s)) <$> slabs kc.2.
Definition bases (m : gmap Z SlabCache) : list Z := (λ ks, base ks.2) <$> all_slabs m.
(** The live objects, each with its size class. *)
Definition objects (m : gmap Z SlabCache) : list (Z * Z) :=
  all_slabs m ≫= λ ks, (λ p, (ks.1, p)) <$> live_objects ks.1 ks.2.

Lemma all_slabs_delete m k c :
  m !! k = Some c → all_slabs m ≡ₚ ((λ s, (k, s)) <$> slabs c) ++ all_slabs (delete k m).
Proof. intros H. unfold all_slabs. by rewrite <- (map_to_list_delete m k c H). Qed.

Lemma all_slabs_insert m k c :
  all_slabs (<[k := c]> m) ≡ₚ ((λ s, (k, s)) <$> slabs c) ++ all_slabs (delete k m).
Proof.
  rewrite (all_slabs_delete (<[k := c]> m) k c) by apply lookup_insert_eq. by rewrite delete_insert_eq.
Qed.

Lemma bases_app k l l' :
  (λ ks : Z * Slab, base ks.2) <$> (((λ s, (k, s)) <$> l) ++ l') = (base <$> l) ++ ((λ ks, base ks.2) <$> l').
Proof. by rewrite fmap_app, <- list_fmap_compose. Qed.

Lemma bases_delete m k c : m !! k = Some c → bases m ≡ₚ (base <$> slabs c) ++ bases (delete k m).
Proof. intros H. unfold bases. by rewrite (all_slabs_delete m k c H), bases_app. Qed.

Lemma bases_insert m k c : bases (<[k := c]> m) ≡ₚ (base <$> slabs c) ++ bases (delete k m).
Proof. unfold bases. by rewrite all_slabs_insert, bases_app. Qed.

Lemma objects_app k l l' :
  ((((λ s, (k, s)) <$> l) ++ l') ≫= λ ks : Z * Slab, (λ p, (ks.1, p)) <$> live_objects ks.1 ks.2) =
  ((λ p, (k, p)) <$> live k l) ++ (l' ≫= λ ks, (λ p, (ks.1, p)) <$> live_objects ks.1 ks.2).
Proof.
  rewrite bind_app. f_equal. induction l as [|s l IH]; [done|].
  rewrite live_cons, fmap_app, <- IH. done.
Qed.

Lemma objects_delete m k c :
  m !! k = Some c → objects m ≡ₚ ((λ p, (k, p)) <$> live k (slabs c)) ++ objects (delete k m).
Proof. intros H. unfold objects. by rewrite (all_slabs_delete m k c H), objects_app. Qed.

Lemma objects_insert m k c :
  objects (<[k := c]> m) ≡ₚ ((λ p, (k, p)) <$> live k (slabs c)) ++ objects (delete k m).
Proof. unfold objects. by rewrite all_slabs_insert, objects_app. Qed.

(** *** The invariant *)

(** What the frames do not matter for. *)
Definition alone (start end_ : Z) (k : Z) (c : SlabCache) : Prop :=
  ∀ fr st other, frames_inv start end_ fr ((base <$> slabs c) ++ other) →
  cache_inv start end_ k (mkWorld c fr st) other.

Lemma cache_alone start end_ k w other : cache_inv start end_ k w other → alone start end_ k (cache w).
Proof. intros [? ? ? ? ? ? ? ?] fr st other' Hfr. by split. Qed.

(** A class of 64 bytes or less never has a slab. *)
Definition cache_good (start end_ k : Z) (c : SlabCache) : Prop :=
  if bool_decide (size_ok k) then alone start end_ k c
  else 0 < k ≤ 64 ∧ object_size c = k ∧ slabs c = [].

Record slabs_inv (start end_ : Z) (w : Slabs) (other : list Z) : Prop := {
  sl_dom : ∀ k, is_Some (caches w !! k) ↔ k ∈ SIZE_CLASSES;
  sl_frames : frames_inv start end_ (frames_of w) (bases (caches w) ++ other);
  sl_good : ∀ k c, caches w !! k = Some c → cache_good start end_ k c;
}.

Lemma classes_ok k : k ∈ SIZE_CLASSES → size_ok k ∨ 0 < k ≤ 64.
Proof.
  unfold SIZE_CLASSES, size_ok. rewrite !elem_of_cons, elem_of_nil. intros H. lia.
Qed.

Lemma get_size_class_spec size k : get_size_class size = Some k → k ∈ SIZE_CLASSES ∧ size ≤ k.
Proof.
  unfold get_size_class. generalize SIZE_CLASSES. induction l as [|x l IH]; simpl; [done|].
  destruct (Z.leb_spec size x); [intros [= <-]; by split; [left|]|].
  intros [? ?]%IH. split; [by right|done].
Qed.

Lemma get_size_class_large size : 64 < size ≤ 2048 → ∃ k, get_size_class size = Some k ∧ size_ok k.
Proof.
  intros Hs. unfold get_size_class, SIZE_CLASSES, size_class_go, size_ok.
  repeat (case Z.leb_spec; intros ?; [eexists; split; [done|lia]|]). lia.
Qed.

Lemma get_size_class_small size : size ≤ 64 → ∃ k, get_size_class size = Some k ∧ ¬ size_ok k.
Proof.
  intros Hs. unfold get_size_class, SIZE_CLASSES, size_class_go, size_ok.
  repeat (case Z.leb_spec; intros ?; [eexists; split; [done|lia]|]). lia.
Qed.

Lemma empty_alone start end_ k : alone start end_ k (cache_new k 8) ∨ k < 8.
Proof.
  destruct (Z_lt_le_dec k 8); [by right|]. left. intros fr st other Hfr. split; try done. simpl. lia.
Qed.

Lemma slabs_init_inv start end_ w other :
  frames_inv start end_ (frames_of w) other → slabs_inv start end_ (init w) other.
Proof.
  intros Hfr.
  assert (∀ k c, caches (init w) !! k = Some c → k ∈ SIZE_CLASSES ∧ c = cache_new k 8) as Hl.
  { intros k c Hk%elem_of_list_to_map_2. apply list_elem_of_fmap in Hk as (x & [= -> ->] & Hx). done. }
  assert (bases (caches (init w)) = []) as Hb by (by vm_compute).
  split; [|by rewrite Hb|].
  - intros k. split; [intros [c Hc]; by eapply Hl|]. intros Hk.
    exists (cache_new k 8). apply elem_of_list_to_map_1'.
    + intros y Hy. apply list_elem_of_fmap in Hy as (x & [= <- ->] & Hx). done.
    + apply list_elem_of_fmap. by exists k.
  - intros k c [Hk ->]%Hl. unfold cache_good. case_bool_decide as Hok.
    + destruct (empty_alone start end_ k); [done|]. destruct Hok. lia.
    + destruct (classes_ok k Hk); [done|]. split_and!; try done; try lia.
      simpl. repeat (apply elem_of_cons in Hk as [->|Hk]; [done|]). by apply not_elem_of_nil in Hk.
Qed.

Section ops.
Context {E : Type} (start end_ : Z) (Hreg : frames_region start end_) (Hpos : 0 < start).

Lemma view_inv w other k c :
  slabs_inv start end_ w other → caches w !! k = Some c → size_ok k →
  cache_inv start end_ k (view k w) (bases (delete k (caches w)) ++ other).
Proof.
  intros [Hd Hf Hg] Hk Hok. unfold view. rewrite Hk. simpl.
  pose proof (Hg k c Hk) as Hc. unfold cache_good in Hc. rewrite bool_decide_true in Hc by done. apply Hc.
  eapply frames_inv_perm; [|exact Hf]. by rewrite (bases_delete _ k c Hk), app_assoc.
Qed.

Lemma put_inv w other k c x :
  slabs_inv start end_ w other → caches w !! k = Some c → size_ok k →
  cache_inv start end_ k x (bases (delete k (caches w)) ++ other) → slabs_inv start end_ (put k x w) other.
Proof.
  intros [Hd Hf Hg] Hk Hok Hx. split; simpl.
  - intros k'. destruct (decide (k' = k)) as [->|Hne].
    + rewrite lookup_insert_eq. rewrite <- Hd. split; intros _; by eexists.
    + by rewrite lookup_insert_ne.
  - eapply frames_inv_perm; [|apply Hx]. by rewrite bases_insert, <- app_assoc.
  - intros k' c'. destruct (decide (k' = k)) as [->|Hne].
    + rewrite lookup_insert_eq. intros [= <-]. unfold cache_good. rewrite bool_decide_true by done.
      by eapply cache_alone.
    + rewrite lookup_insert_ne by done. apply Hg.
Qed.

(** The live objects change as those of the one cache do. *)
Lemma put_objects w k c x p :
  caches w !! k = Some c → allocates k (view k w) p x → objects (caches (put k x w)) ≡ₚ (k, p) :: objects (caches w).
Proof.
  intros Hk. unfold allocates, view. rewrite Hk. simpl. intros Hp.
  rewrite objects_insert, Hp, (objects_delete _ k c Hk). done.
Qed.

Lemma put_objects_free w k c x p :
  caches w !! k = Some c → allocates k x p (view k w) → objects (caches w) ≡ₚ (k, p) :: objects (caches (put k x w)).
Proof.
  intros Hk. unfold allocates, view. rewrite Hk. simpl. intros Hp.
  rewrite (objects_delete _ k c Hk), Hp, objects_insert. done.
Qed.

Lemma put_view w k c : caches w !! k = Some c → put k (view k w) w = w.
Proof.
  intros Hk. destruct w as [m f g]. unfold put, view in *. simpl in *. rewrite Hk. simpl. by rewrite insert_id.
Qed.

Lemma global_alloc_spec w other size k :
  slabs_inv start end_ w other → get_size_class size = Some k → size_ok k →
  returns (slab_alloc (E:=E) size)
    (λ r w', match r with
             | Some p => slabs_inv start end_ w' other ∧ objects (caches w') ≡ₚ (k, p) :: objects (caches w)
             | None => w' = w ∧ exhausted (frames_of w) = true
             end) w.
Proof.
  intros HI Hk Hok. destruct (get_size_class_spec _ _ Hk) as [Hin _].
  apply (sl_dom _ _ _ _ HI) in Hin as [c Hc]. unfold slab_alloc. rewrite Hk. do 2 wp_step. rewrite Hc.
  apply wp_zoom. eapply wp_mono; [eapply (allocate_spec (E:=E) start end_ k Hreg Hok), view_inv; try done| |by intros].
  intros [p|] x Hx.
  - split; [by eapply put_inv, Hx|]. by eapply put_objects, Hx.
  - destruct Hx as [-> Hfree]. by rewrite (put_view _ _ c Hc).
Qed.

Lemma global_free_spec w other p size k :
  slabs_inv start end_ w other → get_size_class size = Some k → size_ok k → (k, p) ∈ objects (caches w) →
  returns (slab_free (E:=E) p size)
    (λ _ w', slabs_inv start end_ w' other ∧ objects (caches w) ≡ₚ (k, p) :: objects (caches w')) w.
Proof.
  intros HI Hk Hok Hp. destruct (get_size_class_spec _ _ Hk) as [Hin _].
  apply (sl_dom _ _ _ _ HI) in Hin as [c Hc]. unfold slab_free. rewrite Hk. do 2 wp_step. rewrite Hc.
  apply wp_zoom. eapply wp_mono; [eapply (free_spec (E:=E) start end_ k Hpos Hok); [by eapply view_inv|]| |by intros].
  - unfold view. rewrite Hc. simpl. rewrite (objects_delete _ k c Hc), elem_of_app in Hp.
    destruct Hp as [(q & [= ->] & Hq)%list_elem_of_fmap|Hp]; [done|]. exfalso.
    unfold objects, all_slabs in Hp. apply list_elem_of_bind in Hp as ((k' & s) & Hp & Hs).
    apply list_elem_of_fmap in Hp as (q & [= <- <-] & _).
    apply list_elem_of_bind in Hs as ((k' & c') & Hs & Hkc). apply elem_of_map_to_list in Hkc.
    apply list_elem_of_fmap in Hs as (? & [= <- <-] & _). simpl in Hkc. by rewrite lookup_delete_eq in Hkc.
  - intros [] x [Hx Hal]. split; [by eapply put_inv|by eapply put_objects_free].
Qed.

End ops.

(** *** Histories

    [held] are the objects the clients of the slab allocator hold, with their
    size classes; [other] are the frames held by clients of the frame
    allocator. *)

Definition with_frames (fr : Frames) (w : Slabs) : Slabs := mkSlabs (caches w) fr (stats_of w).

Inductive slab_reach (start end_ : Z) : Slabs → list (Z * Z) → list Z → Prop :=
| sr_start fr :
    init_frame_allocator (E:=unit) start end_ frames_new = (Ok tt, fr) →
    slab_reach start end_ (init (mkSlabs ∅ fr stats_new)) [] []
| sr_frame w held other a fr :
    slab_reach start end_ w held other → allocate_frame (E:=unit) (frames_of w) = (Ok (Some a), fr) →
    slab_reach start end_ (with_frames fr w) held (a :: other)
| sr_release w held other1 a other2 fr :
    slab_reach start end_ w held (other1 ++ a :: other2) → free_frame (E:=unit) a (frames_of w) = (Ok tt, fr) →
    slab_reach start end_ (with_frames fr w) held (other1 ++ other2)
| sr_alloc w held other size k p w' :
    slab_reach start end_ w held other → get_size_class size = Some k →
    slab_alloc (E:=unit) size w = (Ok (Some p), w') → slab_reach start end_ w' ((k, p) :: held) other
| sr_none w held other size w' :
    slab_reach start end_ w held other → slab_alloc (E:=unit) size w = (Ok None, w') → slab_reach start end_ w' held other
| sr_free w held1 k p held2 other size w' :
    slab_reach start end_ w (held1 ++ (k, p) :: held2) other → get_size_class size = Some k →
    slab_free (E:=unit) p size w = (Ok tt, w') → slab_reach start end_ w' (held1 ++ held2) other.

Lemma all_slabs_ok start end_ w other k s :
  slabs_inv start end_ w other → (k, s) ∈ all_slabs (caches w) → size_ok k ∧ slab_ok k s.
Proof.
  intros HI ((k' & c) & Hin & Hkc%elem_of_map_to_list)%list_elem_of_bind.
  apply list_elem_of_fmap in Hin as (? & [= -> <-] & Hin). simpl in *.
  destruct (decide (size_ok k')) as [Hok|Hno].
  - split; [done|]. pose proof (view_inv _ _ _ _ _ _ HI Hkc Hok) as Hv.
    pose proof (ci_ok _ _ _ _ _ Hv) as Hall. unfold view in Hall. rewrite Hkc in Hall. simpl in Hall.
    rewrite Forall_forall in Hall. by apply Hall.
  - pose proof (sl_good _ _ _ _ HI k' c Hkc) as Hg. unfold cache_good in Hg. rewrite bool_decide_false in Hg by done.
    destruct Hg as (_ & _ & Hg). rewrite Hg in Hin. by apply not_elem_of_nil in Hin.
Qed.

(** Where a live object is. *)
Lemma objects_elem start end_ w other k p :
  slabs_inv start end_ w other → (k, p) ∈ objects (caches w) →
  ∃ s i, size_ok k ∧ (k, s) ∈ all_slabs (caches w) ∧ slab_ok k s ∧ i ∈ used s ∧ p = base s + i * k.
Proof.
  intros HI ((k' & s) & Hp & Hs)%list_elem_of_bind. apply list_elem_of_fmap in Hp as (q & [= -> ->] & Hq).
  simpl in Hq. apply list_elem_of_fmap in Hq as (i & -> & Hi). exists s, i.
  by destruct (all_slabs_ok _ _ _ _ _ _ HI Hs).
Qed.

(** A request of a small class finds no slab, and making one panics. *)
Lemma small_alloc start end_ w other size k :
  frames_region start end_ → slabs_inv start end_ w other → get_size_class size = Some k → ¬ size_ok k →
  (exhausted (frames_of w) = true ∧ slab_alloc (E:=unit) size w = (Ok None, w)) ∨
  ∃ w', slab_alloc (E:=unit) size w = (Panic, w').
Proof.
  intros Hreg HI Hk Hno. destruct (get_size_class_spec _ _ Hk) as [Hin _].
  apply (sl_dom _ _ _ _ HI) in Hin as [c Hc]. pose proof (sl_good _ _ _ _ HI k c Hc) as Hg.
  unfold cache_good in Hg. rewrite bool_decide_false in Hg by done. destruct Hg as (Hr & Hs & Hn).
  unfold slabs in Hn. apply app_eq_nil in Hn as [Hp [Hf He]%app_eq_nil].
  pose proof (sl_frames _ _ _ _ HI) as Hfr.
  destruct (returns_eq _ _ _ (allocate_frame_spec (E:=unit) start end_ Hreg _ _ Hfr)) as (r & fr & Heq & Hpost).
  assert (view k w = mkWorld c (frames_of w) (stats_of w)) as Hv by (unfold view; by rewrite Hc).
  assert (slab_alloc (E:=unit) size w =
    match r with None => (Ok None, put k (on_frames fr (view k w)) w)
               | Some b => (Panic, put k (on_frames fr (view k w)) w) end) as Hrun.
  { unfold slab_alloc. rewrite Hk. unfold mbind, M_bind, gets. simpl. rewrite Hc. unfold zoom, allocate.
    unfold mbind, M_bind, gets. rewrite Hv. simpl. rewrite Hp. unfold allocate_empty, mbind, M_bind, gets. simpl.
    rewrite He. unfold allocate_new, slab_new, mbind, M_bind, gets, zoom. simpl. rewrite Heq, Hs.
    destruct r as [b|]; [|done]. destruct (Z.eqb_spec k 0); [done|].
    assert (64 ≤ 4096 / k) by (apply Z.div_le_lower_bound; lia). rewrite Z.min_r by lia. done. }
  destruct r as [b|]; [right; by eexists|]. left. destruct Hpost as [-> Hempty]. split; [done|].
  rewrite Hrun. f_equal. replace (on_frames (frames_of w) (view k w)) with (view k w) by (by rewrite Hv).
  by eapply put_view.
Qed.

Lemma slab_reach_inv start end_ w held other :
  frames_region start end_ → 0 < start → slab_reach start end_ w held other →
  slabs_inv start end_ w other ∧ held ≡ₚ objects (caches w).
Proof.
  intros Hreg Hpos.
  induction 1 as [fr Heq|w held other a fr _ [HI Hh] Heq|w held o1 a o2 fr _ [HI Hh] Heq
    |w held other size k p w' _ [HI Hh] Hk Heq|w held other size w' _ [HI Hh] Heq
    |w h1 k p h2 other size w' _ [HI Hh] Hk Heq].
  - injection Heq as <-. split; [|by vm_compute]. apply slabs_init_inv. by apply (frames_init (E:=unit)).
  - split; [|done]. pose proof HI as [Hd Hf Hg]. split; [done| |done].
    destruct (returns_eq _ _ _ (allocate_frame_spec (E:=unit) start end_ Hreg _ _ Hf)) as (r & s2 & Heq2 & Hr).
    rewrite Heq in Heq2. simplify_eq. eapply frames_inv_perm; [|apply Hr]. simpl. solve_Permutation.
  - split; [|done]. pose proof HI as [Hd Hf Hg]. split; [done| |done]. rewrite app_assoc in Hf.
    destruct (returns_eq _ _ _ (free_frame_spec (E:=unit) start end_ _ _ _ _ Hf)) as (r & s2 & Heq2 & Hr).
    rewrite Heq in Heq2. simplify_eq. by rewrite <- app_assoc in Hr.
  - destruct (decide (size_ok k)) as [Hok|Hno].
    + destruct (returns_eq _ _ _ (global_alloc_spec (E:=unit) start end_ Hreg _ _ _ _ HI Hk Hok)) as (r & s2 & Heq2 & Hr).
      rewrite Heq in Heq2. simplify_eq. destruct Hr as [? Hr]. split; [done|]. by rewrite Hr, Hh.
    + destruct (small_alloc _ _ _ _ _ _ Hreg HI Hk Hno) as [[_ Heq2]|[w2 Heq2]]; congruence.
  - destruct (get_size_class size) as [k|] eqn:Hk; [|unfold slab_alloc in Heq; rewrite Hk in Heq; by injection Heq as <-].
    destruct (decide (size_ok k)) as [Hok|Hno].
    + destruct (returns_eq _ _ _ (global_alloc_spec (E:=unit) start end_ Hreg _ _ _ _ HI Hk Hok)) as (r & s2 & Heq2 & Hr).
      rewrite Heq in Heq2. simplify_eq. by destruct Hr as [-> _].
    + destruct (small_alloc _ _ _ _ _ _ Hreg HI Hk Hno) as [[_ Heq2]|[w2 Heq2]]; [|congruence].
      rewrite Heq in Heq2. by simplify_eq.
  - assert ((k, p) ∈ objects (caches w)) as Hin by (rewrite <- Hh; apply elem_of_app; right; by left).
    destruct (objects_elem _ _ _ _ _ _ HI Hin) as (s & i & Hok & _).
    destruct (returns_eq _ _ _ (global_free_spec (E:=unit) start end_ Hpos _ _ _ _ _ HI Hk Hok Hin)) as (r & s2 & Heq2 & Hs2 & Hr).
    rewrite Heq in Heq2. simplify_eq. split; [done|]. rewrite Hr in Hh.
    rewrite <- Permutation_middle in Hh. by apply Permutation_cons_inv in Hh.
Qed.

Lemma all_slabs_page start end_ w other k s :
  slabs_inv start end_ w other → (k, s) ∈ all_slabs (caches w) →
  start ≤ base s < end_ ∧ base s mod PAGE_SIZE = 0 ∧ base s ∉ other.
Proof.
  intros HI Hs. destruct (sl_frames _ _ _ _ HI) as [(next & _ & _ & _ & Hall) Hnd].
  assert (base s ∈ bases (caches w)) as Hb by (apply list_elem_of_fmap; by exists (k, s)).
  rewrite !Forall_app in Hall. destruct Hall as (_ & Hall & _). rewrite Forall_forall in Hall.
  destruct (Hall _ Hb) as (? & ? & ?). apply NoDup_app in Hnd as (_ & _ & Hnd).
  apply NoDup_app in Hnd as (_ & Hd & _). split_and!; [lia..|done|by apply Hd].
Qed.

Lemma all_slabs_inj start end_ w other x y :
  slabs_inv start end_ w other → x ∈ all_slabs (caches w) → y ∈ all_slabs (caches w) → base x.2 = base y.2 → x = y.
Proof.
  intros HI [i Hi]%list_elem_of_lookup [j Hj]%list_elem_of_lookup Heq.
  destruct (sl_frames _ _ _ _ HI) as [_ Hnd]. apply NoDup_app in Hnd as (_ & _ & Hnd).
  apply NoDup_app in Hnd as (Hnd & _ & _). assert (i = j) as ->; [|congruence].
  eapply NoDup_lookup; [exact Hnd|by unfold bases; rewrite list_lookup_fmap, Hi|].
  unfold bases. by rewrite list_lookup_fmap, Hj, Heq.
Qed.

(** Two objects do not overlap. *)
Definition apart (x y : Z * Z) : Prop := x.2 + x.1 ≤ y.2 ∨ y.2 + y.1 ≤ x.2.

Lemma objects_apart start end_ w other x y :
  slabs_inv start end_ w other → x ∈ objects (caches w) → y ∈ objects (caches w) → x ≠ y → apart x y.
Proof.
  destruct x as [k p], y as [k' q]. intros HI Hx Hy Hne. unfold apart. simpl.
  destruct (objects_elem _ _ _ _ _ _ HI Hx) as (s & i & Hok & Hs & Hso & Hi & ->).
  destruct (objects_elem _ _ _ _ _ _ HI Hy) as (s' & j & Hok' & Hs' & Hso' & Hj & ->).
  destruct (all_slabs_page _ _ _ _ _ _ HI Hs) as (_ & Ha & _), (all_slabs_page _ _ _ _ _ _ HI Hs') as (_ & Ha' & _).
  pose proof (live_in_page k s (base s + i * k) Hok Hso ltac:(by apply list_elem_of_fmap; exists i)) as Hp.
  pose proof (live_in_page k' s' (base s' + j * k') Hok' Hso' ltac:(by apply list_elem_of_fmap; exists j)) as Hp'.
  destruct (decide (base s = base s')) as [Heq|Hb].
  - pose proof (all_slabs_inj _ _ _ _ (k, s) (k', s') HI Hs Hs' Heq) as [= -> ->].
    assert (i ≠ j) by congruence. destruct Hok. nia.
  - apply Z.mod_divide in Ha as [a Ha], Ha' as [b Hb']; [|done..]. unfold PAGE_SIZE in *. lia.
Qed.

Lemma slabs_NoDup start end_ w other : slabs_inv start end_ w other → NoDup (all_slabs (caches w)).
Proof.
  intros HI. destruct (sl_frames _ _ _ _ HI) as [_ Hnd]. apply NoDup_app in Hnd as (_ & _ & Hnd).
  apply NoDup_app in Hnd as (Hnd & _ & _). by eapply NoDup_fmap_1.
Qed.

Lemma objects_NoDup start end_ w other : slabs_inv start end_ w other → NoDup (objects (caches w)).
Proof.
  intros HI. unfold objects. apply NoDup_bind; [| |by eapply slabs_NoDup].
  - intros [k s] [k' s'] [kz z] Hs Hs' Hz Hz'.
    destruct (all_slabs_ok _ _ _ _ _ _ HI Hs) as [Hok Hso], (all_slabs_ok _ _ _ _ _ _ HI Hs') as [Hok' Hso'].
    destruct (all_slabs_page _ _ _ _ _ _ HI Hs) as (_ & Ha & _), (all_slabs_page _ _ _ _ _ _ HI Hs') as (_ & Ha' & _).
    apply list_elem_of_fmap in Hz as (? & [= -> <-] & Hz), Hz' as (? & [= _ <-] & Hz'). simpl in *.
    apply (all_slabs_inj _ _ _ _ _ _ HI Hs Hs'). simpl. apply live_in_page in Hz, Hz'; [|done..].
    destruct Hok, Hok'. apply (same_page _ _ z); try done; lia.
  - intros [k s] Hs. destruct (all_slabs_ok _ _ _ _ _ _ HI Hs) as [Hok Hso].
    apply NoDup_fmap_2; [by intros ? ? [= ]|]. simpl.
    pose proof (live_NoDup k [s] Hok) as Hnd. unfold live in Hnd. simpl in Hnd. rewrite app_nil_r in Hnd.
    destruct (all_slabs_page _ _ _ _ _ _ HI Hs) as (_ & Ha & _).
    apply Hnd; [by constructor..|apply NoDup_singleton].
Qed.

(** C32. Across all the size classes, and with other clients taking frames
    directly from a region that does not start at address zero, the objects that
    are handed out are distinct and never overlap, lie inside one page that starts
    in the region, and never lie in a frame somebody else
    holds; a request of 65 to 2048 bytes returns, and so does freeing an object
    that is held. *)
Theorem slab_objects_exclusive start end_ w held other :
  frames_region start end_ → 0 < start → slab_reach start end_ w held other →
  NoDup held ∧ (∀ x y, x ∈ held → y ∈ held → x ≠ y → apart x y) ∧
  (∀ k p, (k, p) ∈ held →
    ∃ b, start ≤ b < end_ ∧ b mod PAGE_SIZE = 0 ∧ b ≤ p ∧ p + k ≤ b + PAGE_SIZE ∧ b ∉ other) ∧
  (∀ size, 64 < size ≤ 2048 → ∃ r w', slab_alloc (E:=unit) size w = (Ok r, w') ∧
    (r = None → exhausted (frames_of w) = true)) ∧
  (∀ k p size, (k, p) ∈ held → get_size_class size = Some k → ∃ w', slab_free (E:=unit) p size w = (Ok tt, w')).
Proof.
  intros Hreg Hpos Hr. destruct (slab_reach_inv _ _ _ _ _ Hreg Hpos Hr) as [HI Hp]. split_and!.
  - rewrite Hp. by eapply objects_NoDup.
  - intros x y. rewrite Hp. by eapply objects_apart.
  - intros k p. rewrite Hp. intros Hin. destruct (objects_elem _ _ _ _ _ _ HI Hin) as (s & i & Hok & Hs & Hso & Hi & ->).
    destruct (all_slabs_page _ _ _ _ _ _ HI Hs) as (? & ? & ?). exists (base s).
    destruct (live_in_page k s (base s + i * k) Hok Hso) as [? ?]; [by apply list_elem_of_fmap; exists i|].
    unfold PAGE_SIZE in *. split_and!; done || lia.
  - intros size Hsz. destruct (get_size_class_large size Hsz) as (k & Hk & Hok).
    destruct (returns_eq _ _ _ (global_alloc_spec (E:=unit) start end_ Hreg _ _ _ _ HI Hk Hok)) as (r & s2 & Heq & Hs2).
    exists r, s2. split; [done|]. intros ->. by destruct Hs2.
  - intros k p size. rewrite Hp. intros Hin Hk. destruct (objects_elem _ _ _ _ _ _ HI Hin) as (s & i & Hok & _).
    destruct (returns_eq _ _ _ (global_free_spec (E:=unit) start end_ Hpos _ _ _ _ _ HI Hk Hok Hin)) as ([] & s2 & Heq & _).
    by exists s2.
Qed.

Definition demo_slabs : Slabs := init (mkSlabs ∅ (init_frame_allocator (E:=unit) 8192 65536 frames_new).2 stats_new).
Definition demo_slabs1 : Slabs := (slab_alloc (E:=unit) 100 demo_slabs).2.
Definition demo_slabs2 : Slabs := (slab_alloc (E:=unit) 2000 demo_slabs1).2.

Lemma demo_slab_reach : slab_reach 8192 65536 demo_slabs2 [(2048, 12288); (128, 8192)] [].
Proof.
  eapply (sr_alloc _ _ demo_slabs1 _ _ 2000); [|done|by vm_compute].
  eapply (sr_alloc _ _ demo_slabs _ _ 100); [|done|by vm_compute]. by apply sr_start.
Qed.

Lemma slab_objects_exclusive_witness :
  apart (2048, 12288) (128, 8192) ∧ ∃ w', slab_free (E:=unit) 8192 100 demo_slabs2 = (Ok tt, w').
Proof.
  destruct (slab_objects_exclusive 8192 65536 demo_slabs2 [(2048, 12288); (128, 8192)] []) as (_ & Ha & _ & _ & Hf).
  - unfold frames_region. split_and!; done.
  - done.
  - apply demo_slab_reach.
  - split; [apply Ha; [by left|by right; left|done]|].
    apply (Hf 128); [by right; left|done].
Defined.

(** No object of 64 bytes or less can ever be allocated: while a frame is
    available the request panics, because [1u64 << 64] overflows in [Slab::new]. *)
Theorem slab_small_classes_panic start end_ w held other size :
  frames_region start end_ → 0 < start → slab_reach start end_ w held other →
  size ≤ 64 → exhausted (frames_of w) = false →
  ∃ w', slab_alloc (E:=unit) size w = (Panic, w').
Proof.
  intros Hreg Hpos Hr Hsz Hne. destruct (slab_reach_inv _ _ _ _ _ Hreg Hpos Hr) as [HI _].
  destruct (get_size_class_small size Hsz) as (k & Hk & Hno).
  destruct (small_alloc _ _ _ _ _ _ Hreg HI Hk Hno) as [[? _]|?]; [congruence|done].
Qed.

Lemma slab_small_classes_panic_witness : ∃ w', slab_alloc (E:=unit) 24 demo_slabs = (Panic, w').
Proof.
  apply (slab_small_classes_panic 8192 65536 demo_slabs [] [] 24).
  - unfold frames_region. split_and!; done.
  - done.
  - by apply sr_start.
  - done.
  - by vm_compute.
Defined.

End Global.
