(* ===== verification/Mqueue.v ===== *)
(** * Message queues

    [src/kernel/src/ipc/mqueue.rs]: named queues of messages with 32 priority
    levels.  A queue is shared through [Arc<Mutex<MessageQueue>>]: the queues
    live in a heap, the manager and the processes that called [get] hold
    indices into it.  The manager is shown to refine a table of priority
    queues, each a list of messages in order of arrival. *)

From stdpp Require Import gmap strings.
From S2P Require Import Prelude.

(** ** The code *)

Definition MAX_PRIORITY : Z := 31.
Definition DEFAULT_MAX_MESSAGES : Z := 64.
Definition DEFAULT_MAX_MSG_SIZE : Z := 8192.

Record MqAttr : Type := mkMqAttr {
  max_messages : Z;
  max_msg_size : Z;
  cur_messages : Z;
  mq_flags : Z;
}.
Definition attr_default : MqAttr := mkMqAttr DEFAULT_MAX_MESSAGES DEFAULT_MAX_MSG_SIZE 0 0.

Record QueueMessage : Type := mkQueueMessage {
  priority : Z;
  data : list Z;
  sender_pid : Z;
  timestamp : Z;
}.
Definition message_new (priority : Z) (data : list Z) (sender_pid : Z) : QueueMessage :=
  mkQueueMessage priority data sender_pid 0.

Inductive MqState : Type := Open | Closing | Closed.
#[export] Instance MqState_eq : EqDecision MqState.
Proof. solve_decision. Defined.

Inductive MqError : Type :=
| NotFound | QueueFull | QueueEmpty | QueueClosed | MessageTooLarge | AlreadyExists | PermissionDenied
| InvalidArgument | LimitReached.

Record MessageQueue : Type := mkMessageQueue {
  mq_id : Z;
  mq_name : string;
  attr : MqAttr;
  state : MqState;
  priority_queues : list (list QueueMessage);
  message_count : Z;
  creator : Z;
  send_waiters : list Z;
  recv_waiters : list Z;
}.

Definition set_messages (qs : list (list QueueMessage)) (n : Z) (q : MessageQueue) : MessageQueue :=
  mkMessageQueue (mq_id q) (mq_name q) (attr q) (state q) qs n (creator q) (send_waiters q) (recv_waiters q).
Definition set_state (st : MqState) (q : MessageQueue) : MessageQueue :=
  mkMessageQueue (mq_id q) (mq_name q) (attr q) st (priority_queues q) (message_count q) (creator q)
    (send_waiters q) (recv_waiters q).
Definition set_waiters (ss rs : list Z) (q : MessageQueue) : MessageQueue :=
  mkMessageQueue (mq_id q) (mq_name q) (attr q) (state q) (priority_queues q) (message_count q) (creator q) ss rs.

(** One queue. *)
Module Queue.

Abbreviation QueueM := (M MessageQueue MqError).

Definition new (id : Z) (name : string) (creator : Z) (attr : MqAttr) : MessageQueue :=
  mkMessageQueue id name attr Open (replicate 32 []) 0 creator [] [].

(** The accessor [attr()] fills in the current count. *)
Definition attributes (q : MessageQueue) : MqAttr :=
  mkMqAttr (max_messages (attr q)) (max_msg_size (attr q)) (message_count q) (mq_flags (attr q)).
Definition is_full (q : MessageQueue) : bool := max_messages (attr q) <=? message_count q.
Definition is_empty (q : MessageQueue) : bool := message_count q =? 0.

Definition send (msg : QueueMessage) : QueueM unit :=
  q ← get;
  if negb (bool_decide (state q = Open)) then throw QueueClosed
  else if max_msg_size (attr q) <? len (data msg) then throw MessageTooLarge
  else if is_full q then throw QueueFull
  else
    let priority := Z.min (priority msg) MAX_PRIORITY in
    level ← unwrap (vget (priority_queues q) priority);
    n ← add_or_panic 64 (message_count q) 1;
    modify (set_messages (vset (priority_queues q) priority (level ++ [msg])) n).

(** The loop over [(0..=MAX_PRIORITY).rev()]: [n] levels are left. *)
Fixpoint receive_go (n : nat) : QueueM QueueMessage :=
  match n with
  | O => throw QueueEmpty
  | S n =>
      let priority := Z.of_nat n in
      q ← get;
      level ← unwrap (vget (priority_queues q) priority);
      match level with
      | msg :: rest =>
          c ← sub_or_panic (message_count q) 1;
          modify (set_messages (vset (priority_queues q) priority rest) c);;
          mret msg
      | [] => receive_go n
      end
  end.
Definition receive : QueueM QueueMessage :=
  q ← get;
  if negb (bool_decide (state q = Open)) then throw QueueClosed
  else if is_empty q then throw QueueEmpty
  else receive_go 32.

Fixpoint peek_go (n : nat) (q : MessageQueue) : outcome MqError (option QueueMessage) :=
  match n with
  | O => Ok None
  | S n =>
      level ← ok_or_panic (vget (priority_queues q) (Z.of_nat n));
      match level with
      | msg :: _ => mret (Some msg)
      | [] => peek_go n q
      end
  end.
Definition peek : QueueM (option QueueMessage) := q ← get; lift (peek_go 32 q).

Definition add_send_waiter (pid : Z) (q : MessageQueue) : MessageQueue :=
  set_waiters (send_waiters q ++ [pid]) (recv_waiters q) q.
Definition add_recv_waiter (pid : Z) (q : MessageQueue) : MessageQueue :=
  set_waiters (send_waiters q) (recv_waiters q ++ [pid]) q.
Definition remove_send_waiter (pid : Z) (q : MessageQueue) : MessageQueue :=
  set_waiters (filter (λ p, p ≠ pid) (send_waiters q)) (recv_waiters q) q.
Definition remove_recv_waiter (pid : Z) (q : MessageQueue) : MessageQueue :=
  set_waiters (send_waiters q) (filter (λ p, p ≠ pid) (recv_waiters q)) q.

Definition close (q : MessageQueue) : MessageQueue := set_state Closed q.

End Queue.

(** The manager: [queues] maps an id to an index of the heap. *)
Record MessageQueueManager : Type := mkMessageQueueManager {
  named_queues : gmap string Z;
  queues : gmap Z Z;
  next_id : Z;
  max_queues : Z;
}.
Definition manager_new : MessageQueueManager := mkMessageQueueManager ∅ ∅ 1 1024.

(** [MQ_MANAGER] and the heap. *)
Record Mq : Type := mkMq {
  MQ_MANAGER : option MessageQueueManager;
  heap : list MessageQueue;
}.
Definition set_manager (m : MessageQueueManager) (s : Mq) : Mq := mkMq (Some m) (heap s).
Definition set_heap (h : list MessageQueue) (s : Mq) : Mq := mkMq (MQ_MANAGER s) h.

Abbreviation MqM := (M Mq MqError).

(** [queue.lock()] around an operation of the queue. *)
Definition locked {A} (h : Z) (m : M MessageQueue MqError A) : MqM A := λ s,
  match vget (heap s) h with
  | None => (Panic, s)
  | Some q => let '(r, q') := m q in (r, set_heap (vset (heap s) h q') s)
  end.

Module Manager.

Definition open (name : string) (creator : Z) (create exclusive : bool) (attr : option MqAttr)
    (mgr : MessageQueueManager) : MqM Z :=
  match named_queues mgr !! name with
  | Some id => if exclusive && create then throw AlreadyExists else mret id
  | None =>
      if negb create then throw NotFound
      else if max_queues mgr <=? Z.of_nat (size (queues mgr)) then throw LimitReached
      else
        let id := next_id mgr in
        h ← gets (λ s, len (heap s));
        modify (λ s, set_heap (heap s ++ [Queue.new id name creator (default attr_default attr)]) s);;
        modify (set_manager (mkMessageQueueManager (<[name := id]> (named_queues mgr))
          (<[id := h]> (queues mgr)) (as_u64 (id + 1)) (max_queues mgr)));;
        mret id
  end.

Definition get (id : Z) (mgr : MessageQueueManager) : option Z := queues mgr !! id.
Definition get_by_name (name : string) (mgr : MessageQueueManager) : option Z :=
  id ← named_queues mgr !! name;
  queues mgr !! id.

Definition close (name : string) (pid : Z) (mgr : MessageQueueManager) : MqM unit :=
  id ← ok_or (named_queues mgr !! name) NotFound;
  h ← ok_or (queues mgr !! id) NotFound;
  locked h (q ← Prelude.get; if negb (creator q =? pid) then throw PermissionDenied else modify Queue.close);;
  modify (set_manager (mkMessageQueueManager (delete name (named_queues mgr)) (delete id (queues mgr))
    (next_id mgr) (max_queues mgr))).

Definition send (id : Z) (msg : QueueMessage) (mgr : MessageQueueManager) : MqM unit :=
  h ← ok_or (queues mgr !! id) NotFound;
  locked h (Queue.send msg).

Definition receive (id : Z) (mgr : MessageQueueManager) : MqM QueueMessage :=
  h ← ok_or (queues mgr !! id) NotFound;
  locked h Queue.receive.

End Manager.

(** *** The functions of the module *)

Definition with_manager {A} (f : MessageQueueManager → MqM A) : MqM A :=
  m ← gets MQ_MANAGER;
  mgr ← ok_or m NotFound;
  f mgr.

Definition init (s : Mq) : Mq := set_manager manager_new s.
Definition open (name : string) (creator : Z) (create exclusive : bool) (attr : option MqAttr) : MqM Z :=
  with_manager (Manager.open name creator create exclusive attr).
Definition send (id : Z) (msg : QueueMessage) : MqM unit := with_manager (Manager.send id msg).
Definition receive (id : Z) : MqM QueueMessage := with_manager (Manager.receive id).
Definition close (name : string) (pid : Z) : MqM unit := with_manager (Manager.close name pid).

(** ** The contract of a queue

    Messages in order of arrival; the one received is the first of the highest
    level. *)

Definition level (m : QueueMessage) : Z := Z.min (priority m) MAX_PRIORITY.

Module Spec.

Record PQueue : Type := mkPQueue {
  p_attr : MqAttr;
  p_open : bool;
  p_msgs : list QueueMessage;
}.
Definition with_msgs (l : list QueueMessage) (a : PQueue) : PQueue := mkPQueue (p_attr a) (p_open a) l.

Definition top (l : list QueueMessage) : Z := foldr (λ m n, Z.max (level m) n) 0 l.
(** The first message of level [p], and the others. *)
Fixpoint take (p : Z) (l : list QueueMessage) : option (QueueMessage * list QueueMessage) :=
  match l with
  | [] => None
  | m :: l =>
      if level m =? p then Some (m, l)
      else '(x, l') ← take p l; Some (x, m :: l')
  end.

Definition send (msg : QueueMessage) : M PQueue MqError unit :=
  a ← get;
  if negb (p_open a) then throw QueueClosed
  else if max_msg_size (p_attr a) <? len (data msg) then throw MessageTooLarge
  else if max_messages (p_attr a) <=? len (p_msgs a) then throw QueueFull
  else modify (with_msgs (p_msgs a ++ [msg])).

Definition receive : M PQueue MqError QueueMessage :=
  a ← get;
  if negb (p_open a) then throw QueueClosed
  else match take (top (p_msgs a)) (p_msgs a) with
       | None => throw QueueEmpty
       | Some (m, l) => modify (with_msgs l);; mret m
       end.

Definition peek : M PQueue MqError (option QueueMessage) :=
  gets (λ a, fst <$> take (top (p_msgs a)) (p_msgs a)).

Definition close (a : PQueue) : PQueue := mkPQueue (p_attr a) false (p_msgs a).

End Spec.
Import Spec (PQueue, mkPQueue, p_attr, p_open, p_msgs, with_msgs, top, take).

Definition message_ok (m : QueueMessage) : Prop := in_u 8 (priority m).
Definition attr_ok (a : MqAttr) : Prop := in_u 64 (max_messages a).
Definition at_level (p : Z) (l : list QueueMessage) : list QueueMessage := filter (λ m, level m = p) l.

Record represents (q : MessageQueue) (a : PQueue) : Prop := {
  rp_attr : attr q = p_attr a;
  rp_attr_ok : attr_ok (attr q);
  rp_state : state q = if p_open a then Open else Closed;
  rp_levels : ∀ p, 0 ≤ p < 32 → vget (priority_queues q) p = Some (at_level p (p_msgs a));
  rp_length : len (priority_queues q) = 32;
  rp_count : message_count q = len (p_msgs a);
  rp_msgs : Forall message_ok (p_msgs a);
}.

(** *** Taking the first message of the highest level *)

Lemma level_range m : message_ok m → 0 ≤ level m < 32.
Proof. unfold message_ok, in_u, level, MAX_PRIORITY. lia. Qed.

Lemma at_level_cons p m l :
  at_level p (m :: l) = if bool_decide (level m = p) then m :: at_level p l else at_level p l.
Proof. unfold at_level. rewrite filter_cons. by case_bool_decide; case_decide. Qed.

Lemma at_level_app p l k : at_level p (l ++ k) = at_level p l ++ at_level p k.
Proof. apply filter_app. Qed.

(** [take] finds the head of the level and changes only that level. *)
Lemma take_spec p l :
  match at_level p l with
  | [] => take p l = None
  | m :: rest => ∃ l', take p l = Some (m, l') ∧ at_level p l' = rest ∧ len l = len l' + 1 ∧ l ≡ₚ m :: l' ∧
      ∀ p', p' ≠ p → at_level p' l' = at_level p' l
  end.
Proof.
  induction l as [|x l IH]; [done|]. rewrite at_level_cons. simpl. case_bool_decide as Hx.
  - rewrite (proj2 (Z.eqb_eq _ _) Hx). exists l. split_and!; try done; [by rewrite len_cons|].
    intros p' Hp. rewrite at_level_cons, bool_decide_false; [done|congruence].
  - rewrite (proj2 (Z.eqb_neq _ _) Hx). destruct (at_level p l) as [|m rest]; [by rewrite IH|].
    destruct IH as (l' & -> & Hr & Hl & Hp & Ho). exists (x :: l'). split_and!; try done.
    + by rewrite at_level_cons, bool_decide_false.
    + rewrite !len_cons. lia.
    + rewrite Hp. apply Permutation_swap.
    + intros p' Hp'. rewrite !at_level_cons. by rewrite Ho.
Qed.

Lemma top_unique p l :
  0 ≤ p → at_level p l ≠ [] → (∀ p', p < p' < 32 → at_level p' l = []) → Forall message_ok l → top l = p.
Proof.
  intros H0 Hne Hab Hok.
  assert (∀ m, m ∈ l → level m ≤ p) as Hle.
  { intros m Hm. destruct (Z_le_gt_dec (level m) p) as [|Hgt]; [done|]. rewrite Forall_forall in Hok.
    pose proof (level_range m (Hok m Hm)). assert (m ∈ at_level (level m) l) as Hin by by apply list_elem_of_filter.
    rewrite Hab in Hin by lia. by apply not_elem_of_nil in Hin. }
  assert (∃ m, m ∈ l ∧ level m = p) as (m & Hm & Hp).
  { destruct (at_level p l) as [|m k] eqn:Heq; [done|]. exists m.
    assert (m ∈ at_level p l) as Hin by (rewrite Heq; by left). apply list_elem_of_filter in Hin. tauto. }
  clear Hne Hab Hok. unfold top. induction l as [|x l IH]; [by apply not_elem_of_nil in Hm|]. simpl.
  pose proof (Hle x ltac:(by left)). apply elem_of_cons in Hm as [->|Hm].
  - assert (foldr (λ m n, Z.max (level m) n) 0 l ≤ p); [|lia]. clear IH. induction l as [|y l IH]; simpl; [lia|].
    pose proof (Hle y ltac:(by right; left)). assert (∀ m, m ∈ x :: l → level m ≤ p) as Hle'; [|specialize (IH Hle'); lia].
    intros z [->|Hz]%elem_of_cons; apply Hle; [by left|by right; right].
  - rewrite IH; [lia| |done]. intros y Hy. apply Hle. by right.
Qed.

(** *** The operations *)

(** Related states give the same result and related states. *)
Definition refines {S T A} (R : S → T → Prop) (m : M S MqError A) (m' : M T MqError A) : Prop :=
  ∀ s t, R s t → (m s).1 = (m' t).1 ∧ R (m s).2 (m' t).2.

Lemma new_represents id name c at_ : attr_ok at_ → represents (Queue.new id name c at_) (mkPQueue at_ true []).
Proof.
  intros Hok. split; try done. intros p Hp. unfold vget, Queue.new. cbn [priority_queues].
  destruct (Z.ltb_spec p 0); [lia|]. change (len (replicate 32 [])) with 32.
  destruct (Z.ltb_spec p 32); [|lia]. rewrite lookup_replicate_2 by lia. done.
Qed.

Lemma send_refines msg : message_ok msg → refines represents (Queue.send msg) (Spec.send msg).
Proof.
  intros Hmsg q a HR. pose proof HR as [Ha Hao Hs Hl Hlen Hc Hm]. unfold Queue.send, Spec.send, mbind, M_bind, get. simpl.
  rewrite Hs, Ha. destruct (p_open a) eqn:Ho; [|done]. simpl.
  destruct (Z.ltb_spec (max_msg_size (p_attr a)) (len (data msg))); [done|].
  unfold Queue.is_full. rewrite Hc, Ha. destruct (Z.leb_spec (max_messages (p_attr a)) (len (p_msgs a))) as [|Hlt]; [done|].
  pose proof (level_range msg Hmsg) as Hr. fold (level msg). rewrite Hl by done. simpl.
  unfold add_or_panic, checked_add. unfold attr_ok, in_u in Hao. rewrite Ha in Hao.
  destruct (Z.ltb_spec (len (p_msgs a) + 1) (2 ^ 64)); [|lia]. simpl. split; [done|].
  split; simpl; try done; [by rewrite Ha|by rewrite Ho| | | |].
  - intros p Hp. rewrite vget_vset by lia. rewrite at_level_app, at_level_cons. change (at_level p []) with (@nil QueueMessage).
    destruct (Z.eqb_spec p (level msg)) as [->|Hne].
    + rewrite bool_decide_true by done. done.
    + rewrite bool_decide_false by congruence. by rewrite app_nil_r, Hl.
  - by rewrite len_vset.
  - by rewrite len_snoc.
  - apply Forall_app. split; [done|]. by constructor.
Qed.

(** The scan from the top finds the level that [top] names. *)
Lemma receive_go_spec n q a :
  represents q a → (n ≤ 32)%nat → (∀ p, Z.of_nat n ≤ p < 32 → at_level p (p_msgs a) = []) → p_msgs a ≠ [] →
  ∃ m l q', Queue.receive_go n q = (Ok m, q') ∧ Queue.peek_go n q = Ok (Some m) ∧
    take (top (p_msgs a)) (p_msgs a) = Some (m, l) ∧ represents q' (with_msgs l a).
Proof.
  intros HR. pose proof HR as [Ha Hao Hs Hl Hlen Hc Hm]. induction n as [|n IH]; intros Hn Hab Hne.
  - destruct (p_msgs a) as [|m l]; [done|]. apply Forall_cons in Hm as [Hm _]. pose proof (level_range m Hm).
    pose proof (Hab (level m) ltac:(lia)) as Hnil. by rewrite at_level_cons, bool_decide_true in Hnil.
  - simpl. unfold mbind, M_bind, get, outcome_bind. simpl. rewrite Hl by lia. simpl.
    pose proof (take_spec (Z.of_nat n) (p_msgs a)) as Ht.
    destruct (at_level (Z.of_nat n) (p_msgs a)) as [|m rest] eqn:Hat.
    + apply IH; [lia| |done]. intros p Hp. destruct (decide (p = Z.of_nat n)) as [->|]; [done|]. apply Hab. lia.
    + destruct Ht as (l & Ht & Hrest & Hlen' & Hperm & Ho).
      assert (top (p_msgs a) = Z.of_nat n) as Htop.
      { apply top_unique; [lia|by rewrite Hat| |done]. intros p Hp. apply Hab. lia. }
      unfold sub_or_panic. pose proof (len_nonneg l). destruct (Z.ltb_spec (message_count q) 1); [lia|].
      eexists m, l, _. split_and!; [done|done|by rewrite Htop|].
      split; simpl; try done; [| |lia|rewrite Hperm in Hm; by apply Forall_cons in Hm as [_ ?]].
      * intros p Hp. rewrite vget_vset by lia. destruct (Z.eqb_spec p (Z.of_nat n)) as [->|Hnp]; [by rewrite Hrest|].
        by rewrite Hl, Ho.
      * by rewrite len_vset.
Qed.

Lemma receive_refines : refines represents Queue.receive Spec.receive.
Proof.
  intros q a HR. pose proof HR as [Ha Hao Hs Hl Hlen Hc Hm]. unfold Queue.receive, Spec.receive, mbind, M_bind, get.
  cbn beta iota. rewrite Hs. destruct (p_open a) eqn:Ho; [|done]. rewrite bool_decide_true by done. cbn [negb]. unfold Queue.is_empty. rewrite Hc.
  destruct (p_msgs a) as [|m l] eqn:Hms; [done|]. rewrite len_cons_eqb, <- Hms.
  destruct (receive_go_spec 32 q a HR) as (x & l' & q' & -> & _ & -> & HR'); [lia..|by rewrite Hms|]. done.
Qed.

Lemma peek_refines : refines represents Queue.peek Spec.peek.
Proof.
  intros q a HR. unfold Queue.peek, Spec.peek, mbind, M_bind, get, lift, gets. cbn [fst snd]. split; [|done].
  destruct (p_msgs a) as [|m l] eqn:Hms.
  - simpl. do 32 (simpl; rewrite (rp_levels q a HR) by lia; rewrite Hms; simpl). done.
  - destruct (receive_go_spec 32 q a HR) as (x & l' & q' & _ & -> & Ht & _); [lia..|by rewrite Hms|].
    rewrite <- Hms, Ht. done.
Qed.

Lemma close_represents q a : represents q a → represents (Queue.close q) (Spec.close a).
Proof. by intros []. Qed.

(** ** The contract of the subsystem

    A table of queues by id with their creators; the heap and the sharing are
    gone. *)

Module Table.

Record Table : Type := mkTable {
  t_names : gmap string Z;
  t_queues : gmap Z (Z * PQueue);
  t_next : Z;
}.
Definition empty : Table := mkTable ∅ ∅ 1.

Definition on_queue {A} (id : Z) (m : Z → M PQueue MqError A) : M Table MqError A := λ t,
  match t_queues t !! id with
  | None => (Err NotFound, t)
  | Some (c, a) => let '(r, a') := m c a in (r, mkTable (t_names t) (<[id := (c, a')]> (t_queues t)) (t_next t))
  end.

Definition open (name : string) (creator : Z) (create exclusive : bool) (attr : option MqAttr) : M Table MqError Z :=
  t ← get;
  match t_names t !! name with
  | Some id => if exclusive && create then throw AlreadyExists else mret id
  | None =>
      if negb create then throw NotFound
      else if 1024 <=? Z.of_nat (size (t_queues t)) then throw LimitReached
      else
        modify (λ t, mkTable (<[name := t_next t]> (t_names t))
          (<[t_next t := (creator, mkPQueue (default attr_default attr) true [])]> (t_queues t)) (as_u64 (t_next t + 1)));;
        mret (t_next t)
  end.
Definition send (id : Z) (msg : QueueMessage) : M Table MqError unit := on_queue id (λ _, Spec.send msg).
Definition receive (id : Z) : M Table MqError QueueMessage := on_queue id (λ _, Spec.receive).
Definition close (name : string) (pid : Z) : M Table MqError unit :=
  t ← get;
  id ← ok_or (t_names t !! name) NotFound;
  on_queue id (λ c, if negb (c =? pid) then throw PermissionDenied else modify Spec.close);;
  modify (λ t, mkTable (delete name (t_names t)) (delete id (t_queues t)) (t_next t)).

End Table.
Import Table (Table, mkTable, t_names, t_queues, t_next).

(** *** Calls of the module *)

Inductive mq_call : Type :=
| COpen (name : string) (creator : Z) (create exclusive : bool) (attr : option MqAttr)
| CSend (id : Z) (msg : QueueMessage)
| CReceive (id : Z)
| CClose (name : string) (pid : Z).
Inductive mq_answer : Type := AId (id : Z) | AMsg (m : QueueMessage) | ADone.

Definition mq_run (c : mq_call) : MqM mq_answer :=
  match c with
  | COpen name creator create exclusive attr => id ← open name creator create exclusive attr; mret (AId id)
  | CSend id msg => send id msg;; mret ADone
  | CReceive id => m ← receive id; mret (AMsg m)
  | CClose name pid => close name pid;; mret ADone
  end.
Definition table_run (c : mq_call) : M Table MqError mq_answer :=
  match c with
  | COpen name creator create exclusive attr => id ← Table.open name creator create exclusive attr; mret (AId id)
  | CSend id msg => Table.send id msg;; mret ADone
  | CReceive id => m ← Table.receive id; mret (AMsg m)
  | CClose name pid => Table.close name pid;; mret ADone
  end.

(** The answers, errors included, of a sequence of calls. *)
Fixpoint answers {S} (run : mq_call → M S MqError mq_answer) (cs : list mq_call) (s : S) : list (outcome MqError mq_answer) :=
  match cs with
  | [] => []
  | c :: cs => let '(r, s') := run c s in r :: answers run cs s'
  end.

Definition call_ok (c : mq_call) : Prop :=
  match c with
  | COpen _ _ _ _ (Some a) => attr_ok a
  | CSend _ msg => message_ok msg
  | _ => True
  end.

(** *** The simulation *)

(** What an id stands for. *)
Definition entry_rep (hp : list MessageQueue) (h : option Z) (e : option (Z * PQueue)) : Prop :=
  match h, e with
  | Some h, Some (c, a) => ∃ q, vget hp h = Some q ∧ creator q = c ∧ represents q a
  | None, None => True
  | _, _ => False
  end.

(** Different ids have different queues of the heap. *)
Definition table_rep (s : Mq) (t : Table) : Prop :=
  ∃ qs, MQ_MANAGER s = Some (mkMessageQueueManager (t_names t) qs (t_next t) 1024) ∧
    (∀ id, entry_rep (heap s) (qs !! id) (t_queues t !! id)) ∧
    (∀ id id' h, qs !! id = Some h → qs !! id' = Some h → id = id').

Lemma table_size hp (t : Table) (qs : gmap Z Z) :
  (∀ id, entry_rep hp (qs !! id) (t_queues t !! id)) → size qs = size (t_queues t).
Proof.
  intros H. rewrite <- !size_dom. f_equal. apply set_eq. intros id. rewrite !elem_of_dom.
  specialize (H id). unfold entry_rep in H. destruct (qs !! id), (t_queues t !! id) as [[c a]|]; done.
Qed.

Lemma bind_refines {S T A B} (R : S → T → Prop) (m : M S MqError A) m' (k : A → M S MqError B) k' :
  refines R m m' → (∀ a, refines R (k a) (k' a)) → refines R (m ≫= k) (m' ≫= k').
Proof.
  intros Hm Hk s t HR. destruct (Hm s t HR) as [Heq HR']. unfold mbind, M_bind.
  destruct (m s) as [r s'], (m' t) as [r' t']. simpl in *. subst r'. destruct r; [by apply Hk|done..].
Qed.

Lemma ret_refines {S T A} (R : S → T → Prop) (a : A) : refines R (mret a) (mret a).
Proof. by intros s t HR. Qed.

(** A queue with its creator. *)
Definition owned (c : Z) (q : MessageQueue) (a : PQueue) : Prop := creator q = c ∧ represents q a.

Lemma owned_refines {A} c (m : M MessageQueue MqError A) m' :
  refines represents m m' → (∀ q, creator (m q).2 = creator q) → refines (owned c) m m'.
Proof. intros Hm Hc q a [Hq HR]. destruct (Hm q a HR). split; [done|]. split; [by rewrite Hc|done]. Qed.

Lemma send_creator msg q : creator (Queue.send msg q).2 = creator q.
Proof.
  unfold Queue.send, mbind, M_bind, get. cbn beta iota. repeat (case_match; [done|]).
  destruct (vget (priority_queues q) _); [|done]. simpl. unfold add_or_panic. by destruct (checked_add _ _ _).
Qed.

Lemma receive_go_creator n q : creator (Queue.receive_go n q).2 = creator q.
Proof.
  induction n as [|n IH]; [done|]. simpl. unfold mbind, M_bind, get. simpl.
  destruct (vget (priority_queues q) (Z.of_nat n)) as [[|m l]|]; simpl; [done| |done].
  unfold sub_or_panic. by destruct (message_count q <? 1).
Qed.

Lemma receive_creator q : creator (Queue.receive q).2 = creator q.
Proof.
  unfold Queue.receive, mbind, M_bind, get. cbn beta iota. repeat (case_match; [done|]). apply receive_go_creator.
Qed.

(** An operation on the queue of an id. *)
Lemma on_queue_refines {A} id (m : M MessageQueue MqError A) m' :
  (∀ c, refines (owned c) m (m' c)) →
  refines table_rep (with_manager (λ mgr, h ← ok_or (queues mgr !! id) NotFound; locked h m)) (Table.on_queue id m').
Proof.
  intros Hm s t (qs & Hmgr & He & Hinj). unfold with_manager, mbind, M_bind, gets. rewrite Hmgr. simpl.
  pose proof (He id) as Hid. unfold entry_rep in Hid. unfold Table.on_queue.
  destruct (qs !! id) as [h|] eqn:Hq, (t_queues t !! id) as [[c a]|] eqn:Ht; try done; simpl.
  2: { split; [done|]. by exists qs. }
  destruct Hid as (q & Hh & Hc & HR). unfold locked. rewrite Hh.
  destruct (Hm c q a (conj Hc HR)) as [Heq [Hc' HR']]. destruct (m q) as [r q'], (m' c a) as [r' a']. simpl in *. subst r'.
  split; [done|]. exists qs. split_and!; [done| |done]. simpl. intros id'. pose proof (He id') as Hid'.
  unfold entry_rep in *. apply vget_Some in Hh as Hh'. destruct (decide (id' = id)) as [->|Hne].
  - rewrite Hq, lookup_insert_eq. exists q'. rewrite vget_vset by lia. by rewrite Z.eqb_refl.
  - rewrite lookup_insert_ne by done. destruct (qs !! id') as [h'|] eqn:Hq', (t_queues t !! id') as [[c2 a2]|]; try done.
    destruct Hid' as (q2 & Hh2 & ? & ?). exists q2. apply vget_Some in Hh2 as Hh2'. rewrite vget_vset by lia.
    destruct (Z.eqb_spec h' h) as [->|]; [by destruct Hne; eapply Hinj|done].
Qed.

Lemma open_refines name c create exclusive at_ :
  attr_ok (default attr_default at_) →
  refines table_rep (open name c create exclusive at_) (Table.open name c create exclusive at_).
Proof.
  intros Hok s t HR. pose proof HR as (qs & Hmgr & He & Hinj).
  unfold open, with_manager, Manager.open, Table.open, mbind, M_bind, gets, get. rewrite Hmgr. simpl.
  destruct (t_names t !! name) as [id|]; [by destruct (exclusive && create)|]. destruct create; [|done]. simpl.
  rewrite (table_size _ _ _ He). destruct (Z.leb_spec 1024 (Z.of_nat (size (t_queues t)))); [done|].
  split; [done|]. eexists. split; [done|]. simpl. assert (∀ id h, qs !! id = Some h → 0 ≤ h < len (heap s)) as Hlt.
  { intros id h Hq. pose proof (He id) as Hid. unfold entry_rep in Hid. rewrite Hq in Hid.
    destruct (t_queues t !! id) as [[? ?]|]; [|done]. destruct Hid as (q & Hh & _). by apply vget_Some in Hh as [? _]. }
  split.
  - intros id. pose proof (He id) as Hid. unfold entry_rep in *. destruct (decide (id = t_next t)) as [->|Hne].
    + rewrite !lookup_insert_eq. eexists. rewrite vget_snoc. split; [done|]. split; [done|]. by apply new_represents.
    + rewrite !lookup_insert_ne by done. destruct (qs !! id) as [h|] eqn:Hq; [|done].
      destruct (t_queues t !! id) as [[c2 a2]|]; [|done]. destruct Hid as (q & Hh & ? & ?). exists q.
      rewrite vget_app_l; [done|]. by apply (Hlt id).
  - intros id id' h. destruct (decide (id = t_next t)) as [->|], (decide (id' = t_next t)) as [->|]; try done.
    + rewrite lookup_insert_eq, lookup_insert_ne by done. intros [= <-] Hq%Hlt. lia.
    + rewrite lookup_insert_eq, lookup_insert_ne by done. intros Hq%Hlt [= <-]. lia.
    + rewrite !lookup_insert_ne by done. apply Hinj.
Qed.

(** Forgetting an id. *)
Lemma delete_rep hp (qs : gmap Z Z) (tq : gmap Z (Z * PQueue)) id h q' :
  (∀ id, entry_rep hp (qs !! id) (tq !! id)) → (∀ id id' h, qs !! id = Some h → qs !! id' = Some h → id = id') →
  qs !! id = Some h → 0 ≤ h < len hp →
  ∀ id', entry_rep (vset hp h q') (delete id qs !! id') (delete id tq !! id').
Proof.
  intros He Hinj Hq Hh id'. pose proof (He id') as Hid. unfold entry_rep in *. destruct (decide (id' = id)) as [->|Hne].
  - by rewrite !lookup_delete_eq.
  - rewrite !lookup_delete_ne by done. destruct (qs !! id') as [h'|] eqn:Hq', (tq !! id') as [[c a]|]; try done.
    destruct Hid as (q & Hv & ? & ?). exists q. apply vget_Some in Hv as Hv'. rewrite vget_vset by lia.
    destruct (Z.eqb_spec h' h) as [->|]; [by destruct Hne; eapply Hinj|done].
Qed.

Lemma close_refines name pid : refines table_rep (close name pid) (Table.close name pid).
Proof.
  intros s t HR. pose proof HR as (qs & Hmgr & He & Hinj).
  unfold close, with_manager, Manager.close, Table.close, Table.on_queue, mbind, M_bind, gets, get. rewrite Hmgr. simpl.
  destruct (t_names t !! name) as [id|]; [|done]. simpl. pose proof (He id) as Hid. unfold entry_rep in Hid.
  destruct (qs !! id) as [h|] eqn:Hq, (t_queues t !! id) as [[c a]|] eqn:Ht; try done; simpl.
  destruct Hid as (q & Hh & <- & HR'). unfold locked. rewrite Hh. pose proof (proj1 (vget_Some _ _ _) Hh) as [? _].
  destruct (Z.eqb_spec (creator q) pid); simpl; (split; [done|]).
  - eexists. split; [done|]. simpl. rewrite delete_insert_eq. split.
    + by apply delete_rep.
    + intros i j k [? ?]%lookup_delete_Some [? ?]%lookup_delete_Some. by eapply Hinj.
  - exists qs. split_and!; [done| |done]. simpl. rewrite insert_id by done. unfold vset.
    rewrite list_insert_id; [done|]. by apply vget_Some.
Qed.

Lemma run_refines c : call_ok c → refines table_rep (mq_run c) (table_run c).
Proof.
  intros Hc. destruct c as [name cr create exclusive at_|id msg|id|name pid]; simpl in *;
    (apply bind_refines; [|intros; apply ret_refines]).
  - apply open_refines. destruct at_; [done|]. by vm_compute.
  - apply (on_queue_refines id (Queue.send msg) (λ _, Spec.send msg)). intros c.
    apply owned_refines; [by apply send_refines|apply send_creator].
  - apply (on_queue_refines id Queue.receive (λ _, Spec.receive)). intros c.
    apply owned_refines; [apply receive_refines|apply receive_creator].
  - apply close_refines.
Qed.

Lemma init_rep s : table_rep (init s) Table.empty.
Proof. exists ∅. split_and!; [done|done|]. intros id id' h Hq. by rewrite lookup_empty in Hq. Qed.

(** C33. The message queue subsystem refines a table of priority queues: after
    [init], every sequence of calls by any processes gets, one by one, the
    answers (results and errors) of a table in which a queue is a list of
    messages in order of arrival, [receive] takes the first message of the
    highest level, and a closed queue is gone. *)
Theorem mqueue_refines cs s :
  Forall call_ok cs → answers mq_run cs (init s) = answers table_run cs Table.empty.
Proof.
  intros Hok. pose proof (init_rep s) as HR. revert HR. generalize (init s), Table.empty.
  induction Hok as [|c cs Hc _ IH]; intros m t HR; [done|]. simpl.
  destruct (run_refines c Hc m t HR) as [Heq HR']. destruct (mq_run c m) as [r m'], (table_run c t) as [r' t'].
  simpl in *. subst. f_equal. by apply IH.
Qed.

Definition demo_message (p : Z) : QueueMessage := message_new p [p] 7.

Lemma mqueue_refines_witness :
  answers mq_run [COpen "q" 7 true true None; CSend 1 (demo_message 3); CSend 1 (demo_message 200); CReceive 1;
                  CReceive 1; CReceive 1; CClose "q" 8; CClose "q" 7; CReceive 1] (init (mkMq None [])) =
  [Ok (AId 1); Ok ADone; Ok ADone; Ok (AMsg (demo_message 200)); Ok (AMsg (demo_message 3)); Err QueueEmpty;
   Err PermissionDenied; Ok ADone; Err NotFound].
Proof.
  rewrite (mqueue_refines _ (mkMq None [])); [by vm_compute|].
  repeat constructor; simpl; unfold message_ok, in_u; simpl; lia.
Defined.

(** The message that is received is the oldest of the highest priority. *)
Lemma take_top_first l m l' :
  take (top l) l = Some (m, l') →
  ∃ l1 l2, l = l1 ++ m :: l2 ∧ l' = l1 ++ l2 ∧ (∀ x, x ∈ l1 → level x < level m) ∧ (∀ x, x ∈ l2 → level x ≤ level m).
Proof.
  assert (∀ x k, x ∈ k → level x ≤ top k) as Htop.
  { intros x k. induction k as [|y k IH]; [by intros ?%not_elem_of_nil|]. intros [->|?%IH]%elem_of_cons; simpl; lia. }
  assert (∀ p k, (∀ x, x ∈ k → level x ≤ p) → take p k = Some (m, l') →
    ∃ l1 l2, k = l1 ++ m :: l2 ∧ l' = l1 ++ l2 ∧ (∀ x, x ∈ l1 → level x < level m) ∧ (∀ x, x ∈ l2 → level x ≤ level m)) as Hgo.
  2: { intros H. apply (Hgo (top l)); [|done]. intros x. apply Htop. }
  intros p k. revert l'. induction k as [|y k IH]; intros l' Hle; [done|]. simpl.
  destruct (Z.eqb_spec (level y) p) as [<-|Hne].
  - intros [= -> ->]. exists [], l'. split_and!; try done; [by intros ? ?%not_elem_of_nil|].
    intros x Hx. apply Hle. by right.
  - destruct (take p k) as [[z k']|] eqn:Ht; [|done]. intros [= -> <-].
    destruct (IH k') as (l1 & l2 & -> & -> & H1 & H2); [intros x Hx; apply Hle; by right|done|].
    assert (level m = p) as Hp.
    { clear -Ht. revert Ht. generalize (l1 ++ l2). induction (l1 ++ m :: l2) as [|a b IH]; intros c; [done|]. simpl.
      destruct (Z.eqb_spec (level a) p); [by intros [= -> _]|]. destruct (take p b) as [[? ?]|]; [|done].
      intros [= -> _]. by eapply IH. }
    exists (y :: l1), l2. split_and!; try done. intros x [->|Hx]%elem_of_cons; [|by apply H1].
    pose proof (Hle y ltac:(by left)). lia.
Qed.

(** ** Closing is final

    A process that got the queue before it was closed still holds it. *)

Inductive mq_use : Type :=
| UCall (c : mq_call)
| UHandleSend (h : Z) (msg : QueueMessage)
| UHandleReceive (h : Z)
| UHandleClose (h : Z).

Definition mq_use_run (u : mq_use) (s : Mq) : Mq :=
  match u with
  | UCall c => (mq_run c s).2
  | UHandleSend h msg => (locked h (Queue.send msg) s).2
  | UHandleReceive h => (locked h Queue.receive s).2
  | UHandleClose h => (locked h (modify Queue.close) s).2
  end.

Definition closed_at (h : Z) (s : Mq) : Prop := ∃ q, vget (heap s) h = Some q ∧ state q = Closed.
(** A computation that keeps it closed. *)
Definition stays_closed {A} (h : Z) (m : MqM A) : Prop := ∀ s, closed_at h s → closed_at h (m s).2.

Lemma closed_bind {A B} h (m : MqM A) (k : A → MqM B) : stays_closed h m → (∀ a, stays_closed h (k a)) → stays_closed h (m ≫= k).
Proof.
  intros Hm Hk s Hs. specialize (Hm s Hs). unfold mbind, M_bind. destruct (m s) as [[a|e|] s']; [by apply Hk|done..].
Qed.

Lemma closed_same {A} h (m : MqM A) : (∀ s, heap (m s).2 = heap s) → stays_closed h m.
Proof. intros Hm s (q & ? & ?). exists q. by rewrite Hm. Qed.

Lemma closed_locked {A} h h' (m : M MessageQueue MqError A) :
  (∀ q, state q = Closed → state (m q).2 = Closed) → stays_closed h (locked h' m).
Proof.
  intros Hm s (q & Hq & Hs). unfold locked. destruct (vget (heap s) h') as [q'|] eqn:Hh; [|by exists q].
  destruct (m q') as [r q2] eqn:Heq. unfold closed_at. simpl. apply vget_Some in Hq as Hq', Hh as Hh'.
  rewrite vget_vset by lia. destruct (Z.eqb_spec h h') as [->|]; [|by exists q]. exists q2. split; [done|].
  assert (q' = q) as -> by congruence. specialize (Hm q Hs). by rewrite Heq in Hm.
Qed.

Lemma closed_send msg q : state q = Closed → Queue.send msg q = (Err QueueClosed, q).
Proof. intros Hs. unfold Queue.send, mbind, M_bind, get. by rewrite Hs. Qed.

Lemma closed_receive q : state q = Closed → Queue.receive q = (Err QueueClosed, q).
Proof. intros Hs. unfold Queue.receive, mbind, M_bind, get. by rewrite Hs. Qed.

Lemma closed_open h name c create exclusive at_ mgr : stays_closed h (Manager.open name c create exclusive at_ mgr).
Proof.
  unfold Manager.open. destruct (named_queues mgr !! name) as [id|]; [by destruct (exclusive && create); apply closed_same|].
  destruct create; [|by apply closed_same]. simpl. destruct (_ <=? _); [by apply closed_same|].
  apply closed_bind; [by apply closed_same|]. intros k. apply closed_bind; [|intros []; by apply closed_same].
  intros s (q & Hq & Hs). exists q. simpl. split; [|done]. rewrite vget_app_l; [done|]. apply vget_Some in Hq as [? _]. lia.
Qed.

Lemma closed_close h name pid mgr : stays_closed h (Manager.close name pid mgr).
Proof.
  unfold Manager.close. apply closed_bind; [by destruct (named_queues mgr !! name); apply closed_same|]. intros id.
  apply closed_bind; [by destruct (queues mgr !! id); apply closed_same|]. intros k.
  apply closed_bind; [|intros []; by apply closed_same]. apply closed_locked. intros q Hq. unfold mbind, M_bind, get. simpl.
  by destruct (negb (creator q =? pid)).
Qed.

Lemma closed_run h c : stays_closed h (mq_run c).
Proof.
  destruct c as [name cr create exclusive at_|id msg|id|name pid]; simpl; (apply closed_bind; [|intros; by apply closed_same]);
    (apply closed_bind; [by apply closed_same|]); intros m; (apply closed_bind; [by destruct m; apply closed_same|]); intros mgr.
  - apply closed_open.
  - apply closed_bind; [by destruct (queues mgr !! id); apply closed_same|]. intros k. apply closed_locked.
    intros q Hq. by rewrite closed_send.
  - apply closed_bind; [by destruct (queues mgr !! id); apply closed_same|]. intros k. apply closed_locked.
    intros q Hq. by rewrite closed_receive.
  - apply closed_close.
Qed.

Lemma closed_use h u s : closed_at h s → closed_at h (mq_use_run u s).
Proof.
  destruct u as [c|k msg|k|k]; simpl; [apply closed_run|apply closed_locked|apply closed_locked|apply closed_locked];
    intros q Hq; [by rewrite closed_send|by rewrite closed_receive|done].
Qed.

(** Once the creator closed a queue, it is closed for everybody who still
    holds it: whatever calls follow, by id, by name or through handles, sending
    and receiving through the handle fail with [QueueClosed] and change
    nothing. *)
Theorem mqueue_close_final name pid s s' mgr id h us msg :
  MQ_MANAGER s = Some mgr → named_queues mgr !! name = Some id → queues mgr !! id = Some h →
  close name pid s = (Ok tt, s') →
  let s2 := foldl (λ s u, mq_use_run u s) s' us in
  locked h (Queue.send msg) s2 = (Err QueueClosed, s2) ∧ locked h Queue.receive s2 = (Err QueueClosed, s2).
Proof.
  intros Hmgr Hn Hq Hclose s2.
  assert (closed_at h s') as Hs'.
  { unfold close, with_manager, Manager.close, mbind, M_bind, gets, get in Hclose. rewrite Hmgr in Hclose. simpl in Hclose.
    rewrite Hn in Hclose. simpl in Hclose. rewrite Hq in Hclose. simpl in Hclose. unfold locked in Hclose.
    destruct (vget (heap s) h) as [q|] eqn:Hv; [|done]. apply vget_Some in Hv as [Hr _].
    destruct (negb (creator q =? pid)); simpl in Hclose; [done|]. injection Hclose as <-.
    exists (Queue.close q). simpl. rewrite vget_vset by lia. by rewrite Z.eqb_refl. }
  assert (closed_at h s2) as (q & Hv & Hst).
  { subst s2. clear Hclose. revert s' Hs'. induction us as [|u us IH]; intros s' Hs'; [done|]. simpl. by apply IH, closed_use. }
  unfold locked. rewrite Hv. rewrite closed_send, closed_receive by done.
  assert (vset (heap s2) h q = heap s2) as Hid by (unfold vset; apply list_insert_id; by apply vget_Some).
  rewrite Hid. by destruct s2.
Qed.

Definition demo_mq : Mq := (open "q" 7 true true None (init (mkMq None []))).2.

Lemma mqueue_close_final_witness :
  (locked 0 (Queue.send (demo_message 1)) (mq_use_run (UCall (COpen "q" 9 true true None)) (close "q" 7 demo_mq).2)).1
    = Err QueueClosed.
Proof.
  destruct (mqueue_close_final "q" 7 demo_mq (close "q" 7 demo_mq).2 (default manager_new (MQ_MANAGER demo_mq)) 1 0
    [UCall (COpen "q" 9 true true None)] (demo_message 1)) as [Hs _]; [by vm_compute..|].
  cbn [foldl] in Hs. by rewrite Hs.
Defined.
