(* ===== verification/Shm.v ===== *)
(** * Shared memory regions

    [src/kernel/src/ipc/shm.rs]: regions that processes map, shared through
    [Arc<Mutex<SharedMemoryRegion>>]; the regions live in a heap and the manager
    holds indices into it.  The accounting of the manager is shown to be exact
    and its limits kept, and what [destroy] does to a region that is or was
    mapped is proved as it is. *)

From stdpp Require Import gmap strings.
From S2P Require Import Prelude.

(** ** The code *)

Inductive ShmState : Type := Allocated | Mapped | Destroying.

Record ShmMapping : Type := mkShmMapping {
  map_pid : Z;
  vaddr : Z;
  map_rights : Z;
}.

Inductive ShmError : Type :=
| NotFound | OutOfMemory | InvalidSize | PermissionDenied | AlreadyMapped | NotMapped | InvalidAddress | LimitReached.

Record SharedMemoryRegion : Type := mkSharedMemoryRegion {
  shm_id : Z;
  shm_name : string;
  shm_size : Z;
  shm_frames : list Z;
  shm_state : ShmState;
  shm_flags : Z;
  shm_creator : Z;
  ref_count : Z;
  mappings : list ShmMapping;
  shm_capability : option Z;
}.

Definition set_refs (n : Z) (r : SharedMemoryRegion) : SharedMemoryRegion :=
  mkSharedMemoryRegion (shm_id r) (shm_name r) (shm_size r) (shm_frames r) (shm_state r) (shm_flags r)
    (shm_creator r) n (mappings r) (shm_capability r).
Definition set_mappings (l : list ShmMapping) (st : ShmState) (r : SharedMemoryRegion) : SharedMemoryRegion :=
  mkSharedMemoryRegion (shm_id r) (shm_name r) (shm_size r) (shm_frames r) st (shm_flags r)
    (shm_creator r) (ref_count r) l (shm_capability r).

(** One region. *)
Module Region.

Abbreviation RegionM := (M SharedMemoryRegion ShmError).

(** The number of pages only sizes the vector of frames. *)
Definition new (id : Z) (name : string) (size creator flags : Z) : outcome ShmError SharedMemoryRegion :=
  _ ← ok_or_panic (checked_add 64 size 4096);
  mret (mkSharedMemoryRegion id name size [] Allocated flags creator 1 [] None).

Definition page_count (r : SharedMemoryRegion) : outcome ShmError Z :=
  n ← ok_or_panic (checked_add 64 (shm_size r) 4095);
  mret (n / 4096).
Definition is_mapped (r : SharedMemoryRegion) : bool := negb (len (mappings r) =? 0).

Definition add_ref : RegionM unit :=
  r ← get;
  n ← add_or_panic 64 (ref_count r) 1;
  modify (set_refs n).

Definition release : RegionM bool :=
  r ← get;
  (if 0 <? ref_count r then modify (set_refs (ref_count r - 1)) else mret tt);;
  r ← get;
  mret (ref_count r =? 0).

Definition add_frames (frames : list Z) (r : SharedMemoryRegion) : SharedMemoryRegion :=
  mkSharedMemoryRegion (shm_id r) (shm_name r) (shm_size r) frames (shm_state r) (shm_flags r)
    (shm_creator r) (ref_count r) (mappings r) (shm_capability r).

Definition add_mapping (m : ShmMapping) (r : SharedMemoryRegion) : SharedMemoryRegion :=
  set_mappings (mappings r ++ [m]) Mapped r.

(** [position] and [remove] of the first mapping of the process. *)
Fixpoint remove_first (pid : Z) (l : list ShmMapping) : option (ShmMapping * list ShmMapping) :=
  match l with
  | [] => None
  | m :: l =>
      if map_pid m =? pid then Some (m, l)
      else '(x, l') ← remove_first pid l; Some (x, m :: l')
  end.
Definition remove_mapping (pid : Z) : RegionM (option ShmMapping) :=
  r ← get;
  match remove_first pid (mappings r) with
  | None => mret None
  | Some (m, l) =>
      modify (set_mappings l (if len l =? 0 then Allocated else shm_state r));;
      mret (Some m)
  end.

Fixpoint find_go (pid : Z) (l : list ShmMapping) : option ShmMapping :=
  match l with
  | [] => None
  | m :: l => if map_pid m =? pid then Some m else find_go pid l
  end.
Definition find_mapping (pid : Z) (r : SharedMemoryRegion) : option ShmMapping := find_go pid (mappings r).

Definition set_capability (cap : Z) (r : SharedMemoryRegion) : SharedMemoryRegion :=
  mkSharedMemoryRegion (shm_id r) (shm_name r) (shm_size r) (shm_frames r) (shm_state r) (shm_flags r)
    (shm_creator r) (ref_count r) (mappings r) (Some cap).

End Region.

(** [regions] maps an id to an index of the heap. *)
Record SharedMemoryManager : Type := mkSharedMemoryManager {
  regions : gmap Z Z;
  next_id : Z;
  max_regions : Z;
  total_size : Z;
  max_total_size : Z;
}.
Definition manager_new : SharedMemoryManager := mkSharedMemoryManager ∅ 1 4096 0 (1024 * 1024 * 1024).

Record Shm : Type := mkShm {
  SHM_MANAGER : option SharedMemoryManager;
  heap : list SharedMemoryRegion;
}.
Definition set_manager (m : SharedMemoryManager) (s : Shm) : Shm := mkShm (Some m) (heap s).
Definition set_heap (h : list SharedMemoryRegion) (s : Shm) : Shm := mkShm (SHM_MANAGER s) h.

Abbreviation ShmM := (M Shm ShmError).

Definition locked {A} (h : Z) (m : M SharedMemoryRegion ShmError A) : ShmM A := λ s,
  match vget (heap s) h with
  | None => (Panic, s)
  | Some r => let '(o, r') := m r in (o, set_heap (vset (heap s) h r') s)
  end.

Module Manager.

Definition create (name : string) (size creator flags : Z) (mgr : SharedMemoryManager) : ShmM Z :=
  if (size =? 0) || (max_total_size mgr <? size) then throw InvalidSize
  else if max_regions mgr <=? Z.of_nat (base.size (regions mgr)) then throw LimitReached
  else
    let current_total := total_size mgr in
    total ← add_or_panic 64 current_total size;
    if max_total_size mgr <? total then throw OutOfMemory
    else
      let id := next_id mgr in
      region ← lift (Region.new id name size creator flags);
      h ← gets (λ s, len (heap s));
      modify (λ s, set_heap (heap s ++ [region]) s);;
      modify (set_manager (mkSharedMemoryManager (<[id := h]> (regions mgr)) (as_u64 (id + 1)) (max_regions mgr)
        (as_u64 (total_size mgr + size)) (max_total_size mgr)));;
      mret id.

Definition get (id : Z) (mgr : SharedMemoryManager) : option Z := regions mgr !! id.

Definition map (id pid vaddr rights : Z) (mgr : SharedMemoryManager) : ShmM Z :=
  h ← ok_or (regions mgr !! id) NotFound;
  locked h (
    r ← Prelude.get;
    match Region.find_mapping pid r with
    | Some _ => throw AlreadyMapped
    | None =>
        modify (Region.add_mapping (mkShmMapping pid vaddr rights));;
        Region.add_ref;;
        mret vaddr
    end).

Definition unmap (id pid : Z) (mgr : SharedMemoryManager) : ShmM unit :=
  h ← ok_or (regions mgr !! id) NotFound;
  locked h (
    m ← Region.remove_mapping pid;
    _ ← ok_or m NotMapped;
    mret tt).

(** The inner block answers the size of the region when it can be removed. *)
Definition destroy (id pid : Z) (mgr : SharedMemoryManager) : ShmM unit :=
  h ← ok_or (regions mgr !! id) NotFound;
  gone ← locked h (
    r ← Prelude.get;
    if negb (shm_creator r =? pid) then throw PermissionDenied
    else
      last ← Region.release;
      if negb last then modify (λ r, set_mappings (mappings r) Destroying r);; mret None
      else mret (Some (shm_size r)));
  match gone with
  | None => mret tt
  | Some size =>
      modify (set_manager (mkSharedMemoryManager (delete id (regions mgr)) (next_id mgr) (max_regions mgr)
        (as_u64 (total_size mgr - size)) (max_total_size mgr)))
  end.

Definition stats (mgr : SharedMemoryManager) : Z * Z := (Z.of_nat (base.size (regions mgr)), total_size mgr).

End Manager.

(** *** The functions of the module *)

Definition with_manager {A} (f : SharedMemoryManager → ShmM A) : ShmM A :=
  m ← gets SHM_MANAGER;
  mgr ← ok_or m NotFound;
  f mgr.

Definition init (s : Shm) : Shm := set_manager manager_new s.
Definition create (name : string) (size creator flags : Z) : ShmM Z := with_manager (Manager.create name size creator flags).
Definition map (id pid vaddr rights : Z) : ShmM Z := with_manager (Manager.map id pid vaddr rights).
Definition unmap (id pid : Z) : ShmM unit := with_manager (Manager.unmap id pid).
Definition destroy (id pid : Z) : ShmM unit := with_manager (Manager.destroy id pid).

(** ** Calls *)

Inductive shm_call : Type :=
| CCreate (name : string) (size creator flags : Z)
| CMap (id pid vaddr rights : Z)
| CUnmap (id pid : Z)
| CDestroy (id pid : Z).
Inductive shm_answer : Type := AId (id : Z) | AAddr (vaddr : Z) | ADone.

Definition shm_run (c : shm_call) : ShmM shm_answer :=
  match c with
  | CCreate name size creator flags => id ← create name size creator flags; mret (AId id)
  | CMap id pid vaddr rights => v ← map id pid vaddr rights; mret (AAddr v)
  | CUnmap id pid => unmap id pid;; mret ADone
  | CDestroy id pid => destroy id pid;; mret ADone
  end.

Fixpoint shm_runs (cs : list shm_call) (s : Shm) : list (outcome ShmError shm_answer) * Shm :=
  match cs with
  | [] => ([], s)
  | c :: cs =>
      let '(r, s') := shm_run c s in
      let '(rs, s2) := shm_runs cs s' in
      (r :: rs, s2)
  end.

(** A [usize] size. *)
Definition call_ok (c : shm_call) : Prop :=
  match c with CCreate _ size _ _ => in_u 64 size | _ => True end.

(** ** The accounting *)

Definition MAX_TOTAL : Z := 1024 * 1024 * 1024.

(** After [n] calls. *)
Record region_ok (n : Z) (r : SharedMemoryRegion) : Prop := {
  ro_size : 0 < shm_size r ≤ MAX_TOTAL;
  ro_refs : 1 ≤ ref_count r ≤ n + 1;
  ro_pids : NoDup (map_pid <$> mappings r);
}.

Definition size_at (hp : list SharedMemoryRegion) (h : Z) : Z := from_option shm_size 0 (vget hp h).
(** The sizes of the regions of the table, together. *)
Definition sum_sizes (hp : list SharedMemoryRegion) (rs : gmap Z Z) : Z :=
  foldr Z.add 0 ((λ e, size_at hp e.2) <$> map_to_list rs).

Record shm_inv (n : Z) (mgr : SharedMemoryManager) (hp : list SharedMemoryRegion) : Prop := {
  si_limits : max_regions mgr = 4096 ∧ max_total_size mgr = MAX_TOTAL;
  si_count : Z.of_nat (size (regions mgr)) ≤ 4096;
  si_next : 1 ≤ next_id mgr ≤ n + 1 ∧ ∀ id h, regions mgr !! id = Some h → id < next_id mgr;
  si_regions : ∀ id h, regions mgr !! id = Some h → ∃ r, vget hp h = Some r ∧ region_ok n r;
  si_inj : ∀ id id' h, regions mgr !! id = Some h → regions mgr !! id' = Some h → id = id';
  si_total : total_size mgr = sum_sizes hp (regions mgr);
  si_max : total_size mgr ≤ MAX_TOTAL;
}.

Lemma region_ok_mono n r : region_ok n r → region_ok (n + 1) r.
Proof. intros []. split; try done. lia. Qed.

Lemma foldr_add_perm (l k : list Z) : l ≡ₚ k → foldr Z.add 0 l = foldr Z.add 0 k.
Proof. induction 1; simpl; lia. Qed.

Lemma sum_insert hp rs id h : rs !! id = None → sum_sizes hp (<[id := h]> rs) = size_at hp h + sum_sizes hp rs.
Proof.
  intros Hn. unfold sum_sizes. rewrite (foldr_add_perm _ _ (fmap_Permutation _ _ _ (map_to_list_insert rs id h Hn))). done.
Qed.

Lemma sum_delete hp rs id h : rs !! id = Some h → sum_sizes hp rs = size_at hp h + sum_sizes hp (delete id rs).
Proof.
  intros Hs. unfold sum_sizes. by rewrite <- (foldr_add_perm _ _ (fmap_Permutation _ _ _ (map_to_list_delete rs id h Hs))).
Qed.

Lemma sum_ext hp hp' rs :
  (∀ id h, rs !! id = Some h → size_at hp' h = size_at hp h) → sum_sizes hp' rs = sum_sizes hp rs.
Proof.
  intros H. unfold sum_sizes. f_equal. apply list_fmap_ext. intros i [id h] Hi. simpl.
  apply (H id). apply elem_of_map_to_list. by eapply list_elem_of_lookup_2.
Qed.

Lemma sum_nonneg n hp rs :
  (∀ id h, rs !! id = Some h → ∃ r, vget hp h = Some r ∧ region_ok n r) → 0 ≤ sum_sizes hp rs.
Proof.
  intros H. unfold sum_sizes.
  assert (Forall (λ e, 0 ≤ size_at hp e.2) (map_to_list rs)) as Hall.
  { apply Forall_forall. intros [id h] Hin%elem_of_map_to_list. destruct (H id h Hin) as (r & Hr & Hok).
    unfold size_at. simpl. rewrite Hr. simpl. destruct Hok. lia. }
  clear H. induction Hall as [|e l He _ IH]; [done|]. rewrite fmap_cons. cbn [foldr]. lia.
Qed.

(** A region of the table changes but keeps its size. *)
Lemma inv_update n mgr hp id h r r' :
  shm_inv n mgr hp → regions mgr !! id = Some h → vget hp h = Some r → region_ok (n + 1) r' → shm_size r' = shm_size r →
  shm_inv (n + 1) mgr (vset hp h r').
Proof.
  intros [Hl Hc Hn Hr Hi Ht Hm] Hid Hv Hok Hsz. pose proof (proj1 (vget_Some _ _ _) Hv) as [Hlt _].
  split; try done.
  - split; [lia|apply Hn].
  - intros id' h' Hid'. destruct (Hr id' h' Hid') as (r2 & Hv2 & Hok2). pose proof (proj1 (vget_Some _ _ _) Hv2) as [? _].
    rewrite vget_vset by lia. destruct (Z.eqb_spec h' h) as [->|]; [by exists r'|].
    exists r2. split; [done|by apply region_ok_mono].
  - rewrite Ht. symmetry. apply sum_ext. intros id' h' Hid'. unfold size_at.
    destruct (Hr id' h' Hid') as (r2 & Hv2 & _). pose proof (proj1 (vget_Some _ _ _) Hv2) as [? _].
    rewrite vget_vset by lia. destruct (Z.eqb_spec h' h) as [->|]; [|done]. rewrite Hv. simpl. done.
Qed.

Lemma inv_mono n mgr hp : shm_inv n mgr hp → shm_inv (n + 1) mgr hp.
Proof.
  intros [Hl Hc Hn Hr Hi Ht Hm]. split; try done; [split; [lia|apply Hn]|].
  intros id h Hid. destruct (Hr id h Hid) as (r & ? & ?). exists r. split; [done|by apply region_ok_mono].
Qed.

(** *** Each call *)

(** The outcome of a call: no panic, and the invariant one call later. *)
Definition keeps_inv {A} (n : Z) (m : ShmM A) (s : Shm) : Prop :=
  (m s).1 ≠ Panic ∧ ∃ mgr', SHM_MANAGER (m s).2 = Some mgr' ∧ shm_inv (n + 1) mgr' (heap (m s).2).

Lemma create_inv n mgr s name size creator flags :
  SHM_MANAGER s = Some mgr → shm_inv n mgr (heap s) → n + 2 < 2 ^ 64 → in_u 64 size →
  keeps_inv n (Manager.create name size creator flags mgr) s.
Proof.
  intros Hmgr HI Hn Hsz. pose proof HI as [[Hmr Hmt] Hc [Hnx Hids] Hr Hinj Ht Hm].
  assert (keeps_inv n (λ s, (Err InvalidSize (A:=Z), s)) s ∧ keeps_inv n (λ s, (Err LimitReached (A:=Z), s)) s ∧
    keeps_inv n (λ s, (Err OutOfMemory (A:=Z), s)) s) as (H1 & H2 & H3).
  { split_and!; (split; [done|]); exists mgr; (split; [done|]); by apply inv_mono. }
  unfold Manager.create. rewrite Hmt, Hmr. destruct (Z.eqb_spec size 0); simpl; [done|].
  destruct (Z.ltb_spec MAX_TOTAL size); [done|]. destruct (Z.leb_spec 4096 (Z.of_nat (base.size (regions mgr)))); [done|].
  pose proof (sum_nonneg n _ _ Hr) as Hnn. rewrite <- Ht in Hnn.
  unfold add_or_panic, checked_add. assert (MAX_TOTAL = 2 ^ 30) as HM by done. unfold in_u in Hsz.
  destruct (Z.ltb_spec (total_size mgr + size) (2 ^ 64)); [|lia]. unfold keeps_inv, mbind, M_bind, unwrap. cbn [mret M_ret].
  destruct (Z.ltb_spec MAX_TOTAL (total_size mgr + size)); [done|].
  unfold Region.new, checked_add. destruct (Z.ltb_spec (size + 4096) (2 ^ 64)); [|lia]. simpl. split; [done|].
  eexists. split; [done|]. simpl. set (r := mkSharedMemoryRegion _ _ _ _ _ _ _ _ _ _).
  assert (regions mgr !! next_id mgr = None) as Hfresh.
  { destruct (regions mgr !! next_id mgr) as [h|] eqn:Hh; [|done]. pose proof (Hids _ _ Hh). lia. }
  assert (∀ id h, regions mgr !! id = Some h → vget (heap s ++ [r]) h = vget (heap s) h ∧ h < len (heap s)) as Hold.
  { intros id h Hh. destruct (Hr id h Hh) as (r2 & Hv & _). apply vget_Some in Hv as [? _]. rewrite vget_app_l by lia. split; [done|lia]. }
  unfold as_u64. rewrite !wrap_id by (unfold in_u; lia). split; simpl.
  - done.
  - rewrite map_size_insert_None by done. lia.
  - split; [lia|]. intros id h. destruct (decide (id = next_id mgr)) as [->|Hne]; [lia|].
    rewrite lookup_insert_ne by done. intros Hh%Hids. lia.
  - intros id h. destruct (decide (id = next_id mgr)) as [->|Hne].
    + rewrite lookup_insert_eq. intros [= <-]. exists r. rewrite vget_snoc. split; [done|]. split; simpl; [lia|lia|constructor].
    + rewrite lookup_insert_ne by done. intros Hh. destruct (Hr id h Hh) as (r2 & Hv & Hok). exists r2.
      rewrite (proj1 (Hold id h Hh)). split; [done|by apply region_ok_mono].
  - intros id id' h. destruct (decide (id = next_id mgr)) as [->|], (decide (id' = next_id mgr)) as [->|]; try done.
    + rewrite lookup_insert_eq, lookup_insert_ne by done. intros [= <-] [_ Hh]%Hold. lia.
    + rewrite lookup_insert_eq, lookup_insert_ne by done. intros [_ Hh]%Hold [= <-]. lia.
    + rewrite !lookup_insert_ne by done. apply Hinj.
  - rewrite sum_insert by done. unfold size_at at 1. rewrite vget_snoc. simpl. rewrite Ht.
    rewrite (sum_ext (heap s) (heap s ++ [r])); [lia|]. intros id h Hh. unfold size_at. by rewrite (proj1 (Hold id h Hh)).
  - lia.
Qed.

(** A call on one region that keeps the size. *)
Lemma locked_inv {A} n mgr s id h (m : M SharedMemoryRegion ShmError A) :
  SHM_MANAGER s = Some mgr → shm_inv n mgr (heap s) → regions mgr !! id = Some h →
  (∀ r, region_ok n r → (m r).1 ≠ Panic ∧ region_ok (n + 1) (m r).2 ∧ shm_size (m r).2 = shm_size r) →
  keeps_inv n (locked h m) s.
Proof.
  intros Hmgr HI Hid Hm. destruct (si_regions _ _ _ HI id h Hid) as (r & Hv & Hok).
  destruct (Hm r Hok) as (Hp & Hok' & Hsz). unfold keeps_inv, locked. rewrite Hv.
  destruct (m r) as [o r'] eqn:Heq. simpl in *. split; [done|]. exists mgr. split; [done|].
  by apply (inv_update n mgr (heap s) id h r r').
Qed.

Lemma lookup_inv {A} n mgr s id (k : Z → ShmM A) :
  SHM_MANAGER s = Some mgr → shm_inv n mgr (heap s) →
  (∀ h, regions mgr !! id = Some h → keeps_inv n (k h) s) →
  keeps_inv n (h ← ok_or (regions mgr !! id) NotFound; k h) s.
Proof.
  intros Hmgr HI Hk. unfold keeps_inv, mbind, M_bind. destruct (regions mgr !! id) as [h|]; [by apply Hk|].
  simpl. split; [done|]. exists mgr. split; [done|by apply inv_mono].
Qed.

Lemma find_go_None pid l : Region.find_go pid l = None → pid ∉ (map_pid <$> l).
Proof.
  induction l as [|m l IH]; simpl; [by intros _ ?%not_elem_of_nil|]. destruct (Z.eqb_spec (map_pid m) pid); [done|].
  intros Hn. rewrite elem_of_cons. intros [->|Hin]; [done|by apply IH].
Qed.

Lemma remove_first_Some pid l m l' : Region.remove_first pid l = Some (m, l') → l ≡ₚ m :: l' ∧ map_pid m = pid.
Proof.
  revert l'. induction l as [|x l IH]; intros l'; simpl; [done|]. destruct (Z.eqb_spec (map_pid x) pid); [by intros [= -> ->]|].
  destruct (Region.remove_first pid l) as [[y k]|]; [|done]. intros [= -> <-]. destruct (IH k eq_refl) as [-> ?].
  split; [apply Permutation_swap|done].
Qed.

Lemma map_inv n mgr s id pid va rights :
  SHM_MANAGER s = Some mgr → shm_inv n mgr (heap s) → n + 2 < 2 ^ 64 →
  keeps_inv n (Manager.map id pid va rights mgr) s.
Proof.
  intros Hmgr HI Hn. apply lookup_inv; [done..|]. intros h Hh. eapply locked_inv; [done..|]. intros r [Hsz Href Hnd].
  unfold mbind, M_bind, get. simpl. destruct (Region.find_mapping pid r) eqn:Hf; simpl.
  - split_and!; [done| |done]. by apply region_ok_mono.
  - unfold Region.add_ref, mbind, M_bind, get, add_or_panic, checked_add. simpl.
    destruct (Z.ltb_spec (ref_count r + 1) (2 ^ 64)); [|lia]. simpl. split_and!; [done| |done].
    split; simpl; [done|lia|]. rewrite fmap_app. apply NoDup_app. split_and!; [done| |apply NoDup_singleton].
    intros p Hp [->|?%not_elem_of_nil]%elem_of_cons; [|done]. by apply find_go_None in Hf.
Qed.

Lemma unmap_inv n mgr s id pid :
  SHM_MANAGER s = Some mgr → shm_inv n mgr (heap s) → keeps_inv n (Manager.unmap id pid mgr) s.
Proof.
  intros Hmgr HI. apply lookup_inv; [done..|]. intros h Hh. eapply locked_inv; [done..|]. intros r Hok.
  unfold Region.remove_mapping, mbind, M_bind, get. simpl.
  destruct (Region.remove_first pid (mappings r)) as [[m l]|] eqn:Hf; simpl; (split_and!; [done| |done]).
  - destruct Hok as [Hsz Href Hnd]. apply remove_first_Some in Hf as [Hp _]. rewrite Hp in Hnd.
    split; simpl; [done|lia|]. by apply NoDup_cons in Hnd as [_ ?].
  - by apply region_ok_mono.
Qed.

Lemma inv_remove n mgr hp id h r r' :
  shm_inv n mgr hp → regions mgr !! id = Some h → vget hp h = Some r →
  shm_inv (n + 1) (mkSharedMemoryManager (delete id (regions mgr)) (next_id mgr) (max_regions mgr)
    (as_u64 (total_size mgr - shm_size r)) (max_total_size mgr)) (vset hp h r').
Proof.
  intros HI Hh Hv. pose proof HI as [[Hmr Hmt] Hc [Hnx Hids] Hr Hinj Ht Hm].
  pose proof (sum_delete hp _ _ _ Hh) as Hsum. unfold size_at in Hsum at 1. rewrite Hv in Hsum. simpl in Hsum.
  assert (∀ id' h', delete id (regions mgr) !! id' = Some h' →
    vget (vset hp h r') h' = vget hp h' ∧ regions mgr !! id' = Some h') as Hsame.
  { intros id' h' [Hne Hid']%lookup_delete_Some. destruct (Hr id' h' Hid') as (r2 & Hv2 & _).
    apply vget_Some in Hv as [? _]. apply vget_Some in Hv2 as [? _]. rewrite vget_vset by lia. split; [|done].
    destruct (Z.eqb_spec h' h) as [->|]; [|done]. destruct Hne. by eapply Hinj. }
  assert (0 ≤ sum_sizes hp (delete id (regions mgr))) as Hnn.
  { apply (sum_nonneg n). intros id' h' [_ ?]%Hsame. by apply Hr in H as (r2 & ? & ?); exists r2. }
  destruct (Hr id h Hh) as (r2 & Hv2 & [Hsz _ _]). assert (r2 = r) as -> by congruence.
  assert (MAX_TOTAL = 2 ^ 30) as HM by done. unfold as_u64. rewrite wrap_id by (unfold in_u; lia). split; simpl.
  - done.
  - rewrite map_size_delete, Hh. lia.
  - split; [lia|]. intros id' h' [_ ?]%Hsame. by eapply Hids.
  - intros id' h' [-> Hid']%Hsame. destruct (Hr id' h' Hid') as (r3 & ? & ?). exists r3. split; [done|by apply region_ok_mono].
  - intros id1 id2 h' [_ ?]%Hsame [_ ?]%Hsame. by eapply Hinj.
  - rewrite (sum_ext hp); [lia|]. intros id' h' [Heq _]%Hsame. unfold size_at. by rewrite Heq.
  - lia.
Qed.

Lemma destroy_inv n mgr s id pid :
  SHM_MANAGER s = Some mgr → shm_inv n mgr (heap s) → keeps_inv n (Manager.destroy id pid mgr) s.
Proof.
  intros Hmgr HI. apply lookup_inv; [done..|]. intros h Hh.
  destruct (si_regions _ _ _ HI id h Hh) as (r & Hv & Hok). pose proof Hok as [Hsz Href Hnd].
  unfold keeps_inv, locked, Region.release, mbind, M_bind, get. rewrite Hv. simpl.
  destruct (Z.eqb_spec (shm_creator r) pid); simpl.
  2: { split; [done|]. exists mgr. split; [done|]. eapply inv_update; [done..|by apply region_ok_mono|done]. }
  destruct (Z.ltb_spec 0 (ref_count r)); [|lia]. simpl. destruct (Z.eqb_spec (ref_count r - 1) 0) as [H1|H1]; simpl.
  2: { split; [done|]. exists mgr. split; [done|]. eapply inv_update; [done..| |done]. split; simpl; [done|lia|done]. }
  split; [done|]. eexists. split; [done|]. by apply inv_remove.
Qed.

Lemma run_inv n mgr s c :
  SHM_MANAGER s = Some mgr → shm_inv n mgr (heap s) → n + 2 < 2 ^ 64 → call_ok c → keeps_inv n (shm_run c) s.
Proof.
  intros Hmgr HI Hn Hc.
  assert (∀ A (f : SharedMemoryManager → ShmM A) (g : A → shm_answer),
    keeps_inv n (f mgr) s → keeps_inv n (x ← with_manager f; mret (g x)) s) as Hw.
  { intros A f g [Hp Hm]. unfold keeps_inv, with_manager, mbind, M_bind, gets in *. rewrite Hmgr. simpl.
    destruct (f mgr s) as [[a|e|] s']; done. }
  destruct c as [name size cr flags|id pid va rights|id pid|id pid]; simpl in Hc; apply Hw.
  - by apply create_inv.
  - by apply map_inv.
  - by apply unmap_inv.
  - by apply destroy_inv.
Qed.

Lemma runs_inv cs : ∀ n mgr s,
  SHM_MANAGER s = Some mgr → shm_inv n mgr (heap s) → n + len cs + 1 < 2 ^ 64 → Forall call_ok cs →
  (Panic ∉ (shm_runs cs s).1) ∧
  ∃ mgr', SHM_MANAGER (shm_runs cs s).2 = Some mgr' ∧ shm_inv (n + len cs) mgr' (heap (shm_runs cs s).2).
Proof.
  induction cs as [|c cs IH]; intros n mgr s Hmgr HI Hn Hok; simpl.
  - split; [by intros ?%not_elem_of_nil|]. exists mgr. split; [done|]. by rewrite Z.add_0_r.
  - apply Forall_cons in Hok as [Hc Hok]. rewrite len_cons in *. pose proof (len_nonneg cs).
    destruct (run_inv n mgr s c Hmgr HI ltac:(lia) Hc) as [Hp (mgr1 & Hmgr1 & HI1)].
    destruct (shm_run c s) as [r s1]. simpl in *.
    destruct (IH (n + 1) mgr1 s1 Hmgr1 HI1 ltac:(lia) Hok) as [Hp' (mgr2 & Hmgr2 & HI2)].
    destruct (shm_runs cs s1) as [rs s2]. simpl in *. split.
    + intros [?|?]%elem_of_cons; congruence.
    + exists mgr2. split; [done|]. by replace (n + (len cs + 1)) with (n + 1 + len cs) by lia.
Qed.

Lemma init_inv_shm s : shm_inv 0 manager_new (heap (init s)).
Proof. by split. Qed.

(** C34. The accounting of shared memory is exact: after [init], any sequence
    of fewer than 2^64 - 1 calls (successful or not) gives no panic, keeps
    [total_size] equal to the sizes of the regions that exist, at most 1 GB and
    4096 regions, and no region has two mappings of one process. *)
Theorem shm_accounting cs s :
  len cs + 1 < 2 ^ 64 → Forall call_ok cs →
  let '(rs, s') := shm_runs cs (init s) in
  (Panic ∉ rs) ∧
  ∃ mgr, SHM_MANAGER s' = Some mgr ∧
    total_size mgr = sum_sizes (heap s') (regions mgr) ∧ total_size mgr ≤ MAX_TOTAL ∧
    Z.of_nat (size (regions mgr)) ≤ 4096 ∧
    ∀ id h, regions mgr !! id = Some h →
      ∃ r, vget (heap s') h = Some r ∧ 0 < shm_size r ∧ NoDup (map_pid <$> mappings r).
Proof.
  intros Hn Hok. destruct (runs_inv cs 0 manager_new (init s) eq_refl (init_inv_shm s) ltac:(lia) Hok) as [Hp (mgr & Hm & HI)].
  destruct (shm_runs cs (init s)) as [rs s']. simpl in *. split; [done|]. exists mgr. pose proof HI as [_ Hc _ Hr _ Ht Hmax].
  split_and!; try done. intros id h Hh. destruct (Hr id h Hh) as (r & Hv & [Hsz _ Hnd]). exists r. split_and!; [done|lia|done].
Qed.

Definition demo_shm_calls : list shm_call := [CCreate "a" 5000 1 3; CMap 1 2 4096 1; CCreate "b" (2 ^ 30) 1 3; CDestroy 1 2].

Lemma shm_accounting_witness :
  let '(rs, s') := shm_runs demo_shm_calls (init (mkShm None [])) in
  rs = [Ok (AId 1); Ok (AAddr 4096); Err OutOfMemory; Err PermissionDenied] ∧
  ∃ mgr, SHM_MANAGER s' = Some mgr ∧ total_size mgr = 5000 ∧ total_size mgr = sum_sizes (heap s') (regions mgr).
Proof.
  pose proof (shm_accounting demo_shm_calls (mkShm None []) ltac:(by vm_compute)) as H.
  destruct (shm_runs demo_shm_calls (init (mkShm None []))) as [rs s'] eqn:Heq.
  destruct H as (_ & mgr & Hm & Ht & _).
  { repeat constructor; simpl; unfold in_u; simpl; lia. }
  vm_compute in Heq. injection Heq as <- <-. split; [done|]. exists mgr. split_and!; [done| |done].
  injection Hm as <-. done.
Defined.

(** ** What [destroy] does to a region that was mapped

    [map] takes a reference that [unmap] never gives back, and [destroy]
    releases one per call. *)

Lemma unmap_keeps_refs pid r : ref_count (Region.remove_mapping pid r).2 = ref_count r.
Proof.
  unfold Region.remove_mapping, mbind, M_bind, get. simpl. by destruct (Region.remove_first pid (mappings r)) as [[m l]|].
Qed.

(** A region that nobody maps any more survives its destruction. *)
Lemma destroy_keeps_unmapped :
  let '(rs, s) := shm_runs [CCreate "a" 4096 1 3; CMap 1 2 65536 1; CUnmap 1 2; CDestroy 1 1] (init (mkShm None [])) in
  rs = [Ok (AId 1); Ok (AAddr 65536); Ok ADone; Ok ADone] ∧
  (total_size <$> SHM_MANAGER s) = Some 4096 ∧ (mappings <$> heap s) = [[]].
Proof. by vm_compute. Qed.

(** Destroying twice removes a region that is still mapped; the process can
    no longer unmap it. *)
Lemma destroy_twice_removes_mapped :
  let '(rs, s) := shm_runs [CCreate "a" 4096 1 3; CMap 1 2 65536 1; CDestroy 1 1; CDestroy 1 1; CUnmap 1 2] (init (mkShm None [])) in
  rs = [Ok (AId 1); Ok (AAddr 65536); Ok ADone; Ok ADone; Err NotFound] ∧
  (total_size <$> SHM_MANAGER s) = Some 0 ∧ (Region.is_mapped <$> heap s) = [true].
Proof. by vm_compute. Qed.
