(* ===== verification/Text.v ===== *)
(** * Strings

    The operations of [str] that the kernel's path and permission code uses,
    on the UTF-8 bytes of the string: the patterns are ASCII, so matching bytes
    is matching characters. *)

From stdpp Require Import strings pretty.
From S2P Require Import Prelude.

(** ** The operations *)

(** [s.split(c)]: always at least one part. *)
Fixpoint split (c : Ascii.ascii) (s : string) : list string :=
  match s with
  | EmptyString => [EmptyString]
  | String a s =>
      if Ascii.eqb a c then EmptyString :: split c s
      else match split c s with
           | p :: ps => String a p :: ps
           | [] => []
           end
  end.

(** [s.matches(c).count()]. *)
Fixpoint count_char (c : Ascii.ascii) (s : string) : Z :=
  match s with
  | EmptyString => 0
  | String a s => (if Ascii.eqb a c then 1 else 0) + count_char c s
  end.

Fixpoint trim_end_matches (c : Ascii.ascii) (s : string) : string :=
  match s with
  | EmptyString => EmptyString
  | String a s =>
      match trim_end_matches c s with
      | EmptyString => if Ascii.eqb a c then EmptyString else String a EmptyString
      | t => String a t
      end
  end.

Definition starts_with (s pat : string) : bool := String.prefix pat s.

(** [s.find(pat)] and the rest after the match. *)
Fixpoint find_after (pat s : string) : option string :=
  if String.prefix pat s
  then Some (String.substring (String.length pat) (String.length s - String.length pat) s)
  else match s with
       | EmptyString => None
       | String _ s => find_after pat s
       end.

(** [s.find(c)] and the part before it. *)
Fixpoint find_before (c : Ascii.ascii) (s : string) : option string :=
  match s with
  | EmptyString => None
  | String a s => if Ascii.eqb a c then Some EmptyString else String a <$> find_before c s
  end.

(** [char::is_whitespace], on the UTF-8 of the character: one byte (the ASCII
    ones), two ([U+0085], [U+00A0]) or three ([U+1680], [U+2000] to [U+200A],
    [U+2028], [U+2029], [U+202F], [U+205F], [U+3000]). *)
Definition is_space (a : Ascii.ascii) : bool :=
  let n := Ascii.nat_of_ascii a in (n =? 32)%nat || ((9 <=? n)%nat && (n <=? 13)%nat).
Definition is_space2 (a b : Ascii.ascii) : bool :=
  let m := Z.of_nat (Ascii.nat_of_ascii a) in
  let n := Z.of_nat (Ascii.nat_of_ascii b) in
  (m =? 0xC2) && ((n =? 0x85) || (n =? 0xA0)).
Definition is_space3 (a b c : Ascii.ascii) : bool :=
  let m := Z.of_nat (Ascii.nat_of_ascii a) * 256 + Z.of_nat (Ascii.nat_of_ascii b) in
  let n := Z.of_nat (Ascii.nat_of_ascii c) in
  ((m =? 0xE19A) && (n =? 0x80))
  || ((m =? 0xE280) && (((0x80 <=? n) && (n <=? 0x8A)) || (n =? 0xA8) || (n =? 0xA9) || (n =? 0xAF)))
  || ((m =? 0xE281) && (n =? 0x9F))
  || ((m =? 0xE380) && (n =? 0x80)).
Fixpoint trim_start (s : string) : string :=
  match s with
  | EmptyString => EmptyString
  | String a s1 =>
      if is_space a then trim_start s1
      else match s1 with
           | EmptyString => s
           | String b s2 =>
               if is_space2 a b then trim_start s2
               else match s2 with
                    | EmptyString => s
                    | String c s3 => if is_space3 a b c then trim_start s3 else s
                    end
           end
  end.

Definition digit (a : Ascii.ascii) : option Z :=
  let n := Z.of_nat (Ascii.nat_of_ascii a) in
  if (48 <=? n) && (n <=? 57) then Some (n - 48) else None.
Fixpoint take_digits (s : string) : string :=
  match s with
  | EmptyString => EmptyString
  | String a s => match digit a with Some _ => String a (take_digits s) | None => EmptyString end
  end.

(** [str::parse] of digits into a [w]-bit unsigned number. *)
Fixpoint parse_go (w : Z) (s : string) (acc : Z) : option Z :=
  match s with
  | EmptyString => Some acc
  | String a s =>
      d ← digit a;
      let n := acc * 10 + d in
      if n <? 2 ^ w then parse_go w s n else None
  end.
Definition parse_unsigned (w : Z) (s : string) : option Z :=
  match s with EmptyString => None | _ => parse_go w s 0 end.

(** [Display] of an unsigned number. *)
Definition decimal (z : Z) : string := pretty (Z.to_N z).

(** [s.as_bytes()] *)
Fixpoint bytes_of (s : string) : list Z :=
  match s with
  | EmptyString => []
  | String a s => Z.of_nat (Ascii.nat_of_ascii a) :: bytes_of s
  end.

(** ** Lemmas *)

#[global] Arguments String.append !_ _ : simpl nomatch.

Fixpoint all_chars (P : Ascii.ascii → bool) (s : string) : bool :=
  match s with EmptyString => true | String a s => P a && all_chars P s end.

Lemma bytes_of_ok s : bytes_ok (bytes_of s).
Proof.
  induction s as [|a s IH]; constructor; [|done]. unfold in_u. pose proof (Ascii.nat_ascii_bounded a). lia.
Qed.

Lemma app_nil_string (s : string) : s +:+ "" = s.
Proof. induction s as [|a s IH]; simpl; [done|by rewrite IH]. Qed.

Lemma app_assoc_string (s t u : string) : (s +:+ t) +:+ u = s +:+ (t +:+ u).
Proof. induction s as [|a s IH]; simpl; [done|by rewrite IH]. Qed.

Lemma all_chars_app P s t : all_chars P (s +:+ t) = all_chars P s && all_chars P t.
Proof. induction s as [|a s IH]; simpl; [done|]. by rewrite IH, andb_assoc. Qed.

Lemma all_chars_impl (P Q : Ascii.ascii → bool) s :
  (∀ a, P a = true → Q a = true) → all_chars P s = true → all_chars Q s = true.
Proof.
  intros H. induction s as [|a s IH]; simpl; [done|]. intros [? ?]%andb_prop. by rewrite H, IH.
Qed.

Definition is_digit (a : Ascii.ascii) : bool := match digit a with Some _ => true | None => false end.
Definition no_char (c : Ascii.ascii) (s : string) : bool := all_chars (λ a, negb (Ascii.eqb a c)) s.

Lemma split_none c s : no_char c s = true → split c s = [s].
Proof.
  unfold no_char. induction s as [|a s IH]; simpl; [done|]. destruct (Ascii.eqb a c); [done|]. simpl. intros H. by rewrite IH.
Qed.

Lemma split_app c p s : no_char c p = true → split c (p +:+ String c s) = p :: split c s.
Proof.
  unfold no_char. induction p as [|a p IH]; simpl; [by rewrite Ascii.eqb_refl|].
  destruct (Ascii.eqb a c); [done|]. simpl. intros H. by rewrite IH.
Qed.

Lemma split_no_char c s p : p ∈ split c s → no_char c p = true.
Proof.
  unfold no_char. revert p. induction s as [|a s IH]; intros p; simpl; [by intros [->|?%not_elem_of_nil]%elem_of_cons|].
  destruct (Ascii.eqb a c) eqn:Ha.
  - intros [->|Hp]%elem_of_cons; [done|by apply IH].
  - destruct (split c s) as [|q ps]; [by intros ?%not_elem_of_nil|]. intros [->|Hp]%elem_of_cons.
    + simpl. rewrite Ha. simpl. apply IH. by left.
    + apply IH. by right.
Qed.

Lemma count_none c s : no_char c s = true → count_char c s = 0.
Proof.
  unfold no_char. induction s as [|a s IH]; simpl; [done|]. destruct (Ascii.eqb a c); [done|]. simpl. intros H. by rewrite IH.
Qed.

Lemma trim_end_none c s : no_char c s = true → trim_end_matches c s = s.
Proof.
  unfold no_char. induction s as [|a s IH]; simpl; [done|]. destruct (Ascii.eqb a c); [done|]. simpl. intros H.
  rewrite IH by done. by destruct s.
Qed.

(** Only the last part can be trimmed. *)
Lemma trim_end_app c p s : trim_end_matches c s ≠ "" → trim_end_matches c (p +:+ s) = p +:+ trim_end_matches c s.
Proof.
  intros Hs. induction p as [|a p IH]; simpl; [done|]. rewrite IH.
  destruct (p +:+ trim_end_matches c s) eqn:Heq; [|done]. by destruct p.
Qed.

Lemma prefix_app p s : String.prefix p (p +:+ s) = true.
Proof. induction p as [|a p IH]; simpl; [by destruct s|]. by destruct (Ascii.ascii_dec a a). Qed.

Lemma prefix_spec p s : String.prefix p s = true ↔ ∃ t, s = p +:+ t.
Proof.
  split; [|by intros [t ->]; apply prefix_app]. revert s. induction p as [|a p IH]; intros s; simpl; [by exists s|].
  destruct s as [|b s]; [done|]. cbn [String.prefix]. destruct (Ascii.ascii_dec a b) as [->|]; [|done]. intros [t ->]%IH. by exists t.
Qed.

(** *** Decimal numbers *)

Lemma pretty_go_app x : ∀ s, pretty_N_go x s = pretty_N_go x "" +:+ s.
Proof.
  induction (N.lt_wf_0 x) as [x _ IH]. intros s. destruct (decide (x = 0)%N) as [->|Hx]; [done|].
  rewrite (pretty_N_go_step x s), (pretty_N_go_step x "") by lia.
  assert (x `div` 10 < x)%N by (apply N.div_lt; lia).
  rewrite (IH _ H (String _ s)), (IH _ H (String _ "")), app_assoc_string. done.
Qed.

(** The last digit. *)
Lemma decimal_step z d : 0 < z → 0 ≤ d < 10 → decimal (10 * z + d) = decimal z +:+ decimal d.
Proof.
  intros Hz Hd. unfold decimal, pretty, pretty_N. rewrite !decide_False by lia.
  rewrite (pretty_N_go_step (Z.to_N (10 * z + d))) by lia.
  assert ((Z.to_N (10 * z + d) `div` 10)%N = Z.to_N z ∧ (Z.to_N (10 * z + d) `mod` 10)%N = Z.to_N d) as [-> ->].
  { split; apply N2Z.inj; [rewrite N2Z.inj_div|rewrite N2Z.inj_mod]; rewrite !Z2N.id by lia; change (Z.of_N 10) with 10;
      Z.div_mod_to_equations; lia. }
  rewrite pretty_go_app. f_equal.
  assert (d = 0 ∨ d = 1 ∨ d = 2 ∨ d = 3 ∨ d = 4 ∨ d = 5 ∨ d = 6 ∨ d = 7 ∨ d = 8 ∨ d = 9) as Hc by lia.
  by repeat destruct Hc as [->|Hc]; subst.
Qed.

Lemma decimal_digits z : all_chars is_digit (decimal z) = true.
Proof.
  unfold decimal, pretty, pretty_N. case_decide; [done|]. generalize (Z.to_N z). intros x.
  assert (∀ s, all_chars is_digit s = true → all_chars is_digit (pretty_N_go x s) = true) as Hgo; [|by apply Hgo].
  induction (N.lt_wf_0 x) as [y _ IH]. intros s Hs. destruct (decide (y = 0)%N) as [->|Hy]; [done|].
  rewrite pretty_N_go_step by lia. apply IH; [apply N.div_lt; lia|]. simpl. rewrite Hs, andb_true_r.
  unfold pretty_N_char. by repeat case_match.
Qed.

Lemma decimal_nonempty z : decimal z ≠ "".
Proof.
  unfold decimal, pretty, pretty_N. case_decide; [done|]. rewrite pretty_N_go_step by lia. rewrite pretty_go_app.
  by destruct (pretty_N_go _ "").
Qed.

Lemma decimal_no_slash z : no_char "/" (decimal z) = true.
Proof.
  unfold no_char. eapply all_chars_impl; [|apply decimal_digits]. intros a Ha.
  destruct (Ascii.eqb_spec a "/"); [by subst|done].
Qed.

Lemma decimal_inj a b : 0 ≤ a → 0 ≤ b → decimal a = decimal b → a = b.
Proof. unfold decimal. intros Ha Hb Heq%(inj pretty). by apply Z2N.inj. Qed.

Lemma parse_go_app w s t acc : parse_go w (s +:+ t) acc = (a ← parse_go w s acc; parse_go w t a).
Proof.
  revert acc. induction s as [|c s IH]; intros acc; simpl; [done|]. destruct (digit c) as [d|]; [|done]. simpl.
  destruct (_ <? _); [apply IH|done].
Qed.

Lemma parse_go_digit w d acc : 0 ≤ d < 10 → acc * 10 + d < 2 ^ w → parse_go w (decimal d) acc = Some (acc * 10 + d).
Proof.
  intros Hd Hw. assert (d = 0 ∨ d = 1 ∨ d = 2 ∨ d = 3 ∨ d = 4 ∨ d = 5 ∨ d = 6 ∨ d = 7 ∨ d = 8 ∨ d = 9) as Hc by lia.
  apply Z.ltb_lt in Hw. destruct Hc as [->|[->|[->|[->|[->|[->|[->|[->|[->| ->]]]]]]]]];
    (etransitivity; [|exact (f_equal (λ b : bool, if b then _ else None) Hw)]); reflexivity.
Qed.

Lemma parse_go_decimal w z : 0 ≤ z < 2 ^ w → parse_go w (decimal z) 0 = Some z.
Proof.
  intros [Hz Hw]. revert Hw. pattern z. revert z Hz. apply Zlt_0_ind. intros z IH Hz Hw.
  destruct (decide (z < 10)) as [Hs|Hs]; [by rewrite parse_go_digit|].
  assert (z = 10 * (z / 10) + z mod 10) as Heq by (apply Z.div_mod; lia).
  assert (0 ≤ z mod 10 < 10) by (apply Z.mod_pos_bound; lia). rewrite Heq at 1. rewrite decimal_step by lia.
  rewrite parse_go_app, IH by lia. simpl. rewrite parse_go_digit by lia. f_equal. lia.
Qed.

Lemma parse_decimal w z : 0 ≤ z < 2 ^ w → parse_unsigned w (decimal z) = Some z.
Proof.
  intros Hz. unfold parse_unsigned. destruct (decimal z) eqn:Heq; [by apply decimal_nonempty in Heq|].
  rewrite <- Heq. by apply parse_go_decimal.
Qed.

Lemma take_digits_app s t : all_chars is_digit s = true → take_digits (s +:+ t) = s +:+ take_digits t.
Proof.
  unfold is_digit. induction s as [|a s IH]; simpl; [done|]. destruct (digit a); [|done]. intros H. simpl. by rewrite IH.
Qed.

(** The first match, when the text before it does not match. *)
Lemma find_after_here pat s : find_after pat (pat +:+ s) = Some s.
Proof.
  assert (String.substring (String.length pat) (String.length (pat +:+ s) - String.length pat) (pat +:+ s) = s) as H.
  { induction pat as [|a pat IH]; cbn [String.length String.append String.substring].
    - rewrite Nat.sub_0_r. induction s as [|a s IH]; cbn; [done|by rewrite IH].
    - exact IH. }
  destruct (pat +:+ s) as [|c r] eqn:Heq; cbn [find_after]; rewrite <- Heq, prefix_app, Heq; by rewrite H.
Qed.

Lemma prefix_long pat s t : (String.length pat ≤ String.length s)%nat → String.prefix pat (s +:+ t) = String.prefix pat s.
Proof.
  revert s. induction pat as [|a pat IH]; intros s Hl; [by destruct s, t|].
  destruct s as [|b s]; cbn in Hl; [lia|]. cbn. destruct (Ascii.ascii_dec a b); [apply IH; lia|done].
Qed.

Lemma prefix_length pat s : String.prefix pat s = true → (String.length pat ≤ String.length s)%nat.
Proof. intros [t ->]%prefix_spec. induction pat; cbn; lia. Qed.

Lemma find_after_length pat s r : find_after pat s = Some r → (String.length pat ≤ String.length s)%nat.
Proof.
  induction s as [|a s IH]; cbn [find_after]; destruct (String.prefix pat _) eqn:Hp; try done; try (intros _; by apply prefix_length).
  intros H%IH. cbn. lia.
Qed.

(** A match in the beginning of the text. *)
Lemma find_after_app pat s t r : find_after pat s = Some r → find_after pat (s +:+ t) = Some (r +:+ t).
Proof.
  intros Hf. assert (Hl := find_after_length _ _ _ Hf). revert Hl Hf. induction s as [|a s IH]; intros Hl.
  - destruct pat; [|cbn in Hl; lia]. cbn [find_after]. intros [= <-]. exact (find_after_here "" t).
  - cbn [find_after]. destruct (String.prefix pat (String a s)) eqn:Hp.
    + intros Hf. apply prefix_spec in Hp as [u Hu]. assert (u = r) as ->.
      { assert (find_after pat (pat +:+ u) = Some r) as H; [|rewrite find_after_here in H; congruence].
        rewrite <- Hu. cbn [find_after]. rewrite Hu, prefix_app, <- Hu. exact Hf. }
      rewrite Hu, app_assoc_string. apply find_after_here.
    + intros Hf. change (String a s +:+ t) with (String a (s +:+ t)). cbn [find_after].
      change (String a (s +:+ t)) with (String a s +:+ t) at 1. rewrite prefix_long, Hp by done.
      apply IH; [|done]. by eapply find_after_length.
Qed.

(** Text that begins with a visible ASCII character. *)
Definition is_visible (a : Ascii.ascii) : bool := let n := Ascii.nat_of_ascii a in (33 <=? n)%nat && (n <? 128)%nat.

Lemma trim_start_visible a s : is_visible a = true → trim_start (String a s) = String a s.
Proof.
  unfold is_visible. intros [Hlo%Nat.leb_le Hhi%Nat.ltb_lt]%andb_prop. set (n := Ascii.nat_of_ascii a) in *. cbn [trim_start].
  unfold is_space. fold n. rewrite (proj2 (Nat.eqb_neq n 32)), (proj2 (Nat.leb_gt n 13)), andb_false_r by lia. simpl.
  destruct s as [|b [|c u]]; [done|..]; unfold is_space2, is_space3; fold n.
  - by rewrite (proj2 (Z.eqb_neq (Z.of_nat n) 0xC2)) by lia.
  - rewrite (proj2 (Z.eqb_neq (Z.of_nat n) 0xC2)) by lia. simpl. set (m := Ascii.nat_of_ascii b).
    assert (m < 256)%nat by apply Ascii.nat_ascii_bounded.
    by rewrite !(proj2 (Z.eqb_neq (Z.of_nat n * 256 + Z.of_nat m) _)) by lia.
Qed.

Lemma trim_start_digits s t : all_chars is_digit s = true → s ≠ "" → trim_start (s +:+ t) = s +:+ t.
Proof.
  destruct s as [|a s]; [done|]. cbn [all_chars]. intros [Ha _]%andb_prop _. apply trim_start_visible.
  revert Ha. destruct a as [[] [] [] [] [] [] [] []]; done.
Qed.
