(* ===== verification/Memfs.v ===== *)
(** * The in-memory file system

    [src/kernel/src/terminal/fs.rs]: inodes in a map, directories as maps from
    names to inode numbers.  The invariant says that the named entries form
    unique links: no two entries lead to one inode, none leads to the root, and
    none dangles.  So paths without dots name different files. *)

From stdpp Require Import gmap strings sorting.
From S2P Require Import Prelude.
From S2P Require Import Text.

(** ** The code *)

(** [FileMode]; the octal constants of the source in hexadecimal. *)
Definition DIR_755 : Z := 0x41ED.
Definition FILE_644 : Z := 0x81A4.
Definition FILE_755 : Z := 0x81ED.
Definition LINK_777 : Z := 0xA1FF.
Definition is_dir (mode : Z) : bool := Z.land mode 0xF000 =? 0x4000.
Definition is_file (mode : Z) : bool := Z.land mode 0xF000 =? 0x8000.
Definition is_symlink (mode : Z) : bool := Z.land mode 0xF000 =? 0xA000.

Definition display_bits (perms shift : Z) : string :=
  let bits := Z.land (Z.shiftr perms shift) 7 in
  (if Z.land bits 4 =? 0 then "-" else "r") +:+ (if Z.land bits 2 =? 0 then "-" else "w") +:+
  (if Z.land bits 1 =? 0 then "-" else "x").
Definition display (mode : Z) : string :=
  (if is_dir mode then "d" else if is_symlink mode then "l" else "-") +:+
  (let perms := Z.land mode 0x1FF in display_bits perms 6 +:+ display_bits perms 3 +:+ display_bits perms 0).

Inductive ProcFileKind : Type := CpuInfo | MemInfo | Uptime | Version | Mounts | Cmdline | Loadavg.

Inductive InodeContent : Type :=
| Directory (entries : gmap string Z)
| File (data : list Z)
| Symlink (target : string)
| ProcFile (kind : ProcFileKind).

Record Inode : Type := mkInode {
  ino : Z;
  mode : Z;
  uid : Z;
  gid : Z;
  size : Z;
  created : Z;
  modified : Z;
  nlink : Z;
  content : InodeContent;
}.

Record MemFs : Type := mkMemFs {
  inodes : gmap Z Inode;
  next_ino : Z;
  boot_ticks : Z;
}.

Inductive FsError : Type :=
| NotFound | AlreadyExists | NotADirectory | IsADirectory | DirectoryNotEmpty | InvalidName | ReadOnly
| InvalidOperation | PermissionDenied.

Definition as_str (e : FsError) : string :=
  match e with
  | NotFound => "No such file or directory"
  | AlreadyExists => "File exists"
  | NotADirectory => "Not a directory"
  | IsADirectory => "Is a directory"
  | DirectoryNotEmpty => "Directory not empty"
  | InvalidName => "Invalid file name"
  | ReadOnly => "Read-only file system"
  | InvalidOperation => "Invalid operation"
  | PermissionDenied => "Permission denied"
  end.

Abbreviation FsM := (M MemFs FsError).

Definition set_inodes (m : gmap Z Inode) (f : MemFs) : MemFs := mkMemFs m (next_ino f) (boot_ticks f).
Definition set_content (c : InodeContent) (sz : Z) (n : Inode) : Inode :=
  mkInode (ino n) (mode n) (uid n) (gid n) sz (created n) (modified n) (nlink n) c.
Definition set_nlink (k : Z) (n : Inode) : Inode :=
  mkInode (ino n) (mode n) (uid n) (gid n) (size n) (created n) (modified n) k (content n).

(** [if let Some(p) = get_mut(i) { .. entries changed by f .. }]. *)
Definition map_entries (f : gmap string Z → gmap string Z) (n : Inode) : Inode :=
  match content n with
  | Directory e => set_content (Directory (f e)) (size n) n
  | _ => n
  end.
Definition alter_node (f : Inode → Inode) (i : Z) (fs : MemFs) : MemFs := set_inodes (alter f i (inodes fs)) fs.

Definition dots (self parent : Z) : gmap string Z := <[".." := parent]> {["." := self]}.

Definition alloc_ino : FsM Z :=
  i ← gets next_ino;
  n ← add_or_panic 64 i 1;
  modify (λ f, mkMemFs (inodes f) n (boot_ticks f));;
  mret i.

Definition root_ino : Z := 1.

Definition fs_new : MemFs :=
  mkMemFs {[root_ino := mkInode root_ino DIR_755 0 0 0 0 0 2 (Directory (dots root_ino root_ino))]} 2 0.

(** *** Navigation *)

Definition lookup (dir_ino : Z) (name : string) (f : MemFs) : option Z :=
  dir ← inodes f !! dir_ino;
  match content dir with
  | Directory entries => entries !! name
  | _ => None
  end.

(** The loop over the components; empty ones are skipped. *)
Fixpoint walk (i : Z) (components : list string) (f : MemFs) : option Z :=
  match components with
  | [] => Some i
  | c :: cs =>
      if String.eqb c EmptyString then walk i cs f
      else j ← lookup i c f; walk j cs f
  end.

Fixpoint trim_start_matches (c : Ascii.ascii) (s : string) : string :=
  match s with
  | EmptyString => EmptyString
  | String a s' => if Ascii.eqb a c then trim_start_matches c s' else s
  end.

Definition resolve (path : string) (f : MemFs) : option Z :=
  let path := if String.eqb path EmptyString || String.eqb path "/" then "/" else path in
  if String.eqb path "/" then Some root_ino
  else walk root_ino (split "/" (trim_start_matches "/" path)) f.

Definition is_dot (name : string) : bool := String.eqb name "." || String.eqb name "..".

(** A [BTreeMap] is iterated in the order of its keys. *)
Definition key_le (x y : string * Z) : Prop := String.leb x.1 y.1 = true.
#[export] Instance key_le_dec : RelDecision key_le.
Proof. intros x y. unfold key_le. apply _. Defined.
Definition sorted_entries (e : gmap string Z) : list (string * Z) := merge_sort key_le (map_to_list e).
Definition readdir_all (i : Z) (f : MemFs) : option (list (string * Z)) :=
  dir ← inodes f !! i;
  match content dir with
  | Directory entries => Some (sorted_entries entries)
  | _ => None
  end.
Definition readdir (i : Z) (f : MemFs) : option (list (string * Z)) :=
  dir ← inodes f !! i;
  match content dir with
  | Directory entries => Some (filter (λ x, is_dot x.1 = false) (sorted_entries entries))
  | _ => None
  end.

(** *** Directories and files *)

Definition bad_name (name : string) : bool := negb (no_char "/" name) || is_dot name.

Definition mkdir (parent : Z) (name : string) : FsM Z :=
  if bad_name name then throw InvalidName
  else
    f ← get;
    p ← ok_or (inodes f !! parent) NotFound;
    match content p with
    | Directory e =>
        match e !! name with
        | Some _ => throw AlreadyExists
        | None =>
            child ← alloc_ino;
            let node := mkInode child DIR_755 0 0 0 0 0 2 (Directory (dots child parent)) in
            modify (λ f, set_inodes (<[child := node]> (inodes f)) f);;
            modify (alter_node (map_entries (insert name child)) parent);;
            f ← get;
            match inodes f !! parent with
            | None => mret child
            | Some p =>
                k ← add_or_panic 32 (nlink p) 1;
                modify (alter_node (set_nlink k) parent);;
                mret child
            end
        end
    | _ => throw NotADirectory
    end.

Definition create_file (parent : Z) (name : string) (data : list Z) : FsM Z :=
  if bad_name name then throw InvalidName
  else
    f ← get;
    p ← ok_or (inodes f !! parent) NotFound;
    match content p with
    | Directory e =>
        match e !! name with
        | Some existing =>
            match inodes f !! existing with
            | Some node =>
                if is_file (mode node)
                then modify (alter_node (set_content (File data) (len data)) existing);; mret existing
                else throw AlreadyExists
            | None => throw AlreadyExists
            end
        | None =>
            child ← alloc_ino;
            let node := mkInode child FILE_644 0 0 (len data) 0 0 1 (File data) in
            modify (λ f, set_inodes (<[child := node]> (inodes f)) f);;
            modify (alter_node (map_entries (insert name child)) parent);;
            mret child
        end
    | _ => throw NotADirectory
    end.

Definition write_file (i : Z) (data : list Z) : FsM unit :=
  f ← get;
  node ← ok_or (inodes f !! i) NotFound;
  match content node with
  | File _ => modify (alter_node (set_content (File data) (len data)) i)
  | ProcFile _ => throw ReadOnly
  | Directory _ => throw IsADirectory
  | Symlink _ => throw InvalidOperation
  end.

Definition append_file (i : Z) (data : list Z) : FsM unit :=
  f ← get;
  node ← ok_or (inodes f !! i) NotFound;
  match content node with
  | File buf => modify (alter_node (set_content (File (buf ++ data)) (len (buf ++ data))) i)
  | _ => throw InvalidOperation
  end.

Definition remove (parent : Z) (name : string) : FsM unit :=
  if is_dot name then throw InvalidName
  else
    f ← get;
    p ← ok_or (inodes f !! parent) NotFound;
    child_ino ← (match content p with
                 | Directory e => ok_or (e !! name) NotFound
                 | _ => throw NotADirectory
                 end);
    if match inodes f !! child_ino with
       | Some child => match content child with Directory e => 2 <? Z.of_nat (base.size e) | _ => false end
       | None => false
       end
    then throw DirectoryNotEmpty
    else
      modify (alter_node (map_entries (delete name)) parent);;
      f ← get;
      match inodes f !! child_ino with
      | None => mret tt
      | Some child =>
          let k := Z.max 0 (nlink child - 1) in
          modify (alter_node (set_nlink k) child_ino);;
          if k =? 0 then modify (λ f, set_inodes (delete child_ino (inodes f)) f) else mret tt
      end.

(** [let _ = ..]: the error is dropped. *)
Definition ignore {A} (m : FsM A) : FsM unit := λ f,
  match m f with
  | (Panic, f') => (Panic, f')
  | (_, f') => (Ok tt, f')
  end.

Definition rename (src_parent : Z) (src_name : string) (dst_parent : Z) (dst_name : string) : FsM unit :=
  f ← get;
  p ← ok_or (inodes f !! src_parent) NotFound;
  i ← (match content p with
       | Directory e => ok_or (e !! src_name) NotFound
       | _ => throw NotADirectory
       end);
  modify (alter_node (map_entries (delete src_name)) src_parent);;
  ignore (remove dst_parent dst_name);;
  modify (alter_node (map_entries (insert dst_name i)) dst_parent);;
  modify (alter_node (map_entries (insert ".." dst_parent)) i).

(** *** /proc and reading

    What the generated files ask the heap and the scheduler. *)
Record Env : Type := mkEnv {
  heap_total : Z;
  heap_free : Z;
  heap_used : Z;
  ticks : Z;
}.

Definition nl : string := String (Ascii.ascii_of_nat 10) EmptyString.
Definition tab : string := String (Ascii.ascii_of_nat 9) EmptyString.

(** [{:>8}] and [{:02}]. *)
Fixpoint fill_left (c : Ascii.ascii) (n : nat) (s : string) : string :=
  match n with O => s | S n => String c (fill_left c n s) end.
Definition pad (c : Ascii.ascii) (width : nat) (s : string) : string := fill_left c (width - String.length s) s.
Definition kb (n : Z) : string := pad " " 8 (decimal (n / 1024)) +:+ " kB" +:+ nl.

Definition generate_proc (env : Env) (kind : ProcFileKind) : string :=
  match kind with
  | CpuInfo =>
      "processor" +:+ tab +:+ ": 0" +:+ nl +:+
      "vendor_id" +:+ tab +:+ ": GenuineIntel" +:+ nl +:+
      "model name" +:+ tab +:+ ": KPIO Virtual CPU" +:+ nl +:+
      "cpu MHz" +:+ tab +:+ tab +:+ ": 2000.000" +:+ nl +:+
      "cache size" +:+ tab +:+ ": 4096 KB" +:+ nl +:+
      "flags" +:+ tab +:+ tab +:+ ": fpu sse sse2 sse3 ssse3 sse4_1 sse4_2" +:+ nl
  | MemInfo =>
      "MemTotal:       " +:+ kb (heap_total env) +:+
      "MemFree:        " +:+ kb (heap_free env) +:+
      "MemAvailable:   " +:+ kb (heap_free env) +:+
      "MemUsed:        " +:+ kb (heap_used env) +:+
      "Buffers:               0 kB" +:+ nl +:+
      "Cached:                0 kB" +:+ nl +:+
      "SwapTotal:             0 kB" +:+ nl +:+
      "SwapFree:              0 kB" +:+ nl
  | Uptime => decimal (ticks env / 100) +:+ "." +:+ pad "0" 2 (decimal (ticks env mod 100)) +:+ " 0.00" +:+ nl
  | Version => "KPIO version 1.0.0 (root@kpio) (rustc 1.82-nightly) #1 SMP PREEMPT_DYNAMIC" +:+ nl
  | Mounts => "ramfs / ramfs rw,relatime 0 0" +:+ nl +:+ "proc /proc proc rw,nosuid,nodev 0 0" +:+ nl
  | Cmdline => "BOOT_IMAGE=/boot/kpio root=/dev/ram0" +:+ nl
  | Loadavg => "0.00 0.00 0.00 1/32 42" +:+ nl
  end.

Definition read_file (env : Env) (i : Z) : FsM (list Z) :=
  f ← get;
  node ← ok_or (inodes f !! i) NotFound;
  match content node with
  | File data => mret data
  | ProcFile kind => mret (bytes_of (generate_proc env kind))
  | Directory _ => throw IsADirectory
  | Symlink _ => throw InvalidOperation
  end.

Definition copy_file (env : Env) (src_ino dst_parent : Z) (dst_name : string) : FsM Z :=
  data ← read_file env src_ino;
  create_file dst_parent dst_name data.

Definition tick (f : MemFs) : MemFs := mkMemFs (inodes f) (next_ino f) (boot_ticks f + 1).

(** The recursion of [tree_size] and [tree_count]: [None] is a recursion
    deeper than [fuel]. *)
Fixpoint tree_fold (on_file : list Z → Z) (other : Z) (fuel : nat) (f : MemFs) (i : Z) : option Z :=
  match fuel with
  | O => None
  | S fuel =>
      match inodes f !! i with
      | None => Some 0
      | Some node =>
          match content node with
          | File data => Some (on_file data)
          | Directory entries =>
              foldr (λ x acc, a ← tree_fold on_file other fuel f x.2; b ← acc; Some (a + b)) (Some 0)
                (filter (λ x, is_dot x.1 = false) (sorted_entries entries))
          | _ => Some other
          end
      end
  end.
Definition tree_size : nat → MemFs → Z → option Z := tree_fold len 0.
Definition tree_count : nat → MemFs → Z → option Z := tree_fold (λ _, 1) 1.

(** [path.rfind('/')]: what is before the last slash and what is after it. *)
Fixpoint rsplit_slash (s : string) : option (string * string) :=
  match s with
  | EmptyString => None
  | String a s' =>
      match rsplit_slash s' with
      | Some (p, n) => Some (String a p, n)
      | None => if Ascii.eqb a "/" then Some (EmptyString, s') else None
      end
  end.

Definition resolve_parent (path : string) (f : MemFs) : option (Z * string) :=
  let path := trim_end_matches "/" path in
  if String.eqb path EmptyString || String.eqb path "/" then None
  else
    '(before, name) ← rsplit_slash path;
    let parent_path := if String.eqb before EmptyString then "/" else before in
    if String.eqb name EmptyString then None
    else
      parent_ino ← resolve parent_path f;
      Some (parent_ino, name).

Definition create_proc_file (parent : Z) (name : string) (kind : ProcFileKind) : FsM unit :=
  i ← alloc_ino;
  modify (λ f, set_inodes (<[i := mkInode i 0x8124 0 0 0 0 0 1 (ProcFile kind)]> (inodes f)) f);;
  modify (alter_node (map_entries (insert name i)) parent).

(** [.unwrap()] of a result. *)
Definition unwrap_ok {A} (m : FsM A) : FsM A := λ f,
  match m f with
  | (Err _, f') => (Panic, f')
  | r => r
  end.
Definition dir (parent : Z) (name : string) : FsM Z := unwrap_ok (mkdir parent name).
Definition text (parent : Z) (name : string) (data : string) : FsM Z :=
  unwrap_ok (create_file parent name (bytes_of data)).

Definition populate_home (home : Z) : FsM unit :=
  home_root ← dir home "root";
  docs ← dir home_root "Documents";
  dir home_root "Downloads";;
  dir home_root "Pictures";;
  dir home_root "Music";;
  dir home_root "Videos";;
  dsk ← dir home_root "Desktop";
  text docs "readme.txt" ("Welcome to KPIO OS!" +:+ nl +:+ "This is a sample text file." +:+ nl);;
  text docs "notes.txt" ("TODO:" +:+ nl +:+ "- Implement more syscalls" +:+ nl +:+ "- Add network drivers" +:+ nl +:+
    "- Build browser engine" +:+ nl);;
  text dsk "hello.sh" ("#!/bin/sh" +:+ nl +:+ "echo " +:+ quote +:+ "Hello from KPIO!" +:+ quote +:+ nl);;
  text home_root ".bashrc" ("# KPIO Shell Configuration" +:+ nl +:+ "export PS1='\u@\h:\w$ '" +:+ nl +:+
    "alias ll='ls -la'" +:+ nl +:+ "alias la='ls -a'" +:+ nl);;
  text home_root ".profile" ("# KPIO Profile" +:+ nl +:+ "export PATH=/usr/bin:/bin:/sbin" +:+ nl +:+
    "export LANG=en_US.UTF-8" +:+ nl);;
  mret tt.

Definition populate_etc (etc : Z) : FsM unit :=
  text etc "passwd" ("root:x:0:0:root:/home/root:/bin/sh" +:+ nl +:+
    "nobody:x:65534:65534:nobody:/nonexistent:/usr/sbin/nologin" +:+ nl);;
  text etc "hostname" ("kpio" +:+ nl);;
  text etc "hosts" ("127.0.0.1" +:+ tab +:+ "localhost" +:+ nl +:+ "::1" +:+ tab +:+ tab +:+ "localhost" +:+ nl +:+
    "127.0.1.1" +:+ tab +:+ "kpio" +:+ nl);;
  text etc "os-release" ("NAME=" +:+ quote +:+ "KPIO OS" +:+ quote +:+ nl +:+ "VERSION=" +:+ quote +:+ "1.0.0" +:+ quote +:+
    nl +:+ "ID=kpio" +:+ nl +:+ "PRETTY_NAME=" +:+ quote +:+ "KPIO OS 1.0.0" +:+ quote +:+ nl);;
  text etc "fstab" ("# /etc/fstab: static file system information" +:+ nl +:+
    "ramfs" +:+ tab +:+ "/" +:+ tab +:+ "ramfs" +:+ tab +:+ "defaults" +:+ tab +:+ "0 0" +:+ nl);;
  etc_conf ← dir etc "config";
  text etc_conf "kernel.conf" ("# Kernel configuration" +:+ nl +:+ "loglevel=3" +:+ nl);;
  mret tt.

Definition populate_usr_var (usr var : Z) : FsM unit :=
  dir usr "bin";;
  dir usr "lib";;
  dir usr "share";;
  dir usr "local";;
  var_log ← dir var "log";
  dir var "cache";;
  dir var "run";;
  text var_log "syslog" ("[    0.000] KPIO kernel booting" +:+ nl +:+ "[    0.010] GDT initialized" +:+ nl +:+
    "[    0.020] IDT initialized" +:+ nl +:+ "[    0.050] Memory management ready" +:+ nl +:+
    "[    0.100] Scheduler started" +:+ nl);;
  text var_log "dmesg" ("[    0.000] KPIO 1.0.0 x86_64" +:+ nl +:+ "[    0.001] ACPI: RSDP search" +:+ nl +:+
    "[    0.010] PCI: Enumerating bus" +:+ nl +:+ "[    0.050] VirtIO: Block device detected" +:+ nl);;
  mret tt.

Definition populate_proc (proc_dir : Z) : FsM unit :=
  create_proc_file proc_dir "cpuinfo" CpuInfo;;
  create_proc_file proc_dir "meminfo" MemInfo;;
  create_proc_file proc_dir "uptime" Uptime;;
  create_proc_file proc_dir "version" Version;;
  create_proc_file proc_dir "mounts" Mounts;;
  create_proc_file proc_dir "cmdline" Cmdline;;
  create_proc_file proc_dir "loadavg" Loadavg.

Definition populate_defaults : FsM unit :=
  let root := root_ino in
  home ← dir root "home";
  etc ← dir root "etc";
  usr ← dir root "usr";
  var ← dir root "var";
  dir root "tmp";;
  dir root "bin";;
  dev ← dir root "dev";
  proc_dir ← dir root "proc";
  dir root "sbin";;
  dir root "opt";;
  boot ← dir root "boot";
  populate_home home;;
  populate_etc etc;;
  populate_usr_var usr var;;
  populate_proc proc_dir;;
  text dev "null" "";;
  text dev "zero" "";;
  text dev "random" "";;
  text dev "console" "";;
  text dev "tty0" "";;
  text boot "kpio-kernel" ("[binary: KPIO kernel image]" +:+ nl);;
  mret tt.

(** [init]: the file system the kernel starts with. *)
Definition init : outcome FsError MemFs :=
  match populate_defaults fs_new with
  | (Ok _, f) => Ok f
  | (Err e, _) => Err e
  | (Panic, _) => Panic
  end.

(** ** The invariant *)

Definition entries_of (n : Inode) : option (gmap string Z) :=
  match content n with Directory e => Some e | _ => None end.

(** The named entries: an entry other than [.] and [..]. *)
Definition link (f : MemFs) (d : Z) (name : string) (i : Z) : Prop :=
  lookup d name f = Some i ∧ is_dot name = false.

Record node_ok (next i : Z) (n : Inode) : Prop := {
  no_ino : 0 < i < next ∧ ino n = i;
  no_nlink : 0 ≤ nlink n ≤ next;
  no_dots : ∀ e, entries_of n = Some e → e !! "." = Some i ∧ is_Some (e !! "..");
  no_kind : match content n with Directory _ => is_dir (mode n) = true | File _ | ProcFile _ => is_file (mode n) = true | Symlink _ => True end;
  no_size : ∀ d, content n = File d → size n = len d;
}.

Definition root_dir (f : MemFs) : Prop := ∃ n e, inodes f !! root_ino = Some n ∧ content n = Directory e.

Record wf (f : MemFs) : Prop := {
  wf_root : root_dir f;
  wf_nodes : ∀ i n, inodes f !! i = Some n → node_ok (next_ino f) i n;
  wf_links : ∀ d name i, link f d name i → i ≠ root_ino ∧ is_Some (inodes f !! i);
  wf_unique : ∀ d name d' name' i, link f d name i → link f d' name' i → d = d' ∧ name = name';
}.

Lemma lookup_entries d name f :
  lookup d name f = (n ← inodes f !! d; e ← entries_of n; e !! name).
Proof. unfold lookup, entries_of. destruct (inodes f !! d) as [n|]; [|done]. simpl. by destruct (content n). Qed.

Lemma lookup_alter_node g i f d name :
  lookup d name (alter_node g i f) =
    if decide (d = i) then n ← inodes f !! i; e ← entries_of (g n); e !! name else lookup d name f.
Proof.
  rewrite !lookup_entries. unfold alter_node. simpl. case_decide as Hd.
  - subst. rewrite lookup_alter_eq. by destruct (inodes f !! i).
  - by rewrite lookup_alter_ne.
Qed.

Lemma entries_map g n : entries_of (map_entries g n) = g <$> entries_of n.
Proof. unfold entries_of, map_entries. destruct (content n) eqn:Hc; simpl; by rewrite ?Hc. Qed.

Lemma lookup_map_entries g i f d name :
  lookup d name (alter_node (map_entries g) i f) =
    if decide (d = i) then n ← inodes f !! i; e ← entries_of n; g e !! name else lookup d name f.
Proof.
  rewrite lookup_alter_node. case_decide; [|done]. destruct (inodes f !! i) as [n|]; [|done]. simpl.
  rewrite entries_map. by destruct (entries_of n).
Qed.

(** A function on a node that keeps its entries. *)
Lemma lookup_keep g i f d name :
  (∀ n, inodes f !! i = Some n → entries_of (g n) = entries_of n) → lookup d name (alter_node g i f) = lookup d name f.
Proof.
  intros Hg. rewrite lookup_alter_node. case_decide as Hd; [|done]. subst. rewrite lookup_entries.
  destruct (inodes f !! i) as [n|]; [|done]. simpl. by rewrite Hg.
Qed.

Lemma alter_node_Some g i f j : is_Some (inodes (alter_node g i f) !! j) ↔ is_Some (inodes f !! j).
Proof.
  unfold alter_node. simpl. destruct (decide (j = i)) as [->|Hne].
  - rewrite lookup_alter_eq. destruct (inodes f !! i); simpl; split; intros [? ?]; by eexists.
  - by rewrite lookup_alter_ne.
Qed.

Lemma alter_node_ok nx g i f :
  (∀ j n, inodes f !! j = Some n → node_ok nx j n) → (∀ n, inodes f !! i = Some n → node_ok nx i n → node_ok nx i (g n)) →
  ∀ j n, inodes (alter_node g i f) !! j = Some n → node_ok nx j n.
Proof.
  intros Hf Hg j n. unfold alter_node. simpl. destruct (decide (j = i)) as [->|Hne].
  - rewrite lookup_alter_eq. destruct (inodes f !! i) as [m|] eqn:Hm; [|done]. intros [= <-]. by apply Hg, Hf.
  - rewrite lookup_alter_ne by done. apply Hf.
Qed.

Lemma root_alter g i f :
  (∀ n e, content n = Directory e → ∃ e', content (g n) = Directory e') → root_dir f → root_dir (alter_node g i f).
Proof.
  intros Hg (n & e & Hn & He). unfold root_dir, alter_node. simpl. destruct (decide (root_ino = i)) as [<-|Hne].
  - rewrite lookup_alter_eq, Hn. destruct (Hg n e He) as [e' He']. by exists (g n), e'.
  - rewrite lookup_alter_ne by done. by exists n, e.
Qed.

Lemma map_entries_dir g n e : content n = Directory e → ∃ e', content (map_entries g n) = Directory e'.
Proof. intros He. unfold map_entries. rewrite He. by exists (g e). Qed.

Lemma set_nlink_dir k n e : content n = Directory e → ∃ e', content (set_nlink k n) = Directory e'.
Proof. intros He. by exists e. Qed.

Lemma node_ok_mono nx nx' i n : nx ≤ nx' → node_ok nx i n → node_ok nx' i n.
Proof. intros Hle [[? ?] ? ? ? ?]. split; try done; [split; [lia|done]|lia]. Qed.

Lemma node_ok_nlink nx i n k : 0 ≤ k ≤ nx → node_ok nx i n → node_ok nx i (set_nlink k n).
Proof. intros Hk []. by split. Qed.

(** Changing entries but not the two dots. *)
Lemma node_ok_entries nx i n g :
  (∀ e : gmap string Z, e !! "." = Some i → is_Some (e !! "..") → g e !! "." = Some i ∧ is_Some (g e !! "..")) →
  node_ok nx i n → node_ok nx i (map_entries g n).
Proof.
  intros Hg [H1 H2 H3 H4 H5]. unfold map_entries. destruct (content n) as [e| | |] eqn:Hc; try by split; rewrite ?Hc.
  split; simpl; try done. intros e' [= <-]. destruct (H3 e) as [? ?]; [unfold entries_of; by rewrite Hc|]. by apply Hg.
Qed.

Lemma node_ok_insert nx i n name j : is_dot name = false → node_ok nx i n → node_ok nx i (map_entries (insert name j) n).
Proof.
  intros [Hd1 Hd2]%orb_false_elim. apply node_ok_entries. intros e He [j' Hj].
  apply String.eqb_neq in Hd1, Hd2. rewrite !lookup_insert_ne by done. by rewrite Hj.
Qed.

Lemma node_ok_delete nx i n name : is_dot name = false → node_ok nx i n → node_ok nx i (map_entries (delete name) n).
Proof.
  intros [Hd1 Hd2]%orb_false_elim. apply node_ok_entries. intros e He [j' Hj].
  apply String.eqb_neq in Hd1, Hd2. rewrite !lookup_delete_ne by done. by rewrite Hj.
Qed.

Lemma node_ok_parent nx i n j : node_ok nx i n → node_ok nx i (map_entries (insert ".." j) n).
Proof.
  apply node_ok_entries. intros e He _. rewrite lookup_insert_ne by done. by rewrite lookup_insert_eq.
Qed.

(** The named entries are among the old ones, and maybe a new one that leads
    to an inode nothing led to. *)
Lemma wf_step f f' d0 name0 i0 :
  wf f →
  root_dir f' →
  (∀ i n, inodes f' !! i = Some n → node_ok (next_ino f') i n) →
  (∀ d name i, link f' d name i → link f d name i ∨ d = d0 ∧ name = name0 ∧ i = i0) →
  (∀ d name i, link f' d name i → is_Some (inodes f' !! i)) →
  (link f' d0 name0 i0 → i0 ≠ root_ino ∧ ∀ d name, link f' d name i0 → d = d0 ∧ name = name0) →
  wf f'.
Proof.
  intros Hwf Hroot Hnodes Hlinks Hex Hnew. split; [done|done| |].
  - intros d name i Hl. split; [|by eapply Hex]. destruct (Hlinks _ _ _ Hl) as [Hold|(-> & -> & ->)].
    + by apply (wf_links f Hwf) in Hold as [? _].
    + by apply Hnew.
  - intros d name d' name' i Hl Hl'. destruct (Hlinks _ _ _ Hl) as [Ho|(-> & -> & ->)].
    + destruct (Hlinks _ _ _ Hl') as [Ho'|(-> & -> & ->)]; [by eapply (wf_unique f Hwf)|].
      by apply Hnew.
    + destruct (Hnew Hl) as [_ Hu]. destruct (Hu _ _ Hl') as [-> ->]. done.
Qed.

(** *** The operations

    A successful operation keeps the invariant; a failed one changes nothing
    and is not a panic, as long as the counters have room. *)

Definition op_ok {A} (m : FsM A) (Q : A → MemFs → Prop) (f : MemFs) : Prop :=
  wp m (λ a f', wf f' ∧ Q a f') (λ e f', is_Some e ∧ f' = f) f.

(** Linking a new inode below [parent]. *)
Lemma wf_new_child f parent name node :
  wf f → let child := next_ino f in
  is_Some (lookup parent "." f) → lookup parent name f = None → is_dot name = false →
  node_ok (child + 1) child node → (∀ nm i, lookup child nm (mkMemFs {[child := node]} 0 0) = Some i → is_dot nm = true) →
  let f' := alter_node (map_entries (insert name child)) parent
              (set_inodes (<[child := node]> (inodes f)) (mkMemFs (inodes f) (child + 1) (boot_ticks f))) in
  wf f' ∧ (∀ d nm, lookup d nm f' = if decide (d = parent ∧ nm = name) then Some child else
                   if decide (d = child) then lookup child nm (mkMemFs {[child := node]} 0 0) else lookup d nm f) ∧
  inodes f' !! child = Some node.
Proof.
  intros Hwf child [i0 Hpar] Hnone Hdot Hnode Hleaf f'.
  assert (inodes f !! child = None) as Hfresh.
  { destruct (inodes f !! child) as [n|] eqn:Hn; [|done]. apply (wf_nodes f Hwf) in Hn as [[? _] _ _ _ _]. subst child. lia. }
  assert (parent ≠ child) as Hne.
  { intros ->. rewrite lookup_entries, Hfresh in Hpar. done. }
  assert (∀ d nm, lookup d nm f' = if decide (d = parent ∧ nm = name) then Some child else
                   if decide (d = child) then lookup child nm (mkMemFs {[child := node]} 0 0) else lookup d nm f) as Hlook.
  { intros d nm. unfold f'. rewrite lookup_map_entries. simpl. rewrite lookup_insert_ne by done.
    rewrite (lookup_entries parent) in Hpar. destruct (inodes f !! parent) as [p|] eqn:Hp; [|done]. simpl in *.
    destruct (entries_of p) as [e|] eqn:He; [|done]. simpl in *.
    destruct (decide (d = parent)) as [->|Hd].
    - destruct (decide (nm = name)) as [->|Hnm].
      + rewrite lookup_insert_eq, decide_True by done. done.
      + rewrite lookup_insert_ne by done. rewrite decide_False by tauto. rewrite decide_False by done.
        rewrite lookup_entries, Hp. simpl. by rewrite He.
    - rewrite (decide_False (P := d = parent ∧ nm = name)) by tauto. rewrite !lookup_entries. simpl.
      case_decide as Hc; [subst d; by rewrite lookup_insert_eq, lookup_singleton_eq|by rewrite lookup_insert_ne]. }
  assert (inodes f' !! child = Some node) as Hin.
  { unfold f', alter_node. simpl. rewrite lookup_alter_ne by done. apply lookup_insert_eq. }
  split; [|by split]. eapply (wf_step f f' parent name child); [done| | | | |].
  - apply root_alter; [apply map_entries_dir|]. destruct (wf_root f Hwf) as (n & e & Hn & He). exists n, e. split; [|done].
    simpl. rewrite lookup_insert_ne; [done|]. intros Heq. rewrite Heq in Hfresh. congruence.
  - apply alter_node_ok; simpl.
    + intros j n. destruct (decide (j = child)) as [->|Hj]; [rewrite lookup_insert_eq; by intros [= <-]|].
      rewrite lookup_insert_ne by done. intros Hn%(wf_nodes f Hwf). eapply node_ok_mono; [|done]. subst child. lia.
    + intros n _. by apply node_ok_insert.
  - intros d nm i [Hl Hnd]. rewrite Hlook in Hl. case_decide as Hc; [destruct Hc as [-> ->]; right; by simplify_eq|].
    case_decide as Hc2; [apply Hleaf in Hl; congruence|]. left. by split.
  - intros d nm i [Hl Hnd]. rewrite Hlook in Hl. case_decide as Hc; [simplify_eq; by eexists|].
    case_decide as Hc2; [apply Hleaf in Hl; congruence|].
    destruct (wf_links f Hwf d nm i (conj Hl Hnd)) as [_ Hex]. unfold f'. rewrite alter_node_Some. simpl.
    destruct (decide (i = child)) as [->|]; [rewrite lookup_insert_eq; by eexists|by rewrite lookup_insert_ne].
  - intros _. split; [intros Heq|].
    + destruct (wf_root f Hwf) as (n & e & Hn & _). rewrite <- Heq in Hn. congruence.
    + intros d nm [Hl Hnd]. rewrite Hlook in Hl. case_decide as Hc; [done|].
      case_decide as Hc2; [apply Hleaf in Hl; congruence|].
      destruct (wf_links f Hwf d nm child (conj Hl Hnd)) as [_ [? ?]]. congruence.
Qed.

(** What reading an inode gives. *)
Definition reading (env : Env) (f : MemFs) (i : Z) : outcome FsError (list Z) := (read_file env i f).1.

Lemma reading_File env f i n d : inodes f !! i = Some n → content n = File d → reading env f i = Ok d.
Proof. intros Hn Hc. unfold reading, read_file, mbind, M_bind, get. simpl. rewrite Hn. simpl. by rewrite Hc. Qed.

Lemma reading_ext env f f' j : inodes f !! j = inodes f' !! j → reading env f j = reading env f' j.
Proof.
  intros Heq. unfold reading, read_file, mbind, M_bind, get. simpl. rewrite Heq. destruct (inodes f' !! j) as [n|]; [|done].
  simpl. by destruct (content n).
Qed.

Lemma reading_alter env f g i j :
  (∀ n, inodes f !! i = Some n → ∃ e e', content n = Directory e ∧ content (g n) = Directory e') ∨ j ≠ i →
  reading env (alter_node g i f) j = reading env f j.
Proof.
  unfold reading, read_file, mbind, M_bind, get, alter_node. simpl. destruct (decide (j = i)) as [->|Hne].
  - intros [Hd|?]; [|done]. rewrite lookup_alter_eq. destruct (inodes f !! i) as [n|]; [|done]. simpl.
    destruct (Hd n eq_refl) as (e & e' & He & He'). by rewrite He, He'.
  - intros _. rewrite lookup_alter_ne by done. destruct (inodes f !! j) as [n|]; [|done]. simpl. by destruct (content n).
Qed.

Lemma reading_insert env f nx i node j :
  j ≠ i → reading env (set_inodes (<[i := node]> (inodes f)) (mkMemFs (inodes f) nx (boot_ticks f))) j = reading env f j.
Proof.
  intros Hne. apply reading_ext. simpl. by rewrite lookup_insert_ne.
Qed.

(** A parent that is a directory without the name. *)
Lemma parent_lookup f parent p e name :
  wf f → inodes f !! parent = Some p → content p = Directory e →
  is_Some (lookup parent "." f) ∧ lookup parent name f = e !! name.
Proof.
  intros Hwf Hp He. rewrite !lookup_entries, Hp. unfold entries_of. simpl. rewrite He. simpl. split; [|done].
  destruct (no_dots _ _ _ (wf_nodes f Hwf _ _ Hp) e) as [-> _]; [|by eexists]. unfold entries_of. by rewrite He.
Qed.

Lemma wf_keep f g i :
  wf f → (∀ n, node_ok (next_ino f) i n → node_ok (next_ino f) i (g n)) →
  (∀ n, inodes f !! i = Some n → entries_of (g n) = entries_of n) → wf (alter_node g i f).
Proof.
  intros Hwf Hok Hent. assert (∀ d nm, lookup d nm (alter_node g i f) = lookup d nm f) as Hl.
  { intros d nm. by apply lookup_keep. }
  eapply (wf_step f _ 0 "" 0); [done| | | | |].
  - destruct (wf_root f Hwf) as (n & e & Hn & He). unfold root_dir, alter_node. simpl.
    destruct (decide (root_ino = i)) as [<-|]; [|rewrite lookup_alter_ne by done; by exists n, e].
    rewrite lookup_alter_eq, Hn. specialize (Hent n Hn). unfold entries_of in Hent. rewrite He in Hent.
    destruct (content (g n)) as [e'| | |] eqn:Hc; try done. by exists (g n), e'.
  - simpl. apply alter_node_ok; [apply wf_nodes, Hwf|]. intros n _. apply Hok.
  - intros d nm j [Hj Hd]. left. split; [by rewrite Hl in Hj|done].
  - intros d nm j [Hj Hd]. rewrite Hl in Hj. rewrite alter_node_Some. by apply (wf_links f Hwf d nm).
  - intros [Hj Hd]. rewrite Hl in Hj. destruct (wf_links f Hwf 0 "" 0 (conj Hj Hd)) as [? [n Hn]].
    apply (wf_nodes f Hwf) in Hn as [[? _] _ _ _ _]. lia.
Qed.

Lemma wf_next f : wf f → 1 < next_ino f.
Proof. intros Hwf. destruct (wf_root f Hwf) as (n & e & Hn & _). apply (wf_nodes f Hwf) in Hn as [[? _] _ _ _ _]. unfold root_ino in *. lia. Qed.

Lemma wp_alloc_ino f Q X :
  next_ino f + 1 < 2 ^ 64 → Q (next_ino f) (mkMemFs (inodes f) (next_ino f + 1) (boot_ticks f)) → wp alloc_ino Q X f.
Proof. intros Hroom HQ. unfold alloc_ino. do 3 wp_step. apply wp_add; [done|]. by do 3 wp_step. Qed.

(** What [create_file] leaves behind. *)
Record made (env : Env) (f : MemFs) (parent : Z) (name : string) (data : list Z) (i : Z) (f' : MemFs) : Prop := {
  cr_entry : lookup parent name f' = Some i;
  cr_data : reading env f' i = Ok data;
  cr_lookup : ∀ d nm, ¬ (d = parent ∧ nm = name) → lookup d nm f' = lookup d nm f;
  cr_reading : ∀ j, j ≠ i → reading env f' j = reading env f j;
  cr_old : lookup parent name f = None ∧ i = next_ino f ∨ lookup parent name f = Some i;
  cr_next : next_ino f' ≤ next_ino f + 1;
}.

Lemma create_file_spec env parent name data f :
  wf f → next_ino f + 1 < 2 ^ 64 → op_ok (create_file parent name data) (made env f parent name data) f.
Proof.
  intros Hwf Hroom. unfold create_file. destruct (bad_name name) eqn:Hbad; [by apply wp_throw|].
  apply orb_false_elim in Hbad as [_ Hdot]. unfold op_ok. do 3 wp_step. apply wp_ok_or; [intros p Hp|intros Hp; by split].
  destruct (content p) as [e| | |] eqn:Hc; try by apply wp_throw.
  destruct (parent_lookup f parent p e name Hwf Hp Hc) as [Hdir Hname].
  destruct (e !! name) as [i|] eqn:Hi.
  - destruct (inodes f !! i) as [node|] eqn:Hn; [|by apply wp_throw]. destruct (is_file (mode node)) eqn:Hf; [|by apply wp_throw].
    do 3 wp_step. pose proof (wf_nodes f Hwf i node Hn) as Hok.
    assert (∀ n, inodes f !! i = Some n → entries_of (set_content (File data) (len data) n) = entries_of n) as Hkeep.
    { intros n Hn'. simplify_eq. unfold entries_of. simpl. destruct (content node) eqn:Hcn; try done.
      pose proof (no_kind _ _ _ Hok) as Hk. rewrite Hcn in Hk. unfold is_dir, is_file in *. apply Z.eqb_eq in Hk, Hf. congruence. }
    assert (∀ d nm, lookup d nm (alter_node (set_content (File data) (len data)) i f) = lookup d nm f) as Hl.
    { intros d nm. by apply lookup_keep. }
    split.
    + assert (alter_node (set_content (File data) (len data)) i f = alter_node (λ _, set_content (File data) (len data) node) i f) as ->.
      { unfold alter_node. f_equal. apply map_eq. intros j. destruct (decide (j = i)) as [->|]; [by rewrite !lookup_alter_eq, Hn|by rewrite !lookup_alter_ne]. }
      apply wf_keep; [done| |].
      * intros _ _. destruct Hok as [? ? ? ? ?]. split; simpl; try done. by intros d [= <-].
      * intros n Hn'. simplify_eq. by apply Hkeep.
    + split; [by rewrite Hl, Hname| | |intros j Hj; apply reading_alter; by right|by right|simpl; lia].
      * unfold reading, read_file, mbind, M_bind, get, alter_node. simpl. rewrite lookup_alter_eq, Hn. done.
      * intros d nm _. apply Hl.
  - wp_step. apply wp_alloc_ino; [done|]. do 5 wp_step.
    set (node := mkInode (next_ino f) FILE_644 0 0 (len data) 0 0 1 (File data)).
    destruct (wf_new_child f parent name node Hwf Hdir) as (Hwf' & Hl & Hin); [by rewrite Hname|done| | |].
    { pose proof (wf_next f Hwf). split; simpl; try done; [split; [lia|done]|lia|by intros d [= <-]]. }
    { intros nm j. rewrite lookup_entries. simpl. by rewrite lookup_singleton_eq. }
    split; [done|]. split.
    + by rewrite Hl, decide_True.
    + by eapply reading_File; [exact Hin|].
    + intros d nm Hne. rewrite Hl, decide_False by done. case_decide as Hd; [|done]. subst d. rewrite !lookup_entries. simpl.
      rewrite lookup_singleton_eq. destruct (inodes f !! next_ino f) as [n|] eqn:Hn; [|done].
      apply (wf_nodes f Hwf) in Hn as [[? _] _ _ _ _].  lia.
    + intros j Hj. rewrite reading_alter; [by apply (reading_insert env f)|]. left. simpl. intros n.
      assert (parent ≠ next_ino f) as Hpc. { intros Heq. apply (wf_nodes f Hwf) in Hp as [[? _] _ _ _ _].  lia. }
      rewrite lookup_insert_ne, Hp by done. intros [= <-]. exists e. destruct (map_entries_dir (insert name (next_ino f)) p e Hc) as [e' He'].
      by exists e'.
    + left. by rewrite Hname.
    + simpl. lia.
Qed.

(** The entries of a node are rewritten, the dots stay. *)
Lemma wf_entries f i g d0 name0 i0 :
  wf f → (∀ n, node_ok (next_ino f) i n → node_ok (next_ino f) i (map_entries g n)) →
  (∀ d name j, link (alter_node (map_entries g) i f) d name j → link f d name j ∨ d = d0 ∧ name = name0 ∧ j = i0) →
  (link (alter_node (map_entries g) i f) d0 name0 i0 →
    i0 ≠ root_ino ∧ is_Some (inodes f !! i0) ∧ ∀ d name, link (alter_node (map_entries g) i f) d name i0 → d = d0 ∧ name = name0) →
  wf (alter_node (map_entries g) i f).
Proof.
  intros Hwf Hok Hsub Hnew. eapply (wf_step f _ d0 name0 i0); [done| | |done| |].
  - apply root_alter; [apply map_entries_dir|apply Hwf].
  - simpl. apply alter_node_ok; [apply Hwf|]. intros n _. apply Hok.
  - intros d name j Hl. rewrite alter_node_Some. destruct (Hsub _ _ _ Hl) as [Ho|(-> & -> & ->)].
    + by apply (wf_links f Hwf) in Ho as [_ ?].
    + by apply Hnew.
  - intros Hl. by destruct (Hnew Hl) as (? & _ & ?).
Qed.

Lemma link_delete f parent name d nm j :
  link (alter_node (map_entries (delete name)) parent f) d nm j ↔ link f d nm j ∧ ¬ (d = parent ∧ nm = name).
Proof.
  unfold link. rewrite lookup_map_entries. case_decide as Hd.
  - subst. rewrite lookup_entries. destruct (inodes f !! parent) as [n|]; simpl; [|by split; [intros [? _]|intros [[? _] _]]].
    destruct (entries_of n) as [e|]; simpl; [|by split; [intros [? _]|intros [[? _] _]]].
    rewrite lookup_delete_Some. split; [intros [[? ?] ?]|intros [[? ?] ?]]; split_and!; try done; [by intros [_ ->]|].
    intros ->. tauto.
  - split; [intros [? ?]|intros [? _]]; [|done]. split; [done|]. tauto.
Qed.

Lemma wf_unlink f parent name : wf f → is_dot name = false → wf (alter_node (map_entries (delete name)) parent f).
Proof.
  intros Hwf Hdot. apply (wf_entries f parent _ 0 "" 0); [done| | |].
  - intros n. by apply node_ok_delete.
  - intros d nm j [Hl _]%link_delete. by left.
  - intros [Hl _]%link_delete. destruct (wf_links f Hwf _ _ _ Hl) as [? [n Hn]].
    apply (wf_nodes f Hwf) in Hn as [[? _] _ _ _ _]. lia.
Qed.

(** An inode nothing leads to, and that leads nowhere, can go. *)
Lemma wf_delete f i :
  wf f → i ≠ root_ino → (∀ d nm, ¬ link f d nm i) → wf (set_inodes (delete i (inodes f)) f).
Proof.
  intros Hwf Hi Hno.
  assert (∀ d nm j, link (set_inodes (delete i (inodes f)) f) d nm j → link f d nm j ∧ d ≠ i) as Hsub.
  { intros d nm j [Hl Hd]. unfold link. rewrite lookup_entries in Hl |- *. simpl in Hl.
    destruct (decide (d = i)) as [->|Hne]; [by rewrite lookup_delete_eq in Hl|]. rewrite lookup_delete_ne in Hl by done. done. }
  eapply (wf_step f _ 0 "" 0); [done| | | | |].
  - destruct (wf_root f Hwf) as (n & e & Hn & He). exists n, e. simpl. by rewrite lookup_delete_ne.
  - intros j n. simpl. rewrite lookup_delete_Some. intros [_ Hn]. by apply Hwf.
  - intros d nm j [Hl _]%Hsub. by left.
  - intros d nm j [Hl _]%Hsub. simpl. rewrite lookup_delete_ne; [by apply (wf_links f Hwf) in Hl as [_ ?]|].
    intros ->. by eapply Hno.
  - intros [Hl _]%Hsub. destruct (wf_links f Hwf _ _ _ Hl) as [? [n Hn]].
    apply (wf_nodes f Hwf) in Hn as [[? _] _ _ _ _]. lia.
Qed.

Lemma mkdir_spec parent name f :
  wf f → next_ino f + 1 < 2 ^ 32 →
  op_ok (mkdir parent name) (λ i f', i = next_ino f ∧ next_ino f' = next_ino f + 1 ∧ lookup parent name f' = Some i ∧
    (∀ nm, is_dot nm = false → lookup i nm f' = None) ∧
    ∀ d nm, ¬ (d = parent ∧ nm = name) → d ≠ i → lookup d nm f' = lookup d nm f) f.
Proof.
  intros Hwf Hroom. unfold mkdir. destruct (bad_name name) eqn:Hbad; [by apply wp_throw|].
  apply orb_false_elim in Hbad as [_ Hdot]. unfold op_ok. do 3 wp_step. apply wp_ok_or; [intros p Hp|intros Hp; by split].
  destruct (content p) as [e| | |] eqn:Hc; try by apply wp_throw.
  destruct (parent_lookup f parent p e name Hwf Hp Hc) as [Hdir Hname]. destruct (e !! name) as [i|] eqn:Hi; [by apply wp_throw|].
  wp_step. apply wp_alloc_ino; [lia|]. do 6 wp_step. set (node := mkInode (next_ino f) DIR_755 0 0 0 0 0 2 _).
  pose proof (wf_next f Hwf) as Hnx.
  assert (∀ nm j, lookup (next_ino f) nm (mkMemFs {[next_ino f := node]} 0 0) = Some j → is_dot nm = true) as Hdots.
  { intros nm j. rewrite lookup_entries. simpl. rewrite lookup_singleton_eq. simpl. unfold dots.
    rewrite lookup_insert_Some. unfold is_dot. intros [[<- _]|[_ Hs]]; [done|]. apply lookup_singleton_Some in Hs as [<- _]. done. }
  destruct (wf_new_child f parent name node Hwf Hdir) as (Hwf' & Hl & Hin); [by rewrite Hname|done| |exact Hdots|].
  { split; simpl; try done; [split; [lia|done]|lia|]. intros e' [= <-]. unfold dots. rewrite lookup_insert_ne by done.
    rewrite lookup_singleton_eq, lookup_insert_eq. split; [done|by eexists]. }
  set (f1 := alter_node _ _ _) in *.
  assert (inodes f1 !! parent = Some (map_entries (insert name (next_ino f)) p)) as Hp1.
  { unfold f1, alter_node. simpl. rewrite lookup_alter_eq, lookup_insert_ne; [by rewrite Hp|].
    intros Heq. apply (wf_nodes f Hwf) in Hp as [[? _] _ _ _ _]. lia. }
  rewrite Hp1. pose proof (no_nlink _ _ _ (wf_nodes f Hwf _ _ Hp)) as Hk.
  assert (nlink (map_entries (insert name (next_ino f)) p) = nlink p) as -> by (unfold map_entries; by rewrite Hc).
  wp_step. apply wp_add; [lia|]. do 3 wp_step.
  split.
  - apply wf_keep; [done| |done]. intros n. apply node_ok_nlink. change (next_ino f1) with (next_ino f + 1). lia.
  - assert (parent ≠ next_ino f) as Hpc. { intros Heq. apply (wf_nodes f Hwf) in Hp as [[? _] _ _ _ _]. lia. }
    split_and!; [done|done| | |].
    + rewrite lookup_keep by done. by rewrite Hl, decide_True.
    + intros nm Hnm. rewrite lookup_keep by done. rewrite Hl, decide_False, decide_True by (done || (intros [? _]; lia)).
      destruct (lookup (next_ino f) nm _) as [j|] eqn:Hj; [|done]. apply Hdots in Hj. congruence.
    + intros d nm Hne Hd. rewrite lookup_keep by done. by rewrite Hl, !decide_False.
Qed.

(** Replacing the bytes of a file. *)
Lemma wf_set_data env f i node old data :
  wf f → inodes f !! i = Some node → content node = File old →
  let f' := alter_node (set_content (File data) (len data)) i f in
  wf f' ∧ next_ino f' = next_ino f ∧ (∀ d nm, lookup d nm f' = lookup d nm f) ∧ reading env f' i = Ok data ∧
  ∀ j, j ≠ i → reading env f' j = reading env f j.
Proof.
  intros Hwf Hn Hc f'. pose proof (wf_nodes f Hwf _ _ Hn) as Hok.
  assert (∀ n, inodes f !! i = Some n → entries_of (set_content (File data) (len data) n) = entries_of n) as Hkeep.
  { intros n Hn'. simplify_eq. unfold entries_of. simpl. by rewrite Hc. }
  split_and!.
  - assert (f' = alter_node (λ _, set_content (File data) (len data) node) i f) as ->.
    { unfold f', alter_node. f_equal. apply map_eq. intros j.
      destruct (decide (j = i)) as [->|]; [by rewrite !lookup_alter_eq, Hn|by rewrite !lookup_alter_ne]. }
    apply wf_keep; [done| |].
    + intros _ _. destruct Hok as [? ? ? Hk ?]. rewrite Hc in Hk. split; simpl; try done. by intros d [= <-].
    + intros n Hn'. simplify_eq. by apply Hkeep.
  - done.
  - intros d nm. by apply lookup_keep.
  - eapply reading_File; [unfold f', alter_node; simpl; by rewrite lookup_alter_eq, Hn|done].
  - intros j Hj. apply reading_alter. by right.
Qed.

Lemma write_file_spec env i data f :
  wf f → op_ok (write_file i data) (λ _ f', next_ino f' = next_ino f ∧ (∀ d nm, lookup d nm f' = lookup d nm f) ∧ reading env f' i = Ok data ∧
    ∀ j, j ≠ i → reading env f' j = reading env f j) f.
Proof.
  intros Hwf. unfold write_file, op_ok. do 3 wp_step. apply wp_ok_or; [intros n Hn|intros Hn; by split].
  destruct (content n) eqn:Hc; try by apply wp_throw. wp_step. by eapply wf_set_data.
Qed.

Lemma append_file_spec env i data f :
  wf f → op_ok (append_file i data) (λ _ f', next_ino f' = next_ino f ∧ (∀ d nm, lookup d nm f' = lookup d nm f) ∧
    (∃ old, reading env f i = Ok old ∧ reading env f' i = Ok (old ++ data)) ∧
    ∀ j, j ≠ i → reading env f' j = reading env f j) f.
Proof.
  intros Hwf. unfold append_file, op_ok. do 3 wp_step. apply wp_ok_or; [intros n Hn|intros Hn; by split].
  destruct (content n) as [|old| |] eqn:Hc; try by apply wp_throw. wp_step.
  destruct (wf_set_data env f i n old (old ++ data) Hwf Hn Hc) as (? & ? & ? & ? & ?). split_and!; try done.
  exists old. split; [by eapply reading_File|done].
Qed.

(** A directory with at most two entries has no named one. *)
Lemma small_directory (e : gmap string Z) i nm j :
  e !! "." = Some i → is_Some (e !! "..") → Z.of_nat (base.size e) ≤ 2 → e !! nm = Some j → is_dot nm = true.
Proof.
  intros H1 [k H2] Hs Hn. unfold is_dot. destruct (String.eqb_spec nm "."); [done|]. destruct (String.eqb_spec nm ".."); [done|].
  exfalso. rewrite <- (insert_delete_id e "." i H1) in Hs. rewrite map_size_insert_None in Hs by apply lookup_delete_eq.
  assert (delete "." e !! ".." = Some k) as H3 by (by rewrite lookup_delete_ne).
  rewrite <- (insert_delete_id _ ".." k H3) in Hs. rewrite map_size_insert_None in Hs by apply lookup_delete_eq.
  assert (delete ".." (delete "." e) !! nm = Some j) as H4 by (by rewrite !lookup_delete_ne).
  rewrite <- (insert_delete_id _ nm j H4) in Hs. rewrite map_size_insert_None in Hs by apply lookup_delete_eq. lia.
Qed.

Lemma remove_spec env parent name f :
  wf f →
  op_ok (remove parent name) (λ _ f', ∃ i, link f parent name i ∧ lookup parent name f' = None ∧ next_ino f' = next_ino f ∧
    (∀ d nm, ¬ (d = parent ∧ nm = name) → is_dot nm = false → lookup d nm f' = lookup d nm f) ∧
    (∀ j, j ≠ i → reading env f' j = reading env f j ∧ (is_Some (inodes f !! j) → is_Some (inodes f' !! j)))) f.
Proof.
  intros Hwf. unfold remove. destruct (is_dot name) eqn:Hdot; [by apply wp_throw|].
  unfold op_ok. do 3 wp_step. apply wp_ok_or; [intros p Hp|intros Hp; by split]. wp_step.
  destruct (content p) as [e| | |] eqn:Hc; try by apply wp_throw. apply wp_ok_or; [intros i Hi|intros Hi; by split].
  destruct (parent_lookup f parent p e name Hwf Hp Hc) as [_ Hname]. rewrite Hi in Hname.
  assert (link f parent name i) as Hlink by by split. destruct (wf_links f Hwf _ _ _ Hlink) as [Hroot [c Hch]].
  rewrite Hch. destruct (match content c with Directory e0 => _ | _ => _ end) eqn:Hempty; [by apply wp_throw|].
  set (f1 := alter_node (map_entries (delete name)) parent f).
  assert (wf f1) as Hwf1 by by apply wf_unlink.
  assert (∀ d nm, lookup d nm f1 = if decide (d = parent ∧ nm = name) then None else lookup d nm f) as Hl1.
  { intros d nm. unfold f1. rewrite lookup_map_entries. case_decide as Hd; [subst|by rewrite decide_False by tauto].
    rewrite lookup_entries, Hp. simpl. unfold entries_of. rewrite Hc. simpl.
    destruct (decide (nm = name)) as [->|]; [by rewrite lookup_delete_eq, decide_True|].
    rewrite lookup_delete_ne by done. by rewrite decide_False by tauto. }
  assert (∀ d nm, ¬ link f1 d nm i) as Hun.
  { intros d nm [Hl Hno]%link_delete. destruct (wf_unique f Hwf _ _ _ _ _ Hl Hlink) as [-> ->]. tauto. }
  assert (∀ nm j, lookup i nm f1 = Some j → is_dot nm = true) as Hleaf.
  { intros nm j. rewrite Hl1. case_decide; [done|]. rewrite lookup_entries, Hch. simpl. unfold entries_of.
    destruct (content c) as [e0| | |] eqn:Hcc; try done. simpl. apply Z.ltb_ge in Hempty.
    destruct (no_dots _ _ _ (wf_nodes f Hwf _ _ Hch) e0) as [Hd1 Hd2]; [unfold entries_of; by rewrite Hcc|].
    by eapply small_directory. }
  assert (∀ j, reading env f1 j = reading env f j) as Hr1.
  { intros j. apply reading_alter. left. intros n Hn. assert (n = p) as -> by congruence.
    exists e. destruct (map_entries_dir (delete name) p e Hc) as [e' He']. by exists e'. }
  do 4 wp_step. fold f1. assert (is_Some (inodes f1 !! i)) as [c1 Hc1] by (apply alter_node_Some; by eexists).
  rewrite Hc1. pose proof (no_nlink _ _ _ (wf_nodes f1 Hwf1 _ _ Hc1)) as Hk.
  set (k := Z.max 0 (nlink c1 - 1)). do 2 wp_step. set (f2 := alter_node (set_nlink k) i f1).
  assert (wf f2) as Hwf2.
  { apply wf_keep; [done| |done]. intros n. apply node_ok_nlink. subst k. lia. }
  assert (∀ d nm, lookup d nm f2 = lookup d nm f1) as Hl2 by (intros; by apply lookup_keep).
  assert (∀ d nm, ¬ (d = parent ∧ nm = name) → lookup d nm f2 = lookup d nm f) as Hl3.
  { intros d nm Hne. by rewrite Hl2, Hl1, decide_False. }
  assert (lookup parent name f2 = None) as Hnone by (by rewrite Hl2, Hl1, decide_True).
  assert (∀ j, j ≠ i → reading env f2 j = reading env f j) as Hr2.
  { intros j Hj. unfold f2. rewrite reading_alter by (by right). apply Hr1. }
  assert (∀ j, is_Some (inodes f !! j) → is_Some (inodes f2 !! j)) as Hex.
  { intros j Hj. unfold f2, f1. by rewrite !alter_node_Some. }
  destruct (k =? 0); wp_step.
  2: { split; [done|]. exists i. split_and!; [done|done|done|intros d nm Hne _; by apply Hl3|]. intros j Hj. split; [by apply Hr2|apply Hex]. }
  assert (∀ d nm, d ≠ i → lookup d nm (set_inodes (delete i (inodes f2)) f2) = lookup d nm f2) as Hl4.
  { intros d nm Hd. rewrite !lookup_entries. simpl. by rewrite lookup_delete_ne. }
  assert (∀ nm, lookup i nm (set_inodes (delete i (inodes f2)) f2) = None) as Hl5.
  { intros nm. rewrite lookup_entries. simpl. by rewrite lookup_delete_eq. }
  split; [apply wf_delete; [done|done|]|exists i; split_and!; [done| |done| |]].
  - intros d nm [Hl Hd]. rewrite Hl2 in Hl. by eapply (Hun d nm).
  - destruct (decide (parent = i)) as [Heq|]; [rewrite Heq; apply Hl5|by rewrite Hl4].
  - intros d nm Hne Hd. destruct (decide (d = i)) as [->|]; [|by rewrite Hl4, Hl3].
    rewrite Hl5. symmetry. rewrite <- Hl3, Hl2 by done. destruct (lookup i nm f1) eqn:Hx; [|done].
    apply Hleaf in Hx. congruence.
  - intros j Hj. split.
    + rewrite <- Hr2 by done. apply reading_ext. simpl. by rewrite lookup_delete_ne.
    + intros Hs%Hex. simpl. by rewrite lookup_delete_ne.
Qed.

Lemma wp_ignore {A} (m : FsM A) Q X f :
  wp m (λ _ f', Q tt f') (λ e f', match e with Some _ => Q tt f' | None => X None f' end) f → wp (ignore m) Q X f.
Proof. unfold wp, ignore. by destruct (m f) as [[a|e|] f']. Qed.

Lemma link_insert f d0 name0 i d nm j :
  is_dot name0 = false →
  link (alter_node (map_entries (insert name0 i)) d0 f) d nm j → link f d nm j ∨ d = d0 ∧ nm = name0 ∧ j = i.
Proof.
  intros Hdot [Hl Hd]. unfold link. rewrite lookup_map_entries in Hl. case_decide as Hdd; [|by left]. subst d.
  rewrite lookup_entries. destruct (inodes f !! d0) as [n|]; [|done]. simpl in *. destruct (entries_of n) as [e|]; [|done].
  simpl in *. apply lookup_insert_Some in Hl as [[-> ->]|[_ ?]]; [by right|by left].
Qed.

(** Moving an entry; the names may not be the dots. *)
Lemma rename_spec src_parent src_name dst_parent dst_name f :
  wf f → is_dot src_name = false → is_dot dst_name = false →
  op_ok (rename src_parent src_name dst_parent dst_name) (λ _ f', next_ino f' = next_ino f) f.
Proof.
  intros Hwf Hs Hd. unfold rename, op_ok. do 3 wp_step. apply wp_ok_or; [intros p Hp|intros Hp; by split]. wp_step.
  destruct (content p) as [e| | |] eqn:Hc; try by apply wp_throw. apply wp_ok_or; [intros i Hi|intros Hi; by split].
  destruct (parent_lookup f src_parent p e src_name Hwf Hp Hc) as [_ Hname]. rewrite Hi in Hname.
  assert (link f src_parent src_name i) as Hlink by by split. destruct (wf_links f Hwf _ _ _ Hlink) as [Hroot Hex].
  do 3 wp_step. set (f1 := alter_node (map_entries (delete src_name)) src_parent f).
  assert (wf f1) as Hwf1 by by apply wf_unlink.
  assert (∀ d nm, ¬ link f1 d nm i) as Hun.
  { intros d nm [Hl Hno]%link_delete. destruct (wf_unique f Hwf _ _ _ _ _ Hl Hlink) as [-> ->]. tauto. }
  assert (is_Some (inodes f1 !! i)) as Hex1 by by apply alter_node_Some.
  assert (∀ f2, wf f2 → next_ino f2 = next_ino f → is_Some (inodes f2 !! i) → (∀ d nm, ¬ link f2 d nm i) →
    wp (modify (alter_node (map_entries (insert dst_name i)) dst_parent);;
        modify (alter_node (map_entries (insert ".." dst_parent)) i))
      (λ _ f', wf f' ∧ next_ino f' = next_ino f) (λ (e : option FsError) f', is_Some e ∧ f' = f) f2) as Hrest.
  { intros f2 Hwf2 Hn2 Hex2 Hun2. do 3 wp_step. set (f3 := alter_node (map_entries (insert dst_name i)) dst_parent f2).
    assert (wf f3) as Hwf3.
    { apply (wf_entries f2 dst_parent _ dst_parent dst_name i); [done|intros n; by apply node_ok_insert| |].
      - intros d nm j. by apply link_insert.
      - intros _. split_and!; [done|done|]. intros d nm [Hl|(-> & -> & _)]%link_insert; [by apply Hun2 in Hl|done|done]. }
    split; [|done].
    assert (∀ d nm j, link (alter_node (map_entries (insert ".." dst_parent)) i f3) d nm j → link f3 d nm j) as Hsub.
    { intros d nm j [Hl Hnd]. unfold link. rewrite lookup_map_entries in Hl. case_decide; [|done]. subst d.
      rewrite lookup_entries. destruct (inodes f3 !! i) as [n|]; [|done]. simpl in *. destruct (entries_of n); [|done]. simpl in *.
      rewrite lookup_insert_ne in Hl; [done|]. by intros <-. }
    apply (wf_entries f3 i _ 0 "" 0); [done|intros n; apply node_ok_parent|intros d nm j Hl; left; by apply Hsub|].
    intros Hl%Hsub. destruct (wf_links f3 Hwf3 _ _ _ Hl) as [? [n Hn]]. apply (wf_nodes f3 Hwf3) in Hn as [[? _] _ _ _ _]. lia. }
  apply wp_ignore. eapply wp_mono; [apply (remove_spec (mkEnv 0 0 0 0) dst_parent dst_name f1 Hwf1)| |].
  - intros [] f2 (Hwf2 & j & Hlj & Hn & Hnx & Hl & Hr). apply Hrest; [done|by rewrite Hnx| |].
    + apply Hr; [|done]. intros ->. by apply Hun in Hlj.
    + intros d nm [Hl2 Hnd]. destruct (decide (d = dst_parent ∧ nm = dst_name)) as [[-> ->]|Hne]; [congruence|].
      rewrite Hl in Hl2 by done. by apply (Hun d nm).
  - intros [e'|] f2 [? ->]; [by apply Hrest|by destruct H].
Qed.

(** *** Histories *)

Inductive fs_call : Type :=
| CMkdir (parent : Z) (name : string)
| CCreate (parent : Z) (name : string) (data : list Z)
| CWrite (i : Z) (data : list Z)
| CAppend (i : Z) (data : list Z)
| CRemove (parent : Z) (name : string)
| CRename (src_parent : Z) (src_name : string) (dst_parent : Z) (dst_name : string)
| CCopy (src dst_parent : Z) (dst_name : string).

Definition fs_run (env : Env) (c : fs_call) (f : MemFs) : outcome FsError unit * MemFs :=
  let skip {A} (m : FsM A) : FsM unit := m;; mret tt in
  match c with
  | CMkdir parent name => skip (mkdir parent name) f
  | CCreate parent name data => skip (create_file parent name data) f
  | CWrite i data => skip (write_file i data) f
  | CAppend i data => skip (append_file i data) f
  | CRemove parent name => skip (remove parent name) f
  | CRename sp sn dp dn => skip (rename sp sn dp dn) f
  | CCopy src dp dn => skip (copy_file env src dp dn) f
  end.

Fixpoint fs_runs (env : Env) (cs : list fs_call) (f : MemFs) : list (outcome FsError unit) * MemFs :=
  match cs with
  | [] => ([], f)
  | c :: cs =>
      let '(r, f1) := fs_run env c f in
      let '(rs, f2) := fs_runs env cs f1 in
      (r :: rs, f2)
  end.

(** [rename] does not check its names. *)
Definition call_ok (c : fs_call) : Prop :=
  match c with
  | CRename _ sn _ dn => is_dot sn = false ∧ is_dot dn = false
  | _ => True
  end.


Lemma run_ok {A} (m : FsM A) Q f :
  wf f → op_ok m Q f → (∀ a f', Q a f' → next_ino f' ≤ next_ino f + 1) →
  ((m;; mret tt) f).1 ≠ Panic ∧ wf ((m;; mret tt) f).2 ∧ next_ino ((m;; mret tt) f).2 ≤ next_ino f + 1.
Proof.
  intros Hwf Hm HQ. unfold op_ok, wp in Hm. unfold mbind, M_bind. destruct (m f) as [[a|e|] f']; simpl.
  - destruct Hm as [? ?%HQ]. done.
  - destruct Hm as [_ ->]. split_and!; [done|done|lia].
  - by destruct Hm as [[? ?] _].
Qed.

Lemma fs_run_ok env c f :
  wf f → call_ok c → next_ino f + 1 < 2 ^ 32 →
  (fs_run env c f).1 ≠ Panic ∧ wf (fs_run env c f).2 ∧ next_ino (fs_run env c f).2 ≤ next_ino f + 1.
Proof.
  intros Hwf Hc Hroom. assert (next_ino f + 1 < 2 ^ 64) as Hroom' by lia. destruct c; simpl.
  - eapply run_ok; [done|by apply mkdir_spec|]. intros a f' (_ & -> & _). lia.
  - eapply run_ok; [done|by apply (create_file_spec env)|]. intros a f' []. lia.
  - eapply run_ok; [done|by apply (write_file_spec env)|]. intros a f' (-> & _). lia.
  - eapply run_ok; [done|by apply (append_file_spec env)|]. intros a f' (-> & _). lia.
  - eapply run_ok; [done|by apply (remove_spec env)|]. intros a f' (i & _ & _ & -> & _). lia.
  - destruct Hc. eapply run_ok; [done|by apply rename_spec|]. intros a f' ->. lia.
  - eapply run_ok; [done| |].
    + unfold copy_file, op_ok, read_file. do 4 wp_step. apply wp_ok_or; [intros n Hn|intros Hn; by split].
      destruct (content n) as [| | |kind]; try by apply wp_throw; by split.
      all: wp_step; eapply wp_mono; [by apply (create_file_spec env)| |by intros].
      all: intros a f' [? Hm]; split; [done|]; exact (cr_next _ _ _ _ _ _ _ Hm).
    + done.
Qed.

(** *** The file system of [init]

    A check of the invariant that computes. *)

Definition node_links (d : Z) (n : Inode) : list (Z * string * Z) :=
  match entries_of n with
  | Some e => (λ x, (d, x.1, x.2)) <$> filter (λ x, is_dot x.1 = false) (map_to_list e)
  | None => []
  end.
Definition all_links (f : MemFs) : list (Z * string * Z) := map_to_list (inodes f) ≫= λ x, node_links x.1 x.2.

Definition node_okb (next i : Z) (n : Inode) : bool :=
  (0 <? i) && (i <? next) && (ino n =? i) && (0 <=? nlink n) && (nlink n <=? next) &&
  match content n with
  | Directory e => is_dir (mode n) && bool_decide (e !! "." = Some i) && bool_decide (is_Some (e !! ".."))
  | File d => is_file (mode n) && (size n =? len d)
  | ProcFile _ => is_file (mode n)
  | Symlink _ => true
  end.

Definition wfb (f : MemFs) : bool :=
  match inodes f !! root_ino with Some n => match content n with Directory _ => true | _ => false end | None => false end &&
  forallb (λ x, node_okb (next_ino f) x.1 x.2) (map_to_list (inodes f)) &&
  forallb (λ x, negb (x.2 =? root_ino) && bool_decide (is_Some (inodes f !! x.2))) (all_links f) &&
  bool_decide (NoDup ((λ x, x.2) <$> all_links f)).

Lemma node_okb_ok next i n : node_okb next i n = true → node_ok next i n.
Proof.
  unfold node_okb. rewrite !andb_true_iff, !Z.ltb_lt, !Z.leb_le, Z.eqb_eq. intros [[[[[? ?] ?] ?] ?] Hc].
  split; [done|done| | |].
  - intros e. unfold entries_of. destruct (content n); [|done..]. intros [= <-]. rewrite !andb_true_iff, !bool_decide_eq_true in Hc. tauto.
  - destruct (content n); rewrite ?andb_true_iff in Hc; tauto.
  - intros d Hd. rewrite Hd, andb_true_iff, Z.eqb_eq in Hc. tauto.
Qed.

Lemma all_links_spec f d nm i : link f d nm i → (d, nm, i) ∈ all_links f.
Proof.
  intros [Hl Hd]. rewrite lookup_entries in Hl. destruct (inodes f !! d) as [n|] eqn:Hn; [|done]. simpl in Hl.
  destruct (entries_of n) as [e|] eqn:He; [|done]. simpl in Hl. unfold all_links. apply list_elem_of_bind. exists (d, n).
  split; [|by apply elem_of_map_to_list]. unfold node_links. simpl. rewrite He. apply list_elem_of_fmap. exists (nm, i).
  split; [done|]. apply list_elem_of_filter. split; [done|by apply elem_of_map_to_list].
Qed.

Lemma wfb_wf f : wfb f = true → wf f.
Proof.
  unfold wfb. rewrite !andb_true_iff, !forallb_forall, bool_decide_eq_true. intros [[[Hr Hn] Hl] Hu]. split.
  - unfold root_dir. destruct (inodes f !! root_ino) as [n|]; [|done]. destruct (content n) eqn:Hc; try done. by exists n, entries.
  - intros i n Hi. apply node_okb_ok. apply (Hn (i, n)). by apply list_elem_of_In, elem_of_map_to_list.
  - intros d nm i Hi%all_links_spec. apply list_elem_of_In, Hl in Hi. apply andb_prop in Hi as [H1 H2]. simpl in *.
    apply negb_true_iff, Z.eqb_neq in H1. by apply bool_decide_eq_true in H2.
  - intros d nm d' nm' i [a Ha]%all_links_spec%list_elem_of_lookup [b Hb]%all_links_spec%list_elem_of_lookup.
    assert (a = b) as ->; [|by simplify_eq].
    eapply NoDup_lookup; [exact Hu|by rewrite list_lookup_fmap, Ha|by rewrite list_lookup_fmap, Hb].
Qed.

Definition init_fs : MemFs := match init with Ok f => f | _ => fs_new end.

Lemma init_ok : init = Ok init_fs ∧ wf init_fs ∧ next_ino init_fs = 54.
Proof. split_and!; [by vm_compute|apply wfb_wf; by vm_compute|by vm_compute]. Qed.

Lemma fs_runs_ok env cs : ∀ f,
  wf f → Forall call_ok cs → next_ino f + len cs < 2 ^ 32 →
  (Panic ∉ (fs_runs env cs f).1) ∧ wf (fs_runs env cs f).2.
Proof.
  induction cs as [|c cs IH]; intros f Hwf Hok Hroom; simpl; [split; [by intros ?%not_elem_of_nil|done]|].
  apply Forall_cons in Hok as [Hc Hok]. rewrite len_cons in Hroom. pose proof (len_nonneg cs).
  destruct (fs_run_ok env c f Hwf Hc ltac:(lia)) as (Hp & Hwf' & Hn). destruct (fs_run env c f) as [r f1]. simpl in *.
  destruct (IH f1 Hwf' Hok ltac:(lia)) as [Hp' Hwf2]. destruct (fs_runs env cs f1) as [rs f2]. simpl in *.
  split; [|done]. intros [?|?]%elem_of_cons; congruence.
Qed.

(** *** Paths *)

(** Components that are names. *)
Definition plain (cs : list string) : Prop := Forall (λ c, c ≠ "" ∧ is_dot c = false) cs.

Lemma walk_snoc i cs c f : c ≠ "" → walk i (cs ++ [c]) f = (j ← walk i cs f; lookup j c f).
Proof.
  intros Hc. revert i. induction cs as [|x cs IH]; intros i; simpl.
  - rewrite (proj2 (String.eqb_neq c "") Hc). destruct (lookup i c f); done.
  - destruct (String.eqb x ""); [apply IH|]. destruct (lookup i x f); [apply IH|done].
Qed.

Lemma walk_link f cs c j :
  plain (cs ++ [c]) → walk root_ino (cs ++ [c]) f = Some j → ∃ d, walk root_ino cs f = Some d ∧ link f d c j.
Proof.
  intros [_ [[Hc Hd] _]%Forall_cons]%Forall_app Hw. rewrite walk_snoc in Hw by done.
  destruct (walk root_ino cs f) as [d|]; [|done]. by exists d.
Qed.

(** Different paths without dots lead to different inodes. *)
Lemma walk_inj f : wf f → ∀ p q i, plain p → plain q → walk root_ino p f = Some i → walk root_ino q f = Some i → p = q.
Proof.
  intros Hwf p. induction p as [|c p IH] using rev_ind; intros q i Hp Hq Hwp Hwq.
  - destruct q as [|c q _] using rev_ind; [done|]. apply walk_link in Hwq as (d & _ & Hl); [|done].
    apply (wf_links f Hwf) in Hl as [Hne _]. by injection Hwp.
  - apply walk_link in Hwp as (d & Hd & Hl); [|done]. destruct q as [|c' q _] using rev_ind.
    + apply (wf_links f Hwf) in Hl as [Hne _]. by injection Hwq.
    + apply walk_link in Hwq as (d' & Hd' & Hl'); [|done]. destruct (wf_unique f Hwf _ _ _ _ _ Hl Hl') as [<- <-].
      apply Forall_app in Hp as [Hp _], Hq as [Hq _]. by rewrite (IH q d).
Qed.

(** C35. The names of the file system stay unambiguous: from the file system the
    kernel boots with, any sequence of calls (successful or not; a rename
    between proper names) gives no panic and keeps every entry leading to an
    inode that exists, never to the root, and no two entries leading to the
    same inode, so two different paths without dots never name one file. *)
Theorem memfs_invariant env cs :
  Forall call_ok cs → 54 + len cs < 2 ^ 32 →
  let '(rs, f) := fs_runs env cs init_fs in
  (Panic ∉ rs) ∧ wf f ∧
  ∀ p q i, plain p → plain q → walk root_ino p f = Some i → walk root_ino q f = Some i → p = q.
Proof.
  intros Hok Hlen. destruct init_ok as (_ & Hwf & Hn).
  destruct (fs_runs_ok env cs init_fs Hwf Hok ltac:(lia)) as [Hp Hwf']. destruct (fs_runs env cs init_fs) as [rs f].
  split_and!; [done|done|by apply walk_inj].
Qed.

Definition demo_env : Env := mkEnv 0 0 0 0.
Definition demo_fs_calls : list fs_call :=
  [CMkdir 1 "a"; CCreate 54 "x" [1; 2]; CRename 54 "x" 1 "y"; CRemove 1 "y"; CMkdir 1 "a/b"; CRemove 1 "home"].

Lemma memfs_invariant_witness :
  let '(rs, f) := fs_runs demo_env demo_fs_calls init_fs in
  rs = [Ok tt; Ok tt; Ok tt; Ok tt; Err InvalidName; Err DirectoryNotEmpty] ∧ wf f.
Proof.
  pose proof (memfs_invariant demo_env demo_fs_calls) as H. destruct (fs_runs demo_env demo_fs_calls init_fs) as [rs f] eqn:Heq.
  destruct H as (_ & Hwf & _); [by repeat constructor|by vm_compute|]. split; [|done].
  vm_compute in Heq. by injection Heq as <- _.
Defined.

(** *** What goes wrong at the edges *)

(** The inode of a removed directory is never freed: [mkdir] counts two links
    and [remove] takes away one. *)
Lemma rmdir_leaks :
  let '(rs, f) := fs_runs demo_env [CMkdir 1 "a"; CRemove 1 "a"] init_fs in
  rs = [Ok tt; Ok tt] ∧ lookup 1 "a" f = None ∧ (nlink <$> inodes f !! 54) = Some 1.
Proof. by vm_compute. Qed.

(** A rename to a parent that does not exist answers success and loses the
    file, and one onto a directory that is not empty hides its contents. *)
Lemma rename_loses_file :
  let '(rs, f) := fs_runs demo_env [CCreate 1 "a" [7]; CRename 1 "a" 999 "b"] init_fs in
  rs = [Ok tt; Ok tt] ∧ forallb (λ x, negb (x.2 =? 54)) (all_links f) = true.
Proof. by vm_compute. Qed.

Lemma rename_hides_directory :
  let '(rs, f) := fs_runs demo_env [CCreate 1 "a" [7]; CRename 1 "a" 1 "home"] init_fs in
  rs = [Ok tt; Ok tt] ∧ resolve "/home/root/Documents/readme.txt" f = None.
Proof. by vm_compute. Qed.

(** A directory can be moved into itself; [tree_size] then recurses for ever. *)
Lemma rename_makes_cycle fuel :
  let f := (fs_runs demo_env [CMkdir 1 "a"; CRename 1 "a" 54 "b"] init_fs).2 in tree_size fuel f 54 = None.
Proof.
  intros f. assert (inodes f !! 54 = Some (mkInode 54 DIR_755 0 0 0 0 0 2 (Directory (<["b" := 54]> (dots 54 54))))) as Hn.
  { vm_compute. reflexivity. }
  induction fuel as [|fuel IH]; [done|]. unfold tree_size in *. cbn [tree_fold]. rewrite Hn. cbn [content].
  assert (filter (λ x : string * Z, is_dot x.1 = false) (sorted_entries (<["b" := 54]> (dots 54 54))) = [("b", 54)]) as -> by by vm_compute.
  cbn [foldr snd]. by rewrite IH.
Qed.

(** [create_file] truncates a generated file, which [write_file] refuses. *)
Lemma create_replaces_proc :
  (let '(rs, f) := fs_runs demo_env [CWrite 44 [1]; CCreate 9 "version" [1]] init_fs in (rs, reading demo_env f 44))
  = ([Err ReadOnly; Ok tt], Ok [1]).
Proof. by vm_compute. Qed.
