(* ===== verification/Vfs.v ===== *)
(** * The virtual file system

    [src/kernel/src/vfs/mod.rs] (operations by path) and [vfs/fd.rs] (the table
    of file descriptors), over the file system of [Memfs].  Writing a path is
    shown to change what that path reads and nothing else, and reading a
    descriptor in pieces to give the file. *)

From stdpp Require Import gmap strings.
From S2P Require Import Prelude.
From S2P Require Import Text.
From S2P Require Import Memfs.

(** ** The code *)

(** [OpenFlags]; the octal constants in hexadecimal. *)
Definition readable (flags : Z) : bool := negb (Z.land flags 3 =? 1).
Definition writable (flags : Z) : bool := negb (Z.land flags 3 =? 0).
Definition creates (flags : Z) : bool := negb (Z.land flags 0x40 =? 0).
Definition truncates (flags : Z) : bool := negb (Z.land flags 0x200 =? 0).
Definition appends (flags : Z) : bool := negb (Z.land flags 0x400 =? 0).

Inductive VfsError : Type :=
| NotFound | PermissionDenied | IsDirectory | NotDirectory | AlreadyExists | InvalidFd | IoError | NoSpace.

Record FileStat : Type := mkFileStat {
  st_ino : Z;
  st_size : Z;
  st_mode : Z;
  st_nlink : Z;
  st_uid : Z;
  st_gid : Z;
  st_is_dir : bool;
  st_is_file : bool;
  st_is_symlink : bool;
}.

Inductive SpecialFd : Type := Stdin | Stdout | Stderr.

Record FdEntry : Type := mkFdEntry {
  fd_path : string;
  fd_ino : Z;
  offset : Z;
  flags : Z;
  special : option SpecialFd;
}.

Record FdTable : Type := mkFdTable {
  entries : gmap Z FdEntry;
  next_fd : Z;
}.

(** The globals [FS] and [FD_TABLE], and what was written to the console. *)
Record Vfs : Type := mkVfs {
  FS : option MemFs;
  FD_TABLE : option FdTable;
  console : list (list Z);
}.
Abbreviation VfsM := (M Vfs VfsError).

Definition set_fs (f : MemFs) (s : Vfs) : Vfs := mkVfs (Some f) (FD_TABLE s) (console s).
Definition set_table (t : FdTable) (s : Vfs) : Vfs := mkVfs (FS s) (Some t) (console s).

(** [with_fs] panics before [init]; an error of the file system becomes [e]. *)
Definition with_fs {A} (m : FsM A) (e : VfsError) : VfsM A := λ s,
  match FS s with
  | None => (Panic, s)
  | Some f =>
      let '(r, f') := m f in
      (match r with Ok a => Ok a | Err _ => Err e | Panic => Panic end, set_fs f' s)
  end.
Definition ask_fs {A} (g : MemFs → A) : VfsM A := λ s,
  match FS s with
  | None => (Panic, s)
  | Some f => (Ok (g f), s)
  end.

Definition stat (path : string) : VfsM FileStat :=
  i ← ask_fs (resolve path);
  i ← ok_or i NotFound;
  n ← ask_fs (λ f, inodes f !! i);
  n ← ok_or n NotFound;
  mret (mkFileStat i (size n) (mode n) (nlink n) (uid n) (gid n) (is_dir (mode n)) (is_file (mode n)) (is_symlink (mode n))).

Definition read_all (env : Env) (path : string) : VfsM (list Z) :=
  i ← ask_fs (resolve path);
  i ← ok_or i NotFound;
  with_fs (read_file env i) IoError.

(** Splits [/a/b/c] into [/a/b] and [c]. *)
Definition split_path (path : string) : string * string :=
  match rsplit_slash path with
  | Some (before, name) => (if String.eqb before EmptyString then "/" else before, name)
  | None => ("/", path)
  end.

Definition write_all (path : string) (data : list Z) : VfsM unit :=
  existing ← ask_fs (resolve path);
  match existing with
  | Some i => with_fs (write_file i data) IoError
  | None =>
      let '(parent_path, name) := split_path path in
      p ← ask_fs (resolve parent_path);
      parent_ino ← ok_or p NotFound;
      with_fs (create_file parent_ino name data) IoError;;
      mret tt
  end.

Definition vfs_readdir (path : string) : VfsM (list (string * Z)) :=
  i ← ask_fs (resolve path);
  i ← ok_or i NotFound;
  l ← ask_fs (readdir_all i);
  ok_or l NotDirectory.

(** *** Descriptors *)

Definition MAX_FDS : Z := 256.
Definition FIRST_USER_FD : Z := 3.

Definition fd_init (s : Vfs) : Vfs :=
  set_table (mkFdTable
    (<[0 := mkFdEntry "/dev/stdin" 0 0 0 (Some Stdin)]>
    (<[1 := mkFdEntry "/dev/stdout" 0 0 1 (Some Stdout)]>
    {[2 := mkFdEntry "/dev/stderr" 0 0 1 (Some Stderr)]})) FIRST_USER_FD) s.

Definition get_table : VfsM FdTable := t ← gets FD_TABLE; unwrap t.

(** Takes the next descriptor; [next_fd] is an [i32]. *)
Definition add_fd (path : string) (i : Z) (fl : Z) : VfsM Z :=
  t ← get_table;
  let fd := next_fd t in
  n ← add_or_panic 31 fd 1;
  modify (set_table (mkFdTable (<[fd := mkFdEntry path i 0 fl None]> (entries t)) n));;
  mret fd.

Definition open (path : string) (fl : Z) : VfsM Z :=
  i ← ask_fs (resolve path);
  match i with
  | Some i =>
      t ← get_table;
      if MAX_FDS <=? Z.of_nat (base.size (entries t)) then throw NoSpace
      else add_fd path i fl
  | None =>
      if creates fl then
        let '(parent_path, name) := split_path path in
        p ← ask_fs (resolve parent_path);
        parent_ino ← ok_or p NotFound;
        new_ino ← with_fs (create_file parent_ino name []) IoError;
        add_fd path new_ino fl
      else throw NotFound
  end.

Definition set_offset (o : Z) (e : FdEntry) : FdEntry := mkFdEntry (fd_path e) (fd_ino e) o (flags e) (special e).

(** [if let Some(e) = get_mut(&fd) { e.offset += n }]. *)
Definition advance (fd n : Z) : VfsM unit :=
  t ← get_table;
  match entries t !! fd with
  | None => mret tt
  | Some e =>
      o ← add_or_panic 64 (offset e) n;
      modify (set_table (mkFdTable (<[fd := set_offset o e]> (entries t)) (next_fd t)))
  end.

Definition read (env : Env) (fd length : Z) : VfsM (list Z) :=
  t ← get_table;
  entry ← ok_or (entries t !! fd) InvalidFd;
  match special entry with
  | Some Stdin => mret []
  | Some _ => throw PermissionDenied
  | None =>
      data ← with_fs (read_file env (fd_ino entry)) IoError;
      let start := Z.min (offset entry) (len data) in
      e ← add_or_panic 64 start length;
      let end_ := Z.min e (len data) in
      let chunk := slice data start end_ in
      advance fd (len chunk);;
      mret chunk
  end.

(** The console gets what is UTF-8. *)
Definition write (fd : Z) (data : list Z) : VfsM Z :=
  t ← get_table;
  entry ← ok_or (entries t !! fd) InvalidFd;
  match special entry with
  | Some Stdin => throw PermissionDenied
  | Some _ =>
      modify (λ s, mkVfs (FS s) (FD_TABLE s) (console s ++ (if utf8_valid data then [data] else [])));;
      mret (len data)
  | None =>
      (if appends (flags entry)
       then with_fs (append_file (fd_ino entry) data) IoError
       else with_fs (write_file (fd_ino entry) data) IoError);;
      advance fd (len data);;
      mret (len data)
  end.

Definition close (fd : Z) : VfsM unit :=
  t ← get_table;
  match entries t !! fd with
  | Some _ => modify (set_table (mkFdTable (delete fd (entries t)) (next_fd t)))
  | None => throw InvalidFd
  end.

(** Signed sums panic on overflow. *)
Definition add_i64 (a b : Z) : VfsM Z :=
  let r := as_i64 a + b in
  if (- 2 ^ 63 <=? r) && (r <? 2 ^ 63) then mret (as_u64 r) else panic.

Definition lseek (fd off whence : Z) : VfsM Z :=
  t ← get_table;
  entry ← ok_or (entries t !! fd) InvalidFd;
  new_offset ← (if whence =? 0 then mret (as_u64 off)
                else if whence =? 1 then add_i64 (offset entry) off
                else if whence =? 2 then
                  n ← ask_fs (λ f, inodes f !! fd_ino entry);
                  add_i64 (from_option size 0 n) off
                else throw IoError);
  modify (set_table (mkFdTable (<[fd := set_offset new_offset entry]> (entries t)) (next_fd t)));;
  mret new_offset.

Definition open_count : VfsM Z := t ← get_table; mret (Z.of_nat (base.size (entries t))).

(** ** Paths

    [path_of cs] is the absolute path with the components [cs]. *)

Fixpoint path_of (cs : list string) : string :=
  match cs with
  | [] => ""
  | c :: cs => "/" +:+ c +:+ path_of cs
  end.

(** Components that can be names: not empty, not dots, without a slash. *)
Definition names (cs : list string) : Prop :=
  Forall (λ c, c ≠ "" ∧ is_dot c = false ∧ no_char "/" c = true) cs.

Lemma names_plain cs : names cs → plain cs.
Proof. intros Hcs. eapply Forall_impl; [exact Hcs|]. by intros c (? & ? & _). Qed.

Lemma path_of_app p q : path_of (p ++ q) = path_of p +:+ path_of q.
Proof. induction p as [|c p IH]; [done|]. cbn [path_of app]. by rewrite IH, !app_assoc_string. Qed.

Lemma split_path_of c cs : names (c :: cs) → split "/" (c +:+ path_of cs) = c :: cs.
Proof.
  revert c. induction cs as [|d cs IH]; intros c [(_ & _ & Hc) Hcs]%Forall_cons; cbn [path_of].
  - rewrite app_nil_string. by apply split_none.
  - change ("/" +:+ d +:+ path_of cs) with (String "/" (d +:+ path_of cs)). rewrite split_app by done. by rewrite IH.
Qed.

Lemma trim_start_name c s : c ≠ "" → no_char "/" c = true → trim_start_matches "/" (c +:+ s) = c +:+ s.
Proof.
  destruct c as [|a c]; [done|]. intros _ Hc. unfold no_char in Hc. simpl in Hc. cbn [String.append trim_start_matches].
  by destruct (Ascii.eqb a "/").
Qed.

Lemma resolve_path_of cs f : names cs → resolve (path_of cs) f = walk root_ino cs f.
Proof.
  intros Hcs. destruct cs as [|c cs]; [done|]. assert (Hc := Hcs). apply Forall_cons in Hc as [(Hne & _ & Hs) _].
  unfold resolve. change (path_of (c :: cs)) with (String "/" (c +:+ path_of cs)).
  assert (c +:+ path_of cs ≠ "") as Hne' by (by destruct c).
  assert (String.eqb (String "/" (c +:+ path_of cs)) "/" = false) as E.
  { apply String.eqb_neq. intros [=Heq]. done. }
  rewrite E. simpl orb. cbn iota. rewrite E. cbn [trim_start_matches]. change (Ascii.eqb "/" "/") with true. cbn iota.
  rewrite trim_start_name by done. by rewrite split_path_of.
Qed.

Lemma rsplit_none s : no_char "/" s = true → rsplit_slash s = None.
Proof.
  induction s as [|a s IH]; [done|]. unfold no_char. simpl. destruct (Ascii.eqb a "/"); [done|]. simpl.
  intros Hs. by rewrite IH.
Qed.

Lemma rsplit_app p c : no_char "/" c = true → rsplit_slash (p +:+ String "/" c) = Some (p, c).
Proof.
  intros Hc. induction p as [|a p IH]; cbn [String.append rsplit_slash].
  - by rewrite rsplit_none.
  - by rewrite IH.
Qed.

Lemma split_path_names cs c f :
  names (cs ++ [c]) →
  (split_path (path_of (cs ++ [c]))).2 = c ∧ resolve (split_path (path_of (cs ++ [c]))).1 f = walk root_ino cs f.
Proof.
  intros [Hcs [(_ & _ & Hc) _]%Forall_cons]%Forall_app. rewrite path_of_app. cbn [path_of]. rewrite app_nil_string.
  change ("/" +:+ c) with (String "/" c). unfold split_path. rewrite rsplit_app by done. simpl. split; [done|].
  rewrite <- resolve_path_of by done. destruct (String.eqb_spec (path_of cs) "") as [->|]; done.
Qed.

(** ** What a path reads *)

(** The result of [read_all], and the state it leaves. *)
Definition contents (env : Env) (f : MemFs) (cs : list string) : outcome VfsError (list Z) :=
  match walk root_ino cs f with
  | None => Err NotFound
  | Some i => map_err (λ _, IoError) (reading env f i)
  end.

Lemma read_file_pure env i f : (read_file env i f).2 = f.
Proof. unfold read_file, mbind, M_bind, get. destruct (inodes f !! i) as [n|]; [|done]. simpl. by destruct (content n). Qed.

Lemma set_fs_id s f : FS s = Some f → set_fs f s = s.
Proof. destruct s as [? ? ?]. simpl. by intros ->. Qed.

Lemma with_fs_read env i s f :
  FS s = Some f → with_fs (read_file env i) IoError s = (map_err (λ _, IoError) (reading env f i), s).
Proof.
  intros Hf. unfold with_fs. rewrite Hf. pose proof (read_file_pure env i f) as Hp. unfold reading.
  destruct (read_file env i f) as [r f'] eqn:E. simpl in Hp |- *. subst f'. rewrite set_fs_id by done. by destruct r.
Qed.

Lemma read_all_contents env s f cs :
  FS s = Some f → names cs → read_all env (path_of cs) s = (contents env f cs, s).
Proof.
  intros Hf Hcs. unfold read_all, ask_fs, contents. unfold mbind, M_bind. rewrite Hf. rewrite resolve_path_of by done.
  destruct (walk root_ino cs f) as [i|]; simpl; [|done]. rewrite (with_fs_read env i s f Hf). by destruct (reading env f i).
Qed.

(** ** Writing a path *)

Definition is_ok {E A} (o : outcome E A) : bool := match o with Ok _ => true | _ => false end.

Definition file_at (f : MemFs) (i : Z) : bool :=
  match content <$> inodes f !! i with Some (File _) => true | _ => false end.
Definition dir_at (f : MemFs) (i : Z) : bool :=
  match content <$> inodes f !! i with Some (Directory _) => true | _ => false end.

(** The paths that can be written: those of regular files, and new ones in a
    directory. *)
Definition can_write (f : MemFs) (cs : list string) : bool :=
  match walk root_ino cs f with
  | Some i => file_at f i
  | None => match walk root_ino (removelast cs) f with Some p => dir_at f p | None => false end
  end.

Lemma write_file_is_ok i data f : is_ok (write_file i data f).1 = file_at f i.
Proof.
  unfold write_file, file_at, mbind, M_bind, get. destruct (inodes f !! i) as [n|]; [|done]. simpl. by destruct (content n).
Qed.

Lemma create_file_is_ok parent name data f :
  next_ino f + 1 < 2 ^ 64 → bad_name name = false → lookup parent name f = None →
  is_ok (create_file parent name data f).1 = dir_at f parent.
Proof.
  intros Hroom Hbad Hl. unfold create_file, dir_at. rewrite Hbad. rewrite lookup_entries in Hl.
  unfold mbind, M_bind, get. destruct (inodes f !! parent) as [n|]; [|done]. simpl in *. unfold entries_of in Hl.
  destruct (content n) as [e| | |]; try done. simpl in Hl. rewrite Hl.
  unfold alloc_ino, add_or_panic, checked_add, mbind, M_bind, get, gets. simpl.
  destruct (Z.ltb_spec (next_ino f + 1) (2 ^ 64)); [done|lia].
Qed.

Lemma wp_with_fs {A} (m : FsM A) e (Q : A → Vfs → Prop) X s f :
  FS s = Some f →
  wp m (λ a f', Q a (set_fs f' s)) (λ o f', X ((λ _, e) <$> o) (set_fs f' s)) f → wp (with_fs m e) Q X s.
Proof. intros Hf. unfold wp, with_fs. rewrite Hf. by destruct (m f) as [[a|e'|] f']. Qed.

Lemma wp_ask_fs {A} (g : MemFs → A) (Q : A → Vfs → Prop) X s f : FS s = Some f → Q (g f) s → wp (ask_fs g) Q X s.
Proof. intros Hf HQ. unfold wp, ask_fs. by rewrite Hf. Qed.

(** A property of the value of [m] on top of its specification. *)
Lemma wp_is_ok {S E A} (m : M S E A) Q X s :
  wp m Q X s → wp m (λ a s', Q a s' ∧ is_ok (m s).1 = true) (λ e s', X e s' ∧ is_ok (m s).1 = false) s.
Proof. unfold wp. by destruct (m s) as [[a|e|] s']. Qed.

Lemma walk_exists f cs i : wf f → plain cs → walk root_ino cs f = Some i → 0 < i < next_ino f.
Proof.
  intros Hwf Hcs Hw. assert (is_Some (inodes f !! i)) as [n Hn].
  { destruct cs as [|c cs _] using rev_ind.
    - injection Hw as <-. destruct (wf_root f Hwf) as (n & e & Hn & _). by exists n.
    - apply walk_link in Hw as (d & _ & Hl); [|done]. by apply (wf_links f Hwf) in Hl as [_ ?]. }
  by apply (wf_nodes f Hwf) in Hn as [[? _] _ _ _ _].
Qed.

Lemma lookup_absent f i c : wf f → next_ino f ≤ i → lookup i c f = None.
Proof.
  intros Hwf Hi. rewrite lookup_entries. destruct (inodes f !! i) as [n|] eqn:En; [|done].
  apply (wf_nodes f Hwf) in En as [[? _] _ _ _ _]. lia.
Qed.

(** A new file is on its own path and changes no other. *)
Lemma walk_made env f ps p name data i f' qs :
  wf f → made env f p name data i f' → walk root_ino ps f = Some p → lookup p name f = None →
  plain (ps ++ [name]) → plain qs →
  walk root_ino qs f' = if decide (qs = ps ++ [name]) then Some i else walk root_ino qs f.
Proof.
  intros Hwf Hm Hp Hnew Hpn. destruct Hm as [Hentry _ Hl _ Hold _]. destruct Hold as [[_ ->]|]; [|congruence].
  assert (Hps := Hpn). apply Forall_app in Hps as [Hps [[Hn _] _]%Forall_cons].
  pose proof (walk_exists f ps p Hwf Hps Hp) as Hpi. induction qs as [|c qs IH] using rev_ind; intros Hq.
  - rewrite decide_False; [done|]. by destruct ps.
  - apply Forall_app in Hq as [Hqs [[Hc _] _]%Forall_cons]. rewrite !walk_snoc, IH by done. clear IH.
    case_decide as Hd.
    + rewrite decide_False. 2: { subst qs. intros Heq. apply (f_equal length) in Heq. rewrite !length_app in Heq. simpl in Heq. lia. }
      subst qs. rewrite walk_snoc, Hp by done. simpl. rewrite Hnew. simpl. rewrite Hl by (intros [? _]; lia).
      apply lookup_absent; [done|lia].
    + case_decide as Hd'.
      * apply app_inj_tail in Hd' as [-> ->]. by rewrite Hp.
      * destruct (walk root_ino qs f) as [d|] eqn:Hqd; [|done]. simpl. apply Hl. intros [-> ->]. apply Hd'.
        f_equal. by apply (walk_inj f Hwf _ _ p).
Qed.

Lemma names_bad cs c : names (cs ++ [c]) → bad_name c = false.
Proof. intros [_ [(_ & Hd & Hs) _]%Forall_cons]%Forall_app. unfold bad_name. by rewrite Hd, Hs. Qed.

Record written (env : Env) (f : MemFs) (cs : list string) (data : list Z) (f' : MemFs) : Prop := {
  wr_wf : wf f';
  wr_next : next_ino f' ≤ next_ino f + 1;
  wr_same : contents env f' cs = Ok data;
  wr_other : ∀ qs, plain qs → qs ≠ cs → contents env f' qs = contents env f qs;
}.

Lemma walk_ext f f' i cs : (∀ d nm, lookup d nm f' = lookup d nm f) → walk i cs f' = walk i cs f.
Proof.
  intros Hl. revert i. induction cs as [|c cs IH]; intros i; [done|]. simpl. destruct (String.eqb c ""); [apply IH|].
  rewrite Hl. destruct (lookup i c f); [apply IH|done].
Qed.

Lemma write_existing env f cs i data f' :
  wf f → wf f' → plain cs → walk root_ino cs f = Some i → next_ino f' = next_ino f → (∀ d nm, lookup d nm f' = lookup d nm f) →
  reading env f' i = Ok data → (∀ j, j ≠ i → reading env f' j = reading env f j) → written env f cs data f'.
Proof.
  intros Hwf Hwf' Hcs Hw Hn Hl Hi Hj. split; [done|lia| |].
  - unfold contents. by rewrite (walk_ext f), Hw, Hi.
  - intros qs Hqs Hne. unfold contents. rewrite (walk_ext f) by done. destruct (walk root_ino qs f) as [j|] eqn:Hq; [|done].
    rewrite Hj; [done|]. intros ->. apply Hne. by apply (walk_inj f Hwf _ _ i).
Qed.

Lemma write_new env f ps p name i data f' :
  wf f → wf f' → plain (ps ++ [name]) → walk root_ino ps f = Some p → lookup p name f = None →
  made env f p name data i f' → written env f (ps ++ [name]) data f'.
Proof.
  intros Hwf Hwf' Hcs Hw Hnew Hm. split; [done|apply Hm| |].
  - unfold contents. rewrite (walk_made env f ps p name data i), decide_True by done. by rewrite (cr_data _ _ _ _ _ _ _ Hm).
  - intros qs Hqs Hne. unfold contents. rewrite (walk_made env f ps p name data i), decide_False by done.
    destruct (walk root_ino qs f) as [j|] eqn:Hq; [|done]. rewrite (cr_reading _ _ _ _ _ _ _ Hm); [done|].
    apply walk_exists in Hq; [|done..]. destruct (cr_old _ _ _ _ _ _ _ Hm) as [[_ ->]|]; [lia|congruence].
Qed.

Lemma write_all_spec env s f cs data :
  FS s = Some f → wf f → next_ino f + 1 < 2 ^ 64 → names cs →
  wp (write_all (path_of cs) data)
    (λ _ s', can_write f cs = true ∧ ∃ f', s' = set_fs f' s ∧ written env f cs data f')
    (λ e s', is_Some e ∧ can_write f cs = false ∧ s' = s) s.
Proof.
  intros Hf Hwf Hroom Hcs. unfold write_all, can_write. wp_step. apply (wp_ask_fs _ _ _ _ f Hf).
  rewrite resolve_path_of by done. destruct (walk root_ino cs f) as [i|] eqn:Hw.
  - apply (wp_with_fs _ _ _ _ _ f Hf). eapply wp_mono; [apply wp_is_ok, (write_file_spec env)|..]; [done| |].
    + intros _ f' [(Hwf' & Hn & Hl & Hi & Hj) Hok]. rewrite write_file_is_ok in Hok. split; [done|]. exists f'. split; [done|].
      apply (write_existing env f cs i); try done. by apply names_plain.
    + intros o f' [[[e ->] ->] Hok]. rewrite write_file_is_ok in Hok. split; [by eexists|]. by rewrite set_fs_id.
  - destruct cs as [|c ps _] using rev_ind; [done|]. rewrite removelast_last.
    destruct (split_path_names ps c f Hcs) as [Hname Hparent]. destruct (split_path (path_of (ps ++ [c]))) as [pp nm].
    simpl in Hname, Hparent. subst nm. wp_step. apply (wp_ask_fs _ _ _ _ f Hf). rewrite Hparent.
    assert (Hc := names_plain _ Hcs). assert (c ≠ "") as Hne by (by apply Forall_app in Hc as [_ [[? _] _]%Forall_cons]).
    rewrite walk_snoc in Hw by done. destruct (walk root_ino ps f) as [p|] eqn:Hp; [|by apply wp_throw].
    simpl in Hw. wp_step. apply wp_ok_or; [intros ? [= <-]|done]. wp_step. apply (wp_with_fs _ _ _ _ _ f Hf).
    pose proof (create_file_is_ok p c data f Hroom (names_bad _ _ Hcs) Hw) as Hok'.
    eapply wp_mono; [apply wp_is_ok, (create_file_spec env); done|..].
    + intros i f' [[Hwf' Hm] Hok]. rewrite Hok' in Hok. wp_step. split; [done|]. exists f'. split; [done|]. by eapply write_new.
    + intros o f' [[[e ->] ->] Hok]. rewrite Hok' in Hok. split; [by eexists|]. by rewrite set_fs_id.
Qed.

(** ** Reading a descriptor *)

(** Reads one after the other, their results appended. *)
Fixpoint read_many (env : Env) (fd : Z) (ns : list Z) : VfsM (list Z) :=
  match ns with
  | [] => mret []
  | n :: ns => c ← read env fd n; cs ← read_many env fd ns; mret (c ++ cs)
  end.

(** [fd] is open at offset [o] of a file that reads [data]. *)
Definition reads_at (env : Env) (s : Vfs) (fd o : Z) (data : list Z) : Prop :=
  ∃ t e, FD_TABLE s = Some t ∧ entries t !! fd = Some e ∧ special e = None ∧ offset e = o ∧
    ∃ f, FS s = Some f ∧ reading env f (fd_ino e) = Ok data.

Lemma wp_get_table (Q : FdTable → Vfs → Prop) X s t : FD_TABLE s = Some t → Q t s → wp get_table Q X s.
Proof. intros Ht HQ. unfold get_table. do 2 wp_step. by eapply wp_unwrap_Some. Qed.

Lemma slice_min {A} (data : list A) o n :
  0 ≤ o → 0 ≤ n →
  slice data (Z.min o (len data)) (Z.min (Z.min o (len data) + n) (len data)) = take (Z.to_nat n) (drop (Z.to_nat o) data).
Proof.
  intros Ho Hn. unfold slice, len. destruct (Z.le_ge_cases o (Z.of_nat (length data))) as [Hle|Hge].
  - rewrite (Z.min_l o) by done. destruct (Z.le_ge_cases (o + n) (Z.of_nat (length data))).
    + rewrite Z.min_l by done. f_equal. lia.
    + rewrite Z.min_r by done. rewrite !take_ge; [done|rewrite length_drop; lia..].
  - rewrite (Z.min_r o), (drop_ge _ (Z.to_nat o)) by lia. rewrite drop_ge by lia. by rewrite !take_nil.
Qed.

Lemma read_spec env s fd o data n :
  reads_at env s fd o data → 0 ≤ o → 0 ≤ n → len data + n < 2 ^ 64 → o + n < 2 ^ 64 →
  returns (read env fd n) (λ c s', c = take (Z.to_nat n) (drop (Z.to_nat o) data) ∧
    FS s' = FS s ∧ console s' = console s ∧ reads_at env s' fd (o + len c) data) s.
Proof.
  intros (t & e & Ht & He & Hsp & Ho & f & Hf & Hr) Ho0 Hn Hroom Hoff. unfold read. wp_step. apply (wp_get_table _ _ _ t Ht).
  rewrite He. wp_step. apply wp_ok_or; [intros ? [= <-]|done]. rewrite Hsp. wp_step.
  unfold wp at 1. rewrite (with_fs_read env _ s f Hf), Hr. simpl map_err. cbv iota. wp_step. apply wp_add; [lia|].
  rewrite Ho. rewrite slice_min by done. set (c := take (Z.to_nat n) (drop (Z.to_nat o) data)). wp_step.
  assert (len c ≤ n) as Hlen. { unfold len, c. rewrite length_take. lia. }
  unfold advance. wp_step. apply (wp_get_table _ _ _ t Ht). rewrite He. wp_step. rewrite Ho. apply wp_add; [lia|].
  do 2 wp_step. split_and!; [done..|]. exists (mkFdTable (<[fd := set_offset (o + len c) e]> (entries t)) (next_fd t)), (set_offset (o + len c) e).
  split_and!; [done|apply lookup_insert_eq|done..|]. by exists f.
Qed.

Definition total (ns : list Z) : Z := foldr Z.add 0 ns.

Lemma total_nonneg ns : Forall (λ n, 0 ≤ n) ns → 0 ≤ total ns.
Proof. induction 1; simpl; lia. Qed.

Lemma read_many_spec env s fd o data ns :
  reads_at env s fd o data → 0 ≤ o → Forall (λ n, 0 ≤ n) ns → o + len data + total ns < 2 ^ 64 →
  returns (read_many env fd ns) (λ c s', c = take (Z.to_nat (total ns)) (drop (Z.to_nat o) data) ∧
    FS s' = FS s ∧ console s' = console s ∧ reads_at env s' fd (o + len c) data) s.
Proof.
  intros Hs Ho Hns. revert s o Hs Ho. induction Hns as [|n ns Hn Hns IH]; intros s o Hs Ho Hroom; simpl.
  - wp_step. split_and!; [done..|]. unfold len. simpl. by rewrite Z.add_0_r.
  - pose proof (total_nonneg ns Hns). assert (0 ≤ len data) by (unfold len; lia). simpl in Hroom.
    wp_step. eapply returns_mono; [apply (read_spec env s fd o data n); [done..|lia|lia]|].
    intros c s1 (Hc & Hf1 & Hc1 & Hs1). wp_step.
    assert (0 ≤ len c ≤ n) as Hlen. { subst c. unfold len. rewrite length_take. lia. }
    eapply returns_mono; [apply (IH s1 (o + len c) Hs1); lia|].
    intros c' s2 (Hc' & Hf2 & Hc2 & Hs2). wp_step.
    split_and!; [|congruence|congruence|unfold len in *; rewrite length_app, Nat2Z.inj_add, Z.add_assoc; done].
    subst c c'. rewrite (Z2Nat.inj_add n (total ns)) by lia. rewrite <- take_take_drop. f_equal. rewrite drop_drop.
    destruct (decide (n ≤ len (drop (Z.to_nat o) data))) as [Hl|Hl].
    + f_equal. f_equal. unfold len in *. rewrite length_take. lia.
    + rewrite !(drop_ge data); [done|..]; unfold len in *; rewrite ?length_take, ?length_drop in *; lia.
Qed.

(** *** The table

    A descriptor that is given out is new: the open ones are below [next_fd]. *)
Definition fds_ok (t : FdTable) : Prop := ∀ fd, is_Some (entries t !! fd) → fd < next_fd t.
Definition table_ok (s : Vfs) : Prop := ∀ t, FD_TABLE s = Some t → fds_ok t.

Abbreviation keeps_table m := (triple table_ok (λ _ : option VfsError, True) m (λ _, True)).

Lemma table_init s : table_ok (fd_init s).
Proof.
  intros t [= <-] fd [e He]. simpl in *. unfold FIRST_USER_FD. rewrite !lookup_insert_Some, lookup_singleton_Some in He. lia.
Qed.

Lemma keeps_with_fs {A} (m : FsM A) e : keeps_table (with_fs m e).
Proof.
  intros s Hs. unfold wp, with_fs. destruct (FS s) as [f|]; [|done]. by destruct (m f) as [[a|e'|] f'].
Qed.

Lemma keeps_ask_fs {A} (g : MemFs → A) : keeps_table (ask_fs g).
Proof. intros s Hs. unfold wp, ask_fs. by destruct (FS s). Qed.

Lemma keeps_get_table : triple table_ok (λ _ : option VfsError, True) get_table fds_ok.
Proof. intros s Hs. unfold get_table. do 3 wp_step; [|done]. split; [done|]. by apply Hs. Qed.

Lemma keeps_set_table t : fds_ok t → keeps_table (modify (set_table t)).
Proof. intros Ht. apply triple_modify. by intros s _ t' [= <-]. Qed.

Lemma fds_update t fd e : fds_ok t → is_Some (entries t !! fd) → fds_ok (mkFdTable (<[fd := e]> (entries t)) (next_fd t)).
Proof. intros Ht Hfd i [e' He]. simpl in *. apply lookup_insert_Some in He as [[<- _]|[_ He]]; apply Ht; [done|by eexists]. Qed.

Lemma keeps_modify (g : Vfs → Vfs) : (∀ s, FD_TABLE (g s) = FD_TABLE s) → keeps_table (modify g).
Proof. intros Hg. apply triple_modify. intros s Hs t. rewrite Hg. apply Hs. Qed.

Lemma keeps_add w a b : keeps_table (add_or_panic w a b).
Proof. by eapply triple_mono; [by apply triple_add|]. Qed.

Lemma keeps_add_fd path i fl : keeps_table (add_fd path i fl).
Proof.
  unfold add_fd. eapply triple_bind; [apply keeps_get_table|intros t Ht].
  eapply (triple_bind _ _ _ _ (λ n, n = next_fd t + 1 ∧ n < 2 ^ 31)); [by apply triple_add|intros n [-> _]].
  eapply triple_bind; [|intros _ _; by apply triple_ret]. apply keeps_set_table. intros fd [e He]. simpl in *.
  apply lookup_insert_Some in He as [[<- _]|[_ He]]; [lia|]. specialize (Ht fd). assert (fd < next_fd t); [|lia]. apply Ht. by eexists.
Qed.

Lemma keeps_advance fd n : keeps_table (advance fd n).
Proof.
  unfold advance. eapply triple_bind; [apply keeps_get_table|intros t Ht].
  destruct (entries t !! fd) as [e|] eqn:He; [|by apply triple_ret].
  eapply (triple_bind _ _ _ _ (λ _, True)); [eapply triple_mono; [by apply triple_add|done]|intros o _].
  apply keeps_set_table, fds_update; [done|by eexists].
Qed.

Ltac keep_table :=
  repeat lazymatch goal with
    | |- triple _ _ (with_fs _ _) _ => apply keeps_with_fs
    | |- triple _ _ (ask_fs _) _ => apply keeps_ask_fs
    | |- triple _ _ (add_fd _ _ _) _ => apply keeps_add_fd
    | |- triple _ _ (advance _ _) _ => apply keeps_advance
    | |- triple _ _ (add_or_panic _ _ _) _ => apply keeps_add
    | |- triple _ _ (mret _) _ => by apply triple_ret
    | |- triple _ _ (throw _) _ => by apply triple_throw
    | |- triple _ _ panic _ => by apply triple_panic
    | |- triple _ _ (modify (set_table _)) _ => apply keeps_set_table
    | |- triple _ _ (modify _) _ => by apply keeps_modify
    | |- triple _ _ (ok_or _ _) _ => by apply triple_ok_or
    | |- triple _ _ (get_table ≫= _) _ => eapply triple_bind; [apply keeps_get_table|intros ? ?]
    | |- triple _ _ (ok_or ?o _ ≫= _) _ =>
        eapply (triple_bind _ _ _ _ (λ a, o = Some a)); [by apply triple_ok_or|intros ? ?]
    | |- triple _ _ (_ ≫= _) _ => eapply (triple_bind _ _ _ _ (λ _, True)); [|intros ? _]
    | |- triple _ _ (match ?x with _ => _ end) _ => destruct x eqn:?
    end.

Lemma keeps_open path fl : keeps_table (open path fl).
Proof. unfold open. keep_table. Qed.

Lemma keeps_read env fd n : keeps_table (read env fd n).
Proof. unfold read. keep_table. Qed.

Lemma keeps_write fd data : keeps_table (write fd data).
Proof. unfold write. keep_table. Qed.

Lemma keeps_close fd : keeps_table (close fd).
Proof.
  unfold close. keep_table. match goal with H : fds_ok ?t |- _ => intros i [e He]; simpl in He; apply H end.
  apply lookup_delete_Some in He as [_ He]. by eexists.
Qed.

Lemma keeps_lseek fd off whence : keeps_table (lseek fd off whence).
Proof. unfold lseek, add_i64. keep_table; (apply fds_update; [done|by eexists]). Qed.

(** *** Sequences of calls *)

Inductive fd_call : Type :=
| COpen (path : string) (fl : Z)
| CRead (fd n : Z)
| CWrite (fd : Z) (data : list Z)
| CClose (fd : Z)
| CSeek (fd off whence : Z).

Definition fd_run (env : Env) (s : Vfs) (c : fd_call) : Vfs :=
  match c with
  | COpen path fl => (open path fl s).2
  | CRead fd n => (read env fd n s).2
  | CWrite fd data => (write fd data s).2
  | CClose fd => (close fd s).2
  | CSeek fd off whence => (lseek fd off whence s).2
  end.
Definition fd_runs (env : Env) (cs : list fd_call) (s : Vfs) : Vfs := foldl (fd_run env) s cs.

(** The state after boot. *)
Definition vfs_boot : Vfs := fd_init (mkVfs (Some init_fs) None []).

Lemma keeps_state {A} (m : VfsM A) s : keeps_table m → table_ok s → table_ok (m s).2.
Proof. intros Hm Hs. specialize (Hm s Hs). unfold wp in Hm. by destruct (m s) as [[a|e|] s']; destruct Hm. Qed.

Lemma fd_runs_ok env cs s : table_ok s → table_ok (fd_runs env cs s).
Proof.
  revert s. induction cs as [|c cs IH]; intros s Hs; [done|]. apply IH.
  destruct c; apply keeps_state; auto using keeps_open, keeps_read, keeps_write, keeps_close, keeps_lseek.
Qed.

Lemma open_spec env s f t cs data fl :
  FS s = Some f → FD_TABLE s = Some t → fds_ok t → names cs → contents env f cs = Ok data →
  Z.of_nat (base.size (entries t)) < MAX_FDS → next_fd t + 1 < 2 ^ 31 →
  returns (open (path_of cs) fl) (λ fd s', entries t !! fd = None ∧ FS s' = FS s ∧ reads_at env s' fd 0 data ∧
    ∀ fd', fd' ≠ fd → (t' ← FD_TABLE s'; entries t' !! fd') = entries t !! fd') s.
Proof.
  intros Hf Ht Hok Hcs Hr Hsize Hnext. unfold open. wp_step. apply (wp_ask_fs _ _ _ _ f Hf). rewrite resolve_path_of by done.
  unfold contents in Hr. destruct (walk root_ino cs f) as [i|]; [|done].
  wp_step. apply (wp_get_table _ _ _ t Ht). destruct (Z.leb_spec MAX_FDS (Z.of_nat (base.size (entries t)))); [lia|].
  unfold add_fd. wp_step. apply (wp_get_table _ _ _ t Ht). wp_step. apply wp_add; [lia|]. do 3 wp_step.
  split_and!; [|done| |].
  - destruct (entries t !! next_fd t) eqn:He; [|done]. assert (next_fd t < next_fd t); [|lia]. apply Hok. by eexists.
  - eexists _, _. split_and!; [done|apply lookup_insert_eq|done|done|]. exists f. split; [done|].
    simpl. by destruct (reading env f i); simplify_eq/=.
  - intros fd' Hne. simpl. by rewrite lookup_insert_ne.
Qed.

(** ** Properties *)

(** Writing a path changes that path and nothing else.  The write of a
    path of proper names succeeds exactly on regular files and on new names in
    a directory; then the path reads the bytes written, every other path of
    proper names reads as before and the file system is still well formed.  A
    write that fails changes nothing, and none panics. *)
Theorem vfs_write_read env s f cs data :
  FS s = Some f → wf f → next_ino f + 1 < 2 ^ 64 → names cs →
  match write_all (path_of cs) data s with
  | (Ok _, s') =>
      can_write f cs = true ∧ (∃ f', s' = set_fs f' s ∧ wf f') ∧
      (read_all env (path_of cs) s').1 = Ok data ∧
      ∀ qs, names qs → qs ≠ cs → (read_all env (path_of qs) s').1 = (read_all env (path_of qs) s).1
  | (Err _, s') => can_write f cs = false ∧ s' = s
  | (Panic, _) => False
  end.
Proof.
  intros Hf Hwf Hroom Hcs. pose proof (write_all_spec env s f cs data Hf Hwf Hroom Hcs) as H. unfold wp in H.
  destruct (write_all (path_of cs) data s) as [[[]|e|] s']; [|by destruct H as (_ & ? & ?)|by destruct H as ([? ?] & _)].
  destruct H as (Hok & f' & -> & [Hwf' _ Hsame Hother]). split_and!; [done|by exists f'| |].
  - by rewrite (read_all_contents env _ f').
  - intros qs Hqs Hne. rewrite (read_all_contents env _ f'), (read_all_contents env s f) by done. simpl.
    apply Hother; [by apply names_plain|done].
Qed.

Lemma vfs_write_read_witness :
  can_write init_fs ["tmp"; "x"] = true ∧
  (read_all demo_env "/tmp/x" (write_all "/tmp/x" [1; 2] vfs_boot).2).1 = Ok [1; 2] ∧
  (write_all "/tmp" [1] vfs_boot).1 = Err IoError.
Proof.
  destruct init_ok as (_ & Hwf & Hn). assert (next_ino init_fs + 1 < 2 ^ 64) as Hroom by (rewrite Hn; lia).
  assert (can_write init_fs ["tmp"; "x"] = true) as Hcan by (vm_compute; reflexivity).
  pose proof (vfs_write_read demo_env vfs_boot init_fs ["tmp"; "x"] [1; 2] eq_refl Hwf Hroom ltac:(repeat constructor; discriminate)) as H.
  change (path_of ["tmp"; "x"]) with "/tmp/x" in H. split; [exact Hcan|]. split; [|vm_compute; reflexivity].
  destruct (write_all "/tmp/x" [1; 2] vfs_boot) as [[u|e|] s'].
  - destruct H as (_ & _ & H & _). exact H.
  - destruct H as [H _]. rewrite Hcan in H. discriminate H.
  - destruct H.
Defined.

(** A descriptor reads its file.  After any sequence of descriptor calls
    from boot, opening a file gives a descriptor that no open file has, leaves
    the other descriptors as they are, and reading it in pieces of any sizes
    returns, piece after piece, the first bytes of the file, as many as were
    asked for or as the file has; the files are not changed. *)
Theorem fd_open_reads env calls cs fl ns f t data :
  let s := fd_runs env calls vfs_boot in
  FS s = Some f → FD_TABLE s = Some t → names cs → contents env f cs = Ok data →
  Z.of_nat (base.size (entries t)) < MAX_FDS → next_fd t + 1 < 2 ^ 31 →
  Forall (λ n, 0 ≤ n) ns → len data + total ns < 2 ^ 64 →
  returns (fd ← open (path_of cs) fl; d ← read_many env fd ns; mret (fd, d))
    (λ x s', entries t !! x.1 = None ∧ x.2 = take (Z.to_nat (total ns)) data ∧ FS s' = Some f) s.
Proof.
  intros s Hf Ht Hcs Hr Hsize Hnext Hns Hroom. assert (fds_ok t) as Hok by (eapply (fd_runs_ok env calls vfs_boot); [apply table_init|done]).
  wp_step. eapply returns_mono; [by apply (open_spec env s f t cs data)|]. intros fd s1 (Hnew & Hf1 & Hat & _).
  wp_step. eapply returns_mono; [apply (read_many_spec env s1 fd 0 data ns); [done|lia|done|lia]|].
  intros d s2 (Hd & Hf2 & _). wp_step. split_and!; [done|done|congruence].
Qed.

Definition demo_fd_calls : list fd_call := [COpen "/tmp/x" 0x42; CWrite 3 [1; 2; 3; 4; 5]; CClose 3; CClose 9].

Definition demo_vfs : Vfs := fd_runs demo_env demo_fd_calls vfs_boot.
Definition demo_vfs_fs : MemFs := default fs_new (FS demo_vfs).
Definition demo_vfs_table : FdTable := default (mkFdTable ∅ 0) (FD_TABLE demo_vfs).

Lemma fd_open_reads_witness :
  ∃ x s', (fd ← open "/tmp/x" 0; d ← read_many demo_env fd [2; 0; 9]; mret (fd, d)) demo_vfs = (Ok x, s') ∧
    x.2 = [1; 2; 3; 4; 5].
Proof.
  destruct (returns_eq _ _ _ (fd_open_reads demo_env demo_fd_calls ["tmp"; "x"] 0 [2; 0; 9] demo_vfs_fs demo_vfs_table [1; 2; 3; 4; 5]
    ltac:(vm_compute; reflexivity) ltac:(vm_compute; reflexivity) ltac:(repeat constructor; discriminate)
    ltac:(vm_compute; reflexivity) ltac:(vm_compute; reflexivity) ltac:(vm_compute; reflexivity)
    ltac:(repeat constructor; discriminate) ltac:(vm_compute; reflexivity))) as (x & s' & Heq & _ & Hd & _).
  exists x, s'. split; [exact Heq|exact Hd].
Defined.

(** *** What goes wrong at the edges *)

(** A write through a descriptor opened for reading is done, and a write
    replaces the whole file whatever the offset: after [1; 2; 3] and [4; 5] the
    file reads [4; 5]. *)
Lemma fd_write_overwrites :
  let s := fd_runs demo_env [COpen "/tmp/x" 0x40; CWrite 3 [1; 2; 3]; CWrite 3 [4; 5]] vfs_boot in
  writable 0x40 = false ∧ (read_all demo_env "/tmp/x" s).1 = Ok [4; 5] ∧ (offset <$> (t ← FD_TABLE s; entries t !! 3)) = Some 5.
Proof. split_and!; vm_compute; reflexivity. Qed.

(** Opening with [O_TRUNC] keeps the contents. *)
Lemma fd_open_keeps_contents :
  let s := fd_runs demo_env [COpen "/tmp/x" 0x42; CWrite 3 [1; 2; 3]; COpen "/tmp/x" 0x202] vfs_boot in
  truncates 0x202 = true ∧ (read_all demo_env "/tmp/x" s).1 = Ok [1; 2; 3].
Proof. split; vm_compute; reflexivity. Qed.

(** A new file is opened when the table is full already. *)
Lemma fd_create_ignores_limit s f t :
  FS s = Some f → FD_TABLE s = Some t → resolve "/x" f = None → next_fd t + 1 < 2 ^ 31 →
  wf f → next_ino f + 1 < 2 ^ 64 → returns (open "/x" 0x40) (λ fd _, fd = next_fd t) s.
Proof.
  intros Hf Ht Hr Hnext Hwf Hroom. unfold open. wp_step. apply (wp_ask_fs _ _ _ _ f Hf). rewrite Hr.
  change (creates 0x40) with true. change (split_path "/x") with ("/", "x"). cbv iota beta.
  wp_step. apply (wp_ask_fs _ _ _ _ f Hf). change (resolve "/" f) with (Some root_ino).
  wp_step. apply wp_ok_or; [intros ? [= <-]|done]. wp_step. apply (wp_with_fs _ _ _ _ _ f Hf).
  assert (lookup root_ino "x" f = None) as Hl by (revert Hr; unfold resolve; simpl; by destruct (lookup root_ino "x" f)).
  pose proof (create_file_is_ok root_ino "x" [] f Hroom eq_refl Hl) as Hc. destruct (wf_root f Hwf) as (n & e & Hn & He).
  unfold dir_at in Hc. rewrite Hn in Hc. simpl in Hc. rewrite He in Hc.
  eapply wp_mono; [by apply wp_is_ok, (create_file_spec demo_env)|..]; [intros i f' _|intros o f' [_ Hf']; by rewrite Hc in Hf'].
  unfold add_fd. wp_step. apply (wp_get_table _ _ _ t); [done|]. wp_step. apply wp_add; [lia|]. by do 3 wp_step.
Qed.
