(* ===== verification/Permissions.v ===== *)
(** * Permissions of applications

    [src/kernel/src/app/permissions.rs] (with [app/error.rs]): what an
    application may touch, and how that is stored.  Loading what was saved is
    shown to forget the lists of paths and domains. *)

From stdpp Require Import gmap strings.
From S2P Require Import Prelude.
From S2P Require Import Text.
From S2P Require Import Memfs.
From S2P Require Import Vfs.

(** ** The code *)

Module AppError.
Inductive t : Type :=
| NotFound
| AlreadyRegistered
| PermissionDenied
| LaunchFailed (msg : string)
| ResourceExhausted
| InstanceNotFound
| InvalidDescriptor (msg : string)
| IoError
| InvalidState (current expected : string)
| TooManyInstances.

Definition fmt (e : t) : string :=
  match e with
  | NotFound => "app not found"
  | AlreadyRegistered => "app already registered"
  | PermissionDenied => "permission denied"
  | LaunchFailed msg => "launch failed: " +:+ msg
  | ResourceExhausted => "resource exhausted"
  | InstanceNotFound => "app instance not found"
  | InvalidDescriptor msg => "invalid descriptor: " +:+ msg
  | IoError => "I/O error"
  | InvalidState current expected => "invalid state: current=" +:+ current +:+ ", expected=" +:+ expected
  | TooManyInstances => "too many app instances"
  end.
End AppError.

Module FsScope.
Inductive t : Type :=
| None
| AppDataOnly
| ReadOnly (paths : list string)
| ReadWrite (paths : list string).
End FsScope.

Module NetScope.
Inductive t : Type :=
| None
| LocalOnly
| AllowList (domains : list string)
| Full.
End NetScope.

Record AppPermissions : Type := mkAppPermissions {
  filesystem : FsScope.t;
  network : NetScope.t;
  notifications : bool;
  clipboard : bool;
  background : bool;
  max_memory_kb : Z;
}.

Definition default_web_app : AppPermissions := mkAppPermissions FsScope.AppDataOnly NetScope.Full false false false (64 * 1024).
Definition default_wasm_app : AppPermissions := mkAppPermissions FsScope.AppDataOnly NetScope.None false false false (32 * 1024).
Definition system_app : AppPermissions := mkAppPermissions (FsScope.ReadWrite []) NetScope.Full true true true 0.

Definition GLOBAL_READ_PATHS : list string := ["/system/fonts"; "/system/locale"; "/system/theme"].

Definition check_fs (permissions : AppPermissions) (app_data_dir path : string) (write : bool) : outcome AppError.t unit :=
  let normalised := trim_end_matches "/" path in
  let app_dir := trim_end_matches "/" app_data_dir in
  if starts_with normalised app_dir then Ok tt
  else if negb write && existsb (starts_with normalised) GLOBAL_READ_PATHS then Ok tt
  else
    let allowed paths := existsb (λ a, starts_with normalised (trim_end_matches "/" a)) paths in
    match filesystem permissions with
    | FsScope.None => Err AppError.PermissionDenied
    | FsScope.AppDataOnly => Err AppError.PermissionDenied
    | FsScope.ReadOnly paths =>
        if write then Err AppError.PermissionDenied
        else if allowed paths then Ok tt
        else Err AppError.PermissionDenied
    | FsScope.ReadWrite [] => Ok tt
    | FsScope.ReadWrite paths => if allowed paths then Ok tt else Err AppError.PermissionDenied
    end.

Definition check_net (permissions : AppPermissions) (domain : string) : outcome AppError.t unit :=
  match network permissions with
  | NetScope.None => Err AppError.PermissionDenied
  | NetScope.LocalOnly =>
      if String.eqb domain "127.0.0.1" || String.eqb domain "::1" || String.eqb domain "localhost" then Ok tt
      else Err AppError.PermissionDenied
  | NetScope.AllowList domains =>
      if existsb (λ d, String.eqb d domain) domains then Ok tt else Err AppError.PermissionDenied
  | NetScope.Full => Ok tt
  end.

Definition check_notification (permissions : AppPermissions) : bool := notifications permissions.
Definition check_clipboard (permissions : AppPermissions) : bool := clipboard permissions.
Definition check_background (permissions : AppPermissions) : bool := background permissions.

(** *** Persistence *)

Definition quoted (s : string) : string := quote +:+ s +:+ quote.
Definition show_bool (b : bool) : string := if b then "true" else "false".

Definition fs_str (p : AppPermissions) : string :=
  match filesystem p with
  | FsScope.None => quoted "none"
  | FsScope.AppDataOnly => quoted "app_data"
  | FsScope.ReadOnly _ => quoted "read_only"
  | FsScope.ReadWrite [] => quoted "full"
  | FsScope.ReadWrite _ => quoted "read_write"
  end.
Definition net_str (p : AppPermissions) : string :=
  match network p with
  | NetScope.None => quoted "none"
  | NetScope.LocalOnly => quoted "local"
  | NetScope.AllowList _ => quoted "allow_list"
  | NetScope.Full => quoted "full"
  end.

Definition key (k : string) : string := quoted k +:+ ":".
Definition json_head (p : AppPermissions) : string :=
  "{" +:+ key "fs" +:+ fs_str p +:+ "," +:+ key "net" +:+ net_str p +:+ "," +:+ key "notif" +:+ show_bool (notifications p)
  +:+ "," +:+ key "clip" +:+ show_bool (clipboard p) +:+ "," +:+ key "bg" +:+ show_bool (background p) +:+ "," +:+ key "mem".
Definition to_json (p : AppPermissions) : string := json_head p +:+ decimal (max_memory_kb p) +:+ "}".

Definition get_str (json k : string) : string :=
  match find_after (key k) json with
  | Some rest =>
      match trim_start rest with
      | String a inner =>
          if Ascii.eqb a (Ascii.ascii_of_nat 34)
          then match find_before (Ascii.ascii_of_nat 34) inner with Some s => s | None => EmptyString end
          else EmptyString
      | EmptyString => EmptyString
      end
  | None => EmptyString
  end.
Definition get_bool (json k : string) : bool :=
  match find_after (key k) json with
  | Some rest => starts_with (trim_start rest) "true"
  | None => false
  end.
Definition get_u32 (json k : string) : Z :=
  match find_after (key k) json with
  | Some rest => default 0 (parse_unsigned 32 (take_digits (trim_start rest)))
  | None => 0
  end.

Definition from_json (json : string) : AppPermissions :=
  let f := get_str json "fs" in
  let filesystem :=
    if String.eqb f "none" then FsScope.None
    else if String.eqb f "app_data" then FsScope.AppDataOnly
    else if String.eqb f "read_only" then FsScope.ReadOnly []
    else if String.eqb f "full" then FsScope.ReadWrite []
    else if String.eqb f "read_write" then FsScope.ReadWrite []
    else FsScope.AppDataOnly in
  let n := get_str json "net" in
  let network :=
    if String.eqb n "none" then NetScope.None
    else if String.eqb n "local" then NetScope.LocalOnly
    else if String.eqb n "allow_list" then NetScope.AllowList []
    else if String.eqb n "full" then NetScope.Full
    else NetScope.Full in
  mkAppPermissions filesystem network (get_bool json "notif") (get_bool json "clip") (get_bool json "bg") (get_u32 json "mem").

Definition permissions_path (app_id : Z) : string := "/system/apps/permissions/" +:+ decimal app_id +:+ ".json".

Definition save (self : AppPermissions) (app_id : Z) : M Vfs AppError.t unit := λ s,
  match write_all "/system/apps/permissions/.keep" [] s with
  | (Panic, s) => (Panic, s)
  | (_, s) =>
      match write_all (permissions_path app_id) (bytes_of (to_json self)) s with
      | (r, s) => (map_err (λ _, AppError.IoError) r, s)
      end
  end.

Definition load (env : Env) (app_id : Z) : M Vfs AppError.t AppPermissions := λ s,
  match read_all env (permissions_path app_id) s with
  | (Ok data, s) => (Ok (if utf8_valid data then from_json (string_of_bytes data) else default_web_app), s)
  | (Err _, s) => (Ok default_web_app, s)
  | (Panic, s) => (Panic, s)
  end.

(** ** What is read back *)

(** The scopes without their lists. *)
Definition forget (p : AppPermissions) : AppPermissions :=
  mkAppPermissions
    (match filesystem p with
     | FsScope.ReadOnly _ => FsScope.ReadOnly []
     | FsScope.ReadWrite _ => FsScope.ReadWrite []
     | f => f
     end)
    (match network p with NetScope.AllowList _ => NetScope.AllowList [] | n => n end)
    (notifications p) (clipboard p) (background p) (max_memory_kb p).

Lemma json_field p k r t : find_after (key k) (json_head p) = Some r → find_after (key k) (json_head p +:+ t) = Some (r +:+ t).
Proof. apply find_after_app. Qed.

Ltac json_case :=
  unfold get_str, get_bool; erewrite json_field by (vm_compute; reflexivity); reflexivity.

Lemma json_strings f n b1 b2 b3 m t :
  let p := mkAppPermissions f n b1 b2 b3 m in
  get_str (json_head p +:+ t) "fs" =
    match f with
    | FsScope.None => "none" | FsScope.AppDataOnly => "app_data" | FsScope.ReadOnly _ => "read_only"
    | FsScope.ReadWrite [] => "full" | FsScope.ReadWrite _ => "read_write"
    end ∧
  get_str (json_head p +:+ t) "net" =
    match n with
    | NetScope.None => "none" | NetScope.LocalOnly => "local" | NetScope.AllowList _ => "allow_list" | NetScope.Full => "full"
    end ∧
  get_bool (json_head p +:+ t) "notif" = b1 ∧ get_bool (json_head p +:+ t) "clip" = b2 ∧ get_bool (json_head p +:+ t) "bg" = b3 ∧
  find_after (key "mem") (json_head p +:+ t) = Some t.
Proof.
  destruct f as [| |l|[|x l]], n as [| |ds|], b1, b2, b3; (split_and!; [json_case..|erewrite json_field by (vm_compute; reflexivity); reflexivity]).
Qed.

Lemma json_roundtrip p : 0 ≤ max_memory_kb p < 2 ^ 32 → from_json (to_json p) = forget p.
Proof.
  destruct p as [f n b1 b2 b3 m]. intros Hm. simpl in Hm. unfold to_json, from_json. cbn [max_memory_kb].
  destruct (json_strings f n b1 b2 b3 m (decimal m +:+ "}")) as (-> & -> & -> & -> & -> & Hmem).
  assert (get_u32 (json_head (mkAppPermissions f n b1 b2 b3 m) +:+ decimal m +:+ "}") "mem" = m) as ->.
  { unfold get_u32. rewrite Hmem. rewrite trim_start_digits; [|apply decimal_digits|apply decimal_nonempty].
    rewrite take_digits_app by apply decimal_digits. simpl take_digits. rewrite app_nil_string, parse_decimal by done. done. }
  unfold forget. simpl. f_equal; [by destruct f as [| |l|[|x l]]|by destruct n].
Qed.

(** Texts of ASCII characters are stored and read back. *)
Definition is_ascii (a : Ascii.ascii) : bool := Z.of_nat (Ascii.nat_of_ascii a) <? 128.

Lemma utf8_ascii s : all_chars is_ascii s = true → utf8_valid (bytes_of s) = true.
Proof.
  induction s as [|a s IH]; [done|]. simpl. intros [Ha Hs]%andb_prop. unfold is_ascii in Ha.
  by rewrite Ha, IH.
Qed.

Lemma bytes_string s : string_of_bytes (bytes_of s) = s.
Proof.
  induction s as [|a s IH]; [done|]. unfold string_of_bytes in *. simpl. rewrite IH. f_equal. unfold byte_char.
  unfold Ascii.nat_of_ascii. rewrite N_nat_Z, N2Z.id. apply Ascii.ascii_N_embedding.
Qed.

Lemma digit_ascii a : is_digit a = true → is_ascii a = true.
Proof.
  unfold is_digit, digit, is_ascii. destruct ((48 <=? _) && _) eqn:Hr; [|done]. intros _.
  apply andb_prop in Hr as [_ Hhi%Z.leb_le]. apply Z.ltb_lt. lia.
Qed.

Lemma to_json_ascii p : all_chars is_ascii (to_json p) = true.
Proof.
  unfold to_json. rewrite !all_chars_app. apply andb_true_intro. split.
  - destruct p as [[| |l|[|x l]] [| |ds|] [] [] [] m]; vm_compute; reflexivity.
  - rewrite (all_chars_impl is_digit is_ascii); [done|apply digit_ascii|apply decimal_digits].
Qed.

Definition permissions_names (app_id : Z) : list string := ["system"; "apps"; "permissions"; decimal app_id +:+ ".json"].

Lemma permissions_names_path app_id : path_of (permissions_names app_id) = permissions_path app_id.
Proof. unfold permissions_path. simpl. rewrite app_nil_string. done. Qed.

Lemma permissions_names_ok app_id : names (permissions_names app_id).
Proof.
  repeat constructor; try done; [by destruct (decimal app_id) eqn:H; [apply decimal_nonempty in H|]| |].
  - pose proof (decimal_digits app_id) as Hd. pose proof (decimal_nonempty app_id) as Hn.
    destruct (decimal app_id) as [|a s]; [done|]. simpl in Hd. apply andb_prop in Hd as [Ha _].
    unfold is_dot. simpl. destruct (Ascii.eqb_spec a "."); [by subst|done].
  - unfold no_char. rewrite all_chars_app. change (all_chars _ (decimal app_id)) with (no_char "/" (decimal app_id)).
    by rewrite decimal_no_slash.
Qed.

(** What [load] returns, from what the file reads. *)
Definition loaded (o : outcome VfsError (list Z)) : AppPermissions :=
  match o with
  | Ok data => if utf8_valid data then from_json (string_of_bytes data) else default_web_app
  | _ => default_web_app
  end.

Lemma contents_no_panic env f cs : contents env f cs ≠ Panic.
Proof.
  unfold contents, reading, read_file, mbind, M_bind, get. destruct (walk root_ino cs f) as [i|]; [|done].
  destruct (inodes f !! i) as [n|]; [|done]. simpl. by destruct (content n).
Qed.

Lemma load_contents env s f app_id :
  FS s = Some f → load env app_id s = (Ok (loaded (contents env f (permissions_names app_id))), s).
Proof.
  intros Hf. unfold load. rewrite <- permissions_names_path, (read_all_contents env s f) by (done || apply permissions_names_ok).
  pose proof (contents_no_panic env f (permissions_names app_id)). by destruct (contents env f (permissions_names app_id)).
Qed.

Lemma loaded_saved p : 0 ≤ max_memory_kb p < 2 ^ 32 → loaded (Ok (bytes_of (to_json p))) = forget p.
Proof. intros Hm. unfold loaded. rewrite utf8_ascii by apply to_json_ascii. by rewrite bytes_string, json_roundtrip. Qed.

(** The write of the file [.keep] changes nothing that is loaded. *)
Lemma keep_file env s f :
  FS s = Some f → wf f → next_ino f + 1 < 2 ^ 64 →
  ∃ r f', write_all "/system/apps/permissions/.keep" [] s = (r, set_fs f' s) ∧ r ≠ Panic ∧ wf f' ∧ next_ino f' ≤ next_ino f + 1 ∧
    ∀ app_id, contents env f' (permissions_names app_id) = contents env f (permissions_names app_id).
Proof.
  intros Hf Hwf Hroom. set (cs := ["system"; "apps"; "permissions"; ".keep"]).
  assert (names cs) as Hcs by (repeat constructor; discriminate).
  pose proof (write_all_spec env s f cs [] Hf Hwf Hroom Hcs) as H. unfold wp in H.
  change (path_of cs) with "/system/apps/permissions/.keep" in H.
  destruct (write_all "/system/apps/permissions/.keep" [] s) as [[[]|e|] s'].
  - destruct H as (_ & f' & -> & [Hwf' Hn _ Hother]). exists (Ok tt), f'. split_and!; [done..|].
    intros app_id. apply Hother; [apply names_plain, permissions_names_ok|]. intros [= Heq].
    pose proof (decimal_digits app_id) as Hd. destruct (decimal app_id) as [|a u] eqn:E; [by apply decimal_nonempty in E|].
    injection Heq as -> _. done.
  - destruct H as (_ & _ & ->). exists (Err e), f. rewrite set_fs_id by done. split_and!; [done..|lia|done].
  - by destruct H as [[? ?] _].
Qed.

Lemma save_spec env s f p app_id :
  FS s = Some f → wf f → next_ino f + 2 < 2 ^ 64 → 0 ≤ max_memory_kb p < 2 ^ 32 →
  wp (save p app_id) (λ _ s', load env app_id s' = (Ok (forget p), s'))
    (λ o s', ∃ e, o = Some e ∧ e = AppError.IoError ∧ (load env app_id s').1 = (load env app_id s).1) s.
Proof.
  intros Hf Hwf Hroom Hmem. destruct (keep_file env s f Hf Hwf ltac:(lia)) as (r & f1 & Hk & Hr & Hwf1 & Hn1 & Hsame).
  pose proof (write_all_spec env (set_fs f1 s) f1 (permissions_names app_id) (bytes_of (to_json p)) eq_refl Hwf1 ltac:(lia)
    (permissions_names_ok app_id)) as H. unfold wp in *. rewrite permissions_names_path in H.
  assert (save p app_id s = let '(r, s) := write_all (permissions_path app_id) (bytes_of (to_json p)) (set_fs f1 s) in
    (map_err (λ _, AppError.IoError) r, s)) as ->.
  { unfold save. rewrite Hk. by destruct r. }
  destruct (write_all (permissions_path app_id) _ _) as [[[]|e'|] s']; simpl map_err; cbv iota beta.
  - destruct H as (_ & f' & -> & [_ _ Hw _]). by rewrite (load_contents env _ f'), Hw, loaded_saved.
  - destruct H as (_ & _ & ->). exists AppError.IoError. by rewrite (load_contents env _ f1), (load_contents env s f), Hsame.
  - by destruct H as [[? ?] _].
Qed.

(** C37. Permissions that were saved are loaded without their lists.  When
    [save] succeeds, [load] returns the same permissions with every list of
    paths or domains empty; so a scope that allowed writing some paths then
    allows every path, and an allow list denies every domain.  When [save]
    fails, what is loaded has not changed, and neither panics. *)
Theorem permissions_save_load env s f p app_id :
  FS s = Some f → wf f → next_ino f + 2 < 2 ^ 64 → 0 ≤ max_memory_kb p < 2 ^ 32 →
  match save p app_id s with
  | (Ok _, s') =>
      load env app_id s' = (Ok (forget p), s') ∧
      (∀ paths dir path w, filesystem p = FsScope.ReadWrite paths → check_fs (forget p) dir path w = Ok tt) ∧
      (∀ domains domain, network p = NetScope.AllowList domains → check_net (forget p) domain = Err AppError.PermissionDenied)
  | (Err e, s') => e = AppError.IoError ∧ (load env app_id s').1 = (load env app_id s).1
  | (Panic, _) => False
  end.
Proof.
  intros Hf Hwf Hroom Hmem. pose proof (save_spec env s f p app_id Hf Hwf Hroom Hmem) as H. unfold wp in H.
  destruct (save p app_id s) as [[[]|e|] s']; [|by destruct H as (e' & [= <-] & ? & ?)|by destruct H as (e' & ? & _)].
  split_and!; [done| |].
  - intros paths dir path w Hfs. unfold check_fs, forget. simpl. rewrite Hfs. by repeat case_match.
  - intros domains domain Hnet. unfold check_net, forget. simpl. by rewrite Hnet.
Qed.

Definition demo_perm_calls : list fs_call := [CMkdir 1 "system"; CMkdir 54 "apps"; CMkdir 55 "permissions"].
Definition demo_perm_fs : MemFs := (fs_runs demo_env demo_perm_calls init_fs).2.
Definition demo_perm_vfs : Vfs := mkVfs (Some demo_perm_fs) None [].
Definition demo_permissions : AppPermissions :=
  mkAppPermissions (FsScope.ReadWrite ["/srv"]) (NetScope.AllowList ["example.org"]) true false false 512.

Lemma permissions_save_load_witness :
  let s := (save demo_permissions 7 demo_perm_vfs).2 in
  (load demo_env 7 s).1 = Ok (mkAppPermissions (FsScope.ReadWrite []) (NetScope.AllowList []) true false false 512) ∧
  check_fs demo_permissions "/apps/data/7" "/etc/passwd" true = Err AppError.PermissionDenied ∧
  check_fs (forget demo_permissions) "/apps/data/7" "/etc/passwd" true = Ok tt.
Proof.
  destruct init_ok as (_ & Hwf & Hn).
  assert (wf demo_perm_fs) as Hwf'.
  { pose proof (fs_runs_ok demo_env demo_perm_calls init_fs Hwf ltac:(repeat constructor) ltac:(rewrite Hn; vm_compute; reflexivity)) as H.
    unfold demo_perm_fs. destruct (fs_runs demo_env demo_perm_calls init_fs) as [rs f]. exact (proj2 H). }
  assert (is_ok (save demo_permissions 7 demo_perm_vfs).1 = true) as Hok by (vm_compute; reflexivity).
  pose proof (permissions_save_load demo_env demo_perm_vfs demo_perm_fs demo_permissions 7 eq_refl Hwf'
    ltac:(vm_compute; reflexivity) ltac:(vm_compute; split; [discriminate|reflexivity])) as H.
  destruct (save demo_permissions 7 demo_perm_vfs) as [[u|e|] s']; [|discriminate Hok|discriminate Hok].
  destruct H as (H1 & H2 & _). split; [|split]; [exact (f_equal fst H1)|vm_compute; reflexivity|].
  exact (H2 ["/srv"] _ _ _ eq_refl).
Defined.

(** *** What goes wrong at the edges *)

(** A path that leaves the application's directory again is allowed. *)
Lemma check_fs_traversal p app_data_dir rest w :
  trim_end_matches "/" rest ≠ "" → trim_end_matches "/" app_data_dir = app_data_dir →
  check_fs p app_data_dir (app_data_dir +:+ rest) w = Ok tt.
Proof. intros Hr Hd. unfold check_fs, starts_with. by rewrite trim_end_app, Hd, prefix_app. Qed.

Lemma check_fs_traversal_passwd :
  check_fs default_web_app "/apps/data/5/" "/apps/data/5/../../etc/passwd" false = Ok tt.
Proof. reflexivity. Qed.

(** On the file system the kernel boots with, nothing can be saved: there is no
    directory for it, and [write_all] makes none.  The permissions that are
    loaded then are those of a web application, whose network is open. *)
Lemma save_fails_at_boot :
  (save default_wasm_app 7 vfs_boot).1 = Err AppError.IoError ∧
  (load demo_env 7 (save default_wasm_app 7 vfs_boot).2).1 = Ok default_web_app.
Proof. split; vm_compute; reflexivity. Qed.
