(* ===== verification/Sandbox.v ===== *)
(** * The sandbox of applications

    [src/kernel/src/vfs/sandbox.rs]: every application has a directory of its
    own, and its paths are resolved inside it.  Relative paths are shown to
    stay there, so applications that use them are isolated from each other;
    absolute paths are compared by prefix, which lets an application into the
    directory of another. *)

From stdpp Require Import gmap strings.
From S2P Require Import Prelude.
From S2P Require Import Text.
From S2P Require Import Memfs.
From S2P Require Import Vfs.
From S2P Require Import Permissions.

(** ** The code *)

Definition APP_DATA_ROOT : string := "/apps/data".
Definition app_home_dir (app_id : Z) : string := APP_DATA_ROOT +:+ "/" +:+ decimal app_id.

(** The loop over the components; [parts] as a list that grows at its end. *)
Fixpoint collapse (root_depth : Z) (parts : list string) (components : list string) : outcome VfsError (list string) :=
  match components with
  | [] => Ok parts
  | c :: cs =>
      if String.eqb c "" || String.eqb c "." then collapse root_depth parts cs
      else if String.eqb c ".." then
        if len parts <=? root_depth then Err PermissionDenied
        else collapse root_depth (removelast parts) cs
      else collapse root_depth (parts ++ [c]) cs
  end.

(** The components with a slash between two of them. *)
Fixpoint join (parts : list string) : string :=
  match parts with
  | [] => EmptyString
  | [p] => p
  | p :: ps => p +:+ "/" +:+ join ps
  end.

Definition normalise_within (root raw : string) : outcome VfsError string :=
  let root := trim_end_matches "/" root in
  let root_depth := count_char "/" root in
  let parts := List.filter (λ s, negb (String.eqb s "")) (split "/" root) in
  parts ← collapse root_depth parts (split "/" raw);
  let result := "/" +:+ join parts in
  if starts_with result root then Ok result else Err PermissionDenied.

Definition resolve_absolute (path home : string) (permissions : AppPermissions) : outcome VfsError string :=
  normalised ← normalise_within "/" path;
  if starts_with normalised home then Ok normalised
  else if existsb (starts_with normalised) GLOBAL_READ_PATHS then Ok normalised
  else
    match filesystem permissions with
    | FsScope.None => Err PermissionDenied
    | FsScope.AppDataOnly => Err PermissionDenied
    | FsScope.ReadOnly paths | FsScope.ReadWrite paths =>
        if existsb (starts_with normalised) paths then Ok normalised else Err PermissionDenied
    end.

Definition resolve_path (app_id : Z) (requested : string) (permissions : AppPermissions) : outcome VfsError string :=
  let home := app_home_dir app_id in
  if starts_with requested "/" then resolve_absolute requested home permissions
  else normalise_within home requested.

Definition read_all_sandboxed (env : Env) (app_id : Z) (path : string) (permissions : AppPermissions) : VfsM (list Z) :=
  resolved ← lift (resolve_path app_id path permissions);
  read_all env resolved.

Definition write_all_sandboxed (app_id : Z) (path : string) (data : list Z) (permissions : AppPermissions) : VfsM unit :=
  resolved ← lift (resolve_path app_id path permissions);
  let home := app_home_dir app_id in
  if starts_with resolved home then write_all resolved data
  else
    match filesystem permissions with
    | FsScope.ReadWrite paths => if existsb (starts_with resolved) paths then write_all resolved data else throw PermissionDenied
    | _ => throw PermissionDenied
    end.

(** [f.resolve(path).unwrap_or_else(|| f.mkdir(parent, name).unwrap_or(0))]. *)
Definition resolve_or_mkdir (path : string) (parent : Z) (name : string) : FsM Z := λ f,
  match resolve path f with
  | Some i => (Ok i, f)
  | None =>
      let '(r, f) := mkdir parent name f in
      (match r with Ok i => Ok i | Err _ => Ok 0 | Panic => Panic end, f)
  end.

Definition create_app_directory (app_id : Z) : VfsM unit :=
  with_fs (
    root ← gets (resolve "/");
    apps_ino ← resolve_or_mkdir "/apps" (default 0 root) "apps";
    data_ino ← resolve_or_mkdir "/apps/data" apps_ino "data";
    ignore (mkdir data_ino (decimal app_id))) IoError.

Definition remove_app_directory (app_id : Z) : VfsM unit :=
  with_fs (
    data_ino ← gets (resolve "/apps/data");
    match data_ino with
    | Some data_ino => ignore (remove data_ino (decimal app_id))
    | None => mret tt
    end) IoError.

(** ** Relative paths

    The components of a path below a directory, [None] when the path leaves
    it on the way. *)

Fixpoint inside (stack : list string) (components : list string) : option (list string) :=
  match components with
  | [] => Some stack
  | c :: cs =>
      if String.eqb c "" || String.eqb c "." then inside stack cs
      else if String.eqb c ".." then
        match stack with [] => None | _ => inside (removelast stack) cs end
      else inside (stack ++ [c]) cs
  end.

Definition home_parts (app_id : Z) : list string := ["apps"; "data"; decimal app_id].

Lemma home_dir_path app_id : app_home_dir app_id = path_of (home_parts app_id).
Proof. unfold app_home_dir, APP_DATA_ROOT. simpl. by rewrite app_nil_string. Qed.

Lemma decimal_not_dot app_id : is_dot (decimal app_id) = false.
Proof.
  pose proof (decimal_digits app_id) as Hd. destruct (decimal app_id) as [|a u]; [done|]. simpl in Hd. apply andb_prop in Hd as [Ha _].
  unfold is_dot. simpl. destruct (Ascii.eqb_spec a "."); [by subst|done].
Qed.

Lemma home_names app_id : names (home_parts app_id).
Proof. repeat constructor; try done; [apply decimal_nonempty|apply decimal_not_dot|apply decimal_no_slash]. Qed.

Lemma names_app p q : names p → names q → names (p ++ q).
Proof. intros Hp Hq. by apply Forall_app. Qed.

Lemma names_removelast p : names p → names (removelast p).
Proof.
  intros Hp. destruct p as [|c p _] using rev_ind; [done|]. rewrite removelast_last. by apply Forall_app in Hp as [? _].
Qed.

Lemma inside_names stack cs :
  names stack → Forall (λ c, no_char "/" c = true) cs → ∀ r, inside stack cs = Some r → names r.
Proof.
  intros Hs Hcs. revert stack Hs. induction Hcs as [|c cs Hc Hcs IH]; intros stack Hs r; simpl; [by intros [= <-]|].
  destruct (String.eqb_spec c ""); [by apply IH|]. destruct (String.eqb c ".") eqn:Hd1; [by apply IH|].
  simpl. destruct (String.eqb c "..") eqn:Hd2.
  - destruct stack as [|x stack]; [done|]. apply IH. by apply names_removelast.
  - apply IH. apply names_app; [done|]. repeat constructor; try done. unfold is_dot. by rewrite Hd1, Hd2.
Qed.

Lemma split_slash raw : Forall (λ c, no_char "/" c = true) (split "/" raw).
Proof. apply Forall_forall. intros c. apply split_no_char. Qed.

(** The loop of the code is the reference, above the root. *)
Lemma collapse_inside root cs : ∀ stack,
  collapse (len root) (root ++ stack) cs =
  match inside stack cs with Some r => Ok (root ++ r) | None => Err PermissionDenied end.
Proof.
  induction cs as [|c cs IH]; intros stack; simpl; [done|]. destruct (_ || _); [apply IH|]. destruct (String.eqb c "..").
  - destruct stack as [|x stack _] using rev_ind.
    + rewrite app_nil_r. by rewrite (proj2 (Z.leb_le _ _)).
    + assert ((len (root ++ stack ++ [x]) <=? len root) = false) as ->.
      { apply Z.leb_gt. unfold len. rewrite !length_app. simpl. lia. }
      rewrite app_assoc, !removelast_last. by destruct (stack ++ [x]) eqn:E; [by destruct stack|].
  - rewrite <- app_assoc. apply IH.
Qed.

Lemma join_path p ps : "/" +:+ join (p :: ps) = path_of (p :: ps).
Proof.
  revert p. induction ps as [|q ps IH]; intros p; [by cbn; rewrite app_nil_string|].
  cbn [join path_of]. f_equal. f_equal. exact (IH q).
Qed.

Lemma count_app c s t : count_char c (s +:+ t) = count_char c s + count_char c t.
Proof. induction s as [|a s IH]; [done|]. cbn [String.append count_char]. rewrite IH. lia. Qed.

Lemma filter_names cs : names cs → List.filter (λ s, negb (String.eqb s "")) cs = cs.
Proof.
  induction 1 as [|c cs (Hc & _) _ IH]; simpl; [done|]. destruct (String.eqb_spec c ""); [done|]. simpl. by rewrite IH.
Qed.

Lemma normalise_home app_id raw :
  normalise_within (app_home_dir app_id) raw =
  match inside [] (split "/" raw) with
  | Some cs => Ok (path_of (home_parts app_id ++ cs))
  | None => Err PermissionDenied
  end.
Proof.
  unfold normalise_within. assert (trim_end_matches "/" (app_home_dir app_id) = app_home_dir app_id) as ->.
  { unfold app_home_dir. rewrite <- app_assoc_string. pose proof (trim_end_none "/" (decimal app_id) (decimal_no_slash app_id)) as Ht.
    rewrite trim_end_app; rewrite Ht; [done|apply decimal_nonempty]. }
  assert (count_char "/" (app_home_dir app_id) = len (home_parts app_id)) as ->.
  { unfold app_home_dir. rewrite !count_app, (count_none _ (decimal app_id)) by apply decimal_no_slash. done. }
  assert (List.filter (λ s, negb (String.eqb s "")) (split "/" (app_home_dir app_id)) = home_parts app_id ++ []) as ->.
  { rewrite home_dir_path. change (path_of (home_parts app_id)) with ("" +:+ String "/" ("apps" +:+ path_of ["data"; decimal app_id])).
    rewrite split_app, split_path_of by (done || apply home_names). simpl List.filter.
    pose proof (filter_names _ (home_names app_id)) as H. simpl in H. exact H. }
  rewrite collapse_inside. destruct (inside [] (split "/" raw)) as [cs|]; [|done]. unfold mbind, outcome_bind.
  change (home_parts app_id ++ cs) with ("apps" :: "data" :: decimal app_id :: cs). rewrite join_path.
  change ("apps" :: "data" :: decimal app_id :: cs) with (home_parts app_id ++ cs).
  unfold starts_with. by rewrite home_dir_path, path_of_app, prefix_app.
Qed.

Lemma normalise_root cs : names cs → cs ≠ [] → normalise_within "/" (path_of cs) = Ok (path_of cs).
Proof.
  intros Hcs Hne. unfold normalise_within. destruct cs as [|c cs]; [done|].
  change (path_of (c :: cs)) with ("" +:+ String "/" (c +:+ path_of cs)). rewrite split_app, split_path_of by done.
  change (trim_end_matches "/" "/") with "". change (count_char "/" "") with (len (@nil string)).
  change (List.filter _ (split "/" "")) with ([] ++ [] : list string). rewrite collapse_inside.
  assert (∀ stack ds, names ds → inside stack ds = Some (stack ++ ds)) as Hin.
  { intros stack ds Hds. revert stack. induction Hds as [|d ds (Hd & Hdot & _) _ IH]; intros stack; simpl; [by rewrite app_nil_r|].
    apply orb_false_elim in Hdot as [Hd1 Hd2]. rewrite (proj2 (String.eqb_neq d "") Hd), Hd1, Hd2. simpl. by rewrite IH, <- app_assoc. }
  assert (inside [] ("" :: c :: cs) = Some (c :: cs)) as -> by exact (Hin [] (c :: cs) Hcs).
  unfold mbind, outcome_bind. rewrite app_nil_l, join_path. done.
Qed.

(** What a relative path of an application resolves to. *)
Lemma resolve_relative app_id raw p :
  starts_with raw "/" = false →
  (∃ cs, inside [] (split "/" raw) = Some cs ∧ names cs ∧ resolve_path app_id raw p = Ok (path_of (home_parts app_id ++ cs))) ∨
  inside [] (split "/" raw) = None ∧ resolve_path app_id raw p = Err PermissionDenied.
Proof.
  intros Hr. unfold resolve_path. rewrite Hr, normalise_home. destruct (inside [] (split "/" raw)) as [cs|] eqn:Hi; [|by right].
  left. exists cs. split_and!; [done| |done]. eapply inside_names; [|apply split_slash|done]. constructor.
Qed.

Lemma home_prefix app_id cs : starts_with (path_of (home_parts app_id ++ cs)) (app_home_dir app_id) = true.
Proof. unfold starts_with. by rewrite home_dir_path, path_of_app, prefix_app. Qed.

Lemma write_relative app_id raw p data cs :
  resolve_path app_id raw p = Ok (path_of (home_parts app_id ++ cs)) →
  write_all_sandboxed app_id raw data p = write_all (path_of (home_parts app_id ++ cs)) data.
Proof.
  intros Hr. unfold write_all_sandboxed. rewrite Hr. unfold mbind, M_bind, lift. by rewrite home_prefix.
Qed.

Lemma read_resolved env app_id raw p path :
  resolve_path app_id raw p = Ok path → read_all_sandboxed env app_id raw p = read_all env path.
Proof. intros Hr. unfold read_all_sandboxed. by rewrite Hr. Qed.

Lemma home_other n m cs ds : 0 ≤ n → 0 ≤ m → n ≠ m → home_parts m ++ ds ≠ home_parts n ++ cs.
Proof. intros Hn Hm Hne [= Heq _]. apply Hne. symmetry. by apply decimal_inj. Qed.

(** ** Properties *)

(** C36. Applications that use relative paths are isolated.  A write of
    application [n] either goes to a path below its own directory, and then the
    application reads what it wrote while every path outside that directory,
    so every relative path of every other application, reads as before; or it
    fails and changes nothing.  A path that leaves the directory on its way is
    refused. *)
Theorem sandbox_isolation env s f n raw data p :
  FS s = Some f → wf f → next_ino f + 1 < 2 ^ 64 → 0 ≤ n → starts_with raw "/" = false →
  match write_all_sandboxed n raw data p s with
  | (Ok _, s') =>
      is_Some (inside [] (split "/" raw)) ∧ (read_all_sandboxed env n raw p s').1 = Ok data ∧
      (∀ qs, names qs → (∀ cs, qs ≠ home_parts n ++ cs) → (read_all env (path_of qs) s').1 = (read_all env (path_of qs) s).1) ∧
      (∀ m raw' p', 0 ≤ m → m ≠ n → starts_with raw' "/" = false →
        (read_all_sandboxed env m raw' p' s').1 = (read_all_sandboxed env m raw' p' s).1)
  | (Err e, s') => s' = s ∧ (inside [] (split "/" raw) = None → e = PermissionDenied)
  | (Panic, _) => False
  end.
Proof.
  intros Hf Hwf Hroom Hn Hrel. destruct (resolve_relative n raw p Hrel) as [(cs & Hi & Hcs & Hr)|[Hi Hr]].
  2: { unfold write_all_sandboxed. rewrite Hr. by split. }
  rewrite (write_relative n raw p data cs Hr). assert (names (home_parts n ++ cs)) as Hnames by (apply names_app; [apply home_names|done]).
  pose proof (write_all_spec env s f _ data Hf Hwf Hroom Hnames) as H. unfold wp in H.
  destruct (write_all (path_of (home_parts n ++ cs)) data s) as [[[]|e|] s'].
  - destruct H as (_ & f' & -> & [_ _ Hsame Hother]). rewrite Hi, (read_resolved env n raw p _ Hr).
    assert (∀ qs, names qs → (∀ cs, qs ≠ home_parts n ++ cs) →
      (read_all env (path_of qs) (set_fs f' s)).1 = (read_all env (path_of qs) s).1) as Hout.
    { intros qs Hqs Hne. rewrite (read_all_contents env _ f'), (read_all_contents env s f) by done. simpl.
      apply Hother; [by apply names_plain|done]. }
    split_and!; [by eexists|by rewrite (read_all_contents env _ f')|done|].
    intros m raw' p' Hm Hne Hrel'. destruct (resolve_relative m raw' p' Hrel') as [(ds & _ & Hds & Hr')|[_ Hr']].
    + rewrite (read_resolved env m raw' p' _ Hr'). apply Hout; [apply names_app; [apply home_names|done]|].
      intros cs'. by apply home_other.
    + unfold read_all_sandboxed. by rewrite Hr'.
  - destruct H as (_ & _ & ->). split; [done|]. by rewrite Hi.
  - by destruct H as [[? ?] _].
Qed.

(** The file system with the directories of two applications. *)
Definition demo_sandbox : Vfs := (create_app_directory 1 (create_app_directory 12 vfs_boot).2).2.
Definition demo_sandbox_fs : MemFs := default fs_new (FS demo_sandbox).

Lemma demo_sandbox_wf : wf demo_sandbox_fs.
Proof.
  assert (demo_sandbox_fs = (fs_runs demo_env [CMkdir 1 "apps"; CMkdir 54 "data"; CMkdir 55 "12"; CMkdir 55 "1"] init_fs).2) as ->
    by (vm_compute; reflexivity).
  destruct init_ok as (_ & Hwf & Hn). apply fs_runs_ok; [done|by repeat constructor|by rewrite Hn].
Qed.

Lemma sandbox_isolation_witness :
  let s := (write_all_sandboxed 1 "a/../x" [1; 2] default_web_app demo_sandbox).2 in
  (read_all_sandboxed demo_env 1 "x" default_web_app s).1 = Ok [1; 2] ∧
  (read_all_sandboxed demo_env 12 "x" default_web_app s).1 = (read_all_sandboxed demo_env 12 "x" default_web_app demo_sandbox).1 ∧
  (write_all_sandboxed 1 "../2/x" [1] default_web_app demo_sandbox).1 = Err PermissionDenied.
Proof.
  assert (is_ok (write_all_sandboxed 1 "a/../x" [1; 2] default_web_app demo_sandbox).1 = true) as Hok by (vm_compute; reflexivity).
  pose proof (sandbox_isolation demo_env demo_sandbox demo_sandbox_fs 1 "a/../x" [1; 2] default_web_app
    ltac:(vm_compute; reflexivity) demo_sandbox_wf ltac:(vm_compute; reflexivity) ltac:(lia) eq_refl) as H.
  split; [vm_compute; reflexivity|]. split; [|vm_compute; reflexivity].
  destruct (write_all_sandboxed 1 "a/../x" [1; 2] default_web_app demo_sandbox) as [[u|e|] s']; [|discriminate Hok|discriminate Hok].
  destruct H as (_ & _ & _ & H). exact (H 12 "x" default_web_app ltac:(lia) ltac:(lia) eq_refl).
Defined.

(** Absolute paths let an application into the directory of another: home
    directories are compared by prefix, so whatever its permissions,
    application [n] reads and writes below the directory of every application
    whose number begins with the digits of its own. *)
Theorem sandbox_sibling_access env n d cs data p s :
  0 < n → 0 ≤ d < 10 → names cs →
  let path := app_home_dir (10 * n + d) +:+ path_of cs in
  write_all_sandboxed n path data p s = write_all path data s ∧ read_all_sandboxed env n path p s = read_all env path s.
Proof.
  intros Hn Hd Hcs path. assert (path = path_of (home_parts (10 * n + d) ++ cs)) as Hp by (by unfold path; rewrite home_dir_path, path_of_app).
  assert (starts_with path (app_home_dir n) = true) as Hpre.
  { unfold starts_with, path, app_home_dir. rewrite decimal_step by done. rewrite !app_assoc_string, <- !(app_assoc_string APP_DATA_ROOT).
    rewrite <- (app_assoc_string _ (decimal n)). apply prefix_app. }
  assert (resolve_path n path p = Ok path) as Hr.
  { unfold resolve_path. rewrite Hp at 1. change (starts_with (path_of _) "/") with true. cbv iota. unfold resolve_absolute.
    rewrite Hp. rewrite normalise_root; [|apply names_app; [apply home_names|done]|done]. unfold mbind, outcome_bind. by rewrite <- Hp, Hpre. }
  unfold write_all_sandboxed, read_all_sandboxed. rewrite Hr. unfold mbind, M_bind, lift. by rewrite Hpre.
Qed.

Lemma sandbox_sibling_access_witness :
  let s := (write_all_sandboxed 12 "key" [7] default_web_app demo_sandbox).2 in
  (read_all_sandboxed demo_env 1 "/apps/data/12/key" default_web_app s).1 = Ok [7].
Proof.
  intros s. etransitivity; [exact (f_equal fst (proj2 (sandbox_sibling_access demo_env 1 2 ["key"] [] default_web_app s ltac:(lia) ltac:(lia)
    ltac:(repeat constructor; discriminate))))|]. vm_compute. reflexivity.
Defined.

(** *** What goes wrong at the edges *)

(** The directory of an application that holds a file is not removed. *)
Lemma remove_keeps_data :
  let s := (write_all_sandboxed 12 "key" [7] default_web_app demo_sandbox).2 in
  let s' := (remove_app_directory 12 s).2 in
  (remove_app_directory 12 s).1 = Ok tt ∧ (read_all_sandboxed demo_env 12 "key" default_web_app s').1 = Ok [7].
Proof. split; vm_compute; reflexivity. Qed.

(** The scope of system applications, [ReadWrite] of no paths, is full access
    for [check_fs] and no access outside the home directory here. *)
Lemma system_app_denied :
  check_fs system_app (app_home_dir 1) "/etc/passwd" true = Ok tt ∧
  resolve_path 1 "/etc/passwd" system_app = Err PermissionDenied.
Proof. split; vm_compute; reflexivity. Qed.
