(* ===== verification/Ipc.v ===== *)
(** * Channels and capabilities

    [src/kernel/src/ipc]: messages ([message.rs]), channels ([channel.rs]),
    capabilities ([capability.rs]) and the registry of both ([mod.rs]).  A
    channel is shown to deliver what is sent to its peer, in order and without
    loss, and capabilities to lose rights only; the limit on the depth of a
    queue is looked up on the wrong side. *)

From stdpp Require Import gmap strings.
From S2P Require Import Prelude.

(** ** The code *)

Module Message.
Inductive MessageType : Type := Data | Request | Reply | Error | CapabilityTransfer | Close | Ping | Pong.

Record MessageHeader : Type := mkMessageHeader {
  msg_type : MessageType;
  flags : Z;
  sequence : Z;
  sender_pid : Z;
  data_len : Z;
  cap_count : Z;
}.

Definition new_data (n : Z) : MessageHeader := mkMessageHeader Data 0 0 0 (as_u32 n) 0.
Definition new_request (sequence n : Z) : MessageHeader := mkMessageHeader Request 0 sequence 0 (as_u32 n) 0.
Definition new_reply (sequence n : Z) : MessageHeader := mkMessageHeader Reply 0 sequence 0 (as_u32 n) 0.
Definition new_error (error_code : Z) : MessageHeader := mkMessageHeader Error error_code 0 0 0 0.

(** [size_of::<MessageHeader>()], by [repr(C)]: 4 + 4 + 8 + 8 + 4 + 4. *)
Definition HEADER_SIZE : Z := 32.
Definition header_total_size (h : MessageHeader) : Z := HEADER_SIZE + data_len h.

Record t : Type := mk {
  header : MessageHeader;
  data : list Z;
  capabilities : list Z;
}.

Definition new (ty : MessageType) : t := mk (mkMessageHeader ty 0 0 0 0 0) [] [].
Definition set_data (d : list Z) (m : t) : t :=
  let h := header m in
  mk (mkMessageHeader (msg_type h) (flags h) (sequence h) (sender_pid h) (as_u32 (len d)) (cap_count h)) d (capabilities m).
Definition set_sequence (s : Z) (m : t) : t :=
  let h := header m in
  mk (mkMessageHeader (msg_type h) (flags h) s (sender_pid h) (data_len h) (cap_count h)) (data m) (capabilities m).
Definition with_data (d : list Z) : t := set_data d (new Data).
Definition request (sequence : Z) (d : list Z) : t := set_data d (set_sequence sequence (new Request)).
Definition reply (sequence : Z) (d : list Z) : t := set_data d (set_sequence sequence (new Reply)).
Definition error (error_code : Z) : t := mk (new_error error_code) [] [].
Definition add_capability (cap_id : Z) (m : t) : t :=
  let h := header m in
  let caps := capabilities m ++ [cap_id] in
  mk (mkMessageHeader (msg_type h) (flags h) (sequence h) (sender_pid h) (data_len h) (as_u32 (len caps))) (data m) caps.
Definition set_sender (pid : Z) (m : t) : t :=
  let h := header m in
  mk (mkMessageHeader (msg_type h) (flags h) (sequence h) pid (data_len h) (cap_count h)) (data m) (capabilities m).
Definition total_size (m : t) : Z := HEADER_SIZE + len (data m) + len (capabilities m) * 8.
End Message.

Definition MAX_MESSAGE_SIZE : Z := 64 * 1024.
Definition MAX_QUEUE_DEPTH : Z := 256.

Module Channel.
Inductive ChannelState : Type := Open | Closed.

Record t : Type := mk {
  id : Z;
  peer_id : Z;
  state : ChannelState;
  queue : list Message.t;
  waiters : list Z;
  flow_control_limit : Z;
}.

Definition new (id peer_id : Z) : t := mk id peer_id Open [] [] MAX_QUEUE_DEPTH.
Definition is_open (c : t) : bool := match state c with Open => true | Closed => false end.
Definition is_closed (c : t) : bool := match state c with Open => false | Closed => true end.
Definition set_queue (q : list Message.t) (c : t) : t := mk (id c) (peer_id c) (state c) q (waiters c) (flow_control_limit c).
Definition close (c : t) : t := mk (id c) (peer_id c) Closed (queue c) (waiters c) (flow_control_limit c).
Definition enqueue (m : Message.t) (c : t) : t := set_queue (queue c ++ [m]) c.
Definition dequeue (c : t) : option Message.t * t :=
  match queue c with
  | [] => (None, c)
  | m :: q => (Some m, set_queue q c)
  end.
Definition peek (c : t) : option Message.t := head (queue c).
Definition queue_len (c : t) : Z := len (queue c).
Definition is_empty (c : t) : bool := match queue c with [] => true | _ => false end.
Definition is_full (c : t) : bool := flow_control_limit c <=? len (queue c).
Definition set_waiters (w : list Z) (c : t) : t := mk (id c) (peer_id c) (state c) (queue c) w (flow_control_limit c).
Definition add_waiter (task_id : Z) (c : t) : t := set_waiters (waiters c ++ [task_id]) c.
Definition remove_waiter (task_id : Z) (c : t) : t := set_waiters (List.filter (λ i, negb (i =? task_id)) (waiters c)) c.
Definition set_flow_control_limit (limit : Z) (c : t) : t := mk (id c) (peer_id c) (state c) (queue c) (waiters c) limit.
End Channel.

(** The rights are a [bitflags] type: what the code uses of the set operations
    that the macro generates. *)
Class Bitflags : Type := {
  contains : Z → Z → bool;
  intersection : Z → Z → Z;
  contains_spec : ∀ a b, contains a b = true ↔ ∀ i, 0 ≤ i → Z.testbit b i = true → Z.testbit a i = true;
  intersection_spec : ∀ a b i, 0 ≤ i → Z.testbit (intersection a b) i = Z.testbit a i && Z.testbit b i;
}.

Module Capability.
Inductive CapabilityType : Type := Channel | Memory | Device | File | Process | Network | Graphics.

Definition READ : Z := 0x01.
Definition WRITE : Z := 0x02.
Definition EXECUTE : Z := 0x04.
Definition DERIVE : Z := 0x08.
Definition REVOKE : Z := 0x10.
Definition TRANSFER : Z := 0x20.
Definition EXCLUSIVE : Z := 0x40.
Definition CONNECT : Z := 0x80.
Definition ALL : Z := 0xFF.

Record t : Type := mk {
  id : Z;
  cap_type : CapabilityType;
  rights : Z;
  resource_id : Z;
  owner : Z;
  children : list Z;
  parent : option Z;
  created_at : Z;
  revoked : bool;
}.

Definition new (id : Z) (ty : CapabilityType) : t := mk id ty 0 0 0 [] None 0 false.
Definition new_full (id : Z) (ty : CapabilityType) (resource_id owner : Z) : t := mk id ty ALL resource_id owner [] None 0 false.

Definition set_rights (r : Z) (c : t) : t :=
  mk (id c) (cap_type c) r (resource_id c) (owner c) (children c) (parent c) (created_at c) (revoked c).
Definition set_resource_id (r : Z) (c : t) : t :=
  mk (id c) (cap_type c) (rights c) r (owner c) (children c) (parent c) (created_at c) (revoked c).
Definition set_owner (o : Z) (c : t) : t :=
  mk (id c) (cap_type c) (rights c) (resource_id c) o (children c) (parent c) (created_at c) (revoked c).
Definition set_parent (p : option Z) (c : t) : t :=
  mk (id c) (cap_type c) (rights c) (resource_id c) (owner c) (children c) p (created_at c) (revoked c).
Definition add_child (i : Z) (c : t) : t :=
  mk (id c) (cap_type c) (rights c) (resource_id c) (owner c) (children c ++ [i]) (parent c) (created_at c) (revoked c).
Definition revoke (c : t) : t :=
  mk (id c) (cap_type c) (rights c) (resource_id c) (owner c) (children c) (parent c) (created_at c) true.
Definition is_valid (c : t) : bool := negb (revoked c).

Definition has_right `{Bitflags} (c : t) (right : Z) : bool := contains (rights c) right.

Definition derive `{Bitflags} (self : t) (new_id rights_ : Z) : option t :=
  if negb (has_right self DERIVE) then None
  else
    let new_rights := intersection (rights self) rights_ in
    Some (set_parent (Some (id self)) (set_resource_id (resource_id self) (set_rights new_rights (new new_id (cap_type self))))).
End Capability.

Module CapabilitySpace.
Record t : Type := mk {
  process_id : Z;
  capabilities : gset Z;
}.
Definition new (process_id : Z) : t := mk process_id ∅.
Definition add (cap_id : Z) (s : t) : t := mk (process_id s) ({[cap_id]} ∪ capabilities s).
Definition remove (cap_id : Z) (s : t) : bool * t :=
  (bool_decide (cap_id ∈ capabilities s), mk (process_id s) (capabilities s ∖ {[cap_id]})).
Definition contains (cap_id : Z) (s : t) : bool := bool_decide (cap_id ∈ capabilities s).
Definition count (s : t) : Z := Z.of_nat (size (capabilities s)).
End CapabilitySpace.

(** *** The registry *)

Inductive IpcError : Type :=
| NotInitialized | ChannelNotFound | ChannelClosed | QueueFull | QueueEmpty | MessageTooLarge
| InvalidCapability | PermissionDenied | WouldBlock.

Record IpcRegistry : Type := mkIpcRegistry {
  channels : gmap Z Channel.t;
  capabilities : gmap Z Capability.t;
  next_channel_id : Z;
  next_capability_id : Z;
}.
Abbreviation IpcM := (M IpcRegistry IpcError).

Definition new : IpcRegistry := mkIpcRegistry ∅ ∅ 1 1.
Definition set_channels (m : gmap Z Channel.t) (r : IpcRegistry) : IpcRegistry :=
  mkIpcRegistry m (capabilities r) (next_channel_id r) (next_capability_id r).
Definition set_capabilities (m : gmap Z Capability.t) (r : IpcRegistry) : IpcRegistry :=
  mkIpcRegistry (channels r) m (next_channel_id r) (next_capability_id r).

(** [fetch_add(1)] wraps. *)
Definition fetch_channel_id : IpcM Z := λ r,
  (Ok (next_channel_id r), mkIpcRegistry (channels r) (capabilities r) (as_u64 (next_channel_id r + 1)) (next_capability_id r)).
Definition fetch_capability_id : IpcM Z := λ r,
  (Ok (next_capability_id r), mkIpcRegistry (channels r) (capabilities r) (next_channel_id r) (as_u64 (next_capability_id r + 1))).

Definition create_channel_pair : IpcM (option (Z * Z)) :=
  id_a ← fetch_channel_id;
  id_b ← fetch_channel_id;
  modify (λ r, set_channels (<[id_a := Channel.new id_a id_b]> (channels r)) r);;
  modify (λ r, set_channels (<[id_b := Channel.new id_b id_a]> (channels r)) r);;
  mret (Some (id_a, id_b)).

Definition send (channel_id : Z) (message : Message.t) : IpcM unit :=
  if MAX_MESSAGE_SIZE <? len (Message.data message) then throw MessageTooLarge
  else
    r ← get;
    chan ← ok_or (channels r !! channel_id) ChannelNotFound;
    if Channel.is_closed chan then throw ChannelClosed
    else if MAX_QUEUE_DEPTH <=? Channel.queue_len chan then throw QueueFull
    else
      let peer_id := Channel.peer_id chan in
      r ← get;
      _ ← ok_or (channels r !! peer_id) ChannelNotFound;
      modify (λ r, set_channels (alter (Channel.enqueue message) peer_id (channels r)) r).

Definition receive (channel_id : Z) : IpcM Message.t :=
  r ← get;
  chan ← ok_or (channels r !! channel_id) ChannelNotFound;
  let '(m, chan) := Channel.dequeue chan in
  modify (λ r, set_channels (<[channel_id := chan]> (channels r)) r);;
  ok_or m QueueEmpty.

Definition close_channel (channel_id : Z) : IpcM unit :=
  r ← get;
  _ ← ok_or (channels r !! channel_id) ChannelNotFound;
  modify (λ r, set_channels (alter Channel.close channel_id (channels r)) r).

Definition create_capability (ty : Capability.CapabilityType) : IpcM Z :=
  id ← fetch_capability_id;
  modify (λ r, set_capabilities (<[id := Capability.new id ty]> (capabilities r)) r);;
  mret id.

Definition validate_capability (id : Z) : IpcM Capability.t :=
  r ← get;
  ok_or (capabilities r !! id) InvalidCapability.

Definition revoke_capability (id : Z) : IpcM unit :=
  r ← get;
  _ ← ok_or (capabilities r !! id) InvalidCapability;
  modify (λ r, set_capabilities (delete id (capabilities r)) r).

(** The functions of the module work on the global registry. *)
Definition init : option IpcRegistry := Some new.
Definition with_registry {A} (m : IpcM A) (g : option IpcRegistry) : outcome IpcError A * option IpcRegistry :=
  match g with
  | None => (Err NotInitialized, None)
  | Some r => let '(o, r) := m r in (o, Some r)
  end.
Definition create_channel (g : option IpcRegistry) : option (Z * Z) * option IpcRegistry :=
  match with_registry create_channel_pair g with
  | (Ok p, g) => (p, g)
  | (_, g) => (None, g)
  end.
Definition ipc_send (channel_id : Z) (m : Message.t) (g : option IpcRegistry) : outcome IpcError unit * option IpcRegistry :=
  with_registry (send channel_id m) g.
Definition ipc_receive (channel_id : Z) (g : option IpcRegistry) : outcome IpcError Message.t * option IpcRegistry :=
  with_registry (receive channel_id) g.

(** ** Delivery

    A run of the registry and the messages it has accepted and given out. *)

Inductive ipc_call : Type :=
| CCreate
| CSend (channel_id : Z) (message : Message.t)
| CReceive (channel_id : Z)
| CClose (channel_id : Z).

Inductive event : Type :=
| Sent (channel_id : Z) (message : Message.t)
| Received (channel_id : Z) (message : Message.t).

Definition ipc_run (c : ipc_call) (r : IpcRegistry) : list event * IpcRegistry :=
  match c with
  | CCreate => ([], (create_channel_pair r).2)
  | CSend i m => let '(o, r) := send i m r in (match o with Ok _ => [Sent i m] | _ => [] end, r)
  | CReceive i => let '(o, r) := receive i r in (match o with Ok m => [Received i m] | _ => [] end, r)
  | CClose i => ([], (close_channel i r).2)
  end.

Fixpoint ipc_runs (cs : list ipc_call) (r : IpcRegistry) : list event * IpcRegistry :=
  match cs with
  | [] => ([], r)
  | c :: cs => let '(e, r) := ipc_run c r in let '(es, r) := ipc_runs cs r in (e ++ es, r)
  end.

(** The messages accepted on a channel, and those taken from it. *)
Definition sent (i : Z) (es : list event) : list Message.t :=
  omap (λ e, match e with Sent j m => if decide (j = i) then Some m else None | _ => None end) es.
Definition received (i : Z) (es : list event) : list Message.t :=
  omap (λ e, match e with Received j m => if decide (j = i) then Some m else None | _ => None end) es.

Lemma sent_app i es es' : sent i (es ++ es') = sent i es ++ sent i es'.
Proof. apply omap_app. Qed.
Lemma received_app i es es' : received i (es ++ es') = received i es ++ received i es'.
Proof. apply omap_app. Qed.

(** The channels are pairs, and what was accepted on one side was taken on the
    other side or waits there. *)
Record delivery (es : list event) (r : IpcRegistry) : Prop := {
  dl_next : 0 < next_channel_id r;
  dl_pair : ∀ i c, channels r !! i = Some c → i < next_channel_id r ∧ Channel.peer_id c ≠ i ∧
    ∃ p, channels r !! Channel.peer_id c = Some p ∧ Channel.peer_id p = i;
  dl_queue : ∀ i c, channels r !! i = Some c → sent (Channel.peer_id c) es = received i es ++ Channel.queue c;
  dl_none : ∀ i, channels r !! i = None → sent i es = [] ∧ received i es = [];
}.

Lemma delivery_new : delivery [] new.
Proof. split; [done|intros i c H; simpl in H; by rewrite lookup_empty in H..|done]. Qed.

Lemma delivery_create es r :
  delivery es r → next_channel_id r + 2 < 2 ^ 64 →
  delivery es (create_channel_pair r).2 ∧ next_channel_id (create_channel_pair r).2 = next_channel_id r + 2.
Proof.
  intros [Hn Hp Hq Hno] Hroom. set (a := next_channel_id r).
  assert ((create_channel_pair r).2 = mkIpcRegistry (<[a + 1 := Channel.new (a + 1) a]> (<[a := Channel.new a (a + 1)]> (channels r)))
    (capabilities r) (a + 2) (next_capability_id r)) as ->.
  { unfold create_channel_pair, fetch_channel_id, mbind, M_bind, modify, set_channels. simpl. fold a.
    assert (as_u64 (a + 1) = a + 1) as Ha by (apply Z.mod_small; lia). rewrite Ha.
    assert (as_u64 (a + 1 + 1) = a + 2) as -> by (unfold as_u64, wrap; rewrite Z.mod_small; lia). done. }
  assert (∀ i, a ≤ i → channels r !! i = None) as Hfresh.
  { intros i Hi. destruct (channels r !! i) as [c|] eqn:Hc; [|done]. apply Hp in Hc as [? _]. lia. }
  split; [|done]. split; simpl; [lia| | |].
  - intros i c. rewrite !lookup_insert_Some. intros [[<- <-]|[Hi [[<- <-]|[Hi' Hc]]]]; simpl.
    + split_and!; [lia..|]. exists (Channel.new a (a + 1)). by rewrite lookup_insert_ne, lookup_insert_eq by lia.
    + split_and!; [lia..|]. exists (Channel.new (a + 1) a). by rewrite lookup_insert_eq.
    + destruct (Hp i c Hc) as (Hlt & Hne & p & Hpc & Hpp). split_and!; [lia|done|]. exists p. split; [|done].
      rewrite !lookup_insert_ne; [done|..]; intros Heq; rewrite <- Heq, Hfresh in Hpc by lia; done.
  - intros i c. rewrite !lookup_insert_Some. intros [[<- <-]|[Hi [[<- <-]|[Hi' Hc]]]]; simpl; [..|by apply Hq].
    + destruct (Hno a (Hfresh a ltac:(lia))) as [-> _]. by destruct (Hno (a + 1) (Hfresh (a + 1) ltac:(lia))) as [_ ->].
    + destruct (Hno a (Hfresh a ltac:(lia))) as [_ ->]. by destruct (Hno (a + 1) (Hfresh (a + 1) ltac:(lia))) as [-> _].
  - intros i. rewrite !lookup_insert_None. intros [[? _] _]. by apply Hno.
Qed.

(** A step on every channel that keeps the pairs and moves messages. *)
Lemma delivery_step es e r r' f :
  delivery es r → next_channel_id r' = next_channel_id r → (∀ i, channels r' !! i = f i <$> channels r !! i) →
  (∀ i c, channels r !! i = Some c → Channel.peer_id (f i c) = Channel.peer_id c ∧
    Channel.queue c ++ sent (Channel.peer_id c) e = received i e ++ Channel.queue (f i c)) →
  (∀ i, channels r !! i = None → sent i e = [] ∧ received i e = []) →
  delivery (es ++ e) r'.
Proof.
  intros [Hn Hp Hq Hno] Hnext Hr Hstep Hnone. split.
  - lia.
  - intros i c. rewrite Hr. intros (c0 & Hc & ->)%fmap_Some. destruct (Hstep i c0 Hc) as [Hpeer _].
    destruct (Hp i c0 Hc) as (Hlt & Hne & p & Hpc & Hpp). rewrite Hnext, Hpeer. split_and!; [done|done|].
    exists (f (Channel.peer_id c0) p). rewrite Hr, Hpc. split; [done|]. by destruct (Hstep _ p Hpc) as [-> _].
  - intros i c. rewrite Hr. intros (c0 & Hc & ->)%fmap_Some. destruct (Hstep i c0 Hc) as [Hpeer Hmove].
    rewrite Hpeer, sent_app, received_app, (Hq i c0 Hc), <- !app_assoc. by rewrite Hmove.
  - intros i. rewrite Hr, fmap_None. intros Hc. rewrite sent_app, received_app.
    destruct (Hno i Hc) as [-> ->]. by apply Hnone.
Qed.

Lemma alter_fmap {A} (g : A → A) k (m : gmap Z A) i : alter g k m !! i = (λ x, if decide (i = k) then g x else x) <$> m !! i.
Proof.
  destruct (decide (i = k)) as [->|Hne]; [rewrite lookup_alter_eq; by destruct (m !! k)|].
  rewrite lookup_alter_ne by done. by destruct (m !! i).
Qed.

Lemma delivery_send es r i m : delivery es r → wp (send i m) (λ _ r', delivery (es ++ [Sent i m]) r' ∧ next_channel_id r' = next_channel_id r) (λ _ r', r' = r) r.
Proof.
  intros Hd. unfold send. destruct (_ <? _); [by apply wp_throw|]. do 2 wp_step. wp_step.
  apply wp_ok_or; [intros c Hc|done]. destruct (Channel.is_closed c); [by apply wp_throw|].
  destruct (_ <=? _); [by apply wp_throw|]. do 3 wp_step. apply wp_ok_or; [intros p Hp|done]. wp_step. split; [|done].
  destruct (dl_pair es r Hd i c Hc) as (_ & _ & p' & Hp' & Hpeer). simplify_eq.
  eapply (delivery_step es _ r _ (λ j x, if decide (j = Channel.peer_id c) then Channel.enqueue m x else x)); [done|done| | |].
  - intros j. simpl. rewrite alter_fmap. done.
  - intros j x Hx. unfold sent, received. simpl. destruct (decide (j = Channel.peer_id c)) as [->|Hne].
    + simplify_eq. split; [done|]. rewrite decide_True by done. done.
    + split; [done|]. rewrite decide_False; [by rewrite app_nil_r|]. intros Heq. apply Hne.
      destruct (dl_pair es r Hd j x Hx) as (_ & _ & y & Hy & Hyj). congruence.
  - intros j Hj. unfold sent, received. simpl. rewrite decide_False; [done|]. intros <-. congruence.
Qed.

Lemma delivery_receive es r i :
  delivery es r → wp (receive i) (λ m r', delivery (es ++ [Received i m]) r' ∧ next_channel_id r' = next_channel_id r) (λ _ r', r' = r) r.
Proof.
  intros Hd. unfold receive. do 3 wp_step. apply wp_ok_or; [intros c Hc|done]. unfold Channel.dequeue.
  destruct (Channel.queue c) as [|m q] eqn:Hq.
  - do 2 wp_step. apply wp_throw. unfold set_channels. rewrite insert_id by done. by destruct r.
  - do 2 wp_step. apply wp_ok_or; [intros ? [= <-]|done]. split; [|done].
    eapply (delivery_step es _ r _ (λ j x, if decide (j = i) then Channel.set_queue q x else x)); [done|done| | |].
    + intros j. simpl. destruct (decide (j = i)) as [->|Hne]; [by rewrite lookup_insert_eq, Hc|].
      rewrite lookup_insert_ne by done. by destruct (channels r !! j).
    + intros j x Hx. unfold sent, received. simpl. destruct (decide (j = i)) as [->|Hne].
      * simplify_eq. rewrite decide_True by done. split; [done|]. simpl. by rewrite Hq, app_nil_r.
      * rewrite decide_False by done. split; [done|]. by rewrite app_nil_r.
    + intros j Hj. unfold sent, received. simpl. rewrite decide_False; [done|]. intros <-. congruence.
Qed.

Lemma delivery_close es r i :
  delivery es r → delivery es (close_channel i r).2 ∧ next_channel_id (close_channel i r).2 = next_channel_id r.
Proof.
  intros Hd. unfold close_channel, mbind, M_bind, get. destruct (channels r !! i) as [c|]; simpl; [|done]. split; [|done].
  rewrite <- (app_nil_r es). eapply (delivery_step es _ r _ (λ j x, if decide (j = i) then Channel.close x else x)); [done|done| |  |done].
  - intros j. simpl. by rewrite alter_fmap.
  - intros j x _. simpl. rewrite app_nil_r. by case_decide.
Qed.

Lemma ipc_run_delivery es r c :
  delivery es r → next_channel_id r + 2 < 2 ^ 64 →
  delivery (es ++ (ipc_run c r).1) (ipc_run c r).2 ∧ next_channel_id (ipc_run c r).2 ≤ next_channel_id r + 2.
Proof.
  intros Hd Hroom. destruct c as [|i m|i|i]; cbn [ipc_run fst snd].
  - rewrite app_nil_r. destruct (delivery_create es r Hd Hroom) as [? ->]. split; [done|lia].
  - pose proof (delivery_send es r i m Hd) as H. unfold wp in H. destruct (send i m r) as [[[]|e|] r']; simpl.
    + destruct H as [? ->]. split; [done|lia].
    + subst r'. rewrite app_nil_r. split; [done|lia].
    + subst r'. rewrite app_nil_r. split; [done|lia].
  - pose proof (delivery_receive es r i Hd) as H. unfold wp in H. destruct (receive i r) as [[m|e|] r']; simpl.
    + destruct H as [? ->]. split; [done|lia].
    + subst r'. rewrite app_nil_r. split; [done|lia].
    + subst r'. rewrite app_nil_r. split; [done|lia].
  - rewrite app_nil_r. destruct (delivery_close es r i Hd) as [? ->]. split; [done|lia].
Qed.

Lemma ipc_runs_delivery cs : ∀ es r,
  delivery es r → next_channel_id r + 2 * len cs < 2 ^ 64 → delivery (es ++ (ipc_runs cs r).1) (ipc_runs cs r).2.
Proof.
  induction cs as [|c cs IH]; intros es r Hd Hroom; simpl; [by rewrite app_nil_r|]. rewrite len_cons in Hroom. pose proof (len_nonneg cs).
  destruct (ipc_run_delivery es r c Hd ltac:(lia)) as [Hd' Hn]. destruct (ipc_run c r) as [e r1]. simpl in *.
  specialize (IH (es ++ e) r1 Hd' ltac:(lia)). destruct (ipc_runs cs r1) as [es' r2]. simpl in *. by rewrite app_assoc.
Qed.

(** ** Rights *)

Section rights.
Context `{Bitflags}.

(** [derived a b]: [b] comes from [a] by any number of derivations. *)
Inductive derived : Capability.t → Capability.t → Prop :=
| derived_refl c : derived c c
| derived_step a b c new_id r : derived a b → Capability.derive b new_id r = Some c → derived a c.

Lemma contains_trans a b c : contains a b = true → contains b c = true → contains a c = true.
Proof. rewrite !contains_spec. auto. Qed.

Lemma contains_intersection a b c : contains (intersection a b) c = contains a c && contains b c.
Proof.
  apply eq_true_iff_eq. rewrite andb_true_iff, !contains_spec. split.
  - intros Hi. split; intros i H0 Hc; specialize (Hi i H0 Hc); rewrite intersection_spec, andb_true_iff in Hi by done; tauto.
  - intros [Ha Hb] i H0 Hc. by rewrite intersection_spec, Ha, Hb.
Qed.

Lemma derive_spec a new_id r :
  Capability.derive a new_id r =
  if Capability.has_right a Capability.DERIVE
  then Some (Capability.mk new_id (Capability.cap_type a) (intersection (Capability.rights a) r) (Capability.resource_id a) 0 [] (Some (Capability.id a)) 0 false)
  else None.
Proof. unfold Capability.derive. by destruct (Capability.has_right a Capability.DERIVE). Qed.
End rights.

Lemma land_contains a b : (Z.land a b =? b) = true ↔ ∀ i, 0 ≤ i → Z.testbit b i = true → Z.testbit a i = true.
Proof.
  rewrite Z.eqb_eq. split.
  - intros Heq i _ Hi. rewrite <- Heq, Z.land_spec, andb_true_iff in Hi. tauto.
  - intros Hall. apply Z.bits_inj'. intros i Hi. rewrite Z.land_spec. destruct (Z.testbit b i) eqn:Hb; [|by rewrite andb_false_r].
    by rewrite Hall.
Qed.

(** The operations on the bits. *)
#[export] Instance Z_bitflags : Bitflags := {
  contains a b := Z.land a b =? b;
  intersection := Z.land;
  contains_spec := land_contains;
  intersection_spec a b i _ := Z.land_spec a b i;
}.

(** ** Properties *)

(** C38. Channels deliver in order and without loss.  After any sequence of
    creations, sends, receives and closings, the channels come in pairs, and
    the messages accepted on one side are, in order, those taken on the other
    side followed by those that wait there. *)
Theorem ipc_delivery cs :
  1 + 2 * len cs < 2 ^ 64 →
  let '(es, r) := ipc_runs cs new in
  ∀ i c, channels r !! i = Some c →
    sent (Channel.peer_id c) es = received i es ++ Channel.queue c ∧
    ∃ p, channels r !! Channel.peer_id c = Some p ∧ Channel.peer_id p = i ∧
      sent i es = received (Channel.peer_id c) es ++ Channel.queue p.
Proof.
  intros Hlen. pose proof (ipc_runs_delivery cs [] new delivery_new Hlen) as H. destruct (ipc_runs cs new) as [es r]. simpl in H.
  intros i c Hc. split; [by apply (dl_queue _ _ H)|]. destruct (dl_pair _ _ H i c Hc) as (_ & _ & p & Hp & Hpeer).
  exists p. split_and!; [done|done|]. rewrite <- (dl_queue _ _ H _ p Hp). by rewrite Hpeer.
Qed.

Definition demo_message (b : Z) : Message.t := Message.with_data [b].
Definition demo_ipc_calls : list ipc_call :=
  [CCreate; CSend 1 (demo_message 7); CSend 1 (demo_message 8); CReceive 2; CSend 2 (demo_message 9); CClose 1; CSend 1 (demo_message 5)].

Lemma ipc_delivery_witness :
  let '(es, r) := ipc_runs demo_ipc_calls new in
  sent 1 es = [demo_message 7; demo_message 8] ∧ received 2 es = [demo_message 7] ∧
  (Channel.queue <$> channels r !! 2) = Some [demo_message 8].
Proof.
  pose proof (ipc_delivery demo_ipc_calls ltac:(vm_compute; reflexivity)) as H.
  destruct (ipc_runs demo_ipc_calls new) as [es r] eqn:E. vm_compute in E. injection E as <- <-.
  destruct (H 2 _ eq_refl) as [H2 _]. split; [|split]; [exact H2|reflexivity|reflexivity].
Defined.

(** The depth of a queue has no bound: [send] compares the limit with the
    sender's own queue, so any number of messages is accepted for a peer that
    does not receive, whatever it holds already. *)
Theorem ipc_queue_unbounded i m n r c p :
  channels r !! i = Some c → channels r !! Channel.peer_id c = Some p → Channel.peer_id c ≠ i →
  Channel.is_closed c = false → Channel.queue_len c < MAX_QUEUE_DEPTH → len (Message.data m) ≤ MAX_MESSAGE_SIZE →
  returns (iter_m (send i) (replicate n m)) (λ _ r', ∃ p', channels r' !! Channel.peer_id c = Some p' ∧
    Channel.queue_len p' = Channel.queue_len p + Z.of_nat n) r.
Proof.
  intros Hc Hp Hne Hopen Hown Hsize. revert r p Hc Hp. induction n as [|n IH]; intros r p Hc Hp; simpl.
  - wp_step. exists p. split; [done|]. lia.
  - wp_step. unfold send. destruct (Z.ltb_spec MAX_MESSAGE_SIZE (len (Message.data m))); [lia|].
    do 3 wp_step. rewrite Hc. apply wp_ok_or; [intros ? [= <-]|done]. rewrite Hopen.
    destruct (Z.leb_spec MAX_QUEUE_DEPTH (Channel.queue_len c)); [lia|]. do 3 wp_step. rewrite Hp.
    apply wp_ok_or; [intros ? [= <-]|done]. wp_step.
    eapply returns_mono; [apply (IH _ (Channel.enqueue m p)); simpl; [by rewrite lookup_alter_ne|by rewrite lookup_alter_eq, Hp]|].
    intros _ r' (p' & Hp' & Hlen). exists p'. split; [done|]. rewrite Hlen. unfold Channel.queue_len. simpl. rewrite len_app, len_cons. unfold len. simpl. lia.
Qed.

Lemma ipc_queue_unbounded_witness :
  ∃ r', iter_m (send 1) (replicate 300 (demo_message 7)) (create_channel_pair new).2 = (Ok tt, r') ∧
    (Channel.queue_len <$> channels r' !! 2) = Some 300.
Proof.
  destruct (returns_eq _ _ _ (ipc_queue_unbounded 1 (demo_message 7) 300 (create_channel_pair new).2 _ _ eq_refl eq_refl
    ltac:(discriminate) eq_refl ltac:(vm_compute; reflexivity) ltac:(vm_compute; discriminate))) as (u & r' & Heq & p' & Hp' & Hlen).
  destruct u. exists r'. split; [exact Heq|]. change (Channel.peer_id _) with 2 in Hp'. rewrite Hp'. simpl. rewrite Hlen. reflexivity.
Defined.

(** A capability that is derived, directly or over other capabilities,
    keeps the type and the resource of the first and has only rights that the
    first has; and one without the right to derive is not derived from. *)
Theorem capability_attenuates `{Bitflags} a b :
  derived a b →
  Capability.cap_type b = Capability.cap_type a ∧ Capability.resource_id b = Capability.resource_id a ∧
  (∀ r, Capability.has_right b r = true → Capability.has_right a r = true) ∧
  (a = b ∨ Capability.has_right a Capability.DERIVE = true).
Proof.
  induction 1 as [c|a b c new_id r _ IH Hd]; [by split_and!; [..|left]|].
  rewrite derive_spec in Hd. destruct (Capability.has_right b Capability.DERIVE) eqn:Hb; [|done]. injection Hd as <-. simpl.
  destruct IH as (-> & -> & Hr & _). split_and!; [done|done| |right; by apply Hr].
  intros x. unfold Capability.has_right at 1. simpl. rewrite contains_intersection, andb_true_iff. intros [Hx _]. by apply Hr.
Qed.

Definition demo_cap : Capability.t := Capability.new_full 1 Capability.File 9 4.
Definition demo_derived : Capability.t := default demo_cap (Capability.derive demo_cap 2 0x0B).
Definition demo_derived_twice : Capability.t := default demo_cap (Capability.derive demo_derived 3 0x05).

Lemma capability_attenuates_witness :
  Capability.rights demo_derived_twice = 0x01 ∧ Capability.resource_id demo_derived_twice = 9.
Proof.
  split; [reflexivity|].
  exact (proj1 (proj2 (capability_attenuates demo_cap demo_derived_twice
    (derived_step _ demo_derived _ 3 0x05 (derived_step _ demo_cap _ 2 0x0B (derived_refl _) eq_refl) eq_refl)))).
Defined.

(** *** What goes wrong at the edges *)

(** Revoking a capability leaves those derived from it in the registry. *)
Lemma revoke_is_shallow r a b :
  capabilities r !! a = Some (Capability.new_full a Capability.File 9 4) → a ≠ b →
  Capability.derive (Capability.new_full a Capability.File 9 4) b Capability.READ = capabilities r !! b →
  ∃ c, (validate_capability b (revoke_capability a r).2).1 = Ok c ∧ Capability.parent c = Some a.
Proof.
  intros Ha Hne Hb. rewrite derive_spec in Hb. simpl in Hb.
  unfold revoke_capability, validate_capability, mbind, M_bind, get. rewrite Ha. simpl. rewrite lookup_delete_ne, <- Hb by done.
  by eexists.
Qed.
