(* ===== verification/Services.v ===== *)
(** * The service registry

    [src/kernel/src/ipc/services.rs]: named services, their states and their
    connections.  The two tables of the registry are shown to agree and the
    connections to be counted and limited, as long as registrations do not
    overlap: the check for the name and the insertion are two critical
    sections. *)

From stdpp Require Import gmap strings sorting.
From S2P Require Import Prelude.
From S2P Require Import Text.
From S2P Require Import Ipc.

(** ** The code *)

Inductive ServiceState : Type := Starting | Running | Stopping | Stopped | Failed.
#[export] Instance ServiceState_eq : EqDecision ServiceState.
Proof. solve_decision. Defined.

Record ServiceInfo : Type := mkServiceInfo {
  id : Z;
  name : string;
  description : string;
  version : Z;
  state : ServiceState;
  required_rights : Z;
  max_connections : Z;
  current_connections : Z;
  owner_pid : Z;
}.

Definition ServiceInfo_new (id : Z) (name : string) : ServiceInfo :=
  mkServiceInfo id name "" 1 Starting Capability.CONNECT 256 0 0.
Definition set_description (d : string) (i : ServiceInfo) : ServiceInfo :=
  mkServiceInfo (id i) (name i) d (version i) (state i) (required_rights i) (max_connections i) (current_connections i) (owner_pid i).
Definition set_version (v : Z) (i : ServiceInfo) : ServiceInfo :=
  mkServiceInfo (id i) (name i) (description i) v (state i) (required_rights i) (max_connections i) (current_connections i) (owner_pid i).
Definition set_required_rights (r : Z) (i : ServiceInfo) : ServiceInfo :=
  mkServiceInfo (id i) (name i) (description i) (version i) (state i) r (max_connections i) (current_connections i) (owner_pid i).
Definition set_max_connections (m : Z) (i : ServiceInfo) : ServiceInfo :=
  mkServiceInfo (id i) (name i) (description i) (version i) (state i) (required_rights i) m (current_connections i) (owner_pid i).
Definition set_owner (p : Z) (i : ServiceInfo) : ServiceInfo :=
  mkServiceInfo (id i) (name i) (description i) (version i) (state i) (required_rights i) (max_connections i) (current_connections i) p.
Definition set_info_state (st : ServiceState) (i : ServiceInfo) : ServiceInfo :=
  mkServiceInfo (id i) (name i) (description i) (version i) st (required_rights i) (max_connections i) (current_connections i) (owner_pid i).
Definition set_current (n : Z) (i : ServiceInfo) : ServiceInfo :=
  mkServiceInfo (id i) (name i) (description i) (version i) (state i) (required_rights i) (max_connections i) n (owner_pid i).

Definition can_accept_connection (i : ServiceInfo) : bool :=
  bool_decide (state i = Running) && (current_connections i <? max_connections i).

Record ServiceConnection : Type := mkServiceConnection {
  service_id : Z;
  capability : Capability.t;
  channel : Channel.t;
  connection_id : Z;
}.

Record RegisteredService : Type := mkRegisteredService {
  info : ServiceInfo;
  accept_channel : Channel.t;
  connections : list Z;
}.

Inductive ServiceError : Type :=
| NotFound (what : string)
| AlreadyExists (what : string)
| PermissionDenied
| NotRunning
| TooManyConnections
| InvalidName (what : string)
| InternalError (what : string).

Record ServiceRegistry : Type := mkServiceRegistry {
  by_name : gmap string RegisteredService;
  by_id : gmap Z string;
  next_id : Z;
  next_connection_id : Z;
}.
Abbreviation ServiceM := (M ServiceRegistry ServiceError).

Definition new : ServiceRegistry := mkServiceRegistry ∅ ∅ 1 1.
Definition set_by_name (m : gmap string RegisteredService) (r : ServiceRegistry) : ServiceRegistry :=
  mkServiceRegistry m (by_id r) (next_id r) (next_connection_id r).
Definition set_by_id (m : gmap Z string) (r : ServiceRegistry) : ServiceRegistry :=
  mkServiceRegistry (by_name r) m (next_id r) (next_connection_id r).

(** The characters of a string, from its UTF-8. *)
Definition code (a : Ascii.ascii) : Z := Z.of_nat (Ascii.nat_of_ascii a).
Fixpoint chars (s : string) : list Z :=
  match s with
  | EmptyString => []
  | String a s1 =>
      if code a <? 0x80 then code a :: chars s1
      else match s1 with
           | EmptyString => []
           | String b s2 =>
               if code a <? 0xE0 then (code a mod 32 * 64 + code b mod 64) :: chars s2
               else match s2 with
                    | EmptyString => []
                    | String c s3 =>
                        if code a <? 0xF0 then (code a mod 16 * 4096 + code b mod 64 * 64 + code c mod 64) :: chars s3
                        else match s3 with
                             | EmptyString => []
                             | String d s4 =>
                                 (code a mod 8 * 262144 + code b mod 64 * 4096 + code c mod 64 * 64 + code d mod 64) :: chars s4
                             end
                    end
           end
  end.

Section registry.
(** [char::is_alphanumeric] beyond ASCII is a table of the Unicode standard;
    the rights are a [bitflags] type. *)
Context (unicode_alphanumeric : Z → bool) `{Bitflags}.

Definition is_alphanumeric (c : Z) : bool :=
  if c <? 0x80 then ((48 <=? c) && (c <=? 57)) || ((65 <=? c) && (c <=? 90)) || ((97 <=? c) && (c <=? 122))
  else unicode_alphanumeric c.

Definition validate_name (name : string) : bool :=
  if String.eqb name "" || (255 <? Z.of_nat (String.length name)) then false
  else if starts_with name "." then false
  else forallb (λ c, is_alphanumeric c || (c =? 46) || (c =? 95) || (c =? 45)) (chars name).

(** The critical sections of [register]: the check under the read lock, the
    identifier, and the insertion under the write locks. *)
Definition register_check (name : string) : ServiceM unit :=
  if String.eqb name "" || negb (validate_name name) then throw (InvalidName name)
  else
    r ← get;
    match by_name r !! name with
    | Some _ => throw (AlreadyExists name)
    | None => mret tt
    end.

Definition register_id : ServiceM Z :=
  r ← get;
  n ← add_or_panic 64 (next_id r) 1;
  modify (λ r, mkServiceRegistry (by_name r) (by_id r) n (next_connection_id r));;
  mret (next_id r).

Definition register_insert (i : Z) (name description : string) (owner_pid required_rights : Z) : ServiceM (Z * Channel.t) :=
  let ch := Channel.new i i in
  let info := set_owner owner_pid (set_required_rights required_rights (set_description description (ServiceInfo_new i name))) in
  modify (λ r, set_by_name (<[name := mkRegisteredService info ch []]> (by_name r)) r);;
  modify (λ r, set_by_id (<[i := name]> (by_id r)) r);;
  mret (i, ch).

Definition register (name description : string) (owner_pid required_rights : Z) : ServiceM (Z * Channel.t) :=
  register_check name;;
  i ← register_id;
  register_insert i name description owner_pid required_rights.

Definition show_id (i : Z) : string := "ID: ServiceId(" +:+ decimal i +:+ ")".

Definition name_of (i : Z) : ServiceM string :=
  r ← get;
  ok_or (by_id r !! i) (NotFound (show_id i)).

Definition set_service (name : string) (s : RegisteredService) : ServiceM unit :=
  modify (λ r, set_by_name (<[name := s]> (by_name r)) r).

Definition set_state (i : Z) (st : ServiceState) : ServiceM unit :=
  name ← name_of i;
  r ← get;
  match by_name r !! name with
  | Some service => set_service name (mkRegisteredService (set_info_state st (info service)) (accept_channel service) (connections service))
  | None => throw (NotFound name)
  end.

Definition unregister (i : Z) : ServiceM unit :=
  name ← name_of i;
  modify (λ r, set_by_name (delete name (by_name r)) r);;
  modify (λ r, set_by_id (delete i (by_id r)) r).

Definition lookup (name : string) (r : ServiceRegistry) : option ServiceInfo := info <$> by_name r !! name.
Definition lookup_by_id (i : Z) (r : ServiceRegistry) : option ServiceInfo := name ← by_id r !! i; lookup name r.

Definition connect (name : string) (client_capability : Capability.t) : ServiceM ServiceConnection :=
  r ← get;
  service ← ok_or (by_name r !! name) (NotFound name);
  if bool_decide (state (info service) ≠ Running) then throw NotRunning
  else if negb (can_accept_connection (info service)) then throw TooManyConnections
  else if negb (contains (Capability.rights client_capability) (required_rights (info service))) then throw PermissionDenied
  else
    let cid := next_connection_id r in
    n ← add_or_panic 64 cid 1;
    modify (λ r, mkServiceRegistry (by_name r) (by_id r) (next_id r) n);;
    let ch := Channel.new cid (id (info service)) in
    cur ← add_or_panic 32 (current_connections (info service)) 1;
    set_service name (mkRegisteredService (set_current cur (info service)) (accept_channel service) (connections service ++ [cid]));;
    mret (mkServiceConnection (id (info service)) client_capability ch cid).

(** [position] and [remove]: the first one goes. *)
Fixpoint remove_first (x : Z) (l : list Z) : list Z :=
  match l with
  | [] => []
  | y :: l => if y =? x then l else y :: remove_first x l
  end.

Definition disconnect (i cid : Z) : ServiceM unit :=
  name ← name_of i;
  r ← get;
  match by_name r !! name with
  | Some service =>
      if existsb (Z.eqb cid) (connections service)
      then set_service name (mkRegisteredService (set_current (Z.max 0 (current_connections (info service) - 1)) (info service))
             (accept_channel service) (remove_first cid (connections service)))
      else mret tt
  | None => throw (NotFound name)
  end.

(** In the order of the names. *)
Definition key_le (x y : string * RegisteredService) : Prop := String.leb x.1 y.1 = true.
#[local] Instance key_le_dec x y : Decision (key_le x y) := decide (String.leb x.1 y.1 = true).
Definition sorted_services (r : ServiceRegistry) : list (string * RegisteredService) := merge_sort key_le (map_to_list (by_name r)).
Definition list_services (r : ServiceRegistry) : list ServiceInfo := (λ x, info x.2) <$> sorted_services r.
Definition list_by_prefix (pre : string) (r : ServiceRegistry) : list ServiceInfo :=
  (λ x, info x.2) <$> List.filter (λ x, starts_with x.1 pre) (sorted_services r).

Definition register_service (name description : string) (owner_pid : Z) : ServiceM (Z * Channel.t) :=
  register name description owner_pid Capability.CONNECT.
Definition start_service (i : Z) : ServiceM unit := set_state i Running.
Definition stop_service (i : Z) : ServiceM unit := set_state i Stopped.

Record ServiceBuilder : Type := mkServiceBuilder {
  b_name : string;
  b_description : string;
  b_owner_pid : Z;
  b_required_rights : Z;
  b_max_connections : Z;
}.
Definition builder_register (b : ServiceBuilder) : ServiceM (Z * Channel.t) :=
  register (b_name b) (b_description b) (b_owner_pid b) (b_required_rights b).

(** ** The invariant *)

Record service_ok (r : ServiceRegistry) (n : string) (s : RegisteredService) : Prop := {
  so_name : name (info s) = n;
  so_id : by_id r !! id (info s) = Some n;
  so_count : current_connections (info s) = len (connections s);
  so_max : max_connections (info s) = 256 ∧ current_connections (info s) ≤ 256;
  so_conns : NoDup (connections s);
  so_fresh : Forall (λ c, c < next_connection_id r) (connections s);
}.

Record inv (r : ServiceRegistry) : Prop := {
  iv_services : ∀ n s, by_name r !! n = Some s → service_ok r n s;
  iv_ids : ∀ i n, by_id r !! i = Some n → i < next_id r ∧ ∃ s, by_name r !! n = Some s ∧ id (info s) = i;
  iv_disjoint : ∀ n s n' s' c, by_name r !! n = Some s → by_name r !! n' = Some s' →
    c ∈ connections s → c ∈ connections s' → n = n';
}.

Definition keeps {A} (m : ServiceM A) (Q : A → ServiceRegistry → Prop) (r : ServiceRegistry) : Prop :=
  wp m (λ a r', inv r' ∧ next_id r' ≤ next_id r + 1 ∧ next_connection_id r' ≤ next_connection_id r + 1 ∧ Q a r')
    (λ e r', is_Some e ∧ r' = r) r.

Lemma inv_new : inv new.
Proof. split; intros *; simpl; rewrite lookup_empty; done. Qed.

Lemma wp_name_of i Q X r :
  (∀ n, by_id r !! i = Some n → Q n r) → (by_id r !! i = None → X (Some (NotFound (show_id i))) r) → wp (name_of i) Q X r.
Proof. intros HQ HX. unfold name_of. do 2 wp_step. by apply wp_ok_or. Qed.

(** One service is replaced, keeping its name and identifier. *)
Lemma inv_set n s s' r nc :
  inv r → by_name r !! n = Some s → next_connection_id r ≤ nc →
  name (info s') = n → id (info s') = id (info s) → max_connections (info s') = 256 →
  current_connections (info s') = len (connections s') → current_connections (info s') ≤ 256 →
  NoDup (connections s') → Forall (λ c, c < nc) (connections s') →
  (∀ c, c ∈ connections s' → c ∈ connections s ∨ next_connection_id r ≤ c) →
  inv (mkServiceRegistry (<[n := s']> (by_name r)) (by_id r) (next_id r) nc).
Proof.
  intros [Hs Hi Hd] Hn Hnc Hname Hid Hmax Hcount Hle Hnd Hfresh Hconn. split; simpl.
  - intros n' t. rewrite lookup_insert_Some. intros [[<- <-]|[Hne Ht]].
    + destruct (Hs _ _ Hn) as [_ Hbi _ _ _ _]. split; simpl; try done. by rewrite Hid.
    + destruct (Hs _ _ Ht) as [? ? ? ? ? Hf]. split; simpl; try done. eapply Forall_impl; [exact Hf|]. simpl. lia.
  - intros i n' Hin. destruct (Hi i n' Hin) as (Hlt & t & Ht & Htid). split; [done|].
    destruct (decide (n = n')) as [<-|Hne]; [|exists t; by rewrite lookup_insert_ne].
    exists s'. rewrite lookup_insert_eq. split; [done|]. simplify_eq. congruence.
  - intros n1 s1 n2 s2 c. rewrite !lookup_insert_Some.
    assert (∀ n2 s2, n ≠ n2 → by_name r !! n2 = Some s2 → c ∈ connections s' → c ∈ connections s2 → False) as Hx.
    { intros n3 s3 Hne H3 Hc Hc3. destruct (Hconn c Hc) as [Hc'|Hc']; [apply Hne; by eapply Hd|].
      destruct (Hs _ _ H3) as [_ _ _ _ _ Hf]. rewrite Forall_forall in Hf. specialize (Hf c Hc3). simpl in Hf. lia. }
    intros [[<- <-]|[Hne1 H1]] [[<- <-]|[Hne2 H2]] Hc1 Hc2; [done|by destruct (Hx n2 s2)|by destruct (Hx n1 s1)|by eapply Hd].
Qed.

Lemma register_keeps n d o rr r :
  inv r → next_id r + 1 < 2 ^ 64 →
  keeps (register n d o rr) (λ x r', x.1 = next_id r ∧ lookup_by_id x.1 r' = lookup n r' ∧
    lookup n r' = Some (mkServiceInfo x.1 n d 1 Starting rr 256 0 o)) r.
Proof.
  intros Hinv Hroom. unfold keeps, register, register_check. wp_step.
  destruct (String.eqb n "" || negb (validate_name n)); [by apply wp_throw|]. do 2 wp_step.
  destruct (by_name r !! n) as [s|] eqn:Hn; [by apply wp_throw|]. wp_step. unfold register_id. do 4 wp_step. apply wp_add; [done|].
  do 3 wp_step. unfold register_insert. do 5 wp_step. unfold set_by_id, set_by_name. simpl. destruct Hinv as [Hs Hi Hd].
  assert (by_id r !! next_id r = None) as Hfresh.
  { destruct (by_id r !! next_id r) as [m|] eqn:Hm; [|done]. apply Hi in Hm as [? _]. lia. }
  split; [split; simpl|split_and!; [lia|lia|done|..]].
  - intros n' t. rewrite lookup_insert_Some. intros [[<- <-]|[Hne Ht]].
    + split; simpl; [done|by rewrite lookup_insert_eq|done|done|by apply NoDup_nil|by apply Forall_nil].
    + destruct (Hs _ _ Ht) as [? Hbi ? ? ? ?]. split; simpl; try done. rewrite lookup_insert_ne; [done|]. intros Heq. congruence.
  - intros i n'. rewrite lookup_insert_Some. intros [[<- <-]|[Hne Hin]].
    + split; [lia|]. eexists. by rewrite lookup_insert_eq.
    + destruct (Hi i n' Hin) as (Hlt & t & Ht & Htid). split; [lia|]. exists t. split; [|done]. rewrite lookup_insert_ne; [done|]. congruence.
  - intros n1 s1 n2 s2 c. rewrite !lookup_insert_Some. intros [[<- <-]|[_ H1]] [[<- <-]|[_ H2]] Hc1 Hc2; try done;
      [by apply not_elem_of_nil in Hc1|by apply not_elem_of_nil in Hc2|by eapply Hd].
  - unfold lookup_by_id. simpl. by rewrite lookup_insert_eq.
  - unfold lookup. simpl. by rewrite lookup_insert_eq.
Qed.

Lemma set_state_keeps i st r :
  inv r → keeps (set_state i st) (λ _ r', lookup_by_id i r' = set_info_state st <$> lookup_by_id i r) r.
Proof.
  intros Hinv. unfold keeps, set_state. wp_step. apply wp_name_of; [intros n Hn|intros _; by split; [eexists|]].
  do 2 wp_step. destruct (iv_ids r Hinv i n Hn) as (_ & s & Hs & Hid). rewrite Hs. unfold set_service. wp_step.
  destruct (iv_services r Hinv n s Hs) as [? ? ? [? ?] ? ?]. unfold set_by_name. split.
  - apply (inv_set n s); simpl; try done; auto.
  - simpl. split_and!; [lia..|]. unfold lookup_by_id, lookup. simpl. rewrite Hn. simpl. by rewrite lookup_insert_eq, Hs.
Qed.

Lemma unregister_keeps i r :
  inv r → keeps (unregister i) (λ _ r', lookup_by_id i r' = None ∧
    ∀ n, by_id r !! i = Some n → lookup n r' = None) r.
Proof.
  intros Hinv. unfold keeps, unregister. wp_step. apply wp_name_of; [intros n Hn|intros _; by split; [eexists|]].
  do 3 wp_step. unfold set_by_id, set_by_name. simpl. destruct (iv_ids r Hinv i n Hn) as (_ & s & Hs & Hid). destruct Hinv as [Hsv Hi Hd].
  split; [split; simpl|split_and!; [lia|lia|..]].
  - intros n' t. rewrite lookup_delete_Some. intros [Hne Ht]. destruct (Hsv _ _ Ht) as [? Hbi ? ? ? ?]. split; simpl; try done.
    rewrite lookup_delete_ne; [done|]. intros Heq. congruence.
  - intros j n'. rewrite lookup_delete_Some. intros [Hne Hj]. destruct (Hi j n' Hj) as (Hlt & t & Ht & Htid). split; [done|].
    exists t. split; [|done]. rewrite lookup_delete_ne; [done|]. intros <-. congruence.
  - intros n1 s1 n2 s2 c. rewrite !lookup_delete_Some. intros [_ H1] [_ H2]. by apply (Hd n1 s1 n2 s2).
  - unfold lookup_by_id. simpl. by rewrite lookup_delete_eq.
  - intros n' Hn'. simplify_eq. unfold lookup. simpl. by rewrite lookup_delete_eq.
Qed.

Lemma connect_keeps n cap r :
  inv r → next_connection_id r + 1 < 2 ^ 64 →
  keeps (connect n cap) (λ c r', connection_id c = next_connection_id r ∧ service_id c = Channel.peer_id (channel c) ∧
    ∃ i, lookup n r = Some i ∧ service_id c = id i ∧ state i = Running ∧ contains (Capability.rights cap) (required_rights i) = true ∧
      current_connections i < 256) r.
Proof.
  intros Hinv Hroom. unfold keeps, connect. do 3 wp_step. apply wp_ok_or; [intros s Hs|intros _; by split; [eexists|]].
  case_bool_decide as Hst; [by apply wp_throw; split; [eexists|]|].
  destruct (iv_services r Hinv n s Hs) as [Hname Hid Hcount [Hmax Hle] Hnd Hfresh].
  unfold can_accept_connection. case_bool_decide as Hrun; simpl; [|by apply wp_throw; split; [eexists|]].
  destruct (Z.ltb_spec (current_connections (info s)) (max_connections (info s))) as [Hlt|]; simpl; [|by apply wp_throw; split; [eexists|]].
  destruct (contains _ _) eqn:Hrights; simpl; [|by apply wp_throw; split; [eexists|]].
  wp_step. apply wp_add; [done|]. do 3 wp_step. apply wp_add; [lia|]. unfold set_service. do 3 wp_step. unfold set_by_name. simpl. split.
  - apply (inv_set n s); simpl; try done; [lia|rewrite len_app, len_cons; unfold len in *; simpl; lia|lia| | |].
    + apply NoDup_app. split_and!; [done| |apply NoDup_singleton]. intros c Hc ->%list_elem_of_singleton.
      rewrite Forall_forall in Hfresh. specialize (Hfresh _ Hc). simpl in Hfresh. lia.
    + apply Forall_app. split; [eapply Forall_impl; [exact Hfresh|simpl; lia]|]. constructor; [lia|constructor].
    + intros c [Hc| ->%list_elem_of_singleton]%elem_of_app; [by left|by right].
  - split_and!; [lia|lia|done|done|]. exists (info s). unfold lookup. rewrite Hs. split_and!; try done. lia.
Qed.

Lemma remove_first_elem x l c : c ∈ remove_first x l → c ∈ l.
Proof.
  induction l as [|y l IH]; simpl; [done|]. destruct (y =? x); [by right|]. intros [->|Hc]%elem_of_cons; [by left|right; auto].
Qed.

Lemma remove_first_spec x l :
  NoDup l → existsb (Z.eqb x) l = true → len (remove_first x l) = len l - 1 ∧ NoDup (remove_first x l) ∧ (x ∉ remove_first x l).
Proof.
  induction 1 as [|y l Hy Hnd IH]; simpl; [done|]. rewrite !len_cons. rewrite (Z.eqb_sym y x).
  destruct (Z.eqb_spec x y) as [->|Hne]; simpl; [intros _; split_and!; [lia|done|done]|].
  intros Hex. destruct (IH Hex) as (Hl & Hn & Hx). rewrite len_cons, Hl. split_and!; [lia| |].
  - constructor; [|done]. intros Hc%remove_first_elem. done.
  - intros [->|Hc]%elem_of_cons; done.
Qed.

Lemma disconnect_keeps i cid r : inv r → keeps (disconnect i cid) (λ _ _, True) r.
Proof.
  intros Hinv. unfold keeps, disconnect. wp_step. apply wp_name_of; [intros n Hn|intros _; by split; [eexists|]].
  do 2 wp_step. destruct (iv_ids r Hinv i n Hn) as (_ & s & Hs & Hid). rewrite Hs.
  destruct (existsb (Z.eqb cid) (connections s)) eqn:Hex; [|wp_step; split_and!; [done|lia|lia|done]].
  destruct (iv_services r Hinv n s Hs) as [? ? Hcount [? Hle] Hnd Hfresh]. destruct (remove_first_spec cid _ Hnd Hex) as (Hl & Hn' & _).
  pose proof (len_nonneg (remove_first cid (connections s))). unfold set_service. wp_step. unfold set_by_name. simpl. split.
  - apply (inv_set n s); simpl; try done; [lia|lia| |].
    + rewrite Forall_forall in *. intros c Hc%remove_first_elem. by apply Hfresh.
    + intros c Hc%remove_first_elem. by left.
  - split_and!; [lia|lia|done].
Qed.

(** *** Sequences of calls *)

Inductive service_call : Type :=
| CRegister (name description : string) (owner_pid required_rights : Z)
| CSetState (i : Z) (st : ServiceState)
| CUnregister (i : Z)
| CConnect (name : string) (cap : Capability.t)
| CDisconnect (i cid : Z).

Definition forget_result {A} (x : outcome ServiceError A * ServiceRegistry) : outcome ServiceError unit * ServiceRegistry :=
  (match x.1 with Ok _ => Ok tt | Err e => Err e | Panic => Panic end, x.2).

Definition service_run (c : service_call) (r : ServiceRegistry) : outcome ServiceError unit * ServiceRegistry :=
  match c with
  | CRegister n d o rr => forget_result (register n d o rr r)
  | CSetState i st => set_state i st r
  | CUnregister i => unregister i r
  | CConnect n cap => forget_result (connect n cap r)
  | CDisconnect i cid => disconnect i cid r
  end.

Fixpoint service_runs (cs : list service_call) (r : ServiceRegistry) : list (outcome ServiceError unit) * ServiceRegistry :=
  match cs with
  | [] => ([], r)
  | c :: cs => let '(x, r) := service_run c r in let '(xs, r) := service_runs cs r in (x :: xs, r)
  end.

Definition step_ok (r : ServiceRegistry) (x : outcome ServiceError unit * ServiceRegistry) : Prop :=
  x.1 ≠ Panic ∧ inv x.2 ∧ next_id x.2 ≤ next_id r + 1 ∧ next_connection_id x.2 ≤ next_connection_id r + 1.

Lemma keeps_step {A} (m : ServiceM A) Q r : inv r → keeps m Q r → step_ok r (forget_result (m r)).
Proof.
  unfold keeps, wp, step_ok, forget_result. intros Hinv Hk. destruct (m r) as [[a|e|] r']; simpl.
  - destruct Hk as (? & ? & ? & _). by split_and!.
  - destruct Hk as [_ ->]. split_and!; [done|done|lia|lia].
  - by destruct Hk as [[? ?] _].
Qed.

Lemma keeps_step_unit (m : ServiceM unit) Q r : inv r → keeps m Q r → step_ok r (m r).
Proof. intros Hinv Hk. pose proof (keeps_step m Q r Hinv Hk) as Hs. unfold forget_result in Hs. by destruct (m r) as [[[]|e|] r']. Qed.

Lemma service_run_ok c r :
  inv r → next_id r + 1 < 2 ^ 64 → next_connection_id r + 1 < 2 ^ 64 → step_ok r (service_run c r).
Proof.
  intros Hinv H1 H2. destruct c as [n d o rr|i st|i|n cap|i cid]; simpl.
  - by eapply keeps_step; [|apply register_keeps].
  - by eapply keeps_step_unit; [|apply set_state_keeps].
  - by eapply keeps_step_unit; [|apply unregister_keeps].
  - by eapply keeps_step; [|apply connect_keeps].
  - by eapply keeps_step_unit; [|apply disconnect_keeps].
Qed.

Lemma service_runs_ok cs : ∀ r,
  inv r → next_id r + len cs < 2 ^ 64 → next_connection_id r + len cs < 2 ^ 64 →
  (Panic ∉ (service_runs cs r).1) ∧ inv (service_runs cs r).2 ∧ next_connection_id (service_runs cs r).2 ≤ next_connection_id r + len cs.
Proof.
  induction cs as [|c cs IH]; intros r Hinv H1 H2; simpl; [split_and!; [by apply not_elem_of_nil|done|unfold len; simpl; lia]|].
  rewrite len_cons in *. pose proof (len_nonneg cs). destruct (service_run_ok c r Hinv ltac:(lia) ltac:(lia)) as (Hp & Hinv' & Hn & Hc).
  destruct (service_run c r) as [x r1]. simpl in *. destruct (IH r1 Hinv' ltac:(lia) ltac:(lia)) as (Hp' & Hinv2 & Hc').
  destruct (service_runs cs r1) as [xs r2]. simpl in *. split_and!; [|done|lia]. intros [?|?]%elem_of_cons; congruence.
Qed.

(** The two ways to look a service up agree. *)
Lemma lookups_agree r i x : inv r → lookup_by_id i r = Some x ↔ lookup (name x) r = Some x ∧ id x = i.
Proof.
  intros Hinv. unfold lookup_by_id, lookup. split.
  - intros (n & Hn & (s & Hs & ->)%fmap_Some)%bind_Some. destruct (iv_ids r Hinv i n Hn) as (_ & t & Ht & Htid). simplify_eq.
    destruct (iv_services r Hinv n s Hs) as [-> _ _ _ _ _]. by rewrite Hs.
  - intros [(s & Hs & ->)%fmap_Some <-]. destruct (iv_services r Hinv _ s Hs) as [Hname Hid _ _ _ _].
    rewrite Hid. simpl. by rewrite Hs.
Qed.
End registry.

(** ** Properties *)

(** C39. The registry is consistent.  After any sequence of registrations, state
    changes, removals, connections and disconnections none of which overlaps
    another, nothing panicked, looking a service up by name and by identifier
    agree, every service counts its connections, which are distinct and at most
    256, and a connection is given only to a running service below that limit
    and to a client that has the rights the service asks for. *)
Theorem services_consistent unicode_alphanumeric `{Bitflags} cs :
  1 + len cs < 2 ^ 64 - 1 →
  let '(rs, r) := service_runs unicode_alphanumeric cs new in
  (Panic ∉ rs) ∧
  (∀ i x, lookup_by_id i r = Some x ↔ lookup (name x) r = Some x ∧ id x = i) ∧
  (∀ n s, by_name r !! n = Some s →
    current_connections (info s) = len (connections s) ∧ len (connections s) ≤ 256 ∧ NoDup (connections s)) ∧
  (∀ n cap c r', connect n cap r = (Ok c, r') → ∃ x, lookup n r = Some x ∧ service_id c = id x ∧ state x = Running ∧
    current_connections x < 256 ∧ contains (Capability.rights cap) (required_rights x) = true).
Proof.
  intros Hlen. destruct (service_runs_ok unicode_alphanumeric cs new inv_new ltac:(simpl; lia) ltac:(simpl; lia)) as (Hp & Hinv & Hn).
  destruct (service_runs unicode_alphanumeric cs new) as [rs r]. simpl in *. split_and!; [done|intros; by apply lookups_agree| |].
  - intros n s Hs. destruct (iv_services r Hinv n s Hs) as [_ _ Hc [_ Hle] Hnd _]. split_and!; [done|lia|done].
  - intros n cap c r' Hconn. pose proof (connect_keeps n cap r Hinv ltac:(lia)) as Hk. unfold keeps, wp in Hk. rewrite Hconn in Hk.
    destruct Hk as (_ & _ & _ & _ & _ & x & ? & ? & ? & ? & ?). by exists x.
Qed.

Definition demo_client : Capability.t := Capability.new_full 1 Capability.Channel 0 0.
Definition demo_service_calls : list service_call :=
  [CRegister "kpio.vfs" "" 7 Capability.CONNECT; CConnect "kpio.vfs" demo_client; CSetState 1 Running; CConnect "kpio.vfs" demo_client;
   CRegister "kpio.vfs" "" 8 0; CConnect "kpio.vfs" demo_client; CDisconnect 1 1; CRegister ".x" "" 0 0].

Lemma services_consistent_witness :
  let '(rs, r) := service_runs (λ _, false) demo_service_calls new in
  rs = [Ok tt; Err NotRunning; Ok tt; Ok tt; Err (AlreadyExists "kpio.vfs"); Ok tt; Ok tt; Err (InvalidName ".x")] ∧
  (current_connections <$> lookup_by_id 1 r) = Some 1 ∧ lookup_by_id 1 r = lookup "kpio.vfs" r.
Proof.
  pose proof (services_consistent (λ _, false) demo_service_calls ltac:(vm_compute; reflexivity)) as H.
  destruct (service_runs (λ _, false) demo_service_calls new) as [rs r] eqn:E. vm_compute in E. injection E as <- <-.
  destruct H as (_ & H & _). split; [reflexivity|]. split; [reflexivity|].
  etransitivity; [apply (proj2 (H 1 (mkServiceInfo 1 "kpio.vfs" "" 1 Running Capability.CONNECT 256 1 7))); split; reflexivity|reflexivity].
Defined.

(** *** What goes wrong at the edges *)

(** Two registrations of one name that overlap both succeed: the second
    replaces the service of the first, whose identifier then leads to it. *)
Definition registration_race : ServiceM (Z * Z) :=
  register_check (λ _, false) "a";;
  register_check (λ _, false) "a";;
  i ← register_id;
  _ ← register_insert i "a" "" 7 0;
  j ← register_id;
  _ ← register_insert j "a" "" 8 0;
  mret (i, j).

Lemma register_race :
  (registration_race new).1 = Ok (1, 2) ∧ (id <$> lookup_by_id 1 (registration_race new).2) = Some 2.
Proof. split; vm_compute; reflexivity. Qed.

(** The limit that a builder asks for is not used. *)
Lemma builder_ignores_limit u `{Bitflags} b r : ∀ x r', builder_register u b r = (Ok x, r') →
  (max_connections <$> lookup (b_name b) r') = Some 256.
Proof.
  intros x r' Hr. unfold builder_register, register, register_check, register_id, register_insert, mbind, M_bind, get, modify in Hr.
  destruct (String.eqb (b_name b) "" || _); [done|]. simpl in Hr. destruct (by_name r !! b_name b); [done|]. simpl in Hr.
  unfold add_or_panic in Hr. destruct (checked_add 64 (next_id r) 1); [|done]. simpl in Hr. injection Hr as _ <-.
  unfold lookup. simpl. by rewrite lookup_insert_eq.
Qed.
