(* ===== verification/Apps.v ===== *)
(** * Installed applications

    [src/kernel/src/app/registry.rs] (the catalog, and how it is stored) and
    [app/lifecycle.rs] (the instances that run).  Names and scopes are shown to
    be unique, a stored catalog to be read back, and an instance to be restarted
    three times at most. *)

From stdpp Require Import gmap strings sorting.
From S2P Require Import Prelude.
From S2P Require Import Text.
From S2P Require Import Memfs.
From S2P Require Import Vfs.
From S2P Require Import Permissions.

(** ** The catalog *)

Inductive KernelAppType : Type :=
| WebApp (scope : string) (offline_capable : bool)
| WasmApp (wasi_version : string)
| NativeApp.

Record KernelAppDescriptor : Type := mkDescriptor {
  id : Z;
  app_type : KernelAppType;
  name : string;
  icon_data : option (list Z);
  install_path : string;
  entry_point : string;
  installed_at : Z;
  last_launched : Z;
}.

Definition REGISTRY_PATH : string := "/system/apps/registry.json".
Definition MAX_APPS : Z := 256.

(** [clock] is the counter behind [now]. *)
Record AppRegistry : Type := mkAppRegistry {
  apps : gmap Z KernelAppDescriptor;
  next_id : Z;
  clock : Z;
}.
Abbreviation AppM := (M AppRegistry AppError.t).

Definition new : AppRegistry := mkAppRegistry ∅ 1 1.

(** [BTreeMap::values]: in the order of the keys. *)
Definition id_le (x y : Z * KernelAppDescriptor) : Prop := x.1 ≤ y.1.
#[export] Instance id_le_dec x y : Decision (id_le x y) := decide (x.1 ≤ y.1).
Definition values (r : AppRegistry) : list KernelAppDescriptor := snd <$> merge_sort id_le (map_to_list (apps r)).

Definition find_by_name (n : string) (r : AppRegistry) : option KernelAppDescriptor :=
  List.find (λ d, String.eqb (name d) n) (values r).
Definition find_by_type (is_match : KernelAppType → bool) (r : AppRegistry) : list KernelAppDescriptor :=
  List.filter (λ d, is_match (app_type d)) (values r).
Definition web_apps (r : AppRegistry) : list KernelAppDescriptor :=
  find_by_type (λ t, match t with WebApp _ _ => true | _ => false end) r.
Definition get_app (i : Z) (r : AppRegistry) : option KernelAppDescriptor := apps r !! i.
Definition count (r : AppRegistry) : Z := Z.of_nat (base.size (apps r)).

Definition same_scope (t : KernelAppType) (d : KernelAppDescriptor) : bool :=
  match t, app_type d with
  | WebApp scope _, WebApp s _ => String.eqb s scope
  | _, _ => false
  end.

(** [fetch_add] wraps. *)
Definition now : AppM Z := λ r, (Ok (clock r), mkAppRegistry (apps r) (next_id r) (as_u64 (clock r + 1))).

Definition data_path (i : Z) : string := "/apps/data/" +:+ decimal i +:+ "/".

Definition register (t : KernelAppType) (n entry : string) (icon : option (list Z)) : AppM Z :=
  r ← get;
  if MAX_APPS <=? count r then throw AppError.ResourceExhausted
  else
    match find_by_name n r with
    | Some _ => throw AppError.AlreadyRegistered
    | None =>
        if existsb (same_scope t) (values r) then throw AppError.AlreadyRegistered
        else
          let i := next_id r in
          nx ← add_or_panic 64 i 1;
          modify (λ r, mkAppRegistry (apps r) nx (clock r));;
          at_ ← now;
          let d := mkDescriptor i t n icon (data_path i) entry at_ 0 in
          modify (λ r, mkAppRegistry (<[i := d]> (apps r)) (next_id r) (clock r));;
          mret i
    end.

Definition unregister (i : Z) : AppM KernelAppDescriptor :=
  r ← get;
  d ← ok_or (apps r !! i) AppError.NotFound;
  modify (λ r, mkAppRegistry (delete i (apps r)) (next_id r) (clock r));;
  mret d.

(** *** Persistence *)

Definition char_of (n : nat) : string := String (Ascii.ascii_of_nat n) EmptyString.
Fixpoint escape_json (s : string) : string :=
  match s with
  | EmptyString => EmptyString
  | String a s =>
      let n := Ascii.nat_of_ascii a in
      (if (n =? 34)%nat then "\" +:+ quote
       else if (n =? 92)%nat then "\\"
       else if (n =? 10)%nat then "\n"
       else if (n =? 13)%nat then "\r"
       else if (n =? 9)%nat then "\t"
       else String a EmptyString) +:+ escape_json s
  end.

Definition json_type (t : KernelAppType) : string :=
  match t with
  | WebApp scope offline =>
      "," +:+ key "type" +:+ quoted "web" +:+ "," +:+ key "scope" +:+ quoted (escape_json scope) +:+ "," +:+ key "offline" +:+ show_bool offline
  | WasmApp v => "," +:+ key "type" +:+ quoted "wasm" +:+ "," +:+ key "wasi_version" +:+ quoted (escape_json v)
  | NativeApp => "," +:+ key "type" +:+ quoted "native"
  end.

Definition json_app (d : KernelAppDescriptor) : string :=
  "{" +:+ key "id" +:+ decimal (id d)
  +:+ "," +:+ key "name" +:+ quoted (escape_json (name d))
  +:+ "," +:+ key "entry_point" +:+ quoted (escape_json (entry_point d))
  +:+ "," +:+ key "install_path" +:+ quoted (install_path d)
  +:+ "," +:+ key "installed_at" +:+ decimal (installed_at d)
  +:+ "," +:+ key "last_launched" +:+ decimal (last_launched d)
  +:+ json_type (app_type d) +:+ "}".

(** The objects with commas between them. *)
Fixpoint json_apps (first : bool) (ds : list KernelAppDescriptor) : string :=
  match ds with
  | [] => EmptyString
  | d :: ds => (if first then "" else ",") +:+ json_app d +:+ json_apps false ds
  end.

Definition serialize_json (r : AppRegistry) : string :=
  "{" +:+ key "next_id" +:+ decimal (next_id r) +:+ "," +:+ key "apps" +:+ "[" +:+ json_apps true (values r) +:+ "]}".

Definition get_string (obj k : string) : option string :=
  rest ← find_after (key k +:+ quote) obj;
  find_before (Ascii.ascii_of_nat 34) rest.
Definition get_u64 (obj k : string) : Z :=
  match find_after (key k) obj with
  | Some rest => default 0 (parse_unsigned 64 (take_digits rest))
  | None => 0
  end.
(** [get_bool] is the closure of [Permissions]. *)

(** [icon] is what reading [/apps/data/{id}/icon.png] gives. *)
Definition parse_app_object (icon : Z → option (list Z)) (obj : string) : option KernelAppDescriptor :=
  let i := get_u64 obj "id" in
  n ← get_string obj "name";
  let type_str := default "" (get_string obj "type") in
  let t :=
    if String.eqb type_str "web" then WebApp (default "" (get_string obj "scope")) (get_bool obj "offline")
    else if String.eqb type_str "wasm" then WasmApp (default "preview2" (get_string obj "wasi_version"))
    else NativeApp in
  Some (mkDescriptor i t n (icon i) (default (data_path i) (get_string obj "install_path")) (default "" (get_string obj "entry_point"))
    (get_u64 obj "installed_at") (get_u64 obj "last_launched")).

(** The loop over the characters: the depth of the braces (an [i32]; here an
    integer, which differs beyond 2^31 braces), the text since the
    brace that opened an object, and the objects. *)
Fixpoint objects (arr : string) (depth : Z) (start : option string) : list string :=
  match arr with
  | EmptyString => []
  | String c arr =>
      let grow := (λ t, t +:+ String c EmptyString) <$> start in
      if Ascii.eqb c "{" then
        objects arr (depth + 1) (if depth =? 0 then Some (String c EmptyString) else grow)
      else if Ascii.eqb c "}" then
        if depth - 1 =? 0 then
          match grow with
          | Some obj => obj :: objects arr (depth - 1) None
          | None => objects arr (depth - 1) None
          end
        else objects arr (depth - 1) grow
      else if Ascii.eqb c "]" && (depth =? 0) then []
      else objects arr depth grow
  end.

(** [rest.find(|c| !c.is_ascii_digit())]: nothing when digits are all there is. *)
Definition digits_before (s : string) : option string :=
  if all_chars is_digit s then None else Some (take_digits s).

Definition add_object (icon : Z → option (list Z)) (m : gmap Z KernelAppDescriptor) (obj : string) : gmap Z KernelAppDescriptor :=
  match parse_app_object icon obj with
  | Some d => <[id d := d]> m
  | None => m
  end.

Definition deserialize_json (icon : Z → option (list Z)) (json : string) (r : AppRegistry) : AppRegistry :=
  let nx :=
    match rest ← find_after (key "next_id") json; digits_before rest ≫= parse_unsigned 64 with
    | Some v => v
    | None => next_id r
    end in
  let m :=
    match find_after (key "apps" +:+ "[") json with
    | Some arr => foldl (add_object icon) (apps r) (objects arr 0 None)
    | None => apps r
    end in
  mkAppRegistry m nx (clock r).

Definition icon_of (env : Env) (s : Vfs) (i : Z) : option (list Z) :=
  match (read_all env (data_path i +:+ "icon.png") s).1 with Ok d => Some d | _ => None end.

Definition ensure_dir (path : string) : VfsM unit :=
  with_fs (λ f,
    match resolve path f with
    | Some _ => (Ok tt, f)
    | None =>
        match resolve "/" f with
        | Some parent_ino => ignore (mkdir parent_ino (trim_start_matches "/" path)) f
        | None => (Ok tt, f)
        end
    end) IoError.

Definition save_to_vfs (r : AppRegistry) : M Vfs AppError.t unit := λ s,
  let '(o, s) := (ensure_dir "/system";; ensure_dir "/system/apps";; write_all REGISTRY_PATH (bytes_of (serialize_json r))) s in
  (map_err (λ _, AppError.IoError) o, s).

Definition load_from_vfs (env : Env) (r : AppRegistry) : M Vfs AppError.t AppRegistry := λ s,
  match read_all env REGISTRY_PATH s with
  | (Ok data, s) =>
      (Ok (if utf8_valid data then deserialize_json (icon_of env s) (string_of_bytes data) r else r), s)
  | (Err NotFound, s) => (Ok r, s)
  | (Err _, s) => (Err AppError.IoError, s)
  | (Panic, s) => (Panic, s)
  end.

(** ** Instances *)

Inductive AppRunState : Type := Launching | Running | Suspended | Terminated | Failed.
#[export] Instance AppRunState_eq : EqDecision AppRunState.
Proof. solve_decision. Defined.

Definition run_state_str (s : AppRunState) : string :=
  match s with
  | Launching => "launching"
  | Running => "running"
  | Suspended => "suspended"
  | Terminated => "terminated"
  | Failed => "failed"
  end.

Record InstanceEntry : Type := mkInstanceEntry {
  app_id : Z;
  app_name : string;
  state : AppRunState;
  restart_count : Z;
  max_restarts : Z;
}.

Record AppInstanceInfo : Type := mkAppInstanceInfo {
  i_instance_id : Z;
  i_app_id : Z;
  i_app_name : string;
  i_state : AppRunState;
  i_restart_count : Z;
}.

Definition MAX_INSTANCES : Z := 64.

(** The manager with its clock, beside the catalog. *)
Record AppLifecycle : Type := mkAppLifecycle {
  instances : gmap Z InstanceEntry;
  next_instance_id : Z;
  life_clock : Z;
  APP_REGISTRY : AppRegistry;
}.
Abbreviation LifeM := (M AppLifecycle AppError.t).

Definition life_new (r : AppRegistry) : AppLifecycle := mkAppLifecycle ∅ 1 1 r.
Definition set_instances (m : gmap Z InstanceEntry) (l : AppLifecycle) : AppLifecycle :=
  mkAppLifecycle m (next_instance_id l) (life_clock l) (APP_REGISTRY l).
Definition set_run_state (st : AppRunState) (e : InstanceEntry) : InstanceEntry :=
  mkInstanceEntry (app_id e) (app_name e) st (restart_count e) (max_restarts e).
Definition set_last_launched (t : Z) (d : KernelAppDescriptor) : KernelAppDescriptor :=
  mkDescriptor (id d) (app_type d) (name d) (icon_data d) (install_path d) (entry_point d) (installed_at d) t.

Definition get_instance (i : Z) : LifeM InstanceEntry :=
  l ← get;
  ok_or (instances l !! i) AppError.InstanceNotFound.
Definition put_instance (i : Z) (e : InstanceEntry) : LifeM unit := modify (λ l, set_instances (<[i := e]> (instances l)) l).

Definition set_state (i : Z) (st : AppRunState) : LifeM unit :=
  e ← get_instance i;
  put_instance i (set_run_state st e).

(** [desc.last_launched = Self::now()], when the application is there. *)
Definition touch (i : Z) (l : AppLifecycle) : AppLifecycle :=
  let r := APP_REGISTRY l in
  match apps r !! i with
  | Some d =>
      mkAppLifecycle (instances l) (next_instance_id l) (as_u64 (life_clock l + 1))
        (mkAppRegistry (<[i := set_last_launched (life_clock l) d]> (apps r)) (next_id r) (clock r))
  | None => l
  end.

Definition launch (i : Z) : LifeM Z :=
  l ← get;
  if MAX_INSTANCES <=? Z.of_nat (base.size (instances l)) then throw AppError.TooManyInstances
  else
    d ← ok_or (get_app i (APP_REGISTRY l)) AppError.NotFound;
    let inst := next_instance_id l in
    nx ← add_or_panic 64 inst 1;
    modify (λ l, mkAppLifecycle (instances l) nx (life_clock l) (APP_REGISTRY l));;
    put_instance inst (mkInstanceEntry i (name d) Launching 0 3);;
    modify (touch i);;
    set_state inst Running;;
    mret inst.

Definition invalid (e : InstanceEntry) (expected : string) : AppError.t :=
  AppError.InvalidState (run_state_str (state e)) expected.

Definition suspend (i : Z) : LifeM unit :=
  e ← get_instance i;
  if decide (state e = Running) then put_instance i (set_run_state Suspended e) else throw (invalid e "running").

Definition resume (i : Z) : LifeM unit :=
  e ← get_instance i;
  if decide (state e = Suspended) then put_instance i (set_run_state Running e) else throw (invalid e "suspended").

Definition terminate (i : Z) : LifeM unit :=
  e ← get_instance i;
  match state e with
  | Running | Suspended | Launching => put_instance i (set_run_state Terminated e)
  | Terminated => mret tt
  | Failed => put_instance i (set_run_state Terminated e)
  end.

Definition report_crash (i : Z) : LifeM bool :=
  e ← get_instance i;
  k ← add_or_panic 32 (restart_count e) 1;
  let e := mkInstanceEntry (app_id e) (app_name e) (state e) k (max_restarts e) in
  if k <=? max_restarts e then put_instance i (set_run_state Running e);; mret true
  else put_instance i (set_run_state Failed e);; mret false.

Definition get_state (i : Z) : LifeM AppRunState := e ← get_instance i; mret (state e).

Definition instance_le (x y : Z * InstanceEntry) : Prop := x.1 ≤ y.1.
#[export] Instance instance_le_dec x y : Decision (instance_le x y) := decide (x.1 ≤ y.1).
Definition instance_list (l : AppLifecycle) : list (Z * InstanceEntry) := merge_sort instance_le (map_to_list (instances l)).
Definition instance_info (x : Z * InstanceEntry) : AppInstanceInfo :=
  mkAppInstanceInfo x.1 (app_id x.2) (app_name x.2) (state x.2) (restart_count x.2).
Definition list_running (l : AppLifecycle) : list AppInstanceInfo :=
  instance_info <$> List.filter (λ x, bool_decide (state x.2 ≠ Terminated)) (instance_list l).
Definition instances_of (i : Z) (l : AppLifecycle) : list AppInstanceInfo :=
  instance_info <$> List.filter (λ x, app_id x.2 =? i) (instance_list l).

Definition gc : LifeM Z := λ l,
  let kept := filter (λ x, state x.2 ≠ Terminated) (instances l) in
  (Ok (Z.of_nat (base.size (instances l)) - Z.of_nat (base.size kept)), set_instances kept l).
Definition total_instances (l : AppLifecycle) : Z := Z.of_nat (base.size (instances l)).

(** ** Instances keep their promises *)

Inductive life_call : Type :=
| CLaunch (i : Z)
| CSuspend (i : Z)
| CResume (i : Z)
| CTerminate (i : Z)
| CCrash (i : Z)
| CGc.

Definition drop_result {A} (x : outcome AppError.t A * AppLifecycle) : outcome AppError.t unit * AppLifecycle :=
  (match x.1 with Ok _ => Ok tt | Err e => Err e | Panic => Panic end, x.2).

Definition life_run (c : life_call) (l : AppLifecycle) : outcome AppError.t unit * AppLifecycle :=
  match c with
  | CLaunch i => drop_result (launch i l)
  | CSuspend i => suspend i l
  | CResume i => resume i l
  | CTerminate i => terminate i l
  | CCrash i => drop_result (report_crash i l)
  | CGc => drop_result (gc l)
  end.

(** The calls that were made, with their results. *)
Fixpoint life_runs (cs : list life_call) (l : AppLifecycle) : list (life_call * outcome AppError.t unit) * AppLifecycle :=
  match cs with
  | [] => ([], l)
  | c :: cs => let '(o, l) := life_run c l in let '(os, l) := life_runs cs l in ((c, o) :: os, l)
  end.

(** The crashes of an instance that were taken note of. *)
Definition crash_of (i : Z) (x : life_call * outcome AppError.t unit) : Z :=
  match x with (CCrash j, Ok _) => if decide (j = i) then 1 else 0 | _ => 0 end.
Definition crashes (i : Z) (os : list (life_call * outcome AppError.t unit)) : Z := foldr (λ x n, crash_of i x + n) 0 os.

Record entry_ok (n : Z) (e : InstanceEntry) : Prop := {
  eo_max : max_restarts e = 3;
  eo_count : restart_count e = n ∧ 0 ≤ n;
  eo_alive : state e = Running ∨ state e = Suspended → restart_count e ≤ 3;
  eo_failed : state e = Failed → 3 < restart_count e;
  eo_launched : state e ≠ Launching;
}.

Record life_inv (n : Z → Z) (l : AppLifecycle) : Prop := {
  li_size : Z.of_nat (base.size (instances l)) ≤ MAX_INSTANCES;
  li_entries : ∀ i e, instances l !! i = Some e → i < next_instance_id l ∧ entry_ok (n i) e;
  li_fresh : ∀ i, next_instance_id l ≤ i → n i = 0;
}.

(** One instance is replaced. *)
Lemma life_put n n' i e e' l :
  life_inv n l → instances l !! i = Some e → entry_ok (n' i) e' → (∀ j, j ≠ i → n' j = n j) →
  life_inv n' (set_instances (<[i := e']> (instances l)) l).
Proof.
  intros [Hs He Hf] Hi Hok Hn. destruct (He i e Hi) as [Hlt _]. split; simpl.
  - rewrite map_size_insert_Some by (by eexists). done.
  - intros j x. rewrite lookup_insert_Some. intros [[<- <-]|[Hne Hx]]; [done|]. rewrite Hn by done. by apply He.
  - intros j Hj. rewrite Hn by lia. by apply Hf.
Qed.

(** What a call leaves, with the crash it counts. *)
Definition life_ok (n : Z → Z) (c : life_call) (l : AppLifecycle) (x : outcome AppError.t unit * AppLifecycle) : Prop :=
  x.1 ≠ Panic ∧ life_inv (λ i, n i + crash_of i (c, x.1)) x.2 ∧ next_instance_id x.2 ≤ next_instance_id l + 1.

Lemma life_ext n n' l : (∀ i, n' i = n i) → life_inv n l → life_inv n' l.
Proof. intros Heq [Hs He Hf]. split; [done|intros i e Hi; rewrite Heq; by apply He|intros i Hi; rewrite Heq; by apply Hf]. Qed.

(** From a specification of the operation: a result that is not a crash. *)
Lemma life_call_ok {A} n c l (m : LifeM A) :
  life_inv n l → (∀ i o, crash_of i (c, o) = 0) →
  wp m (λ _ l', life_inv n l' ∧ next_instance_id l' ≤ next_instance_id l + 1) (λ e l', is_Some e ∧ l' = l) l →
  life_ok n c l (drop_result (m l)).
Proof.
  intros Hinv Hc. unfold wp, life_ok, drop_result. destruct (m l) as [[a|e|] l']; cbn [fst snd].
  - intros [Hl Hn]. split_and!; [done| |done]. eapply life_ext; [|exact Hl]. intros i. cbv beta. rewrite Hc. lia.
  - intros [_ ->]. split_and!; [done| |lia]. eapply life_ext; [|exact Hinv]. intros i. cbv beta. rewrite Hc. lia.
  - by intros [[? ?] _].
Qed.

Lemma drop_unit x : drop_result (A := unit) x = x.
Proof. by destruct x as [[[]|e|] l]. Qed.

Lemma wp_get_instance i Q X l :
  (∀ e, instances l !! i = Some e → Q e l) → (instances l !! i = None → X (Some AppError.InstanceNotFound) l) → wp (get_instance i) Q X l.
Proof. intros HQ HX. unfold get_instance. do 2 wp_step. by apply wp_ok_or. Qed.

Lemma launch_ok n i l :
  life_inv n l → next_instance_id l + 1 < 2 ^ 64 →
  wp (launch i) (λ _ l', life_inv n l' ∧ next_instance_id l' ≤ next_instance_id l + 1) (λ e l', is_Some e ∧ l' = l) l.
Proof.
  intros [Hs He Hf] Hroom. unfold launch. do 2 wp_step.
  destruct (Z.leb_spec MAX_INSTANCES (Z.of_nat (base.size (instances l)))); [apply wp_throw; by split; [eexists|]|].
  wp_step. apply wp_ok_or; [intros d Hd|intros _; by split; [eexists|]]. wp_step. apply wp_add; [done|].
  do 2 wp_step. unfold put_instance. do 5 wp_step. unfold set_state. wp_step. unfold get_app in Hd.
  assert (instances l !! next_instance_id l = None) as Hnone.
  { destruct (instances l !! next_instance_id l) as [e|] eqn:Hi; [|done]. apply He in Hi as [? _]. lia. }
  unfold set_instances, touch. simpl. rewrite Hd. apply wp_get_instance; cbn [instances]; rewrite lookup_insert_eq; [|done].
  intros e [= <-]. unfold put_instance. do 2 wp_step. split; [|simpl; lia].
  unfold set_instances. simpl. rewrite insert_insert_eq. split; simpl.
  - rewrite map_size_insert_None by done. lia.
  - intros j x. rewrite lookup_insert_Some. intros [[<- <-]|[Hne Hx]].
    + split; [lia|]. rewrite Hf by done. split; simpl; try done; lia.
    + destruct (He j x Hx). split; [lia|done].
  - intros j Hj. apply Hf. lia.
Qed.

Lemma suspend_ok n i l :
  life_inv n l →
  wp (suspend i) (λ _ l', life_inv n l' ∧ next_instance_id l' ≤ next_instance_id l + 1) (λ e l', is_Some e ∧ l' = l) l.
Proof.
  intros Hinv. unfold suspend. wp_step. apply wp_get_instance; [intros e He|intros _; by split; [eexists|]].
  case_decide as Hst; [|apply wp_throw; by split; [eexists|]]. unfold put_instance. wp_step. split; [|simpl; lia].
  destruct (li_entries n l Hinv i e He) as [_ [? ? Ha ? ?]]. eapply life_put; [done|done| |done].
  split; simpl; try done. intros _. apply Ha. by left.
Qed.

Lemma resume_ok n i l :
  life_inv n l →
  wp (resume i) (λ _ l', life_inv n l' ∧ next_instance_id l' ≤ next_instance_id l + 1) (λ e l', is_Some e ∧ l' = l) l.
Proof.
  intros Hinv. unfold resume. wp_step. apply wp_get_instance; [intros e He|intros _; by split; [eexists|]].
  case_decide as Hst; [|apply wp_throw; by split; [eexists|]]. unfold put_instance. wp_step. split; [|simpl; lia].
  destruct (li_entries n l Hinv i e He) as [_ [? ? Ha ? ?]]. eapply life_put; [done|done| |done].
  split; simpl; try done. intros _. apply Ha. by right.
Qed.

Lemma terminate_ok n i l :
  life_inv n l →
  wp (terminate i) (λ _ l', life_inv n l' ∧ next_instance_id l' ≤ next_instance_id l + 1) (λ e l', is_Some e ∧ l' = l) l.
Proof.
  intros Hinv. unfold terminate. wp_step. apply wp_get_instance; [intros e He|intros _; by split; [eexists|]].
  assert (life_inv n (set_instances (<[i := set_run_state Terminated e]> (instances l)) l)) as Hput.
  { destruct (li_entries n l Hinv i e He) as [_ [? ? ? ? ?]]. eapply life_put; [done|done| |done]. split; simpl; try done. by intros [?|?]. }
  unfold put_instance. destruct (state e); (wp_step; split; [done|simpl; lia]).
Qed.

Lemma gc_ok n l :
  life_inv n l → wp gc (λ _ l', life_inv n l' ∧ next_instance_id l' ≤ next_instance_id l + 1) (λ e l', is_Some e ∧ l' = l) l.
Proof.
  intros [Hs He Hf]. unfold wp, gc. split; [|simpl; lia]. split; simpl; [|..|done].
  - etransitivity; [|exact Hs]. apply inj_le, map_subseteq_size, map_filter_subseteq.
  - intros i e [Hi _]%map_lookup_filter_Some. by apply He.
Qed.

Lemma report_crash_ok n i l :
  life_inv n l → (∀ j, n j + 1 < 2 ^ 32) → life_ok n (CCrash i) l (drop_result (report_crash i l)).
Proof.
  intros Hinv Hroom. assert (wp (report_crash i) (λ _ l', life_inv (λ j, n j + if decide (i = j) then 1 else 0) l' ∧ next_instance_id l' = next_instance_id l)
    (λ e l', is_Some e ∧ l' = l) l) as H.
  { unfold report_crash. wp_step. apply wp_get_instance; [intros e He|intros _; by split; [eexists|]].
    destruct (li_entries n l Hinv i e He) as [_ [Hmax [Hcount Hpos] ? ? ?]]. wp_step. apply wp_add; [rewrite Hcount; apply Hroom|]. cbn [max_restarts].
    destruct (Z.leb_spec (restart_count e + 1) (max_restarts e)); unfold put_instance; do 3 wp_step; (split; [|done]);
      (eapply life_put; [done|done| |]);
      [split; simpl; try done; [rewrite decide_True by done; lia|lia]
      |intros j Hj; rewrite decide_False by done; lia
      |split; simpl; try done; [rewrite decide_True by done; lia|by intros [?|?]|lia]
      |intros j Hj; rewrite decide_False by done; lia]. }
  unfold wp in H. unfold life_ok, drop_result. destruct (report_crash i l) as [[a|e|] l']; cbn [fst snd].
  - destruct H as [H Hn]. split_and!; [done|exact H|lia].
  - destruct H as [_ ->]. split_and!; [done| |lia]. eapply life_ext; [|exact Hinv]. intros j. simpl. lia.
  - by destruct H as [[? ?] _].
Qed.

Lemma life_run_ok n c l :
  life_inv n l → next_instance_id l + 1 < 2 ^ 64 → (∀ j, n j + 1 < 2 ^ 32) → life_ok n c l (life_run c l).
Proof.
  intros Hinv H1 H2. destruct c as [i|i|i|i|i|]; simpl.
  - by apply life_call_ok, launch_ok.
  - rewrite <- (drop_unit (suspend i l)). by apply life_call_ok, suspend_ok.
  - rewrite <- (drop_unit (resume i l)). by apply life_call_ok, resume_ok.
  - rewrite <- (drop_unit (terminate i l)). by apply life_call_ok, terminate_ok.
  - by apply report_crash_ok.
  - by apply life_call_ok, gc_ok.
Qed.

Lemma crash_of_bound i x : 0 ≤ crash_of i x ≤ 1.
Proof. destruct x as [[] []]; simpl; try lia. case_decide; lia. Qed.

Lemma life_runs_ok cs : ∀ n l,
  life_inv n l → next_instance_id l + len cs < 2 ^ 64 → (∀ j, n j + len cs < 2 ^ 32) →
  (∀ c, (c, Panic) ∉ (life_runs cs l).1) ∧ life_inv (λ i, n i + crashes i (life_runs cs l).1) (life_runs cs l).2.
Proof.
  induction cs as [|c cs IH]; intros n l Hinv H1 H2; simpl.
  - split; [by intros c ?%not_elem_of_nil|]. eapply life_ext; [|exact Hinv]. intros i. simpl. lia.
  - rewrite len_cons in *. pose proof (len_nonneg cs).
    destruct (life_run_ok n c l Hinv ltac:(lia) ltac:(intros j; specialize (H2 j); lia)) as (Hp & Hinv' & Hn).
    destruct (life_run c l) as [o l1]. cbn [fst snd] in *.
    destruct (IH _ l1 Hinv' ltac:(lia)) as [Hp' Hinv2].
    { intros j. pose proof (crash_of_bound j (c, o)). specialize (H2 j). lia. }
    destruct (life_runs cs l1) as [os l2]. cbn [fst snd] in *. split.
    + intros c' [Heq|Hin]%elem_of_cons; [congruence|by apply (Hp' c')].
    + eapply life_ext; [|exact Hinv2]. intros i. cbv beta.
      change (crashes i ((c, o) :: os)) with (crash_of i (c, o) + crashes i os). lia.
Qed.

Lemma life_new_inv r : life_inv (λ _, 0) (life_new r).
Proof. split; simpl; [done|intros i e; by rewrite lookup_empty|done]. Qed.

(** Restarts are bounded.  After any sequence of launches, suspensions,
    resumptions, terminations, crashes and collections there was no panic,
    there are at most 64 instances, every one counts its crashes, is running or
    suspended only after three crashes or fewer, and has failed only after
    more. *)
Theorem lifecycle_restarts r cs :
  1 + len cs < 2 ^ 32 →
  let '(os, l) := life_runs cs (life_new r) in
  (∀ c, (c, Panic) ∉ os) ∧ total_instances l ≤ 64 ∧
  ∀ i e, instances l !! i = Some e →
    restart_count e = crashes i os ∧ state e ≠ Launching ∧
    (state e = Running ∨ state e = Suspended → crashes i os ≤ 3) ∧ (state e = Failed → 3 < crashes i os).
Proof.
  intros Hlen. pose proof (life_runs_ok cs _ _ (life_new_inv r) ltac:(simpl; lia) ltac:(simpl; lia)) as [Hp [Hs He _]].
  destruct (life_runs cs (life_new r)) as [os l]. cbn [fst snd] in *. split_and!; [done|exact Hs|].
  intros i e Hi. destruct (He i e Hi) as [_ [_ [Hc _] Ha Hf Hl]]. cbv beta in Hc. rewrite Z.add_0_l in Hc. rewrite <- Hc. by split_and!.
Qed.

Definition demo_apps : AppRegistry := (register NativeApp "shell" "/bin/sh" None new).2.
Definition demo_life_calls : list life_call :=
  [CLaunch 1; CLaunch 9; CCrash 1; CCrash 1; CSuspend 1; CCrash 1; CCrash 1; CLaunch 1; CResume 1].

Lemma lifecycle_restarts_witness :
  let '(os, l) := life_runs demo_life_calls (life_new demo_apps) in
  os.*2 = [Ok tt; Err AppError.NotFound; Ok tt; Ok tt; Ok tt; Ok tt; Ok tt; Ok tt; Err (AppError.InvalidState "failed" "suspended")] ∧
  (state <$> instances l !! 1) = Some Failed ∧ crashes 1 os = 4 ∧ (state <$> instances l !! 2) = Some Running ∧ total_instances l ≤ 64.
Proof.
  pose proof (lifecycle_restarts demo_apps demo_life_calls ltac:(vm_compute; reflexivity)) as H.
  destruct (life_runs demo_life_calls (life_new demo_apps)) as [os l] eqn:E. vm_compute in E. injection E as <- <-.
  destruct H as (_ & H & _). split; [reflexivity|]. split; [reflexivity|]. split; [reflexivity|]. split; [reflexivity|exact H].
Defined.

(** A crash that is reported for a terminated instance starts it again. *)
Lemma crash_revives :
  let '(os, l) := life_runs [CLaunch 1; CTerminate 1; CCrash 1] (life_new demo_apps) in (state <$> instances l !! 1) = Some Running.
Proof. vm_compute. reflexivity. Qed.

(** ** Reading the catalog back *)

Definition dquote : Ascii.ascii := Ascii.ascii_of_nat 34.
Definition no_quote (s : string) : bool := no_char dquote s.

Lemma no_char_app c s t : no_char c (s +:+ t) = no_char c s && no_char c t.
Proof. apply all_chars_app. Qed.

(** A word that ends at a quote matches only the same word. *)
Lemma prefix_word k v x y :
  no_quote k = true → no_quote v = true →
  String.prefix (k +:+ String dquote x) (v +:+ String dquote y) = String.eqb k v && String.prefix x y.
Proof.
  unfold no_quote, no_char. revert v. induction k as [|a k IH]; intros v Hk Hv.
  - destruct v as [|b v].
    + cbn [String.append String.prefix String.eqb]. by destruct (Ascii.ascii_dec dquote dquote).
    + simpl in Hv. cbn [String.append String.prefix String.eqb]. apply andb_prop in Hv as [Hb _].
      destruct (Ascii.ascii_dec dquote b) as [<-|]; [by rewrite Ascii.eqb_refl in Hb|done].
  - simpl in Hk. apply andb_prop in Hk as [Ha Hk]. destruct v as [|b v].
    + cbn [String.append String.prefix String.eqb]. destruct (Ascii.ascii_dec a dquote) as [->|]; [by rewrite Ascii.eqb_refl in Ha|done].
    + simpl in Hv. apply andb_prop in Hv as [_ Hv]. cbn [String.append String.prefix String.eqb].
      destruct (Ascii.ascii_dec a b) as [->|Hne]; [rewrite Ascii.eqb_refl; by apply IH|].
      by rewrite (proj2 (Ascii.eqb_neq a b)).
Qed.

(** Text without quotes holds no key. *)
Lemma find_skip p s t : no_quote s = true → find_after (String dquote p) (s +:+ t) = find_after (String dquote p) t.
Proof.
  unfold no_quote, no_char. induction s as [|a s IH]; [done|]. cbn [all_chars]. intros [Ha Hs]%andb_prop.
  cbn [String.append find_after String.prefix]. destruct (Ascii.ascii_dec dquote a) as [<-|]; [by rewrite Ascii.eqb_refl in Ha|]. by apply IH.
Qed.

Lemma find_quote_no p t : String.prefix p t = false → find_after (String dquote p) (String dquote t) = find_after (String dquote p) t.
Proof. intros Hp. cbn [find_after String.prefix]. destruct (Ascii.ascii_dec dquote dquote); [|done]. by rewrite Hp. Qed.

(** A quoted word that is not the key, or is not followed by a colon. *)
Lemma find_word a k v c z t :
  no_quote (String a k) = true → no_quote v = true → c ≠ a → c ≠ dquote → String.eqb (String a k) v && Ascii.eqb ":" c = false →
  find_after (key (String a k) +:+ z) (quoted v +:+ String c t) = find_after (key (String a k) +:+ z) t.
Proof.
  intros Hk Hv Hca Hcq Hne. unfold key, quoted, quote. rewrite !app_assoc_string.
  change (String (Ascii.ascii_of_nat 34) "") with (String dquote ""). cbn [String.append].
  set (p := String a (k +:+ String dquote (String ":" z))). rewrite find_quote_no.
  2: { change p with (String a k +:+ String dquote (String ":" z)). rewrite prefix_word by done. cbn [String.prefix].
       destruct (String.eqb (String a k) v); [|done]. cbn [andb] in Hne |- *. destruct (Ascii.ascii_dec ":" c) as [<-|]; done. }
  rewrite find_skip by done. rewrite find_quote_no.
  2: { unfold p. cbn [String.prefix]. destruct (Ascii.ascii_dec a c); [by subst|done]. }
  apply (find_skip p (String c "") t). unfold no_quote, no_char. cbn [all_chars]. destruct (Ascii.eqb_spec c dquote); done.
Qed.

Lemma find_key k t : find_after (key k) (key k +:+ t) = Some t.
Proof. apply find_after_here. Qed.

Lemma find_string k v t : find_after (key k +:+ quote) (key k +:+ quoted v +:+ t) = Some (v +:+ quote +:+ t).
Proof. unfold quoted. rewrite !app_assoc_string, <- (app_assoc_string (key k) quote). apply find_after_here. Qed.

Lemma find_before_quote v t : no_quote v = true → find_before dquote (v +:+ quote +:+ t) = Some v.
Proof.
  unfold no_quote, no_char. induction v as [|a v IH]; cbn [String.append find_before all_chars]; [done|].
  intros [Ha Hv]%andb_prop. destruct (Ascii.eqb a dquote); [done|]. by rewrite IH.
Qed.

(** *** One application *)

(** Text that the JSON of the catalog can hold as it is. *)
Definition is_clean (a : Ascii.ascii) : bool :=
  negb (existsb (Ascii.eqb a) [dquote; "\"%char; Ascii.ascii_of_nat 10; Ascii.ascii_of_nat 13; Ascii.ascii_of_nat 9; "{"%char; "}"%char]).
Definition clean (s : string) : bool := all_chars is_clean s.

Definition u64 (z : Z) : Prop := 0 ≤ z < 2 ^ 64.
Record storable (d : KernelAppDescriptor) : Prop := {
  st_id : u64 (id d);
  st_times : u64 (installed_at d) ∧ u64 (last_launched d);
  st_name : clean (name d) = true;
  st_entry : clean (entry_point d) = true;
  st_path : clean (install_path d) = true;
  st_type : match app_type d with WebApp s _ => clean s | WasmApp v => clean v | NativeApp => true end = true;
}.

Lemma clean_no_char c s : clean s = true → is_clean c = false → no_char c s = true.
Proof.
  intros Hs Hc. unfold no_char. eapply all_chars_impl; [|exact Hs]. intros a Ha. destruct (Ascii.eqb_spec a c); [by subst; rewrite Hc in Ha|done].
Qed.

Lemma clean_no_quote s : clean s = true → no_quote s = true.
Proof. intros Hs. by apply clean_no_char. Qed.

Lemma clean_escape s : clean s = true → escape_json s = s.
Proof.
  unfold clean. induction s as [|a s IH]; [done|]. cbn [all_chars escape_json]. intros [Ha Hs]%andb_prop. rewrite IH by done.
  assert (∀ n, is_clean (Ascii.ascii_of_nat n) = false → (Ascii.nat_of_ascii a =? n)%nat = false) as H.
  { intros n Hn. apply Nat.eqb_neq. intros <-. rewrite Ascii.ascii_nat_embedding in Hn. congruence. }
  by rewrite !H.
Qed.

Lemma digit_clean a : is_digit a = true → is_clean a = true.
Proof. destruct a as [[] [] [] [] [] [] [] []]; vm_compute; done. Qed.

Lemma decimal_clean z : clean (decimal z) = true.
Proof. eapply all_chars_impl; [apply digit_clean|apply decimal_digits]. Qed.

(** Looking for the key [k] followed by [z], token by token. *)
Definition find (k z text : string) : option string := find_after (key k +:+ z) text.

Lemma find_plain k z s t : no_quote s = true → find k z (s +:+ t) = find k z t.
Proof. apply find_skip. Qed.

Lemma decimal_no_quote z : no_quote (decimal z) = true.
Proof. apply clean_no_quote, decimal_clean. Qed.

(** Keys that the code looks for. *)
Definition is_key (k : string) : bool :=
  match k with EmptyString => false | String a _ => negb (existsb (Ascii.eqb a) [","; ":"; "}"]%char) && no_quote k end.

Lemma find_token k z v c t :
  is_key k = true → no_quote v = true → existsb (Ascii.eqb c) [","; ":"; "}"]%char = true → String.eqb k v && Ascii.eqb ":" c = false →
  find k z (quoted v +:+ String c t) = find k z t.
Proof.
  destruct k as [|a k]; [done|]. unfold is_key. intros [Ha Hk]%andb_prop Hv Hc Hne. apply find_word; try done.
  - intros ->. by rewrite Hc in Ha.
  - intros ->. done.
Qed.

Lemma find_other_key k z k' t :
  is_key k = true → no_quote k' = true → String.eqb k k' = false → find k z (key k' +:+ t) = find k z t.
Proof.
  intros Hk Hk' Hne. unfold key at 1. rewrite app_assoc_string. apply find_token; [done|done|done|]. by rewrite Hne.
Qed.

Lemma find_value k z v t : is_key k = true → clean v = true → find k z (quoted v +:+ "," +:+ t) = find k z t.
Proof. intros Hk Hv. apply (find_token k z v "," t); [done|by apply clean_no_quote|done|by rewrite andb_false_r]. Qed.

Lemma get_u64_find obj k n t :
  find k "" obj = Some (decimal n +:+ t) → take_digits t = "" → u64 n → get_u64 obj k = n.
Proof.
  unfold find, get_u64. rewrite app_nil_string. intros -> Ht Hn. rewrite take_digits_app by apply decimal_digits.
  by rewrite Ht, app_nil_string, parse_decimal.
Qed.

Lemma get_string_find obj k v t :
  find k quote obj = Some (v +:+ quote +:+ t) → clean v = true → get_string obj k = Some v.
Proof. unfold find, get_string. intros -> Hv. simpl. by apply find_before_quote, clean_no_quote. Qed.

Ltac json_find :=
  repeat first
    [ rewrite find_plain by (reflexivity || apply decimal_no_quote)
    | rewrite find_other_key by reflexivity
    | rewrite find_value by (reflexivity || assumption) ].
Ltac json_u64 := eapply get_u64_find; [json_find; unfold find; rewrite app_nil_string; apply find_key|reflexivity|assumption].
Ltac json_string := eapply get_string_find; [json_find; unfold find; apply find_string|assumption || reflexivity].

Lemma parse_json_app icon d :
  storable d →
  parse_app_object icon (json_app d) = Some (mkDescriptor (id d) (app_type d) (name d) (icon (id d)) (install_path d) (entry_point d) (installed_at d) (last_launched d)).
Proof.
  intros [Hid [Hinst Hlast] Hname Hentry Hpath Htype]. unfold json_app. rewrite !clean_escape by done.
  set (tail := json_type (app_type d) +:+ "}").
  set (obj := "{" +:+ _).
  assert (get_u64 obj "id" = id d) as Eid by (unfold obj; json_u64).
  assert (get_string obj "name" = Some (name d)) as En by (unfold obj; json_string).
  assert (get_string obj "entry_point" = Some (entry_point d)) as Ee by (unfold obj; json_string).
  assert (get_string obj "install_path" = Some (install_path d)) as Ep by (unfold obj; json_string).
  assert (get_u64 obj "installed_at" = installed_at d) as Ei by (unfold obj; json_u64).
  assert (get_u64 obj "last_launched" = last_launched d) as El.
  { unfold obj, tail. by destruct (app_type d); json_u64. }
  unfold parse_app_object. rewrite Eid, En, Ee, Ep, Ei, El. simpl mbind. cbv beta.
  unfold obj, tail. destruct (app_type d) as [scope offline|ver|]; unfold json_type; rewrite ?clean_escape by done; rewrite !app_assoc_string.
  all: match goal with |- context [get_string ?o "type"] => set (o' := o) end.
  - assert (get_string o' "type" = Some "web") as -> by (unfold o'; json_string).
    assert (get_string o' "scope" = Some scope) as -> by (unfold o'; json_string).
    assert (get_bool o' "offline" = offline) as ->; [|done].
    unfold get_bool. rewrite <- (app_nil_string (key "offline")). change (find_after _ o') with (find "offline" "" o').
    unfold o'. json_find. unfold find. rewrite app_nil_string, find_key. by destruct offline.
  - assert (get_string o' "type" = Some "wasm") as -> by (unfold o'; json_string).
    by assert (get_string o' "wasi_version" = Some ver) as -> by (unfold o'; json_string).
  - by assert (get_string o' "type" = Some "native") as -> by (unfold o'; json_string).
Qed.

(** *** The whole catalog *)

Lemma objects_body body rest t :
  no_char "{" body = true → no_char "}" body = true →
  objects (body +:+ rest) 1 (Some t) = objects rest 1 (Some (t +:+ body)).
Proof.
  unfold no_char. revert t. induction body as [|a body IH]; intros t; [by rewrite app_nil_string|].
  cbn [all_chars]. intros [Ha Hb]%andb_prop [Ha' Hb']%andb_prop. cbn [String.append objects].
  destruct (Ascii.eqb a "{"); [done|]. destruct (Ascii.eqb a "}"); [done|]. rewrite andb_false_r. simpl fmap.
  rewrite IH by done. by rewrite app_assoc_string.
Qed.

Definition json_body (d : KernelAppDescriptor) : string :=
  key "id" +:+ decimal (id d)
  +:+ "," +:+ key "name" +:+ quoted (name d)
  +:+ "," +:+ key "entry_point" +:+ quoted (entry_point d)
  +:+ "," +:+ key "install_path" +:+ quoted (install_path d)
  +:+ "," +:+ key "installed_at" +:+ decimal (installed_at d)
  +:+ "," +:+ key "last_launched" +:+ decimal (last_launched d)
  +:+ json_type (app_type d).

Lemma json_app_body d : storable d → json_app d = "{" +:+ json_body d +:+ "}".
Proof. intros [_ _ Hn He _ _]. unfold json_app, json_body. rewrite !clean_escape by done. by rewrite !app_assoc_string. Qed.

Lemma no_char_quote c : c ≠ dquote → no_char c quote = true.
Proof.
  intros Hq. change quote with (String dquote ""). unfold no_char. cbn [all_chars].
  destruct (Ascii.eqb_spec dquote c); [by subst|done].
Qed.

Lemma json_type_no_char c t :
  is_clean c = false → c ≠ dquote →
  match t with WebApp s _ => clean s | WasmApp v => clean v | NativeApp => true end = true →
  no_char c (json_type t) = true.
Proof.
  intros Hc Hq. assert (∀ s, clean s = true → no_char c s = true) as Hclean by (intros; by apply clean_no_char).
  pose proof (no_char_quote c Hq) as Hquote.
  destruct t as [s o|v|]; intros Ht; unfold json_type, key, quoted; rewrite ?clean_escape by done; rewrite !no_char_app, ?Hquote, ?Hclean by (done || by destruct o); done.
Qed.

Lemma json_body_no_char c d : storable d → is_clean c = false → c ≠ dquote → no_char c (json_body d) = true.
Proof.
  intros [_ _ Hn He Hp Ht] Hc Hq. assert (∀ s, clean s = true → no_char c s = true) as Hclean by (intros; by apply clean_no_char).
  pose proof (no_char_quote c Hq) as Hquote.
  unfold json_body, key, quoted. rewrite !no_char_app, json_type_no_char, ?Hquote, ?Hclean by (done || apply decimal_clean). done.
Qed.

Lemma objects_json d rest : storable d → objects (json_app d +:+ rest) 0 None = json_app d :: objects rest 0 None.
Proof.
  intros Hd. rewrite json_app_body by done. rewrite !app_assoc_string.
  change ("{" +:+ json_body d +:+ "}" +:+ rest) with (String "{" (json_body d +:+ String "}" rest)). cbn [objects].
  change (Ascii.eqb "{" "{") with true. cbv iota. change (0 =? 0) with true. cbv iota. change (0 + 1) with 1.
  rewrite objects_body by (by apply json_body_no_char). cbn [objects].
  change (Ascii.eqb "}" "{") with false. change (Ascii.eqb "}" "}") with true. cbv iota. change (1 - 1 =? 0) with true.
  unfold fmap, option_fmap, option_map. cbv beta iota. by rewrite app_assoc_string.
Qed.

Lemma objects_apps first ds : Forall storable ds → objects (json_apps first ds +:+ "]}") 0 None = json_app <$> ds.
Proof.
  intros Hds. revert first. induction Hds as [|d ds Hd Hds IH]; intros first; [done|]. cbn [json_apps].
  rewrite !app_assoc_string. destruct first; cbn [String.append]; [|cbn [objects]; change (Ascii.eqb "," _) with false; cbv iota; simpl andb; cbv iota; simpl fmap];
    rewrite objects_json by done; by rewrite IH.
Qed.

(** What is read back of an application: its icon comes from its directory. *)
Definition restore (icon : Z → option (list Z)) (d : KernelAppDescriptor) : KernelAppDescriptor :=
  mkDescriptor (id d) (app_type d) (name d) (icon (id d)) (install_path d) (entry_point d) (installed_at d) (last_launched d).

Record catalog_ok (r : AppRegistry) : Prop := {
  ca_next : u64 (next_id r);
  ca_apps : ∀ i d, apps r !! i = Some d → id d = i ∧ storable d;
}.

Lemma values_perm r : values r ≡ₚ (map_to_list (apps r)).*2.
Proof. unfold values. apply fmap_Permutation, merge_sort_Permutation. Qed.

Lemma values_elem r d : catalog_ok r → d ∈ values r ↔ apps r !! id d = Some d.
Proof.
  intros [_ Ha]. rewrite values_perm, list_elem_of_fmap. split.
  - intros ([i x] & -> & Hx%elem_of_map_to_list). simpl. by destruct (Ha i x Hx) as [-> _].
  - intros Hd. exists (id d, d). split; [done|]. by apply elem_of_map_to_list.
Qed.

Lemma values_storable r : catalog_ok r → Forall storable (values r).
Proof.
  intros Hr. apply Forall_forall. intros d Hd%values_elem; [|done]. by destruct (ca_apps r Hr _ d Hd).
Qed.

(** The objects are inserted one after the other. *)
Lemma insert_all icon ds : ∀ m,
  Forall storable ds → NoDup (id <$> ds) →
  foldl (add_object icon) m (json_app <$> ds) = list_to_map ((λ d, (id d, restore icon d)) <$> ds) ∪ m.
Proof.
  induction ds as [|d ds IH]; intros m Hds Hnd; simpl; [by rewrite (left_id_L ∅ (∪))|].
  apply Forall_cons in Hds as [Hd Hds]. apply NoDup_cons in Hnd as [Hid Hnd]. unfold add_object at 2. rewrite parse_json_app by done.
  change (mkDescriptor (id d) _ _ _ _ _ _ _) with (restore icon d). simpl id. rewrite IH by done.
  rewrite <- insert_union_r; [by rewrite insert_union_l|]. apply not_elem_of_list_to_map. rewrite <- list_fmap_compose. exact Hid.
Qed.

Lemma restore_all icon r :
  catalog_ok r → foldl (add_object icon) ∅ (json_app <$> values r) = restore icon <$> apps r.
Proof.
  intros Hr. assert (id <$> values r ≡ₚ (map_to_list (apps r)).*1) as Hids.
  { rewrite values_perm, <- list_fmap_compose. apply reflexive_eq. apply list_fmap_ext. intros k [i d] Hk.
    apply list_elem_of_lookup_2, elem_of_map_to_list in Hk. simpl. by destruct (ca_apps r Hr i d Hk) as [-> _]. }
  assert (NoDup (id <$> values r)) as Hnd by (rewrite Hids; apply NoDup_fst_map_to_list).
  rewrite insert_all by (done || by apply values_storable). rewrite (right_id_L ∅ (∪)). apply map_eq. intros i. rewrite lookup_fmap.
  assert (NoDup ((λ d, (id d, restore icon d)) <$> values r).*1) as Hnd' by (rewrite <- list_fmap_compose; exact Hnd).
  destruct (apps r !! i) as [d|] eqn:Hi; simpl.
  - apply elem_of_list_to_map_1; [done|]. apply list_elem_of_fmap. exists d. destruct (ca_apps r Hr i d Hi) as [<- _].
    split; [done|]. by apply values_elem.
  - apply not_elem_of_list_to_map_1. rewrite <- list_fmap_compose. intros (d & -> & Hd)%list_elem_of_fmap.
    apply values_elem in Hd; [|done]. simpl in Hi. congruence.
Qed.

Lemma catalog_roundtrip icon r nx c :
  catalog_ok r → deserialize_json icon (serialize_json r) (mkAppRegistry ∅ nx c) = mkAppRegistry (restore icon <$> apps r) (next_id r) c.
Proof.
  intros Hr. unfold deserialize_json, serialize_json. set (t1 := "," +:+ key "apps" +:+ _).
  assert (find_after (key "next_id") ("{" +:+ key "next_id" +:+ decimal (next_id r) +:+ t1) = Some (decimal (next_id r) +:+ t1)) as ->.
  { rewrite <- (app_nil_string (key "next_id")) at 1. change (find_after _ ?x) with (find "next_id" "" x).
    rewrite find_plain by done. unfold find. rewrite app_nil_string. apply find_key. }
  assert (find_after (key "apps" +:+ "[") ("{" +:+ key "next_id" +:+ decimal (next_id r) +:+ t1) = Some (json_apps true (values r) +:+ "]}")) as ->.
  { change (find_after _ ?x) with (find "apps" "[" x). unfold t1. json_find. unfold find.
    rewrite <- app_assoc_string. apply find_after_here. }
  rewrite objects_apps by (by apply values_storable). cbn [apps clock]. rewrite restore_all by done.
  assert (digits_before (decimal (next_id r) +:+ t1) = Some (decimal (next_id r))) as Hd.
  { unfold digits_before. rewrite all_chars_app. change (all_chars is_digit t1) with false. rewrite andb_false_r.
    rewrite take_digits_app by apply decimal_digits. change (take_digits t1) with "". by rewrite app_nil_string. }
  cbn [mbind option_bind]. rewrite Hd. cbn [mbind option_bind]. by rewrite parse_decimal by apply Hr.
Qed.

(** *** Saving and loading *)

Definition apps_dir : list string := ["system"; "apps"].
Definition registry_names : list string := ["system"; "apps"; "registry.json"].

Lemma ensure_dir_spec path s f :
  FS s = Some f → wf f → next_ino f + 1 < 2 ^ 32 →
  ∃ f', ensure_dir path s = (Ok tt, set_fs f' s) ∧ wf f' ∧ next_ino f' ≤ next_ino f + 1 ∧
    (f' = f ∨ resolve path f = None ∧ bad_name (trim_start_matches "/" path) = false ∧
      ∃ i, lookup root_ino (trim_start_matches "/" path) f' = Some i ∧ ∀ nm, is_dot nm = false → lookup i nm f' = None).
Proof.
  intros Hf Hwf Hroom. unfold ensure_dir, with_fs. rewrite Hf. destruct (resolve path f) as [i|] eqn:Hr.
  - exists f. split_and!; [done|done|lia|by left].
  - change (resolve "/" f) with (Some root_ino). cbv iota. set (n := trim_start_matches "/" path).
    pose proof (mkdir_spec root_ino n f Hwf Hroom) as H. unfold op_ok, wp in H. unfold ignore.
    assert (is_ok (mkdir root_ino n f).1 = true → bad_name n = false) as Hbad.
    { unfold mkdir. by destruct (bad_name n). }
    destruct (mkdir root_ino n f) as [[i|e|] f']; [|destruct H as [_ ->]|by destruct H as [[? ?] _]].
    + destruct H as (Hwf' & -> & Hn & Hl & Hnew & _). exists f'. split_and!; [done|done|lia|]. right. split_and!; [done|by apply Hbad|].
      by exists (next_ino f).
    + exists f. split_and!; [done|done|lia|by left].
Qed.

(** The directory [/system/apps] is not made: its path is no name. *)
Lemma ensure_dirs s f :
  FS s = Some f → wf f → next_ino f + 2 < 2 ^ 32 →
  ∃ f', (ensure_dir "/system";; ensure_dir "/system/apps") s = (Ok tt, set_fs f' s) ∧ wf f' ∧ next_ino f' ≤ next_ino f + 2 ∧
    (walk root_ino apps_dir f = None → walk root_ino apps_dir f' = None).
Proof.
  intros Hf Hwf Hroom. destruct (ensure_dir_spec "/system" s f Hf Hwf ltac:(lia)) as (f1 & H1 & Hwf1 & Hn1 & Hc1).
  destruct (ensure_dir_spec "/system/apps" (set_fs f1 s) f1 eq_refl Hwf1 ltac:(lia)) as (f2 & H2 & Hwf2 & Hn2 & Hc2).
  exists f2. split_and!; [|done|lia|].
  - unfold mbind, M_bind. rewrite H1. exact H2.
  - intros Hw. destruct Hc2 as [->|(_ & Hbad & _)]; [|done]. destruct Hc1 as [->|(_ & _ & i & Hi & Hnew)]; [done|].
    change (trim_start_matches "/" "/system") with "system" in Hi. unfold apps_dir. simpl. rewrite Hi. simpl. by rewrite Hnew.
Qed.

Lemma registry_names_ok : names registry_names.
Proof. by repeat constructor. Qed.

Lemma registry_save_spec env s f r :
  FS s = Some f → wf f → next_ino f + 3 < 2 ^ 32 →
  wp (save_to_vfs r) (λ _ s', walk root_ino apps_dir f ≠ None ∧ ∃ f', FS s' = Some f' ∧ contents env f' registry_names = Ok (bytes_of (serialize_json r)))
    (λ o _, o = Some AppError.IoError) s.
Proof.
  intros Hf Hwf Hroom. destruct (ensure_dirs s f Hf Hwf ltac:(lia)) as (f1 & H1 & Hwf1 & Hn1 & Hnone).
  pose proof (write_all_spec env (set_fs f1 s) f1 registry_names (bytes_of (serialize_json r)) eq_refl Hwf1 ltac:(lia) registry_names_ok) as H.
  change (path_of registry_names) with REGISTRY_PATH in H. unfold wp in *.
  assert (save_to_vfs r s = let '(o, s) := write_all REGISTRY_PATH (bytes_of (serialize_json r)) (set_fs f1 s) in
    (map_err (λ _, AppError.IoError) o, s)) as ->.
  { unfold save_to_vfs. rewrite <- (bind_assoc (ensure_dir "/system") (λ _, ensure_dir "/system/apps") (λ _, write_all _ _)).
    unfold mbind at 1, M_bind at 1. by rewrite H1. }
  destruct (write_all REGISTRY_PATH _ _) as [[[]|e|] s']; simpl map_err; cbv iota beta; [|done|by destruct H as [[? ?] _]].
  destruct H as (Hcan & f' & -> & [_ _ Hw _]). split; [|by exists f']. intros Hd. specialize (Hnone Hd). revert Hcan.
  unfold can_write. change registry_names with (apps_dir ++ ["registry.json"]). rewrite walk_snoc, removelast_last, Hnone by done. done.
Qed.

(** C40. A stored catalog is read back, if every application is filed under its
    identifier and no text in it (name, entry point, directory, scope or
    version) has a quote, a backslash, a line break, a tab or a brace.  When
    saving such a catalog to a well-formed file system with room for the files
    succeeds, and its text is valid UTF-8, loading into an empty catalog gives
    every application again, with the icon that its directory holds, and the
    same next identifier.  Saving fails with an I/O
    error whenever there is no directory [/system/apps], which it does not
    make, and never panics. *)
Theorem catalog_save_load env s f r nx c :
  FS s = Some f → wf f → next_ino f + 3 < 2 ^ 32 → catalog_ok r → utf8_valid (bytes_of (serialize_json r)) = true →
  match save_to_vfs r s with
  | (Ok _, s') =>
      walk root_ino apps_dir f ≠ None ∧
      load_from_vfs env (mkAppRegistry ∅ nx c) s' = (Ok (mkAppRegistry (restore (icon_of env s') <$> apps r) (next_id r) c), s')
  | (Err e, _) => e = AppError.IoError
  | (Panic, _) => False
  end.
Proof.
  intros Hf Hwf Hroom Hr Hutf. pose proof (registry_save_spec env s f r Hf Hwf Hroom) as H. unfold wp in H.
  destruct (save_to_vfs r s) as [[[]|e|] s']; [|by injection H|done]. destruct H as (Hd & f' & Hf' & Hc). split; [done|].
  unfold load_from_vfs. change REGISTRY_PATH with (path_of registry_names).
  rewrite (read_all_contents env s' f') by (done || apply registry_names_ok). rewrite Hc, Hutf, bytes_string. by rewrite catalog_roundtrip.
Qed.

Definition demo_catalog : AppRegistry :=
  (register (WebApp "https://notes.kpio/" true) "Notes" "https://notes.kpio/" (Some [1]) demo_apps).2.
Definition demo_catalog_calls : list fs_call := [CMkdir 1 "system"; CMkdir 54 "apps"].
Definition demo_catalog_fs : MemFs := (fs_runs demo_env demo_catalog_calls init_fs).2.
Definition demo_catalog_vfs : Vfs := mkVfs (Some demo_catalog_fs) None [].

Lemma demo_catalog_ok : catalog_ok demo_catalog.
Proof.
  split; [by vm_compute|]. intros i d Hd. assert (map_Forall (λ i d, id d = i ∧ storable d) (apps demo_catalog)) as H; [|by apply H].
  apply map_Forall_to_list. assert (map_to_list (apps demo_catalog) =
    [(2, mkDescriptor 2 (WebApp "https://notes.kpio/" true) "Notes" (Some [1]) "/apps/data/2/" "https://notes.kpio/" 2 0);
     (1, mkDescriptor 1 NativeApp "shell" None "/apps/data/1/" "/bin/sh" 1 0)]) as -> by (vm_compute; reflexivity).
  repeat constructor; simpl; unfold u64; lia.
Qed.

Lemma catalog_save_load_witness :
  let s' := (save_to_vfs demo_catalog demo_catalog_vfs).2 in
  (load_from_vfs demo_env new s').1 = Ok (mkAppRegistry (restore (icon_of demo_env s') <$> apps demo_catalog) 3 1).
Proof.
  destruct init_ok as (_ & Hwf & Hn). assert (wf demo_catalog_fs) as Hwf'.
  { pose proof (fs_runs_ok demo_env demo_catalog_calls init_fs Hwf ltac:(repeat constructor) ltac:(rewrite Hn; vm_compute; reflexivity)) as H.
    exact (proj2 H). }
  assert (is_ok (save_to_vfs demo_catalog demo_catalog_vfs).1 = true) as Hok by (vm_compute; reflexivity).
  pose proof (catalog_save_load demo_env demo_catalog_vfs demo_catalog_fs demo_catalog 1 1 eq_refl Hwf'
    ltac:(vm_compute; reflexivity) demo_catalog_ok ltac:(vm_compute; reflexivity)) as H.
  destruct (save_to_vfs demo_catalog demo_catalog_vfs) as [[u|e|] s']; [|discriminate Hok|discriminate Hok].
  destruct H as (_ & H). exact (f_equal fst H).
Defined.

(** *** What goes wrong at the edges *)

(** On the file system the kernel boots with, the catalog is not stored. *)
Lemma catalog_not_saved_at_boot : (save_to_vfs demo_catalog vfs_boot).1 = Err AppError.IoError.
Proof. vm_compute. reflexivity. Qed.

(** A name with a quote is cut at it: what [escape_json] writes is not
    understood. *)
Lemma quote_cuts_name :
  (name <$> parse_app_object (λ _, None) (json_app (mkDescriptor 1 NativeApp ("a" +:+ quote +:+ "b") None "" "" 0 0))) = Some "a\".
Proof. vm_compute. reflexivity. Qed.

(** ** Names and scopes *)

Record unique (r : AppRegistry) : Prop := {
  un_size : count r ≤ MAX_APPS;
  un_ids : ∀ i d, apps r !! i = Some d → id d = i ∧ 0 < i < next_id r ∧ install_path d = data_path i;
  un_names : ∀ i j d e, apps r !! i = Some d → apps r !! j = Some e → name d = name e → i = j;
  un_scopes : ∀ i j d e, apps r !! i = Some d → apps r !! j = Some e → same_scope (app_type d) e = true → i = j;
}.

Lemma elem_of_values r d : d ∈ values r ↔ ∃ i, apps r !! i = Some d.
Proof.
  rewrite values_perm, list_elem_of_fmap. split.
  - intros ([i x] & -> & Hx%elem_of_map_to_list). by exists i.
  - intros [i Hi]. exists (i, d). split; [done|]. by apply elem_of_map_to_list.
Qed.

Lemma same_scope_sym d e : same_scope (app_type d) e = same_scope (app_type e) d.
Proof. unfold same_scope. destruct (app_type d), (app_type e); try done. apply String.eqb_sym. Qed.

Lemma register_unique t n entry icon r :
  unique r → 0 < next_id r → next_id r + 1 < 2 ^ 64 →
  wp (register t n entry icon)
    (λ i r', unique r' ∧ next_id r' = next_id r + 1 ∧ i = next_id r ∧ apps r !! i = None ∧
      ∃ d, apps r' = <[i := d]> (apps r) ∧ name d = n ∧ app_type d = t)
    (λ e r', is_Some e ∧ r' = r) r.
Proof.
  intros [Hs Hi Hn Hsc] Hpos Hroom. unfold register. do 2 wp_step.
  destruct (Z.leb_spec MAX_APPS (count r)); [apply wp_throw; by split; [eexists|]|].
  destruct (find_by_name n r) as [d|] eqn:Hf; [apply wp_throw; by split; [eexists|]|].
  destruct (existsb (same_scope t) (values r)) eqn:Hex; [apply wp_throw; by split; [eexists|]|].
  wp_step. apply wp_add; [done|]. do 3 wp_step. unfold now, wp at 1. do 3 wp_step. simpl.
  set (d := mkDescriptor (next_id r) t n icon (data_path (next_id r)) entry (clock r) 0).
  assert (apps r !! next_id r = None) as Hnone.
  { destruct (apps r !! next_id r) as [x|] eqn:Hx; [|done]. apply Hi in Hx as (_ & ? & _). lia. }
  assert (∀ j e, apps r !! j = Some e → name e ≠ n ∧ same_scope t e = false) as Hother.
  { intros j e He. assert (e ∈ values r) as Hv by (apply elem_of_values; by eexists). split.
    - intros Heq. eapply List.find_none in Hf; [|by apply list_elem_of_In]. by rewrite Heq, String.eqb_refl in Hf.
    - destruct (same_scope t e) eqn:He'; [|done]. assert (existsb (same_scope t) (values r) = true) as Ht; [|congruence].
      apply existsb_exists. exists e. split; [by apply list_elem_of_In|done]. }
  split; [|split_and!; [done|done|done|by exists d]]. split; simpl.
  - unfold count. simpl. rewrite map_size_insert_None by done. unfold count in *. lia.
  - intros j e. rewrite lookup_insert_Some. intros [[<- <-]|[_ He]]; [split_and!; [done|lia|lia|done]|].
    destruct (Hi j e He) as (? & ? & ?). split_and!; [done|lia|lia|done].
  - intros j k e1 e2. rewrite !lookup_insert_Some. intros [[<- <-]|[_ H1]] [[<- <-]|[_ H2]] Heq; [done| | |by eapply Hn].
    + by destruct (Hother k e2 H2) as [[] _].
    + by destruct (Hother j e1 H1) as [[] _].
  - intros j k e1 e2. rewrite !lookup_insert_Some. intros [[<- <-]|[_ H1]] [[<- <-]|[_ H2]] Heq; [done| | |by eapply Hsc].
    + destruct (Hother k e2 H2) as [_ Ho]. simpl in Heq. congruence.
    + destruct (Hother j e1 H1) as [_ Ho]. rewrite same_scope_sym in Heq. simpl in Heq. congruence.
Qed.

Lemma unregister_unique i r :
  unique r → wp (unregister i) (λ d r', unique r' ∧ next_id r' = next_id r ∧ apps r !! i = Some d ∧ apps r' = delete i (apps r))
    (λ e r', is_Some e ∧ r' = r) r.
Proof.
  intros [Hs Hi Hn Hsc]. unfold unregister. do 3 wp_step. apply wp_ok_or; [intros d Hd|intros _; by split; [eexists|]].
  do 3 wp_step. split; [|done]. split; simpl.
  - unfold count in *. simpl. pose proof (map_size_delete i (apps r)) as Hsz. rewrite Hd in Hsz. rewrite Hsz. lia.
  - intros j e [_ He]%lookup_delete_Some. by apply Hi.
  - intros j k e1 e2 [_ H1]%lookup_delete_Some [_ H2]%lookup_delete_Some. by apply Hn.
  - intros j k e1 e2 [_ H1]%lookup_delete_Some [_ H2]%lookup_delete_Some. by apply Hsc.
Qed.

Lemma unique_new : unique new.
Proof. split; [done|intros *; simpl; by rewrite lookup_empty..]. Qed.

(** The catalogs that registrations and removals lead to. *)
Inductive catalog_reach : AppRegistry → Prop :=
| reach_new : catalog_reach new
| reach_register r t n entry icon : catalog_reach r → next_id r + 1 < 2 ^ 64 → catalog_reach (register t n entry icon r).2
| reach_unregister r i : catalog_reach r → catalog_reach (unregister i r).2.

Lemma reach_unique r : catalog_reach r → unique r ∧ 0 < next_id r.
Proof.
  induction 1 as [|r t n entry icon _ [IH Hpos] Hroom|r i _ [IH Hpos]]; [split; [apply unique_new|done]|..].
  - pose proof (register_unique t n entry icon r IH Hpos Hroom) as H. unfold wp in H.
    destruct (register t n entry icon r) as [[a|e|] r']; simpl; [|by destruct H as [_ ->]..]. destruct H as (? & -> & _). split; [done|lia].
  - pose proof (unregister_unique i r IH) as H. unfold wp in H.
    destruct (unregister i r) as [[a|e|] r']; simpl; [|by destruct H as [_ ->]..]. by destruct H as (? & -> & _).
Qed.

(** The catalog holds at most 256 applications; two of them never share a
    name, two web applications never share a scope, and each has the directory
    of its own identifier. *)
Theorem catalog_unique r :
  catalog_reach r →
  count r ≤ 256 ∧
  ∀ i d, apps r !! i = Some d → install_path d = data_path i ∧
    ∀ j e, apps r !! j = Some e → name d = name e ∨ same_scope (app_type d) e = true → i = j.
Proof.
  intros [[Hs Hi Hn Hsc] _]%reach_unique. split; [done|]. intros i d Hd. destruct (Hi i d Hd) as (_ & _ & ->). split; [done|].
  intros j e He [Heq|Heq]; [by eapply Hn|by eapply Hsc].
Qed.

Lemma catalog_unique_witness :
  count demo_catalog = 2 ∧ count demo_catalog ≤ 256 ∧
  (register (WebApp "https://notes.kpio/" false) "Other" "" None demo_catalog).1 = Err AppError.AlreadyRegistered.
Proof.
  split; [reflexivity|]. split; [|vm_compute; reflexivity].
  exact (proj1 (catalog_unique demo_catalog (reach_register _ (WebApp "https://notes.kpio/" true) "Notes" "https://notes.kpio/" (Some [1])
    (reach_register new NativeApp "shell" "/bin/sh" None reach_new ltac:(vm_compute; reflexivity)) ltac:(vm_compute; reflexivity)))).
Defined.
