(* ===== verification/Windows.v ===== *)
(** * Saved windows

    [src/kernel/src/app/window_state.rs]: the geometry of an application's
    window, stored in the directory of the application. *)

From stdpp Require Import gmap strings.
From S2P Require Import Prelude.
From S2P Require Import Text.
From S2P Require Import Memfs.
From S2P Require Import Vfs.
From S2P Require Import Permissions.
From S2P Require Import Sandbox.
From S2P Require Import Apps.

(** ** The code *)

Record SavedWindowState : Type := mkWindow {
  x : Z;
  y : Z;
  width : Z;
  height : Z;
}.

Definition state_path (app_id : Z) : string := "/apps/data/" +:+ decimal app_id +:+ "/window_state.json".

(** [Display] and [parse] of an [i32]. *)
Definition show_signed (z : Z) : string := if z <? 0 then "-" +:+ decimal (- z) else decimal z.
Definition parse_i32 (s : string) : option Z :=
  match s with
  | String "-" r => n ← parse_unsigned 32 r; if n <=? 2 ^ 31 then Some (- n) else None
  | _ => parse_unsigned 31 s
  end.

Definition window_json (w : SavedWindowState) : string :=
  "{" +:+ key "x" +:+ show_signed (x w) +:+ "," +:+ key "y" +:+ show_signed (y w)
  +:+ "," +:+ key "width" +:+ decimal (width w) +:+ "," +:+ key "height" +:+ decimal (height w) +:+ "}".

Fixpoint take_signed (s : string) : string :=
  match s with
  | EmptyString => EmptyString
  | String a s => if is_digit a || Ascii.eqb a "-" then String a (take_signed s) else EmptyString
  end.

Definition extract_i32 (s k : string) : option Z :=
  rest ← find_after (key k) s;
  parse_i32 (take_signed (trim_start rest)).
Definition extract_u32 (s k : string) : option Z :=
  rest ← find_after (key k) s;
  parse_unsigned 32 (take_digits (trim_start rest)).

Definition parse_state (s : string) : option SavedWindowState :=
  x ← extract_i32 s "x";
  y ← extract_i32 s "y";
  width ← extract_u32 s "width";
  height ← extract_u32 s "height";
  Some (mkWindow x y width height).

Definition save_window (app_id : Z) (w : SavedWindowState) : M Vfs AppError.t unit := λ s,
  let '(o, s) := write_all (state_path app_id) (bytes_of (window_json w)) s in
  (map_err (λ _, AppError.IoError) o, s).

Definition load_window (env : Env) (app_id : Z) (s : Vfs) : option SavedWindowState :=
  match (read_all env (state_path app_id) s).1 with
  | Ok data => if utf8_valid data then parse_state (string_of_bytes data) else None
  | _ => None
  end.

(** ** Round trip *)

Lemma show_signed_chars z : all_chars (λ a, is_digit a || Ascii.eqb a "-") (show_signed z) = true.
Proof.
  unfold show_signed. destruct (z <? 0); rewrite ?all_chars_app; simpl;
    (eapply all_chars_impl; [|apply decimal_digits]; intros a ->; done).
Qed.

Lemma take_signed_app s t :
  all_chars (λ a, is_digit a || Ascii.eqb a "-") s = true → take_signed t = "" → take_signed (s +:+ t) = s.
Proof.
  intros Hs Ht. induction s as [|a s IH]; [done|]. cbn [all_chars] in Hs. apply andb_prop in Hs as [Ha Hs].
  cbn [String.append take_signed]. by rewrite Ha, IH.
Qed.

Lemma parse_show_signed z : in_s 32 z → parse_i32 (show_signed z) = Some z.
Proof.
  intros [Hlo Hhi]. change (2 ^ (32 - 1)) with (2 ^ 31) in *. unfold show_signed. destruct (Z.ltb_spec z 0).
  - cbn [String.append parse_i32]. rewrite parse_decimal by lia. simpl mbind. cbv beta.
    destruct (Z.leb_spec (- z) (2 ^ 31)); [f_equal; lia|lia].
  - assert (parse_i32 (decimal z) = parse_unsigned 31 (decimal z)) as ->; [|by apply parse_decimal].
    pose proof (decimal_digits z) as Hd. destruct (decimal z) as [|a s]; [done|]. cbn [all_chars] in Hd. apply andb_prop in Hd as [Ha _].
    revert Ha. unfold parse_i32. destruct a as [[] [] [] [] [] [] [] []]; done.
Qed.

Lemma show_signed_head z t : trim_start (show_signed z +:+ t) = show_signed z +:+ t.
Proof.
  unfold show_signed. destruct (z <? 0); [by apply trim_start_visible|]. apply trim_start_digits; [apply decimal_digits|apply decimal_nonempty].
Qed.

Lemma show_signed_no_quote z : no_quote (show_signed z) = true.
Proof.
  unfold no_quote, no_char. eapply all_chars_impl; [|apply show_signed_chars].
  intros a Ha. destruct (Ascii.eqb_spec a dquote); [by subst|done].
Qed.

Lemma extract_signed s k z t : find k "" s = Some (show_signed z +:+ t) → take_signed t = "" → in_s 32 z → extract_i32 s k = Some z.
Proof.
  unfold find, extract_i32. rewrite app_nil_string. intros -> Ht Hz. cbn [mbind option_bind].
  rewrite show_signed_head, take_signed_app by (done || apply show_signed_chars). by apply parse_show_signed.
Qed.

Lemma extract_unsigned s k z t : find k "" s = Some (decimal z +:+ t) → take_digits t = "" → in_u 32 z → extract_u32 s k = Some z.
Proof.
  unfold find, extract_u32. rewrite app_nil_string. intros -> Ht Hz. cbn [mbind option_bind].
  rewrite trim_start_digits by (apply decimal_digits || apply decimal_nonempty).
  rewrite take_digits_app by apply decimal_digits. rewrite Ht, app_nil_string. by apply parse_decimal.
Qed.

Record window_ok (w : SavedWindowState) : Prop := {
  wo_pos : in_s 32 (x w) ∧ in_s 32 (y w);
  wo_size : in_u 32 (width w) ∧ in_u 32 (height w);
}.

Ltac window_find :=
  repeat first
    [ rewrite find_plain by (reflexivity || apply decimal_no_quote || apply show_signed_no_quote)
    | rewrite find_other_key by reflexivity ];
  unfold find; rewrite app_nil_string; apply find_key.

Lemma parse_window w : window_ok w → parse_state (window_json w) = Some w.
Proof.
  intros [[Hx Hy] [Hw Hh]]. unfold parse_state. set (s := window_json w).
  assert (extract_i32 s "x" = Some (x w)) as -> by (eapply extract_signed; [unfold s, window_json; window_find|reflexivity|done]).
  assert (extract_i32 s "y" = Some (y w)) as -> by (eapply extract_signed; [unfold s, window_json; window_find|reflexivity|done]).
  assert (extract_u32 s "width" = Some (width w)) as -> by (eapply extract_unsigned; [unfold s, window_json; window_find|reflexivity|done]).
  assert (extract_u32 s "height" = Some (height w)) as -> by (eapply extract_unsigned; [unfold s, window_json; window_find|reflexivity|done]).
  by destruct w.
Qed.

Lemma window_json_ascii w : all_chars is_ascii (window_json w) = true.
Proof.
  assert (∀ z, all_chars is_ascii (decimal z) = true) as Hd by (intros z; eapply all_chars_impl; [apply digit_ascii|apply decimal_digits]).
  assert (∀ z, all_chars is_ascii (show_signed z) = true) as Hs.
  { intros z. eapply all_chars_impl; [|apply show_signed_chars]. intros a. destruct a as [[] [] [] [] [] [] [] []]; done. }
  unfold window_json. by rewrite !all_chars_app, !Hs, !Hd.
Qed.

Definition window_names (app_id : Z) : list string := home_parts app_id ++ ["window_state.json"].

Lemma window_path app_id : path_of (window_names app_id) = state_path app_id.
Proof. unfold window_names. rewrite path_of_app, <- home_dir_path. unfold app_home_dir, state_path. by rewrite !app_assoc_string. Qed.

Lemma window_names_ok app_id : names (window_names app_id).
Proof. apply names_app; [apply home_names|by repeat constructor]. Qed.

(** A window that was saved is loaded; when saving fails nothing has changed. *)
Lemma window_save_load env s f app_id w :
  FS s = Some f → wf f → next_ino f + 1 < 2 ^ 64 → window_ok w →
  wp (save_window app_id w) (λ _ s', load_window env app_id s' = Some w) (λ o s', o = Some AppError.IoError ∧ s' = s) s.
Proof.
  intros Hf Hwf Hroom Hw. pose proof (write_all_spec env s f (window_names app_id) (bytes_of (window_json w)) Hf Hwf Hroom (window_names_ok app_id)) as H.
  rewrite window_path in H. unfold wp in *. unfold save_window. destruct (write_all (state_path app_id) _ s) as [[[]|e|] s']; simpl map_err; cbv iota beta.
  - destruct H as (_ & f' & -> & [_ _ Hc _]). unfold load_window. rewrite <- window_path, (read_all_contents env _ f') by (done || apply window_names_ok).
    rewrite Hc. cbn [fst]. rewrite utf8_ascii by apply window_json_ascii. by rewrite bytes_string, parse_window.
  - by destruct H as (_ & _ & ->).
  - by destruct H as [[? ?] _].
Qed.
