(* ===== verification/Bytes.v ===== *)
(** * Arrays of bytes and words

    What the cryptographic code of [net/crypto/] uses of the language: indexing
    and ranges that panic, checked arithmetic, rotations, big-endian bytes,
    [chunks], and the loops it repeats (padding, exclusive or of a keystream). *)

From stdpp Require Import base numbers list.
From S2P Require Import Prelude.

(** Code that cannot return an error, but may panic. *)
Abbreviation checked := (outcome Empty_set).

(** [l[i]] *)
Definition at_ {A} (l : list A) (i : nat) : checked A := ok_or_panic (l !! i).

(** [a + b], [a - b] and [a * b] of width [w] under overflow checks. *)
Definition in_width (w z : Z) : checked Z := if (0 <=? z) && (z <? 2 ^ w) then Ok z else Panic.
Definition add (w a b : Z) : checked Z := in_width w (a + b).
Definition sub (w a b : Z) : checked Z := in_width w (a - b).
Definition mul (w a b : Z) : checked Z := in_width w (a * b).

(** [wrapping_add], [!x], [x << n], [rotate_right] and [rotate_left]. *)
Definition wadd (w a b : Z) : Z := wrap w (a + b).
Definition wsub (w a b : Z) : Z := wrap w (a - b).
Definition bnot (w a : Z) : Z := 2 ^ w - 1 - a.
Definition shl (w a n : Z) : Z := wrap w (Z.shiftl a n).
Definition rotr (w n a : Z) : Z := Z.lor (Z.shiftr a n) (shl w a (w - n)).
Definition rotl (w n a : Z) : Z := Z.lor (shl w a n) (Z.shiftr a (w - n)).

(** [to_be_bytes] and [from_be_bytes] *)
Definition to_be_bytes (n : nat) (v : Z) : list Z := rev (to_le_bytes n v).
Definition from_be_bytes (bs : list Z) : Z := from_le_bytes (rev bs).

(** [&l[a..a + n]] *)
Definition range {A} (l : list A) (a n : nat) : checked (list A) :=
  if (a + n <=? length l)%nat then Ok (take n (drop a l)) else Panic.

(** [l.chunks(n)]; each chunk takes at least one element. *)
Fixpoint chunks_go {A} (fuel n : nat) (l : list A) : list (list A) :=
  match fuel, l with
  | S fuel, _ :: _ => take n l :: chunks_go fuel n (drop n l)
  | _, _ => []
  end.
Definition chunks {A} (n : nat) (l : list A) : list (list A) := chunks_go (length l) n l.

(** [for x in l { acc = f(acc, x) }] *)
Fixpoint fold_m {A B} (f : B → A → checked B) (acc : B) (l : list A) : checked B :=
  match l with
  | [] => Ok acc
  | x :: l => acc ← f acc x; fold_m f acc l
  end.

(** [while v.len() % m != r { v.push(0) }]; at most [m] steps are needed. *)
Fixpoint pad_zeros (fuel : nat) (m r : Z) (v : list Z) : list Z :=
  match fuel with
  | O => v
  | S fuel => if len v mod m =? r then v else pad_zeros fuel m r (v ++ [0])
  end.

(** [for j in 0..n { a[j] ^= b[j] }] on arrays that have [n] elements. *)
Definition xor_bytes (a b : list Z) : list Z := zip_with Z.lxor a b.

Notation "a ⊕ b" := (Z.lxor a b) (at level 50, left associativity) : Z_scope.

(** [a * b + c * d + ...] in [w] bits. *)
Fixpoint products (w acc : Z) (ps : list (Z * Z)) : checked Z :=
  match ps with
  | [] => Ok acc
  | (a, b) :: ps => p ← mul w a b; acc ← add w acc p; products w acc ps
  end.

(** [diff |= a[j] ^ b[j]] over two tags. *)
Definition tag_diff (a b : list Z) : Z := fold_left Z.lor (xor_bytes a b) 0.

(** ** Lemmas *)

Lemma in_width_Ok w z : in_u w z → in_width w z = Ok z.
Proof. unfold in_u, in_width. intros. repeat zcase; done || lia. Qed.

Lemma add_Ok w a b : in_u w (a + b) → add w a b = Ok (a + b).
Proof. apply in_width_Ok. Qed.

Lemma sub_Ok w a b : in_u w (a - b) → sub w a b = Ok (a - b).
Proof. apply in_width_Ok. Qed.

Lemma mul_Ok w a b : in_u w (a * b) → mul w a b = Ok (a * b).
Proof. apply in_width_Ok. Qed.

Lemma at_Ok {A} (l : list A) i : (i < length l)%nat → ∃ x, at_ l i = Ok x ∧ l !! i = Some x.
Proof.
  intros [x Hx]%lookup_lt_is_Some_2. exists x. unfold at_. by rewrite Hx.
Qed.

Lemma range_Ok {A} (l : list A) a n :
  (a + n ≤ length l)%nat → range l a n = Ok (take n (drop a l)).
Proof. intros. unfold range. by rewrite (proj2 (Nat.leb_le _ _)). Qed.

Lemma length_to_be_bytes n v : length (to_be_bytes n v) = n.
Proof. unfold to_be_bytes. by rewrite length_rev, length_to_le_bytes. Qed.

Lemma to_be_bytes_ok n v : bytes_ok (to_be_bytes n v).
Proof. apply Forall_rev, to_le_bytes_ok. Qed.

#[export] Hint Resolve to_be_bytes_ok : kpio.

Lemma fold_m_app {A B} (f : B → A → checked B) acc l k :
  fold_m f acc (l ++ k) = fold_m f acc l ≫= λ acc, fold_m f acc k.
Proof.
  revert acc. induction l as [|x l IH]; intros acc; [done|].
  simpl. destruct (f acc x); simpl; [apply IH|done..].
Qed.

Lemma fold_m_total {A B} (f : B → A → checked B) (P : B → Prop) (Q : A → Prop) acc l :
  (∀ b x, P b → Q x → ∃ b', f b x = Ok b' ∧ P b') → P acc → Forall Q l →
  ∃ b, fold_m f acc l = Ok b ∧ P b.
Proof.
  intros Hf Ha Hl. revert acc Ha. induction Hl as [|x l Hx _ IH]; intros acc Ha; [by eexists|].
  destruct (Hf _ _ Ha Hx) as (b & Hb & HP). simpl. rewrite Hb. by apply IH.
Qed.

Lemma fold_left_inv {A B} (f : A → B → A) (P : A → Prop) (Q : B → Prop) l a :
  (∀ a b, P a → Q b → P (f a b)) → P a → Forall Q l → P (fold_left f l a).
Proof.
  intros Hf Ha Hl. revert a Ha. induction Hl as [|b l Hb _ IH]; intros a Ha; [done|]. apply IH, Hf; done.
Qed.

(** [chunks] cuts off blocks of [n]. *)
Section chunks.
Context {A : Type} (n : nat) (Hn : (0 < n)%nat).
Implicit Types l : list A.

Lemma chunks_go_fuel f f' l : (length l ≤ f)%nat → (length l ≤ f')%nat → chunks_go f n l = chunks_go f' n l.
Proof.
  revert f' l. induction f as [|f IH]; intros [|f'] [|x l] H1 H2; simpl in *; try done; try lia.
  f_equal. apply IH; rewrite length_drop; simpl; lia.
Qed.

Lemma chunks_app l k : (length l = n)%nat → chunks n (l ++ k) = l :: chunks n k.
Proof.
  intros Hl. unfold chunks. destruct l as [|x l]; [simpl in *; lia|].
  simpl chunks_go at 1. rewrite app_comm_cons, take_app_length', drop_app_length' by done.
  f_equal. apply chunks_go_fuel; rewrite ?length_app; simpl in *; lia.
Qed.

Lemma chunks_nil : chunks n ([] : list A) = [].
Proof. done. Qed.

Lemma chunks_short l : (0 < length l ≤ n)%nat → chunks n l = [l].
Proof.
  intros Hl. unfold chunks. destruct l as [|x l]; [simpl in *; lia|].
  simpl. rewrite take_ge, drop_ge by (simpl in *; lia). by destruct (length l).
Qed.

Lemma chunks_step l : (n ≤ length l)%nat → chunks n l = take n l :: chunks n (drop n l).
Proof. intros. rewrite <-(take_drop n l) at 1. apply chunks_app. rewrite length_take. lia. Qed.

Lemma chunks_app_blocks q l k : (length l = q * n)%nat → chunks n (l ++ k) = chunks n l ++ chunks n k.
Proof.
  revert l. induction q as [|q IH]; intros l Hl.
  - destruct l; [done|simpl in *; lia].
  - rewrite (chunks_step l) by lia. rewrite chunks_step by (rewrite length_app; lia).
    rewrite take_app_le, drop_app_le by lia. simpl. f_equal. apply IH. rewrite length_drop. lia.
Qed.

Lemma chunks_blocks q l : (length l = q * n)%nat → Forall (λ b, length b = n) (chunks n l).
Proof.
  revert l. induction q as [|q IH]; intros l Hl.
  - destruct l; [constructor|simpl in *; lia].
  - rewrite chunks_step by lia. constructor; [rewrite length_take; lia|].
    apply IH. rewrite length_drop. lia.
Qed.
End chunks.

Lemma chunks_concat {A} n (l : list A) : (0 < n)%nat → concat (chunks n l) = l.
Proof.
  intros Hn. unfold chunks. assert (length l ≤ length l)%nat as Hf by lia. revert Hf.
  generalize (length l) at 2 3. intros f. revert l. induction f as [|f IH]; intros [|x l] Hl; simpl in *; try done; try lia.
  rewrite IH by (rewrite length_drop; simpl; lia). apply take_drop.
Qed.

(** The loop of zeros. *)
Lemma pad_zeros_spec fuel m r v k :
  0 < m → (k < fuel)%nat → (len v + Z.of_nat k) mod m = r →
  (∀ j, (j < k)%nat → (len v + Z.of_nat j) mod m ≠ r) →
  pad_zeros fuel m r v = v ++ replicate k 0.
Proof.
  intros Hm. revert v k. induction fuel as [|fuel IH]; intros v k Hk Hr Hj; [lia|].
  simpl. destruct k as [|k].
  - replace (len v + Z.of_nat 0) with (len v) in Hr by lia. rewrite Hr, Z.eqb_refl. by rewrite app_nil_r.
  - destruct (Z.eqb_spec (len v mod m) r) as [He|_].
    + exfalso. apply (Hj O); [lia|]. by replace (len v + Z.of_nat 0) with (len v) by lia.
    + rewrite (IH _ k); [by rewrite <-app_assoc|lia|..]; rewrite ?len_snoc.
      * rewrite <-Hr. f_equal. lia.
      * intros j Hjk. replace (len v + 1 + Z.of_nat j) with (len v + Z.of_nat (S j)) by lia.
        apply Hj. lia.
Qed.

Lemma pad_zeros_eq fuel m r v :
  0 ≤ r < m → m < Z.of_nat fuel →
  pad_zeros fuel m r v = v ++ replicate (Z.to_nat ((r - len v) mod m)) 0.
Proof.
  intros Hr Hf. assert (0 < m) as Hm by lia. pose proof (Z.mod_pos_bound (r - len v) m Hm) as Hb.
  apply pad_zeros_spec; [done|lia|..].
  - rewrite Z2Nat.id by lia. rewrite Z.add_mod_idemp_r by lia.
    replace (len v + (r - len v)) with r by lia. apply Z.mod_small. lia.
  - intros j Hj He. pose proof (Z.mod_pos_bound (len v + Z.of_nat j) m Hm).
    assert ((r - len v) mod m = Z.of_nat j) as Hx; [|lia].
    rewrite <-He, Zminus_mod_idemp_l. replace (len v + Z.of_nat j - len v) with (Z.of_nat j) by lia.
    apply Z.mod_small. lia.
Qed.

(** A keystream is taken off by applying it again. *)
Lemma xor_bytes_twice a b : (length a ≤ length b)%nat → xor_bytes (xor_bytes a b) b = a.
Proof.
  unfold xor_bytes. revert b. induction a as [|x a IH]; intros [|y b]; simpl; intros; try done; [lia|].
  rewrite IH by lia. by rewrite Z.lxor_assoc, Z.lxor_nilpotent, Z.lxor_0_r.
Qed.

Lemma length_xor_bytes a b : length (xor_bytes a b) = min (length a) (length b).
Proof. apply length_zip_with. Qed.

Lemma xor_bytes_ok a b : bytes_ok a → bytes_ok b → bytes_ok (xor_bytes a b).
Proof.
  intros Ha. revert b. induction Ha as [|x a Hx _ IH]; intros [|y b] Hb; try by constructor.
  apply Forall_cons in Hb as [Hy Hb]. constructor; [by apply in_u_lxor|]. by apply IH.
Qed.

(** The comparison of tags decides equality. *)
Lemma tag_diff_0 a b : length a = length b → bytes_ok a → bytes_ok b → tag_diff a b = 0 ↔ a = b.
Proof.
  intros Hl Ha Hb. unfold tag_diff. enough (∀ acc, 0 ≤ acc → fold_left Z.lor (xor_bytes a b) acc = 0 ↔ acc = 0 ∧ a = b) as He.
  { rewrite He by lia. naive_solver. }
  revert b Hl Hb. induction Ha as [|x a Hx _ IH]; intros [|y b] Hl Hb acc Hacc; try done.
  - simpl. naive_solver.
  - apply Forall_cons in Hb as [Hy Hb]. unfold in_u in *. simpl. rewrite IH; [|simpl in *; lia|done|].
    + rewrite Z.lor_eq_0_iff, Z.lxor_eq_0_iff. naive_solver.
    + apply Z.lor_nonneg. split; [done|]. apply Z.lxor_nonneg. lia.
Qed.

(** A property of all elements, chunk by chunk. *)
Lemma chunks_Forall {A} (P : A → Prop) n (l : list A) :
  Forall P l → Forall (λ b, Forall P b ∧ (length b ≤ n)%nat) (chunks n l).
Proof.
  unfold chunks. generalize (length l). intros f. revert l. induction f as [|f IH]; intros [|x l] Hl; try by constructor.
  cbn [chunks_go]. constructor; [split; [by apply Forall_take|rewrite length_take; lia]|]. by apply IH, Forall_drop.
Qed.

(** ** Blocks of sixteen bytes *)

Definition block_ok (b : list Z) : Prop := length b = 16%nat ∧ bytes_ok b.

Lemma xor_block_ok a b : block_ok a → block_ok b → block_ok (xor_bytes a b).
Proof.
  intros [Ha Ha'] [Hb Hb']. split; [rewrite length_xor_bytes; lia|by apply xor_bytes_ok].
Qed.

Lemma xor_block_twice a b : block_ok a → block_ok b → xor_bytes (xor_bytes a b) b = a.
Proof. intros [Ha _] [Hb _]. apply xor_bytes_twice. lia. Qed.

(** ** Numbers from bytes *)

Lemma from_le_bytes_app a b : from_le_bytes (a ++ b) = from_le_bytes a + 256 ^ len a * from_le_bytes b.
Proof.
  induction a as [|x a IH]; [by rewrite app_nil_l; unfold len; simpl; lia|].
  rewrite <-app_comm_cons. cbn [from_le_bytes]. rewrite IH, len_cons, Z.pow_add_r by (pose proof (len_nonneg a); lia). lia.
Qed.

Lemma from_le_bytes_zeros n : from_le_bytes (replicate n 0) = 0.
Proof. induction n as [|n IH]; [done|]. cbn [replicate from_le_bytes]. lia. Qed.

(** The number of four bytes at an offset, in the number of all of them. *)
Lemma from_le_bytes_slice bs i n :
  bytes_ok bs → (i + n ≤ length bs)%nat →
  from_le_bytes (take n (drop i bs)) = from_le_bytes bs / 256 ^ Z.of_nat i mod 256 ^ Z.of_nat n.
Proof.
  intros Hb Hl. rewrite <-(take_drop i bs) at 2. rewrite <-(take_drop n (drop i bs)) at 2.
  rewrite !from_le_bytes_app. unfold len. rewrite !length_take, length_drop.
  replace (min i (length bs)) with i by lia. replace (min n (length bs - i)) with n by lia.
  pose proof (from_le_bytes_range (take i bs)) as H1. pose proof (from_le_bytes_range (take n (drop i bs))) as H2.
  unfold len in *. rewrite !length_take, ?length_drop in *.
  replace (min i (length bs)) with i in H1 by lia. replace (min n (length bs - i)) with n in H2 by lia.
  specialize (H1 ltac:(by apply Forall_take)). specialize (H2 ltac:(by apply Forall_take, Forall_drop)).
  pose proof (Z.pow_pos_nonneg 256 (Z.of_nat i)). pose proof (Z.pow_pos_nonneg 256 (Z.of_nat n)).
  rewrite (Z.mul_comm (256 ^ Z.of_nat i)), Z.div_add by lia. rewrite Z.div_small, Z.add_0_l by lia.
  rewrite (Z.mul_comm (256 ^ Z.of_nat n)), Z.mod_add by lia. by rewrite Z.mod_small.
Qed.

(** Two halves of a number. *)
Lemma to_le_bytes_halves n m v : to_le_bytes (n + m) v = to_le_bytes n (v mod 256 ^ Z.of_nat n) ++ to_le_bytes m (v / 256 ^ Z.of_nat n).
Proof.
  revert v. induction n as [|n IH]; intros v; [by rewrite Z.div_1_r|].
  cbn [Nat.add to_le_bytes app]. rewrite Nat2Z.inj_succ, Z.pow_succ_r by lia.
  pose proof (Z.pow_pos_nonneg 256 (Z.of_nat n) ltac:(lia) ltac:(lia)). f_equal.
  - symmetry. apply Z.mod_mod_divide. exists (256 ^ Z.of_nat n). lia.
  - rewrite IH, Z.div_div by lia. f_equal. f_equal. rewrite Z.rem_mul_r by lia.
    rewrite (Z.mul_comm 256 (_ mod _)), Z.div_add, (Z.div_small (v mod 256)) by (try lia; apply Z.mod_pos_bound; lia). lia.
Qed.

(** ** Sums of products *)

Lemma products_Ok w acc ps :
  0 ≤ acc → Forall (λ p, 0 ≤ p.1 * p.2) ps →
  acc + fold_right (λ p z, p.1 * p.2 + z) 0 ps < 2 ^ w →
  products w acc ps = Ok (acc + fold_right (λ p z, p.1 * p.2 + z) 0 ps).
Proof.
  intros Hacc Hps. revert acc Hacc. induction Hps as [|[a b] ps Hp Hps IH]; intros acc Hacc Hlt; cbn [fold_right products fst snd] in *.
  - f_equal. lia.
  - assert (0 ≤ fold_right (λ p z, p.1 * p.2 + z) 0 ps) as H0.
    { clear IH Hlt. induction Hps; cbn [fold_right]; lia. }
    rewrite mul_Ok by (unfold in_u; lia). cbn [mbind outcome_bind]. rewrite add_Ok by (unfold in_u; lia).
    cbn [mbind outcome_bind]. rewrite IH by lia. f_equal. lia.
Qed.

(** A product of bounded factors is bounded. *)
Lemma mul_bound a b A B : 0 ≤ a < A → 0 ≤ b < B → 0 ≤ a * b ≤ (A - 1) * (B - 1).
Proof. intros. split; [lia|]. apply Z.mul_le_mono_nonneg; lia. Qed.

(** Five products under a bound on their sum. *)
Lemma products5 w a0 b0 a1 b1 a2 b2 a3 b3 a4 b4 B0 B1 B2 B3 B4 L :
  0 ≤ a0 * b0 ≤ B0 → 0 ≤ a1 * b1 ≤ B1 → 0 ≤ a2 * b2 ≤ B2 → 0 ≤ a3 * b3 ≤ B3 → 0 ≤ a4 * b4 ≤ B4 →
  B0 + B1 + B2 + B3 + B4 < L → L ≤ 2 ^ w →
  products w 0 [(a0, b0); (a1, b1); (a2, b2); (a3, b3); (a4, b4)]
    = Ok (a0 * b0 + a1 * b1 + a2 * b2 + a3 * b3 + a4 * b4) ∧
  0 ≤ a0 * b0 + a1 * b1 + a2 * b2 + a3 * b3 + a4 * b4 < L.
Proof.
  intros P0 P1 P2 P3 P4 HB HL. rewrite products_Ok; cbn [fold_right fst snd].
  - split; [f_equal; ring|lia].
  - done.
  - repeat (constructor; [cbn [fst snd]; apply P0 || apply P1 || apply P2 || apply P3 || apply P4|]). constructor.
  - lia.
Qed.

(** [c] is the carry out of [x] above [k] bits. *)
Ltac divide k x c :=
  let E := fresh "E" in
  pose proof (Z.div_mod x (2 ^ k) ltac:(lia)) as E; fold c in E;
  pose proof (Z.mod_pos_bound x (2 ^ k) ltac:(lia)).

(** A shift that loses nothing is a product. *)
Lemma shl_small w x k n : 0 ≤ k → 0 ≤ x < 2 ^ n → n + k ≤ w → 0 ≤ n → shl w x k = x * 2 ^ k.
Proof.
  intros Hk Hx Hn Hn0. unfold shl, wrap. rewrite Z.shiftl_mul_pow2 by done. apply Z.mod_small.
  assert (2 ^ n * 2 ^ k ≤ 2 ^ w) by (rewrite <-Z.pow_add_r by lia; apply Z.pow_le_mono_r; lia).
  pose proof (pow2_pos k Hk). split; [lia|]. eapply Z.lt_le_trans; [|done]. apply Z.mul_lt_mono_pos_r; [done|lia].
Qed.
