(* ===== verification/Sha.v ===== *)
(** * SHA-2, HMAC and HKDF

    [net/crypto/sha.rs], [hmac.rs] and [hkdf.rs].  [sha256] hashes a message at
    once, [Sha256] one that arrives in pieces; the main theorem is that they
    agree however the message is cut.  An array is a list, its index panics out
    of range, and none of the functions does for a message whose length in bits
    fits in 64 bits. *)

From stdpp Require Import base numbers list.
From S2P Require Import Prelude.
From S2P Require Import Bytes.

(** ** Constants *)

(** Row by row, as in the source. *)
Definition SHA256_K : list Z :=
  concat [
    [0x428a2f98; 0x71374491; 0xb5c0fbcf; 0xe9b5dba5; 0x3956c25b; 0x59f111f1; 0x923f82a4; 0xab1c5ed5];
    [0xd807aa98; 0x12835b01; 0x243185be; 0x550c7dc3; 0x72be5d74; 0x80deb1fe; 0x9bdc06a7; 0xc19bf174];
    [0xe49b69c1; 0xefbe4786; 0x0fc19dc6; 0x240ca1cc; 0x2de92c6f; 0x4a7484aa; 0x5cb0a9dc; 0x76f988da];
    [0x983e5152; 0xa831c66d; 0xb00327c8; 0xbf597fc7; 0xc6e00bf3; 0xd5a79147; 0x06ca6351; 0x14292967];
    [0x27b70a85; 0x2e1b2138; 0x4d2c6dfc; 0x53380d13; 0x650a7354; 0x766a0abb; 0x81c2c92e; 0x92722c85];
    [0xa2bfe8a1; 0xa81a664b; 0xc24b8b70; 0xc76c51a3; 0xd192e819; 0xd6990624; 0xf40e3585; 0x106aa070];
    [0x19a4c116; 0x1e376c08; 0x2748774c; 0x34b0bcb5; 0x391c0cb3; 0x4ed8aa4a; 0x5b9cca4f; 0x682e6ff3];
    [0x748f82ee; 0x78a5636f; 0x84c87814; 0x8cc70208; 0x90befffa; 0xa4506ceb; 0xbef9a3f7; 0xc67178f2]].

Definition SHA256_IV : list Z :=
  [0x6a09e667; 0xbb67ae85; 0x3c6ef372; 0xa54ff53a; 0x510e527f; 0x9b05688c;
   0x1f83d9ab; 0x5be0cd19].

Definition SHA512_K : list Z :=
  [0x428a2f98d728ae22; 0x7137449123ef65cd; 0xb5c0fbcfec4d3b2f; 0xe9b5dba58189dbbc;
   0x3956c25bf348b538; 0x59f111f1b605d019; 0x923f82a4af194f9b; 0xab1c5ed5da6d8118;
   0xd807aa98a3030242; 0x12835b0145706fbe; 0x243185be4ee4b28c; 0x550c7dc3d5ffb4e2;
   0x72be5d74f27b896f; 0x80deb1fe3b1696b1; 0x9bdc06a725c71235; 0xc19bf174cf692694;
   0xe49b69c19ef14ad2; 0xefbe4786384f25e3; 0x0fc19dc68b8cd5b5; 0x240ca1cc77ac9c65;
   0x2de92c6f592b0275; 0x4a7484aa6ea6e483; 0x5cb0a9dcbd41fbd4; 0x76f988da831153b5;
   0x983e5152ee66dfab; 0xa831c66d2db43210; 0xb00327c898fb213f; 0xbf597fc7beef0ee4;
   0xc6e00bf33da88fc2; 0xd5a79147930aa725; 0x06ca6351e003826f; 0x142929670a0e6e70;
   0x27b70a8546d22ffc; 0x2e1b21385c26c926; 0x4d2c6dfc5ac42aed; 0x53380d139d95b3df;
   0x650a73548baf63de; 0x766a0abb3c77b2a8; 0x81c2c92e47edaee6; 0x92722c851482353b;
   0xa2bfe8a14cf10364; 0xa81a664bbc423001; 0xc24b8b70d0f89791; 0xc76c51a30654be30;
   0xd192e819d6ef5218; 0xd69906245565a910; 0xf40e35855771202a; 0x106aa07032bbd1b8;
   0x19a4c116b8d2d0c8; 0x1e376c085141ab53; 0x2748774cdf8eeb99; 0x34b0bcb5e19b48a8;
   0x391c0cb3c5c95a63; 0x4ed8aa4ae3418acb; 0x5b9cca4f7763e373; 0x682e6ff3d6b2b8a3;
   0x748f82ee5defb2fc; 0x78a5636f43172f60; 0x84c87814a1f0ab72; 0x8cc702081a6439ec;
   0x90befffa23631e28; 0xa4506cebde82bde9; 0xbef9a3f7b2c67915; 0xc67178f2e372532b;
   0xca273eceea26619c; 0xd186b8c721c0c207; 0xeada7dd6cde0eb1e; 0xf57d4f7fee6ed178;
   0x06f067aa72176fba; 0x0a637dc5a2c898a6; 0x113f9804bef90dae; 0x1b710b35131c471b;
   0x28db77f523047d84; 0x32caab7b40c72493; 0x3c9ebe0a15c9bebc; 0x431d67c49c100d4c;
   0x4cc5d4becb3e42b6; 0x597f299cfc657e2a; 0x5fcb6fab3ad6faec; 0x6c44198c4a475817].

Definition SHA512_IV : list Z :=
  [0x6a09e667f3bcc908; 0xbb67ae8584caa73b; 0x3c6ef372fe94f82b; 0xa54ff53a5f1d36f1;
   0x510e527fade682d1; 0x9b05688c2b3e6c1f; 0x1f83d9abfb41bd6b; 0x5be0cd19137e2179].

Definition SHA384_IV : list Z :=
  [0xcbbb9d5dc1059ed8; 0x629a292a367cd507; 0x9159015a3070dd17; 0x152fecd8f70e5939;
   0x67332667ffc00b31; 0x8eb44a8768581511; 0xdb0c2e0d64f98fa7; 0x47b5481dbefa4fa4].

(** ** Compression *)

(** The eight working variables. *)
Record regs := { ra : Z; rb : Z; rc : Z; rd : Z; re : Z; rf : Z; rg : Z; rh : Z }.

(** [let [a, b, c, d, e, f, g, hh] = *h] and the additions at the end. *)
Definition load (h : list Z) : checked regs :=
  match h with
  | [a; b; c; d; e; f; g; hh] =>
      Ok {| ra := a; rb := b; rc := c; rd := d; re := e; rf := f; rg := g; rh := hh |}
  | _ => Panic
  end.
Definition add_regs (w : Z) (h : list Z) (r : regs) : list Z :=
  zip_with (wadd w) h [ra r; rb r; rc r; rd r; re r; rf r; rg r; rh r].

(** [for i in 0..16 { w[i] = from_be_bytes(block[i * n ..]) }] *)
Fixpoint load_words (n count i : nat) (block w : list Z) : checked (list Z) :=
  match count with
  | O => Ok w
  | S count =>
      bs ← range block (i * n) n;
      load_words n count (S i) block (<[i := from_be_bytes bs]> w)
  end.

(** [for i in 16..]: [next] combines [w[i - 16]], [w[i - 15]], [w[i - 7]] and
    [w[i - 2]]. *)
Fixpoint schedule (next : Z → Z → Z → Z → Z) (count i : nat) (w : list Z) : checked (list Z) :=
  match count with
  | O => Ok w
  | S count =>
      w16 ← at_ w (i - 16); w15 ← at_ w (i - 15); w7 ← at_ w (i - 7); w2 ← at_ w (i - 2);
      schedule next count (S i) (<[i := next w16 w15 w7 w2]> w)
  end.

(** The rounds of the main loop. *)
Fixpoint rounds (step : Z → Z → regs → regs) (ks w : list Z) (count i : nat) (r : regs) : checked regs :=
  match count with
  | O => Ok r
  | S count =>
      k ← at_ ks i; wi ← at_ w i;
      rounds step ks w count (S i) (step k wi r)
  end.

(** One round with the given sums of rotations. *)
Definition round (w : Z) (S1 S0 : Z → Z) (k wi : Z) (r : regs) : regs :=
  let s1 := S1 (re r) in
  let ch := Z.lxor (Z.land (re r) (rf r)) (Z.land (bnot w (re r)) (rg r)) in
  let t1 := wadd w (wadd w (wadd w (wadd w (rh r) s1) ch) k) wi in
  let s0 := S0 (ra r) in
  let maj := Z.lxor (Z.lxor (Z.land (ra r) (rb r)) (Z.land (ra r) (rc r))) (Z.land (rb r) (rc r)) in
  let t2 := wadd w s0 maj in
  {| rh := rg r; rg := rf r; rf := re r; re := wadd w (rd r) t1;
     rd := rc r; rc := rb r; rb := ra r; ra := wadd w t1 t2 |}.

Definition sum256 (i j k : Z) (x : Z) : Z := Z.lxor (Z.lxor (rotr 32 i x) (rotr 32 j x)) (rotr 32 k x).
Definition next256 (w16 w15 w7 w2 : Z) : Z :=
  let s0 := Z.lxor (Z.lxor (rotr 32 7 w15) (rotr 32 18 w15)) (Z.shiftr w15 3) in
  let s1 := Z.lxor (Z.lxor (rotr 32 17 w2) (rotr 32 19 w2)) (Z.shiftr w2 10) in
  wadd 32 (wadd 32 (wadd 32 w16 s0) w7) s1.

Definition sha256_compress (h block : list Z) : checked (list Z) :=
  w ← load_words 4 16 0 block (replicate 64 0);
  w ← schedule next256 48 16 w;
  r ← load h;
  r ← rounds (round 32 (sum256 6 11 25) (sum256 2 13 22)) SHA256_K w 64 0 r;
  Ok (add_regs 32 h r).

Definition sum512 (i j k : Z) (x : Z) : Z := Z.lxor (Z.lxor (rotr 64 i x) (rotr 64 j x)) (rotr 64 k x).
Definition next512 (w16 w15 w7 w2 : Z) : Z :=
  let s0 := Z.lxor (Z.lxor (rotr 64 1 w15) (rotr 64 8 w15)) (Z.shiftr w15 7) in
  let s1 := Z.lxor (Z.lxor (rotr 64 19 w2) (rotr 64 61 w2)) (Z.shiftr w2 6) in
  wadd 64 (wadd 64 (wadd 64 w16 s0) w7) s1.

Definition sha512_compress (h block : list Z) : checked (list Z) :=
  w ← load_words 8 16 0 block (replicate 80 0);
  w ← schedule next512 64 16 w;
  r ← load h;
  r ← rounds (round 64 (sum512 14 18 41) (sum512 28 34 39)) SHA512_K w 80 0 r;
  Ok (add_regs 64 h r).

(** ** Hashing at once *)

(** [out[i * n ..].copy_from_slice(&h[i].to_be_bytes())] for all [i] *)
Definition digest (n : nat) (h : list Z) : list Z := h ≫= to_be_bytes n.

Definition sha256 (data : list Z) : checked (list Z) :=
  bit_len ← mul 64 (len data) 8;
  let padded := data ++ [0x80] in
  let padded := pad_zeros 65 64 56 padded in
  let padded := padded ++ to_be_bytes 8 bit_len in
  h ← fold_m sha256_compress SHA256_IV (chunks 64 padded);
  Ok (digest 4 h).

Definition sha512_core (data iv : list Z) : checked (list Z) :=
  bit_len ← mul 128 (len data) 8;
  let padded := data ++ [0x80] in
  let padded := pad_zeros 129 128 112 padded in
  let padded := padded ++ to_be_bytes 16 bit_len in
  fold_m sha512_compress iv (chunks 128 padded).

Definition sha512 (data : list Z) : checked (list Z) :=
  state ← sha512_core data SHA512_IV; Ok (digest 8 state).

Definition sha384 (data : list Z) : checked (list Z) :=
  state ← sha512_core data SHA384_IV; Ok (digest 8 (take 6 state)).

(** ** Hashing in pieces *)

Record Sha256 := { h : list Z; buf : list Z; buf_len : nat; total_len : Z }.

Definition new : Sha256 := {| h := SHA256_IV; buf := replicate 64 0; buf_len := 0; total_len := 0 |}.

(** [self.buf[a..].copy_from_slice(bs)] *)
Definition copy_at (l : list Z) (a : nat) (bs : list Z) : checked (list Z) :=
  if (a + length bs <=? length l)%nat then Ok (splice l (Z.of_nat a) bs) else Panic.

(** [while off + 64 <= data.len()], at most once per element. *)
Fixpoint blocks_loop (fuel : nat) (hs data : list Z) (off : nat) : checked (list Z * nat) :=
  match fuel with
  | O => Ok (hs, off)
  | S fuel =>
      if (off + 64 <=? length data)%nat then
        block ← range data off 64;
        hs ← sha256_compress hs block;
        blocks_loop fuel hs data (off + 64)
      else Ok (hs, off)
  end.

Definition update (self : Sha256) (data : list Z) : checked Sha256 :=
  total ← add 64 (total_len self) (len data);
  '(hs, b, n, off) ←
    (if (0 <? buf_len self)%nat then
       need ← sub 64 64 (Z.of_nat (buf_len self));
       let take_ := Nat.min (Z.to_nat need) (length data) in
       b ← copy_at (buf self) (buf_len self) (take take_ data);
       let n := (buf_len self + take_)%nat in
       if (n =? 64)%nat then
         hs ← sha256_compress (h self) b;
         Ok (hs, b, 0%nat, take_)
       else Ok (h self, b, n, take_)
     else Ok (h self, buf self, buf_len self, 0%nat));
  '(hs, off) ← blocks_loop (length data) hs data off;
  if (off <? length data)%nat then
    b ← copy_at b 0 (drop off data);
    Ok {| h := hs; buf := b; buf_len := length data - off; total_len := total |}
  else Ok {| h := hs; buf := b; buf_len := n; total_len := total |}.

Definition finalise (self : Sha256) : checked (list Z) :=
  bit_len ← mul 64 (total_len self) 8;
  let cur := ((buf_len self + 1) mod 64)%nat in
  let zeros := (if cur <=? 56 then 56 - cur else 120 - cur)%nat in
  let pad := [0x80] ++ replicate zeros 0 ++ to_be_bytes 8 bit_len in
  self ← update self pad;
  Ok (digest 4 (h self)).

(** A user of the incremental interface: [new], an [update] per piece, [finalise]. *)
Definition sha256_pieces (pieces : list (list Z)) : checked (list Z) :=
  self ← fold_m update new pieces; finalise self.

(** ** HMAC *)

Section hmac.
(** The block size and the hash function, as [hmac_sha256] and [hmac_sha384]
    instantiate the same code. *)
Context (block : nat) (hash : list Z → checked (list Z)).

Definition hmac (key data : list Z) : checked (list Z) :=
  k ← (if (block <? length key)%nat then
         d ← hash key; copy_at (replicate block 0) 0 d
       else copy_at (replicate block 0) 0 key);
  let ipad := xor_bytes (replicate block 0x36) k in
  let opad := xor_bytes (replicate block 0x5c) k in
  inner_hash ← hash (ipad ++ data);
  hash (opad ++ inner_hash).
End hmac.

Definition hmac_sha256 : list Z → list Z → checked (list Z) := hmac 64 sha256.
Definition hmac_sha384 : list Z → list Z → checked (list Z) := hmac 128 sha384.

(** ** HKDF *)

Section hkdf.
Context (hash_len : nat) (mac : list Z → list Z → checked (list Z)).

Definition extract_with (salt ikm : list Z) : checked (list Z) :=
  mac (if (length salt =? 0)%nat then replicate hash_len 0 else salt) ikm.

(** [for i in 1..=n] with the previous block [t] and the output so far. *)
Fixpoint expand_loop (prk info : list Z) (count : nat) (i : Z) (t okm : list Z) : checked (list Z) :=
  match count with
  | O => Ok okm
  | S count =>
      t ← mac prk (t ++ info ++ [as_u8 i]);
      expand_loop prk info count (i + 1) t (okm ++ t)
  end.

Definition expand_with (prk info : list Z) (length : Z) : checked (list Z) :=
  n ← add 64 length (Z.of_nat hash_len);
  n ← sub 64 n 1;
  okm ← expand_loop prk info (Z.to_nat (n / Z.of_nat hash_len)) 1 [] [];
  Ok (take (Z.to_nat length) okm).
End hkdf.

Definition hkdf_extract : list Z → list Z → checked (list Z) := extract_with 32 hmac_sha256.
Definition hkdf_expand : list Z → list Z → Z → checked (list Z) := expand_with 32 hmac_sha256.
Definition hkdf_extract_384 : list Z → list Z → checked (list Z) := extract_with 48 hmac_sha384.
Definition hkdf_expand_384 : list Z → list Z → Z → checked (list Z) := expand_with 48 hmac_sha384.

(** The bytes of ["tls13 "]. *)
Definition tls13 : list Z := [116; 108; 115; 49; 51; 32].

(** The encoding that [hkdf_expand_label] passes on as [info]. *)
Definition hkdf_label (label context : list Z) (length : Z) : list Z :=
  [as_u8 (Z.shiftr length 8); as_u8 length; as_u8 (6 + len label)] ++ tls13 ++ label
  ++ [as_u8 (len context)] ++ context.

Definition hkdf_expand_label (secret label context : list Z) (length : Z) : checked (list Z) :=
  hkdf_expand secret (hkdf_label label context length) length.

Definition derive_secret (secret label transcript_hash : list Z) : checked (list Z) :=
  hkdf_expand_label secret label transcript_hash 32.

(** ** The compression functions return *)

Lemma load_words_total n count i block w :
  ((i + count) * n ≤ length block)%nat → (i + count ≤ length w)%nat →
  ∃ w', load_words n count i block w = Ok w' ∧ length w' = length w.
Proof.
  revert i w. induction count as [|count IH]; intros i w Hb Hw; simpl; [by eexists|].
  rewrite range_Ok by lia. simpl.
  destruct (IH (S i) (<[i:=from_be_bytes (take n (drop (i * n) block))]> w)) as (w' & -> & Hl);
    rewrite ?length_insert in *; try lia. by eexists.
Qed.

Lemma schedule_total next count i w :
  (16 ≤ i)%nat → (i + count ≤ length w)%nat →
  ∃ w', schedule next count i w = Ok w' ∧ length w' = length w.
Proof.
  revert i w. induction count as [|count IH]; intros i w Hi Hw; simpl; [by eexists|].
  destruct (at_Ok w (i - 16)) as (? & -> & _); [lia|]. destruct (at_Ok w (i - 15)) as (? & -> & _); [lia|].
  destruct (at_Ok w (i - 7)) as (? & -> & _); [lia|]. destruct (at_Ok w (i - 2)) as (? & -> & _); [lia|].
  simpl. match goal with |- context [schedule next count (S i) ?v] => destruct (IH (S i) v) as (w' & -> & Hl) end;
    rewrite ?length_insert in *; try lia. by eexists.
Qed.

Lemma rounds_total step ks w count i r :
  (i + count ≤ length ks)%nat → (i + count ≤ length w)%nat → ∃ r', rounds step ks w count i r = Ok r'.
Proof.
  revert i r. induction count as [|count IH]; intros i r Hk Hw; simpl; [by eexists|].
  destruct (at_Ok ks i) as (? & -> & _); [lia|]. destruct (at_Ok w i) as (? & -> & _); [lia|].
  simpl. apply IH; lia.
Qed.

Lemma load_total hs : length hs = 8%nat → ∃ r, load hs = Ok r.
Proof. intros. do 9 (destruct hs as [|? hs]; try done). by eexists. Qed.

Lemma length_add_regs w hs r : length hs = 8%nat → length (add_regs w hs r) = 8%nat.
Proof. intros Hl. unfold add_regs. rewrite length_zip_with, Hl. done. Qed.

Lemma sha256_compress_total hs block :
  length hs = 8%nat → length block = 64%nat →
  ∃ hs', sha256_compress hs block = Ok hs' ∧ length hs' = 8%nat.
Proof.
  intros Hh Hb. unfold sha256_compress.
  destruct (load_words_total 4 16 0 block (replicate 64 0)) as (w & -> & Hw); [lia|rewrite length_replicate; lia|].
  rewrite length_replicate in Hw. cbn [mbind outcome_bind].
  destruct (schedule_total next256 48 16 w) as (w' & -> & Hw'); [lia..|].
  destruct (load_total hs Hh) as [r ->]. cbn [mbind outcome_bind].
  edestruct (rounds_total (round 32 (sum256 6 11 25) (sum256 2 13 22)) SHA256_K w' 64 0 r) as [r' ->];
    [by vm_compute|lia|].
  eexists. split; [done|]. by apply length_add_regs.
Qed.

Lemma sha512_compress_total hs block :
  length hs = 8%nat → length block = 128%nat →
  ∃ hs', sha512_compress hs block = Ok hs' ∧ length hs' = 8%nat.
Proof.
  intros Hh Hb. unfold sha512_compress.
  destruct (load_words_total 8 16 0 block (replicate 80 0)) as (w & -> & Hw); [lia|rewrite length_replicate; lia|].
  rewrite length_replicate in Hw. cbn [mbind outcome_bind].
  destruct (schedule_total next512 64 16 w) as (w' & -> & Hw'); [lia..|].
  destruct (load_total hs Hh) as [r ->]. cbn [mbind outcome_bind].
  edestruct (rounds_total (round 64 (sum512 14 18 41) (sum512 28 34 39)) SHA512_K w' 80 0 r) as [r' ->];
    [by vm_compute|lia|].
  eexists. split; [done|]. by apply length_add_regs.
Qed.

#[global] Opaque sha256_compress sha512_compress.

(** ** Whole blocks *)

Definition absorb (hs m : list Z) : checked (list Z) := fold_m sha256_compress hs (chunks 64 m).

Lemma absorb_app q hs m k :
  (length m = q * 64)%nat → absorb hs (m ++ k) = absorb hs m ≫= λ hs, absorb hs k.
Proof. intros Hm. unfold absorb. by rewrite (chunks_app_blocks 64 ltac:(lia) q), fold_m_app. Qed.

Lemma absorb_block hs b : length b = 64%nat → absorb hs b = sha256_compress hs b.
Proof.
  intros Hb. unfold absorb. rewrite chunks_short by lia. simpl. by destruct (sha256_compress hs b).
Qed.

Lemma absorb_total q hs m :
  length hs = 8%nat → (length m = q * 64)%nat → ∃ hs', absorb hs m = Ok hs' ∧ length hs' = 8%nat.
Proof.
  intros Hh Hm. apply (fold_m_total _ (λ l, length l = 8%nat) (λ b, length b = 64%nat)); [|done|].
  - apply sha256_compress_total.
  - by apply (chunks_blocks 64 ltac:(lia) q).
Qed.

(** The loop absorbs the whole blocks and stops before the rest. *)
Lemma blocks_loop_spec fuel hs data off :
  length hs = 8%nat → (off ≤ length data)%nat → (length data - off ≤ fuel * 64)%nat →
  ∃ q full rest hs', drop off data = full ++ rest ∧ (length full = q * 64)%nat ∧ (length rest < 64)%nat ∧
    blocks_loop fuel hs data off = Ok (hs', (off + length full)%nat) ∧
    absorb hs full = Ok hs' ∧ length hs' = 8%nat.
Proof.
  revert hs off. induction fuel as [|fuel IH]; intros hs off Hh Ho Hf; simpl.
  - exists 0%nat, [], [], hs. rewrite drop_ge by lia. rewrite Nat.add_0_r. naive_solver lia.
  - destruct (Nat.leb_spec (off + 64) (length data)) as [Hle|Hgt].
    + rewrite range_Ok by lia. cbn [mbind outcome_bind]. set (b := take 64 (drop off data)).
      assert (length b = 64%nat) as Hb by (subst b; rewrite length_take, length_drop; lia).
      destruct (sha256_compress_total hs b Hh Hb) as (hs1 & H1 & Hh1). rewrite H1. cbn [mbind outcome_bind].
      destruct (IH hs1 (off + 64)%nat Hh1) as (q & full & rest & hs' & Hd & Hq & Hr & He & Ha & Hh'); [lia..|].
      exists (S q), (b ++ full), rest, hs'. rewrite length_app, Hb. repeat split; try lia; try done.
      * rewrite <-app_assoc, <-Hd, <-drop_drop. symmetry. apply take_drop.
      * rewrite He. do 2 f_equal. lia.
      * rewrite (absorb_app 1), absorb_block, H1 by lia. done.
    + exists 0%nat, [], (drop off data), hs. rewrite length_drop, Nat.add_0_r. naive_solver lia.
Qed.

Lemma copy_at_Ok l a bs :
  (a + length bs ≤ length l)%nat → copy_at l a bs = Ok (take a l ++ bs ++ drop (a + length bs) l).
Proof.
  intros Hl. unfold copy_at. rewrite (proj2 (Nat.leb_le _ _) Hl). unfold splice. by rewrite Nat2Z.id.
Qed.

(** ** Pieces

    The state after a message [m]: the whole blocks of [m] are absorbed, the
    rest is in the buffer. *)

Definition sha_rep (s : Sha256) (m : list Z) : Prop :=
  ∃ q full, m = full ++ take (buf_len s) (buf s) ∧ (length full = q * 64)%nat ∧
    (buf_len s < 64)%nat ∧ length (buf s) = 64%nat ∧
    absorb SHA256_IV full = Ok (h s) ∧ length (h s) = 8%nat ∧ total_len s = len m.

Lemma sha_rep_new : sha_rep new [].
Proof. exists 0%nat, []. repeat split; simpl; lia. Qed.

(** The end of [update]: the rest of the data goes into an empty buffer. *)
Lemma update_rest hs b full data off total q :
  (length full = q * 64)%nat → absorb SHA256_IV full = Ok hs → length hs = 8%nat →
  length b = 64%nat → (off ≤ length data)%nat → total = len full + Z.of_nat (length data - off) →
  ∃ s, ('(hs, off) ← blocks_loop (length data) hs data off;
        if (off <? length data)%nat then
          b ← copy_at b 0 (drop off data);
          Ok {| h := hs; buf := b; buf_len := length data - off; total_len := total |}
        else Ok {| h := hs; buf := b; buf_len := 0; total_len := total |}) = Ok s ∧
    sha_rep s (full ++ drop off data).
Proof.
  intros Hq Ha Hh Hb Ho Ht.
  destruct (blocks_loop_spec (length data) hs data off) as (q' & full' & rest & hs' & Hd & Hq' & Hr & He & Ha' & Hh');
    [done|lia..|].
  rewrite He. cbn [mbind outcome_bind]. pose proof (f_equal length Hd) as Hlen.
  rewrite length_drop, length_app in Hlen.
  assert (absorb SHA256_IV (full ++ full') = Ok hs') as Habs by (by rewrite (absorb_app q), Ha).
  assert (drop (off + length full') data = rest) as Hrest.
  { rewrite <-drop_drop, Hd. by apply drop_app_length. }
  assert (total = len (full ++ drop off data)) as Ht' by (rewrite len_app; unfold len in *; rewrite length_drop; lia).
  destruct (Nat.ltb_spec (off + length full') (length data)).
  - rewrite Hrest, copy_at_Ok by lia. eexists. split; [done|].
    exists (q + q')%nat, (full ++ full'). cbn [h buf buf_len total_len].
    replace (length data - (off + length full'))%nat with (length rest) by lia.
    rewrite take_0, app_nil_l, take_app_length, Hd, app_assoc, !length_app, length_drop in *.
    repeat split; try done; lia.
  - eexists. split; [done|]. exists (q + q')%nat, (full ++ full'). cbn [h buf buf_len total_len].
    destruct rest; [|simpl in *; lia]. rewrite take_0, Hd, app_nil_r in *. rewrite app_nil_r, length_app in *.
    repeat split; try done; lia.
Qed.

Lemma update_spec s m data :
  sha_rep s m → len m + len data < 2 ^ 64 → ∃ s', update s data = Ok s' ∧ sha_rep s' (m ++ data).
Proof.
  intros (q & full & Hm & Hq & Hn & Hb & Ha & Hh & Ht) Hlt. unfold update.
  rewrite add_Ok by (unfold in_u; pose proof (len_nonneg m); pose proof (len_nonneg data); lia).
  cbn [mbind outcome_bind]. pose proof (f_equal length Hm) as Hml. rewrite length_app, length_take in Hml.
  destruct (Nat.ltb_spec 0 (buf_len s)) as [Hpos|Hz]; cbn [mbind outcome_bind].
  2: { assert (buf_len s = 0%nat) as H0 by lia. rewrite H0, take_0, app_nil_r in *. subst m.
       apply (update_rest (h s) (buf s) full data 0 _ q); [done..|lia|]. unfold len in *. lia. }
  rewrite sub_Ok by (unfold in_u; lia). cbn [mbind outcome_bind].
  replace (Z.to_nat (64 - Z.of_nat (buf_len s))) with (64 - buf_len s)%nat by lia.
  set (k := Nat.min (64 - buf_len s) (length data)).
  rewrite copy_at_Ok by (rewrite length_take; lia). cbn [mbind outcome_bind].
  set (b := take (buf_len s) (buf s) ++ _).
  assert (length b = 64%nat) as Hb'.
  { subst b. rewrite !length_app, !length_take, length_drop. lia. }
  destruct (Nat.eqb_spec (buf_len s + k) 64) as [He|Hne]; cbn [mbind outcome_bind].
  - assert (b = take (buf_len s) (buf s) ++ take k data) as Hbk.
    { subst b. rewrite (drop_ge (buf s)) by (rewrite length_take; lia). by rewrite app_nil_r. }
    destruct (sha256_compress_total (h s) b Hh Hb') as (hs1 & H1 & Hh1). rewrite H1. cbn [mbind outcome_bind].
    destruct (update_rest hs1 b (full ++ b) data k (total_len s + len data) (S q)) as (s' & Hs' & Hrep);
      rewrite ?length_app; try done; try lia.
    + rewrite (absorb_app q), Ha by done. cbn [mbind outcome_bind]. by rewrite absorb_block.
    + rewrite len_app. unfold len in *. lia.
    + exists s'. split; [done|]. subst m. rewrite <-(take_drop k data) at 1.
      rewrite Hbk in Hrep. by rewrite <-!app_assoc in *.
  - assert (k = length data) as Hk by lia. rewrite Hk.
    assert (blocks_loop (length data) (h s) data (length data) = Ok (h s, length data)) as ->.
    { destruct (length data) eqn:Hld; [done|]. cbn [blocks_loop]. by rewrite (proj2 (Nat.leb_gt _ _)) by lia. }
    cbn [mbind outcome_bind]. rewrite Nat.ltb_irrefl. eexists. split; [done|].
    exists q, full. cbn [h buf buf_len total_len]. subst m b. rewrite Hk, (take_ge data) by lia.
    rewrite app_assoc, take_app_length' by (rewrite length_app, length_take; lia).
    repeat split; try done; try lia; [by rewrite app_assoc| |rewrite !len_app in *; lia].
    rewrite !length_app, length_take, length_drop. lia.
Qed.

Lemma updates_spec pieces s m :
  sha_rep s m → len m + len (concat pieces) < 2 ^ 64 →
  ∃ s', fold_m update s pieces = Ok s' ∧ sha_rep s' (m ++ concat pieces).
Proof.
  revert s m. induction pieces as [|p pieces IH]; intros s m Hs Hlt; simpl in *.
  - rewrite app_nil_r. by eexists.
  - rewrite len_app in Hlt. destruct (update_spec s m p Hs) as (s1 & -> & H1); [pose proof (len_nonneg (concat pieces)); lia|].
    cbn [mbind outcome_bind]. rewrite app_assoc. apply IH; [done|]. rewrite len_app. lia.
Qed.

(** The padding of [finalise] is the padding of [sha256]. *)
Lemma finalise_padding s m n :
  sha_rep s m → n = ((buf_len s + 1) mod 64)%nat →
  (m ++ [0x80]) ++ replicate (if n <=? 56 then 56 - n else 120 - n)%nat 0 = pad_zeros 65 64 56 (m ++ [0x80]).
Proof.
  intros (q & full & Hm & Hq & Hn & Hb & _) ->. rewrite pad_zeros_eq by lia. do 2 f_equal.
  assert (len (m ++ [128]) = Z.of_nat (q * 64 + buf_len s + 1)) as ->.
  { rewrite Hm, len_snoc, len_app. unfold len. rewrite length_take. lia. }
  destruct (decide (buf_len s = 63)%nat) as [->|Hne].
  - change ((63 + 1) mod 64)%nat with 0%nat. cbn [Nat.leb].
    replace (56 - Z.of_nat (q * 64 + 63 + 1)) with (56 + - (Z.of_nat q + 1) * 64) by lia.
    by rewrite Z.mod_add.
  - rewrite Nat.mod_small by lia. destruct (Nat.leb_spec (buf_len s + 1) 56).
    + replace (56 - Z.of_nat (q * 64 + buf_len s + 1)) with ((55 - Z.of_nat (buf_len s)) + - Z.of_nat q * 64) by lia.
      rewrite Z.mod_add, Z.mod_small by lia. lia.
    + replace (56 - Z.of_nat (q * 64 + buf_len s + 1)) with ((119 - Z.of_nat (buf_len s)) + - (Z.of_nat q + 1) * 64) by lia.
      rewrite Z.mod_add, Z.mod_small by lia. lia.
Qed.

(** A padded message is a number of whole blocks. *)
Lemma padded_blocks (m : Z) r (v k : list Z) :
  0 ≤ r < m → (len k + r) mod m = 0 →
  ∃ q, length (pad_zeros (Z.to_nat m + 1) m r v ++ k) = (q * Z.to_nat m)%nat.
Proof.
  intros Hr Hk. rewrite pad_zeros_eq by lia. rewrite !length_app, length_replicate.
  assert ((len v + (r - len v) mod m + len k) mod m = 0) as Hz.
  { rewrite <-Hk, <-Z.add_assoc, (Z.add_comm (len v)), <-Z.add_assoc, Z.add_mod_idemp_l by lia. f_equal. lia. }
  pose proof (Z.mod_pos_bound (r - len v) m ltac:(lia)) as Hb. pose proof (len_nonneg v). pose proof (len_nonneg k).
  apply Z.div_exact in Hz; [|lia].
  exists (Z.to_nat ((len v + (r - len v) mod m + len k) / m)).
  rewrite <-Z2Nat.inj_mul; [|apply Z.div_pos; lia|lia]. rewrite Z.mul_comm, <-Hz. unfold len in *. lia.
Qed.

Lemma digest_ok n hs : length (digest n hs) = (length hs * n)%nat ∧ bytes_ok (digest n hs).
Proof.
  unfold digest. induction hs as [|x hs [IHl IHb]]; [split; [done|constructor]|].
  change ((x :: hs) ≫= to_be_bytes n) with (to_be_bytes n x ++ (hs ≫= to_be_bytes n)). split.
  - rewrite length_app, length_to_be_bytes, IHl. done.
  - apply Forall_app. split; [apply to_be_bytes_ok|done].
Qed.

Lemma padded256_blocks m :
  ∃ q, length (pad_zeros 65 64 56 (m ++ [128]) ++ to_be_bytes 8 (len m * 8)) = (q * 64)%nat.
Proof. apply (padded_blocks 64 56); [lia|]. unfold len. by rewrite length_to_be_bytes. Qed.

Lemma sha256_total data :
  len data < 2 ^ 61 → ∃ d, sha256 data = Ok d ∧ length d = 32%nat ∧ bytes_ok d.
Proof.
  intros Hd. unfold sha256. pose proof (len_nonneg data). rewrite mul_Ok by (unfold in_u; lia). cbn [mbind outcome_bind].
  destruct (padded256_blocks data) as [q Hq].
  destruct (absorb_total q SHA256_IV _ eq_refl Hq) as (hs & Ha & Hh). unfold absorb in Ha.
  rewrite Ha. cbn [mbind outcome_bind].
  eexists. split; [done|]. rewrite (proj1 (digest_ok _ _)), Hh. split; [done|apply digest_ok].
Qed.

Lemma sha512_core_total data iv :
  len data < 2 ^ 125 → length iv = 8%nat → ∃ hs, sha512_core data iv = Ok hs ∧ length hs = 8%nat.
Proof.
  intros Hd Hiv. unfold sha512_core. pose proof (len_nonneg data). rewrite mul_Ok by (unfold in_u; lia).
  cbn [mbind outcome_bind].
  destruct (padded_blocks 128 112 (data ++ [128]) (to_be_bytes 16 (len data * 8))) as [q Hq]; [lia| |].
  { unfold len. by rewrite length_to_be_bytes. }
  apply (fold_m_total _ (λ l, length l = 8%nat) (λ b, length b = 128%nat)); [|done|].
  - apply sha512_compress_total.
  - by apply (chunks_blocks 128 ltac:(lia) q).
Qed.

(** [finalise] hashes the message that the state represents. *)
Lemma finalise_spec s m : sha_rep s m → len m < 2 ^ 61 → finalise s = sha256 m.
Proof.
  intros Hs Hlt. pose proof (len_nonneg m). pose proof (finalise_padding s m _ Hs eq_refl) as Hpad.
  unfold finalise, sha256. pose proof Hs as (_ & _ & _ & _ & _ & _ & _ & _ & ->).
  rewrite mul_Ok by (unfold in_u; lia). cbn [mbind outcome_bind].
  set (z := if (_ <=? 56)%nat then (56 - _)%nat else (120 - _)%nat) in *.
  assert (z ≤ 63)%nat as Hz.
  { subst z. pose proof (Nat.mod_upper_bound (buf_len s + 1) 64 ltac:(lia)).
    destruct (Nat.leb_spec ((buf_len s + 1) mod 64) 56); lia. }
  destruct (update_spec s m ([128] ++ replicate z 0 ++ to_be_bytes 8 (len m * 8)) Hs) as (s' & -> & Hs').
  { rewrite !len_app. unfold len at 2 3 4. rewrite length_replicate, length_to_be_bytes. simpl. lia. }
  cbn [mbind outcome_bind]. rewrite (app_assoc m), (app_assoc (m ++ _)), Hpad in Hs'.
  destruct (padded256_blocks m) as [q Hq].
  destruct Hs' as (q' & full & Hm & Hq' & Hn & Hb & Ha & _). fold (absorb SHA256_IV (pad_zeros 65 64 56 (m ++ [128]) ++ to_be_bytes 8 (len m * 8))).
  assert (buf_len s' = 0%nat) as H0.
  { rewrite Hm, length_app, length_take, Hq' in Hq. lia. }
  by rewrite Hm, H0, take_0, app_nil_r, Ha.
Qed.

(** C18. The incremental state hashes what [sha256] hashes: however a message of less
    than 2^61 bytes is cut into pieces, [new], an [update] per piece and
    [finalise] return without a panic the 32 bytes that [sha256] returns for the
    whole message. *)
Theorem sha256_incremental pieces :
  len (concat pieces) < 2 ^ 61 →
  ∃ d, sha256_pieces pieces = Ok d ∧ sha256 (concat pieces) = Ok d ∧ length d = 32%nat ∧ bytes_ok d.
Proof.
  intros Hlt. destruct (sha256_total _ Hlt) as (d & Hd & Hl & Hb). exists d. split; [|done].
  destruct (updates_spec pieces new [] sha_rep_new) as (s & Hs & Hrep); [unfold len at 1; simpl; lia|].
  unfold sha256_pieces. rewrite Hs. cbn [mbind outcome_bind]. by rewrite (finalise_spec s _ Hrep).
Qed.

Lemma sha256_incremental_witness :
  let pieces := [[97]; []; [98; 99]] in
  ∃ d, sha256_pieces pieces = Ok d ∧ sha256 (concat pieces) = Ok d ∧ length d = 32%nat ∧ bytes_ok d.
Proof. intros pieces. apply (sha256_incremental pieces). by vm_compute. Defined.

(** ** HMAC and HKDF return *)

Lemma length_copy_at l a bs l' : copy_at l a bs = Ok l' → length l' = length l.
Proof.
  unfold copy_at. destruct (Nat.leb_spec (a + length bs) (length l)); [|done]. intros [= <-].
  apply length_splice; unfold len; lia.
Qed.

Section hmac_total.
Context (block n : nat) (hash : list Z → checked (list Z)) (bound : Z).
Context (Hn : (n ≤ block)%nat) (Hbound : Z.of_nat block + Z.of_nat n < bound).
Context (Hash : ∀ m, len m < bound → ∃ d, hash m = Ok d ∧ length d = n ∧ bytes_ok d).

Lemma hmac_total key data :
  len key < bound → Z.of_nat block + len data < bound →
  ∃ d, hmac block hash key data = Ok d ∧ length d = n ∧ bytes_ok d.
Proof using All.
  intros Hk Hd. unfold hmac.
  assert (∃ k, (if (block <? length key)%nat then d ← hash key; copy_at (replicate block 0) 0 d
                else copy_at (replicate block 0) 0 key) = Ok k ∧ length k = block) as (k & -> & Hkl).
  { destruct (Nat.ltb_spec block (length key)).
    - destruct (Hash key Hk) as (d & -> & Hdl & _). cbn [mbind outcome_bind].
      rewrite copy_at_Ok by (rewrite length_replicate; lia). eexists. split; [done|].
      rewrite !length_app, length_take, length_drop, length_replicate. lia.
    - rewrite copy_at_Ok by (rewrite length_replicate; lia). eexists. split; [done|].
      rewrite !length_app, length_take, length_drop, length_replicate. lia. }
  cbn [mbind outcome_bind].
  assert (∀ x, len (xor_bytes (replicate block x) k) = Z.of_nat block) as Hx.
  { intros x. unfold len. rewrite length_xor_bytes, length_replicate. lia. }
  destruct (Hash (xor_bytes (replicate block 0x36) k ++ data)) as (d & -> & Hdl & _); [rewrite len_app, Hx; lia|].
  cbn [mbind outcome_bind]. apply Hash. rewrite len_app, Hx. unfold len. lia.
Qed.
End hmac_total.

Lemma hmac_sha256_total key data :
  len key < 2 ^ 61 → 64 + len data < 2 ^ 61 →
  ∃ d, hmac_sha256 key data = Ok d ∧ length d = 32%nat ∧ bytes_ok d.
Proof. apply (hmac_total 64 32 sha256 (2 ^ 61)); [lia|done|apply sha256_total]. Qed.

(** [hkdf_expand] returns as many bytes as it is asked for. *)
Lemma expand_loop_total prk info count i t okm :
  len prk < 2 ^ 61 → len t + len info < 2 ^ 60 → len t ≤ 32 → len info < 2 ^ 59 → bytes_ok okm →
  ∃ okm', expand_loop hmac_sha256 prk info count i t okm = Ok okm' ∧
    length okm' = (length okm + count * 32)%nat ∧ bytes_ok okm'.
Proof.
  intros Hp. revert i t okm. induction count as [|count IH]; intros i t okm Ht Ht32 Hi Hb; cbn [expand_loop].
  - exists okm. repeat split; [lia|done].
  - destruct (hmac_sha256_total prk (t ++ info ++ [as_u8 i])) as (d & -> & Hd & Hdb); [done| |].
    { rewrite !len_app. change (len [as_u8 i]) with 1. lia. }
    cbn [mbind outcome_bind]. destruct (IH (i + 1) d (okm ++ d)) as (okm' & -> & Hl & Hb');
      [unfold len in *; lia..|by apply Forall_app|].
    exists okm'. rewrite length_app in Hl. repeat split; [lia|done].
Qed.

Lemma hkdf_expand_total prk info n :
  len prk < 2 ^ 61 → len info < 2 ^ 59 → 0 ≤ n < 2 ^ 63 →
  ∃ okm, hkdf_expand prk info n = Ok okm ∧ len okm = n ∧ bytes_ok okm.
Proof.
  intros Hp Hi Hn. unfold hkdf_expand, expand_with.
  rewrite add_Ok by (unfold in_u; lia). cbn [mbind outcome_bind]. rewrite sub_Ok by (unfold in_u; lia).
  cbn [mbind outcome_bind]. change (Z.of_nat 32) with 32.
  destruct (expand_loop_total prk info (Z.to_nat ((n + 32 - 1) / 32)) 1 [] []) as (okm & -> & Hl & Hb);
    [done|unfold len in *; simpl; lia|unfold len; simpl; lia|done|constructor|].
  cbn [mbind outcome_bind]. eexists. split; [done|]. unfold len. rewrite length_take, Hl. simpl length.
  split; [|by apply Forall_take]. pose proof (Z.div_mod (n + 32 - 1) 32). pose proof (Z.mod_pos_bound (n + 32 - 1) 32). lia.
Qed.

(** Labels and contexts that fit their length bytes are kept apart: the encoding
    determines them. *)
Lemma hkdf_label_inj label label' context context' n n' :
  len label ≤ 249 → len label' ≤ 249 → 0 ≤ n < 2 ^ 16 → 0 ≤ n' < 2 ^ 16 →
  hkdf_label label context n = hkdf_label label' context' n' →
  label = label' ∧ context = context' ∧ n = n'.
Proof.
  intros Hl Hl' Hn Hn' He. unfold hkdf_label in He. simpl app in He.
  pose proof (len_nonneg label). pose proof (len_nonneg label').
  injection He as Hhi Hlo Hlen Hrest. unfold as_u8, wrap in *. change (2 ^ 8) with 256 in *.
  rewrite !Z.mod_small in Hlen by lia.
  apply app_inj_1 in Hrest as [-> Hrest]; [|unfold len in *; lia]. injection Hrest as _ ->.
  repeat split. rewrite !Z.shiftr_div_pow2 in Hhi by lia. change (2 ^ 8) with 256 in Hhi.
  rewrite !Z.mod_small in Hhi by (pose proof (Z.div_lt_upper_bound n 256 256); pose proof (Z.div_lt_upper_bound n' 256 256); pose proof (Z.div_pos n 256); pose proof (Z.div_pos n' 256); lia).
  pose proof (Z.div_mod n 256). pose proof (Z.div_mod n' 256). lia.
Qed.

(** ** Published test vectors

    FIPS 180-4, RFC 4231 and RFC 5869. *)

Lemma sha256_abc :
  sha256 [97; 98; 99] = Ok (to_be_bytes 32 0xba7816bf8f01cfea414140de5dae2223b00361a396177a9cb410ff61f20015ad).
Proof. by vm_compute. Qed.

Lemma sha512_abc :
  sha512 [97; 98; 99] = Ok (to_be_bytes 64
    0xddaf35a193617abacc417349ae20413112e6fa4e89a97ea20a9eeee64b55d39a2192992a274fc1a836ba3c23a3feebbd454d4423643ce80e2a9ac94fa54ca49f).
Proof. by vm_compute. Qed.

Lemma sha384_abc :
  sha384 [97; 98; 99] = Ok (to_be_bytes 48
    0xcb00753f45a35e8bb5a03d699ac65007272c32ab0eded1631a8b605a43ff5bed8086072ba1e7cc2358baeca134c825a7).
Proof. by vm_compute. Qed.

Lemma hkdf_rfc5869 :
  (prk ← hkdf_extract (seqZ 0 13) (replicate 22 0x0b); hkdf_expand prk (seqZ 0xf0 10) 42)
  = Ok (to_be_bytes 42 0x3cb25f25faacd57a90434f64d0362f2a2d2d0a90cf1a5a4c5db02d56ecc4c5bf34007208d5b887185865).
Proof. by vm_compute. Qed.
