(* ===== verification/Aes.v ===== *)
(** * AES and CBC

    [net/crypto/aes.rs]: the block cipher with both key schedules, and CBC with
    padding.  A block is a list of 16 bytes.  Decryption is shown to undo
    encryption, block by block and for whole messages. *)

From stdpp Require Import base numbers list.
From S2P Require Import Prelude.
From S2P Require Import Bytes.

(** ** Tables *)

Definition SBOX : list Z :=
  [0x63; 0x7c; 0x77; 0x7b; 0xf2; 0x6b; 0x6f; 0xc5; 0x30; 0x01; 0x67; 0x2b; 0xfe; 0xd7; 0xab; 0x76;
   0xca; 0x82; 0xc9; 0x7d; 0xfa; 0x59; 0x47; 0xf0; 0xad; 0xd4; 0xa2; 0xaf; 0x9c; 0xa4; 0x72; 0xc0;
   0xb7; 0xfd; 0x93; 0x26; 0x36; 0x3f; 0xf7; 0xcc; 0x34; 0xa5; 0xe5; 0xf1; 0x71; 0xd8; 0x31; 0x15;
   0x04; 0xc7; 0x23; 0xc3; 0x18; 0x96; 0x05; 0x9a; 0x07; 0x12; 0x80; 0xe2; 0xeb; 0x27; 0xb2; 0x75;
   0x09; 0x83; 0x2c; 0x1a; 0x1b; 0x6e; 0x5a; 0xa0; 0x52; 0x3b; 0xd6; 0xb3; 0x29; 0xe3; 0x2f; 0x84;
   0x53; 0xd1; 0x00; 0xed; 0x20; 0xfc; 0xb1; 0x5b; 0x6a; 0xcb; 0xbe; 0x39; 0x4a; 0x4c; 0x58; 0xcf;
   0xd0; 0xef; 0xaa; 0xfb; 0x43; 0x4d; 0x33; 0x85; 0x45; 0xf9; 0x02; 0x7f; 0x50; 0x3c; 0x9f; 0xa8;
   0x51; 0xa3; 0x40; 0x8f; 0x92; 0x9d; 0x38; 0xf5; 0xbc; 0xb6; 0xda; 0x21; 0x10; 0xff; 0xf3; 0xd2;
   0xcd; 0x0c; 0x13; 0xec; 0x5f; 0x97; 0x44; 0x17; 0xc4; 0xa7; 0x7e; 0x3d; 0x64; 0x5d; 0x19; 0x73;
   0x60; 0x81; 0x4f; 0xdc; 0x22; 0x2a; 0x90; 0x88; 0x46; 0xee; 0xb8; 0x14; 0xde; 0x5e; 0x0b; 0xdb;
   0xe0; 0x32; 0x3a; 0x0a; 0x49; 0x06; 0x24; 0x5c; 0xc2; 0xd3; 0xac; 0x62; 0x91; 0x95; 0xe4; 0x79;
   0xe7; 0xc8; 0x37; 0x6d; 0x8d; 0xd5; 0x4e; 0xa9; 0x6c; 0x56; 0xf4; 0xea; 0x65; 0x7a; 0xae; 0x08;
   0xba; 0x78; 0x25; 0x2e; 0x1c; 0xa6; 0xb4; 0xc6; 0xe8; 0xdd; 0x74; 0x1f; 0x4b; 0xbd; 0x8b; 0x8a;
   0x70; 0x3e; 0xb5; 0x66; 0x48; 0x03; 0xf6; 0x0e; 0x61; 0x35; 0x57; 0xb9; 0x86; 0xc1; 0x1d; 0x9e;
   0xe1; 0xf8; 0x98; 0x11; 0x69; 0xd9; 0x8e; 0x94; 0x9b; 0x1e; 0x87; 0xe9; 0xce; 0x55; 0x28; 0xdf;
   0x8c; 0xa1; 0x89; 0x0d; 0xbf; 0xe6; 0x42; 0x68; 0x41; 0x99; 0x2d; 0x0f; 0xb0; 0x54; 0xbb; 0x16].

Definition INV_SBOX : list Z :=
  [0x52; 0x09; 0x6a; 0xd5; 0x30; 0x36; 0xa5; 0x38; 0xbf; 0x40; 0xa3; 0x9e; 0x81; 0xf3; 0xd7; 0xfb;
   0x7c; 0xe3; 0x39; 0x82; 0x9b; 0x2f; 0xff; 0x87; 0x34; 0x8e; 0x43; 0x44; 0xc4; 0xde; 0xe9; 0xcb;
   0x54; 0x7b; 0x94; 0x32; 0xa6; 0xc2; 0x23; 0x3d; 0xee; 0x4c; 0x95; 0x0b; 0x42; 0xfa; 0xc3; 0x4e;
   0x08; 0x2e; 0xa1; 0x66; 0x28; 0xd9; 0x24; 0xb2; 0x76; 0x5b; 0xa2; 0x49; 0x6d; 0x8b; 0xd1; 0x25;
   0x72; 0xf8; 0xf6; 0x64; 0x86; 0x68; 0x98; 0x16; 0xd4; 0xa4; 0x5c; 0xcc; 0x5d; 0x65; 0xb6; 0x92;
   0x6c; 0x70; 0x48; 0x50; 0xfd; 0xed; 0xb9; 0xda; 0x5e; 0x15; 0x46; 0x57; 0xa7; 0x8d; 0x9d; 0x84;
   0x90; 0xd8; 0xab; 0x00; 0x8c; 0xbc; 0xd3; 0x0a; 0xf7; 0xe4; 0x58; 0x05; 0xb8; 0xb3; 0x45; 0x06;
   0xd0; 0x2c; 0x1e; 0x8f; 0xca; 0x3f; 0x0f; 0x02; 0xc1; 0xaf; 0xbd; 0x03; 0x01; 0x13; 0x8a; 0x6b;
   0x3a; 0x91; 0x11; 0x41; 0x4f; 0x67; 0xdc; 0xea; 0x97; 0xf2; 0xcf; 0xce; 0xf0; 0xb4; 0xe6; 0x73;
   0x96; 0xac; 0x74; 0x22; 0xe7; 0xad; 0x35; 0x85; 0xe2; 0xf9; 0x37; 0xe8; 0x1c; 0x75; 0xdf; 0x6e;
   0x47; 0xf1; 0x1a; 0x71; 0x1d; 0x29; 0xc5; 0x89; 0x6f; 0xb7; 0x62; 0x0e; 0xaa; 0x18; 0xbe; 0x1b;
   0xfc; 0x56; 0x3e; 0x4b; 0xc6; 0xd2; 0x79; 0x20; 0x9a; 0xdb; 0xc0; 0xfe; 0x78; 0xcd; 0x5a; 0xf4;
   0x1f; 0xdd; 0xa8; 0x33; 0x88; 0x07; 0xc7; 0x31; 0xb1; 0x12; 0x10; 0x59; 0x27; 0x80; 0xec; 0x5f;
   0x60; 0x51; 0x7f; 0xa9; 0x19; 0xb5; 0x4a; 0x0d; 0x2d; 0xe5; 0x7a; 0x9f; 0x93; 0xc9; 0x9c; 0xef;
   0xa0; 0xe0; 0x3b; 0x4d; 0xae; 0x2a; 0xf5; 0xb0; 0xc8; 0xeb; 0xbb; 0x3c; 0x83; 0x53; 0x99; 0x61;
   0x17; 0x2b; 0x04; 0x7e; 0xba; 0x77; 0xd6; 0x26; 0xe1; 0x69; 0x14; 0x63; 0x55; 0x21; 0x0c; 0x7d].

Definition RCON : list Z := [0x01; 0x02; 0x04; 0x08; 0x10; 0x20; 0x40; 0x80; 0x1b; 0x36].

(** [T[b as usize]] for a table of 256 entries, which a byte cannot exceed. *)
Definition lookup_byte (t : list Z) (b : Z) : Z := nth (Z.to_nat b) t 0.

(** ** The field of bytes *)

Definition xtime (a : Z) : Z :=
  if negb (Z.land a 0x80 =? 0) then Z.lxor (shl 8 a 1) 0x1b else shl 8 a 1.

Fixpoint gf_mul_loop (count : nat) (a b p : Z) : Z :=
  match count with
  | O => p
  | S count =>
      let p := if negb (Z.land b 1 =? 0) then Z.lxor p a else p in
      let hi := Z.land a 0x80 in
      let a := shl 8 a 1 in
      let a := if negb (hi =? 0) then Z.lxor a 0x1b else a in
      gf_mul_loop count a (Z.shiftr b 1) p
  end.
Definition gf_mul (a b : Z) : Z := gf_mul_loop 8 a b 0.

(** ** Key schedules *)

(** [rk[i][j] = base[j] ^ t[j]] for [j < 4], then [base[j] ^ rk[i][j - 4]]. *)
Definition next_key (base t : list Z) : list Z :=
  let w0 := xor_bytes (take 4 base) t in
  let w1 := xor_bytes (take 4 (drop 4 base)) w0 in
  let w2 := xor_bytes (take 4 (drop 8 base)) w1 in
  let w3 := xor_bytes (take 4 (drop 12 base)) w2 in
  w0 ++ w1 ++ w2 ++ w3.

Definition key_byte (k : list Z) (i : nat) : Z := lookup_byte SBOX (nth i k 0).
Definition rot_word (prev : list Z) (rcon : Z) : list Z :=
  [Z.lxor (key_byte prev 13) rcon; key_byte prev 14; key_byte prev 15; key_byte prev 12].
Definition sub_word (prev : list Z) : list Z :=
  [key_byte prev 0; key_byte prev 1; key_byte prev 2; key_byte prev 3].

(** [for i in 1..11] *)
Fixpoint schedule128 (count i : nat) (rk : list (list Z)) : checked (list (list Z)) :=
  match count with
  | O => Ok rk
  | S count =>
      prev ← at_ rk (i - 1);
      rcon ← at_ RCON (i - 1);
      schedule128 count (S i) (rk ++ [next_key prev (rot_word prev rcon)])
  end.
Definition aes128_key_schedule (key : list Z) : checked (list (list Z)) := schedule128 10 1 [key].

(** [for i in 2..15] *)
Fixpoint schedule256 (count i rcon_idx : nat) (rk : list (list Z)) : checked (list (list Z)) :=
  match count with
  | O => Ok rk
  | S count =>
      prev ← at_ rk (i - 1);
      pprev ← at_ rk (i - 2);
      if Nat.even i then
        rcon ← at_ RCON rcon_idx;
        schedule256 count (S i) (S rcon_idx) (rk ++ [next_key pprev (rot_word prev rcon)])
      else schedule256 count (S i) rcon_idx (rk ++ [next_key pprev (sub_word prev)])
  end.
Definition aes256_key_schedule (key : list Z) : checked (list (list Z)) :=
  schedule256 13 2 0 [take 16 key; take 16 (drop 16 key)].

(** ** Rounds *)

Definition sub_bytes (b : list Z) : list Z := lookup_byte SBOX <$> b.
Definition inv_sub_bytes (b : list Z) : list Z := lookup_byte INV_SBOX <$> b.

Definition shift_rows (b : list Z) : list Z :=
  match b with
  | [t0; t1; t2; t3; t4; t5; t6; t7; t8; t9; t10; t11; t12; t13; t14; t15] =>
      [t0; t5; t10; t15; t4; t9; t14; t3; t8; t13; t2; t7; t12; t1; t6; t11]
  | _ => b
  end.
Definition inv_shift_rows (b : list Z) : list Z :=
  match b with
  | [t0; t1; t2; t3; t4; t5; t6; t7; t8; t9; t10; t11; t12; t13; t14; t15] =>
      [t0; t13; t10; t7; t4; t1; t14; t11; t8; t5; t2; t15; t12; t9; t6; t3]
  | _ => b
  end.

(** One column. *)
Definition mix_column (a0 a1 a2 a3 : Z) : list Z :=
  [xtime a0 ⊕ xtime a1 ⊕ a1 ⊕ a2 ⊕ a3;
   a0 ⊕ xtime a1 ⊕ xtime a2 ⊕ a2 ⊕ a3;
   a0 ⊕ a1 ⊕ xtime a2 ⊕ xtime a3 ⊕ a3;
   xtime a0 ⊕ a0 ⊕ a1 ⊕ a2 ⊕ xtime a3].
Definition inv_mix_column (a0 a1 a2 a3 : Z) : list Z :=
  [gf_mul a0 14 ⊕ gf_mul a1 11 ⊕ gf_mul a2 13 ⊕ gf_mul a3 9;
   gf_mul a0 9 ⊕ gf_mul a1 14 ⊕ gf_mul a2 11 ⊕ gf_mul a3 13;
   gf_mul a0 13 ⊕ gf_mul a1 9 ⊕ gf_mul a2 14 ⊕ gf_mul a3 11;
   gf_mul a0 11 ⊕ gf_mul a1 13 ⊕ gf_mul a2 9 ⊕ gf_mul a3 14].

(** [for c in 0..4] *)
Definition columns (f : Z → Z → Z → Z → list Z) (b : list Z) : list Z :=
  match b with
  | [t0; t1; t2; t3; t4; t5; t6; t7; t8; t9; t10; t11; t12; t13; t14; t15] =>
      f t0 t1 t2 t3 ++ f t4 t5 t6 t7 ++ f t8 t9 t10 t11 ++ f t12 t13 t14 t15
  | _ => b
  end.
Definition mix_columns : list Z → list Z := columns mix_column.
Definition inv_mix_columns : list Z → list Z := columns inv_mix_column.

(** ** Blocks *)

(** [for round in 1..nr] *)
Fixpoint encrypt_rounds (rk : list (list Z)) (count round : nat) (block : list Z) : checked (list Z) :=
  match count with
  | O => Ok block
  | S count =>
      k ← at_ rk round;
      encrypt_rounds rk count (S round) (xor_bytes (mix_columns (shift_rows (sub_bytes block))) k)
  end.

Definition aes_encrypt_block (block : list Z) (rk : list (list Z)) (nr : nat) : checked (list Z) :=
  k ← at_ rk 0;
  block ← encrypt_rounds rk (nr - 1) 1 (xor_bytes block k);
  k ← at_ rk nr;
  Ok (xor_bytes (shift_rows (sub_bytes block)) k).

(** [for round in (1..nr).rev()] *)
Fixpoint decrypt_rounds (rk : list (list Z)) (round : nat) (block : list Z) : checked (list Z) :=
  match round with
  | O => Ok block
  | S r =>
      k ← at_ rk round;
      decrypt_rounds rk r (inv_mix_columns (xor_bytes (inv_sub_bytes (inv_shift_rows block)) k))
  end.

Definition aes_decrypt_block (block : list Z) (rk : list (list Z)) (nr : nat) : checked (list Z) :=
  k ← at_ rk nr;
  block ← decrypt_rounds rk (nr - 1) (xor_bytes block k);
  k ← at_ rk 0;
  Ok (xor_bytes (inv_sub_bytes (inv_shift_rows block)) k).

Definition aes128_encrypt (block : list Z) (rk : list (list Z)) := aes_encrypt_block block rk 10.
Definition aes128_decrypt (block : list Z) (rk : list (list Z)) := aes_decrypt_block block rk 10.
Definition aes256_encrypt (block : list Z) (rk : list (list Z)) := aes_encrypt_block block rk 14.
Definition aes256_decrypt (block : list Z) (rk : list (list Z)) := aes_decrypt_block block rk 14.

(** ** CBC *)

(** [for chunk in data.chunks(16)] with the previous block and the output. *)
Definition cbc_encrypt_chunk (rk : list (list Z)) (st : list Z * list Z) (chunk : list Z) : checked (list Z * list Z) :=
  let '(prev, out) := st in
  if (length chunk =? 16)%nat then
    block ← aes128_encrypt (xor_bytes chunk prev) rk;
    Ok (block, out ++ block)
  else Panic.
Definition cbc_decrypt_chunk (rk : list (list Z)) (st : list Z * list Z) (chunk : list Z) : checked (list Z * list Z) :=
  let '(prev, out) := st in
  if (length chunk =? 16)%nat then
    block ← aes128_decrypt chunk rk;
    Ok (chunk, out ++ xor_bytes block prev)
  else Panic.

Definition aes128_cbc_encrypt (key iv plaintext : list Z) : checked (list Z) :=
  rk ← aes128_key_schedule key;
  let pad := (16 - length plaintext mod 16)%nat in
  let data := plaintext ++ replicate pad (as_u8 (Z.of_nat pad)) in
  '(_, out) ← fold_m (cbc_encrypt_chunk rk) (iv, []) (chunks 16 data);
  Ok out.

Definition aes128_cbc_decrypt (key iv ct : list Z) : checked (option (list Z)) :=
  if negb (length ct mod 16 =? 0)%nat || (length ct =? 0)%nat then Ok None
  else
    rk ← aes128_key_schedule key;
    '(_, out) ← fold_m (cbc_decrypt_chunk rk) (iv, []) (chunks 16 ct);
    match last out with
    | None => Ok None
    | Some pad =>
        if (pad =? 0) || (16 <? pad) then Ok None
        else
          n ← sub 64 (len out) pad;
          Ok (Some (take (Z.to_nat n) out))
    end.

(** ** Bytes and blocks *)

Lemma lookup_byte_ok t b : bytes_ok t → in_u 8 (lookup_byte t b).
Proof.
  intros Ht. unfold lookup_byte. destruct (nth_in_or_default (Z.to_nat b) t 0) as [Hin| ->]; [|done].
  apply (proj1 (Forall_forall _ _) Ht). by apply list_elem_of_In.
Qed.

Lemma SBOX_ok : bytes_ok SBOX.
Proof. apply Forall_forall. intros x Hx. unfold SBOX in Hx. case_elem Hx. Qed.

Lemma INV_SBOX_ok : bytes_ok INV_SBOX.
Proof. apply Forall_forall. intros x Hx. unfold INV_SBOX in Hx. case_elem Hx. Qed.

Lemma inv_sbox b : in_u 8 b → lookup_byte INV_SBOX (lookup_byte SBOX b) = b.
Proof.
  intros Hb. apply Z.eqb_eq. revert b Hb.
  apply (byte_cases (λ b, lookup_byte INV_SBOX (lookup_byte SBOX b) =? b)). by vm_compute.
Qed.

(** The sixteen bytes of a block. *)
Ltac block16 b :=
  let H := fresh in
  intros [H ?Hbytes]; do 17 (destruct b as [|? b]; try done); clear H;
  unfold bytes_ok in *;
  repeat match goal with H : Forall (in_u 8) (_ :: _) |- _ => apply Forall_cons in H as [? H] end.

Lemma sub_bytes_ok b : block_ok b → block_ok (sub_bytes b).
Proof.
  intros [Hl Hb]. split; [unfold sub_bytes; by rewrite length_fmap|].
  apply Forall_fmap, Forall_true. intros x. apply lookup_byte_ok, SBOX_ok.
Qed.

Lemma inv_sub_sub b : bytes_ok b → inv_sub_bytes (sub_bytes b) = b.
Proof.
  intros Hb. unfold inv_sub_bytes, sub_bytes. rewrite <-list_fmap_compose.
  induction Hb as [|x b Hx _ IH]; [done|]. rewrite fmap_cons, IH. simpl. by rewrite inv_sbox.
Qed.

Lemma shift_rows_ok b : block_ok b → block_ok (shift_rows b).
Proof. block16 b. split; [done|]. repeat (constructor; [done|]). constructor. Qed.

Lemma inv_shift_shift b : block_ok b → inv_shift_rows (shift_rows b) = b.
Proof. by block16 b. Qed.

(** ** Columns

    Both transformations of a column are linear over exclusive or, so that it is
    enough to compare them on columns with one byte that is not zero. *)

Definition col : Type := Z * Z * Z * Z.
Definition col_ok (v : col) : Prop :=
  let '(a, b, c, d) := v in in_u 8 a ∧ in_u 8 b ∧ in_u 8 c ∧ in_u 8 d.
Definition col_xor (u v : col) : col :=
  let '(a, b, c, d) := u in let '(a', b', c', d') := v in (a ⊕ a', b ⊕ b', c ⊕ c', d ⊕ d').

Definition linear (f : col → Z) : Prop :=
  (∀ v, col_ok v → in_u 8 (f v)) ∧
  (∀ u v, col_ok u → col_ok v → f (col_xor u v) = f u ⊕ f v).
Definition linear1 (f : Z → Z) : Prop :=
  (∀ a, in_u 8 a → in_u 8 (f a)) ∧ (∀ a b, in_u 8 a → in_u 8 b → f (a ⊕ b) = f a ⊕ f b).

Lemma lxor_swap a b c d : (a ⊕ b) ⊕ (c ⊕ d) = (a ⊕ c) ⊕ (b ⊕ d).
Proof. rewrite !Z.lxor_assoc. f_equal. rewrite <-!Z.lxor_assoc. f_equal. apply Z.lxor_comm. Qed.

Lemma linear_xor f g : linear f → linear g → linear (λ v, f v ⊕ g v).
Proof.
  intros [Hf Hf'] [Hg Hg']. split.
  - intros v Hv. apply in_u_lxor; [lia|auto..].
  - intros u v Hu Hv. rewrite Hf', Hg' by done. apply lxor_swap.
Qed.

Lemma linear_comp f g : linear1 f → linear g → linear (λ v, f (g v)).
Proof.
  intros [Hf Hf'] [Hg Hg']. split; [by auto|]. intros u v Hu Hv. rewrite Hg' by done. apply Hf'; auto.
Qed.

Lemma linear_proj :
  linear (λ v, v.1.1.1) ∧ linear (λ v, v.1.1.2) ∧ linear (λ v, v.1.2) ∧ linear (λ v, v.2).
Proof.
  split_and!; (split; [intros [[[a b] c] d] (? & ? & ? & ?); assumption|by intros [[[] ?] ?] [[[] ?] ?]]).
Qed.

Lemma linear1_xor f g : linear1 f → linear1 g → linear1 (λ a, f a ⊕ g a).
Proof.
  intros [Hf Hf'] [Hg Hg']. split.
  - intros v Hv. apply in_u_lxor; [lia|auto..].
  - intros u v Hu Hv. rewrite Hf', Hg' by done. apply lxor_swap.
Qed.

Lemma linear1_comp f g : linear1 f → linear1 g → linear1 (λ a, f (g a)).
Proof. intros [Hf Hf'] [Hg Hg']. split; [by auto|]. intros u v Hu Hv. rewrite Hg' by done. apply Hf'; auto. Qed.

Lemma linear1_id : linear1 (λ a, a).
Proof. by split. Qed.

Lemma linear1_xtime : linear1 xtime.
Proof.
  split.
  - intros a Ha. assert ((0 <=? xtime a) && (xtime a <? 256) = true) as Hx.
    { revert a Ha. apply (byte_cases (λ a, (0 <=? xtime a) && (xtime a <? 256))). by vm_compute. }
    unfold in_u. change (2 ^ 8) with 256. apply andb_true_iff in Hx as [? ?]. ztest. lia.
  - intros a b Ha Hb. apply Z.eqb_eq.
    pose proof (byte_cases (λ a, forallb (λ b, xtime (a ⊕ b) =? xtime a ⊕ xtime b) all_bytes)) as Hc.
    apply (byte_cases (λ b, xtime (a ⊕ b) =? xtime a ⊕ xtime b)); [|done]. apply Hc; [by vm_compute|done].
Qed.

(** The multiplications of the inverse are sums of doublings. *)
Definition by_doubling (c : Z) (a : Z) : Z :=
  let x1 := xtime a in let x2 := xtime x1 in let x3 := xtime x2 in
  (if Z.testbit c 0 then a else 0) ⊕ (if Z.testbit c 1 then x1 else 0)
  ⊕ (if Z.testbit c 2 then x2 else 0) ⊕ (if Z.testbit c 3 then x3 else 0).

Lemma gf_mul_doubling c a : c ∈ [9; 11; 13; 14] → in_u 8 a → gf_mul a c = by_doubling c a.
Proof.
  intros Hc Ha. apply Z.eqb_eq. revert a Ha. apply (byte_cases (λ a, gf_mul a c =? by_doubling c a)).
  case_elem Hc; by vm_compute.
Qed.

Lemma linear1_gf_mul c : c ∈ [9; 11; 13; 14] → linear1 (λ a, gf_mul a c).
Proof.
  intros Hc. assert (linear1 (by_doubling c)) as [H1 H2].
  { assert (linear1 (λ _, 0)) as H0 by (split; [done|by intros; rewrite Z.lxor_0_r]).
    pose proof linear1_xtime as Hx. pose proof (linear1_comp _ _ Hx Hx) as Hx2. pose proof (linear1_comp _ _ Hx Hx2) as Hx3.
    unfold by_doubling. destruct (Z.testbit c 0), (Z.testbit c 1), (Z.testbit c 2), (Z.testbit c 3);
      repeat apply linear1_xor; done || apply linear1_id. }
  split.
  - intros a Ha. rewrite gf_mul_doubling by done. auto.
  - intros a b Ha Hb. rewrite !gf_mul_doubling by (try done; by apply in_u_lxor). auto.
Qed.

Lemma linear_split f a b c d :
  linear f → col_ok (a, b, c, d) →
  f (a, b, c, d) = f (a, 0, 0, 0) ⊕ f (0, b, 0, 0) ⊕ f (0, 0, c, 0) ⊕ f (0, 0, 0, d).
Proof.
  intros [_ Hf] (Ha & Hb & Hc & Hd). assert (in_u 8 0) as H0 by done.
  do 3 (rewrite <-Hf by done; cbn [col_xor]; rewrite ?Z.lxor_0_l, ?Z.lxor_0_r). done.
Qed.

(** Columns with one byte that is not zero. *)
Definition unit_cols : list (Z → col) := [λ a, (a, 0, 0, 0); λ a, (0, a, 0, 0); λ a, (0, 0, a, 0); λ a, (0, 0, 0, a)].

Lemma linear_unique f g v :
  linear f → linear g → forallb (λ u, forallb (λ a, f (u a) =? g (u a)) all_bytes) unit_cols = true →
  col_ok v → f v = g v.
Proof.
  intros Hf Hg He Hv. destruct v as [[[a b] c] d]. rewrite (linear_split f), (linear_split g) by done.
  rewrite forallb_forall in He. destruct Hv as (Ha & Hb & Hc & Hd).
  assert (∀ u x, In u unit_cols → in_u 8 x → f (u x) = g (u x)) as Hu.
  { intros u x Hu Hx. apply Z.eqb_eq, (byte_cases (λ a, f (u a) =? g (u a))); [|done]. by apply He. }
  pose proof (Hu (λ a, (a, 0, 0, 0)) a ltac:(by left) Ha) as E1.
  pose proof (Hu (λ a, (0, a, 0, 0)) b ltac:(by right; left) Hb) as E2.
  pose proof (Hu (λ a, (0, 0, a, 0)) c ltac:(by do 2 right; left) Hc) as E3.
  pose proof (Hu (λ a, (0, 0, 0, a)) d ltac:(by do 3 right; left) Hd) as E4.
  cbv beta in *. by rewrite E1, E2, E3, E4.
Qed.

#[local] Opaque xtime gf_mul.

Ltac solve_linear :=
  repeat first
    [ apply linear_xor
    | apply (linear_comp xtime); [apply linear1_xtime|]
    | apply (linear_comp (λ a, gf_mul a 9)); [apply linear1_gf_mul; set_solver|]
    | apply (linear_comp (λ a, gf_mul a 11)); [apply linear1_gf_mul; set_solver|]
    | apply (linear_comp (λ a, gf_mul a 13)); [apply linear1_gf_mul; set_solver|]
    | apply (linear_comp (λ a, gf_mul a 14)); [apply linear1_gf_mul; set_solver|]
    | apply linear_proj ].

(** The entries of the mixed column, and of the column mixed back. *)
Definition mixed (i : nat) (v : col) : Z := let '(a, b, c, d) := v in nth i (mix_column a b c d) 0.
Definition unmixed (i : nat) (v : col) : Z :=
  nth i (inv_mix_column (mixed 0 v) (mixed 1 v) (mixed 2 v) (mixed 3 v)) 0.

Lemma linear_mixed i : (i < 4)%nat → linear (mixed i).
Proof.
  intros Hi. eassert (linear (λ v, nth i (mix_column v.1.1.1 v.1.1.2 v.1.2 v.2) 0)) as [H1 H2].
  { do 4 (destruct i as [|i]; [cbn [nth mix_column]; solve_linear|]). lia. }
  split.
  - intros [[[a b] c] d] Hv. apply (H1 _ Hv).
  - intros [[[a b] c] d] [[[a' b'] c'] d'] Hu Hv. apply (H2 _ _ Hu Hv).
Qed.

Lemma linear_unmixed i : (i < 4)%nat → linear (unmixed i).
Proof.
  intros Hi. pose proof (linear_mixed 0 ltac:(lia)). pose proof (linear_mixed 1 ltac:(lia)).
  pose proof (linear_mixed 2 ltac:(lia)). pose proof (linear_mixed 3 ltac:(lia)).
  unfold unmixed. do 4 (destruct i as [|i]; [cbn [nth inv_mix_column]; solve_linear; done|]). lia.
Qed.

Lemma inv_mix_mix_column a b c d :
  in_u 8 a → in_u 8 b → in_u 8 c → in_u 8 d →
  inv_mix_column (mixed 0 (a, b, c, d)) (mixed 1 (a, b, c, d)) (mixed 2 (a, b, c, d)) (mixed 3 (a, b, c, d))
  = [a; b; c; d].
Proof.
  intros Ha Hb Hc Hd. assert (col_ok (a, b, c, d)) as Hv by done. destruct linear_proj as (L0 & L1 & L2 & L3).
  pose proof (linear_unique _ _ _ (linear_unmixed 0 ltac:(lia)) L0 ltac:(by vm_compute) Hv) as E0.
  pose proof (linear_unique _ _ _ (linear_unmixed 1 ltac:(lia)) L1 ltac:(by vm_compute) Hv) as E1.
  pose proof (linear_unique _ _ _ (linear_unmixed 2 ltac:(lia)) L2 ltac:(by vm_compute) Hv) as E2.
  pose proof (linear_unique _ _ _ (linear_unmixed 3 ltac:(lia)) L3 ltac:(by vm_compute) Hv) as E3.
  unfold unmixed in E0, E1, E2, E3. cbn [nth inv_mix_column fst snd] in E0, E1, E2, E3.
  unfold inv_mix_column. by rewrite E0, E1, E2, E3.
Qed.

Lemma mix_column_ok a b c d :
  in_u 8 a → in_u 8 b → in_u 8 c → in_u 8 d → bytes_ok (mix_column a b c d).
Proof.
  intros Ha Hb Hc Hd. assert (col_ok (a, b, c, d)) as Hv by done.
  unfold bytes_ok, mix_column. rewrite !Forall_cons. split_and!; [..|constructor].
  - apply (proj1 (linear_mixed 0 ltac:(lia)) _ Hv).
  - apply (proj1 (linear_mixed 1 ltac:(lia)) _ Hv).
  - apply (proj1 (linear_mixed 2 ltac:(lia)) _ Hv).
  - apply (proj1 (linear_mixed 3 ltac:(lia)) _ Hv).
Qed.

Lemma mix_columns_ok b : block_ok b → block_ok (mix_columns b).
Proof.
  block16 b. split; [done|]. unfold mix_columns, columns, bytes_ok.
  rewrite !Forall_app. split_and!; by apply mix_column_ok.
Qed.

Lemma inv_mix_mix b : block_ok b → inv_mix_columns (mix_columns b) = b.
Proof.
  block16 b. pose proof inv_mix_mix_column as He. cbn [mixed nth mix_column] in He.
  unfold inv_mix_columns, mix_columns, columns, mix_column. cbn [app]. by rewrite !He.
Qed.

#[global] Opaque mix_columns inv_mix_columns shift_rows inv_shift_rows sub_bytes inv_sub_bytes.

(** ** Blocks: decryption undoes encryption *)

Section blocks.
Context (rk : list (list Z)) (Hrk : Forall block_ok rk).

Lemma round_key i : (i < length rk)%nat → ∃ k, at_ rk i = Ok k ∧ block_ok k.
Proof using Hrk.
  intros Hi. destruct (at_Ok rk i Hi) as (k & Hk & Hl). exists k. split; [done|].
  by apply (Forall_lookup_1 _ _ _ _ Hrk Hl).
Qed.

(** One round, and the part of it that decryption undoes first. *)
Lemma round_ok b k : block_ok b → block_ok k → block_ok (xor_bytes (mix_columns (shift_rows (sub_bytes b))) k).
Proof. intros. apply xor_block_ok; [|done]. by apply mix_columns_ok, shift_rows_ok, sub_bytes_ok. Qed.

Lemma inv_sub_shift b : block_ok b → inv_sub_bytes (inv_shift_rows (shift_rows (sub_bytes b))) = b.
Proof. intros Hb. rewrite inv_shift_shift by (by apply sub_bytes_ok). apply inv_sub_sub, Hb. Qed.

(** The rounds of encryption, the last one first. *)
Lemma encrypt_rounds_snoc count i b :
  encrypt_rounds rk (S count) i b =
  b ← encrypt_rounds rk count i b; k ← at_ rk (i + count); Ok (xor_bytes (mix_columns (shift_rows (sub_bytes b))) k).
Proof.
  revert i b. induction count as [|count IH]; intros i b.
  - cbn [encrypt_rounds mbind outcome_bind]. by rewrite Nat.add_0_r.
  - remember (S count) as c eqn:Hc. cbn [encrypt_rounds]. subst c.
    destruct (at_ rk i) as [k| |] eqn:Hk; cbn [mbind outcome_bind]; [|by cbn [encrypt_rounds]; rewrite Hk..].
    rewrite IH. cbn [encrypt_rounds]. rewrite Hk. cbn [mbind outcome_bind]. by replace (S i + count)%nat with (i + S count)%nat by lia.
Qed.

(** The loops undo each other, up to the half round between them. *)
Lemma rounds_inverse count b :
  (count < length rk)%nat → block_ok b →
  ∃ b', encrypt_rounds rk count 1 b = Ok b' ∧ block_ok b' ∧
    decrypt_rounds rk count (shift_rows (sub_bytes b')) = Ok (shift_rows (sub_bytes b)).
Proof using Hrk.
  intros Hc Hb. induction count as [|count IH]; [by exists b|].
  destruct IH as (b1 & He & Hb1 & Hd); [lia|]. destruct (round_key (S count) Hc) as (k & Hk & Hkb).
  exists (xor_bytes (mix_columns (shift_rows (sub_bytes b1))) k). split_and!.
  - rewrite encrypt_rounds_snoc, He. cbn [mbind outcome_bind]. change (1 + count)%nat with (S count). by rewrite Hk.
  - by apply round_ok.
  - cbn [decrypt_rounds]. rewrite Hk. cbn [mbind outcome_bind].
    rewrite inv_sub_shift by (by apply round_ok).
    rewrite xor_block_twice by (try done; by apply mix_columns_ok, shift_rows_ok, sub_bytes_ok).
    by rewrite inv_mix_mix by (by apply shift_rows_ok, sub_bytes_ok).
Qed.

Lemma decrypt_encrypt_block nr b :
  (0 < nr < length rk)%nat → block_ok b →
  ∃ c, aes_encrypt_block b rk nr = Ok c ∧ block_ok c ∧ aes_decrypt_block c rk nr = Ok b.
Proof using Hrk.
  intros Hnr Hb. unfold aes_encrypt_block, aes_decrypt_block.
  destruct (round_key 0) as (k0 & H0 & Hk0); [lia|]. destruct (round_key nr) as (kn & Hn & Hkn); [lia|].
  destruct (rounds_inverse (nr - 1) (xor_bytes b k0)) as (b' & He & Hb' & Hd); [lia|by apply xor_block_ok|].
  rewrite H0. cbn [mbind outcome_bind]. rewrite He. cbn [mbind outcome_bind]. rewrite Hn. cbn [mbind outcome_bind].
  assert (block_ok (shift_rows (sub_bytes b'))) as Hs by (by apply shift_rows_ok, sub_bytes_ok).
  eexists. split_and!; [done|by apply xor_block_ok|].
  rewrite xor_block_twice, Hd by done. cbn [mbind outcome_bind].
  rewrite inv_sub_shift by (by apply xor_block_ok). by rewrite xor_block_twice.
Qed.
End blocks.

(** ** Key schedules *)

Lemma key_byte_ok k i : in_u 8 (key_byte k i).
Proof. apply lookup_byte_ok, SBOX_ok. Qed.

Lemma next_key_ok base t : block_ok base → length t = 4%nat → bytes_ok t → block_ok (next_key base t).
Proof.
  intros [Hl Hb] Ht Htb. unfold next_key. split.
  - rewrite !length_app, !length_xor_bytes, !length_take, !length_drop. lia.
  - unfold bytes_ok. rewrite !Forall_app.
    split_and!; repeat apply xor_bytes_ok; done || apply Forall_take; done || by apply Forall_drop.
Qed.

Lemma rot_word_ok k rcon : in_u 8 rcon → length (rot_word k rcon) = 4%nat ∧ bytes_ok (rot_word k rcon).
Proof.
  intros Hr. split; [done|]. repeat (constructor; [first [apply key_byte_ok|apply in_u_lxor; [lia|apply key_byte_ok|done]]|]).
  constructor.
Qed.

Lemma sub_word_ok k : length (sub_word k) = 4%nat ∧ bytes_ok (sub_word k).
Proof. split; [done|]. repeat (constructor; [apply key_byte_ok|]). constructor. Qed.

Lemma rcon_at i : (i < 10)%nat → ∃ r, at_ RCON i = Ok r ∧ in_u 8 r.
Proof.
  intros Hi. destruct (at_Ok RCON i) as (r & Hr & Hl); [done|]. exists r. split; [done|].
  apply (Forall_lookup_1 (in_u 8) RCON i r); [|done]. by repeat constructor.
Qed.

Lemma schedule128_ok count i rk :
  (0 < i)%nat → (i + count ≤ 11)%nat → length rk = i → Forall block_ok rk →
  ∃ rk', schedule128 count i rk = Ok rk' ∧ length rk' = (i + count)%nat ∧ Forall block_ok rk'.
Proof.
  revert i rk. induction count as [|count IH]; intros i rk Hi Hc Hl Hrk; cbn [schedule128].
  - exists rk. split_and!; [done|lia|done].
  - destruct (round_key rk Hrk (i - 1)) as (k & -> & Hk); [lia|]. cbn [mbind outcome_bind].
    destruct (rcon_at (i - 1)) as (r & -> & Hr); [lia|]. cbn [mbind outcome_bind].
    destruct (IH (S i) (rk ++ [next_key k (rot_word k r)])) as (rk' & -> & Hl' & Hrk');
      [lia|lia|rewrite length_app; simpl; lia| |exists rk'; split_and!; [done|lia|done]].
    apply Forall_app. split; [done|]. constructor; [|constructor]. by apply next_key_ok; [|apply rot_word_ok..].
Qed.

Lemma aes128_key_schedule_ok key :
  block_ok key → ∃ rk, aes128_key_schedule key = Ok rk ∧ length rk = 11%nat ∧ Forall block_ok rk.
Proof. intros Hk. apply (schedule128_ok 10 1 [key]); [lia..|done|by apply Forall_singleton]. Qed.

Lemma schedule256_ok count i idx rk :
  (2 * idx < i)%nat → (2 ≤ i)%nat → (i + count ≤ 15)%nat → length rk = i → Forall block_ok rk →
  ∃ rk', schedule256 count i idx rk = Ok rk' ∧ length rk' = (i + count)%nat ∧ Forall block_ok rk'.
Proof.
  revert i idx rk. induction count as [|count IH]; intros i idx rk Hx Hi Hc Hl Hrk; cbn [schedule256].
  - exists rk. split_and!; [done|lia|done].
  - destruct (round_key rk Hrk (i - 1)) as (k & -> & Hk); [lia|]. cbn [mbind outcome_bind].
    destruct (round_key rk Hrk (i - 2)) as (pk & -> & Hpk); [lia|]. cbn [mbind outcome_bind].
    assert (∀ t idx', length t = 4%nat → bytes_ok t → (2 * idx' < S i)%nat →
      ∃ rk', schedule256 count (S i) idx' (rk ++ [next_key pk t]) = Ok rk' ∧ length rk' = (i + S count)%nat ∧ Forall block_ok rk')
      as Hnext.
    { intros t idx' Ht Htb Hx'. destruct (IH (S i) idx' (rk ++ [next_key pk t])) as (rk' & -> & Hl' & Hrk');
        [done|lia|lia|rewrite length_app; simpl; lia| |exists rk'; split_and!; [done|lia|done]].
      apply Forall_app. split; [done|]. constructor; [|constructor]. by apply next_key_ok. }
    destruct (Nat.even i) eqn:He.
    + apply Nat.even_spec in He as [j ->]. destruct (rcon_at idx) as (r & -> & Hr); [lia|]. cbn [mbind outcome_bind].
      apply Hnext; [by apply rot_word_ok..|lia].
    + apply Hnext; [by apply sub_word_ok..|lia].
Qed.

Lemma aes256_key_schedule_ok key :
  length key = 32%nat → bytes_ok key →
  ∃ rk, aes256_key_schedule key = Ok rk ∧ length rk = 15%nat ∧ Forall block_ok rk.
Proof.
  intros Hl Hb. apply (schedule256_ok 13 2 0); [lia..|done|].
  rewrite Forall_cons, Forall_singleton. unfold block_ok. rewrite !length_take, length_drop.
  split_and!; [lia|by apply Forall_take|lia|by apply Forall_take, Forall_drop].
Qed.

(** ** CBC *)

Lemma cbc_chunks rk q prev out out' data :
  length rk = 11%nat → Forall block_ok rk → block_ok prev → (length data = q * 16)%nat → bytes_ok data →
  ∃ c p', fold_m (cbc_encrypt_chunk rk) (prev, out) (chunks 16 data) = Ok (p', out ++ c) ∧
    length c = length data ∧ bytes_ok c ∧
    ∃ p'', fold_m (cbc_decrypt_chunk rk) (prev, out') (chunks 16 c) = Ok (p'', out' ++ data).
Proof.
  intros Hl Hrk. revert prev out out' data. induction q as [|q IH]; intros prev out out' data Hp Hq Hd.
  - destruct data; [|simpl in *; lia]. exists [], prev. rewrite !app_nil_r. split_and!; [done|done|constructor|by exists prev].
  - rewrite (chunks_step 16) by lia. set (b := take 16 data).
    assert (block_ok b) as Hb by (split; [subst b; rewrite length_take; lia|by apply Forall_take]).
    destruct (decrypt_encrypt_block rk Hrk 10 (xor_bytes b prev)) as (c & He & Hc & Hdec); [lia|by apply xor_block_ok|].
    cbn [fold_m]. unfold cbc_encrypt_chunk at 2. rewrite (proj1 Hb). cbn [Nat.eqb]. unfold aes128_encrypt. rewrite He. cbn [mbind outcome_bind].
    destruct (IH c (out ++ c) (out' ++ b) (drop 16 data)) as (c' & p' & He' & Hl' & Hb' & p'' & Hd');
      [done|rewrite length_drop; lia|by apply Forall_drop|].
    exists (c ++ c'), p'. rewrite He', <-app_assoc, length_app, Hl', length_drop, (proj1 Hc). split_and!; [done|lia|by apply Forall_app; split; [apply Hc|]|].
    exists p''. rewrite chunks_app by (lia || apply Hc). cbn [fold_m]. unfold cbc_decrypt_chunk at 2.
    rewrite (proj1 Hc). cbn [Nat.eqb]. unfold aes128_decrypt. rewrite Hdec. cbn [mbind outcome_bind].
    rewrite xor_block_twice by done. rewrite Hd', <-app_assoc. subst b. by rewrite take_drop.
Qed.

Lemma last_replicate (n : nat) (x : Z) : (0 < n)%nat → last (replicate n x) = Some x.
Proof. intros. destruct n; [lia|]. by rewrite replicate_S_end, last_snoc. Qed.

(** C19. Decryption in CBC mode undoes encryption: for every key, initial vector and
    message the ciphertext is a whole number of blocks longer than the message
    by 1 to 16 bytes, and decrypting it with the same key and vector returns the
    message.  Nothing panics. *)
Theorem cbc_decrypt_encrypt key iv plaintext :
  block_ok key → block_ok iv → bytes_ok plaintext → len plaintext < 2 ^ 63 →
  ∃ ct, aes128_cbc_encrypt key iv plaintext = Ok ct ∧
    (length ct = (length plaintext / 16 + 1) * 16)%nat ∧ bytes_ok ct ∧
    aes128_cbc_decrypt key iv ct = Ok (Some plaintext).
Proof.
  intros Hk Hiv Hp H63. destruct (aes128_key_schedule_ok key Hk) as (rk & Hrk & Hl & Hrks).
  unfold aes128_cbc_encrypt, aes128_cbc_decrypt. rewrite Hrk. cbn [mbind outcome_bind].
  set (n := length plaintext). pose proof (Nat.div_mod n 16 ltac:(lia)) as Hdm.
  pose proof (Nat.mod_upper_bound n 16 ltac:(lia)) as Hlt. set (pad := (16 - n mod 16)%nat).
  set (data := plaintext ++ replicate pad (as_u8 (Z.of_nat pad))).
  assert (length data = (n / 16 + 1) * 16)%nat as Hdata by (subst data; rewrite length_app, length_replicate; fold n; lia).
  assert (as_u8 (Z.of_nat pad) = Z.of_nat pad) as Hpad by (unfold as_u8; apply wrap_id; unfold in_u; lia).
  assert (bytes_ok data) as Hdb.
  { apply Forall_app. split; [done|]. apply Forall_replicate. rewrite Hpad. unfold in_u. lia. }
  destruct (cbc_chunks rk _ iv [] [] data Hl Hrks Hiv Hdata Hdb) as (c & p' & -> & Hlc & Hcb & p'' & Hdec).
  cbn [mbind outcome_bind app] in *. exists c. split_and!; [done|lia|done|].
  replace (length c mod 16)%nat with 0%nat by (rewrite Hlc, Hdata; symmetry; apply Nat.Div0.mod_mul).
  destruct (Nat.eqb_spec (length c) 0); [lia|]. cbn [Nat.eqb negb orb]. rewrite Hdec. cbn [mbind outcome_bind].
  subst data. rewrite last_app, last_replicate, Hpad by lia.
  destruct (Z.eqb_spec (Z.of_nat pad) 0); [lia|]. destruct (Z.ltb_spec 16 (Z.of_nat pad)); [lia|]. cbn [orb].
  assert (len (plaintext ++ replicate pad (Z.of_nat pad)) - Z.of_nat pad = Z.of_nat n) as Hln
    by (rewrite len_app; unfold len; rewrite length_replicate; lia).
  rewrite sub_Ok by (rewrite Hln; unfold in_u, len in *; lia). cbn [mbind outcome_bind].
  rewrite Hln, Nat2Z.id. subst n. by rewrite take_app_length.
Qed.

Lemma zeros_block_ok : block_ok (replicate 16 0).
Proof. split; [done|]. by apply Forall_replicate. Qed.

Lemma cbc_decrypt_encrypt_witness :
  ∃ ct, aes128_cbc_encrypt (replicate 16 0) (replicate 16 0) [1; 2; 3] = Ok ct ∧
    aes128_cbc_decrypt (replicate 16 0) (replicate 16 0) ct = Ok (Some [1; 2; 3]).
Proof.
  destruct (cbc_decrypt_encrypt (replicate 16 0) (replicate 16 0) [1; 2; 3]) as (ct & He & _ & _ & Hd);
    [apply zeros_block_ok|apply zeros_block_ok|by repeat constructor|done|].
  exists ct. split; [exact He|exact Hd].
Defined.

(** ** What goes wrong at the edges

    Only the last byte of the padding is looked at.  PKCS #7 requires the last [pad]
    bytes to be equal to [pad]; this ciphertext, whose block ends in [7; 2], is
    accepted and is not what encryption makes of the message. *)
Lemma cbc_accepts_bad_padding :
  let zeros := replicate 16 0 in
  let block := replicate 14 0 ++ [7; 2] in
  ∃ ct, (rk ← aes128_key_schedule zeros; aes128_encrypt block rk) = Ok ct ∧
    aes128_cbc_decrypt zeros zeros ct = Ok (Some (replicate 14 0)) ∧
    aes128_cbc_encrypt zeros zeros (replicate 14 0) ≠ Ok ct.
Proof. eexists. split_and!; [by vm_compute|by vm_compute|by vm_compute]. Qed.
