(* ===== verification/Gcm.v ===== *)
(** * AES-GCM

    [net/crypto/aes_gcm.rs].  Sealing and opening are inverse to each other, and a
    tag is accepted exactly when it is the tag of the ciphertext. *)

From stdpp Require Import base numbers list.
From S2P Require Import Prelude.
From S2P Require Import Bytes.
From S2P Require Import Aes.

(** ** Operations *)

(** [V >> 1] across the bytes, and the reduction. *)
Definition shift_block (v : list Z) : list Z :=
  zip_with (λ hi lo, Z.lor (Z.shiftr lo 1) (shl 8 hi 7)) (0 :: v) v.
Definition reduce_step (v : list Z) : list Z :=
  let lsb := Z.land (nth 15 v 0) 1 in
  let v := shift_block v in
  if lsb =? 1 then match v with v0 :: v => v0 ⊕ 0xe1 :: v | [] => [] end else v.

(** [for i in 0..128] *)
Fixpoint gf128_loop (count i : nat) (b z v : list Z) : list Z :=
  match count with
  | O => z
  | S count =>
      let bit_idx := Z.of_nat (7 - i mod 8) in
      let z := if Z.land (Z.shiftr (nth (i / 8) b 0) bit_idx) 1 =? 1 then xor_bytes z v else z in
      gf128_loop count (S i) b z (reduce_step v)
  end.
Definition gf128_mul (a b : list Z) : list Z := gf128_loop 128 0 b (replicate 16 0) a.

(** [while off < data.len()]: a short block leaves the rest of [y] as it is. *)
Definition ghash_block (h y block : list Z) : list Z :=
  gf128_mul (xor_bytes (take (length block) y) block ++ drop (length block) y) h.
Definition ghash_update (y h data : list Z) : list Z := fold_left (ghash_block h) (chunks 16 data) y.

Definition ghash (h aad ciphertext : list Z) : checked (list Z) :=
  let y := ghash_update (replicate 16 0) h aad in
  let y := ghash_update y h ciphertext in
  aad_bits ← mul 64 (len aad) 8;
  ct_bits ← mul 64 (len ciphertext) 8;
  let len_block := to_be_bytes 8 aad_bits ++ to_be_bytes 8 ct_bits in
  Ok (gf128_mul (xor_bytes y len_block) h).

Definition inc32 (ctr : list Z) : list Z :=
  let c := from_be_bytes (drop 12 ctr) in
  take 12 ctr ++ to_be_bytes 4 (wadd 32 c 1).

Section gcm.
(** The functions for 128-bit and for 256-bit keys are copies of each other; they
    differ in the cipher, here the encryption of one block. *)
Context (encrypt : list Z → checked (list Z)).

(** [while off < data.len()] of the counter mode. *)
Definition ctr_block (st : list Z * list Z) (chunk : list Z) : checked (list Z * list Z) :=
  let '(ctr, out) := st in
  block ← encrypt ctr;
  Ok (inc32 ctr, out ++ xor_bytes chunk block).
Definition ctr_crypt (ctr data : list Z) : checked (list Z) :=
  '(_, out) ← fold_m ctr_block (ctr, []) (chunks 16 data);
  Ok out.

Definition initial_counter (nonce : list Z) : list Z := nonce ++ [0; 0; 0; 1].

(** The tag of both directions. *)
Definition gcm_tag (h_block j0 aad ciphertext : list Z) : checked (list Z) :=
  s ← ghash h_block aad ciphertext;
  tag_mask ← encrypt j0;
  Ok (xor_bytes s tag_mask).

Definition gcm_seal (nonce aad plaintext : list Z) : checked (list Z * list Z) :=
  h_block ← encrypt (replicate 16 0);
  let j0 := initial_counter nonce in
  ciphertext ← ctr_crypt (inc32 j0) plaintext;
  tag ← gcm_tag h_block j0 aad ciphertext;
  Ok (ciphertext, tag).

Definition gcm_open (nonce aad ciphertext tag : list Z) : checked (option (list Z)) :=
  h_block ← encrypt (replicate 16 0);
  let j0 := initial_counter nonce in
  computed_tag ← gcm_tag h_block j0 aad ciphertext;
  let diff := tag_diff computed_tag tag in
  if negb (diff =? 0) then Ok None
  else
    plaintext ← ctr_crypt (inc32 j0) ciphertext;
    Ok (Some plaintext).
End gcm.

Definition aes128_gcm_seal (key nonce aad plaintext : list Z) : checked (list Z * list Z) :=
  rk ← aes128_key_schedule key; gcm_seal (λ b, aes128_encrypt b rk) nonce aad plaintext.
Definition aes128_gcm_open (key nonce aad ciphertext tag : list Z) : checked (option (list Z)) :=
  rk ← aes128_key_schedule key; gcm_open (λ b, aes128_encrypt b rk) nonce aad ciphertext tag.
Definition aes256_gcm_seal (key nonce aad plaintext : list Z) : checked (list Z * list Z) :=
  rk ← aes256_key_schedule key; gcm_seal (λ b, aes256_encrypt b rk) nonce aad plaintext.
Definition aes256_gcm_open (key nonce aad ciphertext tag : list Z) : checked (option (list Z)) :=
  rk ← aes256_key_schedule key; gcm_open (λ b, aes256_encrypt b rk) nonce aad ciphertext tag.

(** ** Blocks stay blocks *)

Lemma shift_block_ok v : block_ok v → block_ok (shift_block v).
Proof.
  intros [Hl Hb]. unfold shift_block. split; [rewrite length_zip_with, length_cons; lia|].
  assert (bytes_ok (0 :: v)) as H0 by (by constructor). revert H0. generalize (0 :: v). intros u Hu. clear Hl.
  revert u Hu. induction Hb as [|x v Hx _ IH]; intros [|y u] Hu; try by constructor.
  apply Forall_cons in Hu as [Hy Hu]. constructor; [|by apply IH].
  apply in_u_lor; [lia| |apply wrap_range; lia]. unfold in_u in *. rewrite Z.shiftr_div_pow2 by lia.
  split; [apply Z.div_pos; lia|apply Z.div_lt_upper_bound; lia].
Qed.

Lemma reduce_step_ok v : block_ok v → block_ok (reduce_step v).
Proof.
  intros Hv. unfold reduce_step. pose proof (shift_block_ok v Hv) as [Hl Hb].
  destruct (Z.land (nth 15 v 0) 1 =? 1); [|done]. destruct (shift_block v) as [|x w]; [done|].
  apply Forall_cons in Hb as [Hx Hw]. split; [done|]. constructor; [by apply in_u_lxor|done].
Qed.

Lemma gf128_loop_ok count i b z v : block_ok z → block_ok v → block_ok (gf128_loop count i b z v).
Proof.
  revert i z v. induction count as [|count IH]; intros i z v Hz Hv; [done|]. cbn [gf128_loop].
  apply IH; [|by apply reduce_step_ok]. destruct (_ =? 1); [by apply xor_block_ok|done].
Qed.

Lemma zero_block : block_ok (replicate 16 0).
Proof. split; [done|]. by apply Forall_replicate. Qed.

Lemma gf128_mul_ok a b : block_ok a → block_ok (gf128_mul a b).
Proof. intros. unfold gf128_mul. apply gf128_loop_ok; [apply zero_block|done]. Qed.

#[global] Opaque gf128_mul.

Lemma ghash_block_ok h y b : block_ok y → bytes_ok b → (length b ≤ 16)%nat → block_ok (ghash_block h y b).
Proof.
  intros [Hl Hy] Hb Hlb. unfold ghash_block. apply gf128_mul_ok. split.
  - rewrite length_app, length_xor_bytes, length_take, length_drop. lia.
  - apply Forall_app. split; [apply xor_bytes_ok; [by apply Forall_take|done]|by apply Forall_drop].
Qed.

Lemma ghash_update_ok y h data : block_ok y → bytes_ok data → block_ok (ghash_update y h data).
Proof.
  intros Hy Hd. unfold ghash_update.
  apply (fold_left_inv _ block_ok (λ b, bytes_ok b ∧ (length b ≤ 16)%nat)); [|done|by apply chunks_Forall].
  intros a b Ha [Hb Hl]. by apply ghash_block_ok.
Qed.

Lemma ghash_ok h aad ct :
  bytes_ok aad → bytes_ok ct → len aad < 2 ^ 61 → len ct < 2 ^ 61 → ∃ s, ghash h aad ct = Ok s ∧ block_ok s.
Proof.
  intros Ha Hc Hal Hcl. unfold ghash. pose proof (len_nonneg aad). pose proof (len_nonneg ct).
  rewrite !mul_Ok by (unfold in_u; lia). cbn [mbind outcome_bind]. eexists. split; [done|].
  apply gf128_mul_ok, xor_block_ok; [apply ghash_update_ok; [apply ghash_update_ok; [apply zero_block|done]|done]|].
  split; [by rewrite length_app, !length_to_be_bytes|]. apply Forall_app. split; apply to_be_bytes_ok.
Qed.

Lemma inc32_ok ctr : block_ok ctr → block_ok (inc32 ctr).
Proof.
  intros [Hl Hb]. unfold inc32. split; [rewrite length_app, length_take, length_to_be_bytes; lia|].
  apply Forall_app. split; [by apply Forall_take|apply to_be_bytes_ok].
Qed.

Lemma initial_counter_ok nonce : length nonce = 12%nat → bytes_ok nonce → block_ok (initial_counter nonce).
Proof.
  intros Hl Hb. unfold initial_counter. split; [by rewrite length_app, Hl|]. apply Forall_app. split; [done|]. by repeat constructor.
Qed.

Section gcm_proofs.
Context (encrypt : list Z → checked (list Z)).
Context (Henc : ∀ b, block_ok b → ∃ c, encrypt b = Ok c ∧ block_ok c).

(** The keystream depends on the counter only, so that it comes off again. *)
Lemma ctr_blocks q ctr out out' data :
  block_ok ctr → bytes_ok data → (length data ≤ q * 16)%nat →
  ∃ c ctr', fold_m (ctr_block encrypt) (ctr, out) (chunks 16 data) = Ok (ctr', out ++ c) ∧
    length c = length data ∧ bytes_ok c ∧
    fold_m (ctr_block encrypt) (ctr, out') (chunks 16 c) = Ok (ctr', out' ++ data).
Proof using Henc.
  revert ctr out out' data. induction q as [|q IH]; intros ctr out out' data Hctr Hd Hq.
  - destruct data; [|simpl in *; lia]. exists [], ctr. rewrite !app_nil_r. split_and!; [done..|constructor|done].
  - destruct (Henc ctr Hctr) as (k & Hk & [Hkl Hkb]). destruct (decide (length data = 0)%nat) as [H0|H0].
    { destruct data; [|done]. exists [], ctr. rewrite !app_nil_r. split_and!; [done..|constructor|done]. }
    destruct (le_lt_dec 16 (length data)) as [Hle|Hlt].
    + set (b := take 16 data). assert (length b = 16%nat) as Hb by (subst b; rewrite length_take; lia).
      destruct (IH (inc32 ctr) (out ++ xor_bytes b k) (out' ++ b) (drop 16 data)) as (c & ctr' & He & Hl & Hcb & He');
        [by apply inc32_ok|by apply Forall_drop|rewrite length_drop; lia|].
      assert (length (xor_bytes b k) = 16%nat) as Hx by (rewrite length_xor_bytes; lia).
      exists (xor_bytes b k ++ c), ctr'. rewrite (chunks_step 16) by lia. fold b. cbn [fold_m]. unfold ctr_block at 2.
      rewrite Hk. cbn [mbind outcome_bind]. rewrite He, app_assoc, length_app, Hx, Hl, length_drop. split_and!; [done|lia| |].
      * apply Forall_app. split; [|done]. apply xor_bytes_ok; [by apply Forall_take|done].
      * rewrite chunks_app by (lia || done). cbn [fold_m]. unfold ctr_block at 2. rewrite Hk. cbn [mbind outcome_bind].
        rewrite xor_bytes_twice by lia. rewrite He', <-app_assoc. subst b. by rewrite take_drop.
    + assert (length (xor_bytes data k) = length data) as Hx by (rewrite length_xor_bytes; lia).
      exists (xor_bytes data k), (inc32 ctr). rewrite !(chunks_short 16) by lia. cbn [fold_m]. unfold ctr_block.
      rewrite Hk. cbn [mbind outcome_bind]. rewrite xor_bytes_twice by lia. split_and!; [done..|by apply xor_bytes_ok|done].
Qed.

Lemma ctr_crypt_twice ctr data :
  block_ok ctr → bytes_ok data →
  ∃ c, ctr_crypt encrypt ctr data = Ok c ∧ length c = length data ∧ bytes_ok c ∧ ctr_crypt encrypt ctr c = Ok data.
Proof using Henc.
  intros Hc Hd. destruct (ctr_blocks (length data) ctr [] [] data Hc Hd) as (c & ctr' & He & Hl & Hb & He'); [lia|].
  exists c. unfold ctr_crypt. rewrite He, He'. by split_and!.
Qed.

Lemma gcm_tag_ok h j0 aad ct :
  block_ok j0 → bytes_ok aad → bytes_ok ct → len aad < 2 ^ 61 → len ct < 2 ^ 61 →
  ∃ t, gcm_tag encrypt h j0 aad ct = Ok t ∧ block_ok t.
Proof using Henc.
  intros Hj Ha Hc Hal Hcl. unfold gcm_tag. destruct (ghash_ok h aad ct) as (s & -> & Hs); [done..|].
  destruct (Henc j0 Hj) as (m & Hm & Hmb). cbn [mbind outcome_bind]. rewrite Hm. cbn [mbind outcome_bind].
  eexists. split; [done|by apply xor_block_ok].
Qed.

(** [gcm_open] compares with the tag of the ciphertext and then decrypts. *)
Lemma gcm_open_spec nonce aad ct :
  length nonce = 12%nat → bytes_ok nonce → bytes_ok aad → bytes_ok ct → len aad < 2 ^ 61 → len ct < 2 ^ 61 →
  ∃ t pt, block_ok t ∧ length pt = length ct ∧ bytes_ok pt ∧
    gcm_seal encrypt nonce aad pt = Ok (ct, t) ∧ ctr_crypt encrypt (inc32 (initial_counter nonce)) ct = Ok pt ∧
    ∀ tag, block_ok tag → gcm_open encrypt nonce aad ct tag = Ok (if decide (tag = t) then Some pt else None).
Proof using Henc.
  intros Hn Hnb Ha Hc Hal Hcl. pose proof (initial_counter_ok nonce Hn Hnb) as Hj.
  destruct (Henc _ zero_block) as (h & Hh & Hhb).
  destruct (gcm_tag_ok h (initial_counter nonce) aad ct) as (t & Ht & Htb); [done..|].
  destruct (ctr_crypt_twice (inc32 (initial_counter nonce)) ct) as (pt & Hpt & Hl & Hb & Hback); [by apply inc32_ok|done|].
  exists t, pt. split_and!; [done..| | |].
  - unfold gcm_seal. rewrite Hh. cbn [mbind outcome_bind]. rewrite Hback. cbn [mbind outcome_bind]. by rewrite Ht.
  - done.
  - intros tag Htag. unfold gcm_open. rewrite Hh. cbn [mbind outcome_bind]. rewrite Ht. cbn [mbind outcome_bind].
    pose proof (tag_diff_0 t tag) as Hdiff. destruct Htb as [Htl Htb], Htag as [Hgl Hgb]. specialize (Hdiff ltac:(lia) Htb Hgb).
    destruct (Z.eqb_spec (tag_diff t tag) 0) as [E|E]; cbn [negb].
    + apply Hdiff in E as ->. rewrite decide_True, Hpt by done. done.
    + rewrite decide_False; [done|]. intros ->. by apply E, Hdiff.
Qed.

Lemma gcm_seal_spec nonce aad pt :
  length nonce = 12%nat → bytes_ok nonce → bytes_ok aad → bytes_ok pt → len aad < 2 ^ 61 → len pt < 2 ^ 61 →
  ∃ ct t, gcm_seal encrypt nonce aad pt = Ok (ct, t) ∧ length ct = length pt ∧ bytes_ok ct ∧ block_ok t ∧
    gcm_open encrypt nonce aad ct t = Ok (Some pt).
Proof using Henc.
  intros Hn Hnb Ha Hp Hal Hpl. pose proof (initial_counter_ok nonce Hn Hnb) as Hj.
  destruct (ctr_crypt_twice (inc32 (initial_counter nonce)) pt) as (ct & Hct & Hl & Hb & Hback); [by apply inc32_ok|done|].
  destruct (gcm_open_spec nonce aad ct) as (t & pt' & Htb & Hl' & _ & Hseal & Hpt & Hopen); [done..|unfold len in *; lia|].
  rewrite Hback in Hpt. injection Hpt as <-.
  exists ct, t. split_and!; [done..|]. rewrite Hopen by done. by rewrite decide_True.
Qed.
End gcm_proofs.

(** ** Both key sizes *)

(** What a caller of an authenticated cipher relies on, for keys of [n] bytes and
    nonces of twelve: [open] returns the message that belongs to a ciphertext if
    the tag is its tag and nothing otherwise, and [seal] finds the ciphertext. *)
Class Aead (n : nat) (seal : list Z → list Z → list Z → list Z → checked (list Z * list Z))
    (open : list Z → list Z → list Z → list Z → list Z → checked (option (list Z))) : Prop := {
  aead_seal key nonce aad pt :
    length key = n → bytes_ok key → length nonce = 12%nat → bytes_ok nonce →
    bytes_ok aad → bytes_ok pt → len aad < 2 ^ 61 → len pt < 2 ^ 61 →
    ∃ ct t, seal key nonce aad pt = Ok (ct, t) ∧ length ct = length pt ∧ bytes_ok ct ∧ block_ok t ∧
      open key nonce aad ct t = Ok (Some pt);
  aead_open key nonce aad ct :
    length key = n → bytes_ok key → length nonce = 12%nat → bytes_ok nonce →
    bytes_ok aad → bytes_ok ct → len aad < 2 ^ 61 → len ct < 2 ^ 61 →
    ∃ t pt, block_ok t ∧ length pt = length ct ∧ bytes_ok pt ∧ seal key nonce aad pt = Ok (ct, t) ∧
      ∀ tag, block_ok tag → open key nonce aad ct tag = Ok (if decide (tag = t) then Some pt else None);
}.

Lemma aes128_encrypt_ok rk b :
  length rk = 11%nat → Forall block_ok rk → block_ok b → ∃ c, aes128_encrypt b rk = Ok c ∧ block_ok c.
Proof.
  intros Hl Hrk Hb. destruct (decrypt_encrypt_block rk Hrk 10 b) as (c & Hc & Hcb & _); [lia|done|]. by exists c.
Qed.

Lemma aes256_encrypt_ok rk b :
  length rk = 15%nat → Forall block_ok rk → block_ok b → ∃ c, aes256_encrypt b rk = Ok c ∧ block_ok c.
Proof.
  intros Hl Hrk Hb. destruct (decrypt_encrypt_block rk Hrk 14 b) as (c & Hc & Hcb & _); [lia|done|]. by exists c.
Qed.

#[export] Instance aes128_gcm_aead : Aead 16 aes128_gcm_seal aes128_gcm_open.
Proof.
  split; intros key nonce aad m Hk Hkb Hn Hnb Ha Hm Hal Hml; unfold aes128_gcm_seal, aes128_gcm_open;
    destruct (aes128_key_schedule_ok key (conj Hk Hkb)) as (rk & -> & Hl & Hrk); cbn [mbind outcome_bind].
  - apply gcm_seal_spec; [|done..]. intros b Hb. by apply aes128_encrypt_ok.
  - destruct (gcm_open_spec (λ b, aes128_encrypt b rk) (λ b, aes128_encrypt_ok rk b Hl Hrk) nonce aad m)
      as (t & pt & H1 & H2 & H3 & H4 & _ & H5); [done..|]. by exists t, pt.
Qed.

#[export] Instance aes256_gcm_aead : Aead 32 aes256_gcm_seal aes256_gcm_open.
Proof.
  split; intros key nonce aad m Hk Hkb Hn Hnb Ha Hm Hal Hml; unfold aes256_gcm_seal, aes256_gcm_open;
    destruct (aes256_key_schedule_ok key Hk Hkb) as (rk & -> & Hl & Hrk); cbn [mbind outcome_bind].
  - apply gcm_seal_spec; [|done..]. intros b Hb. by apply aes256_encrypt_ok.
  - destruct (gcm_open_spec (λ b, aes256_encrypt b rk) (λ b, aes256_encrypt_ok rk b Hl Hrk) nonce aad m)
      as (t & pt & H1 & H2 & H3 & H4 & _ & H5); [done..|]. by exists t, pt.
Qed.

(** ** Published test vectors

    FIPS 197, appendix C.1, and test case 2 of the GCM specification. *)

Lemma aes128_fips197 :
  (rk ← aes128_key_schedule (seqZ 0 16); aes128_encrypt (to_be_bytes 16 0x00112233445566778899aabbccddeeff) rk)
  = Ok (to_be_bytes 16 0x69c4e0d86a7b0430d8cdb78070b4c55a).
Proof. by vm_compute. Qed.

Lemma gcm_test_case_2 :
  aes128_gcm_seal (replicate 16 0) (replicate 12 0) [] (replicate 16 0)
  = Ok (to_be_bytes 16 0x0388dace60b6a392f328c2b971b2fe78, to_be_bytes 16 0xab6e47d42cec13bdf53a67b21257bddf).
Proof. by vm_compute. Qed.

(** ** What goes wrong at the edges

    The schedule for 256-bit keys substitutes the first word of the previous round
    key where the standard takes the last one (FIPS 197, section 5.2), so that the
    cipher is another one: the ciphertext of appendix C.3 is
    [8ea2b7ca516745bfeafc49904b496089]. *)
Lemma aes256_is_not_fips197 :
  (rk ← aes256_key_schedule (seqZ 0 32); aes256_encrypt (to_be_bytes 16 0x00112233445566778899aabbccddeeff) rk)
  = Ok (to_be_bytes 16 0x410ef5e72526310382697f96fa05b5ba).
Proof. by vm_compute. Qed.
