(* ===== verification/Chacha.v ===== *)
(** * ChaCha20-Poly1305

    [net/crypto/chacha20.rs].  The cipher is its own inverse.  The arithmetic of
    the authenticator on limbs of 26 bits is shown to evaluate a polynomial modulo
    [2^130 - 5], without overflow; the value it adds to a full block is not the one
    of RFC 8439, which the last section states.  The construction of both is an
    authenticated cipher in the sense of [Gcm]. *)

From stdpp Require Import base numbers list.
From S2P Require Import Prelude.
From S2P Require Import Bytes.
From S2P Require Import Gcm.

(** ** ChaCha20 *)

(** [s[i]] with a constant index into sixteen words. *)
Definition word (s : list Z) (i : nat) : Z := nth i s 0.

Definition qr (s : list Z) (a b c d : nat) : list Z :=
  let s := <[a := wadd 32 (word s a) (word s b)]> s in
  let s := <[d := word s d ⊕ word s a]> s in
  let s := <[d := rotl 32 16 (word s d)]> s in
  let s := <[c := wadd 32 (word s c) (word s d)]> s in
  let s := <[b := word s b ⊕ word s c]> s in
  let s := <[b := rotl 32 12 (word s b)]> s in
  let s := <[a := wadd 32 (word s a) (word s b)]> s in
  let s := <[d := word s d ⊕ word s a]> s in
  let s := <[d := rotl 32 8 (word s d)]> s in
  let s := <[c := wadd 32 (word s c) (word s d)]> s in
  let s := <[b := word s b ⊕ word s c]> s in
  <[b := rotl 32 7 (word s b)]> s.

(** [from_le_bytes] of the four bytes at [i]. *)
Definition le32 (bs : list Z) (i : nat) : Z := from_le_bytes (take 4 (drop i bs)).

Definition double_round (w : list Z) : list Z :=
  let w := qr w 0 4 8 12 in
  let w := qr w 1 5 9 13 in
  let w := qr w 2 6 10 14 in
  let w := qr w 3 7 11 15 in
  let w := qr w 0 5 10 15 in
  let w := qr w 1 6 11 12 in
  let w := qr w 2 7 8 13 in
  qr w 3 4 9 14.

Definition chacha20_block (key : list Z) (counter : Z) (nonce : list Z) : list Z :=
  let state :=
    [0x61707865; 0x3320646e; 0x79622d32; 0x6b206574]
    ++ ((λ i, le32 key (i * 4)%nat) <$> seq 0 8)
    ++ [counter] ++ ((λ i, le32 nonce (i * 4)%nat) <$> seq 0 3) in
  let working := Nat.iter 10 double_round state in
  zip_with (wadd 32) working state ≫= to_le_bytes 4.

(** [while off < data.len()] with the counter and the output. *)
Definition chacha20_chunk (key nonce : list Z) (st : Z * list Z) (chunk : list Z) : Z * list Z :=
  let '(ctr, out) := st in
  (wadd 32 ctr 1, out ++ xor_bytes chunk (chacha20_block key ctr nonce)).
Definition chacha20_crypt (key : list Z) (counter : Z) (nonce data : list Z) : list Z :=
  (fold_left (chacha20_chunk key nonce) (chunks 64 data) (counter, [])).2.

(** ** Poly1305 *)

(** Five limbs of 26 bits. *)
Record limbs := { l0 : Z; l1 : Z; l2 : Z; l3 : Z; l4 : Z }.

Definition MASK26 : Z := 0x03ffffff.

(** The clamped key.  The array [r] of the source is written and not read. *)
Definition parse_r (k : list Z) : limbs :=
  {| l0 := Z.land (le32 k 0) 0x03ffffff;
     l1 := Z.land (Z.shiftr (le32 k 3) 2) 0x03ffff03;
     l2 := Z.land (Z.shiftr (le32 k 6) 4) 0x03ffc0ff;
     l3 := Z.land (Z.shiftr (le32 k 9) 6) 0x03f03fff;
     l4 := Z.land (Z.shiftr (le32 k 12) 8) 0x000fffff |}.

(** The block with its final bit, added to the accumulator. *)
Definition add_block (h : limbs) (chunk : list Z) : checked limbs :=
  let block_len := length chunk in
  let block := chunk ++ 1 :: replicate (16 - block_len) 0 in
  let t0 := le32 block 0 in
  let t1 := le32 block 4 in
  let t2 := le32 block 8 in
  let t3 := le32 block 12 in
  h0 ← add 32 (l0 h) (Z.land t0 MASK26);
  h1 ← add 32 (l1 h) (Z.land (Z.lor (Z.shiftr t0 26) (shl 32 t1 6)) MASK26);
  h2 ← add 32 (l2 h) (Z.land (Z.lor (Z.shiftr t1 20) (shl 32 t2 12)) MASK26);
  h3 ← add 32 (l3 h) (Z.land (Z.lor (Z.shiftr t2 14) (shl 32 t3 18)) MASK26);
  h4 ← add 32 (l4 h)
         (Z.lor (Z.shiftr t3 8)
            (if (block_len =? 16)%nat then Z.shiftl 1 24
             else shl 32 (nth 16 block 0) (Z.of_nat (Nat.min (block_len * 8 - 104) 24))));
  let h4 := if (block_len =? 16)%nat
            then wsub 32 (wadd 32 h4 (Z.lor (Z.shiftr t3 8) (Z.shiftl 1 24))) (Z.shiftr t3 8)
            else h4 in
  Ok {| l0 := h0; l1 := h1; l2 := h2; l3 := h3; l4 := h4 |}.

(** The partial reduction of the five sums modulo [2^130 - 5]. *)
Definition carry_limbs (d0 d1 d2 d3 d4 : Z) : checked limbs :=
  let c := as_u32 (Z.shiftr d0 26) in
  let h0 := Z.land (as_u32 d0) MASK26 in
  d1 ← add 64 d1 c;
  let c := as_u32 (Z.shiftr d1 26) in
  let h1 := Z.land (as_u32 d1) MASK26 in
  d2 ← add 64 d2 c;
  let c := as_u32 (Z.shiftr d2 26) in
  let h2 := Z.land (as_u32 d2) MASK26 in
  d3 ← add 64 d3 c;
  let c := as_u32 (Z.shiftr d3 26) in
  let h3 := Z.land (as_u32 d3) MASK26 in
  d4 ← add 64 d4 c;
  let c := as_u32 (Z.shiftr d4 26) in
  let h4 := Z.land (as_u32 d4) MASK26 in
  c5 ← mul 32 c 5;
  h0 ← add 32 h0 c5;
  let c := Z.shiftr h0 26 in
  let h0 := Z.land h0 MASK26 in
  h1 ← add 32 h1 c;
  Ok {| l0 := h0; l1 := h1; l2 := h2; l3 := h3; l4 := h4 |}.

(** [h * r] with [s = 5 * r], and the reduction. *)
Definition mul_limbs (h r s : limbs) : checked limbs :=
  d0 ← products 64 0 [(l0 h, l0 r); (l1 h, l4 s); (l2 h, l3 s); (l3 h, l2 s); (l4 h, l1 s)];
  d1 ← products 64 0 [(l0 h, l1 r); (l1 h, l0 r); (l2 h, l4 s); (l3 h, l3 s); (l4 h, l2 s)];
  d2 ← products 64 0 [(l0 h, l2 r); (l1 h, l1 r); (l2 h, l0 r); (l3 h, l4 s); (l4 h, l3 s)];
  d3 ← products 64 0 [(l0 h, l3 r); (l1 h, l2 r); (l2 h, l1 r); (l3 h, l0 r); (l4 h, l4 s)];
  d4 ← products 64 0 [(l0 h, l4 r); (l1 h, l3 r); (l2 h, l2 r); (l3 h, l1 r); (l4 h, l0 r)];
  carry_limbs d0 d1 d2 d3 d4.

Definition poly_block (r s : limbs) (h : limbs) (chunk : list Z) : checked limbs :=
  h ← add_block h chunk; mul_limbs h r s.

(** The carries of the final reduction. *)
Definition final_carry (h : limbs) : checked limbs :=
  let c := Z.shiftr (l1 h) 26 in
  let h1 := Z.land (l1 h) MASK26 in
  h2 ← add 32 (l2 h) c;
  let c := Z.shiftr h2 26 in
  let h2 := Z.land h2 MASK26 in
  h3 ← add 32 (l3 h) c;
  let c := Z.shiftr h3 26 in
  let h3 := Z.land h3 MASK26 in
  h4 ← add 32 (l4 h) c;
  let c := Z.shiftr h4 26 in
  let h4 := Z.land h4 MASK26 in
  c5 ← mul 32 c 5;
  h0 ← add 32 (l0 h) c5;
  let c := Z.shiftr h0 26 in
  let h0 := Z.land h0 MASK26 in
  h1 ← add 32 h1 c;
  Ok {| l0 := h0; l1 := h1; l2 := h2; l3 := h3; l4 := h4 |}.

(** [h - p] if that is not negative. *)
Definition select (mask a b : Z) : Z := Z.lor (Z.land a (bnot 32 mask)) (Z.land b mask).
Definition subtract_p (h : limbs) : limbs :=
  let g0 := wadd 32 (l0 h) 5 in
  let c := Z.shiftr g0 26 in
  let g0 := Z.land g0 MASK26 in
  let g1 := wadd 32 (l1 h) c in
  let c := Z.shiftr g1 26 in
  let g1 := Z.land g1 MASK26 in
  let g2 := wadd 32 (l2 h) c in
  let c := Z.shiftr g2 26 in
  let g2 := Z.land g2 MASK26 in
  let g3 := wadd 32 (l3 h) c in
  let c := Z.shiftr g3 26 in
  let g3 := Z.land g3 MASK26 in
  let g4 := wsub 32 (wadd 32 (l4 h) c) (Z.shiftl 1 26) in
  let mask := wsub 32 (Z.shiftr g4 31) 1 in
  {| l0 := select mask (l0 h) g0; l1 := select mask (l1 h) g1; l2 := select mask (l2 h) g2;
     l3 := select mask (l3 h) g3; l4 := select mask (l4 h) g4 |}.

(** [h + s] modulo [2^128].  The variable [f] of the source is computed, checked
    and not used. *)
Definition finish (h : limbs) (k : list Z) : checked (list Z) :=
  let s0 := le32 k 16 in
  let s1 := le32 k 20 in
  let s2 := le32 k 24 in
  let s3 := le32 k 28 in
  let f0 := as_u32 (Z.lor (l0 h) (shl 64 (l1 h) 26)) in
  let f := Z.lor (Z.shiftr (l1 h) 6) (shl 64 (l2 h) 20) in
  carry ← add 64 f0 s0;
  carry ← add 64 s0 (Z.shiftr carry 32);
  _ ← add 64 f carry;
  let h_full := Z.lor (Z.lor (Z.lor (Z.lor (l0 h) (shl 128 (l1 h) 26)) (shl 128 (l2 h) 52))
                         (shl 128 (l3 h) 78)) (shl 128 (l4 h) 104) in
  let s_full := Z.lor (Z.lor (Z.lor s0 (shl 128 s1 32)) (shl 128 s2 64)) (shl 128 s3 96) in
  Ok (to_le_bytes 16 (wadd 128 h_full s_full)).

Definition poly1305_mac (key_material data : list Z) : checked (list Z) :=
  let r := parse_r key_material in
  s1 ← mul 32 (l1 r) 5;
  s2 ← mul 32 (l2 r) 5;
  s3 ← mul 32 (l3 r) 5;
  s4 ← mul 32 (l4 r) 5;
  let s := {| l0 := 0; l1 := s1; l2 := s2; l3 := s3; l4 := s4 |} in
  h ← fold_m (poly_block r s) {| l0 := 0; l1 := 0; l2 := 0; l3 := 0; l4 := 0 |} (chunks 16 data);
  h ← final_carry h;
  finish (subtract_p h) key_material.

(** ** The authenticated cipher *)

Definition construct_poly1305_data (aad ciphertext : list Z) : list Z :=
  let aad_pad := ((16 - length aad mod 16) mod 16)%nat in
  let ct_pad := ((16 - length ciphertext mod 16) mod 16)%nat in
  aad ++ replicate aad_pad 0 ++ ciphertext ++ replicate ct_pad 0
  ++ to_le_bytes 8 (len aad) ++ to_le_bytes 8 (len ciphertext).

Definition chacha20_poly1305_seal (key nonce aad plaintext : list Z) : checked (list Z * list Z) :=
  let poly_key := take 32 (chacha20_block key 0 nonce) in
  let ciphertext := chacha20_crypt key 1 nonce plaintext in
  tag ← poly1305_mac poly_key (construct_poly1305_data aad ciphertext);
  Ok (ciphertext, tag).

Definition chacha20_poly1305_open (key nonce aad ciphertext tag : list Z) : checked (option (list Z)) :=
  let poly_key := take 32 (chacha20_block key 0 nonce) in
  computed ← poly1305_mac poly_key (construct_poly1305_data aad ciphertext);
  if negb (tag_diff computed tag =? 0) then Ok None
  else Ok (Some (chacha20_crypt key 1 nonce ciphertext)).

(** ** The stream cipher is its own inverse *)

Lemma length_qr s a b c d : length (qr s a b c d) = length s.
Proof. unfold qr. by rewrite !length_insert. Qed.

Lemma length_double_round s : length (double_round s) = length s.
Proof. unfold double_round. by rewrite !length_qr. Qed.

Lemma length_iter_rounds n s : length (Nat.iter n double_round s) = length s.
Proof.
  induction n as [|n IH]; [done|].
  change (Nat.iter (S n) double_round s) with (double_round (Nat.iter n double_round s)).
  by rewrite length_double_round.
Qed.

Lemma words_le_bytes ws : length (ws ≫= to_le_bytes 4) = (4 * length ws)%nat ∧ bytes_ok (ws ≫= to_le_bytes 4).
Proof.
  induction ws as [|w ws [IHl IHb]]; [split; [done|constructor]|].
  change ((w :: ws) ≫= to_le_bytes 4) with (to_le_bytes 4 w ++ (ws ≫= to_le_bytes 4)). split.
  - rewrite length_app, IHl, length_to_le_bytes, length_cons. lia.
  - apply Forall_app. split; [apply to_le_bytes_ok|done].
Qed.

Lemma chacha20_block_ok key ctr nonce :
  length (chacha20_block key ctr nonce) = 64%nat ∧ bytes_ok (chacha20_block key ctr nonce).
Proof.
  unfold chacha20_block. set (state := _ ++ _). assert (length state = 16%nat) as Hs by done.
  split; [|apply words_le_bytes]. rewrite (proj1 (words_le_bytes _)), length_zip_with, length_iter_rounds. lia.
Qed.

#[global] Opaque chacha20_block.

Lemma chacha20_chunks q key nonce ctr out out' data :
  bytes_ok data → (length data ≤ q * 64)%nat →
  ∃ c ctr', fold_left (chacha20_chunk key nonce) (chunks 64 data) (ctr, out) = (ctr', out ++ c) ∧
    length c = length data ∧ bytes_ok c ∧
    fold_left (chacha20_chunk key nonce) (chunks 64 c) (ctr, out') = (ctr', out' ++ data).
Proof.
  revert ctr out out' data. induction q as [|q IH]; intros ctr out out' data Hd Hq.
  - destruct data; [|simpl in *; lia]. exists [], ctr. rewrite !app_nil_r. split_and!; [done..|constructor|done].
  - destruct (chacha20_block_ok key ctr nonce) as [Hkl Hkb]. destruct (decide (length data = 0)%nat) as [H0|H0].
    { destruct data; [|done]. exists [], ctr. rewrite !app_nil_r. split_and!; [done..|constructor|done]. }
    destruct (le_lt_dec 64 (length data)) as [Hle|Hlt].
    + set (b := take 64 data). assert (length b = 64%nat) as Hb by (subst b; rewrite length_take; lia).
      set (k := chacha20_block key ctr nonce) in *.
      destruct (IH (wadd 32 ctr 1) (out ++ xor_bytes b k) (out' ++ b) (drop 64 data)) as (c & ctr' & He & Hl & Hcb & He');
        [by apply Forall_drop|rewrite length_drop; lia|].
      assert (length (xor_bytes b k) = 64%nat) as Hx by (rewrite length_xor_bytes; lia).
      exists (xor_bytes b k ++ c), ctr'. rewrite (chunks_step 64) by lia. fold b. cbn [fold_left chacha20_chunk]. fold k.
      rewrite He, app_assoc, length_app, Hx, Hl, length_drop. split_and!; [done|lia| |].
      * apply Forall_app. split; [|done]. apply xor_bytes_ok; [by apply Forall_take|done].
      * rewrite chunks_app by (lia || done). cbn [fold_left chacha20_chunk]. fold k.
        rewrite xor_bytes_twice by lia. rewrite He', <-app_assoc. subst b. by rewrite take_drop.
    + set (k := chacha20_block key ctr nonce) in *.
      assert (length (xor_bytes data k) = length data) as Hx by (rewrite length_xor_bytes; lia).
      exists (xor_bytes data k), (wadd 32 ctr 1). rewrite !(chunks_short 64) by lia. cbn [fold_left chacha20_chunk]. fold k.
      rewrite xor_bytes_twice by lia. split_and!; [done..|by apply xor_bytes_ok|done].
Qed.

Lemma chacha20_crypt_twice key ctr nonce data :
  bytes_ok data →
  length (chacha20_crypt key ctr nonce data) = length data ∧ bytes_ok (chacha20_crypt key ctr nonce data) ∧
  chacha20_crypt key ctr nonce (chacha20_crypt key ctr nonce data) = data.
Proof.
  intros Hd. destruct (chacha20_chunks (length data) key nonce ctr [] [] data Hd) as (c & ctr' & He & Hl & Hb & He'); [lia|].
  unfold chacha20_crypt. rewrite He. cbn [snd app]. rewrite He'. by split_and!.
Qed.

(** ** Numbers of limbs *)

Definition P1305 : Z := 2 ^ 130 - 5.
Definition eval (h : limbs) : Z := l0 h + 2 ^ 26 * l1 h + 2 ^ 52 * l2 h + 2 ^ 78 * l3 h + 2 ^ 104 * l4 h.

Lemma land_mask x : Z.land x MASK26 = x mod 2 ^ 26.
Proof. apply (Z.land_ones x 26). lia. Qed.

Lemma shr26 x : Z.shiftr x 26 = x / 2 ^ 26.
Proof. by rewrite Z.shiftr_div_pow2. Qed.

(** The accumulator between blocks. *)
Definition limbs_ok (h : limbs) : Prop :=
  0 ≤ l0 h < 2 ^ 26 ∧ 0 ≤ l1 h < 2 ^ 26 + 64 ∧ 0 ≤ l2 h < 2 ^ 26 ∧ 0 ≤ l3 h < 2 ^ 26 ∧ 0 ≤ l4 h < 2 ^ 26.
(** After a block has been added. *)
Definition limbs_added (h : limbs) : Prop :=
  0 ≤ l0 h < 2 ^ 27 ∧ 0 ≤ l1 h < 2 ^ 27 + 64 ∧ 0 ≤ l2 h < 2 ^ 27 ∧ 0 ≤ l3 h < 2 ^ 27 ∧ 0 ≤ l4 h < 2 ^ 27.

(** Two words meet in a limb: the high bits of one and the low bits of the other. *)
Lemma join_words a b k :
  0 ≤ a < 2 ^ 32 → 0 ≤ b < 2 ^ 32 → 6 ≤ k ≤ 18 →
  Z.land (Z.lor (Z.shiftr a (32 - k)) (shl 32 b k)) MASK26 = a / 2 ^ (32 - k) + 2 ^ k * (b mod 2 ^ (26 - k)).
Proof.
  intros Ha Hb Hk. rewrite land_mask, Z.shiftr_div_pow2 by lia.
  pose proof (pow2_pos k ltac:(lia)). pose proof (pow2_pos (32 - k) ltac:(lia)). pose proof (pow2_pos (26 - k) ltac:(lia)).
  assert (2 ^ 32 = 2 ^ (32 - k) * 2 ^ k) as E32 by (rewrite <-Z.pow_add_r by lia; f_equal; lia).
  assert (2 ^ 26 = 2 ^ (26 - k) * 2 ^ k) as E26 by (rewrite <-Z.pow_add_r by lia; f_equal; lia).
  assert (0 ≤ a / 2 ^ (32 - k) < 2 ^ k) as Hq.
  { split; [apply Z.div_pos; lia|apply Z.div_lt_upper_bound; lia]. }
  unfold shl, wrap. rewrite Z.shiftl_mul_pow2, E32, Zmult_mod_distr_r by lia.
  rewrite lor_shifted, E26, (Z.mul_comm (2 ^ (26 - k))), Z.rem_mul_r by lia.
  rewrite Z.mod_add, Z.div_add by lia.
  rewrite (Z.mod_small (a / _) (2 ^ k)), (Z.div_small (a / _) (2 ^ k)), Z.add_0_l by lia.
  rewrite Z.mod_mod_divide; [done|]. exists (2 ^ 6). rewrite <-Z.pow_add_r by lia. f_equal. lia.
Qed.

(** The value of a block with the bit that [add_block] puts above it. *)
Definition block_value (full : Z) (chunk : list Z) : Z :=
  from_le_bytes chunk + (if (length chunk =? 16)%nat then full else 2 ^ (8 * len chunk)).

Lemma le32_range bs i : bytes_ok bs → (i + 4 ≤ length bs)%nat → 0 ≤ le32 bs i < 2 ^ 32.
Proof.
  intros Hb Hl. unfold le32. rewrite from_le_bytes_slice by done. apply (Z.mod_pos_bound _ (2 ^ 32)). lia.
Qed.

(** Sixteen bytes as four words, and words as bits of the whole. *)
Lemma le32_bits bs i :
  bytes_ok bs → (i ≤ 12)%nat → (16 ≤ length bs)%nat →
  le32 bs i = from_le_bytes (take 16 bs) / 2 ^ (8 * Z.of_nat i) mod 2 ^ 32.
Proof.
  intros Hb Hi Hl. unfold le32. replace (take 4 (drop i bs)) with (take 4 (drop i (take 16 bs))).
  - rewrite from_le_bytes_slice; [|by apply Forall_take|rewrite length_take; lia].
    f_equal. f_equal. change 256 with (2 ^ 8). rewrite <-Z.pow_mul_r by lia. done.
  - rewrite skipn_firstn_comm, take_take. f_equal. lia.
Qed.

Lemma le32_four bs :
  bytes_ok bs → (16 ≤ length bs)%nat →
  from_le_bytes (take 16 bs) = le32 bs 0 + 2 ^ 32 * le32 bs 4 + 2 ^ 64 * le32 bs 8 + 2 ^ 96 * le32 bs 12.
Proof.
  intros Hb Hl. rewrite !le32_bits by (lia || done).
  assert (0 ≤ from_le_bytes (take 16 bs) < 2 ^ 128) as HN.
  { pose proof (from_le_bytes_range (take 16 bs) ltac:(by apply Forall_take)) as H. unfold len in H.
    rewrite length_take in H. replace (min 16 (length bs)) with 16%nat in H by lia. done. }
  generalize dependent (from_le_bytes (take 16 bs)). intros N HN.
  change (8 * Z.of_nat 0) with 0. change (8 * Z.of_nat 4) with 32. change (8 * Z.of_nat 8) with 64. change (8 * Z.of_nat 12) with 96.
  Z.to_euclidean_division_equations. lia.
Qed.

(** The seventeen bytes of a block. *)
Lemma padded_block chunk :
  bytes_ok chunk → (0 < length chunk ≤ 16)%nat →
  let block := chunk ++ 1 :: replicate (16 - length chunk) 0 in
  bytes_ok block ∧ length block = 17%nat ∧ (length chunk ≠ 16%nat → nth 16 block 0 = 0) ∧
  from_le_bytes (take 16 block) = from_le_bytes chunk + (if (length chunk =? 16)%nat then 0 else 2 ^ (8 * len chunk)).
Proof.
  intros Hb Hl block. split_and!.
  - apply Forall_app. split; [done|]. constructor; [done|]. by apply Forall_replicate.
  - unfold block. rewrite length_app, length_cons, length_replicate. lia.
  - intros Hne. unfold block. rewrite app_nth2 by lia.
    destruct (16 - length chunk)%nat as [|k] eqn:Hk; [lia|]. cbn [nth]. rewrite nth_lookup.
    destruct (replicate _ _ !! k) as [x|] eqn:Hx; [|done]. by apply lookup_replicate in Hx as [-> _].
  - unfold block. destruct (Nat.eqb_spec (length chunk) 16) as [He|Hne].
    + rewrite take_app_le, take_ge by lia. lia.
    + rewrite take_app_ge by lia. replace (16 - length chunk)%nat with (S (15 - length chunk)) by lia.
      cbn [take]. rewrite from_le_bytes_app. cbn [from_le_bytes].
      rewrite take_replicate, from_le_bytes_zeros. change 256 with (2 ^ 8). rewrite <-Z.pow_mul_r by (pose proof (len_nonneg chunk); lia). lia.
Qed.

Lemma add_block_spec h chunk :
  limbs_ok h → bytes_ok chunk → (0 < length chunk ≤ 16)%nat →
  ∃ h', add_block h chunk = Ok h' ∧ limbs_added h' ∧ eval h' = eval h + block_value (2 ^ 129) chunk.
Proof.
  intros (H0 & H1 & H2 & H3 & H4) Hb Hl. unfold add_block.
  destruct (padded_block chunk Hb Hl) as (Hbb & Hbl & H16 & Hval). set (block := chunk ++ _) in *.
  rewrite le32_four in Hval by (lia || done).
  pose proof (le32_range block 0 Hbb ltac:(lia)) as T0. pose proof (le32_range block 4 Hbb ltac:(lia)) as T1.
  pose proof (le32_range block 8 Hbb ltac:(lia)) as T2. pose proof (le32_range block 12 Hbb ltac:(lia)) as T3.
  set (t0 := le32 block 0) in *. set (t1 := le32 block 4) in *. set (t2 := le32 block 8) in *. set (t3 := le32 block 12) in *.
  pose proof (join_words t0 t1 6 T0 T1 ltac:(lia)) as J1. pose proof (join_words t1 t2 12 T1 T2 ltac:(lia)) as J2.
  pose proof (join_words t2 t3 18 T2 T3 ltac:(lia)) as J3.
  change (32 - 6) with 26 in J1. change (26 - 6) with 20 in J1. change (32 - 12) with 20 in J2.
  change (26 - 12) with 14 in J2. change (32 - 18) with 14 in J3. change (26 - 18) with 8 in J3.
  rewrite J1, J2, J3, land_mask, Z.shiftr_div_pow2 by lia. clear J1 J2 J3.
  assert (0 ≤ t3 / 2 ^ 8 < 2 ^ 24) as T3' by (Z.to_euclidean_division_equations; lia).
  assert (Z.lor (t3 / 2 ^ 8) (Z.shiftl 1 24) = t3 / 2 ^ 8 + 2 ^ 24) as Hor.
  { rewrite Z.shiftl_mul_pow2 by lia. rewrite lor_shifted by lia. lia. }
  assert (∀ x k, x = 0 → shl 32 x k = 0) as Hshl by (intros x k ->; unfold shl; by rewrite Z.shiftl_0_l).
  unfold block_value, eval, limbs_added. destruct (Nat.eqb_spec (length chunk) 16) as [Heq|Hne].
  - rewrite Hor. rewrite !add_Ok by (unfold in_u; Z.to_euclidean_division_equations; lia). cbn [mbind outcome_bind].
    eexists. split; [done|]. cbn [l0 l1 l2 l3 l4].
    assert (wsub 32 (wadd 32 (l4 h + (t3 / 2 ^ 8 + 2 ^ 24)) (t3 / 2 ^ 8 + 2 ^ 24)) (t3 / 2 ^ 8) = l4 h + t3 / 2 ^ 8 + 2 ^ 25) as ->.
    { unfold wsub, wadd, wrap. rewrite Zminus_mod_idemp_l, Z.mod_small by lia. lia. }
    Z.to_euclidean_division_equations. lia.
  - rewrite (Hshl _ _ (H16 Hne)), Z.lor_0_r.
    rewrite !add_Ok by (unfold in_u; Z.to_euclidean_division_equations; lia). cbn [mbind outcome_bind].
    eexists. split; [done|]. cbn [l0 l1 l2 l3 l4]. rewrite Z.add_assoc. rewrite <-Z.add_assoc, <-Hval.
    Z.to_euclidean_division_equations. lia.
Qed.

(** ** Multiplication of limbs *)

Definition r_ok (r : limbs) : Prop :=
  0 ≤ l0 r < 2 ^ 26 ∧ 0 ≤ l1 r < 2 ^ 26 ∧ 0 ≤ l2 r < 2 ^ 26 ∧ 0 ≤ l3 r < 2 ^ 26 ∧ 0 ≤ l4 r < 2 ^ 20.
Definition five_times (r s : limbs) : Prop :=
  l1 s = l1 r * 5 ∧ l2 s = l2 r * 5 ∧ l3 s = l3 r * 5 ∧ l4 s = l4 r * 5.

Lemma carry_limbs_spec d0 d1 d2 d3 d4 :
  0 ≤ d0 < 2 ^ 58 - 2 ^ 33 → 0 ≤ d1 < 2 ^ 58 - 2 ^ 33 → 0 ≤ d2 < 2 ^ 58 - 2 ^ 33 → 0 ≤ d3 < 2 ^ 58 - 2 ^ 33 →
  0 ≤ d4 < 2 ^ 55 + 2 ^ 52 →
  ∃ h, carry_limbs d0 d1 d2 d3 d4 = Ok h ∧ limbs_ok h ∧
  ∃ q, eval h = d0 + 2 ^ 26 * d1 + 2 ^ 52 * d2 + 2 ^ 78 * d3 + 2 ^ 104 * d4 - q * P1305.
Proof.
  intros D0 D1 D2 D3 D4. unfold carry_limbs.
  assert (∀ x, 0 ≤ x < 2 ^ 58 → as_u32 (Z.shiftr x 26) = x / 2 ^ 26) as Hc.
  { intros x Hx. rewrite shr26. apply wrap_id. unfold in_u. Z.to_euclidean_division_equations. lia. }
  assert (∀ x, Z.land (as_u32 x) MASK26 = x mod 2 ^ 26) as Hm.
  { intros x. rewrite land_mask. unfold as_u32, wrap. apply Z.mod_mod_divide. by exists (2 ^ 6). }
  rewrite Hc, !Hm by lia.
  rewrite (add_Ok 64 d1) by (unfold in_u; Z.to_euclidean_division_equations; lia). cbn [mbind outcome_bind].
  set (e1 := d1 + d0 / 2 ^ 26). assert (0 ≤ e1 < 2 ^ 58) as E1 by (subst e1; Z.to_euclidean_division_equations; lia).
  rewrite Hc, !Hm by lia.
  rewrite (add_Ok 64 d2) by (unfold in_u; Z.to_euclidean_division_equations; lia). cbn [mbind outcome_bind].
  set (e2 := d2 + e1 / 2 ^ 26). assert (0 ≤ e2 < 2 ^ 58) as E2 by (subst e2; Z.to_euclidean_division_equations; lia).
  rewrite Hc, !Hm by lia.
  rewrite (add_Ok 64 d3) by (unfold in_u; Z.to_euclidean_division_equations; lia). cbn [mbind outcome_bind].
  set (e3 := d3 + e2 / 2 ^ 26). assert (0 ≤ e3 < 2 ^ 58) as E3 by (subst e3; Z.to_euclidean_division_equations; lia).
  rewrite Hc, !Hm by lia.
  rewrite (add_Ok 64 d4) by (unfold in_u; Z.to_euclidean_division_equations; lia). cbn [mbind outcome_bind].
  set (e4 := d4 + e3 / 2 ^ 26). assert (0 ≤ e4 < 2 ^ 55 + 2 ^ 53) as E4 by (subst e4; Z.to_euclidean_division_equations; lia).
  rewrite Hc, !Hm by lia.
  rewrite mul_Ok by (unfold in_u; Z.to_euclidean_division_equations; lia). cbn [mbind outcome_bind].
  rewrite add_Ok by (unfold in_u; Z.to_euclidean_division_equations; lia). cbn [mbind outcome_bind].
  set (f := d0 mod 2 ^ 26 + e4 / 2 ^ 26 * 5). assert (0 ≤ f < 2 ^ 32) as F by (subst f; Z.to_euclidean_division_equations; lia).
  rewrite land_mask, shr26.
  rewrite add_Ok by (unfold in_u; Z.to_euclidean_division_equations; lia). cbn [mbind outcome_bind].
  eexists. split; [done|]. unfold limbs_ok, eval. cbn [l0 l1 l2 l3 l4]. split.
  - clear Hc Hm. clearbody e1 e2 e3 e4 f. Z.to_euclidean_division_equations. lia.
  - exists (e4 / 2 ^ 26). unfold P1305. subst f.
    pose proof (Z.div_mod d0 (2 ^ 26) ltac:(lia)). pose proof (Z.div_mod e1 (2 ^ 26) ltac:(lia)).
    pose proof (Z.div_mod e2 (2 ^ 26) ltac:(lia)). pose proof (Z.div_mod e3 (2 ^ 26) ltac:(lia)).
    pose proof (Z.div_mod e4 (2 ^ 26) ltac:(lia)).
    pose proof (Z.div_mod (d0 mod 2 ^ 26 + e4 / 2 ^ 26 * 5) (2 ^ 26) ltac:(lia)). lia.
Qed.

Lemma mul_limbs_spec h r s :
  limbs_added h → r_ok r → five_times r s →
  ∃ h', mul_limbs h r s = Ok h' ∧ limbs_ok h' ∧ eval h' mod P1305 = (eval h * eval r) mod P1305.
Proof.
  destruct h as [h0 h1 h2 h3 h4], r as [r0 r1 r2 r3 r4], s as [s0 s1 s2 s3 s4].
  intros (H0 & H1 & H2 & H3 & H4) (R0 & R1 & R2 & R3 & R4) (S1 & S2 & S3 & S4). cbn [l0 l1 l2 l3 l4] in *.
  subst s1 s2 s3 s4. unfold mul_limbs. cbn [l0 l1 l2 l3 l4].
  assert (0 ≤ r1 * 5 < 5 * 2 ^ 26 ∧ 0 ≤ r2 * 5 < 5 * 2 ^ 26 ∧ 0 ≤ r3 * 5 < 5 * 2 ^ 26 ∧ 0 ≤ r4 * 5 < 5 * 2 ^ 20) as (S1 & S2 & S3 & S4) by lia.
  set (K := h1 * r4 + h2 * r3 + h3 * r2 + h4 * r1 + 2 ^ 26 * (h2 * r4 + h3 * r3 + h4 * r2)
            + 2 ^ 52 * (h3 * r4 + h4 * r3) + 2 ^ 78 * (h4 * r4)).
  destruct (products5 64 _ _ _ _ _ _ _ _ _ _ _ _ _ _ _ (2 ^ 58 - 2 ^ 33) (mul_bound _ _ _ _ H0 R0) (mul_bound _ _ _ _ H1 S4) (mul_bound _ _ _ _ H2 S3) (mul_bound _ _ _ _ H3 S2) (mul_bound _ _ _ _ H4 S1)) as [E0 D0]; [by vm_compute..|].
  destruct (products5 64 _ _ _ _ _ _ _ _ _ _ _ _ _ _ _ (2 ^ 58 - 2 ^ 33) (mul_bound _ _ _ _ H0 R1) (mul_bound _ _ _ _ H1 R0) (mul_bound _ _ _ _ H2 S4) (mul_bound _ _ _ _ H3 S3) (mul_bound _ _ _ _ H4 S2)) as [E1 D1]; [by vm_compute..|].
  destruct (products5 64 _ _ _ _ _ _ _ _ _ _ _ _ _ _ _ (2 ^ 58 - 2 ^ 33) (mul_bound _ _ _ _ H0 R2) (mul_bound _ _ _ _ H1 R1) (mul_bound _ _ _ _ H2 R0) (mul_bound _ _ _ _ H3 S4) (mul_bound _ _ _ _ H4 S3)) as [E2 D2]; [by vm_compute..|].
  destruct (products5 64 _ _ _ _ _ _ _ _ _ _ _ _ _ _ _ (2 ^ 58 - 2 ^ 33) (mul_bound _ _ _ _ H0 R3) (mul_bound _ _ _ _ H1 R2) (mul_bound _ _ _ _ H2 R1) (mul_bound _ _ _ _ H3 R0) (mul_bound _ _ _ _ H4 S4)) as [E3 D3]; [by vm_compute..|].
  destruct (products5 64 _ _ _ _ _ _ _ _ _ _ _ _ _ _ _ (2 ^ 55 + 2 ^ 52) (mul_bound _ _ _ _ H0 R4) (mul_bound _ _ _ _ H1 R3) (mul_bound _ _ _ _ H2 R2) (mul_bound _ _ _ _ H3 R1) (mul_bound _ _ _ _ H4 R0)) as [E4 D4]; [by vm_compute..|].
  rewrite E0, E1, E2, E3, E4. cbn [mbind outcome_bind].
  destruct (carry_limbs_spec _ _ _ _ _ D0 D1 D2 D3 D4) as (h' & -> & Hok & q & Hq).
  exists h'. split_and!; [done..|]. rewrite Hq. unfold eval. cbn [l0 l1 l2 l3 l4].
  rewrite <-(Z.mod_add _ (q + K)) by done. f_equal. subst K. unfold P1305. ring.
Qed.

(** ** The final reduction *)

Definition canonical (h : limbs) : Prop :=
  0 ≤ l0 h < 2 ^ 26 ∧ 0 ≤ l1 h < 2 ^ 26 ∧ 0 ≤ l2 h < 2 ^ 26 ∧ 0 ≤ l3 h < 2 ^ 26 ∧ 0 ≤ l4 h < 2 ^ 26.

Lemma final_carry_spec h :
  limbs_ok h → ∃ h', final_carry h = Ok h' ∧ canonical h' ∧ ∃ q, eval h' = eval h - q * P1305.
Proof.
  destruct h as [h0 h1 h2 h3 h4]. intros (H0 & H1 & H2 & H3 & H4). cbn [l0 l1 l2 l3 l4] in *.
  unfold final_carry. cbn [l0 l1 l2 l3 l4]. rewrite !land_mask, !shr26.
  set (c1 := h1 / 2 ^ 26). assert (0 ≤ c1 ≤ 1) as C1 by (subst c1; Z.to_euclidean_division_equations; lia).
  rewrite (add_Ok 32 h2) by (unfold in_u; lia). cbn [mbind outcome_bind]. rewrite !land_mask, !shr26.
  set (c2 := (h2 + c1) / 2 ^ 26). assert (0 ≤ c2 ≤ c1) as C2 by (subst c2; Z.to_euclidean_division_equations; lia).
  rewrite (add_Ok 32 h3) by (unfold in_u; lia). cbn [mbind outcome_bind]. rewrite !land_mask, !shr26.
  set (c3 := (h3 + c2) / 2 ^ 26). assert (0 ≤ c3 ≤ c2) as C3 by (subst c3; Z.to_euclidean_division_equations; lia).
  rewrite (add_Ok 32 h4) by (unfold in_u; lia). cbn [mbind outcome_bind]. rewrite !land_mask, !shr26.
  set (c4 := (h4 + c3) / 2 ^ 26). assert (0 ≤ c4 ≤ c3) as C4 by (subst c4; Z.to_euclidean_division_equations; lia).
  rewrite mul_Ok by (unfold in_u; lia). cbn [mbind outcome_bind].
  rewrite add_Ok by (unfold in_u; lia). cbn [mbind outcome_bind]. rewrite !land_mask, !shr26.
  set (c0 := (h0 + c4 * 5) / 2 ^ 26). assert (0 ≤ c0 ≤ c4) as C0 by (subst c0; Z.to_euclidean_division_equations; lia).
  divide 26 h1 c1.
  divide 26 (h2 + c1) c2.
  divide 26 (h3 + c2) c3.
  divide 26 (h4 + c3) c4.
  divide 26 (h0 + c4 * 5) c0.
  rewrite add_Ok by (unfold in_u; lia). cbn [mbind outcome_bind]. eexists. split; [done|].
  unfold canonical, eval. cbn [l0 l1 l2 l3 l4]. split; [lia|]. exists c4. unfold P1305. lia.
Qed.

Lemma select_none a b : in_u 32 a → select 0 a b = a.
Proof.
  intros Ha. unfold select. rewrite Z.land_0_r, Z.lor_0_r. change (bnot 32 0) with (Z.ones 32).
  rewrite Z.land_ones by lia. by apply Z.mod_small.
Qed.

Lemma select_all a b : in_u 32 b → select (2 ^ 32 - 1) a b = b.
Proof.
  intros Hb. unfold select. change (bnot 32 (2 ^ 32 - 1)) with 0. rewrite Z.land_0_r, Z.lor_0_l.
  change (2 ^ 32 - 1) with (Z.ones 32). rewrite Z.land_ones by lia. by apply Z.mod_small.
Qed.

Lemma subtract_p_spec h : canonical h → canonical (subtract_p h) ∧ eval (subtract_p h) = eval h mod P1305.
Proof.
  destruct h as [h0 h1 h2 h3 h4]. intros (H0 & H1 & H2 & H3 & H4). cbn [l0 l1 l2 l3 l4] in *.
  unfold subtract_p. cbn [l0 l1 l2 l3 l4]. cbv zeta. rewrite !land_mask, !shr26.
  assert (∀ x y, 0 ≤ x < 2 ^ 26 → 0 ≤ y ≤ 5 → wadd 32 x y = x + y) as Hw.
  { intros. unfold wadd, wrap. apply Z.mod_small. lia. }
  rewrite (Hw h0 5) by lia.
  set (c0 := (h0 + 5) / 2 ^ 26). assert (0 ≤ c0 ≤ 1) as C0 by (subst c0; Z.to_euclidean_division_equations; lia). rewrite (Hw h1 c0) by lia.
  set (c1 := (h1 + c0) / 2 ^ 26). assert (0 ≤ c1 ≤ 1) as C1 by (subst c1; Z.to_euclidean_division_equations; lia). rewrite (Hw h2 c1) by lia.
  set (c2 := (h2 + c1) / 2 ^ 26). assert (0 ≤ c2 ≤ 1) as C2 by (subst c2; Z.to_euclidean_division_equations; lia). rewrite (Hw h3 c2) by lia.
  set (c3 := (h3 + c2) / 2 ^ 26). assert (0 ≤ c3 ≤ 1) as C3 by (subst c3; Z.to_euclidean_division_equations; lia). rewrite (Hw h4 c3) by lia.
  divide 26 (h0 + 5) c0.
  divide 26 (h1 + c0) c1.
  divide 26 (h2 + c1) c2.
  divide 26 (h3 + c2) c3.
  change (Z.shiftl 1 26) with (2 ^ 26). unfold canonical, eval.
  destruct (Z_lt_le_dec (h4 + c3) (2 ^ 26)) as [Hlt|Hge].
  - assert (wsub 32 (Z.shiftr (wsub 32 (h4 + c3) (2 ^ 26)) 31) 1 = 0) as ->.
    { unfold wsub at 2. unfold wrap. rewrite <-(Z.mod_add _ 1), Z.mod_small, Z.shiftr_div_pow2 by lia.
      replace ((h4 + c3 - 2 ^ 26 + 1 * 2 ^ 32) / 2 ^ 31) with 1 by (Z.to_euclidean_division_equations; lia). done. }
    cbn [l0 l1 l2 l3 l4]. rewrite !select_none by (unfold in_u; lia). split; [lia|]. symmetry. apply Z.mod_small. unfold P1305. lia.
  - assert (h4 + c3 - 2 ^ 26 = 0) as Hz by lia.
    assert (wsub 32 (h4 + c3) (2 ^ 26) = 0) as -> by (unfold wsub; by rewrite Hz).
    change (wsub 32 (Z.shiftr 0 31) 1) with (2 ^ 32 - 1).
    cbn [l0 l1 l2 l3 l4]. rewrite !select_all by (unfold in_u; lia). split; [lia|].
    apply (Z.mod_unique_pos _ _ 1); unfold P1305; lia.
Qed.

(** ** Keys *)

Lemma land_mod x j m : 0 ≤ j → 0 ≤ m < 2 ^ j → Z.land (x mod 2 ^ j) m = Z.land x m.
Proof.
  intros Hj Hm. rewrite <-Z.land_ones, <-Z.land_assoc by done. f_equal.
  rewrite Z.land_comm, Z.land_ones by done. by apply Z.mod_small.
Qed.

Lemma land_split x k a b :
  0 ≤ x → 0 ≤ k → 0 ≤ a < 2 ^ k → 0 ≤ b → Z.land x (a + 2 ^ k * b) = Z.land x a + 2 ^ k * Z.land (x / 2 ^ k) b.
Proof.
  intros Hx Hk Ha Hb. rewrite (Z.mul_comm _ b), <-lor_shifted, Z.land_lor_distr_r by done.
  assert (Z.land x (b * 2 ^ k) = Z.land (x / 2 ^ k) b * 2 ^ k) as ->.
  { rewrite <-!Z.shiftl_mul_pow2, <-Z.shiftr_div_pow2 by done. apply Z.bits_inj'. intros i Hi.
    rewrite Z.land_spec. destruct (Z_lt_le_dec i k).
    - by rewrite !Z.shiftl_spec_low, andb_false_r by done.
    - rewrite !Z.shiftl_spec, Z.land_spec, Z.shiftr_spec by lia. do 2 f_equal. lia. }
  rewrite lor_shifted; [lia|done|]. rewrite Z.land_comm. by apply in_u_land.
Qed.

(** The clamped key of RFC 8439. *)
Definition CLAMP : Z := 0x0ffffffc0ffffffc0ffffffc0fffffff.
Definition r_of (k : list Z) : Z := Z.land (from_le_bytes (take 16 k)) CLAMP.
Definition s_of (k : list Z) : Z := from_le_bytes (take 16 (drop 16 k)).

Lemma parse_r_spec k : bytes_ok k → length k = 32%nat → r_ok (parse_r k) ∧ eval (parse_r k) = r_of k.
Proof.
  intros Hb Hl. unfold parse_r, r_of. rewrite !le32_bits by (lia || done).
  pose proof (from_le_bytes_range (take 16 k) ltac:(by apply Forall_take)) as [HN _].
  generalize dependent (from_le_bytes (take 16 k)). intros N HN.
  change (8 * Z.of_nat 0) with 0. change (8 * Z.of_nat 3) with 24. change (8 * Z.of_nat 6) with 48.
  change (8 * Z.of_nat 9) with 72. change (8 * Z.of_nat 12) with 96. rewrite !Z.shiftr_div_pow2 by lia.
  assert (∀ i j, 0 ≤ i → 0 ≤ j ≤ 32 → (N / 2 ^ i mod 2 ^ 32) / 2 ^ j = N / 2 ^ (i + j) mod 2 ^ (32 - j)) as Hdiv.
  { intros i j Hi Hj. rewrite Z.pow_add_r, <-Z.div_div by (try apply Z.pow_nonzero; try apply pow2_pos; lia).
    replace (2 ^ 32) with (2 ^ j * 2 ^ (32 - j)) by (rewrite <-Z.pow_add_r by lia; f_equal; lia).
    pose proof (pow2_pos j ltac:(lia)). pose proof (pow2_pos (32 - j) ltac:(lia)).
    rewrite Z.rem_mul_r by lia. rewrite (Z.mul_comm (2 ^ j)), Z.div_add, Z.div_small by (try lia; apply Z.mod_pos_bound; lia). lia. }
  rewrite !Hdiv, !land_mod by (lia || by vm_compute). cbn [Z.add Pos.add Pos.succ]. split.
  - unfold r_ok. cbn [l0 l1 l2 l3 l4].
    assert (∀ i m j, 0 ≤ m < 2 ^ j → 0 ≤ i → 0 ≤ j → 0 ≤ Z.land (N / 2 ^ i) m < 2 ^ j) as Hr.
    { intros i m j Hm Hi Hj. rewrite Z.land_comm. apply in_u_land; [done|done|]. apply Z.div_pos; [done|by apply pow2_pos]. }
    refine (conj (Hr _ _ _ _ _ _) (conj (Hr _ _ _ _ _ _) (conj (Hr _ _ _ _ _ _) (conj (Hr _ _ _ _ _ _) (Hr _ _ _ _ _ _))))); by vm_compute.
  - unfold eval. cbn [l0 l1 l2 l3 l4].
    change CLAMP with (0x03ffffff + 2 ^ 26 * (0x03ffff03 + 2 ^ 26 * (0x03ffc0ff + 2 ^ 26 * (0x03f03fff + 2 ^ 26 * 0x000fffff)))).
    rewrite !land_split by (try apply Z.div_pos; try apply Z.div_pos; try apply Z.div_pos; lia || done).
    rewrite !Z.div_div by lia. rewrite <-!Z.pow_add_r by lia. cbn [Z.add Pos.add Pos.succ Pos.add_carry].
    rewrite Z.div_1_r. change (24 + 2) with 26. change (48 + 4) with 52. change (72 + 6) with 78. change (96 + 8) with 104.
    change (26 + 26 + 26 + 26) with 104. change (26 + 26 + 26) with 78. change (26 + 26) with 52. lia.
Qed.

(** ** The tag *)

Lemma le32_drop k i j : j = (16 + i)%nat → le32 k j = le32 (drop 16 k) i.
Proof. intros ->. unfold le32. by rewrite drop_drop. Qed.

Lemma finish_spec h k :
  canonical h → bytes_ok k → length k = 32%nat →
  finish h k = Ok (to_le_bytes 16 ((eval h + s_of k) mod 2 ^ 128)).
Proof.
  destruct h as [h0 h1 h2 h3 h4]. intros (H0 & H1 & H2 & H3 & H4) Hb Hl. cbn [l0 l1 l2 l3 l4] in *.
  unfold finish, s_of. cbn [l0 l1 l2 l3 l4]. cbv zeta.
  rewrite (le32_drop k 0 16), (le32_drop k 4 20), (le32_drop k 8 24), (le32_drop k 12 28) by done.
  assert (bytes_ok (drop 16 k)) as Hb' by (by apply Forall_drop).
  assert (length (drop 16 k) = 16%nat) as Hl' by (rewrite length_drop; lia).
  rewrite le32_four by (lia || done).
  pose proof (le32_range (drop 16 k) 0 Hb' ltac:(lia)) as T0. pose proof (le32_range (drop 16 k) 4 Hb' ltac:(lia)) as T1.
  pose proof (le32_range (drop 16 k) 8 Hb' ltac:(lia)) as T2. pose proof (le32_range (drop 16 k) 12 Hb' ltac:(lia)) as T3.
  set (t0 := le32 _ 0) in *. set (t1 := le32 _ 4) in *. set (t2 := le32 _ 8) in *. set (t3 := le32 _ 12) in *.
  clearbody t0 t1 t2 t3. clear Hb Hl Hb' Hl'.
  set (f0 := as_u32 _). assert (in_u 32 f0) as F0 by (apply wrap_range; lia). set (f := Z.lor (Z.shiftr h1 6) _).
  assert (in_u 46 f) as F.
  { subst f. rewrite (shl_small 64 h2 20 26), Z.shiftr_div_pow2 by lia. apply in_u_lor; [lia| |unfold in_u; lia].
    unfold in_u. Z.to_euclidean_division_equations. lia. }
  clearbody f0 f. unfold in_u in *. rewrite (add_Ok 64 f0) by (unfold in_u; lia). cbn [mbind outcome_bind].
  assert (0 ≤ Z.shiftr (f0 + t0) 32 ≤ 1) as Hc by (rewrite Z.shiftr_div_pow2 by lia; Z.to_euclidean_division_equations; lia).
  rewrite add_Ok by (unfold in_u; lia). cbn [mbind outcome_bind]. rewrite add_Ok by (unfold in_u; lia). cbn [mbind outcome_bind].
  f_equal. f_equal. rewrite (shl_small 128 t1 32 32), (shl_small 128 t2 64 32), (shl_small 128 t3 96 32) by lia.
  rewrite (shl_small 128 h1 26 26), (shl_small 128 h2 52 26), (shl_small 128 h3 78 26) by lia.
  rewrite (lor_shifted t0), (lor_shifted (t0 + _)), (lor_shifted (t0 + _ + _)) by lia.
  rewrite (lor_shifted h0), (lor_shifted (h0 + _)), (lor_shifted (h0 + _ + _)) by lia.
  assert (shl 128 h4 104 = (h4 mod 2 ^ 24) * 2 ^ 104) as ->.
  { unfold shl, wrap. rewrite Z.shiftl_mul_pow2 by lia. change (2 ^ 128) with (2 ^ 24 * 2 ^ 104). by rewrite Zmult_mod_distr_r. }
  rewrite lor_shifted by lia. unfold eval, wadd, wrap. cbn [l0 l1 l2 l3 l4].
  replace (h0 + 2 ^ 26 * h1 + 2 ^ 52 * h2 + 2 ^ 78 * h3 + 2 ^ 104 * h4 + (t0 + 2 ^ 32 * t1 + 2 ^ 64 * t2 + 2 ^ 96 * t3))
    with (h0 + h1 * 2 ^ 26 + h2 * 2 ^ 52 + h3 * 2 ^ 78 + h4 mod 2 ^ 24 * 2 ^ 104 + (t0 + t1 * 2 ^ 32 + t2 * 2 ^ 64 + t3 * 2 ^ 96)
      + (h4 / 2 ^ 24) * 2 ^ 128).
  - by rewrite Z.mod_add.
  - pose proof (Z.div_mod h4 (2 ^ 24)). lia.
Qed.

(** Poly1305 as RFC 8439 defines it, with [full] for the bit above a full block:
    the polynomial in [r] of the blocks modulo [2^130 - 5], plus [s]. *)
Definition poly1305 (full : Z) (k data : list Z) : list Z :=
  let acc := fold_left (λ a b, ((a + block_value full b) * r_of k) mod P1305) (chunks 16 data) 0 in
  to_le_bytes 16 ((acc + s_of k) mod 2 ^ 128).

Lemma poly_blocks r s k h acc l :
  r_ok r → five_times r s → eval r = r_of k → limbs_ok h → eval h mod P1305 = acc mod P1305 →
  Forall (λ b, bytes_ok b ∧ (0 < length b ≤ 16)%nat) l →
  ∃ h', fold_m (poly_block r s) h l = Ok h' ∧ limbs_ok h' ∧
    eval h' mod P1305 = fold_left (λ a b, ((a + block_value (2 ^ 129) b) * r_of k) mod P1305) l acc mod P1305.
Proof.
  intros Hr Hs Hk Hh Ha Hl. revert h acc Hh Ha. induction Hl as [|b l [Hb Hbl] _ IH]; intros h acc Hh Ha; [by exists h|].
  cbn [fold_m fold_left]. unfold poly_block at 2.
  destruct (add_block_spec h b Hh Hb Hbl) as (h1 & -> & Hh1 & He1). cbn [mbind outcome_bind].
  destruct (mul_limbs_spec h1 r s Hh1 Hr Hs) as (h2 & -> & Hh2 & He2). cbn [mbind outcome_bind].
  apply IH; [done|]. rewrite He2, He1, Hk, Zmod_mod. rewrite <-(Z.mul_mod_idemp_l (eval h + _)) by done.
  rewrite <-(Z.add_mod_idemp_l (eval h)), Ha by done. by rewrite Z.add_mod_idemp_l, Z.mul_mod_idemp_l.
Qed.

Lemma chunks_lengths (l : list Z) : bytes_ok l → Forall (λ b, bytes_ok b ∧ (0 < length b ≤ 16)%nat) (chunks 16 l).
Proof.
  unfold chunks. generalize (length l). intros f. revert l. induction f as [|f IH]; intros [|x l] Hl; try by constructor.
  cbn [chunks_go]. constructor; [split; [by apply Forall_take|rewrite length_take, length_cons; lia]|]. by apply IH, Forall_drop.
Qed.

Lemma poly1305_mac_spec k data :
  bytes_ok k → length k = 32%nat → bytes_ok data → poly1305_mac k data = Ok (poly1305 (2 ^ 129) k data).
Proof.
  intros Hk Hl Hd. unfold poly1305_mac. destruct (parse_r_spec k Hk Hl) as [Hr He]. pose proof Hr as (R0 & R1 & R2 & R3 & R4).
  rewrite !mul_Ok by (unfold in_u; lia). cbn [mbind outcome_bind]. set (s := {| l0 := 0; l1 := _ |}).
  destruct (poly_blocks (parse_r k) s k {| l0 := 0; l1 := 0; l2 := 0; l3 := 0; l4 := 0 |} 0 (chunks 16 data)) as (h & -> & Hh & Hv);
    [done..|by apply chunks_lengths|].
  cbn [mbind outcome_bind]. destruct (final_carry_spec h Hh) as (h' & -> & Hc & q & Hq). cbn [mbind outcome_bind].
  destruct (subtract_p_spec h' Hc) as [Hc' Hv']. rewrite finish_spec by done. unfold poly1305. do 4 f_equal.
  rewrite Hv', Hq, <-(Z.mod_add _ q) by done. replace (eval h - q * P1305 + q * P1305) with (eval h) by lia. rewrite Hv.
  destruct (chunks 16 data) as [|b l] using rev_ind; [done|]. rewrite fold_left_app. cbn [fold_left]. by rewrite Zmod_mod.
Qed.

(** ** The authenticated cipher *)

Lemma poly_key_ok key nonce :
  let k := take 32 (chacha20_block key 0 nonce) in bytes_ok k ∧ length k = 32%nat.
Proof.
  destruct (chacha20_block_ok key 0 nonce) as [Hl Hb]. split; [by apply Forall_take|]. rewrite length_take. lia.
Qed.

Lemma construct_ok aad ct : bytes_ok aad → bytes_ok ct → bytes_ok (construct_poly1305_data aad ct).
Proof.
  intros Ha Hc. unfold construct_poly1305_data, bytes_ok. rewrite !Forall_app.
  split_and!; done || by apply Forall_replicate || apply to_le_bytes_ok.
Qed.

Lemma poly1305_block_ok full k data : block_ok (poly1305 full k data).
Proof. split; [apply length_to_le_bytes|apply to_le_bytes_ok]. Qed.

#[local] Opaque poly1305.

(** The tag of a ciphertext. *)
Definition aead_tag (key nonce aad ct : list Z) : list Z :=
  poly1305 (2 ^ 129) (take 32 (chacha20_block key 0 nonce)) (construct_poly1305_data aad ct).

Lemma seal_eq key nonce aad pt :
  bytes_ok aad → bytes_ok pt →
  chacha20_poly1305_seal key nonce aad pt
  = Ok (chacha20_crypt key 1 nonce pt, aead_tag key nonce aad (chacha20_crypt key 1 nonce pt)).
Proof.
  intros Ha Hp. unfold chacha20_poly1305_seal. destruct (poly_key_ok key nonce) as [Hk Hl].
  rewrite poly1305_mac_spec; [done|done|done|]. apply construct_ok; [done|]. by apply chacha20_crypt_twice.
Qed.

Lemma open_eq key nonce aad ct tag :
  bytes_ok aad → bytes_ok ct → block_ok tag →
  chacha20_poly1305_open key nonce aad ct tag
  = Ok (if decide (tag = aead_tag key nonce aad ct) then Some (chacha20_crypt key 1 nonce ct) else None).
Proof.
  intros Ha Hp [Htl Htb]. unfold chacha20_poly1305_open. destruct (poly_key_ok key nonce) as [Hk Hl].
  rewrite poly1305_mac_spec; [|exact Hk|exact Hl|by apply construct_ok]. cbn [mbind outcome_bind]. fold (aead_tag key nonce aad ct).
  destruct (poly1305_block_ok (2 ^ 129) (take 32 (chacha20_block key 0 nonce)) (construct_poly1305_data aad ct)) as [Hal Hab].
  pose proof (tag_diff_0 (aead_tag key nonce aad ct) tag ltac:(unfold aead_tag; lia) Hab Htb) as Hd.
  destruct (Z.eqb_spec (tag_diff (aead_tag key nonce aad ct) tag) 0) as [E|E]; cbn [negb].
  - apply Hd in E as <-. by rewrite decide_True.
  - rewrite decide_False; [done|]. intros ->. by apply E, Hd.
Qed.

#[export] Instance chacha20_poly1305_aead : Aead 32 chacha20_poly1305_seal chacha20_poly1305_open.
Proof.
  split; intros key nonce aad m _ _ _ _ Ha Hm _ _; destruct (chacha20_crypt_twice key 1 nonce m Hm) as (Hl & Hb & Hback).
  - rewrite seal_eq by done. eexists _, _. split_and!; [done..|apply poly1305_block_ok|].
    rewrite open_eq by (done || apply poly1305_block_ok). by rewrite decide_True, Hback.
  - exists (aead_tag key nonce aad m), (chacha20_crypt key 1 nonce m). split_and!; [apply poly1305_block_ok|done..| |].
    + by rewrite seal_eq, Hback.
    + intros tag Htag. by apply open_eq.
Qed.

(** C16. The three authenticated ciphers do what [Aead] says: for every key, nonce,
    message and additional data of less than 2^61 bytes each, opening a sealed message with its tag returns the message, a
    ciphertext is as long as the message, and opening any ciphertext with a tag
    other than the one that belongs to it returns nothing. *)
Theorem aead_correct :
  Aead 16 aes128_gcm_seal aes128_gcm_open ∧ Aead 32 aes256_gcm_seal aes256_gcm_open ∧
  Aead 32 chacha20_poly1305_seal chacha20_poly1305_open.
Proof. split_and!; apply _. Qed.

#[local] Transparent poly1305.

(** C17. The limbs of [poly1305_mac] compute a polynomial: for every key of 32 bytes and
    every message nothing overflows, and the tag is the polynomial of the blocks in
    the clamped key modulo [2^130 - 5] plus the second half of the key, modulo
    [2^128].  A full block counts as its number plus [2^129]; messages shorter than
    a block get the tag of RFC 8439. *)
Theorem poly1305_evaluates k data :
  bytes_ok k → length k = 32%nat → bytes_ok data →
  poly1305_mac k data = Ok (poly1305 (2 ^ 129) k data) ∧
  (len data < 16 → poly1305_mac k data = Ok (poly1305 (2 ^ 128) k data)).
Proof.
  intros Hk Hl Hd. rewrite poly1305_mac_spec by done. split; [done|]. intros Hlt. f_equal.
  destruct data as [|x data]; [done|]. unfold poly1305. rewrite chunks_short by (unfold len in *; simpl in *; lia).
  cbn [fold_left]. unfold block_value.
  destruct (Nat.eqb_spec (length (x :: data)) 16) as [He|_]; [unfold len in *; rewrite He in Hlt; lia|done].
Qed.

(** The example of RFC 8439, section 2.5.2. *)
Definition rfc_key : list Z := to_be_bytes 32 0x85d6be7857556d337f4452fe42d506a80103808afb0db2fd4abff6af4149f51b.
Definition rfc_message : list Z := to_be_bytes 34 0x43727970746f6772617068696320466f72756d2052657365617263682047726f7570.

Lemma poly1305_evaluates_witness :
  poly1305_mac rfc_key rfc_message = Ok (poly1305 (2 ^ 129) rfc_key rfc_message).
Proof.
  apply (poly1305_evaluates rfc_key rfc_message); [apply to_be_bytes_ok|done|apply to_be_bytes_ok].
Defined.

(** ** What goes wrong at the edges

    The bit above a full block is added twice (lines 228 and 241), so that the tag
    of every message of sixteen bytes or more differs from the one of RFC 8439: here
    is the example of section 2.5.2, with the tag of the code and the right one. *)
Lemma poly1305_is_not_rfc8439 :
  poly1305_mac rfc_key rfc_message = Ok (to_be_bytes 16 0x91bff77b1155915c9424e58400a35192) ∧
  poly1305 (2 ^ 128) rfc_key rfc_message = to_be_bytes 16 0xa8061dc1305136c6c22b8baf0c0127a9.
Proof. by vm_compute. Qed.

(** The keystream is the one of section 2.3.2. *)
Lemma chacha20_block_rfc8439 :
  chacha20_block (seqZ 0 32) 1 (to_be_bytes 12 0x000000090000004a00000000) = to_be_bytes 64
    0x10f1e7e4d13b5915500fdd1fa32071c4c7d1f4c733c068030422aa9ac3d46c4ed2826446079faa0914c2d705d98b02a2b5129cd1de164eb9cbd083e8a2503c4e.
Proof. by vm_compute. Qed.
