(* ===== verification/X25519.v ===== *)
(** * X25519

    [net/crypto/x25519.rs]: arithmetic modulo [2^255 - 19] on five limbs of 51 bits
    and the Montgomery ladder.  Multiplication, addition, reduction and the encodings
    compute what they should, without overflow.  Subtraction and inversion do not,
    as the last section shows. *)

From stdpp Require Import base numbers list.
From S2P Require Import Prelude.
From S2P Require Import Bytes.

(** ** Field elements *)

Record Fe := { f0 : Z; f1 : Z; f2 : Z; f3 : Z; f4 : Z }.

Definition FE_ZERO : Fe := {| f0 := 0; f1 := 0; f2 := 0; f3 := 0; f4 := 0 |}.
Definition FE_ONE : Fe := {| f0 := 1; f1 := 0; f2 := 0; f3 := 0; f4 := 0 |}.
Definition REDUCE_MASK : Z := Z.shiftl 1 51 - 1.

(** [load8(&bytes[i..])] with eight bytes there. *)
Definition load8 (bytes : list Z) (i : nat) : Z := from_le_bytes (take 8 (drop i bytes)).

Definition fe_decode (bytes : list Z) : Fe :=
  {| f0 := Z.land (load8 bytes 0) REDUCE_MASK;
     f1 := Z.land (Z.shiftr (load8 bytes 6) 3) REDUCE_MASK;
     f2 := Z.land (Z.shiftr (load8 bytes 12) 6) REDUCE_MASK;
     f3 := Z.land (Z.shiftr (load8 bytes 19) 1) REDUCE_MASK;
     f4 := Z.land (Z.shiftr (load8 bytes 24) 12) REDUCE_MASK |}.

(** The carries of [fe_reduce], which [fe_mul] and [fe_mul_scalar] repeat in 128
    bits: each limb keeps 51 bits, the last carry comes back times 19. *)
Definition carry_limbs (w : Z) (r : Fe) : checked Fe :=
  let c := Z.shiftr (f0 r) 51 in
  let r0 := Z.land (f0 r) REDUCE_MASK in
  r1 ← add w (f1 r) c;
  let c := Z.shiftr r1 51 in
  let r1 := Z.land r1 REDUCE_MASK in
  r2 ← add w (f2 r) c;
  let c := Z.shiftr r2 51 in
  let r2 := Z.land r2 REDUCE_MASK in
  r3 ← add w (f3 r) c;
  let c := Z.shiftr r3 51 in
  let r3 := Z.land r3 REDUCE_MASK in
  r4 ← add w (f4 r) c;
  let c := Z.shiftr r4 51 in
  let r4 := Z.land r4 REDUCE_MASK in
  c19 ← mul w c 19;
  r0 ← add w r0 c19;
  Ok {| f0 := r0; f1 := r1; f2 := r2; f3 := r3; f4 := r4 |}.

Definition fe_reduce (f : Fe) : checked Fe := carry_limbs 64 f.

Definition fe_add (a b : Fe) : checked Fe :=
  r0 ← add 64 (f0 a) (f0 b);
  r1 ← add 64 (f1 a) (f1 b);
  r2 ← add 64 (f2 a) (f2 b);
  r3 ← add 64 (f3 a) (f3 b);
  r4 ← add 64 (f4 a) (f4 b);
  Ok {| f0 := r0; f1 := r1; f2 := r2; f3 := r3; f4 := r4 |}.

Definition TWO_P : Fe :=
  {| f0 := 0xFFFFFFFFFFFDA; f1 := 0x7FFFFFFFFFFFF; f2 := 0x7FFFFFFFFFFFF; f3 := 0x7FFFFFFFFFFFF; f4 := 0x7FFFFFFFFFFFF |}.

(** [a + t - b] *)
Definition sub_limb (a t b : Z) : checked Z := s ← add 64 a t; sub 64 s b.
Definition fe_sub (a b : Fe) : checked Fe :=
  r0 ← sub_limb (f0 a) (f0 TWO_P) (f0 b);
  r1 ← sub_limb (f1 a) (f1 TWO_P) (f1 b);
  r2 ← sub_limb (f2 a) (f2 TWO_P) (f2 b);
  r3 ← sub_limb (f3 a) (f3 TWO_P) (f3 b);
  r4 ← sub_limb (f4 a) (f4 TWO_P) (f4 b);
  Ok {| f0 := r0; f1 := r1; f2 := r2; f3 := r3; f4 := r4 |}.

(** The casts [as u64] at the end. *)
Definition cast_limbs (r : Fe) : Fe :=
  {| f0 := as_u64 (f0 r); f1 := as_u64 (f1 r); f2 := as_u64 (f2 r); f3 := as_u64 (f3 r); f4 := as_u64 (f4 r) |}.

Definition fe_mul (a b : Fe) : checked Fe :=
  b1_19 ← mul 128 (f1 b) 19;
  b2_19 ← mul 128 (f2 b) 19;
  b3_19 ← mul 128 (f3 b) 19;
  b4_19 ← mul 128 (f4 b) 19;
  r0 ← products 128 0 [(f0 a, f0 b); (f1 a, b4_19); (f2 a, b3_19); (f3 a, b2_19); (f4 a, b1_19)];
  r1 ← products 128 0 [(f0 a, f1 b); (f1 a, f0 b); (f2 a, b4_19); (f3 a, b3_19); (f4 a, b2_19)];
  r2 ← products 128 0 [(f0 a, f2 b); (f1 a, f1 b); (f2 a, f0 b); (f3 a, b4_19); (f4 a, b3_19)];
  r3 ← products 128 0 [(f0 a, f3 b); (f1 a, f2 b); (f2 a, f1 b); (f3 a, f0 b); (f4 a, b4_19)];
  r4 ← products 128 0 [(f0 a, f4 b); (f1 a, f3 b); (f2 a, f2 b); (f3 a, f1 b); (f4 a, f0 b)];
  r ← carry_limbs 128 {| f0 := r0; f1 := r1; f2 := r2; f3 := r3; f4 := r4 |};
  let c := Z.shiftr (f0 r) 51 in
  let r0 := Z.land (f0 r) REDUCE_MASK in
  r1 ← add 128 (f1 r) c;
  Ok (cast_limbs {| f0 := r0; f1 := r1; f2 := f2 r; f3 := f3 r; f4 := f4 r |}).

Definition fe_sq (a : Fe) : checked Fe := fe_mul a a.

Definition fe_mul_scalar (a : Fe) (s : Z) : checked Fe :=
  r0 ← mul 128 (f0 a) s;
  r1 ← mul 128 (f1 a) s;
  r2 ← mul 128 (f2 a) s;
  r3 ← mul 128 (f3 a) s;
  r4 ← mul 128 (f4 a) s;
  r ← carry_limbs 128 {| f0 := r0; f1 := r1; f2 := r2; f3 := r3; f4 := r4 |};
  Ok (cast_limbs r).

(** [let t = fe_sq(&x)] and [n - 1] times [t = fe_sq(&t)]. *)
Fixpoint fe_sq_times (n : nat) (x : Fe) : checked Fe :=
  match n with
  | O => Ok x
  | S n => x ← fe_sq x; fe_sq_times n x
  end.

Definition fe_invert (a : Fe) : checked Fe :=
  z2 ← fe_sq a;
  z8 ← fe_sq_times 2 z2;
  z9 ← fe_mul a z8;
  z11 ← fe_mul z2 z9;
  z22 ← fe_sq z11;
  z_5_0 ← fe_mul z9 z22;
  t ← fe_sq_times 5 z_5_0;
  z_10_0 ← fe_mul z_5_0 t;
  t ← fe_sq_times 10 z_10_0;
  z_20_0 ← fe_mul z_10_0 t;
  t ← fe_sq_times 20 z_20_0;
  t ← fe_mul z_20_0 t;
  t ← fe_sq_times 10 t;
  z_50_0 ← fe_mul z_10_0 t;
  t ← fe_sq_times 50 z_50_0;
  z_100_0 ← fe_mul z_50_0 t;
  t ← fe_sq_times 100 z_100_0;
  t ← fe_mul z_100_0 t;
  t ← fe_sq_times 50 t;
  t ← fe_mul z_50_0 t;
  t ← fe_sq_times 2 t;
  t ← fe_mul a t;
  t ← fe_sq_times 3 t;
  fe_mul z11 t.

(** The full reduction of [fe_encode]. *)
Definition fe_freeze (h : Fe) : checked Fe :=
  q ← add 64 (f0 h) 19;
  q ← add 64 (f1 h) (Z.shiftr q 51);
  q ← add 64 (f2 h) (Z.shiftr q 51);
  q ← add 64 (f3 h) (Z.shiftr q 51);
  q ← add 64 (f4 h) (Z.shiftr q 51);
  q19 ← mul 64 19 (Z.shiftr q 51);
  h0 ← add 64 (f0 h) q19;
  let carry := Z.shiftr h0 51 in
  let h0 := Z.land h0 REDUCE_MASK in
  h1 ← add 64 (f1 h) carry;
  let carry := Z.shiftr h1 51 in
  let h1 := Z.land h1 REDUCE_MASK in
  h2 ← add 64 (f2 h) carry;
  let carry := Z.shiftr h2 51 in
  let h2 := Z.land h2 REDUCE_MASK in
  h3 ← add 64 (f3 h) carry;
  let carry := Z.shiftr h3 51 in
  let h3 := Z.land h3 REDUCE_MASK in
  h4 ← add 64 (f4 h) carry;
  let h4 := Z.land h4 REDUCE_MASK in
  Ok {| f0 := h0; f1 := h1; f2 := h2; f3 := h3; f4 := h4 |}.

(** The bytes of a reduced element. *)
Definition fe_bytes (h : Fe) : list Z :=
  let v := Z.lor (Z.lor (f0 h) (shl 128 (f1 h) 51)) (shl 128 (f2 h) 102) in
  let w := Z.lor (Z.lor (Z.shiftr (f2 h) 26) (shl 128 (f3 h) 25)) (shl 128 (f4 h) 76) in
  let out := to_le_bytes 16 v ++ to_le_bytes 16 w in
  take 31 out ++ [Z.land (nth 31 out 0) 0x7f].

Definition fe_encode (f : Fe) : checked (list Z) :=
  h ← fe_reduce f;
  h ← fe_freeze h;
  Ok (fe_bytes h).

(** [fe_cswap] on a pair. *)
Definition swap_limb (mask a b : Z) : Z * Z := let t := Z.land mask (a ⊕ b) in (a ⊕ t, b ⊕ t).
Definition fe_cswap (a b : Fe) (swap : Z) : Fe * Fe :=
  let mask := wsub 64 0 swap in
  let s0 := swap_limb mask (f0 a) (f0 b) in
  let s1 := swap_limb mask (f1 a) (f1 b) in
  let s2 := swap_limb mask (f2 a) (f2 b) in
  let s3 := swap_limb mask (f3 a) (f3 b) in
  let s4 := swap_limb mask (f4 a) (f4 b) in
  ({| f0 := s0.1; f1 := s1.1; f2 := s2.1; f3 := s3.1; f4 := s4.1 |},
   {| f0 := s0.2; f1 := s1.2; f2 := s2.2; f3 := s3.2; f4 := s4.2 |}).

(** ** The ladder *)

Definition A24 : Z := 121666.

Record ladder := { x_2 : Fe; z_2 : Fe; x_3 : Fe; z_3 : Fe; swap : Z }.

(** One iteration, for bit [t]. *)
Definition ladder_step (k : list Z) (u : Fe) (t : nat) (s : ladder) : checked ladder :=
  let k_t := Z.land (Z.shiftr (nth (t / 8) k 0) (Z.of_nat (t mod 8))) 1 in
  let sw := swap s ⊕ k_t in
  let '(x2, x3) := fe_cswap (x_2 s) (x_3 s) sw in
  let '(z2, z3) := fe_cswap (z_2 s) (z_3 s) sw in
  a ← fe_add x2 z2;
  aa ← fe_sq a;
  b ← fe_sub x2 z2;
  bb ← fe_sq b;
  e ← fe_sub aa bb;
  cc ← fe_add x3 z3;
  dd ← fe_sub x3 z3;
  da ← fe_mul dd a;
  cb ← fe_mul cc b;
  sum ← fe_add da cb;
  x3 ← fe_sq sum;
  diff ← fe_sub da cb;
  diff_sq ← fe_sq diff;
  z3 ← fe_mul u diff_sq;
  x2 ← fe_mul aa bb;
  a24_e ← fe_mul_scalar e A24;
  aa ← fe_add aa a24_e;
  aa ← fe_reduce aa;
  _ ← fe_reduce bb;
  z2 ← fe_mul e aa;
  Ok {| x_2 := x2; z_2 := z2; x_3 := x3; z_3 := z3; swap := k_t |}.

(** [for t in (0..n).rev()] *)
Fixpoint ladder_loop (k : list Z) (u : Fe) (n : nat) (s : ladder) : checked ladder :=
  match n with
  | O => Ok s
  | S t => s ← ladder_step k u t s; ladder_loop k u t s
  end.

Definition montgomery_ladder (k : list Z) (u : Fe) : checked Fe :=
  s ← ladder_loop k u 255 {| x_2 := FE_ONE; z_2 := FE_ZERO; x_3 := u; z_3 := FE_ONE; swap := 0 |};
  let x2 := (fe_cswap (x_2 s) (x_3 s) (swap s)).1 in
  let z2 := (fe_cswap (z_2 s) (z_3 s) (swap s)).1 in
  z_inv ← fe_invert z2;
  fe_mul x2 z_inv.

Definition x25519 (scalar point : list Z) : checked (list Z) :=
  let k := [Z.land (nth 0 scalar 0) 248] ++ take 30 (drop 1 scalar) ++ [Z.lor (Z.land (nth 31 scalar 0) 127) 64] in
  result ← montgomery_ladder k (fe_decode point);
  fe_encode result.

Definition x25519_basepoint (scalar : list Z) : checked (list Z) := x25519 scalar (9 :: replicate 31 0).

(** ** Values *)

Definition p25519 : Z := 2 ^ 255 - 19.
Definition eval (a : Fe) : Z := f0 a + 2 ^ 51 * f1 a + 2 ^ 102 * f2 a + 2 ^ 153 * f3 a + 2 ^ 204 * f4 a.

(** All limbs below [b]. *)
Definition limbs_lt (b : Z) (a : Fe) : Prop :=
  0 ≤ f0 a < b ∧ 0 ≤ f1 a < b ∧ 0 ≤ f2 a < b ∧ 0 ≤ f3 a < b ∧ 0 ≤ f4 a < b.
(** What multiplication accepts, and what it returns. *)
Abbreviation loose := (limbs_lt (2 ^ 54)).
Abbreviation tight := (limbs_lt (2 ^ 52)).

Lemma land_mask51 x : Z.land x REDUCE_MASK = x mod 2 ^ 51.
Proof. apply (Z.land_ones x 51). lia. Qed.

Lemma shr51 x : Z.shiftr x 51 = x / 2 ^ 51.
Proof. by rewrite Z.shiftr_div_pow2. Qed.

Lemma limbs_lt_mono b b' a : b ≤ b' → limbs_lt b a → limbs_lt b' a.
Proof. unfold limbs_lt. lia. Qed.

Lemma tight_loose a : tight a → loose a.
Proof. by apply limbs_lt_mono. Qed.

(** A carry out of a limb. *)
Lemma carry_bound B C x c : 0 ≤ x < B → 0 ≤ c ≤ C → B + C ≤ 2 ^ 51 * C → 0 ≤ (x + c) / 2 ^ 51 ≤ C.
Proof. intros. Z.to_euclidean_division_equations. lia. Qed.

(** The carries in [w] bits: limbs below [B] have carries of at most [C], for which
    there is room; [q] is the last one. *)
Lemma fe_carry_limbs_spec w B C r :
  0 ≤ C → B + C ≤ 2 ^ 51 * C → B + C ≤ 2 ^ w → 2 ^ 51 + 19 * C ≤ 2 ^ w → limbs_lt B r →
  ∃ r' q, carry_limbs w r = Ok r' ∧ eval r' = eval r - q * p25519 ∧ 0 ≤ 2 ^ 51 * q ≤ f4 r + C ∧
    0 ≤ f0 r' < 2 ^ 51 + 19 * q ∧ 0 ≤ f1 r' < 2 ^ 51 ∧ 0 ≤ f2 r' < 2 ^ 51 ∧ 0 ≤ f3 r' < 2 ^ 51 ∧ 0 ≤ f4 r' < 2 ^ 51.
Proof.
  destruct r as [r0 r1 r2 r3 r4]. unfold limbs_lt. cbn [f0 f1 f2 f3 f4]. intros HC HBC Hw Hw' (H0 & H1 & H2 & H3 & H4).
  unfold carry_limbs. cbn [f0 f1 f2 f3 f4]. rewrite !land_mask51, !shr51. set (W := 2 ^ w) in *.
  assert (∀ x c, 0 ≤ x < B → 0 ≤ c ≤ C → add w x c = Ok (x + c)) as Hadd.
  { intros x c Hx Hc. apply add_Ok. unfold in_u. fold W. lia. }
  pose proof (carry_bound B C r0 0 H0 ltac:(lia) HBC) as C0. rewrite Z.add_0_r in C0. set (c0 := r0 / 2 ^ 51) in *.
  rewrite (Hadd r1) by done. cbn [mbind outcome_bind]. rewrite !land_mask51, !shr51.
  pose proof (carry_bound B C r1 c0 H1 C0 HBC) as C1. set (c1 := (r1 + c0) / 2 ^ 51) in *.
  rewrite (Hadd r2) by done. cbn [mbind outcome_bind]. rewrite !land_mask51, !shr51.
  pose proof (carry_bound B C r2 c1 H2 C1 HBC) as C2. set (c2 := (r2 + c1) / 2 ^ 51) in *.
  rewrite (Hadd r3) by done. cbn [mbind outcome_bind]. rewrite !land_mask51, !shr51.
  pose proof (carry_bound B C r3 c2 H3 C2 HBC) as C3. set (c3 := (r3 + c2) / 2 ^ 51) in *.
  rewrite (Hadd r4) by done. cbn [mbind outcome_bind]. rewrite !land_mask51, !shr51.
  pose proof (carry_bound B C r4 c3 H4 C3 HBC) as C4. set (c4 := (r4 + c3) / 2 ^ 51) in *.
  divide 51 r0 c0. divide 51 (r1 + c0) c1. divide 51 (r2 + c1) c2. divide 51 (r3 + c2) c3. divide 51 (r4 + c3) c4.
  rewrite mul_Ok by (unfold in_u; fold W; lia). cbn [mbind outcome_bind].
  rewrite add_Ok by (unfold in_u; fold W; lia). cbn [mbind outcome_bind].
  eexists _, c4. split; [done|]. unfold eval, p25519. cbn [f0 f1 f2 f3 f4]. lia.
Qed.

Lemma fe_reduce_spec a :
  limbs_lt (2 ^ 55) a → ∃ r, fe_reduce a = Ok r ∧ tight r ∧ eval r mod p25519 = eval a mod p25519 ∧
    0 ≤ f0 r < 2 ^ 51 + 19 * 17 ∧ f1 r < 2 ^ 51 ∧ f2 r < 2 ^ 51 ∧ f3 r < 2 ^ 51 ∧ f4 r < 2 ^ 51.
Proof.
  intros Ha. destruct (fe_carry_limbs_spec 64 (2 ^ 55) 17 a) as (r & q & Hr & He & Hq & H0 & H1 & H2 & H3 & H4); [lia..|done|].
  exists r. split; [done|]. unfold limbs_lt in *. assert (0 ≤ q ≤ 16) by lia. split_and!; try lia.
  rewrite He, <-(Z.mod_add _ q) by done. f_equal. lia.
Qed.

Lemma cast_limbs_id r : limbs_lt (2 ^ 64) r → cast_limbs r = r.
Proof.
  destruct r as [r0 r1 r2 r3 r4]. unfold limbs_lt. cbn [f0 f1 f2 f3 f4]. intros (H0 & H1 & H2 & H3 & H4).
  unfold cast_limbs, as_u64. cbn [f0 f1 f2 f3 f4]. by rewrite !wrap_id.
Qed.

Lemma fe_mul_spec a b :
  loose a → loose b → ∃ r, fe_mul a b = Ok r ∧ tight r ∧ eval r mod p25519 = (eval a * eval b) mod p25519.
Proof.
  destruct a as [a0 a1 a2 a3 a4], b as [b0 b1 b2 b3 b4]. unfold limbs_lt. cbn [f0 f1 f2 f3 f4].
  intros (A0 & A1 & A2 & A3 & A4) (B0 & B1 & B2 & B3 & B4). unfold fe_mul. cbn [f0 f1 f2 f3 f4].
  rewrite !mul_Ok by (unfold in_u; lia). cbn [mbind outcome_bind].
  assert (0 ≤ b1 * 19 < 19 * 2 ^ 54 ∧ 0 ≤ b2 * 19 < 19 * 2 ^ 54 ∧ 0 ≤ b3 * 19 < 19 * 2 ^ 54 ∧ 0 ≤ b4 * 19 < 19 * 2 ^ 54)
    as (S1 & S2 & S3 & S4) by lia.
  destruct (products5 128 _ _ _ _ _ _ _ _ _ _ _ _ _ _ _ (2 ^ 115) (mul_bound _ _ _ _ A0 B0) (mul_bound _ _ _ _ A1 S4) (mul_bound _ _ _ _ A2 S3) (mul_bound _ _ _ _ A3 S2) (mul_bound _ _ _ _ A4 S1)) as [E0 D0]; [by vm_compute..|].
  destruct (products5 128 _ _ _ _ _ _ _ _ _ _ _ _ _ _ _ (2 ^ 115) (mul_bound _ _ _ _ A0 B1) (mul_bound _ _ _ _ A1 B0) (mul_bound _ _ _ _ A2 S4) (mul_bound _ _ _ _ A3 S3) (mul_bound _ _ _ _ A4 S2)) as [E1 D1]; [by vm_compute..|].
  destruct (products5 128 _ _ _ _ _ _ _ _ _ _ _ _ _ _ _ (2 ^ 115) (mul_bound _ _ _ _ A0 B2) (mul_bound _ _ _ _ A1 B1) (mul_bound _ _ _ _ A2 B0) (mul_bound _ _ _ _ A3 S4) (mul_bound _ _ _ _ A4 S3)) as [E2 D2]; [by vm_compute..|].
  destruct (products5 128 _ _ _ _ _ _ _ _ _ _ _ _ _ _ _ (2 ^ 115) (mul_bound _ _ _ _ A0 B3) (mul_bound _ _ _ _ A1 B2) (mul_bound _ _ _ _ A2 B1) (mul_bound _ _ _ _ A3 B0) (mul_bound _ _ _ _ A4 S4)) as [E3 D3]; [by vm_compute..|].
  destruct (products5 128 _ _ _ _ _ _ _ _ _ _ _ _ _ _ _ (2 ^ 111) (mul_bound _ _ _ _ A0 B4) (mul_bound _ _ _ _ A1 B3) (mul_bound _ _ _ _ A2 B2) (mul_bound _ _ _ _ A3 B1) (mul_bound _ _ _ _ A4 B0)) as [E4 D4]; [by vm_compute..|].
  rewrite E0, E1, E2, E3, E4. cbn [mbind outcome_bind]. clear E0 E1 E2 E3 E4.
  set (K := a1 * b4 + a2 * b3 + a3 * b2 + a4 * b1 + 2 ^ 51 * (a2 * b4 + a3 * b3 + a4 * b2)
            + 2 ^ 102 * (a3 * b4 + a4 * b3) + 2 ^ 153 * (a4 * b4)).
  set (r := {| f0 := _; f1 := _; f2 := _; f3 := _; f4 := _ |}).
  assert (eval r = eval {| f0 := a0; f1 := a1; f2 := a2; f3 := a3; f4 := a4 |}
    * eval {| f0 := b0; f1 := b1; f2 := b2; f3 := b3; f4 := b4 |} - K * p25519) as Hr.
  { subst r K. unfold eval, p25519. cbn [f0 f1 f2 f3 f4]. ring. }
  assert (limbs_lt (2 ^ 115) r ∧ f4 r < 2 ^ 111) as [Hlt H4].
  { subst r. unfold limbs_lt. cbn [f0 f1 f2 f3 f4]. clear -D0 D1 D2 D3 D4.
    split; [|apply D4]. refine (conj D0 (conj D1 (conj D2 (conj D3 _)))). destruct D4. split; [done|]. eapply Z.lt_trans; [eassumption|done]. }
  clearbody r K. clear -Hr Hlt H4.
  destruct (fe_carry_limbs_spec 128 (2 ^ 115) (2 ^ 65) r) as (r' & q & -> & He & Hq & H0 & H1 & H2 & H3 & H5); [lia..|done|].
  cbn [mbind outcome_bind]. rewrite land_mask51, shr51. destruct r' as [x0 x1 x2 x3 x4]. cbn [f0 f1 f2 f3 f4] in *.
  set (c := x0 / 2 ^ 51). divide 51 x0 c. assert (0 ≤ c < 2 ^ 20) as Hc by lia.
  rewrite add_Ok by (unfold in_u; lia). cbn [mbind outcome_bind]. eexists. split; [done|].
  rewrite cast_limbs_id by (unfold limbs_lt; cbn [f0 f1 f2 f3 f4]; lia). split; [unfold limbs_lt; cbn [f0 f1 f2 f3 f4]; lia|].
  assert (eval {| f0 := x0 mod 2 ^ 51; f1 := x1 + c; f2 := x2; f3 := x3; f4 := x4 |} = eval {| f0 := x0; f1 := x1; f2 := x2; f3 := x3; f4 := x4 |}) as ->.
  { unfold eval. cbn [f0 f1 f2 f3 f4]. lia. }
  rewrite He, Hr, <-(Z.mod_add _ (q + K)) by done. f_equal. ring.
Qed.

Lemma fe_add_spec a b B :
  2 * B ≤ 2 ^ 64 → limbs_lt B a → limbs_lt B b →
  ∃ r, fe_add a b = Ok r ∧ limbs_lt (2 * B) r ∧ eval r = eval a + eval b.
Proof.
  unfold limbs_lt. intros HB (A0 & A1 & A2 & A3 & A4) (B0 & B1 & B2 & B3 & B4). unfold fe_add.
  rewrite !add_Ok by (unfold in_u; lia). cbn [mbind outcome_bind]. eexists. split; [done|].
  unfold eval. cbn [f0 f1 f2 f3 f4]. lia.
Qed.

Lemma fe_mul_scalar_spec a s :
  loose a → 0 ≤ s < 2 ^ 32 →
  ∃ r, fe_mul_scalar a s = Ok r ∧ loose r ∧ eval r mod p25519 = (eval a * s) mod p25519.
Proof.
  destruct a as [a0 a1 a2 a3 a4]. unfold limbs_lt. cbn [f0 f1 f2 f3 f4]. intros (A0 & A1 & A2 & A3 & A4) Hs.
  unfold fe_mul_scalar. cbn [f0 f1 f2 f3 f4].
  pose proof (mul_bound _ _ _ _ A0 Hs) as M0. pose proof (mul_bound _ _ _ _ A1 Hs) as M1. pose proof (mul_bound _ _ _ _ A2 Hs) as M2.
  pose proof (mul_bound _ _ _ _ A3 Hs) as M3. pose proof (mul_bound _ _ _ _ A4 Hs) as M4.
  rewrite !mul_Ok by (unfold in_u; lia). cbn [mbind outcome_bind]. set (r := {| f0 := _; f1 := _; f2 := _; f3 := _; f4 := _ |}).
  assert (limbs_lt (2 ^ 86) r) as Hr by (subst r; unfold limbs_lt; cbn [f0 f1 f2 f3 f4]; lia).
  assert (eval r = eval {| f0 := a0; f1 := a1; f2 := a2; f3 := a3; f4 := a4 |} * s) as Hv by (subst r; unfold eval; cbn [f0 f1 f2 f3 f4]; ring).
  clearbody r. destruct (fe_carry_limbs_spec 128 (2 ^ 86) (2 ^ 36) r) as (r' & q & -> & He & Hq & H0 & H1 & H2 & H3 & H4); [lia..|done|].
  cbn [mbind outcome_bind]. pose proof Hr as (_ & _ & _ & _ & Hr4). assert (0 ≤ q ≤ 2 ^ 36) by lia.
  eexists. split; [done|]. rewrite cast_limbs_id by (unfold limbs_lt; lia). split; [lia|].
  rewrite He, Hv, <-(Z.mod_add _ q) by done. f_equal. lia.
Qed.

(** ** Inversion *)

Section invert.
Context (a : Fe) (Ha : loose a).

(** [x] represents a power of [a]. *)
Definition power (e : Z) (x : Fe) : Prop := tight x ∧ eval x mod p25519 = eval a ^ e mod p25519.

Lemma power_mul e1 e2 x y :
  power e1 x → power e2 y → 0 ≤ e1 → 0 ≤ e2 → ∃ z, fe_mul x y = Ok z ∧ power (e1 + e2) z.
Proof using Type.
  intros [Hx Hxv] [Hy Hyv] H1 H2.
  destruct (fe_mul_spec x y) as (z & Hz & Ht & Hv); [by apply tight_loose|by apply tight_loose|].
  exists z. split; [done|]. split; [done|]. rewrite Hv, Z.pow_add_r by done.
  by rewrite Z.mul_mod, Hxv, Hyv, <-Z.mul_mod by done.
Qed.

Lemma power_mul_a e x : power e x → 0 ≤ e → ∃ z, fe_mul a x = Ok z ∧ power (1 + e) z.
Proof using Ha.
  intros [Hx Hxv] He. destruct (fe_mul_spec a x) as (z & Hz & Ht & Hv); [done|by apply tight_loose|].
  exists z. split; [done|]. split; [done|]. rewrite Hv, Z.pow_add_r, Z.pow_1_r by lia.
  by rewrite Z.mul_mod, Hxv, <-Z.mul_mod_idemp_r, <-Z.mul_mod, Z.mul_mod_idemp_r by done.
Qed.

Lemma power_sq_times n e x : power e x → 0 ≤ e → ∃ z, fe_sq_times n x = Ok z ∧ power (e * 2 ^ Z.of_nat n) z.
Proof using Type.
  revert e x. induction n as [|n IH]; intros e x Hx He; cbn [fe_sq_times].
  - exists x. rewrite Z.mul_1_r. done.
  - destruct (power_mul e e x x Hx Hx He He) as (y & Hy & Hp). unfold fe_sq. rewrite Hy. cbn [mbind outcome_bind].
    destruct (IH (e + e) y Hp ltac:(lia)) as (z & Hz & Hpz). exists z. split; [done|].
    rewrite Nat2Z.inj_succ, Z.pow_succ_r by lia. replace (e * (2 * 2 ^ Z.of_nat n)) with ((e + e) * 2 ^ Z.of_nat n) by lia. done.
Qed.

(** The exponent is [2^255 - 13], not [p - 2 = 2^255 - 21]. *)
Lemma fe_invert_spec : ∃ z, fe_invert a = Ok z ∧ power (2 ^ 255 - 13) z.
Proof using Ha.
  unfold fe_invert. destruct (fe_mul_spec a a Ha Ha) as (z2 & Hz2 & Ht2 & Hv2). change (fe_sq a) with (fe_mul a a). rewrite Hz2. cbn [mbind outcome_bind].
  assert (power 2 z2) as P_z2 by (split; [done|]; rewrite Hv2; f_equal; lia).
  destruct (power_sq_times 2 _ z2 P_z2) as (z8 & -> & P_z8); [by vm_compute..|]. cbn [mbind outcome_bind].
  destruct (power_mul_a _ z8 P_z8) as (z9 & -> & P_z9); [by vm_compute..|]. cbn [mbind outcome_bind].
  destruct (power_mul _ _ z2 z9 P_z2 P_z9) as (z11 & -> & P_z11); [by vm_compute..|]. cbn [mbind outcome_bind].
  change (fe_sq z11) with (fe_mul z11 z11). destruct (power_mul _ _ z11 z11 P_z11 P_z11) as (z22 & -> & P_z22); [by vm_compute..|]. cbn [mbind outcome_bind].
  destruct (power_mul _ _ z9 z22 P_z9 P_z22) as (z5 & -> & P_z5); [by vm_compute..|]. cbn [mbind outcome_bind].
  destruct (power_sq_times 5 _ z5 P_z5) as (t1 & -> & P_t1); [by vm_compute..|]. cbn [mbind outcome_bind].
  destruct (power_mul _ _ z5 t1 P_z5 P_t1) as (z10 & -> & P_z10); [by vm_compute..|]. cbn [mbind outcome_bind].
  destruct (power_sq_times 10 _ z10 P_z10) as (t2 & -> & P_t2); [by vm_compute..|]. cbn [mbind outcome_bind].
  destruct (power_mul _ _ z10 t2 P_z10 P_t2) as (z20 & -> & P_z20); [by vm_compute..|]. cbn [mbind outcome_bind].
  destruct (power_sq_times 20 _ z20 P_z20) as (t3 & -> & P_t3); [by vm_compute..|]. cbn [mbind outcome_bind].
  destruct (power_mul _ _ z20 t3 P_z20 P_t3) as (t4 & -> & P_t4); [by vm_compute..|]. cbn [mbind outcome_bind].
  destruct (power_sq_times 10 _ t4 P_t4) as (t5 & -> & P_t5); [by vm_compute..|]. cbn [mbind outcome_bind].
  destruct (power_mul _ _ z10 t5 P_z10 P_t5) as (z50 & -> & P_z50); [by vm_compute..|]. cbn [mbind outcome_bind].
  destruct (power_sq_times 50 _ z50 P_z50) as (t6 & -> & P_t6); [by vm_compute..|]. cbn [mbind outcome_bind].
  destruct (power_mul _ _ z50 t6 P_z50 P_t6) as (z100 & -> & P_z100); [by vm_compute..|]. cbn [mbind outcome_bind].
  destruct (power_sq_times 100 _ z100 P_z100) as (t7 & -> & P_t7); [by vm_compute..|]. cbn [mbind outcome_bind].
  destruct (power_mul _ _ z100 t7 P_z100 P_t7) as (t8 & -> & P_t8); [by vm_compute..|]. cbn [mbind outcome_bind].
  destruct (power_sq_times 50 _ t8 P_t8) as (t9 & -> & P_t9); [by vm_compute..|]. cbn [mbind outcome_bind].
  destruct (power_mul _ _ z50 t9 P_z50 P_t9) as (t10 & -> & P_t10); [by vm_compute..|]. cbn [mbind outcome_bind].
  destruct (power_sq_times 2 _ t10 P_t10) as (t11 & -> & P_t11); [by vm_compute..|]. cbn [mbind outcome_bind].
  destruct (power_mul_a _ t11 P_t11) as (t12 & -> & P_t12); [by vm_compute..|]. cbn [mbind outcome_bind].
  destruct (power_sq_times 3 _ t12 P_t12) as (t13 & -> & P_t13); [by vm_compute..|]. cbn [mbind outcome_bind].
  destruct (power_mul _ _ z11 t13 P_z11 P_t13) as (z & -> & Pz); [by vm_compute..|].
  exists z. split; [done|]. revert Pz. match goal with |- power ?e z → _ => replace e with (2 ^ 255 - 13) by (by vm_compute) end. done.
Qed.
End invert.

(** ** Encodings *)

Lemma load8_bits bs i :
  bytes_ok bs → length bs = 32%nat → (i ≤ 24)%nat →
  load8 bs i = from_le_bytes bs / 2 ^ (8 * Z.of_nat i) mod 2 ^ 64.
Proof.
  intros Hb Hl Hi. unfold load8. rewrite from_le_bytes_slice by (done || lia).
  f_equal. f_equal. change 256 with (2 ^ 8). rewrite <-Z.pow_mul_r by lia. done.
Qed.

Lemma fe_decode_spec bs :
  bytes_ok bs → length bs = 32%nat →
  limbs_lt (2 ^ 51) (fe_decode bs) ∧ eval (fe_decode bs) = from_le_bytes bs mod 2 ^ 255.
Proof.
  intros Hb Hl. unfold fe_decode, limbs_lt, eval. cbn [f0 f1 f2 f3 f4]. rewrite !land_mask51, !Z.shiftr_div_pow2 by lia.
  rewrite !load8_bits by (done || lia). pose proof (from_le_bytes_range bs Hb) as [HN _].
  generalize dependent (from_le_bytes bs). intros N HN.
  change (8 * Z.of_nat 0) with 0. change (8 * Z.of_nat 6) with 48. change (8 * Z.of_nat 12) with 96.
  change (8 * Z.of_nat 19) with 152. change (8 * Z.of_nat 24) with 192. rewrite Z.div_1_r.
  assert (∀ x k, 0 ≤ k ≤ 13 → (x mod 2 ^ 64 / 2 ^ k) mod 2 ^ 51 = (x / 2 ^ k) mod 2 ^ 51) as Hm.
  { intros x k Hk. pose proof (pow2_pos k ltac:(lia)). replace (2 ^ 64) with (2 ^ k * 2 ^ (64 - k)) by (rewrite <-Z.pow_add_r by lia; f_equal; lia).
    pose proof (pow2_pos (64 - k) ltac:(lia)).
    rewrite Z.rem_mul_r by lia. rewrite (Z.mul_comm (2 ^ k)), Z.div_add, Z.div_small, Z.add_0_l by (try lia; apply Z.mod_pos_bound; lia).
    apply Z.mod_mod_divide. exists (2 ^ (13 - k)). rewrite <-Z.pow_add_r by lia. f_equal. lia. }
  rewrite !Hm, !Z.div_div by lia. rewrite Z.mod_mod_divide by (by exists (2 ^ 13)).
  change (2 ^ 48 * 2 ^ 3) with (2 ^ 51). change (2 ^ 96 * 2 ^ 6) with (2 ^ 102). change (2 ^ 152 * 2 ^ 1) with (2 ^ 153).
  change (2 ^ 192 * 2 ^ 12) with (2 ^ 204). Z.to_euclidean_division_equations. lia.
Qed.

(** The conditional subtraction: limbs below [2^51] (the first one a little above)
    become the digits of the value modulo [p]. *)
Lemma fe_freeze_spec h :
  0 ≤ f0 h < 2 ^ 51 + 19 * 17 → 0 ≤ f1 h < 2 ^ 51 → 0 ≤ f2 h < 2 ^ 51 → 0 ≤ f3 h < 2 ^ 51 → 0 ≤ f4 h < 2 ^ 51 →
  ∃ g, fe_freeze h = Ok g ∧ limbs_lt (2 ^ 51) g ∧ eval g = eval h mod p25519.
Proof.
  destruct h as [h0 h1 h2 h3 h4]. cbn [f0 f1 f2 f3 f4]. intros H0 H1 H2 H3 H4. unfold fe_freeze. cbn [f0 f1 f2 f3 f4].
  rewrite add_Ok by (unfold in_u; lia). cbn [mbind outcome_bind]. rewrite shr51.
  set (q0 := (h0 + 19) / 2 ^ 51). divide 51 (h0 + 19) q0. assert (0 ≤ q0 ≤ 1) by lia.
  rewrite add_Ok by (unfold in_u; lia). cbn [mbind outcome_bind]. rewrite shr51.
  set (q1 := (h1 + q0) / 2 ^ 51). divide 51 (h1 + q0) q1. assert (0 ≤ q1 ≤ 1) by lia.
  rewrite add_Ok by (unfold in_u; lia). cbn [mbind outcome_bind]. rewrite shr51.
  set (q2 := (h2 + q1) / 2 ^ 51). divide 51 (h2 + q1) q2. assert (0 ≤ q2 ≤ 1) by lia.
  rewrite add_Ok by (unfold in_u; lia). cbn [mbind outcome_bind]. rewrite shr51.
  set (q3 := (h3 + q2) / 2 ^ 51). divide 51 (h3 + q2) q3. assert (0 ≤ q3 ≤ 1) by lia.
  rewrite add_Ok by (unfold in_u; lia). cbn [mbind outcome_bind]. rewrite shr51.
  set (q := (h4 + q3) / 2 ^ 51). divide 51 (h4 + q3) q. assert (0 ≤ q ≤ 1) as Hq by lia.
  rewrite mul_Ok by (unfold in_u; lia). cbn [mbind outcome_bind].
  rewrite add_Ok by (unfold in_u; lia). cbn [mbind outcome_bind]. rewrite land_mask51, shr51.
  set (c0 := (h0 + 19 * q) / 2 ^ 51). divide 51 (h0 + 19 * q) c0. assert (0 ≤ c0 ≤ 1) by lia.
  rewrite add_Ok by (unfold in_u; lia). cbn [mbind outcome_bind]. rewrite land_mask51, shr51.
  set (c1 := (h1 + c0) / 2 ^ 51). divide 51 (h1 + c0) c1. assert (0 ≤ c1 ≤ 1) by lia.
  rewrite add_Ok by (unfold in_u; lia). cbn [mbind outcome_bind]. rewrite land_mask51, shr51.
  set (c2 := (h2 + c1) / 2 ^ 51). divide 51 (h2 + c1) c2. assert (0 ≤ c2 ≤ 1) by lia.
  rewrite add_Ok by (unfold in_u; lia). cbn [mbind outcome_bind]. rewrite land_mask51, shr51.
  set (c3 := (h3 + c2) / 2 ^ 51). divide 51 (h3 + c2) c3. assert (0 ≤ c3 ≤ 1) by lia.
  rewrite add_Ok by (unfold in_u; lia). cbn [mbind outcome_bind]. rewrite land_mask51.
  set (c4 := (h4 + c3) / 2 ^ 51). divide 51 (h4 + c3) c4.
  eexists. split; [done|]. unfold limbs_lt, eval. cbn [f0 f1 f2 f3 f4]. split; [lia|].
  assert (c4 = q) as -> by lia. apply (Z.mod_unique_pos _ _ q); unfold p25519; lia.
Qed.

Lemma fe_bytes_spec g : limbs_lt (2 ^ 51) g → fe_bytes g = to_le_bytes 32 (eval g).
Proof.
  destruct g as [g0 g1 g2 g3 g4]. unfold limbs_lt. cbn [f0 f1 f2 f3 f4]. intros (H0 & H1 & H2 & H3 & H4).
  unfold fe_bytes. cbn [f0 f1 f2 f3 f4]. set (V := eval _).
  assert (0 ≤ V < 2 ^ 255) as HV by (subst V; unfold eval; cbn [f0 f1 f2 f3 f4]; lia).
  assert (Z.lor (Z.lor g0 (shl 128 g1 51)) (shl 128 g2 102) = V mod 2 ^ 128) as ->.
  { rewrite (shl_small 128 g1 51 51) by lia. rewrite lor_shifted by lia.
    assert (shl 128 g2 102 = g2 mod 2 ^ 26 * 2 ^ 102) as ->.
    { unfold shl, wrap. rewrite Z.shiftl_mul_pow2 by lia. change (2 ^ 128) with (2 ^ 26 * 2 ^ 102). by rewrite Zmult_mod_distr_r. }
    rewrite lor_shifted by lia. subst V. unfold eval. cbn [f0 f1 f2 f3 f4].
    apply (Z.mod_unique_pos _ _ (g2 / 2 ^ 26 + 2 ^ 25 * g3 + 2 ^ 76 * g4)); Z.to_euclidean_division_equations; lia. }
  assert (Z.lor (Z.lor (Z.shiftr g2 26) (shl 128 g3 25)) (shl 128 g4 76) = V / 2 ^ 128) as ->.
  { rewrite (shl_small 128 g3 25 51), (shl_small 128 g4 76 51), Z.shiftr_div_pow2 by lia.
    assert (0 ≤ g2 / 2 ^ 26 < 2 ^ 25) as Hg by (Z.to_euclidean_division_equations; lia).
    rewrite (lor_shifted (g2 / 2 ^ 26)), lor_shifted by lia. subst V. unfold eval. cbn [f0 f1 f2 f3 f4].
    apply (Z.div_unique_pos _ _ _ (g0 + 2 ^ 51 * g1 + 2 ^ 102 * (g2 mod 2 ^ 26))); Z.to_euclidean_division_equations; lia. }
  change (2 ^ 128) with (256 ^ Z.of_nat 16). rewrite <-(to_le_bytes_halves 16 16 V).
  change (16 + 16)%nat with 32%nat. pose proof (to_le_bytes_halves 31 1 V) as Ho. change (31 + 1)%nat with 32%nat in Ho.
  rewrite Ho, take_app_length', app_nth2 by (rewrite length_to_le_bytes; lia). rewrite length_to_le_bytes. f_equal.
  change (31 - 31)%nat with 0%nat. change (to_le_bytes 1 (V / 256 ^ Z.of_nat 31)) with [(V / 256 ^ Z.of_nat 31) mod 256].
  cbn [nth]. f_equal. rewrite (Z.land_ones _ 7) by lia. apply Z.mod_small.
  change (256 ^ Z.of_nat 31) with (2 ^ 248). Z.to_euclidean_division_equations. lia.
Qed.

Lemma fe_encode_spec f : limbs_lt (2 ^ 55) f → fe_encode f = Ok (to_le_bytes 32 (eval f mod p25519)).
Proof.
  intros Hf. unfold fe_encode. destruct (fe_reduce_spec f Hf) as (h & -> & (T0 & T1 & T2 & T3 & T4) & Hv & H0 & H1 & H2 & H3 & H4).
  cbn [mbind outcome_bind]. destruct (fe_freeze_spec h) as (g & -> & Hg & He); [lia..|]. cbn [mbind outcome_bind].
  by rewrite fe_bytes_spec, He, Hv.
Qed.

(** C20. Arithmetic modulo [p = 2^255 - 19] on field elements whose five limbs are
    below [2^54], with no overflow anywhere: the product and the square have limbs
    below [2^52] and the value of the product modulo [p]; scaling by an [s] below
    [2^32] gives limbs below [2^54] and the value [eval a * s] modulo [p]; adding
    gives limbs below [2^55] and exactly the sum of the values; encoding gives the
    32 bytes of the value reduced modulo [p]; and decoding any 32 bytes gives limbs
    below [2^51] whose value is exactly the little-endian number of the bytes with
    its top bit masked off. *)
Theorem field_arithmetic a b s bs :
  loose a → loose b → 0 ≤ s < 2 ^ 32 → bytes_ok bs → length bs = 32%nat →
  (∃ r, fe_mul a b = Ok r ∧ tight r ∧ eval r mod p25519 = (eval a * eval b) mod p25519) ∧
  (∃ r, fe_sq a = Ok r ∧ tight r ∧ eval r mod p25519 = (eval a * eval a) mod p25519) ∧
  (∃ r, fe_mul_scalar a s = Ok r ∧ loose r ∧ eval r mod p25519 = (eval a * s) mod p25519) ∧
  (∃ r, fe_add a b = Ok r ∧ limbs_lt (2 ^ 55) r ∧ eval r = eval a + eval b) ∧
  fe_encode a = Ok (to_le_bytes 32 (eval a mod p25519)) ∧
  limbs_lt (2 ^ 51) (fe_decode bs) ∧ eval (fe_decode bs) = from_le_bytes bs mod 2 ^ 255.
Proof.
  intros Ha Hb Hs Hbs Hl. split; [by apply fe_mul_spec|]. split; [by apply fe_mul_spec|].
  split; [by apply fe_mul_scalar_spec|].
  split; [by apply (fe_add_spec a b (2 ^ 54))|].
  split; [apply fe_encode_spec; by apply (limbs_lt_mono (2 ^ 54))|].
  by apply fe_decode_spec.
Qed.

Lemma field_arithmetic_witness :
  ∃ r, fe_mul FE_ONE FE_ONE = Ok r ∧ eval r mod p25519 = 1.
Proof.
  assert (loose FE_ONE) as H1 by (unfold limbs_lt, FE_ONE; cbn [f0 f1 f2 f3 f4]; lia).
  destruct (field_arithmetic FE_ONE FE_ONE A24 (9 :: replicate 31 0) H1 H1) as ((r & Hr & _ & He) & _).
  - unfold A24. lia.
  - constructor; [done|]. by apply Forall_replicate.
  - done.
  - exists r. split; [exact Hr|]. by rewrite He.
Defined.

(** ** What goes wrong at the edges *)

(** The constant of [fe_sub] is not a multiple of [p]: its upper limbs are those of
    [p], not of [2 * p].  The difference comes out too large by [2^51 - 19], and a
    limb can underflow, which panics. *)
Lemma fe_sub_spec a b r : fe_sub a b = Ok r → eval r mod p25519 = (eval a - eval b + (2 ^ 51 - 19)) mod p25519.
Proof.
  unfold fe_sub, sub_limb, add, sub, in_width. intros Hr.
  repeat match type of Hr with context [if ?c then _ else _] => destruct c; cbn [mbind outcome_bind] in Hr; [|done] end.
  injection Hr as <-. rewrite <-(Z.mod_add (_ - _ + _) 1) by done. f_equal. unfold eval, p25519, TWO_P. cbn [f0 f1 f2 f3 f4]. lia.
Qed.

Lemma fe_sub_panics :
  let b := {| f0 := 0; f1 := 2 ^ 51; f2 := 0; f3 := 0; f4 := 0 |} in tight b ∧ fe_sub FE_ZERO b = Panic.
Proof. split; [unfold limbs_lt; cbn [f0 f1 f2 f3 f4]; lia|by vm_compute]. Qed.

(** The chain of [fe_invert] ends at the exponent [2^255 - 13] instead of
    [p - 2 = 2^255 - 21]: it returns the seventh power, not the inverse. *)
Lemma fe_invert_two :
  let two := {| f0 := 2; f1 := 0; f2 := 0; f3 := 0; f4 := 0 |} in
  (z ← fe_invert two; fe_encode z) = Ok (to_le_bytes 32 (2 ^ 7)).
Proof. by vm_compute. Qed.
