(* ===== verification/Net.v ===== *)
(** * Addresses, frames and packets

    The lower layers of [src/kernel/src/net]: the addresses and errors of
    [mod.rs], Ethernet frames ([ethernet.rs]), ARP packets ([arp.rs]) and IPv4
    packets with the internet checksum ([ipv4.rs]).  A packet that is built is
    parsed back, also when Ethernet has padded it, and the checksum that is
    filled in is the one the receiver accepts. *)

From stdpp Require Import base numbers list gmap strings.
From S2P Require Import Prelude.
From S2P Require Import Bytes.

(** ** Addresses and errors *)

(** [[u8; 4]] and [[u8; 6]] *)
Abbreviation Ipv4Addr := (list Z).
Abbreviation MacAddress := (list Z).

Definition LOCALHOST : Ipv4Addr := [127; 0; 0; 1].
Definition ANY : Ipv4Addr := [0; 0; 0; 0].
Definition IP_BROADCAST : Ipv4Addr := [255; 255; 255; 255].
Definition BROADCAST : MacAddress := [0xFF; 0xFF; 0xFF; 0xFF; 0xFF; 0xFF].
Definition ZERO : MacAddress := [0; 0; 0; 0; 0; 0].
Definition is_broadcast (m : MacAddress) : bool := bool_decide (m = [0xFF; 0xFF; 0xFF; 0xFF; 0xFF; 0xFF]).

Record SocketAddr := mkSocketAddr { ip : Ipv4Addr; port : Z }.
#[export] Instance SocketAddr_eq : EqDecision SocketAddr.
Proof. solve_decision. Defined.

Inductive NetError :=
| ConnectionRefused | ConnectionReset | ConnectionNotFound | Timeout | TimedOut | DnsNotFound | WouldBlock
| AddressInUse | InvalidArgument | NotConnected | AlreadyConnected | NetworkUnreachable | TlsHandshakeFailed.
#[export] Instance NetError_eq : EqDecision NetError.
Proof. solve_decision. Defined.

Record IpConfig := mkIpConfig { cfg_ip : Ipv4Addr; netmask : Ipv4Addr; gateway : Ipv4Addr; dns : Ipv4Addr; mac : MacAddress }.
Definition default_config : IpConfig :=
  mkIpConfig [10; 0; 2; 15] [255; 255; 255; 0] [10; 0; 2; 2] [10; 0; 2; 3] [0x52; 0x54; 0x00; 0x12; 0x34; 0x56].

(** ** Numbers on the wire *)

(** [v.push((x >> 8) as u8); v.push(x as u8)], and four bytes likewise. *)
Definition push16 (x : Z) : list Z := [as_u8 (Z.shiftr x 8); as_u8 x].
Definition push32 (x : Z) : list Z := [as_u8 (Z.shiftr x 24); as_u8 (Z.shiftr x 16); as_u8 (Z.shiftr x 8); as_u8 x].

(** [u16::from_be_bytes([l[i], l[i + 1]])], and [u32] likewise. *)
Definition u16_at (l : list Z) (i : nat) : checked Z := bs ← range l i 2; Ok (from_be_bytes bs).
Definition u32_at (l : list Z) (i : nat) : checked Z := bs ← range l i 4; Ok (from_be_bytes bs).

(** ** Ethernet *)

Definition ETHERTYPE_IPV4 : Z := 0x0800.
Definition ETHERTYPE_ARP : Z := 0x0806.
Definition MIN_FRAME_SIZE : nat := 60.

Record EthernetFrame := mkEthernetFrame { eth_dst : MacAddress; eth_src : MacAddress; ethertype : Z; eth_payload : list Z }.

Definition EthernetFrame_parse (raw : list Z) : checked (option EthernetFrame) :=
  if (length raw <? 14)%nat then Ok None
  else
    dst ← range raw 0 6;
    src ← range raw 6 6;
    ethertype ← u16_at raw 12;
    Ok (Some (mkEthernetFrame dst src ethertype (drop 14 raw))).

Definition is_for_us (f : EthernetFrame) (our_mac : MacAddress) : bool :=
  bool_decide (eth_dst f = our_mac) || is_broadcast (eth_dst f).

Definition build_frame (dst src : MacAddress) (ethertype : Z) (payload : list Z) : list Z :=
  let frame := dst ++ src ++ push16 ethertype ++ payload in
  frame ++ replicate (MIN_FRAME_SIZE - length frame) 0.

(** ** The internet checksum *)

(** The sum of the big-endian words; the last byte of an odd number of bytes
    counts as a high byte. *)
Fixpoint sum_words (sum : Z) (data : list Z) : checked Z :=
  match data with
  | a :: b :: data => sum ← add 32 sum (256 * a + b); sum_words sum data
  | [a] => add 32 sum (shl 32 a 8)
  | [] => Ok sum
  end.

(** [while (sum >> 16) != 0 { sum = (sum & 0xFFFF) + (sum >> 16) }] *)
Fixpoint fold_carry (fuel : nat) (sum : Z) : Z :=
  match fuel with
  | O => sum
  | S fuel => if Z.shiftr sum 16 =? 0 then sum else fold_carry fuel (Z.land sum 0xFFFF + Z.shiftr sum 16)
  end.

(** Two rounds are enough for 32 bits ([fold_carry_done]). *)
Definition checksum_from (sum : Z) (data : list Z) : checked Z :=
  sum ← sum_words sum data; Ok (bnot 16 (as_u16 (fold_carry 3 sum))).
Definition checksum (data : list Z) : checked Z := checksum_from 0 data.

(** Addresses have four bytes. *)
Definition pseudo_header_checksum (src dst : Ipv4Addr) (protocol length : Z) : checked Z :=
  s ← sum_words 0 (src ++ dst);
  s ← add 32 s protocol;
  add 32 s length.

(** ** IPv4 *)

Definition PROTO_ICMP : Z := 1.
Definition PROTO_TCP : Z := 6.
Definition PROTO_UDP : Z := 17.
Definition DEFAULT_TTL : Z := 64.

Record Ipv4Packet := mkIpv4Packet {
  pkt_src : Ipv4Addr; pkt_dst : Ipv4Addr; protocol : Z; ttl : Z; pkt_id : Z; total_len : Z; header_len : Z; pkt_payload : list Z }.

Definition Ipv4Packet_parse (raw : list Z) : checked (option Ipv4Packet) :=
  if (length raw <? 20)%nat then Ok None
  else
    b0 ← at_ raw 0;
    if negb (Z.shiftr b0 4 =? 4) then Ok None
    else
      let header_len := (Z.to_nat (Z.land b0 0x0F) * 4)%nat in
      if ((header_len <? 20) || (length raw <? header_len))%nat then Ok None
      else
        total_len ← u16_at raw 2;
        if len raw <? total_len then Ok None
        else
          c ← checksum (take header_len raw);
          if negb (c =? 0) then Ok None
          else
            id ← u16_at raw 4;
            ttl ← at_ raw 8;
            protocol ← at_ raw 9;
            src ← range raw 12 4;
            dst ← range raw 16 4;
            if (Z.to_nat total_len <? header_len)%nat then Panic
            else
              Ok (Some (mkIpv4Packet src dst protocol ttl id total_len (Z.of_nat header_len)
                          (slice raw (Z.of_nat header_len) total_len))).

(** The header that [build_packet] makes, with the number [id], before and after
    the checksum is filled in. *)
Definition packet_header (src dst : Ipv4Addr) (protocol id total_len : Z) (ck : list Z) : list Z :=
  [0x45; 0x00] ++ push16 total_len ++ push16 id ++ [0x40; 0x00; DEFAULT_TTL; protocol] ++ ck ++ src ++ dst.
Definition packet_bytes (src dst : Ipv4Addr) (protocol id : Z) (payload : list Z) : checked (list Z) :=
  let total_len := as_u16 (20 + len payload) in
  hdr ← range (packet_header src dst protocol id total_len [0; 0]) 0 20;
  cksum ← checksum hdr;
  Ok (packet_header src dst protocol id total_len (push16 cksum) ++ payload).

(** The bytes of an address that the mask selects. *)
Definition is_local (addr : Ipv4Addr) (cfg : IpConfig) : bool :=
  bool_decide (zip_with Z.land addr (netmask cfg) = zip_with Z.land (cfg_ip cfg) (netmask cfg)).

(** ** ARP packets *)

Definition OP_REQUEST : Z := 1.
Definition OP_REPLY : Z := 2.

Definition build_arp_packet (op : Z) (sender_mac : MacAddress) (sender_ip : Ipv4Addr) (target_mac : MacAddress) (target_ip : Ipv4Addr) : list Z :=
  push16 1 ++ push16 0x0800 ++ [6; 4] ++ push16 op ++ sender_mac ++ sender_ip ++ target_mac ++ target_ip.
Definition arp_build_request (sender_mac : MacAddress) (sender_ip target_ip : Ipv4Addr) : list Z :=
  build_frame BROADCAST sender_mac ETHERTYPE_ARP (build_arp_packet OP_REQUEST sender_mac sender_ip ZERO target_ip).
Definition arp_build_reply (sender_mac : MacAddress) (sender_ip : Ipv4Addr) (target_mac : MacAddress) (target_ip : Ipv4Addr) : list Z :=
  build_frame target_mac sender_mac ETHERTYPE_ARP (build_arp_packet OP_REPLY sender_mac sender_ip target_mac target_ip).

(** ** Numbers are read as they are written *)

Lemma push16_ok x : bytes_ok (push16 x).
Proof. unfold push16, as_u8. repeat constructor; apply wrap_range; lia. Qed.
Lemma push32_ok x : bytes_ok (push32 x).
Proof. unfold push32, as_u8. repeat constructor; apply wrap_range; lia. Qed.
#[export] Hint Resolve push16_ok push32_ok : kpio.

Lemma from_be_push16 x : from_be_bytes (push16 x) = as_u16 x.
Proof.
  unfold from_be_bytes, push16, as_u8, as_u16, wrap. rewrite Z.shiftr_div_pow2 by lia. simpl.
  change (2 ^ 8) with 256. change (2 ^ 16) with (256 * 256). rewrite Z.rem_mul_r by lia. lia.
Qed.

Lemma from_be_push32 x : from_be_bytes (push32 x) = as_u32 x.
Proof.
  unfold from_be_bytes, push32, as_u8, as_u32, wrap. rewrite !Z.shiftr_div_pow2 by lia.
  change (2 ^ 8) with 256. change (2 ^ 16) with (256 * 256). change (2 ^ 24) with (256 * 256 * 256).
  change (2 ^ 32) with (256 * (256 * (256 * 256))). cbn [rev app from_le_bytes].
  rewrite !Z.rem_mul_r, !Z.div_div by lia. lia.
Qed.

(** ** The checksum *)

Fixpoint words (data : list Z) : Z :=
  match data with
  | a :: b :: data => 256 * a + b + words data
  | [a] => 256 * a
  | [] => 0
  end.

(** What folding the carries gives: the sum modulo [2^16 - 1], where only zero
    gives zero. *)
Definition folded (s : Z) : Z := if s =? 0 then 0 else (s - 1) mod 65535 + 1.

Lemma list_pair_ind {A} (P : list A → Prop) :
  P [] → (∀ a, P [a]) → (∀ a b l, P l → P (a :: b :: l)) → ∀ l, P l.
Proof.
  intros H0 H1 H2 l. enough (P l ∧ ∀ a, P (a :: l)) by tauto.
  induction l as [|a l [IH IH']]; [by split|]. split; [done|]. auto.
Qed.

Lemma words_bounds data : bytes_ok data → 0 ≤ words data ≤ 65535 * len data.
Proof.
  induction data as [|a|a b data IH] using list_pair_ind; intros Hb; cbn [words].
  - done.
  - apply Forall_cons in Hb as [Ha _]. unfold in_u, len in *. simpl. lia.
  - apply Forall_cons in Hb as [Ha Hb]. apply Forall_cons in Hb as [Hb Hd]. specialize (IH Hd).
    rewrite !len_cons. unfold in_u in *. lia.
Qed.

Lemma sum_words_Ok sum data :
  bytes_ok data → 0 ≤ sum → sum + words data < 2 ^ 32 → sum_words sum data = Ok (sum + words data).
Proof.
  intros Hb. revert sum. induction data as [|a|a b data IH] using list_pair_ind; intros sum Hs Hlt; cbn [words sum_words] in *.
  - f_equal. lia.
  - apply Forall_cons in Hb as [Ha _]. unfold in_u in Ha. rewrite (shl_small 32 a 8 8) by lia.
    rewrite add_Ok by (unfold in_u; lia). f_equal. lia.
  - apply Forall_cons in Hb as [Ha Hb]. apply Forall_cons in Hb as [Hb Hd]. unfold in_u in *.
    pose proof (words_bounds data Hd). rewrite add_Ok by (unfold in_u; lia). cbn [mbind outcome_bind].
    rewrite IH by (done || lia). f_equal. lia.
Qed.

Lemma words_app a b : Nat.even (length a) = true → words (a ++ b) = words a + words b.
Proof.
  induction a as [|x|x y a IH] using list_pair_ind; intros He; [done|done|].
  cbn [app words]. rewrite IH by done. lia.
Qed.

Lemma words_push16 x : words (push16 x) = as_u16 x.
Proof. rewrite <-from_be_push16. unfold push16, from_be_bytes. cbn [words rev app from_le_bytes]. lia. Qed.

Lemma folded_range s : 0 ≤ s → 0 ≤ folded s < 2 ^ 16.
Proof. intros. unfold folded. zcase; [lia|]. pose proof (Z.mod_pos_bound (s - 1) 65535). lia. Qed.

Lemma folded_small s : 0 ≤ s < 2 ^ 16 → folded s = s.
Proof.
  intros. unfold folded. zcase; [done|]. destruct (decide (s = 65536)); [lia|].
  rewrite Z.mod_small by lia. lia.
Qed.

(** A round of folding keeps the result. *)
Lemma folded_step s : 0 ≤ s → folded (s mod 2 ^ 16 + s / 2 ^ 16) = folded s.
Proof.
  intros Hs. pose proof (Z.div_mod s (2 ^ 16) ltac:(lia)) as E. pose proof (Z.mod_pos_bound s (2 ^ 16) ltac:(lia)).
  set (q := s / 2 ^ 16) in *. set (r := s mod 2 ^ 16) in *. assert (0 ≤ q) by (apply Z.div_pos; lia).
  unfold folded. destruct (Z.eqb_spec (r + q) 0), (Z.eqb_spec s 0); try lia.
  f_equal. rewrite E. replace (2 ^ 16 * q + r - 1) with (r + q - 1 + q * 65535) by lia. by rewrite Z.mod_add.
Qed.

Lemma fold_carry_step s : Z.land s 0xFFFF + Z.shiftr s 16 = s mod 2 ^ 16 + s / 2 ^ 16.
Proof. rewrite Z.shiftr_div_pow2 by lia. f_equal. apply (Z.land_ones s 16). lia. Qed.

Lemma fold_carry_done s : 0 ≤ s < 2 ^ 32 → fold_carry 3 s = folded s.
Proof.
  intros Hs. assert (∀ x, 0 ≤ x → Z.shiftr x 16 = 0 ↔ x < 2 ^ 16) as Hz.
  { intros x Hx. rewrite Z.shiftr_div_pow2 by lia. rewrite Z.div_small_iff by lia. lia. }
  assert (∀ x b, 0 ≤ x < 2 ^ 16 * b → 0 ≤ x mod 2 ^ 16 + x / 2 ^ 16 ≤ 2 ^ 16 - 1 + (b - 1)) as Hb.
  { intros x b Hx. pose proof (Z.mod_pos_bound x (2 ^ 16) ltac:(lia)).
    pose proof (Z.div_pos x (2 ^ 16) ltac:(lia) ltac:(lia)). pose proof (Z.div_lt_upper_bound x (2 ^ 16) b ltac:(lia) ltac:(lia)). lia. }
  cbn [fold_carry]. rewrite fold_carry_step. destruct (Z.eqb_spec (Z.shiftr s 16) 0) as [H0|H0].
  { rewrite Hz in H0 by lia. by rewrite folded_small by lia. }
  pose proof (Hb s (2 ^ 16) ltac:(lia)) as H1. rewrite <-(folded_step s) by lia.
  set (s1 := s mod 2 ^ 16 + s / 2 ^ 16) in *. rewrite fold_carry_step.
  destruct (Z.eqb_spec (Z.shiftr s1 16) 0) as [H2|H2].
  { rewrite Hz in H2 by lia. by rewrite folded_small by lia. }
  rewrite Hz in H2 by lia. rewrite <-(folded_step s1) by lia.
  assert (s1 mod 2 ^ 16 = s1 - 2 ^ 16) as E1 by (symmetry; apply (Z.mod_unique_pos _ _ 1); lia).
  assert (s1 / 2 ^ 16 = 1) as E2 by (symmetry; apply (Z.div_unique_pos _ _ _ (s1 - 2 ^ 16)); lia).
  rewrite E1, E2. destruct (Z.eqb_spec (Z.shiftr (s1 - 2 ^ 16 + 1) 16) 0) as [H3|H3].
  - symmetry. apply folded_small. lia.
  - rewrite Hz in H3 by lia. lia.
Qed.

Lemma checksum_from_Ok sum data :
  bytes_ok data → 0 ≤ sum → sum + words data < 2 ^ 32 →
  checksum_from sum data = Ok (65535 - folded (sum + words data)).
Proof.
  intros Hb Hs Hlt. pose proof (words_bounds data Hb). unfold checksum_from. rewrite sum_words_Ok by done. cbn [mbind outcome_bind].
  rewrite fold_carry_done by lia. unfold as_u16. pose proof (folded_range (sum + words data) ltac:(lia)).
  by rewrite wrap_id by done.
Qed.

(** Filling in the checksum makes the sum come out as zero. *)
Lemma folded_complement s : 0 < s → folded (s + (65535 - folded s)) = 65535.
Proof.
  intros Hs. unfold folded. rewrite (proj2 (Z.eqb_neq s 0)) by lia.
  pose proof (Z.div_mod (s - 1) 65535 ltac:(lia)) as E. pose proof (Z.mod_pos_bound (s - 1) 65535 ltac:(lia)).
  set (q := (s - 1) / 65535) in *. set (r := (s - 1) mod 65535) in *.
  rewrite (proj2 (Z.eqb_neq _ 0)) by lia.
  replace (s + (65535 - (r + 1)) - 1) with (65534 + q * 65535) by lia.
  rewrite Z.mod_add by lia. done.
Qed.

(** ** Frames and packets are parsed as they are built *)

Definition array_ok (n : nat) (bs : list Z) : Prop := length bs = n ∧ bytes_ok bs.
Abbreviation ip_ok := (array_ok 4).
Abbreviation mac_ok := (array_ok 6).

Lemma length_push16 x : length (push16 x) = 2%nat.
Proof. done. Qed.

Lemma range_app_l {A} (l k : list A) n : length l = n → range (l ++ k) 0 n = Ok l.
Proof. intros <-. rewrite range_Ok by (rewrite length_app; lia). by rewrite drop_0, take_app_length. Qed.

Lemma range_app_r {A} (l k : list A) i n : (length l ≤ i)%nat → range (l ++ k) i n = range k (i - length l) n.
Proof.
  intros Hi. unfold range. rewrite length_app, drop_app_ge by done.
  destruct (Nat.leb_spec (i + n) (length l + length k)), (Nat.leb_spec (i - length l + n) (length k)); done || lia.
Qed.

Lemma EthernetFrame_parse_build dst src et payload :
  length dst = 6%nat → length src = 6%nat → in_u 16 et →
  EthernetFrame_parse (build_frame dst src et payload)
  = Ok (Some (mkEthernetFrame dst src et (payload ++ replicate (46 - length payload) 0))).
Proof.
  intros Hd Hs He. unfold EthernetFrame_parse, build_frame.
  set (pad := replicate _ _). assert (pad = replicate (46 - length payload) 0) as ->.
  { subst pad. f_equal. rewrite !length_app, length_push16. unfold MIN_FRAME_SIZE. lia. }
  rewrite <-!app_assoc. rewrite !length_app. destruct (Nat.ltb_spec (length dst + (length src + (length (push16 et) + (length payload + length (replicate (46 - length payload) 0))))) 14) as [Hlt|_].
  { rewrite length_push16 in Hlt. lia. }
  unfold u16_at. rewrite range_app_l by done. cbn [mbind outcome_bind].
  rewrite !(range_app_r dst), Hd by lia. cbn [Nat.sub]. rewrite range_app_l by done. cbn [mbind outcome_bind].
  rewrite range_app_r, Hs by lia. cbn [Nat.sub]. rewrite range_app_l by done. cbn [mbind outcome_bind].
  rewrite from_be_push16. unfold as_u16. rewrite wrap_id by done.
  rewrite drop_app_ge, Hd by lia. rewrite drop_app_ge, Hs by lia. rewrite drop_app_ge by done. by rewrite length_push16.
Qed.

Lemma packet_header_length src dst p id n ck :
  length src = 4%nat → length dst = 4%nat → length ck = 2%nat → length (packet_header src dst p id n ck) = 20%nat.
Proof. intros Hs Hd Hc. unfold packet_header. rewrite !length_app, !length_push16, Hs, Hd, Hc. done. Qed.

Lemma packet_header_ok src dst p id n ck :
  bytes_ok src → bytes_ok dst → in_u 8 p → bytes_ok ck → bytes_ok (packet_header src dst p id n ck).
Proof.
  intros Hs Hd Hp Hc. unfold packet_header, bytes_ok. rewrite !Forall_app. split_and!; try done; try apply push16_ok.
  - repeat constructor; unfold in_u; lia.
  - unfold DEFAULT_TTL. repeat constructor; unfold in_u in *; lia.
Qed.

(** The checksum field adds its own word. *)
Lemma packet_header_words src dst p id n ck :
  length src = 4%nat → length dst = 4%nat → length ck = 2%nat → in_u 16 n → 0 ≤ p → bytes_ok src → bytes_ok dst →
  words (packet_header src dst p id n ck) = words (packet_header src dst p id n [0; 0]) + words ck ∧
  0 < words (packet_header src dst p id n [0; 0]).
Proof.
  intros Hs Hd Hc Hn Hp Hbs Hbd. unfold packet_header. rewrite !words_app by (rewrite ?Hs, ?Hc; done).
  cbn [words]. rewrite !words_push16. pose proof (words_bounds src Hbs). pose proof (words_bounds dst Hbd).
  pose proof (wrap_range 16 n ltac:(lia)) as H1. pose proof (wrap_range 16 id ltac:(lia)) as H2. unfold as_u16, in_u, DEFAULT_TTL in *. lia.
Qed.

Section packet.
Context (src dst : Ipv4Addr) (p id : Z) (payload : list Z).
Hypothesis Hsrc : ip_ok src.
Hypothesis Hdst : ip_ok dst.
Hypothesis Hp : in_u 8 p.
Hypothesis Hid : in_u 16 id.
Hypothesis Hlen : len payload ≤ 65515.

Let n := 20 + len payload.
Let S0 := words (packet_header src dst p id n [0; 0]).
Let hdr := packet_header src dst p id n (push16 (65535 - folded S0)).

Lemma packet_sum : 0 < S0 ∧ S0 < 2 ^ 32 ∧ words hdr = S0 + (65535 - folded S0) ∧ words hdr < 2 ^ 32.
Proof.
  destruct Hsrc as [Hs Hsb], Hdst as [Hd Hdb]. pose proof (len_nonneg payload). unfold in_u in *.
  destruct (packet_header_words src dst p id n (push16 (65535 - folded S0))) as [Hw Hpos]; try done; [subst n; unfold in_u; lia|lia|].
  fold hdr S0 in Hw, Hpos. rewrite words_push16 in Hw. unfold as_u16 in Hw.
  pose proof (folded_range S0 ltac:(lia)). rewrite wrap_id in Hw by (unfold in_u; lia).
  pose proof (words_bounds (packet_header src dst p id n [0; 0])) as Hb.
  unfold len in Hb. rewrite packet_header_length in Hb by done. fold S0 in Hb.
  specialize (Hb ltac:(apply packet_header_ok; [done..|repeat constructor; unfold in_u; lia])). lia.
Qed.

Lemma packet_bytes_eq : packet_bytes src dst p id payload = Ok (hdr ++ payload).
Proof.
  destruct Hsrc as [Hs Hsb], Hdst as [Hd Hdb]. pose proof (len_nonneg payload). destruct packet_sum as (H0 & H1 & _).
  unfold packet_bytes, as_u16. rewrite wrap_id by (unfold in_u; lia). fold n.
  rewrite range_Ok by (rewrite packet_header_length; done || lia). cbn [mbind outcome_bind]. rewrite drop_0.
  rewrite take_ge by (rewrite packet_header_length; done || lia). unfold checksum. rewrite checksum_from_Ok; [done|..|lia|done].
  apply packet_header_ok; [done..|repeat constructor; unfold in_u; lia].
Qed.

Lemma Ipv4Packet_parse_build pad :
  Ipv4Packet_parse (hdr ++ payload ++ pad) = Ok (Some (mkIpv4Packet src dst p DEFAULT_TTL id n 20 payload)).
Proof.
  destruct Hsrc as [Hs Hsb], Hdst as [Hd Hdb]. pose proof (len_nonneg payload). destruct packet_sum as (H0 & H1 & H2 & H3).
  assert (length hdr = 20%nat) as Hl by (by apply packet_header_length).
  assert (in_u 16 n) as Hn by (subst n; unfold in_u; lia).
  unfold Ipv4Packet_parse. rewrite !length_app, Hl.
  destruct (Nat.ltb_spec (20 + (length payload + length pad)) 20) as [|_]; [lia|].
  assert (checksum (take 20 (hdr ++ payload ++ pad)) = Ok 0) as Hck.
  { rewrite take_app_length' by done. unfold checksum. rewrite checksum_from_Ok; [|..|lia|lia].
    - rewrite Z.add_0_l, H2, folded_complement by done. done.
    - apply packet_header_ok; [done..|apply push16_ok]. }
  assert (take 20 hdr = hdr) by (apply take_ge; lia).
  assert (u16_at (hdr ++ payload ++ pad) 2 = Ok n ∧ u16_at (hdr ++ payload ++ pad) 4 = Ok id ∧
          range (hdr ++ payload ++ pad) 12 4 = Ok src ∧ range (hdr ++ payload ++ pad) 16 4 = Ok dst) as (E1 & E2 & E3 & E4).
  { unfold hdr, packet_header, u16_at. rewrite <-!app_assoc.
    rewrite !(range_app_r [_; _]) by (simpl; lia). cbn [length Nat.sub].
    rewrite !(range_app_l (push16 n)) by done. rewrite !(range_app_r (push16 n)) by (rewrite length_push16; lia).
    rewrite length_push16. cbn [Nat.sub]. rewrite (range_app_l (push16 id)) by done. rewrite !(range_app_r (push16 id)) by (rewrite length_push16; lia).
    rewrite length_push16. cbn [Nat.sub]. rewrite !(range_app_r [_; _; _; _]) by (simpl; lia). cbn [length Nat.sub].
    rewrite !(range_app_r (push16 _)) by (rewrite length_push16; lia). rewrite length_push16. cbn [Nat.sub].
    rewrite (range_app_l src) by done. rewrite (range_app_r src) by lia. rewrite Hs. cbn [Nat.sub]. rewrite (range_app_l dst) by done.
    cbn [mbind outcome_bind]. rewrite !from_be_push16. unfold as_u16. by rewrite !wrap_id. }
  assert (at_ (hdr ++ payload ++ pad) 0 = Ok 69 ∧ at_ (hdr ++ payload ++ pad) 8 = Ok DEFAULT_TTL ∧ at_ (hdr ++ payload ++ pad) 9 = Ok p) as (A0 & A8 & A9) by done.
  rewrite A0. cbn [mbind outcome_bind]. change (Z.shiftr 69 4 =? 4) with true. cbn [negb].
  change (Z.to_nat (Z.land 69 15) * 4)%nat with 20%nat. change (20 <? 20)%nat with false. cbn [orb].
  destruct (Nat.ltb_spec (20 + (length payload + length pad)) 20) as [|_]; [lia|].
  rewrite E1. cbn [mbind outcome_bind]. destruct (Z.ltb_spec (len (hdr ++ payload ++ pad)) n) as [Hlt|_].
  { subst n. unfold len in *. rewrite !length_app in *. lia. }
  rewrite Hck. cbn [mbind outcome_bind Z.eqb negb]. rewrite E2, A8, A9, E3, E4. cbn [mbind outcome_bind].
  destruct (Nat.ltb_spec (Z.to_nat n) 20) as [|_]; [subst n; lia|].
  do 3 f_equal. unfold slice. rewrite drop_app_ge by lia. rewrite Hl. cbn [Nat.sub]. change (Z.to_nat (Z.of_nat 20) - 20)%nat with 0%nat.
  rewrite drop_0, take_app_length'; [done|]. subst n. unfold len. lia.
Qed.

Lemma packet_roundtrip :
  ∃ h, length h = 20%nat ∧ bytes_ok h ∧ packet_bytes src dst p id payload = Ok (h ++ payload) ∧
    ∀ pad, Ipv4Packet_parse (h ++ payload ++ pad)
           = Ok (Some (mkIpv4Packet src dst p DEFAULT_TTL id (20 + len payload) 20 payload)).
Proof.
  destruct Hsrc as [Hs Hsb], Hdst as [Hd Hdb]. exists hdr. split_and!.
  - by apply packet_header_length.
  - apply packet_header_ok; [done..|apply push16_ok].
  - apply packet_bytes_eq.
  - apply Ipv4Packet_parse_build.
Qed.
End packet.

(** ** Parsing any bytes *)

Lemma range_total {A} (l : list A) a n : (a + n ≤ length l)%nat → ∃ k, range l a n = Ok k ∧ length k = n ∧ k = take n (drop a l).
Proof. intros. rewrite range_Ok by done. eexists. split; [done|]. split; [|done]. rewrite length_take, length_drop. lia. Qed.

Lemma u16_at_total l i : bytes_ok l → (i + 2 ≤ length l)%nat → ∃ x, u16_at l i = Ok x ∧ in_u 16 x.
Proof.
  intros Hb Hl. unfold u16_at. rewrite range_Ok by done. eexists. split; [done|].
  unfold from_be_bytes. pose proof (from_le_bytes_range (rev (take 2 (drop i l)))) as Hr.
  unfold len in Hr. rewrite length_rev, length_take, length_drop in Hr. replace (min 2 (length l - i)) with 2%nat in Hr by lia.
  apply Hr. by apply Forall_rev, Forall_take, Forall_drop.
Qed.

Lemma u32_at_total l i : bytes_ok l → (i + 4 ≤ length l)%nat → ∃ x, u32_at l i = Ok x ∧ in_u 32 x.
Proof.
  intros Hb Hl. unfold u32_at. rewrite range_Ok by done. eexists. split; [done|].
  unfold from_be_bytes. pose proof (from_le_bytes_range (rev (take 4 (drop i l)))) as Hr.
  unfold len in Hr. rewrite length_rev, length_take, length_drop in Hr. replace (min 4 (length l - i)) with 4%nat in Hr by lia.
  apply Hr. by apply Forall_rev, Forall_take, Forall_drop.
Qed.

Lemma EthernetFrame_parse_Ok raw :
  (14 ≤ length raw)%nat →
  EthernetFrame_parse raw =
  Ok (Some (mkEthernetFrame (take 6 raw) (take 6 (drop 6 raw)) (from_be_bytes (take 2 (drop 12 raw))) (drop 14 raw))).
Proof.
  intros Hl. unfold EthernetFrame_parse, u16_at. rewrite (proj2 (Nat.ltb_ge _ _)) by lia.
  by rewrite !range_Ok by lia.
Qed.

Lemma EthernetFrame_parse_total raw :
  bytes_ok raw → ∃ o, EthernetFrame_parse raw = Ok o ∧
    match o with
    | Some f => f = mkEthernetFrame (take 6 raw) (take 6 (drop 6 raw)) (from_be_bytes (take 2 (drop 12 raw))) (drop 14 raw) ∧
                bytes_ok (eth_payload f) ∧ (length (eth_payload f) ≤ length raw)%nat
    | None => True
    end.
Proof.
  intros Hb. destruct (Nat.ltb_spec (length raw) 14) as [Hl|Hl].
  - exists None. unfold EthernetFrame_parse. by rewrite (proj2 (Nat.ltb_lt _ _)).
  - rewrite EthernetFrame_parse_Ok by done. eexists. split; [done|]. split; [done|]. cbn [eth_payload].
    split; [by apply Forall_drop|]. rewrite length_drop. lia.
Qed.

(** A packet of at most 65535 bytes is taken apart or refused, or its total length
    is smaller than its header. *)
(** A packet with a complete header, of version 4 and with a correct checksum, whose
    total length is smaller than its header. *)
Definition runt_packet (raw : list Z) : Prop :=
  let b0 := nth 0 raw 0 in
  let header := 4 * (b0 mod 16) in
  b0 / 16 = 4 ∧ 20 ≤ header ≤ len raw ∧ checksum (take (Z.to_nat header) raw) = Ok 0 ∧
  from_be_bytes (take 2 (drop 2 raw)) < header.

Lemma low_nibble x : Z.to_nat (4 * (x mod 16)) = (Z.to_nat (Z.land x 15) * 4)%nat.
Proof. change 15 with (Z.ones 4). rewrite Z.land_ones by lia. change (2 ^ 4) with 16. lia. Qed.

Lemma runt_intro raw b0 :
  let hl := (Z.to_nat (Z.land b0 15) * 4)%nat in
  raw !! 0%nat = Some b0 → Z.shiftr b0 4 = 4 → (20 ≤ hl)%nat → (hl ≤ length raw)%nat →
  checksum (take hl raw) = Ok 0 → (Z.to_nat (from_be_bytes (take 2 (drop 2 raw))) < hl)%nat → runt_packet raw.
Proof.
  intros hl H0 H4 H20 Hl Hc Ht. unfold runt_packet. rewrite (nth_lookup_Some _ _ _ _ H0).
  rewrite Z.shiftr_div_pow2 in H4 by lia. change (2 ^ 4) with 16 in H4.
  pose proof (low_nibble b0) as E. change (Z.to_nat (Z.land b0 15) * 4)%nat with hl in E.
  rewrite E. split_and!; try done; unfold len; lia.
Qed.

Lemma Ipv4Packet_parse_cases raw :
  bytes_ok raw → len raw < 2 ^ 16 →
  (∃ o, Ipv4Packet_parse raw = Ok o ∧ match o with Some p => bytes_ok (pkt_payload p) ∧ ip_ok (pkt_src p) ∧ len (pkt_payload p) ≤ len raw - 20 | None => True end) ∨
  (Ipv4Packet_parse raw = Panic ∧ runt_packet raw).
Proof.
  intros Hb Hl. unfold Ipv4Packet_parse, u16_at. destruct (Nat.ltb_spec (length raw) 20); [by left; exists None|].
  destruct (at_Ok raw 0) as (b0 & -> & Hb0); [lia|]. cbn [mbind outcome_bind].
  destruct (Z.eqb_spec (Z.shiftr b0 4) 4) as [H4|]; cbn [negb]; [|by left; exists None].
  set (hl := (Z.to_nat (Z.land b0 15) * 4)%nat). destruct (Nat.ltb_spec hl 20); [by left; exists None|].
  destruct (Nat.ltb_spec (length raw) hl); [by left; exists None|]. cbn [orb].
  rewrite !range_Ok by lia. cbn [mbind outcome_bind]. set (tl := from_be_bytes _).
  destruct (Z.ltb_spec (len raw) tl); [by left; exists None|].
  assert (bytes_ok (take hl raw)) as Hth by by apply Forall_take.
  pose proof (words_bounds _ Hth) as Hw. unfold len in Hw. rewrite length_take in Hw. unfold len in *.
  assert (checksum (take hl raw) = Ok (65535 - folded (0 + words (take hl raw)))) as Hc
    by (unfold checksum; by rewrite checksum_from_Ok by (done || lia)).
  rewrite Hc. cbn [mbind outcome_bind].
  destruct (Z.eqb_spec (65535 - folded (0 + words (take hl raw))) 0) as [Hz|]; cbn [negb]; [|by left; exists None].
  destruct (at_Ok raw 8) as (b8 & -> & _); [lia|]. destruct (at_Ok raw 9) as (b9 & -> & _); [lia|]. cbn [mbind outcome_bind].
  destruct (Nat.ltb_spec (Z.to_nat tl) hl); [right; split; [done|apply (runt_intro raw b0); try done; fold hl; by rewrite Hc, Hz]|]. left. eexists. split; [done|]. cbn [pkt_payload pkt_src].
  split; [by apply Forall_take, Forall_drop|].
  split; [split; [rewrite length_take, length_drop; lia|by apply Forall_take, Forall_drop]|].
  pose proof (length_slice raw (Z.of_nat hl) tl) as Hs. unfold len in Hs. lia.
Qed.

Lemma runt_packet_panics raw : bytes_ok raw → runt_packet raw → Ipv4Packet_parse raw = Panic.
Proof.
  unfold runt_packet. intros Hb (H4 & [H20 Hl] & Hc & Ht). unfold len in *.
  destruct raw as [|b0 raw]; [done|]. cbn [nth] in *. set (r := b0 :: raw) in *.
  assert (from_be_bytes (take 2 (drop 2 r)) < Z.of_nat (length r)) by lia.
  unfold Ipv4Packet_parse, u16_at. rewrite (proj2 (Nat.ltb_ge _ _)) by lia.
  change (at_ r 0) with (Ok (E := Empty_set) b0). cbn [mbind outcome_bind].
  rewrite Z.shiftr_div_pow2 by lia. change (2 ^ 4) with 16. rewrite H4. cbn [Z.eqb Pos.eqb negb].
  change 0x0F with 15. rewrite <-low_nibble.
  rewrite (proj2 (Nat.ltb_ge _ 20)), (proj2 (Nat.ltb_ge (length r) _)) by lia. cbn [orb].
  rewrite !range_Ok by lia. cbn [mbind outcome_bind].
  unfold len. rewrite (proj2 (Z.ltb_ge _ _)) by lia. rewrite Hc. cbn [mbind outcome_bind Z.eqb negb].
  destruct (at_Ok r 8) as (b8 & -> & _); [lia|]. destruct (at_Ok r 9) as (b9 & -> & _); [lia|]. cbn [mbind outcome_bind].
  by rewrite (proj2 (Nat.ltb_lt _ _)) by lia.
Qed.
