(* ===== verification/Ip.v ===== *)
(** * The IPv4 layer, ARP and ICMP

    The state behind [net/ipv4.rs] and [net/arp.rs]: the configuration of the
    interface, the number of the next packet, the table of resolved addresses, and
    the echo replies that wait for [ping].  The statics are those after [init].
    The field [pending] of the ARP table, which nothing uses, is left out. *)

From stdpp Require Import base numbers list gmap strings.
From S2P Require Import Prelude.
From S2P Require Import Bytes.
From S2P Require Import Net.

(** ** State *)

Record ArpEntry := mkArpEntry { entry_mac : MacAddress; entry_ttl : Z }.
Definition ARP_TTL : Z := 30000.

Record IcmpEchoReply := mkIcmpEchoReply {
  reply_src : Ipv4Addr; reply_id : Z; reply_seq : Z; reply_ttl : Z; data_len : Z; rx_tick : Z }.

Record ip_layer := mkIpLayer {
  config : IpConfig;
  next_id : Z;
  arp_entries : gmap Ipv4Addr ArpEntry;
  icmp_replies : list IcmpEchoReply;
  icmp_tick : Z;
}.
Definition ip_init : ip_layer := mkIpLayer default_config 1 ∅ [] 0.

Definition with_config (c : IpConfig) (s : ip_layer) : ip_layer :=
  mkIpLayer c (next_id s) (arp_entries s) (icmp_replies s) (icmp_tick s).
Definition with_next_id (i : Z) (s : ip_layer) : ip_layer :=
  mkIpLayer (config s) i (arp_entries s) (icmp_replies s) (icmp_tick s).
Definition with_arp (a : gmap Ipv4Addr ArpEntry) (s : ip_layer) : ip_layer :=
  mkIpLayer (config s) (next_id s) a (icmp_replies s) (icmp_tick s).
Definition with_replies (r : list IcmpEchoReply) (s : ip_layer) : ip_layer :=
  mkIpLayer (config s) (next_id s) (arp_entries s) r (icmp_tick s).
Definition with_tick (t : Z) (s : ip_layer) : ip_layer :=
  mkIpLayer (config s) (next_id s) (arp_entries s) (icmp_replies s) t.

(** Code that may panic, in a state. *)
Definition liftc {S E A} (o : checked A) : M S E A := λ s, (map_err (λ e : Empty_set, match e with end) o, s).

Abbreviation IpM := (M ip_layer NetError).

(** ** Configuration *)

Definition set_config (c : IpConfig) : IpM unit := modify (with_config c).
Definition set_mac (m : MacAddress) : IpM unit :=
  c ← gets config; modify (with_config (mkIpConfig (cfg_ip c) (netmask c) (gateway c) (dns c) m)).

(** ** ARP *)

Definition arp_lookup (addr : Ipv4Addr) : IpM (option MacAddress) := gets (λ s, entry_mac <$> arp_entries s !! addr).
Definition arp_insert (addr : Ipv4Addr) (m : MacAddress) : IpM unit :=
  modify (λ s, with_arp (<[addr := mkArpEntry m ARP_TTL]> (arp_entries s)) s).

Definition arp_process_incoming (payload : list Z) (our_mac : MacAddress) (our_ip : Ipv4Addr) : IpM (option (list Z)) :=
  if (length payload <? 28)%nat then mret None
  else
    htype ← liftc (u16_at payload 0);
    ptype ← liftc (u16_at payload 2);
    if negb (htype =? 1) || negb (ptype =? 0x0800) then mret None
    else
      op ← liftc (u16_at payload 6);
      sender_mac ← liftc (range payload 8 6);
      sender_ip ← liftc (range payload 14 4);
      target_ip ← liftc (range payload 22 4);
      arp_insert sender_ip sender_mac;;
      if op =? OP_REQUEST then
        mret (if bool_decide (target_ip = our_ip) then Some (arp_build_reply our_mac our_ip sender_mac sender_ip) else None)
      else mret None.

(** ** Packets *)

Definition build_packet (dst : Ipv4Addr) (protocol : Z) (payload : list Z) : IpM (list Z) :=
  id ← gets next_id;
  modify (with_next_id (wadd 16 id 1));;
  cfg ← gets config;
  liftc (packet_bytes (cfg_ip cfg) dst protocol id payload).

Definition next_hop (dst : Ipv4Addr) (cfg : IpConfig) : Ipv4Addr := if is_local dst cfg then dst else gateway cfg.

Definition send_packet (dst : Ipv4Addr) (protocol : Z) (payload : list Z) : IpM (option (list Z)) :=
  cfg ← gets config;
  ip_pkt ← build_packet dst protocol payload;
  dst_mac ← arp_lookup (next_hop dst cfg);
  mret (m ← dst_mac; Some (build_frame m (mac cfg) ETHERTYPE_IPV4 ip_pkt)).

Definition arp_request_for (dst : Ipv4Addr) : IpM (list Z) :=
  cfg ← gets config; mret (arp_build_request (mac cfg) (cfg_ip cfg) (next_hop dst cfg)).

(** ** ICMP *)

Definition do_icmp_tick : IpM unit := modify (λ s, with_tick (wadd 64 (icmp_tick s) 1) s).

Definition echo_request (id seq : Z) : checked (list Z) :=
  let payload := [8; 0; 0; 0] ++ push16 id ++ push16 seq ++ (Z.of_nat <$> List.seq 0 56) in
  ck ← checksum payload;
  Ok (<[2%nat := as_u8 (Z.shiftr ck 8)]> (<[3%nat := as_u8 ck]> payload)).

Fixpoint remove_first {A} (f : A → bool) (l : list A) : option (A * list A) :=
  match l with
  | [] => None
  | x :: l => if f x then Some (x, l) else '(y, k) ← remove_first f l; Some (y, x :: k)
  end.

Definition recv_echo_reply (id seq : Z) : IpM (option IcmpEchoReply) :=
  replies ← gets icmp_replies;
  match remove_first (λ r, (reply_id r =? id) && (reply_seq r =? seq)) replies with
  | Some (r, rest) => modify (with_replies rest);; mret (Some r)
  | None => mret None
  end.

Definition process_icmp (pkt : Ipv4Packet) : IpM (option (list Z)) :=
  let p := pkt_payload pkt in
  if (length p <? 8)%nat then mret None
  else
    icmp_type ← liftc (at_ p 0);
    if icmp_type =? 0 then
      id ← liftc (u16_at p 4);
      seq ← liftc (u16_at p 6);
      now ← gets icmp_tick;
      modify (λ s, with_replies (icmp_replies s ++ [mkIcmpEchoReply (pkt_src pkt) id seq (ttl pkt) (len p - 8) now]) s);;
      mret None
    else if icmp_type =? 8 then
      let reply := <[3%nat := 0]> (<[2%nat := 0]> (<[0%nat := 0]> p)) in
      ck ← liftc (checksum reply);
      send_packet (pkt_src pkt) PROTO_ICMP (<[3%nat := as_u8 ck]> (<[2%nat := as_u8 (Z.shiftr ck 8)]> reply))
    else mret None.

(** ** What the layer keeps *)

Record ip_layer_ok (s : ip_layer) : Prop := {
  ok_ip : ip_ok (cfg_ip (config s));
  ok_mac : mac_ok (mac (config s));
  ok_next_id : in_u 16 (next_id s);
  ok_arp : map_Forall (λ _ e, mac_ok (entry_mac e)) (arp_entries s);
}.

Lemma ip_init_ok : ip_layer_ok ip_init.
Proof.
  split; [split; [done|]|split; [done|]|unfold in_u; simpl; lia|by apply map_Forall_empty];
    repeat constructor; unfold in_u; lia.
Qed.

Lemma wp_liftc {S E A} (o : checked A) (Q : A → S → Prop) (X : option E → S → Prop) s :
  (∀ a, o = Ok a → Q a s) → (o = Panic → X None s) → wp (liftc o) Q X s.
Proof. intros HQ HX. unfold wp, liftc. destruct o as [a|[]|]; simpl; auto. Qed.

Lemma triple_liftc {S E A} (I : S → Prop) (X : option E → Prop) (o : checked A) (Q : A → Prop) :
  (∃ a, o = Ok a ∧ Q a) → triple I X (liftc o) Q.
Proof. intros (a & -> & Ha) s Hs. by split. Qed.

Lemma wadd_range w a b : 0 ≤ w → in_u w (wadd w a b).
Proof. intros. by apply wrap_range. Qed.

Lemma with_next_id_ok s i : ip_layer_ok s → in_u 16 i → ip_layer_ok (with_next_id i s).
Proof. intros [] Hi. by split. Qed.

Lemma arp_insert_ok X addr m : mac_ok m → triple ip_layer_ok X (arp_insert addr m) (λ _, True).
Proof.
  intros Hm. apply triple_modify. intros s [H1 H2 H3 H4]. split; try done. by apply map_Forall_insert_2.
Qed.

(** ** Packets that arrive as they were sent *)

(** The frame is addressed to [m] and carries [payload] from [src] to [dst]. *)
Definition carries (frame : list Z) (m : MacAddress) (src dst : Ipv4Addr) (p : Z) (payload : list Z) : Prop :=
  ∃ eth pkt, EthernetFrame_parse frame = Ok (Some eth) ∧ eth_dst eth = m ∧ ethertype eth = ETHERTYPE_IPV4 ∧
    Ipv4Packet_parse (eth_payload eth) = Ok (Some pkt) ∧ pkt_src pkt = src ∧ pkt_dst pkt = dst ∧
    protocol pkt = p ∧ pkt_payload pkt = payload.

Section send.
Context (dst : Ipv4Addr) (p : Z) (payload : list Z).
Hypothesis Hdst : ip_ok dst.
Hypothesis Hp : in_u 8 p.
Hypothesis Hlen : len payload ≤ 65515.

Lemma send_packet_spec s :
  ip_layer_ok s →
  ∃ o, send_packet dst p payload s = (Ok o, with_next_id (wadd 16 (next_id s) 1) s) ∧
    match arp_entries s !! next_hop dst (config s) with
    | Some e => ∃ f, o = Some f ∧ carries f (entry_mac e) (cfg_ip (config s)) dst p payload
    | None => o = None
    end.
Proof.
  intros Hs. destruct (packet_roundtrip (cfg_ip (config s)) dst p (next_id s) payload) as (h & Hh & _ & Hb & Hpar);
    try done; [apply Hs..|].
  assert (send_packet dst p payload s = (Ok ((λ e, build_frame (entry_mac e) (mac (config s)) ETHERTYPE_IPV4 (h ++ payload)) <$> arp_entries s !! next_hop dst (config s)), with_next_id (wadd 16 (next_id s) 1) s)) as ->.
  { unfold send_packet, build_packet, arp_lookup, gets, modify, liftc, mbind, M_bind. cbn [config with_next_id arp_entries].
    rewrite Hb. cbn [map_err]. by destruct (_ !! _). }
  eexists. split; [done|]. destruct (_ !! _) as [e|] eqn:He; [|done]. eexists. split; [done|].
  destruct (ok_arp s Hs _ _ He) as [Hm _]. destruct (ok_mac s Hs) as [Hm' _].
  do 2 eexists. split; [apply EthernetFrame_parse_build; [done|done|unfold in_u, ETHERTYPE_IPV4; lia]|].
  split; [done|]. split; [done|]. cbn [eth_payload]. rewrite <-app_assoc. split; [apply Hpar|]. done.
Qed.

Lemma send_packet_ok X : triple ip_layer_ok X (send_packet dst p payload) (λ _, True).
Proof.
  intros s Hs. destruct (send_packet_spec s Hs) as (o & Ho & _). unfold wp. rewrite Ho.
  split; [|done]. apply with_next_id_ok; [done|]. apply wadd_range. lia.
Qed.
End send.

(** ** Incoming ARP and ICMP *)

Lemma arp_process_ok X payload m addr :
  bytes_ok payload → triple ip_layer_ok X (arp_process_incoming payload m addr) (λ _, True).
Proof.
  intros Hb. unfold arp_process_incoming. destruct (Nat.ltb_spec (length payload) 28); [by apply triple_ret|].
  eapply triple_bind; [apply triple_liftc, u16_at_total; [done|lia]|]. intros ht _.
  eapply triple_bind; [apply triple_liftc, u16_at_total; [done|lia]|]. intros pt _.
  destruct (_ || _); [by apply triple_ret|].
  eapply triple_bind; [apply triple_liftc, u16_at_total; [done|lia]|]. intros op _.
  eapply triple_bind; [apply triple_liftc, range_total; lia|]. intros sm [Hl Hsm].
  eapply triple_bind; [apply triple_liftc, range_total; lia|]. intros si [Hli Hsi].
  eapply triple_bind; [apply triple_liftc, range_total; lia|]. intros ti _.
  eapply triple_bind; [apply arp_insert_ok; split; [done|]; subst; by apply Forall_take, Forall_drop|].
  intros _ _. destruct (_ =? _); by apply triple_ret.
Qed.

Lemma process_icmp_ok X pkt :
  ip_ok (pkt_src pkt) → bytes_ok (pkt_payload pkt) → len (pkt_payload pkt) ≤ 65515 →
  triple ip_layer_ok X (process_icmp pkt) (λ _, True).
Proof.
  intros Hs Hb Hl. unfold process_icmp. destruct (Nat.ltb_spec (length (pkt_payload pkt)) 8); [by apply triple_ret|].
  eapply (triple_bind _ _ _ _ (λ _, True)); [apply triple_liftc|].
  { destruct (at_Ok (pkt_payload pkt) 0) as (x & -> & _); [lia|]. by exists x. }
  intros ty _. destruct (_ =? _).
  { eapply triple_bind; [apply triple_liftc, u16_at_total; [done|lia]|]. intros id _.
    eapply triple_bind; [apply triple_liftc, u16_at_total; [done|lia]|]. intros sq _.
    eapply triple_bind; [by apply (triple_gets _ _ _ (λ _, True))|]. intros now _.
    eapply triple_bind; [apply triple_modify; intros s []; by split|]. intros _ _. by apply triple_ret. }
  destruct (_ =? _); [|by apply triple_ret].
  set (reply := <[3%nat:=0]> _). assert (bytes_ok reply ∧ len reply = len (pkt_payload pkt)) as [Hr Hrl].
  { split; [|unfold reply, len; by rewrite !length_insert].
    unfold reply. repeat (apply Forall_insert; [|unfold in_u; lia]). done. }
  pose proof (words_bounds reply Hr). eapply (triple_bind _ _ _ _ (λ _, True)); [apply triple_liftc|].
  { eexists. split; [apply checksum_from_Ok; [done|lia|lia]|]. done. }
  intros ck _. apply send_packet_ok; [done|unfold in_u, PROTO_ICMP; lia|]. unfold len in *. rewrite !length_insert. lia.
Qed.
