(* ===== verification/Udp.v ===== *)
(** * UDP

    [net/udp.rs]: datagrams with their checksum, and a queue of at most 64
    datagrams for every bound port.  What is sent is parsed as it was sent; the
    queue of a port holds the last datagrams that arrived, in their order. *)

From stdpp Require Import base numbers list gmap strings.
From S2P Require Import Prelude.
From S2P Require Import Bytes.
From S2P Require Import Net.
From S2P Require Import Ip.

(** ** The code *)

Record UdpPacket := mkUdpPacket { src_port : Z; dst_port : Z; udp_length : Z; udp_payload : list Z }.

Definition UdpPacket_parse (data : list Z) : checked (option UdpPacket) :=
  if (length data <? 8)%nat then Ok None
  else
    src_port ← u16_at data 0;
    dst_port ← u16_at data 2;
    length_ ← u16_at data 4;
    let payload_len := Z.to_nat (Z.max 0 (length_ - 8)) in
    if (length data <? 8 + payload_len)%nat then Ok None
    else payload ← range data 8 payload_len; Ok (Some (mkUdpPacket src_port dst_port length_ payload)).

Record ReceivedDatagram := mkReceivedDatagram { dgram_src_ip : Ipv4Addr; dgram_src_port : Z; dgram_data : list Z }.

Record udp_layer := mkUdpLayer { sockets : gmap Z (list ReceivedDatagram); next_ephemeral : Z }.
Definition udp_init : udp_layer := mkUdpLayer ∅ 49152.
Definition with_sockets (t : gmap Z (list ReceivedDatagram)) (s : udp_layer) : udp_layer := mkUdpLayer t (next_ephemeral s).

Abbreviation UdpM := (M udp_layer NetError).

Definition udp_bind (port : Z) : UdpM Z :=
  port ← (if port =? 0 then
            p ← gets next_ephemeral; modify (λ s, mkUdpLayer (sockets s) (wadd 16 p 1));; mret p
          else mret port);
  modify (λ s, with_sockets (<[port := default [] (sockets s !! port)]> (sockets s)) s);;
  mret port.
Definition udp_unbind (port : Z) : UdpM unit := modify (λ s, with_sockets (delete port (sockets s)) s).

Definition checksum_with_pseudo (data : list Z) (pseudo : Z) : checked Z :=
  result ← checksum_from pseudo data; Ok (if result =? 0 then 0xFFFF else result).

Definition udp_header (src_port dst_port udp_len : Z) (ck : list Z) : list Z :=
  push16 src_port ++ push16 dst_port ++ push16 udp_len ++ ck.
Definition udp_segment (our_ip : Ipv4Addr) (src_port : Z) (dst_ip : Ipv4Addr) (dst_port : Z) (payload : list Z) : checked (list Z) :=
  let udp_len := as_u16 (8 + len payload) in
  phdr ← pseudo_header_checksum our_ip dst_ip PROTO_UDP udp_len;
  cksum ← checksum_with_pseudo (udp_header src_port dst_port udp_len [0; 0] ++ payload) phdr;
  Ok (udp_header src_port dst_port udp_len (push16 cksum) ++ payload).
Definition build_udp_segment (src_port : Z) (dst_ip : Ipv4Addr) (dst_port : Z) (payload : list Z) : IpM (list Z) :=
  cfg ← gets config; liftc (udp_segment (cfg_ip cfg) src_port dst_ip dst_port payload).
Definition build_datagram (src_port : Z) (dst_ip : Ipv4Addr) (dst_port : Z) (payload : list Z) : IpM (list Z) :=
  udp ← build_udp_segment src_port dst_ip dst_port payload; build_packet dst_ip PROTO_UDP udp.
Definition udp_send (src_port : Z) (dst_ip : Ipv4Addr) (dst_port : Z) (payload : list Z) : IpM (option (list Z)) :=
  udp ← build_udp_segment src_port dst_ip dst_port payload; send_packet dst_ip PROTO_UDP udp.

(** [while queue.len() > 64 { queue.pop_front(); }] *)
Fixpoint pop_over {A} (fuel : nat) (q : list A) : list A :=
  match fuel, q with
  | S fuel, _ :: q' => if (64 <? length q)%nat then pop_over fuel q' else q
  | _, _ => q
  end.

Definition udp_process_incoming (src_ip : Ipv4Addr) (data : list Z) : UdpM unit :=
  pkt ← liftc (UdpPacket_parse data);
  match pkt with
  | None => mret tt
  | Some pkt =>
      modify (λ s,
        match sockets s !! dst_port pkt with
        | Some q =>
            let q := q ++ [mkReceivedDatagram src_ip (src_port pkt) (udp_payload pkt)] in
            with_sockets (<[dst_port pkt := pop_over (length q) q]> (sockets s)) s
        | None => s
        end)
  end.

Definition udp_recv (port : Z) : UdpM (option ReceivedDatagram) :=
  q ← gets (λ s, sockets s !! port);
  match q with
  | Some (d :: q) => modify (λ s, with_sockets (<[port := q]> (sockets s)) s);; mret (Some d)
  | _ => mret None
  end.
Definition has_data (port : Z) (s : udp_layer) : bool :=
  match sockets s !! port with Some q => negb (bool_decide (q = [])) | None => false end.

(** ** Datagrams are parsed as they are built *)

Section segment.
Context (our_ip dst_ip : Ipv4Addr) (sp dp : Z) (payload : list Z).
Hypothesis Hour : ip_ok our_ip.
Hypothesis Hdst : ip_ok dst_ip.
Hypothesis Hsp : in_u 16 sp.
Hypothesis Hdp : in_u 16 dp.
Hypothesis Hpay : bytes_ok payload.
Hypothesis Hlen : len payload ≤ 65507.

Lemma UdpPacket_parse_build ck :
  length ck = 2%nat →
  UdpPacket_parse (udp_header sp dp (8 + len payload) ck ++ payload) = Ok (Some (mkUdpPacket sp dp (8 + len payload) payload)).
Proof.
  intros Hck. pose proof (len_nonneg payload). unfold UdpPacket_parse, udp_header, u16_at. rewrite <-!app_assoc.
  rewrite !length_app, !length_push16, Hck.
  destruct (Nat.ltb_spec (2 + (2 + (2 + (2 + length payload)))) 8) as [|_]; [lia|].
  rewrite (range_app_l (push16 sp)) by done. rewrite !(range_app_r (push16 sp)) by (rewrite length_push16; lia).
  rewrite length_push16. cbn [Nat.sub]. rewrite (range_app_l (push16 dp)) by done.
  rewrite !(range_app_r (push16 dp)) by (rewrite length_push16; lia). rewrite length_push16. cbn [Nat.sub].
  rewrite (range_app_l (push16 _)) by done. cbn [mbind outcome_bind]. rewrite !from_be_push16.
  unfold as_u16. rewrite !(wrap_id 16) by (done || unfold in_u; lia).
  replace (Z.to_nat (Z.max 0 (8 + len payload - 8))) with (length payload) by (unfold len; lia).
  destruct (Nat.ltb_spec (2 + (2 + (2 + (2 + length payload)))) (8 + length payload)) as [|_]; [lia|].
  do 3 (rewrite (range_app_r (push16 _)) by (rewrite length_push16; lia); rewrite length_push16; cbn [Nat.sub]).
  rewrite (range_app_r ck) by lia. rewrite Hck. cbn [Nat.sub].
  rewrite range_Ok by lia. cbn [mbind outcome_bind]. by rewrite drop_0, take_ge by lia.
Qed.

Lemma udp_segment_spec :
  ∃ seg, udp_segment our_ip sp dst_ip dp payload = Ok seg ∧ bytes_ok seg ∧ len seg = 8 + len payload ∧
    UdpPacket_parse seg = Ok (Some (mkUdpPacket sp dp (8 + len payload) payload)).
Proof.
  destruct Hour as [Ho Hob], Hdst as [Hd Hdb]. pose proof (len_nonneg payload).
  unfold udp_segment, pseudo_header_checksum, as_u16. rewrite wrap_id by (unfold in_u; lia).
  assert (bytes_ok (our_ip ++ dst_ip)) as Hb by (by apply Forall_app).
  pose proof (words_bounds _ Hb) as Hw. unfold len in Hw. rewrite length_app, Ho, Hd in Hw.
  rewrite sum_words_Ok by (done || lia). cbn [mbind outcome_bind]. unfold PROTO_UDP.
  rewrite !add_Ok by (unfold in_u; lia). cbn [mbind outcome_bind]. rewrite add_Ok by (unfold in_u; lia). cbn [mbind outcome_bind].
  assert (bytes_ok (udp_header sp dp (8 + len payload) [0; 0] ++ payload)) as Hb'.
  { unfold udp_header, bytes_ok. rewrite !Forall_app. split_and!; try apply push16_ok; [|done]. repeat constructor; unfold in_u; lia. }
  pose proof (words_bounds _ Hb') as Hw'. rewrite len_app in Hw'.
  change (len (udp_header sp dp (8 + len payload) [0; 0])) with 8 in Hw'.
  unfold checksum_with_pseudo. rewrite checksum_from_Ok by (done || lia). cbn [mbind outcome_bind].
  eexists. split; [done|]. split_and!.
  - unfold udp_header, bytes_ok. rewrite !Forall_app. split_and!; try apply push16_ok. done.
  - by rewrite len_app.
  - apply UdpPacket_parse_build. done.
Qed.
End segment.

Lemma UdpPacket_parse_total data : bytes_ok data → ∃ o, UdpPacket_parse data = Ok o.
Proof.
  intros Hb. unfold UdpPacket_parse. destruct (Nat.ltb_spec (length data) 8); [by exists None|].
  destruct (u16_at_total data 0 Hb) as (x & -> & _); [lia|]. destruct (u16_at_total data 2 Hb) as (y & -> & _); [lia|].
  destruct (u16_at_total data 4 Hb) as (z & -> & _); [lia|]. cbn [mbind outcome_bind].
  destruct (Nat.ltb_spec (length data) (8 + Z.to_nat (Z.max 0 (z - 8)))); [by exists None|].
  rewrite range_Ok by lia. by eexists.
Qed.

(** ** Queues *)

Lemma pop_over_spec {A} fuel (q : list A) : (length q ≤ fuel)%nat → pop_over fuel q = drop (length q - 64) q.
Proof.
  revert q. induction fuel as [|fuel IH]; intros [|x q] Hl; try done; [simpl in Hl; lia|].
  cbn [pop_over]. destruct (Nat.ltb_spec 64 (length (x :: q))) as [H|H].
  - rewrite IH by (simpl in *; lia). simpl length in *. replace (S (length q) - 64)%nat with (S (length q - 64)) by lia. done.
  - replace (length (x :: q) - 64)%nat with 0%nat by lia. by rewrite drop_0.
Qed.

(** Every port is bound at most once and holds at most 64 datagrams. *)
Definition udp_layer_ok (s : udp_layer) : Prop :=
  map_Forall (λ _ q, (length q ≤ 64)%nat) (sockets s) ∧ in_u 16 (next_ephemeral s).

Lemma udp_init_ok : udp_layer_ok udp_init.
Proof. split; [by apply map_Forall_empty|unfold in_u; simpl; lia]. Qed.

Lemma udp_process_ok X src data : bytes_ok data → triple udp_layer_ok X (udp_process_incoming src data) (λ _, True).
Proof.
  intros Hb. unfold udp_process_incoming. destruct (UdpPacket_parse_total data Hb) as [o Ho].
  eapply (triple_bind _ _ _ _ (λ _, True)); [apply triple_liftc; by exists o|]. intros [pkt|] _; [|by apply triple_ret].
  apply triple_modify. intros s [Hs Hp]. destruct (sockets s !! dst_port pkt) as [q|]; [|done].
  split; [|done]. apply map_Forall_insert_2; [|done]. rewrite pop_over_spec by done. rewrite length_drop. lia.
Qed.

Lemma udp_bind_ok X port : triple udp_layer_ok X (udp_bind port) (λ _, True).
Proof.
  unfold udp_bind. eapply (triple_bind _ _ _ _ (λ _, True)).
  - destruct (_ =? _); [|by apply triple_ret]. eapply (triple_bind _ _ _ _ (λ _, True)); [by apply triple_gets|].
    intros p _. eapply triple_bind; [|by intros; apply triple_ret]. apply triple_modify. intros s [Hs Hp].
    split; [done|]. apply wadd_range. lia.
  - intros p _. eapply triple_bind; [|by intros; apply triple_ret]. apply triple_modify. intros s [Hs Hp].
    split; [|done]. apply map_Forall_insert_2; [|done]. destruct (sockets s !! p) eqn:He; simpl; [by apply (Hs p)|lia].
Qed.

Lemma udp_unbind_ok X port : triple udp_layer_ok X (udp_unbind port) (λ _, True).
Proof. apply triple_modify. intros s [Hs Hp]. split; [by apply map_Forall_delete|done]. Qed.

Lemma udp_recv_ok X port : triple udp_layer_ok X (udp_recv port) (λ _, True).
Proof.
  intros s [Hs Hp]. unfold udp_recv. apply wp_bind, wp_gets. destruct (sockets s !! port) as [[|d q]|] eqn:He; [done| |done].
  apply wp_bind, wp_modify, wp_ret. split; [|done]. split; [|done]. apply map_Forall_insert_2; [|done].
  specialize (Hs port _ He). simpl in Hs. lia.
Qed.

(** A datagram that arrives for a bound port is queued last; the first of more
    than 64 is dropped. *)
Lemma udp_process_queue s src sp dp n payload data q :
  UdpPacket_parse data = Ok (Some (mkUdpPacket sp dp n payload)) → sockets s !! dp = Some q → (length q ≤ 64)%nat →
  ∃ s', udp_process_incoming src data s = (Ok tt, s') ∧
    sockets s' = <[dp := drop (length q - 63) q ++ [mkReceivedDatagram src sp payload]]> (sockets s).
Proof.
  intros Hd Hq Hl. eexists. unfold udp_process_incoming, mbind, M_bind, liftc, modify. rewrite Hd. cbn [map_err dst_port src_port udp_payload].
  rewrite Hq. split; [done|]. cbn [sockets with_sockets]. f_equal. rewrite pop_over_spec by done.
  rewrite length_app. simpl (length [_]). replace (length q + 1 - 64)%nat with (length q - 63)%nat by lia.
  rewrite drop_app_le by lia. done.
Qed.
