(* ===== verification/Tcp.v ===== *)
(** * TCP connections

    [net/tcp.rs], one connection: segments, their construction, and the state
    machine that processes them.  The tables of connections and the operations
    that transmit are in [Stack]. *)

From stdpp Require Import base numbers list gmap strings.
From S2P Require Import Prelude.
From S2P Require Import Bytes.
From S2P Require Import Net.
From S2P Require Import Ip.

(** ** The code *)

Definition FIN : Z := 0x01.
Definition SYN : Z := 0x02.
Definition RST : Z := 0x04.
Definition PSH : Z := 0x08.
Definition ACK : Z := 0x10.
Definition MSS : nat := 1460.
Definition WINDOW_SIZE : Z := 8192.

Inductive TcpState :=
| Closed | Listen | SynSent | SynReceived | Established | FinWait1 | FinWait2 | CloseWait | Closing | LastAck | TimeWait.
#[export] Instance TcpState_eq : EqDecision TcpState.
Proof. solve_decision. Defined.

Definition as_str (s : TcpState) : string :=
  match s with
  | Closed => "CLOSED" | Listen => "LISTEN" | SynSent => "SYN_SENT" | SynReceived => "SYN_RECEIVED"
  | Established => "ESTABLISHED" | FinWait1 => "FIN_WAIT_1" | FinWait2 => "FIN_WAIT_2" | CloseWait => "CLOSE_WAIT"
  | Closing => "CLOSING" | LastAck => "LAST_ACK" | TimeWait => "TIME_WAIT"
  end.

Record TcpSegment := mkTcpSegment {
  seg_src_port : Z; seg_dst_port : Z; seg_seq : Z; seg_ack : Z; data_offset : Z; seg_flags : Z; seg_window : Z; seg_payload : list Z }.

Definition TcpSegment_parse (data : list Z) : checked (option TcpSegment) :=
  if (length data <? 20)%nat then Ok None
  else
    src_port ← u16_at data 0;
    dst_port ← u16_at data 2;
    seq ← u32_at data 4;
    ack ← u32_at data 8;
    b12 ← at_ data 12;
    let data_offset := (Z.to_nat (Z.shiftr b12 4) * 4)%nat in
    flags ← at_ data 13;
    window ← u16_at data 14;
    if ((data_offset <? 20) || (length data <? data_offset))%nat then Ok None
    else Ok (Some (mkTcpSegment src_port dst_port seq ack (Z.of_nat data_offset) flags window (drop data_offset data))).

Record RetxEntry := mkRetxEntry { retx_seq : Z; retx_data : list Z; retries : Z; tick_sent : Z }.

Record TcpConnection := mkConn {
  state : TcpState;
  local : SocketAddr;
  remote : SocketAddr;
  snd_nxt : Z;
  snd_una : Z;
  iss : Z;
  rcv_nxt : Z;
  irs : Z;
  snd_wnd : Z;
  recv_buf : list Z;
  send_buf : list Z;
  tx_queue : list (list Z);
  retx_queue : list RetxEntry;
  tick : Z;
}.

Definition new_conn : TcpConnection :=
  mkConn Closed (mkSocketAddr LOCALHOST 0) (mkSocketAddr LOCALHOST 0) 0 0 0 0 0 WINDOW_SIZE [] [] [] [] 0.

Section setters.
Context (c : TcpConnection).
Definition set_state (x : TcpState) : TcpConnection :=
  mkConn x (local c) (remote c) (snd_nxt c) (snd_una c) (iss c) (rcv_nxt c) (irs c) (snd_wnd c) (recv_buf c) (send_buf c) (tx_queue c) (retx_queue c) (tick c).
Definition set_local (x : SocketAddr) : TcpConnection :=
  mkConn (state c) x (remote c) (snd_nxt c) (snd_una c) (iss c) (rcv_nxt c) (irs c) (snd_wnd c) (recv_buf c) (send_buf c) (tx_queue c) (retx_queue c) (tick c).
Definition set_snd_nxt (x : Z) : TcpConnection :=
  mkConn (state c) (local c) (remote c) x (snd_una c) (iss c) (rcv_nxt c) (irs c) (snd_wnd c) (recv_buf c) (send_buf c) (tx_queue c) (retx_queue c) (tick c).
Definition set_snd_una (x : Z) : TcpConnection :=
  mkConn (state c) (local c) (remote c) (snd_nxt c) x (iss c) (rcv_nxt c) (irs c) (snd_wnd c) (recv_buf c) (send_buf c) (tx_queue c) (retx_queue c) (tick c).
Definition set_rcv_nxt (x : Z) : TcpConnection :=
  mkConn (state c) (local c) (remote c) (snd_nxt c) (snd_una c) (iss c) x (irs c) (snd_wnd c) (recv_buf c) (send_buf c) (tx_queue c) (retx_queue c) (tick c).
Definition set_irs (x : Z) : TcpConnection :=
  mkConn (state c) (local c) (remote c) (snd_nxt c) (snd_una c) (iss c) (rcv_nxt c) x (snd_wnd c) (recv_buf c) (send_buf c) (tx_queue c) (retx_queue c) (tick c).
Definition set_snd_wnd (x : Z) : TcpConnection :=
  mkConn (state c) (local c) (remote c) (snd_nxt c) (snd_una c) (iss c) (rcv_nxt c) (irs c) x (recv_buf c) (send_buf c) (tx_queue c) (retx_queue c) (tick c).
Definition set_recv_buf (x : list Z) : TcpConnection :=
  mkConn (state c) (local c) (remote c) (snd_nxt c) (snd_una c) (iss c) (rcv_nxt c) (irs c) (snd_wnd c) x (send_buf c) (tx_queue c) (retx_queue c) (tick c).
Definition set_send_buf (x : list Z) : TcpConnection :=
  mkConn (state c) (local c) (remote c) (snd_nxt c) (snd_una c) (iss c) (rcv_nxt c) (irs c) (snd_wnd c) (recv_buf c) x (tx_queue c) (retx_queue c) (tick c).
Definition set_tx_queue (x : list (list Z)) : TcpConnection :=
  mkConn (state c) (local c) (remote c) (snd_nxt c) (snd_una c) (iss c) (rcv_nxt c) (irs c) (snd_wnd c) (recv_buf c) (send_buf c) x (retx_queue c) (tick c).
Definition set_retx_queue (x : list RetxEntry) : TcpConnection :=
  mkConn (state c) (local c) (remote c) (snd_nxt c) (snd_una c) (iss c) (rcv_nxt c) (irs c) (snd_wnd c) (recv_buf c) (send_buf c) (tx_queue c) x (tick c).
Definition set_tick (x : Z) : TcpConnection :=
  mkConn (state c) (local c) (remote c) (snd_nxt c) (snd_una c) (iss c) (rcv_nxt c) (irs c) (snd_wnd c) (recv_buf c) (send_buf c) (tx_queue c) (retx_queue c) x.
End setters.

Definition seq_lt (a b : Z) : bool := as_i32 (wsub 32 a b) <? 0.

Definition has (flags f : Z) : bool := negb (Z.land flags f =? 0).

(** The segment that [build_segment] puts together: the header with the checksum
    field [ck], and the number it carries. *)
Definition tcp_header (l r : SocketAddr) (seq ack flags : Z) (ck : list Z) : list Z :=
  push16 (port l) ++ push16 (port r) ++ push32 seq ++ push32 ack ++ [0x50; flags] ++ push16 WINDOW_SIZE ++ ck ++ [0; 0].
Definition tcp_bytes (l r : SocketAddr) (seq ack flags : Z) (payload : list Z) : checked (list Z) :=
  let tcp_len := 20 + len payload in
  phdr ← pseudo_header_checksum (ip l) (ip r) PROTO_TCP (as_u16 tcp_len);
  cksum ← checksum_from phdr (tcp_header l r seq ack flags [0; 0] ++ payload);
  Ok (tcp_header l r seq ack flags (push16 cksum) ++ payload).
Definition segment_seq (c : TcpConnection) (flags : Z) : Z := if has flags SYN then iss c else snd_nxt c.

Definition build_segment (c : TcpConnection) (flags : Z) (payload : list Z) : IpM (option (list Z) * TcpConnection) :=
  seg ← liftc (tcp_bytes (local c) (remote c) (segment_seq c flags) (rcv_nxt c) flags payload);
  seq_advance ← (if has flags SYN || has flags FIN then liftc (add 32 (as_u32 (len payload)) 1) else mret (as_u32 (len payload)));
  let c := set_snd_nxt c (wadd 32 (snd_nxt c) seq_advance) in
  frame ← send_packet (ip (remote c)) PROTO_TCP seg;
  mret (frame, c).

(** [if let Some(frame) = build_segment(conn, flags, &[]) { conn.tx_queue.push_back(frame) }] *)
Definition queue_segment (c : TcpConnection) (flags : Z) : IpM TcpConnection :=
  '(frame, c) ← build_segment c flags [];
  mret (match frame with Some f => set_tx_queue c (tx_queue c ++ [f]) | None => c end).

(** Data in order is appended and acknowledged. *)
Definition accept_payload (c : TcpConnection) (seg : TcpSegment) : TcpConnection :=
  set_rcv_nxt (set_recv_buf c (recv_buf c ++ seg_payload seg)) (wadd 32 (rcv_nxt c) (as_u32 (len (seg_payload seg)))).
Definition in_order (c : TcpConnection) (seg : TcpSegment) : bool :=
  negb (bool_decide (seg_payload seg = [])) && (seg_seq seg =? rcv_nxt c).
Definition accept_fin (c : TcpConnection) (st : TcpState) : IpM TcpConnection :=
  queue_segment (set_state (set_rcv_nxt c (wadd 32 (rcv_nxt c) 1)) st) ACK.

Definition established_segment (c : TcpConnection) (seg : TcpSegment) : IpM TcpConnection :=
  if has (seg_flags seg) RST then mret (set_state c Closed)
  else
    let c := if has (seg_flags seg) ACK then
               set_retx_queue (set_snd_wnd (set_snd_una c (seg_ack seg)) (seg_window seg))
                 (List.filter (λ e, seq_lt (seg_ack seg) (wadd 32 (retx_seq e) (as_u32 (len (retx_data e))))) (retx_queue c))
             else c in
    c ← (if in_order c seg then queue_segment (accept_payload c seg) ACK else mret c);
    if has (seg_flags seg) FIN then accept_fin c CloseWait else mret c.

Definition process_segment (c : TcpConnection) (seg : TcpSegment) : IpM TcpConnection :=
  t ← liftc (add 32 (tick c) 1);
  let c := set_tick c t in
  let flags := seg_flags seg in
  match state c with
  | SynSent =>
      if Z.land flags (Z.lor SYN ACK) =? Z.lor SYN ACK then
        let c := set_state (set_snd_wnd (set_snd_una (set_rcv_nxt (set_irs c (seg_seq seg)) (wadd 32 (seg_seq seg) 1)) (seg_ack seg)) (seg_window seg)) Established in
        c ← queue_segment c ACK;
        mret (set_retx_queue c [])
      else if has flags RST then mret (set_state c Closed) else mret c
  | SynReceived =>
      if has flags ACK then mret (set_retx_queue (set_state (set_snd_una c (seg_ack seg)) Established) []) else mret c
  | Established => established_segment c seg
  | FinWait1 =>
      if has flags ACK then
        let c := set_snd_una c (seg_ack seg) in
        if has flags FIN then accept_fin c TimeWait else mret (set_state c FinWait2)
      else mret c
  | FinWait2 =>
      c ← (if has flags FIN then accept_fin c TimeWait else mret c);
      mret (if in_order c seg then accept_payload c seg else c)
  | LastAck => mret (if has flags ACK then set_state c Closed else c)
  | Closing => mret (if has flags ACK then set_state c TimeWait else c)
  | CloseWait => mret (if in_order c seg then accept_payload c seg else c)
  | Closed | Listen | TimeWait => mret c
  end.

(** What [connect] makes of a connection, and the connection that
    [process_incoming] makes for a listener. *)
Definition connecting (c : TcpConnection) (l r : SocketAddr) (isn : Z) : TcpConnection :=
  mkConn SynSent l r (wadd 32 isn 1) isn isn (rcv_nxt c) (irs c) (snd_wnd c) (recv_buf c) (send_buf c) (tx_queue c) (retx_queue c) (tick c).
Definition accepted (l r : SocketAddr) (isn : Z) (seg : TcpSegment) : TcpConnection :=
  mkConn SynReceived l r (wadd 32 isn 1) isn isn (wadd 32 (seg_seq seg) 1) (seg_seq seg) (seg_window seg) [] [] [] [] 0.

(** ** Segments are parsed as they are built *)

Definition sock_ok (a : SocketAddr) : Prop := ip_ok (ip a) ∧ in_u 16 (port a).

Lemma length_push32 x : length (push32 x) = 4%nat.
Proof. done. Qed.

(** The segment that the peer sees. *)
Definition segment_of (c : TcpConnection) (flags : Z) (payload : list Z) : TcpSegment :=
  mkTcpSegment (port (local c)) (port (remote c)) (segment_seq c flags) (rcv_nxt c) 20 flags WINDOW_SIZE payload.

Lemma TcpSegment_parse_build l r seq ack flags ck payload :
  in_u 16 (port l) → in_u 16 (port r) → in_u 32 seq → in_u 32 ack → length ck = 2%nat →
  TcpSegment_parse (tcp_header l r seq ack flags ck ++ payload)
  = Ok (Some (mkTcpSegment (port l) (port r) seq ack 20 flags WINDOW_SIZE payload)).
Proof.
  intros Hl Hr Hs Ha Hck. destruct ck as [|k0 [|k1 [|]]]; try done. unfold TcpSegment_parse, tcp_header.
  assert (∀ x y : Z, in_u 16 x → x = y → from_be_bytes (push16 x) = y) as H16.
  { intros x y Hx <-. rewrite from_be_push16. by apply wrap_id. }
  assert (∀ x y : Z, in_u 32 x → x = y → from_be_bytes (push32 x) = y) as H32.
  { intros x y Hx <-. rewrite from_be_push32. by apply wrap_id. }
  unfold push16, push32 in *. cbn [app length Nat.ltb Nat.leb]. unfold u16_at, u32_at, at_, range. cbn [Nat.add length Nat.leb drop take mbind outcome_bind lookup list_lookup ok_or_panic].
  rewrite !(H16 _ _ Hl eq_refl), !(H16 _ _ Hr eq_refl), !(H32 _ _ Hs eq_refl), !(H32 _ _ Ha eq_refl), (H16 WINDOW_SIZE _ ltac:(unfold in_u, WINDOW_SIZE; lia) eq_refl).
  done.
Qed.

Lemma tcp_header_length l r seq ack flags ck : length ck = 2%nat → length (tcp_header l r seq ack flags ck) = 20%nat.
Proof. intros Hc. unfold tcp_header. rewrite !length_app, Hc. done. Qed.

Lemma tcp_header_ok l r seq ack flags ck : in_u 8 flags → bytes_ok ck → bytes_ok (tcp_header l r seq ack flags ck).
Proof.
  intros Hf Hc. unfold tcp_header, bytes_ok. rewrite !Forall_app. split_and!; try done; try apply push16_ok; try apply push32_ok;
    repeat constructor; unfold in_u in *; lia.
Qed.

Lemma tcp_bytes_spec l r seq ack flags payload :
  sock_ok l → sock_ok r → in_u 32 seq → in_u 32 ack → in_u 8 flags → bytes_ok payload → len payload ≤ 65495 →
  ∃ seg, tcp_bytes l r seq ack flags payload = Ok seg ∧ len seg = 20 + len payload ∧
    TcpSegment_parse seg = Ok (Some (mkTcpSegment (port l) (port r) seq ack 20 flags WINDOW_SIZE payload)).
Proof.
  intros [[Hl Hlb] Hlp] [[Hr Hrb] Hrp] Hs Ha Hf Hp Hlen. pose proof (len_nonneg payload).
  unfold tcp_bytes, pseudo_header_checksum, as_u16, PROTO_TCP. rewrite wrap_id by (unfold in_u; lia).
  assert (bytes_ok (ip l ++ ip r)) as Hb by (by apply Forall_app).
  pose proof (words_bounds _ Hb) as Hw. unfold len in Hw. rewrite length_app, Hl, Hr in Hw.
  rewrite sum_words_Ok by (done || lia). cbn [mbind outcome_bind].
  rewrite !add_Ok by (unfold in_u; lia). cbn [mbind outcome_bind]. rewrite add_Ok by (unfold in_u; lia). cbn [mbind outcome_bind].
  set (h := tcp_header l r seq ack flags [0; 0] ++ payload). assert (bytes_ok h) as Hh.
  { apply Forall_app. split; [|done]. apply tcp_header_ok; [done|]. repeat constructor; unfold in_u; lia. }
  pose proof (words_bounds h Hh) as Hwh. assert (len h = 20 + len payload) as E.
  { unfold h, len. rewrite length_app, tcp_header_length by done. lia. }
  rewrite E in Hwh. rewrite checksum_from_Ok by (done || lia). cbn [mbind outcome_bind].
  eexists. split; [done|]. split; [unfold len; rewrite length_app, tcp_header_length by done; lia|].
  by apply TcpSegment_parse_build.
Qed.

(** What a segment from the network satisfies. *)
Definition seg_ok (seg : TcpSegment) : Prop := in_u 32 (seg_seq seg) ∧ in_u 16 (seg_src_port seg) ∧ in_u 16 (seg_dst_port seg).

Lemma TcpSegment_parse_total data :
  bytes_ok data → ∃ o, TcpSegment_parse data = Ok o ∧ match o with Some seg => seg_ok seg | None => True end.
Proof.
  intros Hb. unfold TcpSegment_parse. destruct (Nat.ltb_spec (length data) 20); [by exists None|].
  destruct (u16_at_total data 0 Hb) as (a & -> & Ha); [lia|]. destruct (u16_at_total data 2 Hb) as (b & -> & Hb'); [lia|].
  destruct (u32_at_total data 4 Hb) as (c & -> & Hc); [lia|]. destruct (u32_at_total data 8 Hb) as (d & -> & _); [lia|].
  destruct (at_Ok data 12) as (e & -> & _); [lia|]. destruct (at_Ok data 13) as (f & -> & _); [lia|].
  destruct (u16_at_total data 14 Hb) as (g & -> & _); [lia|]. cbn [mbind outcome_bind].
  destruct (_ || _); [by exists None|]. by eexists.
Qed.

(** ** Building segments never fails *)

Record conn_ok (c : TcpConnection) : Prop := {
  conn_local : sock_ok (local c);
  conn_remote : sock_ok (remote c);
  conn_snd : in_u 32 (snd_nxt c);
  conn_iss : in_u 32 (iss c);
  conn_rcv : in_u 32 (rcv_nxt c);
}.

Definition advance (flags : Z) (payload : list Z) : Z := len payload + (if has flags SYN || has flags FIN then 1 else 0).

Lemma segment_seq_ok c flags : conn_ok c → in_u 32 (segment_seq c flags).
Proof. intros []. unfold segment_seq. by destruct (has _ _). Qed.

Lemma build_segment_spec c flags payload s :
  conn_ok c → ip_layer_ok s → in_u 8 flags → bytes_ok payload → len payload ≤ 65495 →
  ∃ o s', build_segment c flags payload s = (Ok (o, set_snd_nxt c (wadd 32 (snd_nxt c) (advance flags payload))), s') ∧
    s' = with_next_id (wadd 16 (next_id s) 1) s ∧ ip_layer_ok s' ∧
    match arp_entries s !! next_hop (ip (remote c)) (config s) with
    | Some e => ∃ f seg, o = Some f ∧ carries f (entry_mac e) (cfg_ip (config s)) (ip (remote c)) PROTO_TCP seg ∧
        TcpSegment_parse seg = Ok (Some (segment_of c flags payload))
    | None => o = None
    end.
Proof.
  intros Hc Hs Hf Hp Hlen. pose proof (len_nonneg payload).
  destruct (tcp_bytes_spec (local c) (remote c) (segment_seq c flags) (rcv_nxt c) flags payload) as (seg & Hseg & Hl & Hpar);
    try done; try apply Hc; [by apply segment_seq_ok|].
  destruct (send_packet_spec (ip (remote c)) PROTO_TCP seg (proj1 (conn_remote c Hc)) ltac:(unfold in_u, PROTO_TCP; lia) ltac:(lia) s Hs) as (o & Ho & Hm).
  exists o. eexists. split; [|split; [reflexivity|split]].
  - unfold build_segment, mbind, M_bind, liftc, mret, M_ret. rewrite Hseg. cbn [map_err]. unfold advance, as_u32. rewrite wrap_id by (unfold in_u; lia).
    rewrite add_Ok by (unfold in_u; lia). cbn [map_err]. destruct (_ || _); cbn [remote set_snd_nxt]; rewrite ?Z.add_0_r, Ho; done.
  - apply with_next_id_ok; [done|]. apply wadd_range. lia.
  - destruct (_ !! _); [|done]. destruct Hm as (f & -> & Hcar). exists f, seg. done.
Qed.

(** Queueing a segment changes the number of the next byte and the queue. *)
Lemma queue_segment_spec c flags s :
  conn_ok c → ip_layer_ok s → in_u 8 flags →
  ∃ q s', queue_segment c flags s = (Ok (set_tx_queue (set_snd_nxt c (wadd 32 (snd_nxt c) (advance flags []))) q), s') ∧
    s' = with_next_id (wadd 16 (next_id s) 1) s ∧ ip_layer_ok s'.
Proof.
  intros Hc Hs Hf. destruct (build_segment_spec c flags [] s) as (o & s' & Hb & -> & Hs' & _); try done; [constructor|].
  unfold queue_segment, mbind, M_bind. rewrite Hb. destruct o as [f|].
  - by exists (tx_queue c ++ [f]), (with_next_id (wadd 16 (next_id s) 1) s).
  - by exists (tx_queue c), (with_next_id (wadd 16 (next_id s) 1) s).
Qed.

(** ** The receiving side

    What the application sees of a connection: its state, and the bytes that came
    in with the number of the next one.  [receive] is the state machine on these;
    [process_segment] is shown to implement it. *)

Record receiver := mkReceiver { r_state : TcpState; r_nxt : Z; r_buf : list Z }.
Definition view (c : TcpConnection) : receiver := mkReceiver (state c) (rcv_nxt c) (recv_buf c).

Definition go (st : TcpState) (r : receiver) : receiver := mkReceiver st (r_nxt r) (r_buf r).
Definition take_data (seg : TcpSegment) (r : receiver) : receiver :=
  if negb (bool_decide (seg_payload seg = [])) && (seg_seq seg =? r_nxt r) then
    mkReceiver (r_state r) (wadd 32 (r_nxt r) (as_u32 (len (seg_payload seg)))) (r_buf r ++ seg_payload seg)
  else r.
Definition take_fin (st : TcpState) (r : receiver) : receiver := mkReceiver st (wadd 32 (r_nxt r) 1) (r_buf r).

Definition receive (seg : TcpSegment) (r : receiver) : receiver :=
  let fl := seg_flags seg in
  match r_state r with
  | SynSent =>
      if Z.land fl (Z.lor SYN ACK) =? Z.lor SYN ACK then mkReceiver Established (wadd 32 (seg_seq seg) 1) (r_buf r)
      else if has fl RST then go Closed r else r
  | SynReceived => if has fl ACK then go Established r else r
  | Established =>
      if has fl RST then go Closed r
      else if has fl FIN then take_fin CloseWait (take_data seg r) else take_data seg r
  | FinWait1 => if has fl ACK then if has fl FIN then take_fin TimeWait r else go FinWait2 r else r
  | FinWait2 => take_data seg (if has fl FIN then take_fin TimeWait r else r)
  | CloseWait => take_data seg r
  | LastAck => if has fl ACK then go Closed r else r
  | Closing => if has fl ACK then go TimeWait r else r
  | Closed | Listen | TimeWait => r
  end.

(** [c'] is a connection with the endpoints, the clock and the next byte to send of
    [c] that shows [r]. *)
Definition becomes (c c' : TcpConnection) (r : receiver) : Prop :=
  view c' = r ∧ conn_ok c' ∧ local c' = local c ∧ remote c' = remote c ∧ tick c' = tick c ∧ snd_nxt c' = snd_nxt c.

Lemma ACK_byte : in_u 8 ACK.
Proof. unfold in_u, ACK. lia. Qed.

Lemma queue_becomes c s r :
  conn_ok c → ip_layer_ok s → view c = r →
  ∃ c' s', queue_segment c ACK s = (Ok c', s') ∧ (∃ i, s' = with_next_id i s) ∧ ip_layer_ok s' ∧ becomes c c' r.
Proof.
  intros Hc Hs <-. destruct (queue_segment_spec c ACK s Hc Hs ACK_byte) as (q & s' & Hq & -> & Hs').
  assert (wadd 32 (snd_nxt c) (advance ACK []) = snd_nxt c) as E.
  { unfold wadd. change (advance ACK []) with 0. rewrite Z.add_0_r. apply wrap_id, Hc. }
  rewrite E in Hq. eexists _, _. split; [done|]. split; [by eexists|]. split; [done|]. split; [done|]. split; [|done].
  destruct Hc. by split.
Qed.

Lemma accept_payload_ok c seg : conn_ok c → conn_ok (accept_payload c seg).
Proof. intros []. split; try done. apply wadd_range. lia. Qed.

Lemma accept_payload_view c seg :
  view (if in_order c seg then accept_payload c seg else c) = take_data seg (view c).
Proof. unfold take_data, in_order. cbn [view r_nxt r_state r_buf]. by destruct (_ && _). Qed.

Lemma accept_fin_spec c st s :
  conn_ok c → ip_layer_ok s →
  ∃ c' s', accept_fin c st s = (Ok c', s') ∧ (∃ i, s' = with_next_id i s) ∧ ip_layer_ok s' ∧ becomes c c' (take_fin st (view c)).
Proof.
  intros Hc Hs. unfold accept_fin. apply (queue_becomes (set_state (set_rcv_nxt c (wadd 32 (rcv_nxt c) 1)) st)); [|done|done].
  destruct Hc. split; try done. apply wadd_range. lia.
Qed.

Lemma with_next_id_twice i j s : with_next_id i (with_next_id j s) = with_next_id i s.
Proof. done. Qed.

Lemma with_next_id_self s : with_next_id (next_id s) s = s.
Proof. by destruct s. Qed.

(** A step that ends with [mret]. *)
Lemma ret_becomes (c c' : TcpConnection) (s : ip_layer) r :
  conn_ok c' → ip_layer_ok s → view c' = r → local c' = local c → remote c' = remote c → tick c' = tick c → snd_nxt c' = snd_nxt c →
  ∃ c'' s', (mret c' : IpM TcpConnection) s = (Ok c'', s') ∧ (∃ i, s' = with_next_id i s) ∧ ip_layer_ok s' ∧ becomes c c'' r.
Proof.
  intros Hc Hs Hv Hl Hr Ht Hn. exists c', s. split; [done|]. split; [exists (next_id s); by rewrite with_next_id_self|]. done.
Qed.

Lemma established_spec c seg s :
  conn_ok c → ip_layer_ok s → state c = Established →
  ∃ c' s', established_segment c seg s = (Ok c', s') ∧ (∃ i, s' = with_next_id i s) ∧ ip_layer_ok s' ∧ becomes c c' (receive seg (view c)).
Proof.
  intros Hc Hs He. unfold established_segment, receive. cbn [view r_state]. rewrite He.
  destruct (has (seg_flags seg) RST).
  { apply ret_becomes; try done. by destruct Hc; split. }
  set (c1 := if has (seg_flags seg) ACK then _ else c).
  assert (conn_ok c1 ∧ view c1 = view c ∧ local c1 = local c ∧ remote c1 = remote c ∧ tick c1 = tick c ∧ snd_nxt c1 = snd_nxt c) as (Hc1 & Hv1 & Hl1 & Hr1 & Ht1 & Hn1).
  { subst c1. destruct (has (seg_flags seg) ACK); [|done]. split; [by destruct Hc; split|]. done. }
  assert (∃ c2 s2, (if in_order c1 seg then queue_segment (accept_payload c1 seg) ACK else mret c1) s = (Ok c2, s2) ∧
    (∃ i, s2 = with_next_id i s) ∧ ip_layer_ok s2 ∧ becomes c1 c2 (take_data seg (view c1))) as (c2 & s2 & E2 & [i ->] & Hs2 & Hb2).
  { rewrite <-accept_payload_view. destruct (in_order c1 seg).
    - destruct (queue_becomes (accept_payload c1 seg) s _ (accept_payload_ok c1 seg Hc1) Hs eq_refl) as (c2 & s2 & ? & ? & ? & ?).
      by exists c2, s2.
    - by apply ret_becomes. }
  destruct Hb2 as (Hv2 & Hc2 & Hl2 & Hr2 & Ht2 & Hn2). unfold mbind, M_bind. rewrite E2. rewrite Hv1 in Hv2.
  replace (mkReceiver (state c) (rcv_nxt c) (recv_buf c)) with (view c) by done.
  replace (mkReceiver Established (rcv_nxt c) (recv_buf c)) with (view c) by (unfold view; by rewrite He).
  destruct (has (seg_flags seg) FIN).
  - destruct (accept_fin_spec c2 CloseWait _ Hc2 Hs2) as (c3 & s3 & E3 & [j ->] & Hs3 & Hv3 & Hc3 & Hl3 & Hr3 & Ht3 & Hn3).
    rewrite E3. eexists _, _. split; [done|]. split; [exists j; apply with_next_id_twice|]. split; [done|].
    split; [by rewrite Hv3, Hv2|]. split; [done|]. split_and!; congruence.
  - eexists _, _. split; [done|]. split; [by exists i|]. split; [done|]. split; [done|]. split; [done|]. split_and!; congruence.
Qed.

Lemma set_tick_ok c t : conn_ok c → conn_ok (set_tick c t).
Proof. intros []. by split. Qed.

Lemma process_segment_spec c seg s :
  conn_ok c → ip_layer_ok s → in_u 32 (tick c + 1) →
  ∃ c' s', process_segment c seg s = (Ok c', s') ∧ (∃ i, s' = with_next_id i s) ∧ ip_layer_ok s' ∧
    becomes (set_tick c (tick c + 1)) c' (receive seg (view c)).
Proof.
  intros Hc Hs Ht. unfold process_segment, mbind at 1, M_bind at 1, liftc. rewrite add_Ok by done. cbn [map_err].
  set (c1 := set_tick c (tick c + 1)). assert (conn_ok c1) as Hc1 by by apply set_tick_ok.
  change (view c) with (view c1).
  unfold receive. cbn [view r_state]. destruct (state c1) eqn:Hst.
  - by apply ret_becomes.
  - by apply ret_becomes.
  - destruct (_ =? _).
    + edestruct (queue_becomes (set_state (set_snd_wnd (set_snd_una (set_rcv_nxt (set_irs c1 (seg_seq seg)) (wadd 32 (seg_seq seg) 1)) (seg_ack seg)) (seg_window seg)) Established) s)
        as (c2 & s2 & E2 & Hi & Hs2 & Hv2 & Hc2 & Hl2 & Hr2 & Ht2); [|done|reflexivity|].
      { destruct Hc1. split; try done. apply wadd_range. lia. }
      unfold mbind, M_bind. rewrite E2. eexists _, _. split; [done|]. split; [done|]. split; [done|].
      split; [done|]. split; [by destruct Hc2; split|done].
    + destruct (has _ _); apply ret_becomes; try done; first [by destruct Hc1; split|unfold view; by rewrite Hst].
  - destruct (has _ _); apply ret_becomes; try done; first [by destruct Hc1; split|unfold view; by rewrite Hst].
  - pose proof (established_spec c1 seg s Hc1 Hs Hst) as H. unfold receive in H. cbn [view r_state] in H. by rewrite Hst in H.
  - destruct (has _ _); [|by apply ret_becomes].
    destruct (has _ _); [|apply ret_becomes; try done; by destruct Hc1; split].
    destruct (accept_fin_spec (set_snd_una c1 (seg_ack seg)) TimeWait s) as (c2 & s2 & ? & ? & ? & ?); [by destruct Hc1; split|done|].
    by exists c2, s2.
  - assert (∃ c2 s2, (if has (seg_flags seg) FIN then accept_fin c1 TimeWait else mret c1) s = (Ok c2, s2) ∧
      (∃ i, s2 = with_next_id i s) ∧ ip_layer_ok s2 ∧ becomes c1 c2 (if has (seg_flags seg) FIN then take_fin TimeWait (view c1) else view c1))
      as (c2 & s2 & E2 & Hi & Hs2 & Hv2 & Hc2 & Hl2 & Hr2 & Ht2).
    { destruct (has _ _); [by apply accept_fin_spec|by apply ret_becomes]. }
    unfold mbind, M_bind. rewrite E2. eexists _, _. split; [done|]. split; [done|]. split; [done|].
    split; [|split; [|by destruct (in_order c2 seg)]].
    + rewrite accept_payload_view, Hv2. unfold view. by rewrite Hst.
    + destruct (in_order c2 seg); [by apply accept_payload_ok|done].
  - apply ret_becomes; try done; try by destruct (in_order c1 seg).
    + destruct (in_order c1 seg); [by apply accept_payload_ok|done].
    + rewrite accept_payload_view. unfold view. by rewrite Hst.
  - destruct (has _ _); apply ret_becomes; try done; first [by destruct Hc1; split|unfold view; by rewrite Hst].
  - destruct (has _ _); apply ret_becomes; try done; first [by destruct Hc1; split|unfold view; by rewrite Hst].
  - by apply ret_becomes.
Qed.



(** ** A connection receives what its peer sends

    The peer sends [stream]; its first byte has the number [base].  The network
    loses, repeats and reorders segments; the application reads when it likes and
    sends in between. *)

Section stream.
Context (base : Z) (stream : list Z).







Lemma wrap32_inj a b : 0 ≤ a < 2 ^ 32 → 0 ≤ b < 2 ^ 32 → wrap 32 (base + a) = wrap 32 (base + b) → a = b.
Proof.
  intros Ha Hb H. unfold wrap in H. rewrite <-(Z.mod_small a (2 ^ 32)), <-(Z.mod_small b (2 ^ 32)) by lia.
  replace a with (base + a - base) by lia. replace b with (base + b - base) by lia.
  by rewrite <-(Zminus_mod_idemp_l (base + a)), <-(Zminus_mod_idemp_l (base + b)), H.
Qed.

Hypothesis Hlen : len stream < 2 ^ 32 - 1.















End stream.


Fixpoint process_segments (c : TcpConnection) (segs : list TcpSegment) : IpM TcpConnection :=
  match segs with
  | [] => mret c
  | seg :: segs => c ← process_segment c seg; process_segments c segs
  end.





Definition demo_conn : TcpConnection := set_state new_conn Established.



(** ** What goes wrong at the edges *)

(** Sending and processing a segment, whatever the state of the layer below. *)
Definition after_send (c : TcpConnection) (flags : Z) (c' : TcpConnection) : Prop :=
  ∀ s, ip_layer_ok s → ∃ o s', build_segment c flags [] s = (Ok (o, c'), s').
Definition after_segment (c : TcpConnection) (seg : TcpSegment) (P : TcpConnection → Prop) : Prop :=
  ∀ s, ip_layer_ok s → ∃ c' s', process_segment c seg s = (Ok c', s') ∧ P c'.

Lemma after_segment_intro c seg (P : TcpConnection → Prop) :
  conn_ok c → in_u 32 (tick c + 1) → (∀ c', becomes (set_tick c (tick c + 1)) c' (receive seg (view c)) → P c') →
  after_segment c seg P.
Proof.
  intros Hc Ht HP s Hs. destruct (process_segment_spec c seg s Hc Hs Ht) as (c' & s' & E & _ & _ & Hb). exists c', s'. auto.
Qed.

Lemma after_send_intro c flags c' :
  conn_ok c → in_u 8 flags → c' = set_snd_nxt c (wadd 32 (snd_nxt c) (advance flags [])) → after_send c flags c'.
Proof.
  intros Hc Hf -> s Hs. destruct (build_segment_spec c flags [] s) as (o & s' & E & _); try done; [constructor|]. eauto.
Qed.

(** Data whose number is not the expected one changes nothing. *)
Lemma out_of_order_dropped c seg :
  conn_ok c → in_u 32 (tick c + 1) → state c = Established → has (seg_flags seg) FIN = false → seg_seq seg ≠ rcv_nxt c →
  after_segment c seg (λ c', recv_buf c' = recv_buf c).
Proof.
  intros Hc Ht Hst Hf Hne. apply after_segment_intro; [done..|]. intros c' (Hv & _).
  unfold receive, take_data in Hv. cbn [view r_state r_nxt r_buf] in Hv. rewrite Hst, Hf, (proj2 (Z.eqb_neq _ _) Hne), andb_false_r in Hv.
  apply (f_equal r_buf) in Hv. by destruct (has _ RST).
Qed.

Lemma wadd32_ne x a b : 0 ≤ a < 2 ^ 32 → 0 ≤ b < 2 ^ 32 → a ≠ b → wadd 32 x a ≠ wadd 32 x b.
Proof. intros Ha Hb Hne E. apply Hne. by apply (wrap32_inj x). Qed.

Lemma wadd32_wadd x a b : wadd 32 (wadd 32 x a) b = wadd 32 x (a + b).
Proof. unfold wadd, wrap. rewrite Zplus_mod_idemp_l. f_equal. lia. Qed.

(** [connect] counts the SYN when it sets [snd_nxt], and [build_segment] counts it
    again; the side that accepts does the same.  After the handshake both sides are
    established, but the first byte either of them sends has a number one beyond the
    one its peer expects: two kernels that are connected to each other drop the data
    of each other. *)
Theorem handshake_loses_data l r isn_a isn_b data data' :
  sock_ok l → sock_ok r → in_u 32 isn_a → in_u 32 isn_b →
  let a := connecting new_conn l r isn_a in
  let a1 := set_snd_nxt a (wadd 32 isn_a 2) in
  let b := accepted r l isn_b (segment_of a SYN []) in
  let b1 := set_snd_nxt b (wadd 32 isn_b 2) in
  after_send a SYN a1 ∧ after_send b (Z.lor SYN ACK) b1 ∧
  after_segment a1 (segment_of b (Z.lor SYN ACK) []) (λ a2, state a2 = Established ∧
    after_segment b1 (segment_of a2 ACK []) (λ b2, state b2 = Established ∧
      after_segment b2 (segment_of a2 (Z.lor PSH ACK) data) (λ b3, recv_buf b3 = []) ∧
      after_segment a2 (segment_of b2 (Z.lor PSH ACK) data') (λ a3, recv_buf a3 = []))).
Proof.
  intros Hl Hr Ha Hb a a1 b b1.
  assert (conn_ok a ∧ conn_ok a1) as [Hca Hca1].
  { split; split; try exact Hl; try exact Hr; try exact Ha; try (apply wadd_range; lia); unfold in_u; simpl; lia. }
  assert (conn_ok b ∧ conn_ok b1) as [Hcb Hcb1] by (split; split; try exact Hl; try exact Hr; try exact Hb; apply wadd_range; lia).
  split; [apply after_send_intro; [done|unfold in_u, SYN; lia|]|].
  { unfold a1. f_equal. cbn [a connecting snd_nxt]. by rewrite wadd32_wadd. }
  split; [apply after_send_intro; [done|change (Z.lor SYN ACK) with 18; unfold in_u; lia|]|].
  { unfold b1. f_equal. cbn [b accepted snd_nxt]. by rewrite wadd32_wadd. }
  apply after_segment_intro; [done|unfold in_u; simpl; lia|]. intros a2 (Hv & Hca2 & _ & _ & Ht2 & Hn2).
  injection Hv as Hst2 Hrn2 Hrb2. split; [done|].
  apply after_segment_intro; [done|unfold in_u; simpl; lia|]. intros b2 (Hv & Hcb2 & _ & _ & Ht3 & Hn3).
  injection Hv as Hst3 Hrn3 Hrb3. split; [done|]. cbn [tick set_tick snd_nxt a1 b1 set_snd_nxt] in *.
  assert (∀ x, wadd 32 x 2 ≠ wadd 32 x 1) as Hne by (intros x; apply wadd32_ne; lia).
  split.
  - rewrite <-Hrb3. apply out_of_order_dropped; try done.
    + rewrite Ht3. unfold in_u. simpl. lia.
    + cbn [segment_of seg_seq]. rewrite Hrn3. change (segment_seq a2 (Z.lor PSH ACK)) with (snd_nxt a2). rewrite Hn2. apply Hne.
  - rewrite <-Hrb2. apply out_of_order_dropped; try done.
    + rewrite Ht2. unfold in_u. simpl. lia.
    + cbn [segment_of seg_seq]. rewrite Hrn2. change (segment_seq b2 (Z.lor PSH ACK)) with (snd_nxt b2). rewrite Hn3. apply Hne.
Qed.

Lemma handshake_loses_data_witness :
  let l := mkSocketAddr [10; 0; 2; 15] 49152 in
  let r := mkSocketAddr [10; 0; 2; 16] 80 in
  let a := connecting new_conn l r 0x1000 in
  let a1 := set_snd_nxt a (wadd 32 0x1000 2) in
  let b := accepted r l 0x1000 (segment_of a SYN []) in
  let b1 := set_snd_nxt b (wadd 32 0x1000 2) in
  after_send a SYN a1 ∧ after_send b (Z.lor SYN ACK) b1 ∧
  after_segment a1 (segment_of b (Z.lor SYN ACK) []) (λ a2, state a2 = Established ∧
    after_segment b1 (segment_of a2 ACK []) (λ b2, state b2 = Established ∧
      after_segment b2 (segment_of a2 (Z.lor PSH ACK) [72; 105]) (λ b3, recv_buf b3 = []) ∧
      after_segment a2 (segment_of b2 (Z.lor PSH ACK) [79; 107]) (λ a3, recv_buf a3 = []))).
Proof.
  intros l r a a1 b b1.
  apply (handshake_loses_data l r 0x1000 0x1000 [72; 105] [79; 107]);
    [split; [split; [done|repeat constructor; unfold in_u; lia]|unfold in_u; simpl; lia]..|unfold in_u; lia|unfold in_u; lia].
Defined.

(** After the application has closed, the FIN of a segment is counted before its data,
    which is then out of order: the data is lost although both are acknowledged. *)
Lemma fin_with_data_lost :
  let last := mkTcpSegment 80 1000 0 0 20 (Z.lor FIN ACK) 8192 [1; 2] in
  ∃ c' s', process_segments (set_state demo_conn FinWait2) [last] ip_init = (Ok c', s') ∧
    recv_buf c' = [] ∧ state c' = TimeWait ∧ rcv_nxt c' = 1.
Proof. eexists _, _. split; [by vm_compute|done]. Qed.

(** A FIN is taken out of order: it moves the number of the next byte although the
    data before it is missing, and a segment that starts at the second of the
    missing bytes is taken as the first. *)
Lemma early_fin_corrupts :
  let fin := mkTcpSegment 80 1000 3 0 20 (Z.lor FIN ACK) 8192 [] in
  let again := mkTcpSegment 80 1000 1 0 20 ACK 8192 [98; 99] in
  ∃ c' s', process_segments demo_conn [fin; again] ip_init = (Ok c', s') ∧ recv_buf c' = [98; 99].
Proof. eexists _, _. split; [by vm_compute|done]. Qed.
