(* ===== verification/Dns.v ===== *)
(** * DNS messages

    [net/dns.rs]: the query for the addresses of a name, the parser of responses,
    and the tables of the resolver.  Whatever arrives, the parser ends without a
    panic; a response to the query gives the addresses it carries.  Sending the
    query and waiting for the response is in [Stack]. *)

From stdpp Require Import base numbers list gmap strings.
From S2P Require Import Prelude.
From S2P Require Import Bytes.
From S2P Require Import Text.
From S2P Require Import Net.

(** ** The code *)

Definition DNS_PORT : Z := 53.
Definition DNS_HEADER_SIZE : nat := 12.
Definition TYPE_A : Z := 1.
Definition CLASS_IN : Z := 1.

Record DnsEntry := mkDnsEntry { hostname : string; addresses : list Ipv4Addr; dns_ttl : Z }.

Definition encode_label (label : string) : list Z :=
  let n := Nat.min (length (bytes_of label)) 63 in as_u8 (Z.of_nat n) :: take n (bytes_of label).
Definition question (hostname : string) : list Z :=
  concat (encode_label <$> split "." hostname) ++ [0; 0; TYPE_A; 0; CLASS_IN].
Definition build_query (txid : Z) (hostname : string) : list Z :=
  push16 txid ++ [1; 0; 0; 1; 0; 0; 0; 0; 0; 0] ++ question hostname.

(** The loop of [skip_dns_name].  Between two jumps the offset grows, and there are
    at most eleven jumps; the fuel is shown to be enough. *)
Fixpoint skip_loop (fuel : nat) (data : list Z) (offset jumps : nat) (final : option nat) : checked (option nat) :=
  match fuel with
  | O => Panic
  | S fuel =>
      if ((length data <=? offset) || (10 <? jumps))%nat then Ok None
      else
        n ← at_ data offset;
        if n =? 0 then Ok (Some (default (offset + 1)%nat final))
        else if Z.land n 0xC0 =? 0xC0 then
          if (length data <=? offset + 1)%nat then Ok None
          else
            b ← at_ data (offset + 1);
            let ptr := Z.to_nat (Z.lor (Z.shiftl (Z.land n 0x3F) 8) b) in
            skip_loop fuel data ptr (jumps + 1) (Some (default (offset + 2)%nat final))
        else skip_loop fuel data (offset + (1 + Z.to_nat n)) jumps final
  end.
Definition skip_dns_name (data : list Z) (offset : nat) : checked (option nat) :=
  skip_loop (12 * (length data + 1)) data offset 0 None.

(** [for _ in 0..qdcount] *)
Fixpoint skip_questions (n : nat) (data : list Z) (offset : nat) : checked (option nat) :=
  match n with
  | O => Ok (Some offset)
  | S n =>
      o ← skip_dns_name data offset;
      match o with
      | None => Ok None
      | Some offset => if (length data <? offset + 4)%nat then Ok None else skip_questions n data (offset + 4)
      end
  end.

(** [for _ in 0..ancount]; [None] is the [?] that leaves [parse_response]. *)
Fixpoint read_answers (n : nat) (data : list Z) (offset : nat) (addresses : list Ipv4Addr) (ttl : Z) : checked (option (list Ipv4Addr * Z)) :=
  match n with
  | O => Ok (Some (addresses, ttl))
  | S n =>
      if (length data <=? offset)%nat then Ok (Some (addresses, ttl))
      else
        o ← skip_dns_name data offset;
        match o with
        | None => Ok None
        | Some offset =>
            if (length data <? offset + 10)%nat then Ok (Some (addresses, ttl))
            else
              rtype ← u16_at data offset;
              rttl ← u32_at data (offset + 4);
              rdlength ← u16_at data (offset + 8);
              let offset := (offset + 10)%nat in
              if (length data <? offset + Z.to_nat rdlength)%nat then Ok (Some (addresses, ttl))
              else if (rtype =? TYPE_A) && (rdlength =? 4) then
                addr ← range data offset 4;
                read_answers n data (offset + Z.to_nat rdlength) (addresses ++ [addr]) rttl
              else read_answers n data (offset + Z.to_nat rdlength) addresses ttl
        end
  end.

Definition parse_response (data : list Z) (hostname : string) : checked (option DnsEntry) :=
  if (length data <? DNS_HEADER_SIZE)%nat then Ok None
  else
    b2 ← at_ data 2;
    if Z.land b2 0x80 =? 0 then Ok None
    else
      b3 ← at_ data 3;
      if negb (Z.land b3 0x0F =? 0) then Ok None
      else
        ancount ← u16_at data 6;
        if ancount =? 0 then Ok None
        else
          qdcount ← u16_at data 4;
          o ← skip_questions (Z.to_nat qdcount) data DNS_HEADER_SIZE;
          match o with
          | None => Ok None
          | Some offset =>
              o ← read_answers (Z.to_nat ancount) data offset [] 300;
              match o with
              | None | Some ([], _) => Ok None
              | Some (addresses, ttl) => Ok (Some (mkDnsEntry hostname addresses ttl))
              end
          end.

(** ** The tables of the resolver *)

Record DnsResolver := mkDnsResolver {
  hosts : gmap string (list Ipv4Addr); cache : gmap string DnsEntry; local_port : Z }.

Definition default_hosts : gmap string (list Ipv4Addr) :=
  <["localhost" := [LOCALHOST]]> (<["localhost.localdomain" := [LOCALHOST]]>
    (<["kpio.local" := [LOCALHOST]]> (<["kpio.os" := [LOCALHOST]]> ∅))).

Definition cache_insert (hostname : string) (addrs : list Ipv4Addr) (ttl : Z) (r : DnsResolver) : DnsResolver :=
  mkDnsResolver (hosts r) (<[hostname := mkDnsEntry hostname addrs ttl]> (cache r)) (local_port r).
Definition hosts_insert (hostname : string) (addr : Ipv4Addr) (r : DnsResolver) : DnsResolver :=
  mkDnsResolver (<[hostname := default [] (hosts r !! hostname) ++ [addr]]> (hosts r)) (cache r) (local_port r).
Definition flush_cache (r : DnsResolver) : DnsResolver := mkDnsResolver (hosts r) ∅ (local_port r).
Definition cache_size (r : DnsResolver) : Z := Z.of_nat (size (cache r)).

(** ** The parser ends on all input *)

Lemma skip_loop_total fuel data offset jumps final :
  bytes_ok data → (jumps ≤ 11)%nat → ((11 - jumps) * (length data + 1) + (length data - offset) < fuel)%nat →
  ∃ o, skip_loop fuel data offset jumps final = Ok o.
Proof.
  intros Hb. revert offset jumps final. induction fuel as [|fuel IH]; intros offset jumps final Hj Hf; [by apply Nat.nlt_0_r in Hf|].
  cbn [skip_loop]. destruct (Nat.leb_spec (length data) offset); [by eexists|].
  destruct (Nat.ltb_spec 10 jumps); [by eexists|]. cbn [orb].
  destruct (at_Ok data offset) as (n & -> & Hn); [done|]. cbn [mbind outcome_bind].
  destruct (Z.eqb_spec n 0); [by eexists|]. destruct (Z.land n 192 =? 192).
  - destruct (Nat.leb_spec (length data) (offset + 1)); [by eexists|].
    destruct (at_Ok data (offset + 1)) as (b & -> & _); [done|]. cbn [mbind outcome_bind]. apply IH; [lia|].
    replace (11 - jumps)%nat with (S (11 - (jumps + 1))) in Hf by lia. cbn [Nat.mul] in Hf. lia.
  - apply IH; [done|]. lia.
Qed.

Lemma skip_dns_name_total data offset : bytes_ok data → ∃ o, skip_dns_name data offset = Ok o.
Proof. intros. apply skip_loop_total; [done|lia|lia]. Qed.

Lemma skip_questions_total n data offset : bytes_ok data → ∃ o, skip_questions n data offset = Ok o.
Proof.
  intros Hb. revert offset. induction n as [|n IH]; intros offset; [by eexists|]. cbn [skip_questions].
  destruct (skip_dns_name_total data offset Hb) as [[o|] ->]; cbn [mbind outcome_bind]; [|by eexists].
  destruct (_ <? _)%nat; [by eexists|]. apply IH.
Qed.

Lemma read_answers_total n data offset addrs ttl : bytes_ok data → ∃ o, read_answers n data offset addrs ttl = Ok o.
Proof.
  intros Hb. revert offset addrs ttl. induction n as [|n IH]; intros offset addrs ttl; [by eexists|]. cbn [read_answers].
  destruct (_ <=? _)%nat; [by eexists|]. destruct (skip_dns_name_total data offset Hb) as [[o|] ->]; cbn [mbind outcome_bind]; [|by eexists].
  destruct (Nat.ltb_spec (length data) (o + 10)); [by eexists|].
  destruct (u16_at_total data o Hb) as (ty & -> & _); [lia|]. destruct (u32_at_total data (o + 4) Hb) as (tt' & -> & _); [lia|].
  destruct (u16_at_total data (o + 8) Hb) as (rd & -> & _); [lia|]. cbn [mbind outcome_bind].
  destruct (Nat.ltb_spec (length data) (o + 10 + Z.to_nat rd)); [by eexists|].
  destruct (ty =? TYPE_A); [|apply IH]. destruct (Z.eqb_spec rd 4) as [->|]; [|apply IH]. cbn [andb].
  rewrite range_Ok by lia. apply IH.
Qed.

Lemma parse_response_total data name : bytes_ok data → ∃ o, parse_response data name = Ok o.
Proof.
  intros Hb. unfold parse_response, DNS_HEADER_SIZE. destruct (Nat.ltb_spec (length data) 12); [by eexists|].
  destruct (at_Ok data 2) as (b2 & -> & _); [lia|]. cbn [mbind outcome_bind]. destruct (_ =? _); [by eexists|].
  destruct (at_Ok data 3) as (b3 & -> & _); [lia|]. cbn [mbind outcome_bind]. destruct (negb _); [by eexists|].
  destruct (u16_at_total data 6 Hb) as (an & -> & _); [lia|]. cbn [mbind outcome_bind]. destruct (_ =? _); [by eexists|].
  destruct (u16_at_total data 4 Hb) as (qd & -> & _); [lia|]. cbn [mbind outcome_bind].
  destruct (skip_questions_total (Z.to_nat qd) data 12 Hb) as [[o|] ->]; cbn [mbind outcome_bind]; [|by eexists].
  destruct (read_answers_total (Z.to_nat an) data o [] 300 Hb) as [[[[|a l] t]|] ->]; by eexists.
Qed.

(** ** A response to the query *)

(** One address, under the name that the question has at offset 12. *)
Definition answer (a : Z * Ipv4Addr) : list Z :=
  [0xC0; 12] ++ push16 TYPE_A ++ push16 CLASS_IN ++ push32 a.1 ++ push16 4 ++ a.2.
Definition response_header (txid n : Z) : list Z := push16 txid ++ [0x81; 0x80; 0; 1] ++ push16 n ++ [0; 0; 0; 0].
Definition response (txid : Z) (name : string) (answers : list (Z * Ipv4Addr)) : list Z :=
  response_header txid (len answers) ++ question name ++ concat (answer <$> answers).

(** No label of the name is empty. *)
Definition labels_ok (name : string) : Prop := Forall (λ l, bytes_of l ≠ []) (split "." name).

Lemma at_app {A} (pre : list A) x rest i : i = length pre → at_ (pre ++ x :: rest) i = Ok x.
Proof. intros ->. unfold at_. by rewrite list_lookup_middle. Qed.

Lemma u16_at_app pre x rest i : i = length pre → in_u 16 x → u16_at (pre ++ push16 x ++ rest) i = Ok x.
Proof.
  intros -> Hx. unfold u16_at. rewrite range_app_r, Nat.sub_diag by lia. rewrite range_app_l by done. cbn [mbind outcome_bind].
  rewrite from_be_push16. f_equal. by apply wrap_id.
Qed.

Lemma u32_at_app pre x rest i : i = length pre → in_u 32 x → u32_at (pre ++ push32 x ++ rest) i = Ok x.
Proof.
  intros -> Hx. unfold u32_at. rewrite range_app_r, Nat.sub_diag by lia. rewrite range_app_l by done. cbn [mbind outcome_bind].
  rewrite from_be_push32. f_equal. by apply wrap_id.
Qed.

Definition label_bytes (labels : list string) : list Z := concat (encode_label <$> labels).

Lemma skip_labels labels fuel pre rest jumps final :
  Forall (λ l, bytes_of l ≠ []) labels → (jumps ≤ 10)%nat → (length labels < fuel)%nat →
  skip_loop fuel (pre ++ label_bytes labels ++ 0 :: rest) (length pre) jumps final
  = Ok (Some (default (length pre + length (label_bytes labels) + 1)%nat final)).
Proof.
  intros Hl Hj. revert fuel pre. induction Hl as [|l labels Hl _ IH]; intros [|fuel] pre Hf; try (simpl in Hf; lia).
  - cbn [label_bytes fmap list_fmap concat app length skip_loop]. rewrite length_app. cbn [length].
    destruct (Nat.leb_spec (length pre + S (length rest)) (length pre)); [lia|].
    destruct (Nat.ltb_spec 10 jumps); [lia|]. cbn [orb]. rewrite (at_app pre 0 rest (length pre)) by done. cbn [mbind outcome_bind Z.eqb].
    by rewrite Nat.add_0_r.
  - set (n := Nat.min (length (bytes_of l)) 63). assert (1 ≤ n ≤ 63)%nat as Hn.
    { subst n. destruct (bytes_of l); [done|simpl length in *; lia]. }
    assert (label_bytes (l :: labels) = encode_label l ++ label_bytes labels) as E by done.
    assert (length (encode_label l) = S n) as El.
    { unfold encode_label. fold n. cbn [length]. rewrite length_take. lia. }
    specialize (IH fuel (pre ++ encode_label l) ltac:(simpl in Hf; lia)).
    rewrite <-!app_assoc in IH. rewrite length_app, El in IH. rewrite E, <-!app_assoc. rewrite length_app, El.
    cbn [skip_loop]. rewrite !length_app, El.
    destruct (Nat.leb_spec (length pre + (S n + (length (label_bytes labels) + length (0 :: rest)))) (length pre)); [lia|].
    destruct (Nat.ltb_spec 10 jumps); [lia|]. cbn [orb].
    assert (as_u8 (Z.of_nat n) = Z.of_nat n) as Ew by (apply wrap_id; unfold in_u; lia).
    rewrite (at_app pre (as_u8 (Z.of_nat n)) (take n (bytes_of l) ++ label_bytes labels ++ 0 :: rest) _ eq_refl : at_ (pre ++ encode_label l ++ label_bytes labels ++ 0 :: rest) (length pre) = _).
    cbn [mbind outcome_bind]. rewrite Ew.
    destruct (Z.eqb_spec (Z.of_nat n) 0); [lia|].
    assert (Z.land (Z.of_nat n) 192 = 0) as ->.
    { assert (∀ k : nat, (k < 64)%nat → Z.land (Z.of_nat k) 192 = 0) as Hk; [|apply Hk; lia].
      intros k Hk. do 64 (destruct k as [|k]; [done|]). lia. }
    change (0 =? 192) with false. cbv iota.
    replace (length pre + (1 + Z.to_nat (Z.of_nat n)))%nat with (length pre + S n)%nat by lia.
    rewrite IH. do 2 f_equal. f_equal. lia.
Qed.

Lemma labels_length labels : (length labels ≤ length (label_bytes labels))%nat.
Proof.
  induction labels as [|l labels IH]; [done|]. unfold label_bytes in *. cbn [fmap list_fmap concat length]. rewrite length_app.
  unfold encode_label at 1. cbn [length]. lia.
Qed.

Section roundtrip.
Context (txid : Z) (name : string) (all : list (Z * Ipv4Addr)).
Hypothesis Hname : labels_ok name.

Let hdr := response_header txid (len all).
Let data := response txid name all.
Let tail := [0; TYPE_A; 0; CLASS_IN] ++ concat (answer <$> all).

Lemma response_split : data = hdr ++ label_bytes (split "." name) ++ 0 :: tail.
Proof. unfold data, response, question. by rewrite <-!app_assoc. Qed.

Lemma response_fuel k : (k ≤ 12)%nat → (length (split "." name) < 12 * (length data + 1) - k)%nat.
Proof. intros Hk. pose proof (labels_length (split "." name)). rewrite response_split, !length_app. cbn [length]. lia. Qed.

(** A pointer to the question, anywhere in the message. *)
Lemma skip_pointer pre rest :
  data = pre ++ [0xC0; 12] ++ rest → skip_dns_name data (length pre) = Ok (Some (length pre + 2)%nat).
Proof.
  intros E. unfold skip_dns_name. pose proof (response_fuel 1 ltac:(lia)) as Hf.
  destruct (12 * (length data + 1))%nat as [|fuel]; [lia|]. cbn [skip_loop].
  assert (length data = length pre + (2 + length rest))%nat as El by (by rewrite E, length_app).
  destruct (Nat.leb_spec (length data) (length pre)); [lia|]. cbn [orb Nat.ltb Nat.leb].
  assert (at_ data (length pre) = Ok 0xC0) as -> by (rewrite E; by apply at_app). cbn [mbind outcome_bind].
  change (192 =? 0) with false. change (Z.land 192 192 =? 192) with true. cbv iota.
  destruct (Nat.leb_spec (length data) (length pre + 1)); [lia|].
  assert (at_ data (length pre + 1) = Ok 12) as ->.
  { rewrite E. change (pre ++ [192; 12] ++ rest) with (pre ++ [192] ++ 12 :: rest). rewrite app_assoc. apply at_app. rewrite length_app. simpl. lia. }
  cbn [mbind outcome_bind]. change (Z.to_nat (Z.lor (Z.shiftl (Z.land 192 63) 8) 12)) with (length hdr).
  rewrite response_split, skip_labels; [done|done|lia|lia].
Qed.

Lemma read_answers_spec answers pre addrs ttl :
  data = pre ++ concat (answer <$> answers) → Forall (λ a, in_u 32 a.1 ∧ length a.2 = 4%nat) answers →
  read_answers (length answers) data (length pre) addrs ttl
  = Ok (Some (addrs ++ (snd <$> answers), default ttl (last (fst <$> answers)))).
Proof.
  revert pre addrs ttl. induction answers as [|[t addr] answers IH]; intros pre addrs ttl E Hok.
  { cbn. by rewrite app_nil_r. }
  apply Forall_cons in Hok as [[Ht Ha] Hok]. cbn [fst snd] in *.
  assert (data = pre ++ [0xC0; 12] ++ push16 TYPE_A ++ push16 CLASS_IN ++ push32 t ++ push16 4 ++ addr ++ concat (answer <$> answers)) as E'.
  { rewrite E. cbn [fmap list_fmap concat]. unfold answer at 1. cbn [fst snd]. by rewrite <-!app_assoc. }
  assert (length data = length pre + (16 + length (concat (answer <$> answers))))%nat as El.
  { rewrite E', !length_app, !length_push16, Ha. change (length (push32 t)) with 4%nat. simpl. lia. }
  cbn [length read_answers]. destruct (Nat.leb_spec (length data) (length pre)); [lia|].
  rewrite (skip_pointer pre _ E'). cbn [mbind outcome_bind].
  destruct (Nat.ltb_spec (length data) (length pre + 2 + 10)); [lia|].
  assert (u16_at data (length pre + 2) = Ok TYPE_A) as ->.
  { rewrite E', app_assoc. apply u16_at_app; [rewrite length_app; done|unfold in_u, TYPE_A; lia]. }
  assert (u32_at data (length pre + 2 + 4) = Ok t) as ->.
  { rewrite E'. replace (pre ++ [192; 12] ++ push16 TYPE_A ++ push16 CLASS_IN ++ push32 t ++ push16 4 ++ addr ++ concat (answer <$> answers))
      with ((pre ++ [192; 12] ++ push16 TYPE_A ++ push16 CLASS_IN) ++ push32 t ++ push16 4 ++ addr ++ concat (answer <$> answers)) by (by rewrite <-!app_assoc).
    apply u32_at_app; [rewrite !length_app, !length_push16; simpl; lia|done]. }
  assert (u16_at data (length pre + 2 + 8) = Ok 4) as ->.
  { rewrite E'. replace (pre ++ [192; 12] ++ push16 TYPE_A ++ push16 CLASS_IN ++ push32 t ++ push16 4 ++ addr ++ concat (answer <$> answers))
      with ((pre ++ [192; 12] ++ push16 TYPE_A ++ push16 CLASS_IN ++ push32 t) ++ push16 4 ++ addr ++ concat (answer <$> answers)) by (by rewrite <-!app_assoc).
    apply u16_at_app; [rewrite !length_app, !length_push16; change (length (push32 t)) with 4%nat; simpl; lia|unfold in_u; lia]. }
  cbn [mbind outcome_bind]. change (Z.to_nat 4) with 4%nat. destruct (Nat.ltb_spec (length data) (length pre + 2 + 10 + 4)); [lia|].
  change ((TYPE_A =? TYPE_A) && (4 =? 4)) with true. cbv iota.
  set (pre' := pre ++ [192; 12] ++ push16 TYPE_A ++ push16 CLASS_IN ++ push32 t ++ push16 4).
  assert (length pre' = length pre + 2 + 10)%nat as Ep.
  { unfold pre'. rewrite !length_app, !length_push16. change (length (push32 t)) with 4%nat. simpl. lia. }
  assert (data = pre' ++ addr ++ concat (answer <$> answers)) as E2 by (rewrite E'; unfold pre'; by rewrite <-!app_assoc).
  assert (range data (length pre + 2 + 10) 4 = Ok addr) as ->.
  { rewrite E2, range_app_r, Ep, Nat.sub_diag by lia. by apply range_app_l. }
  cbn [mbind outcome_bind]. replace (length pre + 2 + 10 + 4)%nat with (length (pre' ++ addr)) by (rewrite length_app; lia).
  rewrite IH; [|by rewrite <-app_assoc|done]. do 2 f_equal. f_equal; [by rewrite <-app_assoc|].
  cbn [fmap list_fmap]. change (((t, addr).1 :: (fst <$> answers))) with (t :: (fst <$> answers)). by rewrite last_cons; destruct (last _).
Qed.
End roundtrip.

(** C26. The parser of DNS responses.  It ends on every input without a panic, also on
    compressed names that point at each other.  For a name with no empty label (no
    dot at its ends and no two dots in a row), a response that repeats the question
    of [build_query] and answers it with between one and 65535 addresses gives those
    addresses, in their order, with the time to live of the last. *)
Theorem dns_responses txid name answers :
  labels_ok name → answers ≠ [] → len answers < 2 ^ 16 →
  Forall (λ a : Z * Ipv4Addr, in_u 32 a.1 ∧ length a.2 = 4%nat) answers →
  (∀ data name', bytes_ok data → ∃ o, parse_response data name' = Ok o) ∧
  drop 12 (build_query txid name) = question name ∧
  parse_response (response txid name answers) name
  = Ok (Some (mkDnsEntry name (snd <$> answers) (default 300 (last (fst <$> answers))))).
Proof.
  intros Hn Hne Hlen Hok. split; [apply parse_response_total|]. split; [done|].
  unfold parse_response, DNS_HEADER_SIZE. set (data := response txid name answers).
  assert (data = response_header txid (len answers) ++ label_bytes (split "." name) ++ 0 :: [0; TYPE_A; 0; CLASS_IN] ++ concat (answer <$> answers)) as E by apply response_split.
  assert (12 ≤ length data)%nat as Hl by (rewrite E, length_app; change (length (response_header txid (len answers))) with 12%nat; lia).
  destruct (Nat.ltb_spec (length data) 12); [lia|].
  change (at_ data 2) with (Ok 0x81 : checked Z). change (at_ data 3) with (Ok 0x80 : checked Z). cbn [mbind outcome_bind].
  change (Z.land 129 128 =? 0) with false. change (negb (Z.land 128 15 =? 0)) with false. cbv iota.
  assert (u16_at data 6 = Ok (len answers)) as ->.
  { unfold data, response, response_header. rewrite <-!app_assoc. rewrite (app_assoc (push16 txid)). apply u16_at_app; [done|].
    unfold in_u. pose proof (len_nonneg answers). lia. }
  change (u16_at data 4) with (Ok 1 : checked Z). cbn [mbind outcome_bind].
  destruct (Z.eqb_spec (len answers) 0) as [H0|_]; [by destruct answers; [|unfold len in H0; simpl in H0; lia]|].
  change (Z.to_nat 1) with 1%nat. cbn [skip_questions]. unfold skip_dns_name.
  pose proof (response_fuel txid name answers 0 ltac:(lia)) as Hf. fold data in Hf.
  rewrite E at 2. change 12%nat with (length (response_header txid (len answers))) at 2.
  rewrite skip_labels; [|done|lia|lia]. cbn [mbind outcome_bind default].
  set (pre := response_header txid (len answers) ++ label_bytes (split "." name) ++ [0; 0; TYPE_A; 0; CLASS_IN]).
  assert (length pre = length (response_header txid (len answers)) + length (label_bytes (split "." name)) + 1 + 4)%nat as Ep.
  { unfold pre. rewrite !length_app. simpl. lia. }
  assert (data = pre ++ concat (answer <$> answers)) as E2 by (rewrite E; unfold pre; by rewrite <-!app_assoc).
  rewrite <-Ep. destruct (Nat.ltb_spec (length data) (length pre)) as [Hlt|_]; [rewrite E2, length_app in Hlt; lia|]. cbn [mbind outcome_bind].
  unfold len. rewrite Nat2Z.id.
  pose proof (read_answers_spec txid name answers Hn answers pre [] 300 E2 Hok) as R. fold data in R. rewrite R. cbn [mbind outcome_bind app].
  by destruct answers.
Qed.

Lemma dns_responses_witness :
  (∀ data name', bytes_ok data → ∃ o, parse_response data name' = Ok o) ∧
  drop 12 (build_query 7 "example.org") = question "example.org" ∧
  parse_response (response 7 "example.org" [(60, [93; 184; 216; 34]); (30, [10; 0; 0; 1])]) "example.org"
  = Ok (Some (mkDnsEntry "example.org" [[93; 184; 216; 34]; [10; 0; 0; 1]] 30)).
Proof.
  apply (dns_responses 7 "example.org" [(60, [93; 184; 216; 34]); (30, [10; 0; 0; 1])]); [|done|by vm_compute|].
  - unfold labels_ok. by repeat constructor.
  - repeat constructor; unfold in_u; cbn [fst snd]; lia.
Defined.

(** The number of the query and the question are not compared: a response to
    another query is taken as the answer. *)
Lemma other_query_accepted :
  parse_response (response 1 "a.example" [(60, [1; 2; 3; 4])]) "bank.example" = Ok (Some (mkDnsEntry "bank.example" [[1; 2; 3; 4]] 60)).
Proof. by vm_compute. Qed.
