(* ===== verification/Random.v ===== *)
(** * Random bytes

    [net/crypto/random.rs]: a generator that hands out the keystream of ChaCha20
    under a key that the processor supplies.  The words that RDRAND returns (or the
    fallback computes from the time) are a parameter.  Successive requests get
    successive pieces of one stream, and the blocks of the stream have successive
    numbers. *)

From stdpp Require Import base numbers list.
From S2P Require Import Prelude.
From S2P Require Import Bytes.
From S2P Require Import Chacha.

(** ** The code *)

Record ChaChaRng := mkRng { rng_state : list Z; buffer : list Z; buf_pos : nat; seeded : bool }.
Definition new_unseeded : ChaChaRng := mkRng (replicate 16 0) (replicate 64 0) 64 false.

(** [hw i] is the [i]-th word of the hardware. *)
Definition seed (hw : nat → Z) (r : ChaChaRng) : ChaChaRng :=
  mkRng ([0x61707865; 0x3320646e; 0x79622d32; 0x6b206574] ++ (hw <$> seq 0 8) ++ [0; 0] ++ [hw 8%nat; hw 9%nat])
        (buffer r) 64 true.

(** The block of a state.  [quarter_round] is the code of [qr], and the rounds are
    in the same order. *)
Definition rng_block (st : list Z) : list Z := zip_with (wadd 32) (Nat.iter 10 double_round st) st ≫= to_le_bytes 4.
Definition next_counter (st : list Z) : list Z :=
  let st := <[12%nat := wadd 32 (word st 12) 1]> st in
  if word st 12 =? 0 then <[13%nat := wadd 32 (word st 13) 1]> st else st.
Definition generate_block (r : ChaChaRng) : ChaChaRng :=
  mkRng (next_counter (rng_state r)) (rng_block (rng_state r)) 0 (seeded r).

(** [while off < dest.len()]; every iteration writes at least one byte. *)
Fixpoint fill_loop (fuel n : nat) (r : ChaChaRng) : list Z * ChaChaRng :=
  match fuel, n with
  | S fuel, S _ =>
      let r := if (64 <=? buf_pos r)%nat then generate_block r else r in
      let k := Nat.min (64 - buf_pos r) n in
      let '(out, r') := fill_loop fuel (n - k) (mkRng (rng_state r) (buffer r) (buf_pos r + k) (seeded r)) in
      (take k (drop (buf_pos r) (buffer r)) ++ out, r')
  | _, _ => ([], r)
  end.
Definition fill (n : nat) (r : ChaChaRng) : list Z * ChaChaRng := fill_loop n n r.

Definition csprng_fill (hw : nat → Z) (n : nat) (r : ChaChaRng) : list Z * ChaChaRng :=
  fill n (if seeded r then r else seed hw r).
Definition csprng_u64 (hw : nat → Z) (r : ChaChaRng) : Z * ChaChaRng :=
  let '(bs, r) := csprng_fill hw 8 r in (from_le_bytes bs, r).

(** ** The stream *)

(** The next [k] blocks. *)
Fixpoint blocks (k : nat) (st : list Z) : list Z :=
  match k with O => [] | S k => rng_block st ++ blocks k (next_counter st) end.
Definition stream (k : nat) (r : ChaChaRng) : list Z := drop (buf_pos r) (buffer r) ++ blocks k (rng_state r).

Record rng_ok (r : ChaChaRng) : Prop := {
  rng_words : length (rng_state r) = 16%nat;
  rng_buffer : length (buffer r) = 64%nat ∧ bytes_ok (buffer r);
  rng_pos : (buf_pos r ≤ 64)%nat;
}.

Lemma rng_block_ok st : length st = 16%nat → length (rng_block st) = 64%nat ∧ bytes_ok (rng_block st).
Proof.
  intros Hl. unfold rng_block. split; [|apply words_le_bytes].
  rewrite (proj1 (words_le_bytes _)), length_zip_with, length_iter_rounds. lia.
Qed.

#[local] Opaque rng_block.

Lemma next_counter_length st : length (next_counter st) = length st.
Proof. unfold next_counter. destruct (_ =? _); by rewrite ?length_insert. Qed.

Lemma generate_block_ok r : rng_ok r → rng_ok (generate_block r).
Proof.
  intros [Hw _ _]. split; cbn [generate_block rng_state buffer buf_pos]; [by rewrite next_counter_length|by apply rng_block_ok|lia].
Qed.

Lemma seed_ok hw r : rng_ok r → rng_ok (seed hw r).
Proof. intros [_ Hb _]. by split. Qed.

(** Filling takes the bytes off the front of the stream. *)
Lemma fill_loop_spec fuel n r :
  rng_ok r → (n ≤ fuel)%nat →
  ∃ out r' k, fill_loop fuel n r = (out, r') ∧ length out = n ∧ bytes_ok out ∧ rng_ok r' ∧ seeded r' = seeded r ∧
    rng_state r' = Nat.iter k next_counter (rng_state r) ∧
    ∀ j, stream (k + j) r = out ++ stream j r'.
Proof.
  revert n r. induction fuel as [|fuel IH]; intros n r Hr Hn.
  { exists [], r, 0%nat. destruct n; [|lia]. split_and!; try done. constructor. }
  destruct n as [|n]; [exists [], r, 0%nat; split_and!; try done; constructor|].
  cbn [fill_loop]. set (r1 := if (64 <=? buf_pos r)%nat then generate_block r else r).
  assert (rng_ok r1 ∧ (buf_pos r1 < 64)%nat ∧ seeded r1 = seeded r ∧
    ∃ k, rng_state r1 = Nat.iter k next_counter (rng_state r) ∧ ∀ j, stream (k + j) r = stream j r1) as (Hr1 & Hp1 & Hs1 & k1 & Hk1 & Hst1).
  { subst r1. destruct (Nat.leb_spec 64 (buf_pos r)) as [H|H].
    - split; [by apply generate_block_ok|]. split; [cbn; lia|]. split; [done|]. exists 1%nat. split; [done|].
      intros j. assert (drop (buf_pos r) (buffer r) = []) as E by (apply drop_ge; destruct (rng_buffer r Hr) as [-> _]; lia).
      unfold stream, generate_block. rewrite E. cbn [buf_pos buffer rng_state Nat.add blocks].
      rewrite (drop_0 (rng_block (rng_state r))), app_nil_l. reflexivity.
    - split; [done|]. split; [done|]. split; [done|]. by exists 0%nat. }
  set (m := Nat.min (64 - buf_pos r1) (S n)). set (r2 := mkRng (rng_state r1) (buffer r1) (buf_pos r1 + m) (seeded r1)).
  assert (rng_ok r2) as Hr2 by (destruct Hr1; split; [done|done|cbn; lia]).
  destruct (IH (S n - m)%nat r2 Hr2 ltac:(lia)) as (out & r' & k & E & Hlen & Hb & Hr' & Hs' & Hst & Hstream).
  rewrite E. destruct (rng_buffer r1 Hr1) as [Hbl Hbb]. exists (take m (drop (buf_pos r1) (buffer r1)) ++ out), r', (k1 + k)%nat.
  split; [done|]. split; [rewrite length_app, length_take, length_drop, Hlen; lia|].
  split; [apply Forall_app; split; [by apply Forall_take, Forall_drop|done]|]. split; [done|].
  split; [by rewrite Hs', <-Hs1|]. split.
  - rewrite Hst. cbn [r2 rng_state]. rewrite Hk1. rewrite Nat.add_comm. clear. induction k as [|k IH]; [done|]. simpl. by rewrite IH.
  - intros j. rewrite <-Nat.add_assoc, Hst1, <-app_assoc, <-Hstream. unfold stream. cbn [r2 buf_pos buffer rng_state].
    rewrite app_assoc. f_equal. rewrite <-(take_drop m (drop (buf_pos r1) (buffer r1))) at 1. by rewrite drop_drop.
Qed.

Lemma csprng_fill_spec hw n r :
  rng_ok r → ∃ out r', csprng_fill hw n r = (out, r') ∧ length out = n ∧ bytes_ok out ∧ rng_ok r'.
Proof.
  intros Hr. unfold csprng_fill, fill. assert (rng_ok (if seeded r then r else seed hw r)) as H by (destruct (seeded r); [done|by apply seed_ok]).
  destruct (fill_loop_spec n n _ H) as (out & r' & k & E & Hl & Hb & Hr' & _); [done|]. by exists out, r'.
Qed.

Lemma new_unseeded_ok : rng_ok new_unseeded.
Proof. split; [done|split; [done|]|done]. apply Forall_replicate. unfold in_u. lia. Qed.

(** The counter of the generator, in 64 bits. *)
Definition counter (st : list Z) : Z := word st 12 + 2 ^ 32 * word st 13.

Lemma next_counter_spec st :
  length st = 16%nat → 0 ≤ word st 12 < 2 ^ 32 → 0 ≤ word st 13 < 2 ^ 32 → counter st < 2 ^ 64 - 1 →
  counter (next_counter st) = counter st + 1 ∧ 0 ≤ word (next_counter st) 12 < 2 ^ 32 ∧ 0 ≤ word (next_counter st) 13 < 2 ^ 32.
Proof.
  intros Hl H12 H13 Hc. do 17 (destruct st as [|? st]; [try done|]); [|done]. unfold next_counter, counter, word in *. cbn [nth insert list_insert] in *.
  unfold wadd, wrap. destruct (Z.eqb_spec ((z11 + 1) mod 2 ^ 32) 0) as [H0|H0]; cbn [nth insert list_insert].
  - assert (z11 = 2 ^ 32 - 1) as ->.
    { destruct (decide (z11 = 2 ^ 32 - 1)); [done|]. rewrite Z.mod_small in H0 by lia. lia. }
    rewrite (Z.mod_small (z12 + 1)) by lia. replace ((2 ^ 32 - 1 + 1) mod 2 ^ 32) with 0 by done. lia.
  - assert (z11 + 1 ≠ 2 ^ 32) by (intros E; by rewrite E, Z.mod_same in H0). rewrite Z.mod_small by lia. lia.
Qed.

(** A sequence of requests. *)
Fixpoint requests (hw : nat → Z) (ns : list nat) (r : ChaChaRng) : list (list Z) * ChaChaRng :=
  match ns with
  | [] => ([], r)
  | n :: ns => let '(out, r) := csprng_fill hw n r in let '(outs, r) := requests hw ns r in (out :: outs, r)
  end.

Definition seeded_state (hw : nat → Z) : list Z := rng_state (seed hw new_unseeded).

Lemma requests_seeded hw ns r :
  rng_ok r → seeded r = true →
  ∃ outs r' k, requests hw ns r = (outs, r') ∧ length <$> outs = ns ∧ ∀ j, stream (k + j) r = concat outs ++ stream j r'.
Proof.
  revert r. induction ns as [|n ns IH]; intros r Hr Hs; [by exists [], r, 0%nat|]. cbn [requests]. unfold csprng_fill, fill. rewrite Hs.
  destruct (fill_loop_spec n n r Hr) as (out & r1 & k1 & E & Hl & _ & Hr1 & Hs1 & _ & Hst); [done|]. rewrite E.
  destruct (IH r1 Hr1) as (outs & r2 & k2 & E2 & Hl2 & Hst2); [congruence|]. rewrite E2.
  exists (out :: outs), r2, (k1 + k2)%nat. split; [done|]. split; [by rewrite <-Hl, <-Hl2|].
  intros j. cbn [concat]. by rewrite <-Nat.add_assoc, Hst, Hst2, app_assoc.
Qed.

Lemma counter_blocks hw i : Z.of_nat i < 2 ^ 64 →
  counter (Nat.iter i next_counter (seeded_state hw)) = Z.of_nat i ∧
  length (Nat.iter i next_counter (seeded_state hw)) = 16%nat ∧
  0 ≤ word (Nat.iter i next_counter (seeded_state hw)) 12 < 2 ^ 32 ∧ 0 ≤ word (Nat.iter i next_counter (seeded_state hw)) 13 < 2 ^ 32.
Proof.
  induction i as [|i IH]; intros Hi; [by repeat split|]. destruct IH as (Hc & Hl & H12 & H13); [lia|].
  change (Nat.iter (S i) next_counter (seeded_state hw)) with (next_counter (Nat.iter i next_counter (seeded_state hw))).
  set (st := Nat.iter i next_counter (seeded_state hw)) in *.
  destruct (next_counter_spec st Hl H12 H13) as (E & H1 & H2); [lia|]. rewrite next_counter_length. split_and!; lia.
Qed.

(** C27. The random bytes of the kernel are one keystream: whatever is requested, the
    answers have the requested lengths, and one after the other they are the
    beginning of the blocks 0, 1, 2, ... of ChaCha20 under the seed, of which no
    byte is skipped or handed out twice; the number of a block is its counter. *)
Theorem csprng_stream hw ns :
  (∃ outs r' k, requests hw ns new_unseeded = (outs, r') ∧ length <$> outs = ns ∧
     concat outs ++ stream 0 r' = blocks k (seeded_state hw)) ∧
  ∀ i, Z.of_nat i < 2 ^ 64 → counter (Nat.iter i next_counter (seeded_state hw)) = Z.of_nat i.
Proof.
  split; [|intros i Hi; by apply counter_blocks]. destruct ns as [|n ns]; [by exists [], new_unseeded, 0%nat|].
  assert (requests hw (n :: ns) new_unseeded = requests hw (n :: ns) (seed hw new_unseeded)) as -> by done.
  destruct (requests_seeded hw (n :: ns) (seed hw new_unseeded)) as (outs & r' & k & E & Hl & Hst); [apply seed_ok, new_unseeded_ok|done|].
  exists outs, r', k. split; [done|]. split; [done|]. by rewrite <-Hst, Nat.add_0_r.
Qed.
