(* ===== verification/Stack.v ===== *)
(** * The network stack

    [net/mod.rs] and what [net/tcp.rs], [net/dns.rs] and [net/ipv4.rs] do through it:
    the devices, the dispatch of received frames, the table of connections, and
    the operations that transmit or wait.  A device is an interface, [NetworkDevice],
    as in [drivers/net/mod.rs]: whatever the hardware does by itself between two
    calls is in the state that the calls return.  The statics are those after
    [init]. *)

From stdpp Require Import base numbers list gmap strings sorting.
From S2P Require Import Prelude.
From S2P Require Import Bytes.
From S2P Require Import Net.
From S2P Require Import Ip.
From S2P Require Import Udp.
From S2P Require Import Tcp.
From S2P Require Import Dns.
From S2P Require Import Random.

(** ** State *)

#[export] Instance SocketAddr_countable : Countable SocketAddr.
Proof.
  refine (inj_countable' (λ a, (ip a, port a)) (λ x, mkSocketAddr x.1 x.2) _). by intros [].
Defined.

(** [receive] returns the bytes it wrote into a buffer of the given size, or [None]
    for an error; [transmit] whether it succeeded. *)
Class NetworkDevice (D : Type) := {
  mac_address : D → MacAddress;
  transmit : list Z → D → bool * D;
  rx_available : D → bool * D;
  dev_receive : nat → D → option (list Z) * D;
}.

Definition ConnKey : Type := SocketAddr * SocketAddr.

Record tcp_layer := mkTcpLayer {
  connections : gmap Z TcpConnection;
  key_map : gmap ConnKey Z;
  listeners : gmap Z Z;
  next_conn : Z;
  ephemeral : Z;
  isn_counter : Z;
}.
Definition tcp_init : tcp_layer := mkTcpLayer ∅ ∅ ∅ 1 49152 0x1000.

Definition with_connections (x : gmap Z TcpConnection) (t : tcp_layer) : tcp_layer :=
  mkTcpLayer x (key_map t) (listeners t) (next_conn t) (ephemeral t) (isn_counter t).
Definition with_key_map (x : gmap ConnKey Z) (t : tcp_layer) : tcp_layer :=
  mkTcpLayer (connections t) x (listeners t) (next_conn t) (ephemeral t) (isn_counter t).
Definition with_listeners (x : gmap Z Z) (t : tcp_layer) : tcp_layer :=
  mkTcpLayer (connections t) (key_map t) x (next_conn t) (ephemeral t) (isn_counter t).
Definition with_counters (c e i : Z) (t : tcp_layer) : tcp_layer :=
  mkTcpLayer (connections t) (key_map t) (listeners t) c e i.

Record net (D : Type) := mkNet {
  ipl : ip_layer;
  udpl : udp_layer;
  tcpl : tcp_layer;
  resolver : DnsResolver;
  next_txid : Z;
  rng : ChaChaRng;
  nics : gmap string D;
}.
Arguments mkNet {D}.
Arguments ipl {D}. Arguments udpl {D}. Arguments tcpl {D}. Arguments resolver {D}.
Arguments next_txid {D}. Arguments rng {D}. Arguments nics {D}.

Section setters.
Context {D : Type}.
Implicit Types n : net D.
Definition set_ipl (x : ip_layer) n : net D := mkNet x (udpl n) (tcpl n) (resolver n) (next_txid n) (rng n) (nics n).
Definition set_udpl (x : udp_layer) n : net D := mkNet (ipl n) x (tcpl n) (resolver n) (next_txid n) (rng n) (nics n).
Definition set_tcpl (x : tcp_layer) n : net D := mkNet (ipl n) (udpl n) x (resolver n) (next_txid n) (rng n) (nics n).
Definition set_resolver (x : DnsResolver) n : net D := mkNet (ipl n) (udpl n) (tcpl n) x (next_txid n) (rng n) (nics n).
Definition set_txid (x : Z) n : net D := mkNet (ipl n) (udpl n) (tcpl n) (resolver n) x (rng n) (nics n).
Definition set_rng (x : ChaChaRng) n : net D := mkNet (ipl n) (udpl n) (tcpl n) (resolver n) (next_txid n) x (nics n).
Definition set_nics (x : gmap string D) n : net D := mkNet (ipl n) (udpl n) (tcpl n) (resolver n) (next_txid n) (rng n) x.
End setters.

(** [match m { Ok(a) => .., Err(e) => .. }] *)
Definition attempt {S E A} (m : M S E A) : M S E (E + A) := λ s,
  match m s with
  | (Ok a, s) => (Ok (inr a), s)
  | (Err e, s) => (Ok (inl e), s)
  | (Panic, s) => (Panic, s)
  end.

Abbreviation NetM D := (M (net D) NetError).

Section stack.
Context {D : Type} `{!NetworkDevice D}.
Implicit Types n : net D.

Definition on_ip {A} (m : IpM A) : NetM D A := zoom ipl set_ipl m.
Definition on_udp {A} (m : UdpM A) : NetM D A := zoom udpl set_udpl m.
Definition modify_tcp (f : tcp_layer → tcp_layer) : NetM D unit := modify (λ n, set_tcpl (f (tcpl n)) n).

(** ** Devices *)

(** The keys of a [BTreeMap] in order. *)
Definition name_le (a b : string) : Prop := String.leb a b = true.
#[local] Instance name_le_dec : RelDecision name_le := λ a b, decide (String.leb a b = true).
Definition device_names n : list string := merge_sort name_le (elements (dom (nics n))).

Fixpoint transmit_loop (names : list string) (frame : list Z) : NetM D unit :=
  match names with
  | [] => mret tt
  | name :: names =>
      d ← gets (λ n, nics n !! name);
      match d with
      | None => transmit_loop names frame
      | Some d =>
          let '(ok, d) := transmit frame d in
          modify (λ n, set_nics (<[name := d]> (nics n)) n);;
          if ok : bool then mret tt else transmit_loop names frame
      end
  end.
Definition transmit_frame (frame : list Z) : NetM D unit := names ← gets device_names; transmit_loop names frame.

Definition transmit_all (frames : list (list Z)) : NetM D unit := iter_m transmit_frame frames.
Definition transmit_some (frame : option (list Z)) : NetM D unit :=
  match frame with Some f => transmit_frame f | None => mret tt end.

(** ** Incoming TCP segments *)

Definition id_le (a b : Z * TcpConnection) : Prop := a.1 ≤ b.1.
#[local] Instance id_le_dec : RelDecision id_le := λ a b, decide (a.1 ≤ b.1).
Definition conn_list (t : tcp_layer) : list (Z * TcpConnection) := merge_sort id_le (map_to_list (connections t)).

Definition generate_isn : NetM D Z :=
  i ← gets (λ n, isn_counter (tcpl n));
  modify_tcp (λ t, with_counters (next_conn t) (ephemeral t) (wadd 64 i 64000) t);;
  mret (as_u32 i).
Definition ephemeral_port : NetM D Z :=
  p ← gets (λ n, ephemeral (tcpl n));
  modify_tcp (λ t, with_counters (next_conn t) (wadd 16 p 1) (isn_counter t) t);;
  mret p.
Definition new_conn_id : NetM D Z :=
  i ← gets (λ n, next_conn (tcpl n));
  modify_tcp (λ t, with_counters (wadd 64 i 1) (ephemeral t) (isn_counter t) t);;
  mret i.
Definition insert_conn (id : Z) (c : TcpConnection) : NetM D unit :=
  modify_tcp (λ t, with_connections (<[id := c]> (connections t)) t).

Definition accept (local remote : SocketAddr) (seg : TcpSegment) : NetM D unit :=
  id ← new_conn_id;
  isn ← generate_isn;
  c ← on_ip (queue_segment (accepted local remote isn seg) (Z.lor SYN ACK));
  modify_tcp (λ t, with_key_map (<[(local, remote) := id]> (key_map t)) t);;
  insert_conn id c.

Definition drain_tx : NetM D unit :=
  frames ← gets (λ n, concat ((λ x, tx_queue x.2) <$> conn_list (tcpl n)));
  modify_tcp (λ t, with_connections ((λ c, set_tx_queue c []) <$> connections t) t);;
  transmit_all frames.

Definition dispatch_segment (src_ip : Ipv4Addr) (seg : TcpSegment) : NetM D unit :=
  cfg ← gets (λ n, config (ipl n));
  let local := mkSocketAddr (cfg_ip cfg) (seg_dst_port seg) in
  let remote := mkSocketAddr src_ip (seg_src_port seg) in
  t ← gets tcpl;
  match key_map t !! (local, remote) with
  | Some id =>
      match connections t !! id with
      | Some c => c ← on_ip (process_segment c seg); insert_conn id c
      | None => mret tt
      end
  | None =>
      if has (seg_flags seg) SYN then
        match listeners t !! seg_dst_port seg with
        | Some _ => accept local remote seg
        | None => mret tt
        end
      else mret tt
  end.

Definition tcp_process_incoming (src_ip : Ipv4Addr) (data : list Z) : NetM D unit :=
  seg ← liftc (TcpSegment_parse data);
  match seg with
  | None => mret tt
  | Some seg => dispatch_segment src_ip seg;; drain_tx
  end.

(** ** Received frames *)

Definition process_packet (pkt : Ipv4Packet) : NetM D unit :=
  if protocol pkt =? PROTO_ICMP then reply ← on_ip (process_icmp pkt); transmit_some reply
  else if protocol pkt =? PROTO_UDP then on_udp (udp_process_incoming (pkt_src pkt) (pkt_payload pkt))
  else if protocol pkt =? PROTO_TCP then tcp_process_incoming (pkt_src pkt) (pkt_payload pkt)
  else mret tt.

Definition process_rx (frame : list Z) : NetM D unit :=
  eth ← liftc (EthernetFrame_parse frame);
  match eth with
  | None => mret tt
  | Some eth =>
      cfg ← gets (λ n, config (ipl n));
      if negb (is_for_us eth (mac cfg)) then mret tt
      else if ethertype eth =? ETHERTYPE_ARP then
        reply ← on_ip (arp_process_incoming (eth_payload eth) (mac cfg) (cfg_ip cfg)); transmit_some reply
      else if ethertype eth =? ETHERTYPE_IPV4 then
        pkt ← liftc (Ipv4Packet_parse (eth_payload eth));
        match pkt with Some pkt => process_packet pkt | None => mret tt end
      else mret tt
  end.

(** One frame of every device, if it has one. *)
Fixpoint poll_loop (names : list string) : NetM D unit :=
  match names with
  | [] => mret tt
  | name :: names =>
      d ← gets (λ n, nics n !! name);
      match d with
      | None => mret tt
      | Some d =>
          let '(available, d) := rx_available d in
          if available : bool then
            let '(got, d) := dev_receive 2048 d in
            modify (λ n, set_nics (<[name := d]> (nics n)) n);;
            match got with
            | Some (b :: bs) => process_rx (b :: bs)
            | _ => mret tt
            end
          else modify (λ n, set_nics (<[name := d]> (nics n)) n)
      end;;
      poll_loop names
  end.
Definition poll_rx : NetM D unit := names ← gets device_names; poll_loop names.

(** [receive_frame]: the first frame a device has. *)
Fixpoint receive_loop (names : list string) : NetM D (option (list Z)) :=
  match names with
  | [] => mret None
  | name :: names =>
      d ← gets (λ n, nics n !! name);
      match d with
      | None => receive_loop names
      | Some d =>
          let '(available, d) := rx_available d in
          let '(got, d) := if available : bool then dev_receive 2048 d else (None, d) in
          modify (λ n, set_nics (<[name := d]> (nics n)) n);;
          match got with
          | Some (b :: bs) => mret (Some (b :: bs))
          | _ => receive_loop names
          end
      end
  end.
Definition receive_frame : NetM D (option (list Z)) := names ← gets device_names; receive_loop names.

(** ** The interface of TCP *)

Definition get_conn (id : Z) : NetM D TcpConnection :=
  c ← gets (λ n, connections (tcpl n) !! id); ok_or c ConnectionNotFound.

Definition create : NetM D Z := id ← new_conn_id; insert_conn id new_conn;; mret id.

Definition listen (id port : Z) : NetM D unit :=
  c ← get_conn id;
  cfg ← gets (λ n, config (ipl n));
  insert_conn id (set_state (set_local c (mkSocketAddr (cfg_ip cfg) port)) Listen);;
  modify_tcp (λ t, with_listeners (<[port := id]> (listeners t)) t).

Definition tcp_state (id : Z) : NetM D (option TcpState) := gets (λ n, state <$> connections (tcpl n) !! id).

(** [for _ in 0..300]; the spin loop has no effect. *)
Fixpoint connect_wait (iters : nat) (id : Z) : NetM D unit :=
  match iters with
  | O => throw TimedOut
  | S iters =>
      poll_rx;;
      st ← tcp_state id;
      match st with
      | Some Established => mret tt
      | Some Closed => throw ConnectionRefused
      | None => throw ConnectionNotFound
      | _ => connect_wait iters id
      end
  end.

Definition send_syn (id : Z) (remote : SocketAddr) : NetM D (option (list Z)) :=
  c ← get_conn id;
  cfg ← gets (λ n, config (ipl n));
  local_port ← ephemeral_port;
  isn ← generate_isn;
  let local := mkSocketAddr (cfg_ip cfg) local_port in
  modify_tcp (λ t, with_key_map (<[(local, remote) := id]> (key_map t)) t);;
  '(frame, c) ← on_ip (build_segment (connecting c local remote isn) SYN []);
  insert_conn id c;;
  mret frame.
Definition connect (id : Z) (remote : SocketAddr) : NetM D unit :=
  frame ← send_syn id remote; transmit_some frame;; connect_wait 300 id.

(** [for chunk in data.chunks(MSS)] *)
Fixpoint send_chunks (c : TcpConnection) (chunks : list (list Z)) : IpM (list (list Z) * TcpConnection) :=
  match chunks with
  | [] => mret ([], c)
  | chunk :: chunks =>
      '(frame, c) ← build_segment c (Z.lor PSH ACK) chunk;
      match frame with
      | Some f =>
          let e := mkRetxEntry (wsub 32 (snd_nxt c) (as_u32 (len chunk))) f 0 (tick c) in
          '(fs, c) ← send_chunks (set_retx_queue c (retx_queue c ++ [e])) chunks;
          mret (f :: fs, c)
      | None => send_chunks c chunks
      end
  end.
Definition tcp_send (id : Z) (data : list Z) : NetM D Z :=
  c ← get_conn id;
  if negb (bool_decide (state c = Established)) && negb (bool_decide (state c = CloseWait)) then throw NotConnected
  else
    '(frames, c) ← on_ip (send_chunks c (chunks MSS data));
    insert_conn id c;;
    transmit_all frames;;
    mret (len data).

(** The bytes written into a buffer of [size] bytes. *)
Definition tcp_recv (id : Z) (size : nat) : NetM D (list Z) :=
  c ← get_conn id;
  if bool_decide (recv_buf c = []) then
    if bool_decide (state c = CloseWait) || bool_decide (state c = Closed) then mret [] else throw WouldBlock
  else
    insert_conn id (set_recv_buf c (drop size (recv_buf c)));;
    mret (take size (recv_buf c)).

Fixpoint recv_blocking (iters : nat) (id : Z) (size : nat) : NetM D (list Z) :=
  match iters with
  | O => throw TimedOut
  | S iters =>
      poll_rx;;
      r ← attempt (tcp_recv id size);
      match r with
      | inr bs => mret bs
      | inl WouldBlock =>
          st ← tcp_state id;
          match st with
          | Some Closed | None => mret []
          | _ => recv_blocking iters id size
          end
      | inl e => throw e
      end
  end.

Definition recv_available (id : Z) n : Z := match connections (tcpl n) !! id with Some c => len (recv_buf c) | None => 0 end.

Definition close_frame (id : Z) : NetM D (option (list Z)) :=
  c ← get_conn id;
  match state c with
  | Established => '(f, c) ← on_ip (build_segment (set_state c FinWait1) (Z.lor FIN ACK) []); insert_conn id c;; mret f
  | CloseWait => '(f, c) ← on_ip (build_segment (set_state c LastAck) (Z.lor FIN ACK) []); insert_conn id c;; mret f
  | _ => insert_conn id (set_state c Closed);; mret None
  end.
Definition tcp_close (id : Z) : NetM D unit := f ← close_frame id; transmit_some f.

Definition destroy (id : Z) : NetM D unit :=
  modify_tcp (λ t,
    match connections t !! id with
    | None => t
    | Some c =>
        let t := with_connections (delete id (connections t)) t in
        let t := with_key_map (delete (local c, remote c) (key_map t)) t in
        if bool_decide (state c = Listen) then with_listeners (delete (port (local c)) (listeners t)) t else t
    end).

Definition connection_table n : list (Z * TcpState * SocketAddr * SocketAddr) :=
  (λ x, (x.1, state x.2, local x.2, remote x.2)) <$> conn_list (tcpl n).

Definition push_recv (id : Z) (data : list Z) : NetM D unit :=
  c ← get_conn id; insert_conn id (set_recv_buf c (recv_buf c ++ data)).
Definition take_send (id : Z) : NetM D (list Z) :=
  c ← get_conn id; insert_conn id (set_send_buf c []);; mret (send_buf c).

(** ** Ping *)

(** [for _ in 0..n { poll_rx() }] *)
Fixpoint poll_times (k : nat) : NetM D unit := match k with O => mret tt | S k => poll_rx;; poll_times k end.

Definition send_echo_request (dst : Ipv4Addr) (id seq : Z) : NetM D (option Z) :=
  payload ← liftc (echo_request id seq);
  tx_tick ← gets (λ n, icmp_tick (ipl n));
  frame ← on_ip (send_packet dst PROTO_ICMP payload);
  match frame with
  | Some f => transmit_frame f;; mret (Some tx_tick)
  | None =>
      arp_frame ← on_ip (arp_request_for dst);
      transmit_frame arp_frame;;
      poll_times 50;;
      frame ← on_ip (send_packet dst PROTO_ICMP payload);
      match frame with
      | Some f => transmit_frame f;; now ← gets (λ n, icmp_tick (ipl n)); mret (Some now)
      | None => mret None
      end
  end.

(** ** Resolving names *)

(** [for _ in 0..200] *)
Fixpoint wait_response (iters : nat) (local_port : Z) (name : string) : NetM D DnsEntry :=
  match iters with
  | O => throw DnsNotFound
  | S iters =>
      poll_rx;;
      dgram ← on_udp (udp_recv local_port);
      entry ← match dgram with
              | Some d => liftc (parse_response (dgram_data d) name)
              | None => mret None
              end;
      match entry with
      | Some e =>
          modify (λ n, set_resolver (mkDnsResolver (hosts (resolver n)) (<[name := e]> (cache (resolver n))) (Dns.local_port (resolver n))) n);;
          mret e
      | None => wait_response iters local_port name
      end
  end.

Definition wire_resolve (name : string) : NetM D DnsEntry :=
  cfg ← gets (λ n, config (ipl n));
  txid ← gets next_txid;
  modify (λ n, set_txid (wadd 16 txid 1) n);;
  local_port ← gets (λ n, local_port (resolver n));
  frame ← on_ip (udp_send local_port (dns cfg) DNS_PORT (build_query txid name));
  transmit_some frame;;
  wait_response 200 local_port name.

Definition resolve (name : string) : NetM D DnsEntry :=
  r ← gets resolver;
  match hosts r !! name with
  | Some addrs => mret (mkDnsEntry name addrs 86400)
  | None =>
      match cache r !! name with
      | Some e => mret e
      | None => wire_resolve name
      end
  end.
End stack.

(** ** Received frames leave the stack intact *)

(** [b] bounds the segments that any connection has processed. *)
Record net_ok {D} (b : Z) (n : net D) : Prop := {
  ok_ipl : ip_layer_ok (ipl n);
  ok_udpl : udp_layer_ok (udpl n);
  ok_conns : map_Forall (λ _ c, conn_ok c ∧ 0 ≤ tick c ≤ b) (connections (tcpl n));
  ok_ephemeral : in_u 16 (ephemeral (tcpl n));
  ok_rng : rng_ok (rng n);
}.

Section safety.
Context {D : Type} `{!NetworkDevice D}.
Implicit Types n : net D.

Lemma net_ok_mono b b' n : net_ok b n → b ≤ b' → net_ok b' n.
Proof.
  intros [] Hb. split; try done. eapply map_Forall_impl; [done|]. intros id c [? ?]. split; [done|lia].
Qed.

Lemma net_ok_nics b g n : net_ok b n → net_ok b (set_nics g n).
Proof. intros []. by split. Qed.

Lemma transmit_loop_spec names frame n : ∃ g, transmit_loop names frame n = (Ok tt, set_nics g n).
Proof.
  revert n. induction names as [|name names IH]; intros n; [exists (nics n); by destruct n|].
  cbn [transmit_loop]. unfold mbind, M_bind, gets. destruct (nics n !! name) as [d|]; [|apply IH].
  destruct (transmit frame d) as [[] d']; [by eexists|]. cbn [modify].
  destruct (IH (set_nics (<[name := d']> (nics n)) n)) as [g Hg]. by exists g.
Qed.

Lemma transmit_frame_spec frame n : ∃ g, transmit_frame frame n = (Ok tt, set_nics g n).
Proof. apply transmit_loop_spec. Qed.

Lemma transmit_frame_ok b X frame : triple (net_ok b) X (transmit_frame (D := D) frame) (λ _, True).
Proof.
  intros n Hn. destruct (transmit_frame_spec frame n) as [g Hg]. unfold wp. rewrite Hg. split; [by apply net_ok_nics|done].
Qed.

Lemma transmit_all_ok b X frames : triple (net_ok b) X (transmit_all (D := D) frames) (λ _, True).
Proof. apply (triple_iter _ _ _ (λ _, True)); [intros; apply transmit_frame_ok|by apply Forall_true]. Qed.

Lemma transmit_some_ok b X frame : triple (net_ok b) X (transmit_some (D := D) frame) (λ _, True).
Proof. destruct frame; [apply transmit_frame_ok|by apply triple_ret]. Qed.

Lemma on_ip_ok {A} b X (m : IpM A) Q : triple ip_layer_ok X m Q → triple (net_ok b) X (on_ip (D := D) m) Q.
Proof. apply triple_zoom; [intros n []; done|]. intros n t [] Ht. by split. Qed.

Lemma on_udp_ok {A} b X (m : UdpM A) Q : triple udp_layer_ok X m Q → triple (net_ok b) X (on_udp (D := D) m) Q.
Proof. apply triple_zoom; [intros n []; done|]. intros n t [] Ht. by split. Qed.

Lemma gets_ok {A} b (X : option NetError → Prop) (f : net D → A) : triple (net_ok b) X (gets f) (λ _, True).
Proof. by apply triple_gets. Qed.

Lemma generate_isn_ok b X : triple (net_ok b) X (generate_isn (D := D)) (in_u 32).
Proof.
  eapply triple_bind; [apply gets_ok|]. intros i _. eapply triple_bind; [apply triple_modify; intros n []; by split|].
  intros _ _. apply triple_ret. apply wrap_range. lia.
Qed.

Lemma new_conn_id_ok b X : triple (net_ok b) X (new_conn_id (D := D)) (λ _, True).
Proof.
  eapply triple_bind; [apply gets_ok|]. intros i _. eapply triple_bind; [apply triple_modify; intros n []; by split|].
  intros _ _. by apply triple_ret.
Qed.

Lemma ephemeral_port_ok b X : triple (net_ok b) X (ephemeral_port (D := D)) (in_u 16).
Proof.
  eapply triple_bind; [apply (triple_gets _ _ _ (in_u 16)); by intros n []|]. intros p Hp.
  eapply triple_bind; [apply triple_modify; intros n []; split; try done; apply wadd_range; lia|].
  intros _ _. by apply triple_ret.
Qed.

Lemma insert_conn_ok b X id c : conn_ok c → 0 ≤ tick c ≤ b → triple (net_ok b) X (insert_conn (D := D) id c) (λ _, True).
Proof. intros Hc Ht. apply triple_modify. intros n []. split; try done. by apply map_Forall_insert_2. Qed.

Lemma key_map_ok b (X : option NetError → Prop) f :
  triple (net_ok b) X (modify_tcp (D := D) (λ t, with_key_map (f t) t)) (λ _, True).
Proof. apply triple_modify. intros n []. by split. Qed.

Lemma accepted_ok l r isn seg : sock_ok l → sock_ok r → in_u 32 isn → conn_ok (accepted l r isn seg).
Proof. intros Hl Hr Hi. split; [exact Hl|exact Hr| |exact Hi|]; apply wadd_range; lia. Qed.

Lemma queue_segment_ok X c flags :
  conn_ok c → in_u 8 flags → triple ip_layer_ok X (queue_segment c flags) (λ c', conn_ok c' ∧ tick c' = tick c).
Proof.
  intros Hc Hf s Hs. destruct (queue_segment_spec c flags s Hc Hs Hf) as (q & s' & E & _ & Hs'). unfold wp. rewrite E.
  split; [done|]. split; [|done]. destruct Hc. split; try done. apply wadd_range. lia.
Qed.

Lemma build_segment_ok X c flags payload :
  conn_ok c → in_u 8 flags → bytes_ok payload → len payload ≤ 65495 →
  triple ip_layer_ok X (build_segment c flags payload) (λ x, conn_ok x.2 ∧ tick x.2 = tick c).
Proof.
  intros Hc Hf Hp Hl s Hs. destruct (build_segment_spec c flags payload s Hc Hs Hf Hp Hl) as (o & s' & E & _ & Hs' & _). unfold wp. rewrite E.
  split; [done|]. split; [|done]. destruct Hc. split; try done. apply wadd_range. lia.
Qed.

Lemma accept_ok b X l r seg : 0 ≤ b → sock_ok l → sock_ok r → triple (net_ok b) X (accept (D := D) l r seg) (λ _, True).
Proof.
  intros Hb Hl Hr. eapply triple_bind; [apply new_conn_id_ok|]. intros id _.
  eapply triple_bind; [apply generate_isn_ok|]. intros isn Hisn.
  eapply triple_bind; [apply on_ip_ok, queue_segment_ok; [by apply accepted_ok|change (Z.lor SYN ACK) with 18; unfold in_u; lia]|].
  intros c [Hc Ht]. eapply triple_bind; [apply key_map_ok|]. intros _ _. apply insert_conn_ok; [done|]. rewrite Ht. simpl. lia.
Qed.

Lemma drain_tx_ok b X : triple (net_ok b) X (drain_tx (D := D)) (λ _, True).
Proof.
  eapply triple_bind; [apply gets_ok|]. intros frames _. eapply triple_bind; [|intros; apply transmit_all_ok].
  apply triple_modify. intros n []. split; try done. cbn [tcpl set_tcpl connections with_connections].
  apply map_Forall_fmap. eapply map_Forall_impl; [done|]. intros id c [[] ?]. split; [by split|done].
Qed.

Lemma dispatch_segment_ok b X src seg n :
  net_ok b n → 0 ≤ b < 2 ^ 32 - 1 → ip_ok src → seg_ok seg →
  wp (dispatch_segment src seg) (λ _ n', net_ok (b + 1) n') X n.
Proof.
  intros Hn Hb Hsrc (_ & Hsp & Hdp). unfold dispatch_segment. apply wp_bind, wp_gets, wp_bind, wp_gets.
  set (l := mkSocketAddr _ (seg_dst_port seg)). set (r := mkSocketAddr src _).
  assert (sock_ok l ∧ sock_ok r) as [Hl Hr] by (split; split; try done; apply (ok_ip _ (ok_ipl b n Hn))).
  assert (net_ok (b + 1) n) as Hn1 by (eapply net_ok_mono; [done|lia]).
  destruct (key_map (tcpl n) !! (l, r)) as [id|].
  - destruct (connections (tcpl n) !! id) as [c|] eqn:Hid; [|by apply wp_ret].
    destruct (ok_conns b n Hn id c Hid) as [Hc Ht].
    destruct (process_segment_spec c seg (ipl n) Hc (ok_ipl b n Hn)) as (c' & s' & E & _ & Hs' & _ & Hc' & _ & _ & Ht' & _); [unfold in_u; lia|].
    apply wp_bind, wp_zoom. unfold wp at 1. rewrite E.
    eapply wp_mono; [apply (insert_conn_ok (b + 1) (λ _, False)); [done|rewrite Ht'; simpl; lia|]|by intros ? ? []|by intros ? ? []].
    destruct Hn1. by split.
  - destruct (has _ _); [|by apply wp_ret]. destruct (listeners _ !! _); [|by apply wp_ret].
    eapply wp_mono; [apply (accept_ok (b + 1) (λ _, False)); [lia|done|done|done]|by intros ? ? []|by intros ? ? []].
Qed.

Lemma tcp_process_ok b X src data n :
  net_ok b n → 0 ≤ b < 2 ^ 32 - 1 → ip_ok src → bytes_ok data →
  wp (tcp_process_incoming src data) (λ _ n', net_ok (b + 1) n') X n.
Proof.
  intros Hn Hb Hsrc Hd. unfold tcp_process_incoming. destruct (TcpSegment_parse_total data Hd) as (o & E & Ho).
  apply wp_bind, wp_liftc; rewrite E; [|done]. intros ? [= <-]. destruct o as [seg|]; [|by apply wp_ret, (net_ok_mono b); [|lia]].
  apply wp_bind. eapply wp_mono; [by apply (dispatch_segment_ok b (λ _ _, False))| |done].
  intros u n' Hn'. eapply wp_mono; [by apply (drain_tx_ok (b + 1) (λ _, False))|by intros ? ? []|by intros ? ? []].
Qed.

Lemma process_packet_ok b X pkt n :
  net_ok b n → 0 ≤ b < 2 ^ 32 - 1 → ip_ok (pkt_src pkt) → bytes_ok (pkt_payload pkt) → len (pkt_payload pkt) ≤ 65515 →
  wp (process_packet pkt) (λ _ n', net_ok (b + 1) n') X n.
Proof.
  intros Hn Hb Hs Hp Hl. assert (net_ok (b + 1) n) as Hn1 by (eapply net_ok_mono; [done|lia]). unfold process_packet.
  assert (∀ m : NetM D unit, triple (net_ok (b + 1)) (λ _, False) m (λ _, True) → wp m (λ _ n', net_ok (b + 1) n') X n) as Htr.
  { intros m Hm. eapply wp_mono; [by apply Hm|by intros ? ? []|by intros ? ? []]. }
  destruct (_ =? _).
  { apply Htr. eapply triple_bind; [by apply on_ip_ok, process_icmp_ok|]. intros. apply transmit_some_ok. }
  destruct (_ =? _); [by apply Htr, on_udp_ok, udp_process_ok|].
  destruct (_ =? _); [by apply tcp_process_ok|by apply wp_ret].
Qed.

(** A frame for this host or for everyone that carries an IPv4 packet whose total
    length is smaller than its header. *)
Definition runt (frame : list Z) n : Prop :=
  (take 6 frame = mac (config (ipl n)) ∨ is_broadcast (take 6 frame) = true) ∧
  from_be_bytes (take 2 (drop 12 frame)) = ETHERTYPE_IPV4 ∧ runt_packet (drop 14 frame).

Lemma process_rx_cases b frame n :
  net_ok b n → 0 ≤ b < 2 ^ 32 - 1 → bytes_ok frame → len frame < 2 ^ 16 →
  wp (process_rx frame) (λ _ n', net_ok (b + 1) n') (λ e n', e = None ∧ n' = n ∧ runt frame n) n.
Proof.
  intros Hn Hb Hf Hl. assert (net_ok (b + 1) n) as Hn1 by (apply (net_ok_mono b); [done|lia]). unfold process_rx.
  destruct (EthernetFrame_parse_total frame Hf) as (o & E & Ho). apply wp_bind, wp_liftc; rewrite E; [|done].
  intros ? [= <-]. destruct o as [eth|]; [|by apply wp_ret]. destruct Ho as (Heth & Hp & Hpl). apply wp_bind, wp_gets.
  destruct (is_for_us _ _) eqn:Hus; cbn [negb]; [|by apply wp_ret]. destruct (_ =? ETHERTYPE_ARP) eqn:He.
  { eapply wp_mono; [apply (triple_bind (net_ok (b + 1)) (λ _, False) _ _ (λ _, True) (λ _, True));
      [by apply on_ip_ok, arp_process_ok|by intros; apply transmit_some_ok|done]|by intros ? ? []|by intros ? ? []]. }
  destruct (Z.eqb_spec (ethertype eth) ETHERTYPE_IPV4) as [Heq|]; [|by apply wp_ret].
  apply wp_bind. destruct (Ipv4Packet_parse_cases (eth_payload eth) Hp) as [(o & E' & Ho)|[E' Hr]]; [unfold len in *; lia|..];
    apply wp_liftc; rewrite E'; try done.
  - intros ? [= <-]. destruct o as [pkt|]; [|by apply wp_ret]. destruct Ho as (Hpb & Hps & Hlen).
    apply process_packet_ok; try done. unfold len in *. lia.
  - intros _. split; [done|]. split; [done|]. subst eth. split; [|done].
    unfold is_for_us in Hus. apply orb_true_iff in Hus as [?%bool_decide_eq_true|?]; [by left|by right].
Qed.

Lemma runt_stops frame n : bytes_ok frame → runt frame n → process_rx frame n = (Panic, n).
Proof.
  intros Hf (Hus & He & Hr). assert (14 ≤ length frame)%nat as Hl.
  { destruct Hr as (_ & [H20 Hl] & _). unfold len in Hl. rewrite length_drop in Hl. lia. }
  assert (E : Ipv4Packet_parse (drop 14 frame) = Panic) by (apply runt_packet_panics; [by apply Forall_drop|done]).
  unfold process_rx, liftc, mbind, M_bind, gets. rewrite EthernetFrame_parse_Ok by done. cbn. rewrite He. cbn.
  unfold is_for_us. cbn [eth_dst].
  assert (bool_decide (take 6 frame = mac (config (ipl n))) || is_broadcast (take 6 frame) = true) as ->.
  { apply orb_true_iff. destruct Hus; [left; by apply bool_decide_eq_true|by right]. }
  cbn. by rewrite E.
Qed.
End safety.

(** C21. A received frame never damages the stack: for a well-formed state in which connections have
    processed fewer than 2^32 - 1 segments, and any frame of less than 2^16 bytes,
    [process_rx] returns with all connections, sockets and tables well formed,
    unless the frame is for this host or broadcast and carries an IPv4 packet with
    a complete header and a correct header checksum whose total length is smaller than its header length.
    On exactly those frames the kernel panics. *)
Theorem process_rx_safe {D} `{!NetworkDevice D} b frame (n : net D) :
  net_ok b n → 0 ≤ b < 2 ^ 32 - 1 → bytes_ok frame → len frame < 2 ^ 16 →
  (¬ runt frame n ∧ ∃ n', process_rx frame n = (Ok tt, n') ∧ net_ok (b + 1) n') ∨
  (runt frame n ∧ process_rx frame n = (Panic, n)).
Proof.
  intros Hn Hb Hf Hl. pose proof (process_rx_cases b frame n Hn Hb Hf Hl) as H. unfold wp in H.
  pose proof (runt_stops frame n Hf) as Hs. destruct (process_rx frame n) as [[[]|e|] n'].
  - left. split; [by intros ?%Hs|]. by exists n'.
  - by destruct H.
  - right. destruct H as (_ & -> & H). done.
Qed.

(** ** A device for examples: what arrives, and what was transmitted *)

Record queue_device := mkQueue { q_mac : MacAddress; q_rx : list (list Z); q_tx : list (list Z) }.
#[export] Instance queue_network_device : NetworkDevice queue_device := {
  mac_address := q_mac;
  transmit f d := (true, mkQueue (q_mac d) (q_rx d) (q_tx d ++ [f]));
  rx_available d := (negb (bool_decide (q_rx d = [])), d);
  dev_receive size d :=
    match q_rx d with
    | f :: rx => (Some (take size f), mkQueue (q_mac d) rx (q_tx d))
    | [] => (None, d)
    end;
}.

Definition demo_net (addr : Ipv4Addr) (m : MacAddress) (rx : list (list Z)) : net queue_device :=
  mkNet (with_config (mkIpConfig addr [255; 255; 255; 0] [10; 0; 2; 2] [10; 0; 2; 3] m) ip_init)
        (mkUdpLayer {[ 53 := [] ]} 49152) tcp_init (mkDnsResolver default_hosts ∅ 49152) 1 new_unseeded
        {[ "eth0" := mkQueue m rx [] ]}.
Definition demo_mac : MacAddress := [0x52; 0x54; 0; 0x12; 0x34; 0x56].
Definition demo_mac2 : MacAddress := [0x52; 0x54; 0; 0x12; 0x34; 0x57].

Lemma demo_net_ok addr m rx : ip_ok addr → mac_ok m → net_ok 0 (demo_net addr m rx).
Proof.
  intros Ha Hm. split.
  - split; [done|done|unfold in_u; simpl; lia|apply map_Forall_empty].
  - split; [|unfold in_u; simpl; lia]. cbn [demo_net udpl sockets]. apply map_Forall_singleton. simpl. lia.
  - by apply map_Forall_empty.
  - unfold in_u. simpl. lia.
  - apply new_unseeded_ok.
Qed.

(** A packet whose total length is zero. *)
Definition runt_frame : list Z :=
  build_frame demo_mac demo_mac2 ETHERTYPE_IPV4
    ([0x45; 0; 0; 0; 0; 0; 0; 0; 64; 17] ++ push16 0x62DD ++ [10; 0; 2; 2] ++ [10; 0; 2; 15]).

(** The same packet with its length of 20 bytes. *)
Definition empty_frame : list Z :=
  build_frame demo_mac demo_mac2 ETHERTYPE_IPV4
    ([0x45; 0; 0; 20; 0; 0; 0; 0; 64; 17] ++ push16 0x62C9 ++ [10; 0; 2; 2] ++ [10; 0; 2; 15]).

Lemma process_rx_safe_witness :
  let n := demo_net [10; 0; 2; 15] demo_mac [] in
  ¬ runt empty_frame n ∧ ∃ n', process_rx empty_frame n = (Ok tt, n') ∧ net_ok (0 + 1) n'.
Proof.
  intros n. destruct (process_rx_safe 0 empty_frame n) as [H|[_ H]]; [..|exact H|].
  - apply demo_net_ok; (split; [done|repeat constructor; unfold in_u; lia]).
  - lia.
  - unfold empty_frame, build_frame. repeat (apply Forall_app; split); try apply push16_ok;
      try (by apply Forall_replicate); repeat constructor; unfold in_u; lia.
  - by vm_compute.
  - by vm_compute in H.
Defined.

(** A frame that anyone on the network can send stops the kernel. *)
Lemma runt_panics : (process_rx runt_frame (demo_net [10; 0; 2; 15] demo_mac [])).1 = Panic.
Proof. by vm_compute. Qed.

(** ** From one host to another *)

(** What [arp_process_incoming] makes of a packet that was built.  The address it
    takes for the target starts two bytes early, in the target's MAC address. *)
Lemma arp_process_built op sm si tm ti pad m addr s :
  op = OP_REQUEST ∨ op = OP_REPLY → length sm = 6%nat → length si = 4%nat → length tm = 6%nat → length ti = 4%nat →
  arp_process_incoming (build_arp_packet op sm si tm ti ++ pad) m addr s
  = (Ok (if (op =? OP_REQUEST) && bool_decide (drop 4 tm ++ take 2 ti = addr) then Some (arp_build_reply m addr sm si) else None),
     with_arp (<[si := mkArpEntry sm ARP_TTL]> (arp_entries s)) s).
Proof.
  intros Hop H1 H2 H3 H4. do 7 (destruct sm as [|? sm]; try done). do 5 (destruct si as [|? si]; try done).
  do 7 (destruct tm as [|? tm]; try done). do 5 (destruct ti as [|? ti]; try done). clear H1 H2 H3 H4.
  destruct Hop as [-> | ->]; reflexivity.
Qed.

Section delivery.
Context {D : Type} `{!NetworkDevice D}.
Implicit Types a b : net D.

Definition learn (addr : Ipv4Addr) (m : MacAddress) (n : net D) : net D :=
  set_ipl (with_arp (<[addr := mkArpEntry m ARP_TTL]> (arp_entries (ipl n))) (ipl n)) n.

(** An ARP frame that reaches a host. *)
Lemma process_rx_arp dst op sm si tm ti b :
  (dst = BROADCAST ∨ dst = mac (config (ipl b))) → length dst = 6%nat →
  op = OP_REQUEST ∨ op = OP_REPLY → length sm = 6%nat → length si = 4%nat → length tm = 6%nat → length ti = 4%nat →
  process_rx (build_frame dst sm ETHERTYPE_ARP (build_arp_packet op sm si tm ti)) b
  = transmit_some (if (op =? OP_REQUEST) && bool_decide (drop 4 tm ++ take 2 ti = cfg_ip (config (ipl b)))
                   then Some (arp_build_reply (mac (config (ipl b))) (cfg_ip (config (ipl b))) sm si) else None)
      (learn si sm b).
Proof.
  intros Hdst Hd Hop H1 H2 H3 H4. unfold process_rx, mbind at 1, M_bind at 1, liftc at 1.
  rewrite EthernetFrame_parse_build by (done || unfold in_u, ETHERTYPE_ARP; lia). cbn [map_err].
  unfold mbind at 1, M_bind at 1, gets. assert (is_for_us (mkEthernetFrame dst sm ETHERTYPE_ARP (build_arp_packet op sm si tm ti ++ replicate (46 - length (build_arp_packet op sm si tm ti)) 0)) (mac (config (ipl b))) = true) as Hus.
  { unfold is_for_us. cbn [eth_dst]. destruct Hdst as [-> | ->]; [by rewrite orb_true_r|by rewrite bool_decide_eq_true_2]. }
  rewrite Hus. cbn [negb ethertype eth_payload]. change (ETHERTYPE_ARP =? ETHERTYPE_ARP) with true. cbv iota.
  unfold mbind, M_bind, on_ip, zoom. rewrite arp_process_built by done. done.
Qed.

(** A request is not answered by a host whose address does not begin with zero: the
    two bytes it compares first come from the unknown MAC address. *)
Lemma arp_request_learned sm si ti b :
  length sm = 6%nat → length si = 4%nat → length ti = 4%nat → cfg_ip (config (ipl b)) !! 0%nat ≠ Some 0 →
  process_rx (arp_build_request sm si ti) b = (Ok tt, learn si sm b).
Proof.
  intros H1 H2 H4 H0. unfold arp_build_request.
  rewrite process_rx_arp; [|by left|done|by left|done..]. rewrite bool_decide_eq_false_2; [done|].
  intros E. rewrite <-E in H0. by apply H0.
Qed.

(** A datagram that reaches a host with the port bound. *)
Lemma process_rx_udp frame m src dst sp dp payload q b :
  carries frame m src dst PROTO_UDP payload → m = mac (config (ipl b)) →
  ∀ n data, UdpPacket_parse payload = Ok (Some (mkUdpPacket sp dp n data)) →
  sockets (udpl b) !! dp = Some q → (length q ≤ 64)%nat →
  ∃ b', process_rx frame b = (Ok tt, b') ∧
    sockets (udpl b') = <[dp := drop (length q - 63) q ++ [mkReceivedDatagram src sp data]]> (sockets (udpl b)).
Proof.
  intros (eth & pkt & E1 & Hm & Het & E2 & Hsrc & _ & Hpr & Hpay) -> n data Hu Hq Hl.
  destruct (udp_process_queue (udpl b) src sp dp n data payload q Hu Hq Hl) as (u' & Eu & Hs').
  exists (set_udpl u' b). split; [|done]. unfold process_rx, mbind at 1, M_bind at 1, liftc at 1. rewrite E1. cbn [map_err].
  unfold mbind at 1, M_bind at 1, gets. assert (is_for_us eth (mac (config (ipl b))) = true) as ->.
  { unfold is_for_us. by rewrite bool_decide_eq_true_2. }
  cbn [negb]. rewrite Het. change (ETHERTYPE_IPV4 =? ETHERTYPE_ARP) with false. change (ETHERTYPE_IPV4 =? ETHERTYPE_IPV4) with true. cbv iota.
  unfold mbind, M_bind, liftc. rewrite E2. cbn [map_err]. unfold process_packet. rewrite Hpr, Hsrc, Hpay.
  change (PROTO_UDP =? PROTO_ICMP) with false. change (PROTO_UDP =? PROTO_UDP) with true. cbv iota.
  unfold on_udp, zoom. by rewrite Eu.
Qed.
End delivery.

(** C23. A datagram finds its way, from learning the address to the socket.  Host [b]
    broadcasts an ARP request for any address; host [a] on the same network learns
    the address of [b] from it.  The datagram that [a] sends then reaches [b] and is
    appended, with the address and port of its sender, to the queue of the port it is
    sent to, from which the oldest of more than 64 datagrams is dropped.  Padding and
    checksums are taken off on the way. *)
Theorem udp_end_to_end {D} `{!NetworkDevice D} ka kb (a b : net D) target sp dp payload q :
  net_ok ka a → net_ok kb b → is_local (cfg_ip (config (ipl b))) (config (ipl a)) = true → length target = 4%nat →
  (cfg_ip (config (ipl a)) !! 0%nat ≠ Some 0) →
  in_u 16 sp → in_u 16 dp → bytes_ok payload → len payload ≤ 65507 → sockets (udpl b) !! dp = Some q →
  let dst := cfg_ip (config (ipl b)) in
  ∃ a1 frame s b1,
    process_rx (arp_build_request (mac (config (ipl b))) dst target) a = (Ok tt, a1) ∧
    udp_send sp dst dp payload (ipl a1) = (Ok (Some frame), s) ∧
    process_rx frame b = (Ok tt, b1) ∧
    sockets (udpl b1) = <[dp := drop (length q - 63) q ++ [mkReceivedDatagram (cfg_ip (config (ipl a))) sp payload]]> (sockets (udpl b)).
Proof.
  intros Ha Hb Hloc Ht H0 Hsp Hdp Hpay Hlen Hq dst.
  pose proof (ok_ip _ (ok_ipl _ _ Ha)) as Hia. destruct (ok_ip _ (ok_ipl _ _ Hb)) as [Hib Hibb], (ok_mac _ (ok_ipl _ _ Hb)) as [Hmb Hmbb].
  set (mb := mac (config (ipl b))) in *.
  pose proof (arp_request_learned mb dst target a Hmb Hib Ht H0) as Erx.
  destruct (udp_segment_spec (cfg_ip (config (ipl a))) dst sp dp payload) as (seg & Eseg & Hsegb & Hsegl & Hsegp); try done.
  assert (ip_layer_ok (ipl (learn dst mb a))) as Hok.
  { destruct (ok_ipl _ _ Ha) as [? ? ? Harp]. split; try done. by apply map_Forall_insert_2. }
  destruct (send_packet_spec dst PROTO_UDP seg (conj Hib Hibb) ltac:(unfold in_u, PROTO_UDP; lia) ltac:(lia) _ Hok) as (o & Eo & Hm).
  unfold next_hop in Hm. change (config (ipl (learn dst mb a))) with (config (ipl a)) in Hm. fold dst in Hloc. rewrite Hloc in Hm.
  cbn [learn ipl set_ipl arp_entries with_arp] in Hm. rewrite lookup_insert_eq in Hm. destruct Hm as (f & -> & Hcar).
  destruct (process_rx_udp f mb _ dst sp dp seg q b Hcar eq_refl _ _ Hsegp Hq) as (b1 & Eb1 & Hs1).
  { destruct (ok_udpl _ _ Hb) as [Hqs _]. by apply (Hqs dp). }
  eexists (learn dst mb a), f, _, b1. split; [exact Erx|]. split; [|done].
  unfold udp_send, build_udp_segment, mbind, M_bind, gets, liftc. change (cfg_ip (config (ipl (learn dst mb a)))) with (cfg_ip (config (ipl a))).
  rewrite Eseg. cbn [map_err]. exact Eo.
Qed.

Lemma udp_end_to_end_witness :
  let a := demo_net [10; 0; 2; 15] demo_mac [] in
  let b := demo_net [10; 0; 2; 16] demo_mac2 [] in
  ∃ a1 frame s b1,
    process_rx (arp_build_request demo_mac2 [10; 0; 2; 16] [10; 0; 2; 15]) a = (Ok tt, a1) ∧
    udp_send 1000 [10; 0; 2; 16] 53 [1; 2; 3] (ipl a1) = (Ok (Some frame), s) ∧
    process_rx frame b = (Ok tt, b1) ∧
    sockets (udpl b1) = <[53 := [mkReceivedDatagram [10; 0; 2; 15] 1000 [1; 2; 3]]]> (sockets (udpl b)).
Proof.
  intros a b. apply (udp_end_to_end 0 0 a b [10; 0; 2; 15] 1000 53 [1; 2; 3] []);
    try done; try (unfold in_u; lia); try (apply demo_net_ok; (split; [done|repeat constructor; unfold in_u; lia])).
  repeat constructor; unfold in_u; lia.
Defined.

(** An ARP request for the address of this host is not answered: the address it asks
    for is read two bytes early, so that it is compared with two bytes of the MAC
    address, which a request leaves zero, and half of the address.  The host only
    learns the address of the sender; nothing is transmitted.  It would answer a
    request for the address [x.y.*.*] if its own were [0.0.x.y]. *)
Theorem arp_requests_unanswered {D} `{!NetworkDevice D} k sm si ti (n : net D) :
  net_ok k n → length sm = 6%nat → length si = 4%nat → length ti = 4%nat →
  let us := cfg_ip (config (ipl n)) in
  process_rx (arp_build_request sm si ti) n
  = transmit_some (if bool_decide ([0; 0] ++ take 2 ti = us) then Some (arp_build_reply (mac (config (ipl n))) us sm si) else None)
      (learn si sm n) ∧
  (us !! 0%nat ≠ Some 0 → process_rx (arp_build_request sm si us) n = (Ok tt, learn si sm n)).
Proof.
  intros Hn H1 H2 H4 us. split.
  - unfold arp_build_request. by rewrite process_rx_arp; [|by left|done|by left|..].
  - intros H0. apply arp_request_learned; try done. apply (ok_ip _ (ok_ipl _ _ Hn)).
Qed.

Lemma arp_requests_unanswered_witness :
  let n := demo_net [10; 0; 2; 15] demo_mac [] in
  process_rx (arp_build_request demo_mac2 [10; 0; 2; 16] [10; 0; 2; 15]) n
  = transmit_some (if bool_decide ([0; 0; 10; 0] = [10; 0; 2; 15]) then Some (arp_build_reply demo_mac [10; 0; 2; 15] demo_mac2 [10; 0; 2; 16]) else None)
      (learn [10; 0; 2; 16] demo_mac2 n) ∧
  ([10; 0; 2; 15] !! 0%nat ≠ Some 0 → process_rx (arp_build_request demo_mac2 [10; 0; 2; 16] [10; 0; 2; 15]) n = (Ok tt, learn [10; 0; 2; 16] demo_mac2 n)).
Proof.
  intros n. apply (arp_requests_unanswered 0 demo_mac2 [10; 0; 2; 16] [10; 0; 2; 15] n); [|done..].
  apply demo_net_ok; (split; [done|repeat constructor; unfold in_u; lia]).
Defined.
