(* ===== verification/Tls13.v ===== *)
(** * TLS 1.3

    [net/tls13.rs]: the handshake of a client, and the connection it returns, which
    protects what it sends and receives with AES-128-GCM.  The record layer is proved
    from the interface [Aead]: records that one side sends are the messages that the
    other side receives, in their order, however TCP cuts them.  What the handshake
    parses never panics. *)

From stdpp Require Import base numbers list gmap strings.
From S2P Require Import Prelude.
From S2P Require Import Bytes.
From S2P Require Import Text.
From S2P Require Import Sha.
From S2P Require Import Gcm.
From S2P Require Import X25519.
From S2P Require Import Net.
From S2P Require Import Ip.
From S2P Require Import Tcp.
From S2P Require Import Dns.
From S2P Require Import Random.
From S2P Require Import Stack.

(** ** Records *)

Definition CT_CHANGE_CIPHER : Z := 0x14.
Definition CT_ALERT : Z := 0x15.
Definition CT_HANDSHAKE : Z := 0x16.
Definition CT_APP_DATA : Z := 0x17.
Definition HS_CLIENT_HELLO : Z := 0x01.
Definition HS_SERVER_HELLO : Z := 0x02.
Definition HS_NEW_SESSION_TICKET : Z := 0x04.
Definition HS_FINISHED : Z := 0x14.
Definition EXT_SERVER_NAME : Z := 0x0000.
Definition EXT_SUPPORTED_GROUPS : Z := 0x000A.
Definition EXT_SIGNATURE_ALGORITHMS : Z := 0x000D.
Definition EXT_ALPN : Z := 0x0010.
Definition EXT_SUPPORTED_VERSIONS : Z := 0x002B.
Definition EXT_KEY_SHARE : Z := 0x0033.
Definition GROUP_X25519 : Z := 0x001D.
Definition TLS_AES_128_GCM_SHA256 : Z := 0x1301.

(** The bytes that [send_record] hands to TCP. *)
Definition record_bytes (content_type : Z) (data : list Z) : list Z := [content_type; 0x03; 0x03] ++ push16 (len data) ++ data.

Definition build_nonce (iv : list Z) (seq : Z) : list Z := take 4 iv ++ xor_bytes (drop 4 iv) (to_be_bytes 8 seq).
Definition TLS_RECORD_AAD (enc_len : Z) : list Z := [CT_APP_DATA; 0x03; 0x03] ++ push16 enc_len.

Definition decrypt_record (key iv : list Z) (seq : Z) (encrypted : list Z) : checked (option (list Z)) :=
  if (length encrypted <? 16)%nat then Ok None
  else
    let ct_len := (length encrypted - 16)%nat in
    aes128_gcm_open key (build_nonce iv seq) (TLS_RECORD_AAD (len encrypted)) (take ct_len encrypted) (drop ct_len encrypted).

(** The inner plaintext, sealed: data and content type. *)
Definition seal_record (key iv : list Z) (seq : Z) (inner : list Z) : checked (list Z) :=
  '(ct, tag) ← aes128_gcm_seal key (build_nonce iv seq) (TLS_RECORD_AAD (len inner + 16)) inner;
  Ok (ct ++ tag).

(** ** Connections *)

Record Tls13Connection := mkTls {
  tcp_id : Z;
  client_key : list Z;
  server_key : list Z;
  client_iv : list Z;
  server_iv : list Z;
  client_seq : Z;
  server_seq : Z;
  established : bool;
  alpn : string;
  tls_hostname : string;
  tls_buf : list Z;
}.

Definition set_client_seq (x : Z) (c : Tls13Connection) : Tls13Connection :=
  mkTls (tcp_id c) (client_key c) (server_key c) (client_iv c) (server_iv c) x (server_seq c) (established c) (alpn c) (tls_hostname c) (tls_buf c).
Definition set_server_seq (x : Z) (c : Tls13Connection) : Tls13Connection :=
  mkTls (tcp_id c) (client_key c) (server_key c) (client_iv c) (server_iv c) (client_seq c) x (established c) (alpn c) (tls_hostname c) (tls_buf c).
Definition set_established (x : bool) (c : Tls13Connection) : Tls13Connection :=
  mkTls (tcp_id c) (client_key c) (server_key c) (client_iv c) (server_iv c) (client_seq c) (server_seq c) x (alpn c) (tls_hostname c) (tls_buf c).
Definition set_tls_buf (x : list Z) (c : Tls13Connection) : Tls13Connection :=
  mkTls (tcp_id c) (client_key c) (server_key c) (client_iv c) (server_iv c) (client_seq c) (server_seq c) (established c) (alpn c) (tls_hostname c) x.

(** What [send] gives to TCP. *)
Definition protect (c : Tls13Connection) (inner : list Z) : checked (list Z) :=
  enc ← seal_record (client_key c) (client_iv c) (client_seq c) inner;
  Ok (record_bytes CT_APP_DATA enc).

(** [recv] from the moment TCP has returned the bytes [raw]: the data copied into a
    buffer of [size] bytes. *)
Definition recv_bytes (c : Tls13Connection) (raw : list Z) (size : nat) : checked (list Z * Tls13Connection) :=
  let c := set_tls_buf (tls_buf c ++ raw) c in
  if (length (tls_buf c) <? 5)%nat then Ok ([], c)
  else
    rec_len ← u16_at (tls_buf c) 3;
    let rec_len := Z.to_nat rec_len in
    if (length (tls_buf c) <? 5 + rec_len)%nat then Ok ([], c)
    else
      ct ← at_ (tls_buf c) 0;
      payload ← range (tls_buf c) 5 rec_len;
      let c := set_tls_buf (drop (5 + rec_len) (tls_buf c)) c in
      if ct =? CT_APP_DATA then
        plain ← decrypt_record (server_key c) (server_iv c) (server_seq c) payload;
        match plain with
        | None => Ok ([], c)
        | Some plain =>
            seq ← add 64 (server_seq c) 1;
            let c := set_server_seq seq c in
            match last plain with
            | Some inner_ct =>
                if inner_ct =? CT_APP_DATA then Ok (take size (removelast plain), c) else Ok ([], c)
            | None => Ok ([], c)
            end
        end
      else Ok ([], c).

(** ** Handshake messages *)

Definition push_extension (ext_type : Z) (data : list Z) : list Z := push16 ext_type ++ push16 (len data) ++ data.

Definition alpn_list : list Z := ([2] ++ bytes_of "h2") ++ ([8] ++ bytes_of "http/1.1").

Definition client_extensions (pub : list Z) (hostname : string) : list Z :=
  let name := bytes_of hostname in
  (if bool_decide (name = []) then []
   else push_extension EXT_SERVER_NAME (push16 (3 + len name) ++ [0x00] ++ push16 (len name) ++ name))
  ++ push_extension EXT_SUPPORTED_VERSIONS [0x03; 0x03; 0x04]
  ++ push_extension EXT_SUPPORTED_GROUPS [0x00; 0x02; 0x00; 0x1D]
  ++ push_extension EXT_KEY_SHARE (push16 36 ++ [0x00; 0x1D; 0x00; 0x20] ++ pub)
  ++ push_extension EXT_SIGNATURE_ALGORITHMS ([0x00; 6] ++ push16 0x0403 ++ push16 0x0804 ++ push16 0x0401)
  ++ push_extension EXT_ALPN (push16 (len alpn_list) ++ alpn_list).

(** The session identifier is random as well. *)
Definition build_client_hello (client_random pub session_id : list Z) (hostname : string) : list Z :=
  let exts := client_extensions pub hostname in
  let hello := [0x03; 0x03] ++ client_random ++ [32] ++ session_id ++ [0x00; 0x02] ++ push16 TLS_AES_128_GCM_SHA256
               ++ [0x01; 0x00] ++ push16 (len exts) ++ exts in
  [HS_CLIENT_HELLO; as_u8 (Z.shiftr (len hello) 16); as_u8 (Z.shiftr (len hello) 8); as_u8 (len hello)] ++ hello.

(** [while off + 4 <= ext_end]; every iteration skips at least four bytes. *)
Fixpoint key_share_loop (fuel : nat) (sh : list Z) (off ext_end : nat) : checked (option (list Z)) :=
  match fuel with
  | O => Panic
  | S fuel =>
      if (ext_end <? off + 4)%nat then Ok None
      else
        etype ← u16_at sh off;
        elen ← u16_at sh (off + 2);
        let elen := Z.to_nat elen in
        let off := (off + 4)%nat in
        if (ext_end <? off + elen)%nat then Ok None
        else if etype =? EXT_KEY_SHARE then
          data ← range sh off elen;
          if (length data <? 4)%nat then key_share_loop fuel sh (off + elen) ext_end
          else
            group ← u16_at data 0;
            klen ← u16_at data 2;
            if (group =? GROUP_X25519) && (klen =? 32) && (36 <=? length data)%nat then
              key ← range data 4 32; Ok (Some key)
            else key_share_loop fuel sh (off + elen) ext_end
        else key_share_loop fuel sh (off + elen) ext_end
  end.

Definition parse_server_hello_key_share (sh : list Z) : checked (option (list Z)) :=
  if (length sh <? 35)%nat then Ok None
  else
    sid_len ← at_ sh 34;
    let pos := (35 + Z.to_nat sid_len)%nat in
    if (length sh <=? pos + 3)%nat then Ok None
    else
      let ext_start := (pos + 3)%nat in
      if (length sh <? ext_start + 2)%nat then Ok None
      else
        ext_len ← u16_at sh ext_start;
        let ext_end := Nat.min (ext_start + 2 + Z.to_nat ext_len) (length sh) in
        key_share_loop (length sh) sh (ext_start + 2) ext_end.

(** [(b[i] << 16) | (b[i + 1] << 8) | b[i + 2]] *)
Definition u24_at (l : list Z) (i : nat) : checked Z := bs ← range l i 3; Ok (from_be_bytes bs).

(** [while off + 4 <= data.len()] *)
Fixpoint process_messages (fuel : nat) (data : list Z) (off : nat) (transcript : list Z) : checked (list Z) :=
  match fuel with
  | O => Panic
  | S fuel =>
      if (length data <? off + 4)%nat then Ok transcript
      else
        hs_type ← at_ data off;
        hs_len ← u24_at data (off + 1);
        let n := (4 + Z.to_nat hs_len)%nat in
        if (length data <? off + n)%nat then Ok transcript
        else
          msg ← range data off n;
          process_messages fuel data (off + n) (if hs_type =? HS_NEW_SESSION_TICKET then transcript else transcript ++ msg)
  end.
Definition process_handshake_messages (data transcript : list Z) : checked (list Z) :=
  process_messages (S (length data)) data 0 transcript.

(** ** The server's first answer *)

(** The body of a ServerHello and the key it carries; the random bytes of the server
    are not used. *)
Definition server_hello_key (payload : list Z) : checked (list Z) :=
  sh_len ← u24_at payload 1;
  let body := take (Nat.min (Z.to_nat sh_len) (length payload - 4)) (drop 4 payload) in
  key ← parse_server_hello_key_share body;
  Ok (default (replicate 32 0) key).

(** A record of the answer: the first one that is a ServerHello is kept. *)
Definition server_hello_record (ct : Z) (payload : list Z) (got : option (list Z * list Z)) : checked (option (list Z * list Z)) :=
  match got with
  | Some _ => Ok got
  | None =>
      if (ct =? CT_HANDSHAKE) && (4 <? length payload)%nat then
        b0 ← at_ payload 0;
        if b0 =? HS_SERVER_HELLO then key ← server_hello_key payload; Ok (Some (payload, key)) else Ok None
      else Ok None
  end.

(** The loop that looks for the ServerHello: the offset where it stops, and the
    message with its key.  Every iteration skips a header of five bytes. *)
Fixpoint find_server_hello (fuel : nat) (buf : list Z) (offset : nat) (got : option (list Z * list Z)) : checked (nat * option (list Z * list Z)) :=
  match fuel with
  | O => Panic
  | S fuel =>
      if (length buf <? offset + 5)%nat then Ok (offset, got)
      else
        ct ← at_ buf offset;
        rec_len ← u16_at buf (offset + 3);
        let rec_len := Z.to_nat rec_len in
        let offset := (offset + 5)%nat in
        if (length buf <? offset + rec_len)%nat then Ok (offset, got)
        else
          payload ← range buf offset rec_len;
          let offset := (offset + rec_len)%nat in
          got ← server_hello_record ct payload got;
          if ct =? CT_CHANGE_CIPHER then find_server_hello fuel buf offset got
          else if match got with Some _ => true | None => false end && (ct =? CT_APP_DATA) then Ok (offset, got)
          else find_server_hello fuel buf offset got
  end.

(** ** Keys *)

Record hs_keys := mkHsKeys { hs_secret : list Z; c_hs_traffic : list Z; s_key : list Z; s_iv : list Z; c_key : list Z; c_iv : list Z }.

Definition label (s : string) : list Z := bytes_of s.

Definition handshake_keys (shared_secret transcript : list Z) : checked hs_keys :=
  ch_sh_hash ← sha256 transcript;
  early ← hkdf_extract [] (replicate 32 0);
  empty ← sha256 [];
  derived ← derive_secret early (label "derived") empty;
  secret ← hkdf_extract derived shared_secret;
  c_hs ← hkdf_expand_label secret (label "c hs traffic") ch_sh_hash 32;
  s_hs ← hkdf_expand_label secret (label "s hs traffic") ch_sh_hash 32;
  s_key ← hkdf_expand_label s_hs (label "key") [] 16;
  s_iv ← hkdf_expand_label s_hs (label "iv") [] 12;
  c_key ← hkdf_expand_label c_hs (label "key") [] 16;
  c_iv ← hkdf_expand_label c_hs (label "iv") [] 12;
  Ok (mkHsKeys secret c_hs s_key s_iv c_key c_iv).

(** The keys of the connection, from the transcript with the client's Finished. *)
Definition application_keys (id : Z) (hostname : string) (secret transcript : list Z) : checked Tls13Connection :=
  empty ← sha256 [];
  derived ← derive_secret secret (label "derived") empty;
  master ← hkdf_extract derived (replicate 32 0);
  hash ← sha256 transcript;
  c_ap ← hkdf_expand_label master (label "c ap traffic") hash 32;
  s_ap ← hkdf_expand_label master (label "s ap traffic") hash 32;
  ck ← hkdf_expand_label c_ap (label "key") [] 16;
  ci ← hkdf_expand_label c_ap (label "iv") [] 12;
  sk ← hkdf_expand_label s_ap (label "key") [] 16;
  si ← hkdf_expand_label s_ap (label "iv") [] 12;
  Ok (mkTls id ck sk ci si 0 0 true "" hostname []).

Definition finished_message (k : hs_keys) (transcript : list Z) : checked (list Z) :=
  finished_key ← hkdf_expand_label (c_hs_traffic k) (label "finished") [] 32;
  hash ← sha256 transcript;
  verify_data ← hmac_sha256 finished_key hash;
  Ok ([HS_FINISHED; 0; 0; 32] ++ verify_data).

(** One encrypted record of the handshake: the sequence number and the transcript. *)
Definition handshake_record (k : hs_keys) (ct : Z) (payload : list Z) (st : Z * list Z) : checked (Z * list Z) :=
  if negb (ct =? CT_APP_DATA) then Ok st
  else
    plain ← decrypt_record (s_key k) (s_iv k) st.1 payload;
    match plain with
    | None => Ok st
    | Some plain =>
        seq ← add 64 st.1 1;
        match last plain with
        | Some inner_ct =>
            if inner_ct =? CT_HANDSHAKE then t ← process_handshake_messages (removelast plain) st.2; Ok (seq, t) else Ok (seq, st.2)
        | None => Ok (seq, st.2)
        end
    end.

(** The records of a buffer that was read later. *)
Fixpoint handshake_records (fuel : nat) (k : hs_keys) (buf : list Z) (off : nat) (st : Z * list Z) : checked (Z * list Z) :=
  match fuel with
  | O => Panic
  | S fuel =>
      if (length buf <? off + 5)%nat then Ok st
      else
        ct ← at_ buf off;
        rec_len ← u16_at buf (off + 3);
        let rec_len := Z.to_nat rec_len in
        let off := (off + 5)%nat in
        if (length buf <? off + rec_len)%nat then Ok st
        else
          payload ← range buf off rec_len;
          st ← (if ct =? CT_CHANGE_CIPHER then Ok st else handshake_record k ct payload st);
          handshake_records fuel k buf (off + rec_len) st
  end.

(** ** The encrypted records of the server

    The action [read] stands for the call of [read_records]. *)

Section flight.
Context {W : Type} (read : M W NetError (list Z)).

(** The records behind the ServerHello in the first buffer; more is read when one is
    incomplete.  A peer that always leaves the last record incomplete keeps the loop
    running, so [fuel], the number of records that the model follows, is an argument of
    the handshake; [None] says that the loop goes on after them. *)
Fixpoint first_records (fuel : nat) (k : hs_keys) (buf : list Z) (off : nat) (st : Z * list Z)
    : M W NetError (option (Z * list Z)) :=
  match fuel with
  | O => mret None
  | S fuel =>
      if (length buf <? off + 5)%nat then mret (Some st)
      else
        ct ← liftc (at_ buf off);
        rec_len ← liftc (u16_at buf (off + 3));
        let rec_len := Z.to_nat rec_len in
        let off := (off + 5)%nat in
        buf ← (if (length buf <? off + rec_len)%nat then more ← read; mret (buf ++ more) else mret buf);
        if (length buf <? off + rec_len)%nat then mret (Some st)
        else
          payload ← liftc (range buf off rec_len);
          st ← (if ct =? CT_CHANGE_CIPHER then mret st else liftc (handshake_record k ct payload st));
          first_records fuel k buf (off + rec_len) st
  end.

(** [for _ in 0..20] *)
Fixpoint more_records (iters : nat) (k : hs_keys) (st : Z * list Z) : M W NetError (Z * list Z) :=
  match iters with
  | O => mret st
  | S iters =>
      r ← attempt read;
      match r with
      | inl _ | inr [] => mret st
      | inr buf =>
          st ← liftc (handshake_records (S (length buf)) k buf 0 st);
          more_records iters k st
      end
  end.
End flight.

(** Both loops, with the two calls of [read_records]. *)
Definition server_records {W} (read_first read_more : M W NetError (list Z)) (fuel : nat) (k : hs_keys)
    (buf : list Z) (off : nat) (transcript : list Z) : M W NetError (option (list Z)) :=
  st ← first_records read_first fuel k buf off (0, transcript);
  match st with
  | None => mret None
  | Some st => '(_, transcript) ← more_records read_more 20 k st; mret (Some transcript)
  end.

(** ** The operations *)

Section tls.
Context {D : Type} `{!NetworkDevice D} (hw : nat → Z).

Definition random_bytes (n : nat) : NetM D (list Z) :=
  r ← gets rng; let '(out, r) := csprng_fill hw n r in modify (set_rng r);; mret out.

Definition send_record (id content_type : Z) (data : list Z) : NetM D unit :=
  _ ← tcp_send id (record_bytes content_type data); mret tt.

(** What arrives within [iters] polls, at most 4096 bytes; the buffer is empty before. *)
Fixpoint read_records (iters : nat) (id : Z) : NetM D (list Z) :=
  match iters with
  | O => throw Timeout
  | S iters =>
      poll_rx;;
      r ← attempt (tcp_recv id 4096);
      match r with
      | inr (b :: bs) => mret (b :: bs)
      | inr [] | inl WouldBlock => read_records iters id
      | inl e => throw e
      end
  end.

(** [None] if the loop over the first records goes on after [fuel] of them. *)
Definition handshake (fuel : nat) (id : Z) (hostname : string) : NetM D (option Tls13Connection) :=
  private_key ← random_bytes 32;
  public_key ← liftc (x25519_basepoint private_key);
  client_random ← random_bytes 32;
  session_id ← random_bytes 32;
  let client_hello := build_client_hello client_random public_key session_id hostname in
  send_record id CT_HANDSHAKE client_hello;;
  raw_buf ← read_records 5000 id;
  '(offset, got) ← liftc (find_server_hello (S (length raw_buf)) raw_buf 0 None);
  match got with
  | None => throw TlsHandshakeFailed
  | Some (server_hello, server_pubkey) =>
      shared_secret ← liftc (x25519 private_key server_pubkey);
      k ← liftc (handshake_keys shared_secret (client_hello ++ server_hello));
      t ← server_records (read_records 3000 id) (read_records 1000 id) fuel k raw_buf offset (client_hello ++ server_hello);
      match t with
      | None => mret None
      | Some transcript =>
          finished ← liftc (finished_message k transcript);
          send_record id CT_CHANGE_CIPHER [1];;
          enc ← liftc (seal_record (c_key k) (c_iv k) 0 (finished ++ [CT_HANDSHAKE]));
          send_record id CT_APP_DATA enc;;
          c ← liftc (application_keys id hostname (hs_secret k) (transcript ++ finished));
          mret (Some c)
      end
  end.

(** The operations on a connection return it. *)
Definition tls_send (c : Tls13Connection) (data : list Z) : NetM D Tls13Connection :=
  record ← liftc (protect c (data ++ [CT_APP_DATA]));
  _ ← tcp_send (tcp_id c) record;
  seq ← liftc (add 64 (client_seq c) 1);
  mret (set_client_seq seq c).

Definition tls_recv (c : Tls13Connection) (size : nat) : NetM D (list Z * Tls13Connection) :=
  raw ← recv_blocking 500 (tcp_id c) (Z.to_nat 16640);
  if bool_decide (raw = []) then mret ([], c) else liftc (recv_bytes c raw size).

Definition send_alert (c : Tls13Connection) (level desc : Z) : NetM D Tls13Connection :=
  record ← liftc (protect c [level; desc; CT_ALERT]);
  _ ← tcp_send (tcp_id c) record;
  seq ← liftc (add 64 (client_seq c) 1);
  mret (set_client_seq seq c).

Definition tls_close (c : Tls13Connection) : NetM D Tls13Connection :=
  c ← (if established c then
         r ← attempt (send_alert c 0 0);
         mret (set_established false (match r with inr c => c | inl _ => c end))
       else mret c);
  tcp_close (tcp_id c);;
  mret c.
End tls.

(** ** Nonces *)

Lemma to_be_bytes_inj n a b : 0 ≤ a < 256 ^ Z.of_nat n → 0 ≤ b < 256 ^ Z.of_nat n → to_be_bytes n a = to_be_bytes n b → a = b.
Proof.
  intros Ha Hb E. unfold to_be_bytes in E. apply (f_equal (@rev Z)) in E. rewrite !rev_involutive in E.
  apply (f_equal from_le_bytes) in E. rewrite !from_to_le_bytes in E.
  by rewrite !Z.mod_small in E.
Qed.

Lemma xor_bytes_inj a b b' : length a = length b → length a = length b' → xor_bytes a b = xor_bytes a b' → b = b'.
Proof.
  unfold xor_bytes. revert b b'. induction a as [|x a IH]; intros [|y b] [|y' b'] H1 H2 E; try done.
  simpl in *. injection E as E1 E2. f_equal; [|by apply IH; [lia|lia|]].
  apply (f_equal (Z.lxor x)) in E1. by rewrite <-!Z.lxor_assoc, Z.lxor_nilpotent, !Z.lxor_0_l in E1.
Qed.

(** Different records of a connection have different nonces. *)
Lemma build_nonce_inj iv seq seq' :
  length iv = 12%nat → in_u 64 seq → in_u 64 seq' → build_nonce iv seq = build_nonce iv seq' → seq = seq'.
Proof.
  intros Hl Hs Hs' E. unfold build_nonce in E. apply app_inv_head in E.
  apply xor_bytes_inj in E; [|rewrite length_drop, length_to_be_bytes; lia..].
  by apply (to_be_bytes_inj 8).
Qed.

Lemma build_nonce_ok iv seq : array_ok 12 iv → array_ok 12 (build_nonce iv seq).
Proof.
  intros [Hl Hb]. unfold build_nonce. split.
  - rewrite length_app, length_xor_bytes, length_take, length_drop, length_to_be_bytes. lia.
  - apply Forall_app. split; [by apply Forall_take|]. apply xor_bytes_ok; [by apply Forall_drop|apply to_be_bytes_ok].
Qed.

(** ** The record layer *)

Lemma TLS_RECORD_AAD_ok n : bytes_ok (TLS_RECORD_AAD n).
Proof. apply Forall_app. split; [by repeat constructor|apply push16_ok]. Qed.
Lemma len_TLS_RECORD_AAD n : len (TLS_RECORD_AAD n) = 5.
Proof. reflexivity. Qed.

(** What is sealed opens to itself under the same key, vector and number. *)
Lemma decrypt_seal key iv seq inner :
  array_ok 16 key → array_ok 12 iv → bytes_ok inner → len inner < 2 ^ 16 →
  ∃ enc, seal_record key iv seq inner = Ok enc ∧ len enc = len inner + 16 ∧ bytes_ok enc ∧
    decrypt_record key iv seq enc = Ok (Some inner).
Proof.
  intros [Hkl Hkb] Hiv Hi Hlen. destruct (build_nonce_ok iv seq Hiv) as [Hnl Hnb].
  destruct (aead_seal (seal := aes128_gcm_seal) key (build_nonce iv seq) (TLS_RECORD_AAD (len inner + 16)) inner) as (ct & t & Hs & Hcl & Hcb & [Htl Htb] & Ho);
    [done..|apply TLS_RECORD_AAD_ok|done|by rewrite len_TLS_RECORD_AAD|lia|].
  exists (ct ++ t). unfold seal_record. rewrite Hs. split; [done|].
  assert (Hl : length (ct ++ t) = (length inner + 16)%nat) by (rewrite length_app; lia).
  split; [unfold len; lia|]. split; [by apply Forall_app|].
  unfold decrypt_record. rewrite (proj2 (Nat.ltb_ge _ _)) by lia.
  replace (length (ct ++ t) - 16)%nat with (length ct) by lia. rewrite take_app_length, drop_app_length.
  by replace (len (ct ++ t)) with (len inner + 16) by (unfold len; lia).
Qed.

(** Any other bytes are refused: a record is opened only if it is the sealing of what
    it opens to. *)
Lemma decrypt_record_spec key iv seq enc :
  array_ok 16 key → array_ok 12 iv → bytes_ok enc → len enc < 2 ^ 16 →
  ∃ r, decrypt_record key iv seq enc = Ok r ∧
    match r with
    | Some inner => bytes_ok inner ∧ len enc = len inner + 16 ∧ seal_record key iv seq inner = Ok enc
    | None => ∀ inner, seal_record key iv seq inner = Ok enc → ¬ (bytes_ok inner ∧ len enc = len inner + 16)
    end.
Proof.
  intros Hk Hiv He Hlen. unfold decrypt_record. destruct (Nat.ltb_spec (length enc) 16) as [|Hl].
  { exists None. split; [done|]. intros inner _ [_ Hn]. unfold len in Hn. lia. }
  destruct (build_nonce_ok iv seq Hiv) as [Hnl Hnb]. destruct Hk as [Hkl Hkb].
  set (n := (length enc - 16)%nat). set (ct := take n enc). set (tag := drop n enc).
  assert (Hct : length ct = n) by (unfold ct; rewrite length_take; lia).
  assert (Htag : block_ok tag) by (split; [unfold tag; rewrite length_drop; lia|by apply Forall_drop]).
  destruct (aead_open (seal := aes128_gcm_seal) key (build_nonce iv seq) (TLS_RECORD_AAD (len enc)) ct) as (t & pt & Ht & Hpl & Hpb & Hs & Ho);
    [done..|apply TLS_RECORD_AAD_ok|by apply Forall_take|by rewrite len_TLS_RECORD_AAD|unfold len in *; lia|].
  rewrite (Ho tag Htag). eexists. split; [done|]. destruct (decide (tag = t)) as [<-|Hne].
  - split; [done|]. split; [unfold len; lia|]. unfold seal_record. replace (len pt + 16) with (len enc) by (unfold len; lia).
    rewrite Hs. cbn. unfold ct, tag. by rewrite take_drop.
  - intros inner Hi [Hib Hil]. unfold seal_record in Hi. rewrite <-Hil in Hi.
    destruct (aead_seal (seal := aes128_gcm_seal) key (build_nonce iv seq) (TLS_RECORD_AAD (len enc)) inner) as (ct' & t' & Hs' & Hcl & _ & [Htl _] & Ho');
      [done..|apply TLS_RECORD_AAD_ok|done|by rewrite len_TLS_RECORD_AAD|unfold len in *; lia|].
    rewrite Hs' in Hi. cbn in Hi. injection Hi as Hi.
    assert (E : ct = ct' ∧ tag = t') by (unfold ct, tag; rewrite <-Hi, take_app_length', drop_app_length' by (unfold len in *; lia); done).
    destruct E as [<- <-]. rewrite (Ho tag Htag) in Ho'. by rewrite decide_False in Ho'.
Qed.

(** The records that [send] hands to TCP for the messages [ms], one by one. *)
Fixpoint protect_all (c : Tls13Connection) (ms : list (list Z)) : checked (list (list Z)) :=
  match ms with
  | [] => Ok []
  | m :: ms =>
      r ← protect c (m ++ [CT_APP_DATA]);
      seq ← add 64 (client_seq c) 1;
      rs ← protect_all (set_client_seq seq c) ms;
      Ok (r :: rs)
  end.

(** Calls of [recv] with a buffer of [size] bytes, for which TCP returned [raws]. *)
Fixpoint recv_all (d : Tls13Connection) (raws : list (list Z)) (size : nat) : checked (list (list Z) * Tls13Connection) :=
  match raws with
  | [] => Ok ([], d)
  | raw :: raws =>
      '(out, d) ← recv_bytes d raw size;
      '(outs, d) ← recv_all d raws size;
      Ok (out :: outs, d)
  end.

(** The records [rs] open to the messages [ms] from the number [seq] on. *)
Inductive sealed (key iv : list Z) : Z → list (list Z) → list (list Z) → Prop :=
  | sealed_nil seq : sealed key iv seq [] []
  | sealed_cons seq m ms enc rs :
      decrypt_record key iv seq enc = Ok (Some (m ++ [CT_APP_DATA])) → in_u 16 (len enc) → in_u 64 (seq + 1) →
      sealed key iv (seq + 1) ms rs → sealed key iv seq (m :: ms) (record_bytes CT_APP_DATA enc :: rs).

(** The receiver has the keys of the sender. *)
Definition shares_keys (c d : Tls13Connection) : Prop :=
  server_key d = client_key c ∧ server_iv d = client_iv c ∧ array_ok 16 (client_key c) ∧ array_ok 12 (client_iv c).
Definition message_ok (m : list Z) : Prop := bytes_ok m ∧ len m + 17 < 2 ^ 16.

Lemma protect_all_sealed c ms :
  array_ok 16 (client_key c) → array_ok 12 (client_iv c) → 0 ≤ client_seq c → client_seq c + len ms < 2 ^ 64 →
  Forall message_ok ms →
  ∃ rs, protect_all c ms = Ok rs ∧ sealed (client_key c) (client_iv c) (client_seq c) ms rs.
Proof.
  intros Hk Hi. revert c Hk Hi. induction ms as [|m ms IH]; intros c Hk Hi H0 Hs Hms; [exists []; split; [done|constructor]|].
  inversion_clear Hms as [|?? [Hb Hl] Hms']. rewrite len_cons in Hs.
  destruct (decrypt_seal (client_key c) (client_iv c) (client_seq c) (m ++ [CT_APP_DATA])) as (enc & He & Hel & _ & Hd); [done..| | |].
  { apply Forall_app. split; [done|]. by repeat constructor. }
  { rewrite len_app. unfold len in *. simpl. lia. }
  assert (Hn : in_u 64 (client_seq c + 1)) by (pose proof (len_nonneg ms); split; lia).
  destruct (IH (set_client_seq (client_seq c + 1) c)) as (rs & Hrs & Hse); [done..|simpl; lia|simpl; lia|done|].
  exists (record_bytes CT_APP_DATA enc :: rs). split.
  - cbn [protect_all]. unfold protect. rewrite He. cbn. rewrite (add_Ok 64 _ _ Hn). cbn. by rewrite Hrs.
  - constructor; [done| |done|done]. rewrite len_app in Hel. unfold len in *. simpl in *. split; lia.
Qed.

Lemma length_record_bytes ct data : length (record_bytes ct data) = (5 + length data)%nat.
Proof. unfold record_bytes. rewrite !length_app, length_push16. done. Qed.

(** The parts of a record at the front of a buffer. *)
Lemma record_parts ct enc rest (b := record_bytes ct enc ++ rest) : in_u 16 (len enc) →
  at_ b 0 = Ok ct ∧ u16_at b 3 = Ok (len enc) ∧ range b 5 (length enc) = Ok enc ∧ drop (5 + length enc) b = rest.
Proof.
  intros Hl. subst b. unfold record_bytes. rewrite <-!app_assoc. split; [done|].
  split; [by apply (u16_at_app [ct; 3; 3])|]. rewrite (app_assoc [_; _; _]).
  assert (H5 : length ([ct; 3; 3] ++ push16 (len enc)) = 5%nat) by (by rewrite length_app, length_push16).
  split; [rewrite range_app_r, H5 by lia; by apply range_app_l|].
  rewrite drop_app_ge, H5 by lia. rewrite drop_app_ge by lia. replace (_ - _)%nat with 0%nat by lia. done.
Qed.

(** A complete record at the front of the buffer is opened. *)
Lemma recv_bytes_record d raw size enc m rest :
  tls_buf d ++ raw = record_bytes CT_APP_DATA enc ++ rest → in_u 16 (len enc) → in_u 64 (server_seq d + 1) →
  decrypt_record (server_key d) (server_iv d) (server_seq d) enc = Ok (Some (m ++ [CT_APP_DATA])) →
  recv_bytes d raw size = Ok (take size m, set_server_seq (server_seq d + 1) (set_tls_buf rest d)).
Proof.
  intros Hb Hl Hs Hd. destruct (record_parts CT_APP_DATA enc rest Hl) as (Ha & Hu & Hr & Hdr).
  unfold recv_bytes. cbn [tls_buf set_tls_buf server_key server_iv server_seq]. rewrite Hb.
  assert (Hlen : length (record_bytes CT_APP_DATA enc ++ rest) = (5 + length enc + length rest)%nat)
    by (rewrite length_app, length_record_bytes; lia).
  rewrite (proj2 (Nat.ltb_ge _ 5)), Hu by lia. cbn [mbind outcome_bind].
  unfold len. rewrite Nat2Z.id, (proj2 (Nat.ltb_ge _ _)), Ha by lia. cbn [mbind outcome_bind]. rewrite Hr, Hdr.
  cbn [mbind outcome_bind]. rewrite (proj2 (Z.eqb_eq CT_APP_DATA _)) by done.
  rewrite Hd. cbn [mbind outcome_bind]. rewrite (add_Ok 64 _ _ Hs). cbn [mbind outcome_bind].
  by rewrite last_snoc, removelast_last, (proj2 (Z.eqb_eq CT_APP_DATA _)).
Qed.

(** Until a record is complete, the bytes are kept. *)
Lemma recv_bytes_short d raw size ct enc more rest :
  tls_buf d ++ raw ++ more = record_bytes ct enc ++ rest → (length (tls_buf d ++ raw) < 5 + length enc)%nat → in_u 16 (len enc) →
  recv_bytes d raw size = Ok ([], set_tls_buf (tls_buf d ++ raw) d).
Proof.
  intros Hb Hl He. unfold recv_bytes. cbn [tls_buf set_tls_buf]. set (b := tls_buf d ++ raw) in *.
  destruct (Nat.ltb_spec (length b) 5) as [|H5]; [done|].
  assert (Hu : u16_at b 3 = Ok (len enc)).
  { destruct (record_parts ct enc rest He) as (_ & Hu & _). rewrite <-Hb, app_assoc in Hu. fold b in Hu.
    unfold u16_at in *. rewrite range_Ok in * by (rewrite ?length_app; lia).
    by rewrite drop_app_le, take_app_le in Hu by (rewrite ?length_drop; lia). }
  rewrite Hu. cbn [mbind outcome_bind]. unfold len. by rewrite Nat2Z.id, (proj2 (Nat.ltb_lt _ _)) by lia.
Qed.

(** In [to_come], what is buffered and what is to come, [more], are the records of the
    messages [ms]. *)
Definition same_keys (d d' : Tls13Connection) : Prop := server_key d' = server_key d ∧ server_iv d' = server_iv d.
Definition to_come (d : Tls13Connection) (more : list Z) (ms rs : list (list Z)) : Prop :=
  sealed (server_key d) (server_iv d) (server_seq d) ms rs ∧ tls_buf d ++ more = concat rs.

(** A call takes the first record if it is complete, and nothing otherwise. *)
Lemma recv_bytes_step d raw more size ms rs :
  to_come d (raw ++ more) ms rs → Forall (λ m, length m ≤ size)%nat ms →
  ∃ k d', recv_bytes d raw size = Ok (concat (take k ms), d') ∧ to_come d' more (drop k ms) (drop k rs) ∧
    (k ≤ 1)%nat ∧ (k ≤ length ms)%nat ∧ server_seq d' = server_seq d + Z.of_nat k ∧ same_keys d d' ∧
    (k = 0%nat → ∀ r, head rs = Some r → (length (tls_buf d') < length r)%nat).
Proof.
  intros [Hse Hb] Hsz. inversion Hse as [seq|seq m ms' enc rs' Hd He Hs Hse']; subst.
  - exists 0%nat, d. destruct (app_eq_nil _ _ Hb) as [Hb1 [-> ->]%app_eq_nil].
    split_and!; [|split; [by rewrite drop_nil|by rewrite Hb1]|lia|lia|lia|done|done].
    unfold recv_bytes. cbn. rewrite Hb1. destruct d; simpl in *. by subst.
  - destruct (decide (length (tls_buf d ++ raw) < 5 + length enc)%nat) as [Hl|Hl].
    + exists 0%nat, (set_tls_buf (tls_buf d ++ raw) d). split_and!; [by eapply recv_bytes_short| |lia|lia|simpl; lia|done|].
      * split; [done|]. cbn. by rewrite <-app_assoc.
      * intros _ r [= <-]. by rewrite length_record_bytes.
    + set (b := tls_buf d ++ raw) in *. set (r := record_bytes CT_APP_DATA enc) in *.
      assert (Hlr : length r = (5 + length enc)%nat) by apply length_record_bytes.
      rewrite app_assoc in Hb. fold b in Hb. cbn [concat] in Hb.
      assert (Hb' : b = r ++ drop (length r) b).
      { rewrite <-(take_drop (length r) b) at 1. f_equal.
        rewrite <-(take_app_le b more), Hb by lia. apply take_app_length. }
      exists 1%nat, (set_server_seq (server_seq d + 1) (set_tls_buf (drop (length r) b) d)).
      inversion_clear Hsz. split_and!; [| |lia|simpl; lia|done|done|done].
      * cbn [take concat]. rewrite app_nil_r, <-(take_ge m size) at 1 by done. by eapply recv_bytes_record.
      * split; [done|]. cbn. rewrite Hb', <-app_assoc in Hb. by apply app_inv_head in Hb.
Qed.

Lemma recv_all_stream raws d more size ms rs :
  to_come d (concat raws ++ more) ms rs → Forall (λ m, length m ≤ size)%nat ms →
  ∃ k outs d', recv_all d raws size = Ok (outs, d') ∧ concat outs = concat (take k ms) ∧
    to_come d' more (drop k ms) (drop k rs) ∧ (k ≤ length raws)%nat ∧ (k ≤ length ms)%nat ∧
    server_seq d' = server_seq d + Z.of_nat k ∧ same_keys d d'.
Proof.
  revert d ms rs. induction raws as [|raw raws IH]; intros d ms rs Hc Hsz.
  { exists 0%nat, [], d. split_and!; [done..|lia|lia|lia|done]. }
  cbn [concat] in Hc. rewrite <-app_assoc in Hc.
  destruct (recv_bytes_step d raw (concat raws ++ more) size ms rs) as (k & d1 & Hr & Hc1 & Hk1 & Hkm & Hs1 & [Hk Hi] & _); [done..|].
  destruct (IH d1 (drop k ms) (drop k rs)) as (j & outs & d2 & Hr2 & Ho & Hc2 & Hj & Hjm & Hs2 & [Hk' Hi']); [done|by apply Forall_drop|].
  rewrite length_drop in Hjm. exists (k + j)%nat, (concat (take k ms) :: outs), d2.
  split_and!; [|..|simpl; lia|lia|lia|split; congruence].
  - cbn [recv_all]. rewrite Hr. cbn. by rewrite Hr2.
  - cbn [concat]. by rewrite Ho, <-take_take_drop, concat_app.
  - by rewrite <-!drop_drop.
Qed.

(** The number of the records [rs] that end within the first [n] bytes. *)
Fixpoint complete (n : nat) (rs : list (list Z)) : nat :=
  match rs with
  | [] => 0
  | r :: rs => if (length r <=? n)%nat then S (complete (n - length r) rs) else 0
  end.

(** No piece holds the ends of two records, when [b] bytes came before the pieces. *)
Definition one_end (b : nat) (raws rs : list (list Z)) : Prop :=
  ∀ before p after, raws = before ++ p :: after →
    (complete (b + length (concat before) + length p) rs ≤ S (complete (b + length (concat before)) rs))%nat.

Lemma complete_all rs : complete (length (concat rs)) rs = length rs.
Proof.
  induction rs as [|r rs IH]; [done|]. cbn [concat complete]. rewrite length_app.
  rewrite (proj2 (Nat.leb_le _ _)) by lia. replace (_ - _)%nat with (length (concat rs)) by lia. by rewrite IH.
Qed.

Lemma complete_cons n r rs : (length r ≤ n)%nat → complete n (r :: rs) = S (complete (n - length r) rs).
Proof. intros H. cbn [complete]. by rewrite (proj2 (Nat.leb_le _ _)). Qed.

Lemma one_end_same b p raws rs : one_end b (p :: raws) rs → one_end (b + length p) raws rs.
Proof.
  intros H before q after ->. specialize (H (p :: before) q after eq_refl). cbn [concat] in H.
  rewrite length_app in H. by rewrite !Nat.add_assoc in H.
Qed.

Lemma one_end_next b p r raws rs :
  (length r ≤ b + length p)%nat → one_end b (p :: raws) (r :: rs) → one_end (b + length p - length r) raws rs.
Proof.
  intros Hl H before q after ->. specialize (H (p :: before) q after eq_refl). cbn [concat] in H.
  rewrite length_app, !complete_cons in H by lia.
  rewrite <-!Nat.add_sub_swap by lia. rewrite !Nat.add_assoc in H. lia.
Qed.

(** Then every record is taken as soon as it is complete. *)
Lemma recv_all_one_end raws d more size ms rs :
  to_come d (concat raws ++ more) ms rs → Forall (λ m, length m ≤ size)%nat ms →
  complete (length (tls_buf d)) rs = 0%nat → one_end (length (tls_buf d)) raws rs →
  let k := complete (length (tls_buf d) + length (concat raws)) rs in
  ∃ outs d', recv_all d raws size = Ok (outs, d') ∧ concat outs = concat (take k ms) ∧
    to_come d' more (drop k ms) (drop k rs).
Proof.
  revert d ms rs. induction raws as [|p raws IH]; intros d ms rs Hc Hsz H0 Hone.
  { cbn [concat length]. rewrite Nat.add_0_r, H0. by exists [], d. }
  cbn [concat] in *. rewrite <-app_assoc in Hc. rewrite length_app, Nat.add_assoc.
  destruct (recv_bytes_step d p (concat raws ++ more) size ms rs) as (k & d1 & Hr & Hc1 & Hk1 & Hkm & _ & _ & Hk0); [done..|].
  assert (Hlen : (length (tls_buf d1) + length (concat (take k rs)) = length (tls_buf d) + length p)%nat).
  { destruct Hc as [_ Hc], Hc1 as [_ Hc1]. apply (f_equal length) in Hc, Hc1.
    rewrite <-(take_drop k rs), concat_app in Hc. rewrite !length_app in *. lia. }
  destruct k as [|[|?]]; [| |lia]; cbn [take drop concat] in *.
  - assert (H0' : complete (length (tls_buf d1)) rs = 0%nat).
    { destruct rs as [|r rs]; [done|]. cbn [complete]. by rewrite (proj2 (Nat.leb_gt _ _)) by (by apply Hk0). }
    rewrite Nat.add_0_r in Hlen. apply one_end_same in Hone. rewrite <-Hlen in *.
    destruct (IH d1 ms rs) as (outs & d2 & Hr2 & Ho & Hc2); [done..|].
    exists ([] :: outs), d2. split; [|done]. cbn [recv_all]. rewrite Hr. cbn. by rewrite Hr2.
  - destruct Hc as [Hse Hc]. inversion Hse as [|seq m ms' enc rs' Hd He Hs Hse']; subst; [simpl in Hkm; lia|].
    set (r := record_bytes CT_APP_DATA enc) in *. cbn [take drop concat] in *. rewrite app_nil_r in *.
    pose proof (Hone [] p raws eq_refl) as H1. cbn [concat length] in H1. rewrite Nat.add_0_r, H0, complete_cons in H1 by lia.
    apply one_end_next in Hone; [|lia].
    replace (length (tls_buf d) + length p - length r)%nat with (length (tls_buf d1)) in H1, Hone by lia.
    inversion_clear Hsz. destruct (IH d1 ms' rs') as (outs & d2 & Hr2 & Ho & Hc2); [done|done|lia|done|].
    rewrite complete_cons by lia. replace (_ - length r)%nat with (length (tls_buf d1) + length (concat raws))%nat by lia.
    exists (m :: outs), d2. split; [cbn [recv_all]; rewrite Hr; cbn; by rewrite Hr2|].
    split; [cbn [take concat]; by rewrite Ho|done].
Qed.

Lemma sealed_length key iv seq ms rs : sealed key iv seq ms rs → length rs = length ms.
Proof. induction 1; simpl; lia. Qed.

Lemma sealed_idle key iv seq ms rs : sealed key iv seq ms rs → complete 0 rs = 0%nat.
Proof. destruct 1; [done|]. cbn [complete]. by rewrite length_record_bytes. Qed.

(** C24. What one side of a TLS connection sends with [send] is what the other side, with
    the same keys and numbers and nothing buffered, reads with [recv] into buffers of
    [size] bytes, for messages of at most [size] and less than 2^16 - 17 bytes each and
    as long as the sequence numbers stay below 2^64.  However TCP cuts the bytes, the
    calls never panic, and together they return the first messages, as many as records
    were taken, with the rest of the records still buffered or to come.  If no piece
    holds the ends of two records, then every message is read as soon as the last byte
    of its record has arrived, and all of them when all bytes have. *)
Theorem tls_records c d ms size :
  shares_keys c d → tls_buf d = [] → server_seq d = client_seq c → 0 ≤ client_seq c → client_seq c + len ms < 2 ^ 64 →
  Forall message_ok ms → Forall (λ m, length m ≤ size)%nat ms →
  ∃ rs, protect_all c ms = Ok rs ∧ length rs = length ms ∧
    (∀ raws more, concat raws ++ more = concat rs →
       ∃ k outs d', recv_all d raws size = Ok (outs, d') ∧ concat outs = concat (take k ms) ∧ (k ≤ length ms)%nat ∧
         tls_buf d' ++ more = concat (drop k rs) ∧ server_seq d' = client_seq c + Z.of_nat k) ∧
    (∀ raws more, concat raws ++ more = concat rs → one_end 0 raws rs →
       ∃ outs d', recv_all d raws size = Ok (outs, d') ∧
         concat outs = concat (take (complete (length (concat raws)) rs) ms) ∧
         (more = [] → concat outs = concat ms ∧ tls_buf d' = [])).
Proof.
  intros (Hk & Hi & Hko & Hio) Hb Hs H0 Hlen Hms Hsz.
  destruct (protect_all_sealed c ms) as (rs & Hrs & Hse); [done..|]. exists rs. split; [done|].
  rewrite <-Hk, <-Hi, <-Hs in Hse. pose proof (sealed_length _ _ _ _ _ Hse) as Hl. split_and!.
  - done.
  - intros raws more Hc. destruct (recv_all_stream raws d more size ms rs) as (k & outs & d' & Hr & Ho & [_ Hc'] & _ & Hkm & Hs' & _).
    { split; [done|]. by rewrite Hb. } { done. }
    exists k, outs, d'. split_and!; [done..|lia].
  - intros raws more Hc Hone.
    destruct (recv_all_one_end raws d more size ms rs) as (outs & d' & Hr & Ho & [_ Hc']);
      [by split; [|rewrite Hb]|done|rewrite Hb; by eapply sealed_idle|by rewrite Hb|].
    rewrite Hb in Ho, Hc'. cbn [length Nat.add] in Ho, Hc'.
    exists outs, d'. split; [done|]. split; [done|]. intros ->. rewrite app_nil_r in *.
    rewrite Ho. rewrite Hc, complete_all in *. by rewrite take_ge, Hc', drop_ge by lia.
Qed.

Definition demo_tls : Tls13Connection :=
  mkTls 1 (seqZ 1 16) (seqZ 1 16) (seqZ 20 12) (seqZ 20 12) 7 7 true "" "example.org" [].

Lemma tls_records_witness : ∃ rs, protect_all demo_tls [[1; 2; 3]; [4; 5]] = Ok rs ∧ length rs = 2%nat ∧
  ∃ outs d', recv_all demo_tls [take 30 (concat rs); drop 30 (concat rs)] 100 = Ok (outs, d') ∧
    concat outs = [1; 2; 3; 4; 5] ∧ tls_buf d' = [].
Proof.
  destruct (tls_records demo_tls demo_tls [[1; 2; 3]; [4; 5]] 100) as (rs & Hrs & Hl & _ & Hcut).
  - by repeat (split || constructor).
  - done.
  - done.
  - done.
  - done.
  - by repeat (split || constructor).
  - repeat constructor; simpl; lia.
  - exists rs. split; [done|]. split; [done|].
    destruct (Hcut [take 30 (concat rs); drop 30 (concat rs)] []) as (outs & d' & Hr & _ & Hall).
    + cbn [concat]. by rewrite !app_nil_r, take_drop.
    + vm_compute in Hrs. injection Hrs as <-. intros before p after E.
      destruct before as [|b1 [|b2 [|]]]; vm_compute in E; injection E; intros; subst; vm_compute; lia.
    + exists outs, d'. split; [done|]. apply Hall. done.
Defined.

(** ** Parsing *)

Lemma from_be_bytes_range bs : bytes_ok bs → 0 ≤ from_be_bytes bs < 256 ^ len bs.
Proof.
  intros Hb. unfold from_be_bytes. pose proof (from_le_bytes_range (rev bs)) as Hr.
  unfold len in *. rewrite length_rev in Hr. apply Hr. by apply Forall_rev.
Qed.

Lemma u24_at_total l i : bytes_ok l → (i + 3 ≤ length l)%nat → ∃ x, u24_at l i = Ok x ∧ in_u 24 x.
Proof.
  intros Hb Hl. unfold u24_at. destruct (range_total l i 3) as (bs & -> & Hbl & ->); [done|]. cbn. eexists. split; [done|].
  pose proof (from_be_bytes_range (take 3 (drop i l))) as Hr. unfold len in Hr. rewrite Hbl in Hr.
  apply Hr. by apply Forall_take, Forall_drop.
Qed.

Lemma range_bytes l a n k : bytes_ok l → range l a n = Ok k → bytes_ok k.
Proof. unfold range. case_match; [|done]. intros Hb [= <-]. by apply Forall_take, Forall_drop. Qed.

Lemma key_share_loop_total fuel sh off ext_end :
  bytes_ok sh → (ext_end ≤ length sh)%nat → (off ≤ ext_end < off + 4 * fuel)%nat →
  ∃ r, key_share_loop fuel sh off ext_end = Ok r ∧ match r with Some key => array_ok 32 key | None => True end.
Proof.
  intros Hb Hend. revert off. induction fuel as [|fuel IH]; intros off Hf.
  { cbn [key_share_loop]. lia. }
  cbn [key_share_loop]. destruct (Nat.ltb_spec ext_end (off + 4)) as [|H4]; [by exists None|].
  destruct (u16_at_total sh off) as (etype & -> & _); [done|lia|]. cbn [mbind outcome_bind].
  destruct (u16_at_total sh (off + 2)) as (elen & -> & _); [done|lia|]. cbn [mbind outcome_bind].
  set (n := Z.to_nat elen). destruct (Nat.ltb_spec ext_end (off + 4 + n)) as [|Hn]; [by exists None|].
  assert (Hrec : ∃ r, key_share_loop fuel sh (off + 4 + n) ext_end = Ok r ∧ match r with Some key => array_ok 32 key | None => True end)
    by (apply IH; lia).
  destruct (Z.eqb_spec etype EXT_KEY_SHARE); [|done].
  destruct (range_total sh (off + 4) n) as (data & Hd & Hdl & _); [lia|]. pose proof (range_bytes _ _ _ _ Hb Hd) as Hdb.
  rewrite Hd. cbn [mbind outcome_bind]. destruct (Nat.ltb_spec (length data) 4); [done|].
  destruct (u16_at_total data 0) as (group & -> & _); [done|lia|]. cbn [mbind outcome_bind].
  destruct (u16_at_total data 2) as (klen & -> & _); [done|lia|]. cbn [mbind outcome_bind].
  destruct (_ && _ && (36 <=? length data)%nat) eqn:E; [|done]. apply andb_prop in E as [_ E%Nat.leb_le].
  destruct (range_total data 4 32) as (key & Hk & Hkl & _); [lia|]. rewrite Hk. eexists. split; [done|].
  split; [done|by eapply range_bytes].
Qed.

Lemma parse_server_hello_total sh : bytes_ok sh →
  ∃ r, parse_server_hello_key_share sh = Ok r ∧ match r with Some key => array_ok 32 key | None => True end.
Proof.
  intros Hb. unfold parse_server_hello_key_share. destruct (Nat.ltb_spec (length sh) 35); [by exists None|].
  destruct (at_Ok sh 34) as (sid & -> & _); [lia|]. cbn [mbind outcome_bind].
  destruct (Nat.leb_spec (length sh) (35 + Z.to_nat sid + 3)); [by exists None|].
  destruct (Nat.ltb_spec (length sh) (35 + Z.to_nat sid + 3 + 2)); [by exists None|].
  destruct (u16_at_total sh (35 + Z.to_nat sid + 3)) as (n & -> & _); [done|lia|]. cbn [mbind outcome_bind].
  apply key_share_loop_total; [done|lia..].
Qed.

Lemma process_messages_total fuel data off transcript :
  bytes_ok data → bytes_ok transcript → (off ≤ length data < off + fuel)%nat →
  ∃ t, process_messages fuel data off transcript = Ok t ∧ bytes_ok t ∧ len t ≤ len transcript + Z.of_nat (length data - off).
Proof.
  intros Hb. revert off transcript. induction fuel as [|fuel IH]; intros off transcript Ht Hf.
  { exists transcript. lia. }
  cbn [process_messages]. destruct (Nat.ltb_spec (length data) (off + 4)); [exists transcript; split_and!; [done|done|lia]|].
  destruct (at_Ok data off) as (ty & -> & _); [lia|]. cbn [mbind outcome_bind].
  destruct (u24_at_total data (off + 1)) as (hl & -> & _); [done|lia|]. cbn [mbind outcome_bind].
  set (n := (4 + Z.to_nat hl)%nat). destruct (Nat.ltb_spec (length data) (off + n)); [exists transcript; split_and!; [done|done|lia]|].
  destruct (range_total data off n) as (msg & Hm & Hml & _); [done|]. rewrite Hm. cbn [mbind outcome_bind].
  destruct (IH (off + n)%nat (if ty =? HS_NEW_SESSION_TICKET then transcript else transcript ++ msg)) as (t & -> & Htb & Htl);
    [|lia|exists t; split; [done|]; split; [done|]].
  - case_match; [done|]. apply Forall_app. split; [done|exact (range_bytes _ _ _ _ Hb Hm)].
  - etrans; [exact Htl|]. case_match; [lia|]. rewrite len_app. unfold len at 2. lia.
Qed.

Lemma server_hello_key_total payload : bytes_ok payload → (4 < length payload)%nat → ∃ key, server_hello_key payload = Ok key ∧ array_ok 32 key.
Proof.
  intros Hb Hl. unfold server_hello_key. destruct (u24_at_total payload 1) as (n & -> & _); [done|lia|]. cbn [mbind outcome_bind].
  edestruct parse_server_hello_total as (r & -> & Hr); [by apply Forall_take, Forall_drop|]. eexists. split; [done|].
  destruct r; [done|]. by repeat constructor.
Qed.

(** The ServerHello that was found in [n] bytes, if any. *)
Definition hello_ok (n : nat) (got : option (list Z * list Z)) : Prop :=
  match got with Some (payload, key) => bytes_ok payload ∧ array_ok 32 key ∧ (length payload ≤ n)%nat | None => True end.

Lemma server_hello_record_total n ct payload got :
  bytes_ok payload → (length payload ≤ n)%nat → hello_ok n got → ∃ got', server_hello_record ct payload got = Ok got' ∧ hello_ok n got'.
Proof.
  intros Hpb Hpl Hgot. unfold server_hello_record. destruct got as [[]|]; [by eexists|]. destruct (ct =? CT_HANDSHAKE); [|by exists None].
  destruct (Nat.ltb_spec 4 (length payload)); [|by exists None]. cbn [andb].
  destruct (at_Ok payload 0) as (b0 & -> & _); [lia|]. cbn [mbind outcome_bind].
  destruct (b0 =? HS_SERVER_HELLO); [|by exists None].
  destruct (server_hello_key_total payload) as (key & -> & Hk); [done..|]. by eexists.
Qed.

Lemma find_server_hello_total fuel buf offset got :
  bytes_ok buf → (length buf < offset + fuel)%nat → (0 < fuel)%nat → hello_ok (length buf) got →
  ∃ offset' got', find_server_hello fuel buf offset got = Ok (offset', got') ∧ hello_ok (length buf) got'.
Proof.
  intros Hb. revert offset got. induction fuel as [|fuel IH]; intros off got Hf Hf0 Hgot; [lia|].
  cbn [find_server_hello]. destruct (Nat.ltb_spec (length buf) (off + 5)); [by eexists _, _|].
  destruct (at_Ok buf off) as (ct & -> & _); [lia|]. cbn [mbind outcome_bind].
  destruct (u16_at_total buf (off + 3)) as (n & -> & _); [done|lia|]. cbn [mbind outcome_bind].
  destruct (Nat.ltb_spec (length buf) (off + 5 + Z.to_nat n)); [by eexists _, _|].
  destruct (range_total buf (off + 5) (Z.to_nat n)) as (payload & Hp & Hpl & _); [lia|]. rewrite Hp. cbn [mbind outcome_bind].
  destruct (server_hello_record_total (length buf) ct payload got) as (got' & -> & Hg); [by eapply range_bytes|lia|done|].
  cbn [mbind outcome_bind]. destruct (ct =? CT_CHANGE_CIPHER); [apply IH; [lia|lia|done]|].
  destruct (_ && (ct =? CT_APP_DATA)); [by eexists _, _|]. apply IH; [lia|lia|done].
Qed.

(** The keys that a handshake derives have the widths that the cipher wants. *)
Definition keys_ok (k : hs_keys) : Prop := array_ok 16 (s_key k) ∧ array_ok 12 (s_iv k) ∧ array_ok 16 (c_key k) ∧ array_ok 12 (c_iv k).

Lemma handshake_record_total k ct payload st :
  keys_ok k → bytes_ok payload → len payload < 2 ^ 16 → in_u 64 (st.1 + 1) → bytes_ok st.2 →
  ∃ st', handshake_record k ct payload st = Ok st' ∧ st.1 ≤ st'.1 ≤ st.1 + 1 ∧ bytes_ok st'.2 ∧ len st'.2 ≤ len st.2 + len payload.
Proof.
  intros (Hk & Hi & _) Hb Hl Hs Ht. pose proof (len_nonneg payload). unfold handshake_record.
  destruct (negb _); [exists st; split_and!; [done|lia|lia|done|lia]|].
  destruct (decrypt_record_spec (s_key k) (s_iv k) st.1 payload) as (r & -> & Hr); [done..|]. cbn [mbind outcome_bind].
  destruct r as [inner|]; [|exists st; split_and!; [done|lia|lia|done|lia]].
  rewrite (add_Ok 64 _ _ Hs). cbn [mbind outcome_bind]. destruct Hr as (Hib & Hil & _).
  destruct (last inner) as [ict|] eqn:El; [|eexists; split; [done|]; cbn; split_and!; [lia|lia|done|lia]].
  destruct (ict =? CT_HANDSHAKE); [|eexists; split; [done|]; cbn; split_and!; [lia|lia|done|lia]].
  apply last_Some in El as [pre ->]. rewrite removelast_last. rewrite len_app in Hil. apply Forall_app in Hib as [Hib _].
  destruct (process_messages_total (S (length pre)) pre 0 st.2) as (t & Ht' & Htb & Htl); [done|done|lia|].
  unfold process_handshake_messages. rewrite Ht'. eexists. split; [done|]. cbn. unfold len in *. simpl in *. split_and!; [lia|lia|done|lia].
Qed.

Lemma handshake_records_total fuel k buf off st :
  keys_ok k → bytes_ok buf → bytes_ok st.2 → (off ≤ length buf < off + fuel)%nat → 0 ≤ st.1 → st.1 + Z.of_nat (length buf - off) < 2 ^ 64 →
  ∃ st', handshake_records fuel k buf off st = Ok st' ∧ bytes_ok st'.2 ∧ st.1 ≤ st'.1 ≤ st.1 + Z.of_nat (length buf - off) ∧
    len st'.2 ≤ len st.2 + Z.of_nat (length buf - off).
Proof.
  intros Hk Hb. revert off st. induction fuel as [|fuel IH]; intros off st Ht Hf H0 Hs; [lia|].
  cbn [handshake_records]. destruct (Nat.ltb_spec (length buf) (off + 5)); [exists st; split_and!; [done|done|lia..]|].
  destruct (at_Ok buf off) as (ct & -> & _); [lia|]. cbn [mbind outcome_bind].
  destruct (u16_at_total buf (off + 3)) as (n & -> & Hn); [done|lia|]. cbn [mbind outcome_bind].
  destruct (Nat.ltb_spec (length buf) (off + 5 + Z.to_nat n)); [exists st; split_and!; [done|done|lia..]|].
  destruct (range_total buf (off + 5) (Z.to_nat n)) as (payload & Hp & Hpl & _); [lia|]. rewrite Hp. cbn [mbind outcome_bind].
  pose proof (range_bytes _ _ _ _ Hb Hp) as Hpb.
  assert (∃ st', (if ct =? CT_CHANGE_CIPHER then Ok st else handshake_record k ct payload st) = Ok st' ∧
    st.1 ≤ st'.1 ≤ st.1 + 1 ∧ bytes_ok st'.2 ∧ len st'.2 ≤ len st.2 + len payload) as (st1 & -> & Hs1 & Ht1 & Hl1).
  { case_match; [exists st; split_and!; [done|lia|lia|done|pose proof (len_nonneg payload); lia]|].
    apply handshake_record_total; [done|done|unfold len; unfold in_u in Hn; lia|unfold in_u; lia|done]. }
  cbn [mbind outcome_bind]. destruct (IH (off + 5 + Z.to_nat n)%nat st1) as (st' & -> & Ht' & Hs' & Hl'); [done|lia|lia|lia|].
  exists st'. split_and!; [done|done|lia|lia|]. unfold len in *. lia.
Qed.

(** ** The key schedule returns *)

Lemma expand_label_total secret l context z n :
  array_ok 32 secret → (length l ≤ 32)%nat → (length context ≤ 32)%nat → z = Z.of_nat n → z < 2 ^ 16 →
  ∃ k, hkdf_expand_label secret l context z = Ok k ∧ array_ok n k.
Proof.
  intros [Hs Hsb] Hl Hc -> Hz. unfold hkdf_expand_label.
  destruct (hkdf_expand_total secret (hkdf_label l context (Z.of_nat n)) (Z.of_nat n)) as (k & Hk & Hkl & Hkb).
  - unfold len. lia.
  - unfold hkdf_label. rewrite !len_app. unfold len. simpl. lia.
  - lia.
  - exists k. split; [done|]. split; [unfold len in Hkl; lia|done].
Qed.

Lemma hkdf_extract_total salt ikm : (length salt ≤ 32)%nat → (length ikm ≤ 32)%nat → ∃ k, hkdf_extract salt ikm = Ok k ∧ array_ok 32 k.
Proof.
  intros Hs Hi. unfold hkdf_extract, extract_with. apply hmac_sha256_total.
  - case_match; unfold len; [rewrite length_replicate|]; lia.
  - unfold len. lia.
Qed.

Lemma sha256_array data : len data < 2 ^ 61 → ∃ d, sha256 data = Ok d ∧ array_ok 32 d.
Proof. apply sha256_total. Qed.

#[local] Opaque sha256 hkdf_expand_label hkdf_extract.

Lemma bind_total {A B} (m : checked A) (f : A → checked B) (P : B → Prop) a :
  m = Ok a → (∃ k, f a = Ok k ∧ P k) → ∃ k, (m ≫= f) = Ok k ∧ P k.
Proof. by intros ->. Qed.

(** The next step of the schedule. *)
Ltac kdf :=
  let d := fresh "d" in let E := fresh "E" in let H := fresh "H" in
  match goal with
  | |- ex (fun k => (sha256 ?m ≫= _) = _ ∧ _) =>
      destruct (sha256_array m) as (d & E & H); [done|]
  | |- ex (fun k => (hkdf_extract ?s ?i ≫= _) = _ ∧ _) =>
      destruct (hkdf_extract_total s i) as (d & E & H); [rewrite ?length_replicate; unfold array_ok in *; simpl; lia..|]
  | |- ex (fun k => (hkdf_expand_label ?s ?l ?c ?z ≫= _) = _ ∧ _) =>
      destruct (expand_label_total s l c z (Z.to_nat z)) as (d & E & H);
        [done|simpl; lia|unfold array_ok in *; simpl; lia|done|done|]
  end; apply (bind_total _ _ _ _ E); clear E; cbv beta.

Lemma handshake_keys_total shared transcript :
  array_ok 32 shared → len transcript < 2 ^ 61 →
  ∃ k, handshake_keys shared transcript = Ok k ∧ keys_ok k ∧ array_ok 32 (hs_secret k) ∧ array_ok 32 (c_hs_traffic k).
Proof.
  intros Hs Ht. unfold handshake_keys, derive_secret. do 11 kdf. eexists. split; [done|]. by split_and!.
Qed.

Lemma finished_message_total k transcript :
  array_ok 32 (c_hs_traffic k) → len transcript < 2 ^ 61 → ∃ m, finished_message k transcript = Ok m ∧ array_ok 36 m.
Proof.
  intros Hs Ht. unfold finished_message. do 2 kdf.
  destruct (hmac_sha256_total d d0) as (v & -> & Hv & Hvb); [unfold array_ok, len in *; lia..|]. eexists. split; [done|].
  split; [by rewrite length_app, Hv|]. apply Forall_app. split; [by repeat constructor|done].
Qed.

Lemma application_keys_total id hostname secret transcript :
  array_ok 32 secret → len transcript < 2 ^ 61 →
  ∃ c, application_keys id hostname secret transcript = Ok c ∧
    array_ok 16 (client_key c) ∧ array_ok 12 (client_iv c) ∧ array_ok 16 (server_key c) ∧ array_ok 12 (server_iv c).
Proof.
  intros Hs Ht. unfold application_keys, derive_secret. do 10 kdf. eexists. split; [done|]. by split_and!.
Qed.

(** ** The encrypted records never panic *)

(** A read returns bytes, as many as fit the buffer of [read_records], or fails; the
    error of a failed read is an error of [read]. *)
Definition reads {W} (read : M W NetError (list Z)) : Prop :=
  ∀ s, match read s with
       | (Ok bs, _) => bytes_ok bs ∧ len bs ≤ 4096
       | (Err _, _) => True
       | (Panic, _) => False
       end.
Definition fails_with {W} (read : M W NetError (list Z)) (e : NetError) : Prop := ∃ s s', read s = (Err e, s').

(** After [n] records from [st]. *)
Definition grown (n : Z) (st st' : Z * list Z) : Prop :=
  st.1 ≤ st'.1 ≤ st.1 + n ∧ bytes_ok st'.2 ∧ len st'.2 ≤ len st.2 + n * 2 ^ 16.

Section flight.
Context {W : Type}.
Implicit Types read : M W NetError (list Z).

Lemma record_step k ct payload st :
  keys_ok k → bytes_ok payload → len payload < 2 ^ 16 → bytes_ok st.2 → 0 ≤ st.1 → st.1 + 1 < 2 ^ 64 →
  ∃ st', (if ct =? CT_CHANGE_CIPHER then Ok st else handshake_record k ct payload st) = Ok st' ∧ grown 1 st st'.
Proof.
  intros Hk Hb Hl Ht H0 Hs. unfold grown. pose proof (len_nonneg payload).
  case_match; [exists st; split_and!; [done|lia|lia|done|lia]|].
  destruct (handshake_record_total k ct payload st) as (st' & Hst & Hn & Htb & Htl); [done..|unfold in_u; lia|done|].
  exists st'. split_and!; [done|lia|lia|done|lia].
Qed.

Lemma first_records_safe read fuel k buf off st s :
  reads read → keys_ok k → bytes_ok buf → bytes_ok st.2 → 0 ≤ st.1 → st.1 + Z.of_nat fuel < 2 ^ 64 →
  wp (first_records read fuel k buf off st)
    (λ r _, match r with Some st' => grown (Z.of_nat fuel) st st' | None => True end)
    (λ e _, match e with Some e => fails_with read e | None => False end) s.
Proof.
  intros Hread Hk. revert buf off st s.
  induction fuel as [|fuel IH]; intros buf off st s Hb Ht H0 Hs; [by apply wp_ret|]. cbn [first_records].
  assert (Hsame : grown (Z.of_nat (S fuel)) st st) by (split_and!; [lia|lia|done|lia]).
  destruct (Nat.ltb_spec (length buf) (off + 5)) as [|H5]; [by apply wp_ret|].
  destruct (at_Ok buf off) as (ct & Hct & _); [lia|].
  apply wp_bind, wp_liftc; rewrite Hct; [|done]. intros ? [= <-].
  destruct (u16_at_total buf (off + 3)) as (n & Hn & Hnr); [done|lia|].
  apply wp_bind, wp_liftc; rewrite Hn; [|done]. intros ? [= <-]. apply wp_bind.
  assert (Hgo : ∀ buf s, bytes_ok buf → wp
    (if (length buf <? off + 5 + Z.to_nat n)%nat then mret (Some st)
     else payload ← liftc (range buf (off + 5) (Z.to_nat n));
          st ← (if ct =? CT_CHANGE_CIPHER then mret st else liftc (handshake_record k ct payload st));
          first_records read fuel k buf (off + 5 + Z.to_nat n) st)
    (λ r _, match r with Some st' => grown (Z.of_nat (S fuel)) st st' | None => True end)
    (λ e _, match e with Some e => fails_with read e | None => False end) s).
  { clear s buf Hb H5 Hct Hn. intros buf s Hb.
    destruct (Nat.ltb_spec (length buf) (off + 5 + Z.to_nat n)); [by apply wp_ret|].
    destruct (range_total buf (off + 5) (Z.to_nat n)) as (payload & Hp & Hpl & _); [lia|].
    apply wp_bind, wp_liftc; rewrite Hp; [|done]. intros ? [= <-].
    destruct (record_step k ct payload st) as (st1 & Hst & Hn1 & Ht1 & Hl1);
      [done|by eapply range_bytes|unfold len, in_u in *; lia|done|lia|lia|].
    apply wp_bind. apply (wp_mono _ (λ r _, r = st1) _ (λ _ _, False)); [|intros ? s1 ->|done].
    { case_match; [apply wp_ret; congruence|]. apply wp_liftc; rewrite Hst; [congruence|done]. }
    eapply wp_mono; [apply IH; [done|done|lia|lia]| |done]. intros [st'|] _ Hg; [|done].
    destruct Hg as (Hn' & Ht' & Hl'). split_and!; [lia|lia|done|lia]. }
  destruct (Nat.ltb_spec (length buf) (off + 5 + Z.to_nat n)) as [Hshort|]; [|by apply wp_ret, Hgo].
  apply wp_bind. unfold wp at 1. pose proof (Hread s) as Hr. destruct (read s) as [[bs|e|] s1] eqn:E; [|by exists s, s1|done].
  apply wp_ret, Hgo. apply Forall_app. split; [done|apply Hr].
Qed.

Lemma more_records_safe read iters k st s :
  reads read → keys_ok k → bytes_ok st.2 → 0 ≤ st.1 → st.1 + Z.of_nat iters * 4096 < 2 ^ 64 →
  ∃ st' s', more_records read iters k st s = (Ok st', s') ∧ bytes_ok st'.2 ∧ len st'.2 ≤ len st.2 + Z.of_nat iters * 4096.
Proof.
  intros Hread Hk. revert st s. induction iters as [|iters IH]; intros st s Ht H0 Hs.
  { exists st, s. split_and!; [done|done|lia]. }
  cbn [more_records]. unfold mbind, M_bind, attempt. pose proof (Hread s) as Hr.
  assert (Hsame : ∃ st' s', @mret (M W NetError) _ _ st s = (Ok st', s') ∧ bytes_ok st'.2 ∧
    len st'.2 ≤ len st.2 + Z.of_nat (S iters) * 4096) by (exists st, s; split_and!; [done|done|lia]).
  destruct (read s) as [[bs|e|] s1]; [|exists st, s1; split_and!; [done|done|lia]|done].
  destruct bs as [|b bs]; [exists st, s1; split_and!; [done|done|lia]|]. set (buf := b :: bs) in *. destruct Hr as [Hb Hl].
  destruct (handshake_records_total (S (length buf)) k buf 0 st) as (st1 & Hst & Ht1 & Hs1 & Hl1);
    [done..|lia|done|unfold len in *; lia|].
  unfold liftc. rewrite Hst. cbn [map_err].
  destruct (IH st1 s1) as (st' & s' & E & Ht' & Hl'); [done|lia|unfold len in *; lia|].
  exists st', s'. split_and!; [done|done|unfold len in *; lia].
Qed.

(** If [m] bounds the bytes that the server has yet to send, the loop ends. *)
Lemma first_records_end read (m : W → nat) fuel k buf off st s :
  (∀ s bs s', read s = (Ok bs, s') → (length bs + m s' ≤ m s)%nat) →
  (length buf + m s < off + fuel)%nat → (0 < fuel)%nat →
  (first_records read fuel k buf off st s).1 ≠ Ok None.
Proof.
  intros Hm. revert buf off st s. induction fuel as [|fuel IH]; intros buf off st s Hf H0; [lia|]. cbn [first_records].
  destruct (Nat.ltb_spec (length buf) (off + 5)) as [|H5]; [done|].
  unfold mbind, M_bind, liftc. destruct (at_ buf off) as [ct|[]|]; [|done]. cbn [map_err].
  destruct (u16_at buf (off + 3)) as [n|[]|]; [|done]. cbn [map_err]. set (l := Z.to_nat n).
  assert (Hgo : ∀ buf s, (length buf + m s < off + S fuel)%nat → (
    (if (length buf <? off + 5 + l)%nat then mret (Some st)
     else payload ← liftc (range buf (off + 5) l);
          st ← (if ct =? CT_CHANGE_CIPHER then mret st else liftc (handshake_record k ct payload st));
          first_records read fuel k buf (off + 5 + l) st) s).1 ≠ Ok None).
  { clear s buf Hf H5. intros buf s Hf. destruct (Nat.ltb_spec (length buf) (off + 5 + l)); [done|].
    unfold mbind, M_bind, liftc. destruct (range buf (off + 5) l) as [payload|[]|]; [|done]. cbn [map_err].
    destruct (ct =? CT_CHANGE_CIPHER); [apply IH; lia|].
    destruct (handshake_record k ct payload st) as [st1|[]|]; [|done]. apply IH; lia. }
  destruct (Nat.ltb_spec (length buf) (off + 5 + l)) as [Hshort|]; [|by apply Hgo].
  destruct (read s) as [[bs|e|] s1] eqn:E; [|done..]. apply Hgo. apply Hm in E. rewrite length_app. lia.
Qed.
End flight.

Lemma server_records_cases {W} (read_first read_more : M W NetError (list Z)) fuel k buf off t s :
  reads read_first → reads read_more → keys_ok k → bytes_ok buf → bytes_ok t → Z.of_nat fuel ≤ 2 ^ 40 →
  match (server_records read_first read_more fuel k buf off t s).1 with
  | Ok (Some t') => bytes_ok t' ∧ len t' ≤ len t + 2 ^ 57
  | Ok None => ∀ m : W → nat, (∀ s bs s', read_first s = (Ok bs, s') → (length bs + m s' ≤ m s)%nat) →
      (fuel ≤ length buf + m s)%nat
  | Err e => fails_with read_first e
  | Panic => False
  end.
Proof.
  intros Hr1 Hr2 Hk Hb Ht Hfuel.
  pose proof (first_records_safe read_first fuel k buf off (0, t) s Hr1 Hk Hb Ht ltac:(done) ltac:(simpl; lia)) as H1.
  pose proof (λ m, first_records_end read_first m fuel k buf off (0, t) s) as Hend.
  unfold server_records, mbind, M_bind, wp in *.
  destruct (first_records read_first fuel k buf off (0, t) s) as [[[st|]|e|] s1]; cbn [fst] in *; [|..|done|done].
  - destruct H1 as (Hn & Htb & Htl). cbn [fst snd] in *.
    destruct (more_records_safe read_more 20 k st s1) as ([n t'] & s2 & E & Hb' & Hl'); [done..|lia|lia|].
    rewrite E. cbn in *. split; [done|lia].
  - intros m Hm. destruct (Nat.le_gt_cases fuel (length buf + m s)) as [|Hlt]; [done|].
    destruct (Hend m Hm); [lia|lia|done].
Qed.

Lemma flight_end k id hostname t :
  keys_ok k → array_ok 32 (hs_secret k) → array_ok 32 (c_hs_traffic k) → len t < 2 ^ 61 - 36 →
  ∃ finished enc c, finished_message k t = Ok finished ∧
    seal_record (c_key k) (c_iv k) 0 (finished ++ [CT_HANDSHAKE]) = Ok enc ∧ len enc = 53 ∧
    application_keys id hostname (hs_secret k) (t ++ finished) = Ok c ∧
    array_ok 16 (client_key c) ∧ array_ok 12 (client_iv c) ∧ array_ok 16 (server_key c) ∧ array_ok 12 (server_iv c).
Proof.
  intros Hko Hks Hkt Hlen. destruct (finished_message_total k t) as (fin & Hfin & Hfl & Hfb); [done|lia|].
  destruct (decrypt_seal (c_key k) (c_iv k) 0 (fin ++ [CT_HANDSHAKE])) as (enc & Henc & Hencl & _); [apply Hko..| | |].
  { apply Forall_app. split; [done|by repeat constructor]. } { rewrite len_app. unfold len. rewrite Hfl. done. }
  destruct (application_keys_total id hostname (hs_secret k) (t ++ fin)) as (c & Hca & Hcs); [done| |].
  { rewrite len_app. unfold len in *. rewrite Hfl. lia. }
  exists fin, enc, c. refine (conj Hfin (conj Henc (conj _ (conj Hca Hcs)))).
  rewrite Hencl, len_app. unfold len. by rewrite Hfl.
Qed.

(** C25. Nothing that a server sends in a handshake makes the code after the key exchange
    panic.  In any bytes, less than 2^60 with the ClientHello, the search for a ServerHello ends, and the key it finds has 32
    bytes.  With any shared secret, the keys of the handshake are computed.  Then the two
    loops over the encrypted records run, the first one over the rest of the buffer,
    reading more when a record is incomplete, the second one over what is read after it.
    Whatever bytes the reads return, at most 4096 each, and whenever they fail, as long
    as a read itself does not panic, the loops do not panic in the first 2^40 records of
    the first loop; they fail only with the error of a failed read, and if there is a
    bound on the bytes that the server sends, the first loop ends.  When both loops have
    ended, the client's sealed Finished and the keys of the connection are all computed,
    with the widths that the cipher wants. *)
Theorem handshake_survives {W} buf client_hello shared id hostname (read_first read_more : M W NetError (list Z)) :
  bytes_ok buf → bytes_ok client_hello → array_ok 32 shared → len client_hello + len buf < 2 ^ 60 →
  reads read_first → reads read_more →
  ∃ offset got, find_server_hello (S (length buf)) buf 0 None = Ok (offset, got) ∧
    ∀ hello key, got = Some (hello, key) → array_ok 32 key ∧
      ∃ k, handshake_keys shared (client_hello ++ hello) = Ok k ∧ ∀ fuel s, Z.of_nat fuel ≤ 2 ^ 40 →
        match server_records read_first read_more fuel k buf offset (client_hello ++ hello) s with
        | (Ok (Some transcript), _) =>
            ∃ finished enc c, finished_message k transcript = Ok finished ∧
              seal_record (c_key k) (c_iv k) 0 (finished ++ [CT_HANDSHAKE]) = Ok enc ∧ len enc = 53 ∧
              application_keys id hostname (hs_secret k) (transcript ++ finished) = Ok c ∧
              array_ok 16 (client_key c) ∧ array_ok 12 (client_iv c) ∧ array_ok 16 (server_key c) ∧ array_ok 12 (server_iv c)
        | (Ok None, _) => ∀ m : W → nat, (∀ s bs s', read_first s = (Ok bs, s') → (length bs + m s' ≤ m s)%nat) →
            (fuel ≤ length buf + m s)%nat
        | (Err e, _) => fails_with read_first e
        | (Panic, _) => False
        end.
Proof.
  intros Hb Hc Hsh Hlen Hr1 Hr2.
  destruct (find_server_hello_total (S (length buf)) buf 0 None) as (offset & got & Hf & Hg); [done|lia|lia|done|].
  exists offset, got. split; [done|]. intros hello key ->. destruct Hg as (Hhb & Hkey & Hhl). split; [done|].
  pose proof (len_nonneg client_hello).
  assert (Ht : len (client_hello ++ hello) ≤ len client_hello + len buf) by (rewrite len_app; unfold len; lia).
  destruct (handshake_keys_total shared (client_hello ++ hello)) as (k & Hk & Hko & Hks & Hkt); [done|lia|].
  exists k. split; [exact Hk|]. intros fuel s Hfuel.
  assert (Htb : bytes_ok (client_hello ++ hello)) by by apply Forall_app.
  pose proof (server_records_cases read_first read_more fuel k buf offset (client_hello ++ hello) s) as Hcases.
  destruct (server_records _ _ _ _ _ _ _ _) as [[[t|]|e|] s']; cbn [fst] in Hcases.
  - destruct Hcases as [Htb' Htl']; [done..|lia|]. apply flight_end; [done..|lia].
  - by apply Hcases.
  - by apply Hcases.
  - by apply Hcases.
Qed.

(** Reads that take the buffers of a list, one after the other, and then time out. *)
Definition read_from : M (list (list Z)) NetError (list Z) := λ bufs,
  match bufs with
  | buf :: bufs => (Ok (as_u8 <$> take 4096 buf), bufs)
  | [] => (Err Timeout, [])
  end.

Lemma read_from_reads : reads read_from.
Proof.
  intros [|buf bufs]; [done|]. cbn. split.
  - apply Forall_fmap, Forall_true. intros x. by apply wrap_range.
  - unfold len. rewrite length_fmap, length_take. lia.
Qed.

Lemma handshake_survives_witness :
  let buf := record_bytes CT_HANDSHAKE [HS_SERVER_HELLO; 0; 0; 1; 0] ++ [CT_APP_DATA; 3; 3; 0; 30] ++ [CT_APP_DATA; 3; 3; 0; 20] in
  let bufs := [replicate 40 7; replicate 9 7] in
  ∃ k, handshake_keys (replicate 32 0) [1; HS_SERVER_HELLO; 0; 0; 1; 0] = Ok k ∧
    match (server_records read_from read_from 100 k buf 15 [1; HS_SERVER_HELLO; 0; 0; 1; 0] bufs).1 with
    | Ok (Some transcript) => ∃ finished, finished_message k transcript = Ok finished
    | Ok None | Panic => False
    | Err e => fails_with read_from e
    end.
Proof.
  intros buf bufs.
  destruct (handshake_survives buf [1] (replicate 32 0) 1 "example.org" read_from read_from)
    as (offset & got & Hf & Hgot).
  - by repeat constructor.
  - by repeat constructor.
  - by repeat constructor.
  - done.
  - apply read_from_reads.
  - apply read_from_reads.
  - vm_compute in Hf. injection Hf as <- <-.
    destruct (Hgot _ _ eq_refl) as (_ & k & Hk & Hall). exists k. split; [exact Hk|].
    specialize (Hall 100%nat bufs ltac:(done)).
    change (_ ++ [HS_SERVER_HELLO; 0; 0; 1; 0]) with [1; HS_SERVER_HELLO; 0; 0; 1; 0] in Hall.
    destruct (server_records _ _ _ _ _ _ _ _) as [[[t|]|e|] s']; cbn [fst].
    + destruct Hall as (fin & _ & _ & Hfin & _). exists fin. exact Hfin.
    + specialize (Hall (λ b, length (concat b))). apply (Nat.lt_irrefl 100).
      eapply Nat.le_lt_trans; [apply Hall|cbn; lia].
      intros [|b b'] bs s1; [done|]. intros [= <- <-]. cbn. rewrite length_fmap, length_take, length_app. lia.
    + exact Hall.
    + exact Hall.
Defined.

(** The search leaves the offset behind the first encrypted record of the buffer, so
    that record is never opened, and the next one is tried with its number. *)
Lemma first_record_skipped :
  let hello := record_bytes CT_HANDSHAKE [HS_SERVER_HELLO; 0; 0; 1; 0] in
  let first := record_bytes CT_APP_DATA (replicate 20 7) in
  let second := record_bytes CT_APP_DATA (replicate 30 7) in
  let buf := hello ++ first ++ second in
  ∃ got, find_server_hello (S (length buf)) buf 0 None = Ok (length (hello ++ first), got).
Proof. eexists. vm_compute. reflexivity. Qed.

(** If a record behind the ServerHello is incomplete, the offset is left behind its
    header, and the next loop takes the start of its body for a header. *)
Lemma header_skipped :
  let hello := record_bytes CT_HANDSHAKE [HS_SERVER_HELLO; 0; 0; 1; 0] in
  let buf := hello ++ take 9 (record_bytes CT_APP_DATA (replicate 30 7)) in
  ∃ got, find_server_hello (S (length buf)) buf 0 None = Ok (length hello + 5, got)%nat.
Proof. eexists. vm_compute. reflexivity. Qed.

(** Two records that arrive together: the second stays in the buffer until TCP has more
    bytes. *)
Lemma second_record_waits c d m1 m2 size :
  shares_keys c d → tls_buf d = [] → server_seq d = client_seq c → 0 ≤ client_seq c → client_seq c + 2 < 2 ^ 64 →
  Forall message_ok [m1; m2] → (length m1 ≤ size)%nat → (length m2 ≤ size)%nat →
  ∃ r1 r2 d', protect_all c [m1; m2] = Ok [r1; r2] ∧ recv_all d [r1 ++ r2] size = Ok ([m1], d') ∧ tls_buf d' = r2.
Proof.
  intros (Hk & Hi & Hko & Hio) Hb Hs H0 Hlen Hms Hsz1 Hsz2.
  destruct (protect_all_sealed c [m1; m2]) as (rs & Hrs & Hse); [done..|].
  rewrite <-Hk, <-Hi, <-Hs in Hse. inversion Hse as [|seq m ms enc1 rs1 Hd1 He1 Hs1 Hse1 Hseq Hms1 Hr]; subst.
  inversion Hse1 as [|seq m ms enc2 rs2 Hd2 He2 Hs2 Hse2 Hseq2 Hms2 Hr2]; subst. inversion Hse2; subst.
  eexists _, _, _. split; [exact Hrs|]. split.
  - cbn [recv_all]. rewrite (recv_bytes_record d _ size enc1 m1 (record_bytes CT_APP_DATA enc2)); [|by rewrite Hb|done..].
    cbn. by rewrite take_ge.
  - done.
Qed.
